(* ===== verification/_CoqProject ===== *)
-Q . S2P
Prelude.v
Mem.v
Abuf.v
AbufLog.v
AbufCmp.v
AbufTry.v
AbufProps.v
Protect.v
Cfc.v
Alloc.v
Heap.v
Cow.v
CowProps.v
CowWt.v
ModeHeap.v
Talloc.v
Tbin.v
Wts.v
CrcTables.v
Crc.v
Obuf.v
CpuIsolation.v
Ibuf.v
Channel.v
Sei.v
SeiTrace.v
SeiDmr.v
SeiNway.v
SeiHandler.v
SeiComplete.v
TmiCopy.v
TmiMock.v
SeiRollback.v
SeiRecover.v
SeiReach.v
SeiFault.v
SeiTab.v
Blocks.v
Lifetime.v
Tbar.v
Tmi.v
TmiLocks.v
TmiDelay.v
TmiSegv.v
TmiControl.v
TmiBulk.v
TmiMtl.v
LibcString.v
LibcStrtol.v
Hashtable.v
HashtableProps.v
HashtableItr.v
Ukv.v
UkvNet.v
UkvServer.v
UkvClient.v
Simple.v
