(* ===== verification/Prelude.v ===== *)
(** * libsei: a verification development

    libsei hardens event handlers of C programs against transient faults of the
    processor.  Every handler runs in a transaction that executes it twice (or
    N times); writes, allocations, frees, system calls and output messages of
    the executions are recorded, compared, and only then made visible.  Input
    messages carry a CRC-32C that is checked on entry, output messages get one
    on the way out.  With the recovery build a disagreement rolls the
    transaction back and migrates the thread to another processor core.

    ** Parts of the program and files of the development

    - Prelude (this file): outcomes of C functions ([outcome], [stop]), the
      build symbols ([Build]), arrays, loops, 64-bit reduction, tactics and the
      hint databases.
    - Mem: the byte memory, the four C integer types and typed little-endian
      access ([load], [store]); [≈] is equality of memories byte by byte, with
      its setoid instances.
    - Abuf (operations of src/abuf.c: push, pop, compare, swap, restore, the
      comparisons of the recovery and of the N-way build), AbufLog (a buffer as
      the list of its writes; swapping), AbufCmp and AbufTry (what the
      comparisons accept), AbufProps (the properties).
    - Protect (src/protect.c and the HEAP_PROTECT parts of src/mode_cow.c): page
      protection.
    - Cfc: the control-flow gates of src/cfc.c and the handle table of
      src/stash.c.
    - Alloc: the interface to the C library's allocator, a class of operations
      ([Allocator]) with its laws ([AllocatorLaws]) and one instance.
    - Heap: the private heap of src/heap.c, with headers and free lists in the
      modelled memory.
    - Cow (src/cow.c and src/cow_helpers.h), CowProps (write-back), CowWt
      (write-through): the hash-table write set.
    - ModeHeap (src/mode_heap.c): the driver of the heap mode, two private heaps
      with a write-back table each.
    - Talloc (src/talloc.c), Tbin (src/tbin.c), Wts (src/wts.c): allocations
      replayed across executions, delayed frees, delayed system calls.
    - CrcTables (the tables of src/crc32c/crc32c_software.c), Crc (the checksum
      routines of src/crc32c/ and src/crc.c).
    - Obuf (src/obuf.c), Ibuf (src/ibuf.c), Channel (sender and receiver put
      together): messages.
    - CpuIsolation (src/cpu_isolation.c): the core blacklist and migration.
    - Sei: the transaction driver of src/mode_cow.c in its default build
      (write-through, append-only buffers), all components in one state record;
      SeiTrace (executions as sequences of calls), SeiDmr (soundness of a
      transaction), SeiNway (more than two executions), SeiHandler and SeiComplete
      (handlers as deterministic programs, replay, no false alarms), SeiRollback (the
      rollback path), SeiRecover (the pre-check and commit of the build with
      recovery), SeiReach (the reachable states, as a step relation), SeiFault (the
      fault-injection build), SeiTab (the driver on the hash tables of Cow).
    - Blocks (the constructors, destructors and growing functions of the components,
      as programs that allocate and free blocks, with a calculus of ownership), Lifetime
      (the life of a process: sei_init, sei_fini and sei_shift of src/mode_cow.c,
      __sei_init, __sei_thread_init, __sei_shift and __sei_fini of src/tmi.c, in every
      combination of the compile-time switches).
    - Tbar (src/tbar.c): the traversal barrier, its functions and their
      interleaving by several threads as a step relation.
    - TmiCopy (the bulk copies of src/tmi.c against an interface of read and write
      barriers), Tmi (the rest of src/tmi.c, the interface the compiler calls:
      barriers, allocation, wrapped system calls and mutexes, the control loop
      around a handler), TmiLocks, TmiControl and TmiBulk (their theorems; the
      last puts the copies on the hash table), TmiDelay (the functions that perform
      delayed system calls), TmiSegv (the signal handler of
      src/protect.c that recovers from segmentation faults), TmiMtl (the mini traversals
      of the builds with SEI_MTL2, which end the transaction at every mutex call).
    - TmiMock (src/tmi_mock.c): the build without hardening, as a reference.
    - LibcString and LibcStrtol (src/libc, src/support.c): the C library functions
      that are compiled into transactions.
    - Hashtable, HashtableProps and HashtableItr (examples/ukv/hashtable), Ukv
      (examples/ukv/ukv.c), UkvNet (examples/ukv/ukv_net.c), UkvServer
      (examples/ukv/ukv_server.c) and UkvClient (examples/ukv/ukv_client.c): the example
      key-value store, its text protocol, the state machine of its server, its client.
    - Simple (examples/simple): the counter example and the generator of its input.

    C functions keep their names.  A function becomes a Definition that takes
    and returns the state it changes, in the [outcome] monad: [Ret] is a return,
    [Stop] says how the process stopped (a failed assertion, [SEI_FAIL],
    [abort], [exit], an access out of bounds, undefined arithmetic, an invalid
    free).  Assertions disappear when [NDEBUG] is set, as in the release build;
    unless a theorem says otherwise it holds for both builds.  Addresses and
    machine words are [Z] with the wrap-around written out.  A typed pointer is
    its address and a byte outside any object reads as 0; only array indexes are
    checked, the memory itself has no protection, like the flat address space
    the program runs in.

    ** What the theorems show

    The conditions of each theorem are in the comment before it.  Those that occur most
    often: the writes of an execution do not overlap partially, or share no byte at all
    where the code's comparison cannot tell repeated writes apart; the release build does
    not compare the number and widths of the writes; at most 8000 writes, and room for
    allocations, frees and calls; aligned writes for the hash table.

    - Transactions (SeiDmr, SeiNway, SeiComplete).  A two-phase transaction that
      returns has left exactly the effects each execution alone would have had, once;
      and a deterministic handler that stays within the documented limits
      always commits, with the effects of the build without hardening (TmiMock).
      The two together say that the driver accepts the right
      transactions and no others, up to the listed conditions.  With more
      executions the first and the last one are compared by value and all of them
      by what they wrote, freed, requested and allocated.
      The same holds of the builds on hash tables (SeiTab), for two executions.
      The heap mode commits exactly the transactions that leave its two heaps with
      the same data (ModeHeap).
      Every state that can be reached, through rollbacks and changes of the level
      too, is well formed, and nothing is left behind between transactions (SeiReach);
      inside one, later phases have nothing yet but calls a rollback has not removed.
    - Recovery (SeiRecover, SeiFault, SeiRollback, TmiSegv).  The answer of the
      pre-check is exact and it changes nothing; what is committed after it is
      right; injected faults that touch a written value are seen; all of this when
      no byte is written twice.  A segmentation fault in the first execution is undone
      when, besides, nothing was allocated.
    - The compiler's interface (TmiControl, TmiLocks, TmiCopy, TmiBulk).  The loop
      around an atomic block executes it as often as the redundancy level says and
      commits; locks are taken by the first execution and released at the commit;
      bulk copies of any size and alignment are sequences of aligned writes with
      the effect of memcpy, also through the hash table, and leave what the plain build
      leaves, overlapping memmove excepted; delayed system calls are the
      calls the handler made (TmiDelay).
    - Mini traversals (TmiMtl).  A handler with mutex calls, executed in pieces that are
      committed one by one, has the effects of the plain build and makes each mutex call
      once, between two transactions.
    - Life of a process (Lifetime).  After any sequence of up to 16 threads attaching (by
      a prepare function or a shift), contexts and growing buffers every context that has a handle is live; a shift returns and
      exchanges exactly the contexts of its thread; the destructor frees no
      block twice and leaves an exactly known set of blocks behind.
    - Page protection (Protect).  Exactly the written pages become writable; the commit
      protects half of them again.
    - The traversal barrier (Tbar).  In every interleaving of fewer than 2^31
      events the barrier opens only after every thread that was inside has left.
    - The write logs (AbufProps, CowProps, CowWt).  Swapping undoes an
      execution; comparison accepts exactly the logs that leave the same memory
      (on logs without repeated objects for the non-aborting one); the hash
      table is transparent to reads, and its commit is sound and complete.
    - Allocations, frees and calls (Talloc, Tbin, Wts, Heap).  Replay returns the
      same blocks; frees and calls happen once, in order, exactly when the phases
      agree; the private heap never hands out overlapping blocks and reuses
      blocks first in, first out.
    - Checksums (Crc).  Every routine, software or hardware, computes the bitwise
      CRC-32C for every length and alignment; a change within four bytes is
      always detected.
    - Messages (Obuf, Ibuf, Channel).  The checksum of a message is that of the
      concatenated bytes, the receiver accepts it and rejects alterations within
      four bytes; the retry loop of the entry check ends whatever the cores do
      and is right, when it repeats the checksum on one core, if one usable core is
      healthy and faulty ones never agree on a wrong value.
    - Cores (CpuIsolation).  Selection is round robin over usable cores, and no
      path leaves the thread on a blacklisted one.
    - The C library functions (LibcString, LibcStrtol).  strcmp is the
      lexicographic order; strtol reads every number exactly, cuts off at the
      limits without overflow, and reads back what was printed; memmove_bsd is
      described in every branch.
    - The example store (HashtableProps, HashtableItr, Ukv, UkvNet, UkvServer, UkvClient).  The hash table
      implements a map and owns exactly the blocks of its entries; a walk with an
      iterator sees every pair once; a whole session answers like a
      map and leaves no block behind; the text protocol refines a map of strings, and
      so does the server behind its connections, with checksums in both directions,
      for messages that have at least the length of a checksum;
      client and server together show the user the answers of the map, over a
      connection that delivers messages whole.
    - The counter example (Simple).  Its output is the running sum of the lengths of
      the messages with a right checksum, below one million.
    - Limits (the properties of kind error and bounds): where the code does not
      do what it means to, the theorem states what it does.

    ** Parameters and their hypotheses

    The checksum function of the driver theorems, the CRC32 instruction (with
    its documented meaning), CPUID, the affinity system calls, the behaviour of
    the cores, mprotect and the delayed functions are arguments; file TmiDelay has the
    delayed functions the program registers, over the system's close, send and sendto.  The C library's
    allocator is the class of file Alloc; its laws say that a fresh block is not
    null and not live, where the strings of a protocol matter also that it
    overlaps no live block, and they have an instance.  The bulk copies are proved
    against the class of barriers of file TmiCopy, the hash table against the class
    of key functions of file HashtableProps; file Ukv has the instance the program
    uses.  The life of a process is proved against the allocator with realloc (class
    Reallocator of file Blocks) and for any sizes of the structs.  The mutex functions of
    the mini traversals, and the address of the stack, are arguments.  The server is proved against the class of message operations of file
    UkvServer, which has its instance on the input and output buffers; so is the
    counter example.  What one recv returns of a message sent is a parameter of the client
    and server together.

    ** Bounds and fuel

    Loops over arrays are counting loops with the code's bounds, or structural.
    Where a loop has no such bound the function takes fuel and answers [None]
    without enough of it; the theorems say how much is enough: two rounds more than
    cores for the retry loop of ibuf_prepare, more than the length of the list for
    the walk along a free list or a chain of the hash table, 64 rounds for int_log2,
    more than the size for a bulk copy, as many as the redundancy level for the loop
    around an atomic block, two rounds per piece for a handler in mini traversals, more
    than the length of the string for the string functions.  Counters declared int are natural numbers bounded by the capacity of
    their arrays.

    ** Not modelled

    Operating-system calls, the installation of signal handlers, stack information
    (sinfo.c), logging and statistics; the loading of the wrapped functions (dlsym);
    transactions on the private heap of the copy-on-write mode (COW_USEHEAP); barriers
    with a pthread mutex (TBAR_PTHREAD); 32-bit builds; sockets and command lines of the
    examples.  The write
    barrier of the heap mode does not compile: a comment inside the macro SEI_WRITE of
    mode_heap.c swallows the rest of the macro.  The assembly code that saves and
    restores registers and the stack (tmi_asm.S) is the jump it makes; SEI_MTL without
    SEI_MTL2, where only unlocking ends a transaction and locks are recorded, is left out. *)

From stdpp Require Export base list strings.
From Stdlib Require Export ZArith Lia.

Declare Scope sei_scope.
Delimit Scope sei_scope with sei.
#[global] Open Scope sei_scope.
#[global] Open Scope Z_scope.
#[export] Set Warnings "-clear-no-such-hyp".

(** ** Build configuration

    The preprocessor symbols the sources branch on.  [NDEBUG] removes every
    [assert] (the default, release build defines it); [SEI_DMR_REDUNDANCY] is
    the compile-time number of executions of a handler. *)

Class Build := {
  NDEBUG : bool;
  SEI_DMR_REDUNDANCY : nat;
}.

(** Concrete configurations: a debug and a release build for [n] executions. *)
Definition debug_build (n : nat) : Build := {| NDEBUG := false; SEI_DMR_REDUNDANCY := n |}.
Definition release_build (n : nat) : Build := {| NDEBUG := true; SEI_DMR_REDUNDANCY := n |}.

(** ** Outcomes

    A C function of the library either returns or stops the process.  The ways
    of stopping are kept apart: a failed [assert], the [SEI_FAIL] macro of
    fail.h (with its message), [abort()], [exit()], an access outside an array,
    arithmetic that C leaves undefined (signed overflow, a shift by the width or
    more) and a [free] of a block that is not live. *)

Inductive stop :=
  | AssertFailed
  | SeiFail (msg : string)
  | Aborted
  | Exited
  | OutOfBounds
  | UndefinedArith
  | InvalidFree.

Inductive outcome (A : Type) :=
  | Ret (a : A)
  | Stop (s : stop).
Arguments Ret {A} a.
Arguments Stop {A} s.

#[global] Instance outcome_ret : MRet outcome := fun A a => Ret a.
#[global] Instance outcome_bind : MBind outcome := fun A B f o =>
  match o with Ret a => f a | Stop s => Stop s end.
#[global] Instance outcome_fmap : FMap outcome := fun A B f o =>
  match o with Ret a => Ret (f a) | Stop s => Stop s end.

#[global] Instance stop_eq_dec : EqDecision stop.
Proof. solve_decision. Defined.

#[global] Instance outcome_eq_dec {A} `{EqDecision A} : EqDecision (outcome A).
Proof. solve_decision. Defined.

(** [assert (b)] of <assert.h>. *)
Definition c_assert `{Build} (b : bool) : outcome unit :=
  if NDEBUG || b then Ret tt else Stop AssertFailed.

(** The macro [fail_ifn(cond, msg)] of fail.h. *)
Definition fail_ifn (cond : bool) (msg : string) : outcome unit :=
  if cond then Ret tt else Stop (SeiFail msg).

(** Reading and writing an array by index, with C's undefined behaviour out of
    range made visible. *)
Definition arr_get {A} (l : list A) (i : nat) : outcome A :=
  match l !! i with Some x => Ret x | None => Stop OutOfBounds end.

Definition arr_set {A} (l : list A) (i : nat) (x : A) : outcome (list A) :=
  if decide (i < length l)%nat then Ret (<[i := x]> l) else Stop OutOfBounds.

(** A counting loop [for (i = lo; i < lo + n; ++i) st = body i st]. *)
Fixpoint for_range {S} (n lo : nat) (body : nat -> S -> outcome S) (st : S)
  : outcome S :=
  match n with
  | O => Ret st
  | S n' => st' ← body lo st; for_range n' (lo + 1)%nat body st'
  end.

(** A loop of checks [for (i = lo; i < lo + n; ++i) if (!ok i) return 0;]. *)
Definition all_range (n lo : nat) (ok : nat -> bool) : bool :=
  forallb ok (seq lo n).

(** The same loop when the check itself may stop. *)
Fixpoint check_range (n lo : nat) (ok : nat -> outcome bool) : outcome bool :=
  match n with
  | O => Ret true
  | S n' => b ← ok lo; if negb b then Ret false else check_range n' (lo + 1)%nat ok
  end.

(** Indexing with a C [int]. *)
Definition arr_getZ {A} (l : list A) (i : Z) : outcome A :=
  if i <? 0 then Stop OutOfBounds else arr_get l (Z.to_nat i).
Definition arr_setZ {A} (l : list A) (i : Z) (x : A) : outcome (list A) :=
  if i <? 0 then Stop OutOfBounds else arr_set l (Z.to_nat i) x.

(** Loops without an a priori bound.  A function that contains one takes fuel
    and answers [None] when it runs out; [lift] embeds a function without. *)
Definition lift {A} (o : outcome A) : option (outcome A) := Some o.
Definition fbind {A B} (x : option (outcome A)) (f : A -> option (outcome B)) : option (outcome B) :=
  match x with
  | None => None
  | Some (Stop e) => Some (Stop e)
  | Some (Ret a) => f a
  end.
Notation "' p ⇐ e ; k" := (fbind e (fun p => k))
  (at level 20, p pattern, e at level 100, k at level 200, only parsing) : sei_scope.
Notation "x ⇐ e ; k" := (fbind e (fun x => k))
  (at level 20, e at level 100, k at level 200, only parsing) : sei_scope.

(** [while (cond st) st = body st;] *)
Fixpoint while_do {S} (fuel : nat) (cond : S -> bool) (body : S -> outcome S) (st : S) : option (outcome S) :=
  match fuel with
  | O => None
  | S fuel' => if cond st then st' ⇐ lift (body st); while_do fuel' cond body st' else Some (Ret st)
  end.

(** Reduction to an unsigned 64-bit value. *)
Definition u64 (x : Z) : Z := x mod 2^64.

(** Reduction to an unsigned 32-bit value. *)
Definition u32 (x : Z) : Z := x mod 2^32.

(** Conversion to [int]. *)
Definition s32 (x : Z) : Z := (x + 2^31) mod 2^32 - 2^31.

(** [++x] on an [int]. *)
Definition INT_MAX : Z := 2^31 - 1.
Definition int_inc (x : Z) : outcome Z :=
  if x <? INT_MAX then Ret (x + 1) else Stop UndefinedArith.

(** ** Automation *)

Create HintDb sei.
Create Rewrite HintDb sei_rw.

Lemma bind_Ret {A B} (o : outcome A) (f : A -> outcome B) (b : B) :
  (o ≫= f) = Ret b <-> exists a, o = Ret a /\ f a = Ret b.
Proof.
  split; destruct o; cbn; [eauto | discriminate | |].
  - intros (a' & [= ->] & H). exact H.
  - intros (a' & [=] & _).
Qed.

Lemma bind_Ret_l {A B} (a : A) (k : A -> outcome B) : (Ret a ≫= k) = k a.
Proof. done. Qed.

(** Building a run step by step. *)
Lemma bind_Ret_intro {A B} (o : outcome A) (k : A -> outcome B) a b :
  o = Ret a -> k a = Ret b -> (o ≫= k) = Ret b.
Proof. intros -> E. exact E. Qed.

Lemma bind_ex {A B} (o : outcome A) (k : A -> outcome B) (P : B -> Prop) a :
  o = Ret a -> (exists b, k a = Ret b /\ P b) -> exists b, (o ≫= k) = Ret b /\ P b.
Proof. intros -> E. exact E. Qed.

Lemma fail_ifn_Ret b msg u : fail_ifn b msg = Ret u <-> b = true.
Proof. unfold fail_ifn; destruct b, u; split; congruence. Qed.

Lemma c_assert_Ret `{Build} b u :
  c_assert b = Ret u <-> (NDEBUG = false -> b = true).
Proof.
  unfold c_assert; destruct NDEBUG, b, u; cbn; split; try congruence; auto.
  intros H'; discriminate H'; reflexivity.
Qed.

Lemma c_assert_true `{Build} : c_assert true = Ret tt.
Proof. unfold c_assert. by rewrite orb_true_r. Qed.

Lemma arr_get_Ret {A} (l : list A) i x : arr_get l i = Ret x <-> l !! i = Some x.
Proof. unfold arr_get; destruct (l !! i); split; congruence. Qed.

Lemma arr_set_Ret {A} (l l' : list A) i x :
  arr_set l i x = Ret l' <-> (i < length l)%nat /\ l' = <[i := x]> l.
Proof. unfold arr_set; case_decide; split; intuition congruence. Qed.

Lemma arr_get_lt {A} (l : list A) i : (i < length l)%nat ->
  exists x, l !! i = Some x /\ arr_get l i = Ret x.
Proof.
  intros H. destruct (lookup_lt_is_Some_2 l i H) as [x Hx].
  exists x. split; [done|]. by apply arr_get_Ret.
Qed.

Lemma arr_set_lt {A} (l : list A) i x : (i < length l)%nat ->
  arr_set l i x = Ret (<[i := x]> l).
Proof. intros H. by apply arr_set_Ret. Qed.

#[export] Hint Rewrite @c_assert_true : sei_rw.

(** [inv_outcome] turns hypotheses of the form [(o ≫= k) = Ret v] into the
    facts their steps give. *)
Ltac inv_outcome_step :=
  match goal with
  | H : (_ ≫= _) = Ret _ |- _ =>
      let a := fresh "r" in let H1 := fresh "H" in let H2 := fresh "H" in
      apply bind_Ret in H; destruct H as (a & H1 & H2); cbn beta in H2
  | H : Ret _ = Ret _ |- _ => injection H as H; try subst
  | H : Stop _ = Ret _ |- _ => discriminate H
  | H : fail_ifn _ _ = Ret _ |- _ => apply fail_ifn_Ret in H
  | H : arr_get _ _ = Ret _ |- _ => apply arr_get_Ret in H
  | H : arr_set _ _ _ = Ret _ |- _ => apply arr_set_Ret in H as [? ->]
  | H : c_assert _ = Ret _ |- _ =>
      let H1 := fresh in
      pose proof (proj1 (c_assert_Ret _ _) H) as H1; clear H; rename H1 into H
  end.
Ltac inv_outcome := repeat inv_outcome_step.

(** ** Generic lemmas *)

Lemma cons_inj {A} (x y : A) (l k : list A) : x :: l = y :: k -> x = y /\ l = k.
Proof. intros E. split; congruence. Qed.

Lemma for_range_invariant {S} (P : nat -> S -> Prop) n lo body (st st' : S) :
  P lo st ->
  (forall i s s', (lo <= i < lo + n)%nat -> P i s -> body i s = Ret s' -> P (i + 1)%nat s') ->
  for_range n lo body st = Ret st' ->
  P (lo + n)%nat st'.
Proof.
  revert lo st. induction n as [|n IH]; intros lo st HP Hstep Hrun; cbn in Hrun.
  - inv_outcome. by rewrite Nat.add_0_r.
  - inv_outcome. replace (lo + Datatypes.S n)%nat with ((lo + 1) + n)%nat by lia.
    eapply IH; [| |eassumption].
    + eapply Hstep; eauto; lia.
    + intros; eapply Hstep; eauto; lia.
Qed.

(** A loop whose body never stops returns. *)
Lemma for_range_total {S} (P : nat -> S -> Prop) n lo body (st : S) :
  P lo st ->
  (forall i s, (lo <= i < lo + n)%nat -> P i s -> exists s', body i s = Ret s' /\ P (i + 1)%nat s') ->
  exists st', for_range n lo body st = Ret st' /\ P (lo + n)%nat st'.
Proof.
  revert lo st. induction n as [|n IH]; intros lo st HP Hstep; cbn.
  - exists st. by rewrite Nat.add_0_r.
  - destruct (Hstep lo st) as (s' & Hs' & HP'); [lia|done|].
    rewrite Hs'. cbn. destruct (IH (lo + 1)%nat s') as (st' & Hrun & HPst'); [done| |].
    + intros; apply Hstep; auto; lia.
    + exists st'. split; [done|]. by replace (lo + Datatypes.S n)%nat with ((lo + 1) + n)%nat by lia.
Qed.

(** [run_loop P x Hx] runs the next loop of the goal to its result [x], which
    keeps [P]. *)
Ltac run_loop P x Hx :=
  match goal with
  | |- context [for_range ?n ?lo ?b ?st] =>
      let E := fresh "E" in
      destruct (for_range_total P n lo b st) as (x & E & Hx);
        [| |rewrite E; clear E; cbn [mbind outcome_bind]]
  end.

Lemma all_range_true n lo ok :
  all_range n lo ok = true <-> forall i, (lo <= i < lo + n)%nat -> ok i = true.
Proof.
  unfold all_range. rewrite forallb_forall. split; intros H i Hi; apply H.
  - by apply in_seq.
  - by apply in_seq in Hi.
Qed.

Lemma check_range_spec n lo ok (g : nat -> bool) :
  (forall i, (lo <= i < lo + n)%nat -> ok i = Ret (g i)) ->
  exists b, check_range n lo ok = Ret b /\
    (b = true <-> forall i, (lo <= i < lo + n)%nat -> g i = true).
Proof.
  revert lo. induction n as [|n IH]; intros lo H; cbn.
  { exists true. split; [done|]. split; [|done]. intros _ i Hi. lia. }
  rewrite H by lia. cbn. destruct (g lo) eqn:Eg; cbn.
  - destruct (IH (lo + 1)%nat) as (b & -> & Hb); [intros; apply H; lia|].
    exists b. split; [done|]. rewrite Hb. split; intros Hall i Hi.
    + destruct (decide (i = lo)) as [->|]; [done|]. apply Hall. lia.
    + apply Hall. lia.
  - exists false. split; [done|]. split; [done|]. intros Hall.
    rewrite Hall in Eg by lia. done.
Qed.

Lemma range_0_1 (n : nat) (P : nat -> Prop) : P 0%nat ->
  (forall p, (1 <= p < 1 + (n - 1))%nat -> P p) <-> (forall p, (p < n)%nat -> P p).
Proof.
  intros Hz. split.
  - intros Hs p Hp. destruct p; [done|]. apply Hs. lia.
  - intros Hs p Hp. apply Hs. lia.
Qed.

Lemma range_0 (n : nat) (P : nat -> Prop) :
  (forall p, (0 <= p < 0 + n)%nat -> P p) <-> (forall p, (p < n)%nat -> P p).
Proof. split; intros Hs p Hp; apply Hs; lia. Qed.

Lemma arr_get_nth {A} (d : A) (l : list A) i : (i < length l)%nat -> arr_get l i = Ret (nth i l d).
Proof.
  intros Hi. destruct (arr_get_lt l i Hi) as (x & Hx & ->). by rewrite nth_lookup, Hx.
Qed.

Lemma nth_lt_lookup {A} (d : A) (l : list A) i : (i < length l)%nat -> l !! i = Some (nth i l d).
Proof. intros Hi. by apply arr_get_Ret, arr_get_nth. Qed.

Lemma arr_getZ_nat {A} (l : list A) (p : nat) : arr_getZ l (Z.of_nat p) = arr_get l p.
Proof. unfold arr_getZ. by rewrite (proj2 (Z.ltb_ge (Z.of_nat p) 0)), Nat2Z.id by lia. Qed.

Lemma arr_setZ_nat {A} (l : list A) (p : nat) x : arr_setZ l (Z.of_nat p) x = arr_set l p x.
Proof. unfold arr_setZ. by rewrite (proj2 (Z.ltb_ge (Z.of_nat p) 0)), Nat2Z.id by lia. Qed.

Lemma phase_in_range (p n : nat) : (p < n)%nat ->
  ((0 <=? Z.of_nat p) && (Z.of_nat p <? Z.of_nat n)) = true.
Proof. intros Hp. apply andb_true_iff. split; [apply Z.leb_le|apply Z.ltb_lt]; lia. Qed.

Lemma nth_insert_eq {A} (d : A) (l : list A) i x : (i < length l)%nat -> nth i (<[i := x]> l) d = x.
Proof. intros Hi. by rewrite nth_lookup, list_lookup_insert_eq. Qed.

Lemma nth_insert_ne {A} (d : A) (l : list A) i j x : i <> j -> nth j (<[i := x]> l) d = nth j l d.
Proof. intros Hi. by rewrite !nth_lookup, list_lookup_insert_ne. Qed.

Lemma int_inc_lt x : x < INT_MAX -> int_inc x = Ret (x + 1).
Proof. intros Hx. unfold int_inc. by rewrite (proj2 (Z.ltb_lt _ _) Hx). Qed.

Lemma u64_small x : 0 <= x < 2^64 -> u64 x = x.
Proof. apply Z.mod_small. Qed.

Lemma u32_small x : 0 <= x < 2^32 -> u32 x = x.
Proof. apply Z.mod_small. Qed.

(** A check that returns, and returns [true] exactly when [P] holds. *)
Definition decides (o : outcome bool) (P : Prop) : Prop :=
  exists b, o = Ret b /\ (b = true <-> P).

Lemma decides_iff o P Q : (P <-> Q) -> decides o P -> decides o Q.
Proof. intros HPQ (b & E & Hb). exists b. split; [done|]. by rewrite Hb. Qed.

Lemma decides_ret b (P : Prop) : (b = true <-> P) -> decides (Ret b) P.
Proof. intros Hb. by exists b. Qed.

Lemma decides_and o k P Q : decides o P -> (P -> decides k Q) ->
  decides (b ← o; if negb b then Ret false else k) (P /\ Q).
Proof.
  intros (b & -> & Hb) Hk. cbn. destruct b; cbn.
  - destruct Hk as (c & -> & Hc); [by apply Hb|]. exists c. split; [done|].
    rewrite Hc. split; [|tauto]. split; [by apply Hb|done].
  - exists false. split; [done|]. split; [done|]. intros [HP _]. by apply Hb.
Qed.

Lemma decides_range n lo ok (P : nat -> Prop) :
  (forall i, (lo <= i < lo + n)%nat -> decides (ok i) (P i)) ->
  decides (check_range n lo ok) (forall i, (lo <= i < lo + n)%nat -> P i).
Proof.
  revert lo. induction n as [|n IH]; intros lo H; cbn.
  { apply decides_ret. split; [|done]. intros _ i Hi. lia. }
  eapply decides_iff; [|apply decides_and; [apply H; lia|intros _; apply IH; intros; apply H; lia]].
  split.
  - intros [H1 H2] i Hi. destruct (decide (i = lo)) as [->|]; [done|]. apply H2. lia.
  - intros Hall. split; [apply Hall; lia|]. intros i Hi. apply Hall. lia.
Qed.

(** A loop whose body only checks returns exactly when every check passes. *)
Lemma for_range_check_ok n lo (body : nat -> unit -> outcome unit) :
  (forall i, (lo <= i < lo + n)%nat -> body i tt = Ret tt) ->
  for_range n lo body tt = Ret tt.
Proof.
  revert lo. induction n as [|n IH]; intros lo H; cbn; [done|].
  rewrite H by lia. cbn. apply IH. intros; apply H; lia.
Qed.

Lemma for_range_check_Ret n lo (body : nat -> unit -> outcome unit) u :
  for_range n lo body tt = Ret u ->
  forall i, (lo <= i < lo + n)%nat -> body i tt = Ret tt.
Proof.
  revert lo. induction n as [|n IH]; intros lo H i Hi; cbn in H; [lia|].
  inv_outcome. match goal with r : unit |- _ => destruct r end.
  destruct (decide (i = lo)) as [->|]; [done|].
  match goal with X : for_range _ _ _ ?r = _ |- _ => destruct r; eapply IH; [exact X|lia] end.
Qed.
