(* ===== verification/Mem.v ===== *)
(** * Program memory

    The memory the instrumented program reads and writes: bytes indexed by
    address, with little-endian accesses of 1, 2, 4 and 8 bytes (the target is
    x86-64).  Unmapped memory is not distinguished; every address holds a byte.
    Two memories are compared byte by byte ([mem_eq]), which is coarser than
    equality of the finite maps, so the accessors come with [Proper]
    instances. *)

From stdpp Require Export gmap.
From Stdlib Require Import Morphisms Setoid.
From S2P Require Export Prelude.

Abbreviation mem := (gmap Z Z).

(** The unsigned types the library instantiates its macros with. *)
Inductive cty := uint8_t | uint16_t | uint32_t | uint64_t.

#[global] Instance cty_eq_dec : EqDecision cty.
Proof. solve_decision. Defined.

Definition sizeof (t : cty) : nat :=
  match t with uint8_t => 1 | uint16_t => 2 | uint32_t => 4 | uint64_t => 8 end.

(** Decoding a size field with [switch (size) case sizeof(...)]. *)
Definition cty_of_size (n : Z) : option cty :=
  if n =? 1 then Some uint8_t else if n =? 2 then Some uint16_t
  else if n =? 4 then Some uint32_t else if n =? 8 then Some uint64_t else None.

(** Reduction to [n] bytes. *)
Definition wrap (n : nat) (v : Z) : Z := v mod 256 ^ Z.of_nat n.

Definition mget (m : mem) (a : Z) : Z := default 0 (m !! a) mod 256.

Fixpoint load (n : nat) (m : mem) (a : Z) : Z :=
  match n with
  | O => 0
  | S n' => mget m a + 256 * load n' m (a + 1)
  end.

Fixpoint store (n : nat) (m : mem) (a v : Z) : mem :=
  match n with
  | O => m
  | S n' => store n' (<[a := v mod 256]> m) (a + 1) (v / 256)
  end.

Definition mem_eq (m1 m2 : mem) : Prop := forall a, mget m1 a = mget m2 a.
Infix "≈" := mem_eq (at level 70) : sei_scope.
#[global] Open Scope sei_scope.

(** An address is a multiple of the size of its type. *)
Definition aligned (t : cty) (addr : Z) : Prop := addr mod Z.of_nat (sizeof t) = 0.

(** Byte ranges [a, a+n) and [b, b+k) share no byte. *)
Definition disjoint_range (a : Z) (n : nat) (b : Z) (k : nat) : Prop :=
  a + Z.of_nat n <= b \/ b + Z.of_nat k <= a.

Definition in_range (x a : Z) (n : nat) : Prop := a <= x < a + Z.of_nat n.

#[global] Instance in_range_dec x a n : Decision (in_range x a n).
Proof. unfold in_range. apply _. Defined.

#[global] Instance aligned_dec t addr : Decision (aligned t addr).
Proof. unfold aligned. apply _. Defined.

#[global] Instance disjoint_range_dec a n b k : Decision (disjoint_range a n b k).
Proof. unfold disjoint_range. apply _. Defined.

(** ** Lemmas *)

#[global] Instance mem_eq_equivalence : Equivalence mem_eq.
Proof.
  split; [intros m a; reflexivity | intros m1 m2 H a; symmetry; apply H |].
  intros m1 m2 m3 H1 H2 a. etransitivity; [apply H1 | apply H2].
Qed.

Lemma cty_of_size_sizeof t : cty_of_size (Z.of_nat (sizeof t)) = Some t.
Proof. by destruct t. Qed.

Lemma cty_of_size_Some n t : cty_of_size n = Some t -> n = Z.of_nat (sizeof t).
Proof.
  unfold cty_of_size. intros H.
  repeat match type of H with
  | (if ?b then _ else _) = _ => destruct b eqn:?; [simplify_eq; cbn; lia|]
  end. discriminate.
Qed.

Lemma mget_bound m a : 0 <= mget m a < 256.
Proof. apply Z.mod_pos_bound. lia. Qed.

Lemma mget_insert m a v b :
  mget (<[a := v]> m) b = if decide (a = b) then v mod 256 else mget m b.
Proof. unfold mget. rewrite lookup_insert. by case_decide. Qed.

Lemma pow256_S n : 256 ^ Z.of_nat (S n) = 256 * 256 ^ Z.of_nat n.
Proof. rewrite Nat2Z.inj_succ, Z.pow_succ_r; lia. Qed.

Lemma pow256_pos n : 0 < 256 ^ Z.of_nat n.
Proof. apply Z.pow_pos_nonneg; lia. Qed.

Lemma wrap_small n v : 0 <= v < 256 ^ Z.of_nat n -> wrap n v = v.
Proof. apply Z.mod_small. Qed.

Lemma wrap_bound n v : 0 <= wrap n v < 256 ^ Z.of_nat n.
Proof. apply Z.mod_pos_bound, pow256_pos. Qed.

Lemma wrap_S n v : wrap (S n) v = v mod 256 + 256 * wrap n (v / 256).
Proof.
  unfold wrap. rewrite pow256_S. pose proof (pow256_pos n) as Hp.
  rewrite (Z.rem_mul_r v 256) by lia. lia.
Qed.

Lemma load_bound n m a : 0 <= load n m a < 256 ^ Z.of_nat n.
Proof.
  revert a. induction n as [|n IH]; intros a; [cbn; lia|].
  rewrite pow256_S. cbn [load]. specialize (IH (a + 1)).
  pose proof (mget_bound m a). lia.
Qed.

#[global] Instance load_proper n : Proper (mem_eq ==> eq ==> eq) (load n).
Proof.
  intros m1 m2 H a ? <-. revert a.
  induction n as [|n IH]; intros a; cbn; [done|]. by rewrite H, IH.
Qed.

#[global] Instance mget_proper : Proper (mem_eq ==> eq ==> eq) mget.
Proof. intros m1 m2 H a ? <-. apply H. Qed.

(** The byte a store leaves at [b]. *)
Lemma mget_store_out n m a v b :
  ~ in_range b a n -> mget (store n m a v) b = mget m b.
Proof.
  unfold in_range. revert m a v. induction n as [|n IH]; intros m a v Hb; cbn; [done|].
  rewrite IH by lia. rewrite mget_insert. case_decide; [lia|done].
Qed.

Lemma mget_store_in n m a v b :
  in_range b a n -> mget (store n m a v) b = (v / 256 ^ (b - a)) mod 256.
Proof.
  unfold in_range. revert m a v. induction n as [|n IH]; intros m a v Hb; [lia|].
  cbn. destruct (decide (a = b)) as [->|Hne].
  - rewrite mget_store_out by (unfold in_range; lia).
    rewrite mget_insert, decide_True by done.
    rewrite Z.mod_mod, Z.sub_diag, Z.pow_0_r, Z.div_1_r by lia. done.
  - rewrite IH by lia. f_equal.
    rewrite Z.div_div by (try apply Z.pow_pos_nonneg; lia).
    rewrite <- Z.pow_succ_r by lia. do 2 f_equal. lia.
Qed.

Lemma mget_store n m a v b :
  mget (store n m a v) b =
  if decide (in_range b a n) then (v / 256 ^ (b - a)) mod 256 else mget m b.
Proof. case_decide; [by apply mget_store_in | by apply mget_store_out]. Qed.

#[global] Instance store_proper n : Proper (mem_eq ==> eq ==> eq ==> mem_eq) (store n).
Proof.
  intros m1 m2 H a ? <- v ? <- b. rewrite !mget_store. by case_decide; [|apply H].
Qed.

(** The bytes of a value loaded. *)
Lemma load_byte n m a b :
  in_range b a n -> (load n m a / 256 ^ (b - a)) mod 256 = mget m b.
Proof.
  unfold in_range. revert a. induction n as [|n IH]; intros a Hb; [lia|].
  cbn [load]. pose proof (mget_bound m a). pose proof (load_bound n m (a + 1)).
  destruct (decide (a = b)) as [->|Hne].
  - rewrite Z.sub_diag, Z.pow_0_r, Z.div_1_r.
    rewrite (Z.mul_comm 256), Z_mod_plus_full. by apply Z.mod_small.
  - rewrite <- (IH (a + 1)) by lia. f_equal.
    replace (b - a) with (Z.succ (b - (a + 1))) by lia.
    rewrite Z.pow_succ_r, <- Z.div_div by (try apply Z.pow_pos_nonneg; lia).
    f_equal. symmetry. apply (Z.div_unique _ _ _ (mget m a)); lia.
Qed.

Lemma load_ext n m1 m2 a :
  (forall b, in_range b a n -> mget m1 b = mget m2 b) -> load n m1 a = load n m2 a.
Proof.
  revert a. induction n as [|n IH]; intros a H; cbn; [done|].
  rewrite (H a), (IH (a + 1)); [done| |]; unfold in_range in *; try lia.
  intros b Hb. apply H. unfold in_range. lia.
Qed.

Lemma load_store_same n m a v : load n (store n m a v) a = wrap n v.
Proof.
  revert m a v. induction n as [|n IH]; intros m a v; [unfold wrap; by rewrite Z.mod_1_r|].
  cbn [load store]. rewrite IH, wrap_S. f_equal.
  rewrite mget_store_out by (unfold in_range; lia).
  rewrite mget_insert, decide_True by done. apply Z.mod_mod. lia.
Qed.

Lemma load_store_disjoint n k m a b v :
  disjoint_range a n b k -> load k (store n m a v) b = load k m b.
Proof.
  intros Hd. apply load_ext. intros x Hx. apply mget_store_out.
  unfold disjoint_range, in_range in *. lia.
Qed.

(** Writing back what was read changes nothing. *)
Lemma store_load_id n m a : store n m a (load n m a) ≈ m.
Proof.
  intros b. rewrite mget_store. case_decide; [by apply load_byte|done].
Qed.

(** The undo step: overwrite, then write the old value back. *)
Lemma store_undo n m a v : store n (store n m a v) a (load n m a) ≈ m.
Proof.
  intros b. rewrite mget_store. case_decide as Hb; [by apply load_byte|].
  by apply mget_store_out.
Qed.

Lemma store_wrap n m a v : store n m a (wrap n v) ≈ store n m a v.
Proof.
  intros b. rewrite !mget_store. case_decide as Hb; [|done].
  unfold in_range in Hb. rewrite <- (load_store_same n m a v).
  rewrite load_byte by (unfold in_range; lia). rewrite mget_store.
  by rewrite decide_True by (unfold in_range; lia).
Qed.

(** A memory that already holds the value at the address is left as it is. *)
Lemma store_same n m a v : load n m a = wrap n v -> store n m a v ≈ m.
Proof. intros H. rewrite <- store_wrap, <- H. apply store_load_id. Qed.
