(* ===== verification/Abuf.v ===== *)
(** * The append-only write buffer (src/abuf.c)

    In the default configuration (MODE=cow, ALGO=sbuf, USE_ABUF=yes, hence
    COW_WT and COW_APPEND_ONLY) an [abuf] is the undo log of one execution of a
    handler: every instrumented write pushes the address, the size and the value
    the memory had, and then writes through.  The same structure records the
    results of wrapped pthread and system calls.

    Modelled: the data structure, the constructor, push and pop for the four
    widths, and every comparison, swap, restore and fault-injection routine of
    the file.  Log output (DLOG, fprintf), the statistics (ABUF_STATS) and the
    stack information (SEI_STACK_INFO) are left out. *)

From S2P Require Export Mem.

(** config.h *)
Definition ABUF_MAX_CONFLICTS : nat := Z.to_nat 8000.
#[global] Opaque ABUF_MAX_CONFLICTS.

(** ** Data *)

Record abuf_entry := mk_entry {
  e_wkey : Z;          (* never used by abuf.c *)
  e_wvalue : Z;        (* the 64-bit union abuf_word_t *)
  e_size : Z;
  e_addr : Z;
}.

Record abuf := mk_abuf {
  buf : list abuf_entry;
  max_size : nat;
  pushed : nat;
  poped : nat;
}.

Definition entry0 : abuf_entry := mk_entry 0 0 0 0.

#[global] Instance abuf_entry_eq_dec : EqDecision abuf_entry.
Proof. solve_decision. Defined.
#[global] Instance abuf_eq_dec : EqDecision abuf.
Proof. solve_decision. Defined.

Definition set_buf (b : list abuf_entry) (a : abuf) : abuf :=
  mk_abuf b (max_size a) (pushed a) (poped a).
Definition set_poped (n : nat) (a : abuf) : abuf :=
  mk_abuf (buf a) (max_size a) (pushed a) n.

(** ** The word macros *)

(** [ABUF_PICKMASK]: which element of the union's array holds the value. *)
Definition ABUF_PICKMASK (addr : Z) (t : cty) : Z :=
  Z.shiftr (Z.land addr 7) (Z.shiftr (Z.of_nat (sizeof t)) 1).

(** Bit position of that element in the little-endian 64-bit word. *)
Definition lane_shift (addr : Z) (t : cty) : Z :=
  8 * Z.of_nat (sizeof t) * ABUF_PICKMASK addr t.

(** [ABUF_WVAX(e, type, addr)] as a value, and as an assignment target. *)
Definition wvax_get (w : Z) (t : cty) (addr : Z) : Z :=
  Z.land (Z.shiftr w (lane_shift addr t)) (Z.ones (8 * Z.of_nat (sizeof t))).

Definition wvax_set (w : Z) (t : cty) (addr v : Z) : Z :=
  let s := lane_shift addr t in
  let mask := Z.ones (8 * Z.of_nat (sizeof t)) in
  Z.lor (Z.ldiff w (Z.shiftl mask s)) (Z.shiftl (Z.land v mask) s).

Definition ABUF_WVAL (e : abuf_entry) : Z := e_wvalue e.
Definition ABUF_WVAX (e : abuf_entry) (t : cty) (addr : Z) : Z :=
  wvax_get (e_wvalue e) t addr.
Definition set_wval (e : abuf_entry) (w : Z) : abuf_entry :=
  mk_entry (e_wkey e) w (e_size e) (e_addr e).
Definition set_wvax (e : abuf_entry) (t : cty) (addr v : Z) : abuf_entry :=
  set_wval e (wvax_set (e_wvalue e) t addr v).

(** ** Constructor and counters *)

Definition abuf_init (max_size : nat) : abuf :=
  mk_abuf (replicate max_size entry0) max_size 0 0.

Definition abuf_clean (a : abuf) : abuf := mk_abuf (buf a) (max_size a) 0 0.
Definition abuf_rewind (a : abuf) : abuf := set_poped 0 a.
Definition abuf_size (a : abuf) : Z := Z.of_nat (pushed a) - Z.of_nat (poped a).

Section Ops.
Context `{Build}.

(** ** Push and pop *)

(** [ABUF_CHECK_SIZE]: double the array when it is full (realloc; the fresh
    entries are indeterminate, here [entry0]). *)
Definition abuf_check_size (a : abuf) : abuf :=
  if (pushed a =? max_size a)%nat
  then mk_abuf (buf a ++ replicate (max_size a) entry0)
               (max_size a * 2) (pushed a) (poped a)
  else a.

Definition abuf_push_ty (t : cty) (a : abuf) (addr value : Z) : outcome abuf :=
  let a := abuf_check_size a in
  e ← arr_get (buf a) (pushed a);
  let e := mk_entry (e_wkey e) (e_wvalue e) (Z.of_nat (sizeof t)) addr in
  let e := if decide (t = uint64_t) then e else set_wval e 0 in
  let e := set_wvax e t addr value in
  b ← arr_set (buf a) (pushed a) e;
  Ret (mk_abuf b (max_size a) (pushed a + 1)%nat (poped a)).

Definition abuf_pop_ty (t : cty) (a : abuf) (addr : Z) : outcome (Z * abuf) :=
  c_assert (poped a <? pushed a)%nat;;
  e ← arr_get (buf a) (poped a);
  fail_ifn (e_addr e =? addr) "reading wrong address";;
  c_assert (e_size e =? Z.of_nat (sizeof t));;
  Ret (ABUF_WVAX e t addr, set_poped (poped a + 1)%nat a).

(** The untyped [abuf_pop]: value and address of a 64-bit entry. *)
Definition abuf_pop (a : abuf) : outcome (Z * Z * abuf) :=
  c_assert (poped a <? pushed a)%nat;;
  e ← arr_get (buf a) (poped a);
  c_assert (e_size e =? 8);;
  Ret (ABUF_WVAX e uint64_t (e_addr e), e_addr e, set_poped (poped a + 1)%nat a).

Definition abuf_push (a : abuf) (addr value : Z) : outcome abuf :=
  abuf_push_ty uint64_t a addr value.

(** ** abuf_cmp: entry by entry *)

Fixpoint abuf_cmp_loop (n : nat) (a1 a2 : abuf) : outcome (abuf * abuf) :=
  match n with
  | O => Ret (a1, a2)
  | S n' =>
      e1 ← arr_get (buf a1) (poped a1);
      e2 ← arr_get (buf a2) (poped a2);
      c_assert (e_size e1 =? e_size e2);;
      fail_ifn (e_addr e1 =? e_addr e2) "addresses differ";;
      fail_ifn (ABUF_WVAL e1 =? ABUF_WVAL e2) "values differ";;
      abuf_cmp_loop n' (set_poped (poped a1 + 1)%nat a1) (set_poped (poped a2 + 1)%nat a2)
  end.

Definition abuf_cmp (a1 a2 : abuf) : outcome (abuf * abuf) :=
  fail_ifn (pushed a1 =? pushed a2)%nat "differ nb elements";;
  fail_ifn (poped a1 =? poped a2)%nat "differ nb poped elements";;
  c_assert (poped a1 =? 0)%nat;;
  abuf_cmp_loop (pushed a1 - poped a1) a1 a2.

(** ** abuf_cmp_heap: phase 0 against the memory *)

(** Whether the value recorded in [e] differs from the memory; [None] is the
    [default] branch of the switch on the size. *)
Definition entry_conflict (m : mem) (e : abuf_entry) : option bool :=
  match cty_of_size (e_size e) with
  | Some t => Some (negb (load (sizeof t) m (e_addr e) =? ABUF_WVAX e t (e_addr e)))
  | None => None
  end.

(** [ABUF_CONFLICT]: remember entry [i]; the array holds
    [ABUF_MAX_CONFLICTS] pointers, the guard lets one more through. *)
Definition push_conflict (conf : list nat) (i : nat) : outcome (list nat) :=
  fail_ifn (length conf <=? ABUF_MAX_CONFLICTS)%nat "too many conflicts";;
  if decide (length conf < ABUF_MAX_CONFLICTS)%nat
  then Ret (conf ++ [i]) else Stop OutOfBounds.

Fixpoint cmp_heap_loop (n : nat) (m : mem) (a1 a2 : abuf) (conf : list nat)
  : outcome (abuf * abuf * list nat) :=
  match n with
  | O => Ret (a1, a2, conf)
  | S n' =>
      let i := poped a1 in
      e1 ← arr_get (buf a1) (poped a1);
      e2 ← arr_get (buf a2) (poped a2);
      c_assert (e_size e1 =? e_size e2);;
      fail_ifn (e_addr e1 =? e_addr e2) "addresses differ";;
      conf' ← match entry_conflict m e1 with
              | Some true => push_conflict conf i
              | Some false => Ret conf
              | None => c_assert false;; Ret conf
              end;
      cmp_heap_loop n' m (set_poped (poped a1 + 1)%nat a1)
                         (set_poped (poped a2 + 1)%nat a2) conf'
  end.

(** [for (j = n-1; j >= 0; --j) if (addr == buf[j].addr) break;]: the index of
    the last entry for the address. *)
Fixpoint find_last (b : list abuf_entry) (n : nat) (addr : Z) : outcome (option nat) :=
  match n with
  | O => Ret None
  | S j => e ← arr_get b j;
           if e_addr e =? addr then Ret (Some j) else find_last b j addr
  end.

(** Each conflicting entry must be superseded by a later entry for the same
    address. *)
Fixpoint check_conflicts (a : abuf) (conf : list nat) : outcome unit :=
  match conf with
  | [] => Ret tt
  | i :: conf' =>
      ce ← arr_get (buf a) i;
      j ← find_last (buf a) (pushed a) (e_addr ce);
      match j with
      | Some j => if decide (j = i) then Stop (SeiFail "not duplicate!") else Ret tt
      | None => c_assert false
      end;;
      check_conflicts a conf'
  end.

Definition abuf_cmp_heap (m : mem) (a1 a2 : abuf) : outcome (abuf * abuf) :=
  c_assert (SEI_DMR_REDUNDANCY =? 2)%nat;;
  c_assert (pushed a1 =? pushed a2)%nat;;
  c_assert (poped a1 =? poped a2)%nat;;
  c_assert (poped a1 =? 0)%nat;;
  '(a1, a2, conf) ← cmp_heap_loop (pushed a1 - poped a1) m a1 a2 [];
  match conf with
  | [] => Ret (a1, a2)
  | _ => check_conflicts a1 conf;; Ret (a1, a2)
  end.

(** ** abuf_check_duplicates *)

Definition abuf_check_duplicates (a : abuf) : outcome unit :=
  c_assert (poped a =? 0)%nat;;
  for_range (pushed a) 0 (fun i _ =>
    ei ← arr_get (buf a) i;
    for_range (pushed a - (i + 1)) (i + 1) (fun j _ =>
      ej ← arr_get (buf a) j;
      if e_addr ei =? e_addr ej
      then fail_ifn false "duplicate entry detected in buffer" else Ret tt) tt) tt.

(** ** The non-aborting comparisons (SEI_CPU_ISOLATION) *)

(** The loop of [abuf_try_cmp_heap], which advances both [poped] counters;
    [None] is [return 0]. *)
Fixpoint try_cmp_heap_loop (n : nat) (m : mem) (a1 a2 : abuf) (conf : list nat)
  : outcome (option (list nat) * abuf * abuf) :=
  match n with
  | O => Ret (Some conf, a1, a2)
  | S n' =>
      let i := poped a1 in
      e1 ← arr_get (buf a1) (poped a1);
      e2 ← arr_get (buf a2) (poped a2);
      let a1 := set_poped (poped a1 + 1)%nat a1 in
      let a2 := set_poped (poped a2 + 1)%nat a2 in
      if negb (e_size e1 =? e_size e2) then Ret (None, a1, a2)
      else if negb (e_addr e1 =? e_addr e2) then Ret (None, a1, a2)
      else
        match entry_conflict m e1 with
        | None => Ret (None, a1, a2)
        | Some false => try_cmp_heap_loop n' m a1 a2 conf
        | Some true =>
            if (ABUF_MAX_CONFLICTS <=? length conf)%nat then Ret (None, a1, a2)
            else try_cmp_heap_loop n' m a1 a2 (conf ++ [i])
        end
  end.

(** Some entry other than [i], for the same address, among the first [n]
    (scanned from the end). *)
Fixpoint find_other (b : list abuf_entry) (n i : nat) (addr : Z) : outcome bool :=
  match n with
  | O => Ret false
  | S j => e ← arr_get b j;
           if (e_addr e =? addr) && negb (j =? i)%nat then Ret true
           else find_other b j i addr
  end.

Fixpoint all_have_duplicate (a : abuf) (conf : list nat) : outcome bool :=
  match conf with
  | [] => Ret true
  | i :: conf' =>
      ce ← arr_get (buf a) i;
      found ← find_other (buf a) (pushed a) i (e_addr ce);
      if (found : bool) then all_have_duplicate a conf' else Ret false
  end.

(** Returns the verdict and the two buffers; their [poped] counters are saved
    on entry and written back on every exit. *)
Definition abuf_try_cmp_heap (m : mem) (a1 a2 : abuf) : outcome (bool * abuf * abuf) :=
  c_assert (SEI_DMR_REDUNDANCY =? 2)%nat;;
  let saved_poped_a1 := poped a1 in
  let saved_poped_a2 := poped a2 in
  let fin (r : bool) (a1 a2 : abuf) : outcome (bool * abuf * abuf) :=
    Ret (r, set_poped saved_poped_a1 a1, set_poped saved_poped_a2 a2) in
  if negb (pushed a1 =? pushed a2)%nat then fin false a1 a2
  else if negb (poped a1 =? poped a2)%nat then fin false a1 a2
  else if negb (poped a1 =? 0)%nat then fin false a1 a2
  else
    '(conf, a1, a2) ← try_cmp_heap_loop (pushed a1 - poped a1) m a1 a2 [];
    match conf with
    | None => fin false a1 a2
    | Some [] => fin true a1 a2
    | Some conf => ok ← all_have_duplicate a1 conf; fin ok a1 a2
    end.

Fixpoint try_cmp_loop (n : nat) (a1 a2 : abuf) : outcome (bool * abuf * abuf) :=
  match n with
  | O => Ret (true, a1, a2)
  | S n' =>
      e1 ← arr_get (buf a1) (poped a1);
      e2 ← arr_get (buf a2) (poped a2);
      let a1 := set_poped (poped a1 + 1)%nat a1 in
      let a2 := set_poped (poped a2 + 1)%nat a2 in
      if negb (e_size e1 =? e_size e2) then Ret (false, a1, a2)
      else if negb (e_addr e1 =? e_addr e2) then Ret (false, a1, a2)
      else if negb (ABUF_WVAL e1 =? ABUF_WVAL e2) then Ret (false, a1, a2)
      else try_cmp_loop n' a1 a2
  end.

Definition abuf_try_cmp (a1 a2 : abuf) : outcome (bool * abuf * abuf) :=
  if negb (abuf_size a1 =? abuf_size a2) then Ret (false, a1, a2)
  else
    let saved_poped_a1 := poped a1 in
    let saved_poped_a2 := poped a2 in
    let a1 := abuf_rewind a1 in
    let a2 := abuf_rewind a2 in
    '(r, a1, a2) ← try_cmp_loop (pushed a1 - poped a1) a1 a2;
    Ret (r, set_poped saved_poped_a1 a1, set_poped saved_poped_a2 a2).

(** ** abuf_swap *)

(** [ABUF_SWAP] on one entry. *)
Definition swap_entry (t : cty) (m : mem) (e : abuf_entry) : abuf_entry * mem :=
  let value := ABUF_WVAX e t (e_addr e) in
  (set_wvax e t (e_addr e) (load (sizeof t) m (e_addr e)),
   store (sizeof t) m (e_addr e) value).

(** [for (i = n-1; i >= 0; --i)] of [abuf_swap]. *)
Fixpoint swap_loop (n : nat) (b : list abuf_entry) (m : mem)
  : outcome (list abuf_entry * mem) :=
  match n with
  | O => Ret (b, m)
  | S i =>
      e ← arr_get b i;
      match cty_of_size (e_size e) with
      | Some t =>
          let '(e', m') := swap_entry t m e in
          b' ← arr_set b i e';
          swap_loop i b' m'
      | None => c_assert false;; swap_loop i b m
      end
  end.

Definition abuf_swap (a : abuf) (m : mem) : outcome (abuf * mem) :=
  c_assert (poped a =? 0)%nat;;
  '(b, m') ← swap_loop (pushed a) (buf a) m;
  Ret (set_buf b a, m').

(** ** abuf_restore *)

Definition restore_entry (m : mem) (e : abuf_entry) : outcome mem :=
  match cty_of_size (e_size e) with
  | Some t => Ret (store (sizeof t) m (e_addr e) (ABUF_WVAX e t (e_addr e)))
  | None => c_assert false;; Ret m
  end.

Definition abuf_restore (a : abuf) (m : mem) : outcome (abuf * mem) :=
  m' ← for_range (pushed a) 0 (fun i m =>
         e ← arr_get (buf a) i; restore_entry m e) m;
  Ret (abuf_clean a, m').

(** [abuf_restore_filtered]: [in_talloc] is [talloc_addr_in_range(talloc, .)]
    (src/talloc.c), passed as a function. *)
Definition restore_filtered_entry (in_talloc : Z -> bool) (m : mem) (e : abuf_entry)
  : outcome mem :=
  if in_talloc (e_addr e) then Ret m
  else
    let current_ptr := load 8 m (e_addr e) in
    if (e_size e =? 8) && (negb (current_ptr =? 0) && in_talloc current_ptr)
    then Ret (store 8 m (e_addr e) 0)
    else restore_entry m e.

Definition abuf_restore_filtered (in_talloc : Z -> bool) (a : abuf) (m : mem)
  : outcome (abuf * mem) :=
  m' ← for_range (pushed a) 0 (fun i m =>
         e ← arr_get (buf a) i; restore_filtered_entry in_talloc m e) m;
  Ret (abuf_clean a, m').

(** ** Fault injection (SEI_FAULT_INJECTION) *)

Definition xor_entry (a : abuf) (i : nat) (x : Z) : outcome abuf :=
  e ← arr_get (buf a) i;
  b ← arr_set (buf a) i (set_wval e (Z.lxor (ABUF_WVAL e) x));
  Ret (set_buf b a).

Definition abuf_corrupt_first (a : abuf) : outcome abuf :=
  if (pushed a =? 0)%nat then Ret a else xor_entry a 0 1.

(** [rnd] is the value [rand()] returned (non-negative). *)
Definition abuf_corrupt_random (rnd : nat) (a : abuf) : outcome abuf :=
  if (pushed a =? 0)%nat then Ret a else xor_entry a (rnd mod pushed a) 0xDEADBEEF.

Definition abuf_corrupt_last (a : abuf) : outcome abuf :=
  if (pushed a =? 0)%nat then Ret a else xor_entry a (pushed a - 1) 0xFF.

(** [for (i = 0; i < pushed && count < 3; i += 2)]: at most three rounds. *)
Definition abuf_corrupt_multiple (a : abuf) : outcome abuf :=
  if (pushed a <? 2)%nat then Ret a
  else for_range 3 0 (fun count a =>
         if (count * 2 <? pushed a)%nat
         then xor_entry a (count * 2) (Z.shiftl 1 (Z.of_nat count)) else Ret a) a.

(** ** The N-way comparisons (N >= 3) *)

(** [buffers] is the array [sei->cow]; [n] the number of phases compared. *)
Definition abuf_cmp_heap_nway (m : mem) (buffers : list abuf) (n : nat)
  : outcome (list abuf) :=
  c_assert ((3 <=? n) && (n =? SEI_DMR_REDUNDANCY))%nat;;
  b0 ← arr_get buffers 0;
  for_range (n - 1) 1 (fun i _ =>
    bi ← arr_get buffers i;
    c_assert (pushed b0 =? pushed bi)%nat;;
    c_assert (poped b0 =? poped bi)%nat) tt;;
  c_assert (poped b0 =? 0)%nat;;
  conf ← for_range (pushed b0) 0 (fun k conf =>
    e0 ← arr_get (buf b0) k;
    for_range (n - 1) 1 (fun i _ =>
      bi ← arr_get buffers i;
      ei ← arr_get (buf bi) k;
      fail_ifn (e_addr e0 =? e_addr ei) "addresses differ";;
      c_assert (e_size e0 =? e_size ei)) tt;;
    match entry_conflict m e0 with
    | Some true =>
        fail_ifn (length conf <? ABUF_MAX_CONFLICTS)%nat "too many conflicts";;
        Ret (conf ++ [k])
    | Some false => Ret conf
    | None => c_assert false;; Ret conf
    end) [];
  buffers' ← for_range n 0 (fun i bs =>
    bi ← arr_get bs i; arr_set bs i (set_poped (pushed b0) bi)) buffers;
  for_range (length conf) 0 (fun i _ =>
    k ← arr_get conf i;
    ce ← arr_get (buf b0) k;
    found ← find_other (buf b0) (pushed b0) k (e_addr ce);
    fail_ifn found "not duplicate! error detected") tt;;
  Ret buffers'.

(** The entry loop of [abuf_try_cmp_heap_nway]; [None] is [return 0]. *)
Fixpoint phases_agree (buffers : list abuf) (e0 : abuf_entry) (k n i : nat) : outcome bool :=
  match n with
  | O => Ret true
  | S n' =>
      bi ← arr_get buffers i;
      ei ← arr_get (buf bi) k;
      if negb (e_size e0 =? e_size ei) then Ret false
      else if negb (e_addr e0 =? e_addr ei) then Ret false
      else phases_agree buffers e0 k n' (i + 1)
  end.

Fixpoint try_nway_loop (r : nat) (m : mem) (buffers : list abuf) (b0 : abuf) (n k : nat)
    (conf : list nat) : outcome (option (list nat)) :=
  match r with
  | O => Ret (Some conf)
  | S r' =>
      e0 ← arr_get (buf b0) k;
      ok ← phases_agree buffers e0 k (n - 1) 1;
      if negb ok then Ret None
      else match entry_conflict m e0 with
           | None => Ret None
           | Some false => try_nway_loop r' m buffers b0 n (k + 1) conf
           | Some true =>
               if (ABUF_MAX_CONFLICTS <=? length conf)%nat then Ret None
               else try_nway_loop r' m buffers b0 n (k + 1) (conf ++ [k])
           end
  end.

(** The header checks of [abuf_try_cmp_heap_nway]. *)
Fixpoint counts_agree (buffers : list abuf) (b0 : abuf) (n i : nat) : outcome bool :=
  match n with
  | O => Ret true
  | S n' =>
      bi ← arr_get buffers i;
      if negb (pushed b0 =? pushed bi)%nat then Ret false
      else if negb (poped b0 =? poped bi)%nat then Ret false
      else counts_agree buffers b0 n' (i + 1)
  end.

(** The verdict.  The C code saves the [poped] counters, never advances them
    (it walks the entries with [entry_index]) and writes the saved values back:
    the buffers are those passed in. *)
Definition abuf_try_cmp_heap_nway (m : mem) (buffers : list abuf) (n : nat) : outcome bool :=
  c_assert ((2 <=? n) && (n <=? SEI_DMR_REDUNDANCY))%nat;;
  b0 ← arr_get buffers 0;
  same ← counts_agree buffers b0 (n - 1) 1;
  if negb same then Ret false
  else if negb (poped b0 =? 0)%nat then Ret false
  else
    conf ← try_nway_loop (pushed b0) m buffers b0 n 0 [];
    match conf with
    | None => Ret false
    | Some [] => Ret true
    | Some conf => all_have_duplicate b0 conf
    end.

End Ops.
