(* ===== verification/AbufLog.v ===== *)
(** * Theory of the write buffer

    The abstract view of an [abuf]: a log of typed writes.  [log_rel] relates
    the array of src/abuf.c to such a log; every operation is shown to act on
    the log as its specification says.  The specification side has no arrays,
    no counters and no 64-bit lanes: executing a list of writes is [replay], the
    log of overwritten values is [undo_log], and undoing is [aswap]. *)

From S2P Require Export Abuf.

(** ** Abstract writes *)

Record wr := mk_wr { w_ty : cty; w_addr : Z; w_val : Z }.

#[global] Instance wr_eq_dec : EqDecision wr.
Proof. solve_decision. Defined.

Abbreviation w_size w := (sizeof (w_ty w)).

Definition apply_wr (m : mem) (w : wr) : mem := store (w_size w) m (w_addr w) (w_val w).

(** Final memory of a list of writes. *)
Definition replay (ws : list wr) (m : mem) : mem := foldl apply_wr m ws.

Arguments replay : simpl never.

(** What each write overwrites. *)
Fixpoint undo_log (ws : list wr) (m : mem) : list wr :=
  match ws with
  | [] => []
  | w :: ws' =>
      mk_wr (w_ty w) (w_addr w) (load (w_size w) m (w_addr w)) :: undo_log ws' (apply_wr m w)
  end.

(** Swapping a log with the memory, last entry first. *)
Fixpoint aswap (l : list wr) (m : mem) : list wr * mem :=
  match l with
  | [] => ([], m)
  | w :: l' =>
      let '(l'', m') := aswap l' m in
      (mk_wr (w_ty w) (w_addr w) (load (w_size w) m' (w_addr w)) :: l'',
       store (w_size w) m' (w_addr w) (w_val w))
  end.

(** A write of a typed C expression: the value is reduced to the type. *)
Definition norm (w : wr) : wr := mk_wr (w_ty w) (w_addr w) (wrap (w_size w) (w_val w)).

(** Two writes touch the same object or share no byte. *)
Definition compatible (w1 w2 : wr) : Prop :=
  (w_addr w1 = w_addr w2 /\ w_ty w1 = w_ty w2) \/
  disjoint_range (w_addr w1) (w_size w1) (w_addr w2) (w_size w2).

#[global] Instance compatible_dec w1 w2 : Decision (compatible w1 w2).
Proof. unfold compatible. apply _. Defined.

(** No two writes of the list overlap partially. *)
Definition separated (ws : list wr) : Prop :=
  forall i j w1 w2, ws !! i = Some w1 -> ws !! j = Some w2 -> compatible w1 w2.

(** No two writes of the list share a byte. *)
Definition all_disjoint (ws : list wr) : Prop :=
  forall i j w1 w2, i <> j -> ws !! i = Some w1 -> ws !! j = Some w2 ->
  disjoint_range (w_addr w1) (w_size w1) (w_addr w2) (w_size w2).

Definition shape (w : wr) : cty * Z := (w_ty w, w_addr w).

(** Entry [i] is the last of the log for its address. *)
Definition last_for (ws : list wr) (i : nat) (w : wr) : Prop :=
  ws !! i = Some w /\
  forall j w', (i < j)%nat -> ws !! j = Some w' -> w_addr w' <> w_addr w.

Implicit Types (ws l : list wr) (m : mem) (w : wr) (i j k : nat).

(** ** Replay *)

Lemma sizeof_pos t : (0 < sizeof t)%nat.
Proof. destruct t; cbn; lia. Qed.

Lemma replay_cons w ws m : replay (w :: ws) m = replay ws (apply_wr m w).
Proof. reflexivity. Qed.

Lemma replay_app ws1 ws2 m : replay (ws1 ++ ws2) m = replay ws2 (replay ws1 m).
Proof. apply foldl_app. Qed.

#[global] Instance replay_proper ws : Proper (mem_eq ==> mem_eq) (replay ws).
Proof.
  induction ws as [|w ws IH]; intros m1 m2 H; [done|].
  rewrite !replay_cons. apply IH. unfold apply_wr. by rewrite H.
Qed.

Lemma mget_replay_out ws m b :
  (forall i w, ws !! i = Some w -> ~ in_range b (w_addr w) (w_size w)) ->
  mget (replay ws m) b = mget m b.
Proof.
  revert m. induction ws as [|w ws IH]; intros m H; [done|].
  rewrite replay_cons, IH by (intros i w' Hi; apply (H (S i)); done).
  apply mget_store_out, (H 0%nat). done.
Qed.

Lemma load_replay_disjoint ws m n a :
  (forall i w, ws !! i = Some w -> disjoint_range (w_addr w) (w_size w) a n) ->
  load n (replay ws m) a = load n m a.
Proof.
  intros H. apply load_ext. intros b Hb. apply mget_replay_out.
  intros i w Hw Hin. specialize (H i w Hw).
  unfold disjoint_range, in_range in *. lia.
Qed.

Lemma compatible_same_size w1 w2 :
  compatible w1 w2 -> w_addr w1 = w_addr w2 -> w_ty w1 = w_ty w2.
Proof.
  intros [[_ H]|H] Ha; [done|]. exfalso. unfold disjoint_range in H.
  pose proof (sizeof_pos (w_ty w1)). pose proof (sizeof_pos (w_ty w2)). lia.
Qed.

(** The last write to an object decides its final value. *)
Lemma replay_last ws m i w :
  separated ws -> last_for ws i w ->
  load (w_size w) (replay ws m) (w_addr w) = wrap (w_size w) (w_val w).
Proof.
  intros Hsep [Hi Hlast].
  rewrite <- (take_drop_middle ws i w Hi) at 1. rewrite replay_app, replay_cons.
  rewrite load_replay_disjoint; [apply load_store_same|].
  intros j w' Hj. rewrite lookup_drop in Hj.
  destruct (Hsep i (S i + j)%nat w w' Hi Hj) as [[Ha _]|Hd].
  - destruct (Hlast (S i + j)%nat w'); [lia|done|congruence].
  - unfold disjoint_range in *. lia.
Qed.

(** The index of the last entry for the address of entry [i]. *)
Lemma last_for_exists (ws : list wr) i w :
  ws !! i = Some w ->
  exists j w', (i <= j)%nat /\ last_for ws j w' /\ w_addr w' = w_addr w.
Proof.
  remember (length ws - i)%nat as n eqn:Hn. revert i w Hn.
  induction n as [n IH] using lt_wf_ind. intros i w Hn Hi.
  pose proof (lookup_lt_Some _ _ _ Hi) as Hlen.
  destruct (list_find (fun w' => w_addr w' = w_addr w) (drop (S i) ws))
    as [[k w']|] eqn:Hf.
  - apply list_find_Some in Hf as (Hk & Ha & _). rewrite lookup_drop in Hk.
    destruct (IH (length ws - (S i + k))%nat ltac:(lia) (S i + k)%nat w' eq_refl Hk)
      as (j & w'' & Hj & Hl & Ha'').
    exists j, w''. split_and!; [lia|done|congruence].
  - apply list_find_None in Hf. exists i, w. split_and!; [lia| |done].
    split; [done|]. intros j w' Hij Hj.
    rewrite Forall_forall in Hf. apply Hf, list_elem_of_lookup.
    exists (j - S i)%nat. rewrite lookup_drop. rewrite <- Hj. f_equal. lia.
Qed.

(** A memory that agrees with [m0] outside the log and with the last entry of
    the log for every object is the one the log produces. *)
Lemma replay_determined ws m0 m :
  separated ws ->
  (forall b, (forall i w, ws !! i = Some w -> ~ in_range b (w_addr w) (w_size w)) ->
             mget m b = mget m0 b) ->
  (forall i w, last_for ws i w ->
     load (w_size w) m (w_addr w) = wrap (w_size w) (w_val w)) ->
  m ≈ replay ws m0.
Proof.
  intros Hsep Hout Hlast b.
  destruct (list_find (fun w => in_range b (w_addr w) (w_size w)) ws)
    as [[i w]|] eqn:Hf.
  - apply list_find_Some in Hf as (Hi & Hb & _).
    destruct (last_for_exists ws i w Hi) as (j & w' & _ & Hl & Ha).
    assert (Ht : w_ty w' = w_ty w).
    { eapply compatible_same_size; [|done]. eapply Hsep; [apply Hl|done]. }
    rewrite <- Ht, <- Ha in Hb.
    rewrite <- (load_byte _ m _ _ Hb), <- (load_byte _ (replay ws m0) _ _ Hb).
    by rewrite (Hlast j w' Hl), (replay_last ws m0 j w' Hsep Hl).
  - apply list_find_None in Hf. rewrite Forall_forall in Hf.
    assert (Hno : forall i w, ws !! i = Some w -> ~ in_range b (w_addr w) (w_size w)).
    { intros i w Hi. apply Hf, list_elem_of_lookup. eauto. }
    by rewrite Hout, mget_replay_out.
Qed.

(** Lists of writes with the same shape touch the same bytes. *)
Lemma shape_lookup ws1 ws2 i w1 :
  shape <$> ws1 = shape <$> ws2 -> ws1 !! i = Some w1 ->
  exists w2, ws2 !! i = Some w2 /\ w_ty w2 = w_ty w1 /\ w_addr w2 = w_addr w1.
Proof.
  intros Hs Hi. assert (H : (shape <$> ws2) !! i = Some (shape w1)).
  { rewrite <- Hs, list_lookup_fmap, Hi. done. }
  rewrite list_lookup_fmap in H. destruct (ws2 !! i) as [w2|]; [|done].
  cbn in H. injection H as H1 H2. eauto.
Qed.

Lemma replay_out_shape ws1 ws2 m0 b :
  shape <$> ws1 = shape <$> ws2 ->
  (forall i w, ws1 !! i = Some w -> ~ in_range b (w_addr w) (w_size w)) ->
  mget (replay ws2 m0) b = mget m0 b.
Proof.
  intros Hs H. apply mget_replay_out. intros i w Hi Hin.
  destruct (shape_lookup ws2 ws1 i w (eq_sym Hs) Hi) as (w' & Hi' & Ht & Ha).
  apply (H i w' Hi'). by rewrite Ht, Ha.
Qed.

(** ** Undo *)

Lemma undo_log_shape ws m : shape <$> undo_log ws m = shape <$> ws.
Proof. revert m. induction ws as [|w ws IH]; intros m; cbn; [done|]. by rewrite IH. Qed.

#[global] Instance aswap_mem_proper l : Proper (mem_eq ==> mem_eq) (fun m => (aswap l m).2).
Proof.
  induction l as [|w l IH]; intros m1 m2 H; cbn; [done|].
  specialize (IH m1 m2 H). cbn in IH.
  destruct (aswap l m1), (aswap l m2). cbn in *. by rewrite IH.
Qed.

(** Swapping the log of an execution with the memory it produced gives back the
    initial memory, and leaves the written values in the log. *)
Lemma aswap_undo ws m :
  (aswap (undo_log ws m) (replay ws m)).1 = norm <$> ws /\
  (aswap (undo_log ws m) (replay ws m)).2 ≈ m.
Proof.
  revert m. induction ws as [|w ws IH]; intros m; cbn; [done|].
  destruct (IH (apply_wr m w)) as [IH1 IH2]. rewrite replay_cons.
  destruct (aswap _ _) as [l' m']; cbn in *. split.
  - rewrite IH1. f_equal. unfold norm. f_equal. rewrite IH2. apply load_store_same.
  - rewrite IH2. apply store_undo.
Qed.

Lemma norm_shape ws : shape <$> (norm <$> ws) = shape <$> ws.
Proof. rewrite <- list_fmap_compose. by apply list_fmap_ext. Qed.

Lemma replay_norm ws m : replay (norm <$> ws) m ≈ replay ws m.
Proof.
  revert m. induction ws as [|w ws IH]; intros m; [done|].
  rewrite fmap_cons, !replay_cons, IH. apply replay_proper. apply store_wrap.
Qed.

Lemma all_disjoint_cons w ws :
  all_disjoint (w :: ws) ->
  all_disjoint ws /\
  (forall i w', ws !! i = Some w' ->
     disjoint_range (w_addr w) (w_size w) (w_addr w') (w_size w')).
Proof.
  intros Hd. split.
  - intros i j w1 w2 Hij Hi Hj. apply (Hd (S i) (S j)); try done. lia.
  - intros i w' Hi. by apply (Hd 0%nat (S i)).
Qed.

Lemma all_disjoint_norm ws : all_disjoint ws -> all_disjoint (norm <$> ws).
Proof.
  intros Hd i j w1 w2 Hij Hi Hj. rewrite list_lookup_fmap in Hi, Hj.
  apply fmap_Some in Hi as (v1 & Hi & ->). apply fmap_Some in Hj as (v2 & Hj & ->). exact (Hd i j v1 v2 Hij Hi Hj).
Qed.

Lemma all_disjoint_separated ws : all_disjoint ws -> separated ws.
Proof.
  intros Hd i j w1 w2 Hi Hj. destruct (decide (i = j)) as [->|Hij].
  - left. by simplify_eq.
  - right. by eapply Hd.
Qed.

Lemma separated_shape ws1 ws2 :
  shape <$> ws1 = shape <$> ws2 -> separated ws1 -> separated ws2.
Proof.
  intros Hs Hsep i j w1 w2 Hi Hj.
  destruct (shape_lookup ws2 ws1 i w1 (eq_sym Hs) Hi) as (v1 & Hv1 & Ht1 & Ha1).
  destruct (shape_lookup ws2 ws1 j w2 (eq_sym Hs) Hj) as (v2 & Hv2 & Ht2 & Ha2).
  specialize (Hsep i j v1 v2 Hv1 Hv2). unfold compatible in *.
  by rewrite Ht1, Ht2, Ha1, Ha2 in Hsep.
Qed.

Lemma all_disjoint_shape ws1 ws2 : shape <$> ws1 = shape <$> ws2 -> all_disjoint ws1 -> all_disjoint ws2.
Proof.
  intros Hs Hd i j w1 w2 Hij Hi Hj.
  destruct (shape_lookup ws2 ws1 i w1 (eq_sym Hs) Hi) as (v1 & Hv1 & Ht1 & Ha1).
  destruct (shape_lookup ws2 ws1 j w2 (eq_sym Hs) Hj) as (v2 & Hv2 & Ht2 & Ha2).
  specialize (Hd i j v1 v2 Hij Hv1 Hv2). by rewrite Ht1, Ht2, Ha1, Ha2 in Hd.
Qed.

(** Without repeated objects every write is the last one to its object. *)
Lemma all_disjoint_last ws i w : all_disjoint ws -> ws !! i = Some w -> last_for ws i w.
Proof.
  intros Hd Hi. split; [done|]. intros j w' Hij Hj Ha. pose proof (Hd j i w' w ltac:(lia) Hj Hi) as Hr. rewrite Ha in Hr.
  unfold disjoint_range in Hr. pose proof (sizeof_pos (w_ty w)). pose proof (sizeof_pos (w_ty w')). lia.
Qed.

Lemma undo_log_value ws m i w :
  all_disjoint ws -> undo_log ws m !! i = Some w ->
  w_val w = load (w_size w) m (w_addr w).
Proof.
  revert m i. induction ws as [|w0 ws IH]; intros m i Hd Hi; [done|].
  apply all_disjoint_cons in Hd as [Hd Hw0].
  destruct i as [|i]; cbn in Hi; [by simplify_eq|].
  rewrite (IH (apply_wr m w0) i Hd Hi). apply load_store_disjoint.
  destruct (shape_lookup _ _ i w (undo_log_shape ws (apply_wr m w0)) Hi)
    as (w' & Hi' & Ht & Ha).
  specialize (Hw0 i w' Hi'). by rewrite Ht, Ha in Hw0.
Qed.

(** Restoring a log of overwritten values in forward order is an undo when no
    two writes share a byte. *)
Lemma replay_undo_disjoint ws m :
  all_disjoint ws -> replay (undo_log ws m) (replay ws m) ≈ m.
Proof.
  intros Hd. symmetry. pose proof (undo_log_shape ws m) as Hs.
  apply replay_determined.
  - eapply separated_shape; [symmetry; exact Hs|]. by apply all_disjoint_separated.
  - intros b Hb. symmetry. exact (replay_out_shape _ _ m b Hs Hb).
  - intros i w [Hi _]. rewrite (undo_log_value ws m i w Hd Hi).
    symmetry. apply wrap_small, load_bound.
Qed.

(** ** Lanes of the 64-bit word *)

Lemma ABUF_PICKMASK_nonneg addr t : 0 <= ABUF_PICKMASK addr t.
Proof. apply Z.shiftr_nonneg, Z.land_nonneg. lia. Qed.

Lemma lane_shift_nonneg addr t : 0 <= lane_shift addr t.
Proof. unfold lane_shift. pose proof (ABUF_PICKMASK_nonneg addr t). lia. Qed.

Lemma land_ones_wrap t v : Z.land v (Z.ones (8 * Z.of_nat (sizeof t))) = wrap (sizeof t) v.
Proof. rewrite Z.land_ones by lia. unfold wrap. by destruct t. Qed.

Lemma wvax_get_bound x t addr : 0 <= wvax_get x t addr < 256 ^ Z.of_nat (sizeof t).
Proof. unfold wvax_get. rewrite land_ones_wrap. apply wrap_bound. Qed.

(** A value stored in a lane is read back, reduced to the width. *)
Lemma wvax_get_set x t addr v : wvax_get (wvax_set x t addr v) t addr = wrap (sizeof t) v.
Proof.
  unfold wvax_get, wvax_set. rewrite <- land_ones_wrap.
  pose proof (lane_shift_nonneg addr t) as Hs.
  set (s := lane_shift addr t) in *. set (k := 8 * Z.of_nat (sizeof t)).
  assert (Hk : 0 <= k) by lia.
  apply Z.bits_inj'. intros n Hn.
  rewrite !Z.land_spec, Z.shiftr_spec, Z.lor_spec, Z.ldiff_spec by lia.
  rewrite !Z.shiftl_spec, Z.land_spec by lia.
  replace (n + s - s) with n by lia.
  destruct (Z.testbit (Z.ones k) n);
    rewrite ?andb_true_r, ?andb_false_r, ?orb_false_r; done.
Qed.

(** ** The array refines the log *)

Definition entry_rel (e : abuf_entry) (w : wr) : Prop :=
  e_size e = Z.of_nat (w_size w) /\ e_addr e = w_addr w /\
  ABUF_WVAX e (w_ty w) (w_addr w) = w_val w.

(** Well-formedness of the structure: the allocation has [max_size] entries, the
    counters are ordered. *)
Record abuf_wf (a : abuf) : Prop := {
  wf_len : length (buf a) = max_size a;
  wf_pos : (0 < max_size a)%nat;
  wf_pushed : (pushed a <= max_size a)%nat;
  wf_poped : (poped a <= pushed a)%nat;
}.

Definition log_rel (a : abuf) (l : list wr) : Prop :=
  abuf_wf a /\ Forall2 entry_rel (take (pushed a) (buf a)) l.

Lemma log_rel_length a l : log_rel a l -> length l = pushed a.
Proof.
  intros [[] HF]. apply Forall2_length in HF. rewrite length_take in HF. lia.
Qed.

Lemma log_rel_lookup a l i :
  log_rel a l -> (i < pushed a)%nat ->
  exists e w, buf a !! i = Some e /\ l !! i = Some w /\ entry_rel e w.
Proof.
  intros Hrel Hi. pose proof (log_rel_length a l Hrel) as Hl.
  destruct Hrel as [Hwf HF].
  destruct (lookup_lt_is_Some_2 l i ltac:(lia)) as [w Hw].
  destruct (Forall2_lookup_r _ _ _ _ _ HF Hw) as (e & He & Hrel).
  exists e, w. split_and!; [|done|done].
  by rewrite lookup_take_lt in He by lia.
Qed.

Lemma log_rel_buf a l i w :
  log_rel a l -> l !! i = Some w ->
  exists e, buf a !! i = Some e /\ entry_rel e w /\ (i < pushed a)%nat.
Proof.
  intros Hrel Hi. pose proof (lookup_lt_Some _ _ _ Hi) as Hlt.
  rewrite (log_rel_length a l Hrel) in Hlt.
  destruct (log_rel_lookup a l i Hrel Hlt) as (e & w' & He & Hw & Hr).
  simplify_eq. eauto.
Qed.

Lemma abuf_init_rel n : (0 < n)%nat -> log_rel (abuf_init n) [].
Proof.
  intros Hn. split; [|constructor]. split; cbn; rewrite ?length_replicate; lia.
Qed.

Lemma abuf_clean_rel a : abuf_wf a -> log_rel (abuf_clean a) [].
Proof. intros []. split; [|constructor]. split; cbn; lia. Qed.

Lemma set_poped_rel a l n : (n <= pushed a)%nat -> log_rel a l -> log_rel (set_poped n a) l.
Proof. intros Hn [[] HF]. split; [split|]; cbn; done. Qed.

Section Refinement.
Context `{Build}.

Lemma abuf_check_size_rel a l : log_rel a l ->
  log_rel (abuf_check_size a) l /\
  (pushed (abuf_check_size a) < max_size (abuf_check_size a))%nat /\
  pushed (abuf_check_size a) = pushed a /\ poped (abuf_check_size a) = poped a.
Proof.
  intros [[] HF]. unfold abuf_check_size. case_match eqn:E.
  - apply Nat.eqb_eq in E. split_and!; cbn; try lia.
    split; [split; cbn; rewrite ?length_app, ?length_replicate; lia|].
    cbn. by rewrite take_app_le by lia.
  - apply Nat.eqb_neq in E. split_and!; try lia. split; [split|]; done.
Qed.

(** Pushing always succeeds and appends the typed value to the log. *)
Lemma abuf_push_rel t a l addr v : log_rel a l ->
  exists a', abuf_push_ty t a addr v = Ret a' /\
    log_rel a' (l ++ [mk_wr t addr (wrap (sizeof t) v)]) /\
    pushed a' = S (pushed a) /\ poped a' = poped a.
Proof.
  intros Hrel. unfold abuf_push_ty.
  destruct (abuf_check_size_rel a l Hrel) as (Hrel' & Hlt & Hpu & Hpo).
  set (b := abuf_check_size a) in *. destruct Hrel' as [Hwf HF].
  pose proof (wf_len b Hwf) as Hlen.
  destruct (arr_get_lt (buf b) (pushed b)) as (e & He & ->); [lia|]. cbn.
  unfold arr_set. rewrite decide_True by lia. cbn.
  eexists. split; [reflexivity|]. split_and!; cbn; try lia.
  destruct Hwf. split; [split; cbn; rewrite ?length_insert; lia|].
  cbn. rewrite Nat.add_1_r.
  rewrite (take_S_r _ _ _ (list_lookup_insert_eq (buf b) (pushed b) _ ltac:(lia))).
  rewrite take_insert_ge by lia. apply Forall2_app; [done|].
  constructor; [|constructor]. unfold entry_rel, ABUF_WVAX. cbn.
  destruct (decide (t = uint64_t)); cbn; by rewrite wvax_get_set.
Qed.

(** Popping returns the next entry of the log. *)
Lemma abuf_pop_ty_rel a l w : log_rel a l -> l !! poped a = Some w ->
  abuf_pop_ty (w_ty w) a (w_addr w) = Ret (w_val w, set_poped (poped a + 1) a).
Proof.
  intros Hrel Hw. destruct (log_rel_buf a l _ w Hrel Hw) as (e & He & (Hs & Ha & Hv) & Hlt).
  unfold abuf_pop_ty. rewrite (proj2 (Nat.ltb_lt _ _) Hlt), c_assert_true, bind_Ret_l, (proj2 (arr_get_Ret _ _ _) He), bind_Ret_l.
  rewrite Ha, Z.eqb_refl. cbn [fail_ifn]. rewrite bind_Ret_l, Hs, Z.eqb_refl, c_assert_true, bind_Ret_l. by rewrite Hv.
Qed.

Lemma abuf_pop_rel a l w : log_rel a l -> l !! poped a = Some w -> w_ty w = uint64_t ->
  abuf_pop a = Ret (w_val w, w_addr w, set_poped (poped a + 1) a).
Proof.
  intros Hrel Hw Ht. destruct (log_rel_buf a l _ w Hrel Hw) as (e & He & (Hs & Ha & Hv) & Hlt). rewrite Ht in Hs, Hv.
  unfold abuf_pop. rewrite (proj2 (Nat.ltb_lt _ _) Hlt), c_assert_true, bind_Ret_l, (proj2 (arr_get_Ret _ _ _) He), bind_Ret_l.
  rewrite Hs, Ha. change (Z.of_nat (sizeof uint64_t) =? 8) with true. rewrite c_assert_true, bind_Ret_l. by rewrite Hv.
Qed.

(** ** Swap *)

Lemma aswap_snoc l w m :
  aswap (l ++ [w]) m =
  let old := mk_wr (w_ty w) (w_addr w) (load (w_size w) m (w_addr w)) in
  let '(l', m') := aswap l (apply_wr m w) in (l' ++ [old], m').
Proof.
  cbn. induction l as [|w0 l IH]; cbn; [done|]. rewrite IH.
  by destruct (aswap l (apply_wr m w)).
Qed.

Lemma take_insert_snoc (b : list abuf_entry) n e :
  (n < length b)%nat -> take (S n) (<[n := e]> b) = take n b ++ [e].
Proof.
  intros Hn. rewrite (take_S_r _ _ e (list_lookup_insert_eq b n e Hn)).
  by rewrite take_insert_ge by lia.
Qed.

Lemma swap_loop_rel n b l m :
  (n <= length b)%nat -> Forall2 entry_rel (take n b) l ->
  exists b' m', swap_loop n b m = Ret (b', m') /\
    length b' = length b /\ drop n b' = drop n b /\
    Forall2 entry_rel (take n b') (aswap l m).1 /\ m' = (aswap l m).2.
Proof.
  revert b l m. induction n as [|n IH]; intros b l m Hn HF.
  { inversion HF; subst. exists b, m. by split_and!. }
  destruct (arr_get_lt b n ltac:(lia)) as (e & He & Hget).
  rewrite (take_S_r b n e He) in HF.
  apply Forall2_app_inv_l in HF as (l0 & l1 & HF0 & HF1 & ->).
  inversion HF1 as [|? w ? ? Hew Hnil]; subst. inversion Hnil; subst.
  pose proof Hew as (Hsz & Had & Hval).
  cbn [swap_loop]. rewrite Hget. cbn. rewrite Hsz, cty_of_size_sizeof.
  unfold arr_set. rewrite decide_True by lia. cbn.
  set (e' := set_wvax e _ _ _).
  destruct (IH (<[n := e']> b) l0 (apply_wr m w)) as (b' & m' & Hrun & Hlen & Hdrop & HF' & ->).
  { rewrite length_insert. lia. }
  { by rewrite take_insert_ge by lia. }
  rewrite length_insert in Hlen.
  assert (Hn' : b' !! n = Some e').
  { rewrite <- (Nat.add_0_r n), <- lookup_drop, Hdrop, lookup_drop, Nat.add_0_r.
    apply list_lookup_insert_eq. lia. }
  exists b', (aswap l0 (apply_wr m w)).2. rewrite aswap_snoc.
  destruct (aswap l0 (apply_wr m w)) as [l' m'] eqn:Easwap. cbn in *.
  split_and!; [|done| | |done].
  - rewrite <- Hrun. f_equal. unfold apply_wr. by rewrite Had, Hval.
  - rewrite <- (Nat.add_1_r n), <- drop_drop, Hdrop, drop_drop.
    by rewrite drop_insert_lt by lia.
  - rewrite (take_S_r b' n e' Hn'). apply Forall2_app; [done|].
    constructor; [|constructor]. unfold entry_rel, e', ABUF_WVAX. cbn.
    rewrite Had, wvax_get_set. split_and!; try done. apply wrap_small, load_bound.
Qed.

Lemma abuf_swap_rel a l m : log_rel a l -> poped a = 0%nat ->
  exists a', abuf_swap a m = Ret (a', (aswap l m).2) /\
    log_rel a' (aswap l m).1 /\ pushed a' = pushed a /\ poped a' = 0%nat.
Proof.
  intros [Hwf HF] Hpo. unfold abuf_swap. rewrite Hpo, c_assert_true. cbn.
  destruct (swap_loop_rel (pushed a) (buf a) l m) as (b' & m' & -> & Hlen & _ & HF' & ->);
    [destruct Hwf; lia|done|].
  cbn. eexists. split; [reflexivity|]. split_and!; try done.
  destruct Hwf. split; [split; cbn; lia|done].
Qed.

End Refinement.
