(* ===== verification/AbufCmp.v ===== *)
(** * Theory of the buffer comparisons

    What [abuf_cmp_heap], [abuf_try_cmp_heap], the N-way comparisons and the
    restore routines of src/abuf.c decide, in terms of the abstract log. *)

From S2P Require Export AbufLog.

Implicit Types (ws l : list wr) (m : mem) (w : wr) (i j k : nat).

(** [SEI_WRITE] of src/mode_cow.c, APPEND_ONLY mode, on the buffer of the
    current phase: push the old value, then write through. *)
Definition log_write `{Build} (t : cty) (addr value : Z) (s : abuf * mem)
  : outcome (abuf * mem) :=
  let '(a, m) := s in
  a' ← abuf_push_ty t a addr (load (sizeof t) m addr);
  Ret (a', store (sizeof t) m addr value).

Fixpoint log_writes `{Build} ws (s : abuf * mem) : outcome (abuf * mem) :=
  match ws with
  | [] => Ret s
  | w :: ws' => s' ← log_write (w_ty w) (w_addr w) (w_val w) s; log_writes ws' s'
  end.

(** Entry [i] of the array differs from the memory. *)
Definition confl m (b : list abuf_entry) i : bool :=
  match b !! i with
  | Some e => match entry_conflict m e with Some c => c | None => false end
  | None => false
  end.

Section Cmp.
Context `{Build}.

Lemma log_writes_rel ws a l m : log_rel a l ->
  exists a', log_writes ws (a, m) = Ret (a', replay ws m) /\
    log_rel a' (l ++ undo_log ws m) /\ poped a' = poped a.
Proof.
  revert a l m. induction ws as [|w ws IH]; intros a l m Hrel; cbn.
  { exists a. by rewrite app_nil_r. }
  destruct (abuf_push_rel (w_ty w) a l (w_addr w) (load (w_size w) m (w_addr w)) Hrel)
    as (a1 & -> & Hrel1 & _ & Hpo1). cbn.
  destruct (IH a1 _ (apply_wr m w) Hrel1) as (a2 & Hrun & Hrel2 & Hpo2).
  exists a2. rewrite replay_cons. split_and!; [done| |congruence].
  rewrite <- app_assoc in Hrel2. cbn in Hrel2.
  by rewrite (wrap_small _ (load _ _ _)) in Hrel2 by apply load_bound.
Qed.

(** ** Searches *)

Lemma find_last_spec (b : list abuf_entry) n addr : (n <= length b)%nat ->
  exists r, find_last b n addr = Ret r /\
    match r with
    | Some j => (j < n)%nat /\ (exists e, b !! j = Some e /\ e_addr e = addr) /\
                forall k e, (j < k < n)%nat -> b !! k = Some e -> e_addr e <> addr
    | None => forall k e, (k < n)%nat -> b !! k = Some e -> e_addr e <> addr
    end.
Proof.
  induction n as [|n IH]; intros Hn; cbn.
  { exists None. split; [done|]. intros; lia. }
  destruct (arr_get_lt b n ltac:(lia)) as (e & He & ->). cbn.
  destruct (Z.eqb_spec (e_addr e) addr) as [Ha|Ha].
  - exists (Some n). split_and!; [done|lia|eauto|]. intros; lia.
  - destruct (IH ltac:(lia)) as (r & -> & Hr). exists r. split; [done|].
    destruct r as [j|].
    + destruct Hr as (Hj & He' & Hlast). split_and!; [lia|done|].
      intros k e' Hk Hk'. destruct (decide (k = n)) as [->|]; [congruence|].
      apply (Hlast k e'); [lia|done].
    + intros k e' Hk Hk'. destruct (decide (k = n)) as [->|]; [congruence|].
      apply (Hr k e'); [lia|done].
Qed.

Lemma find_other_spec (b : list abuf_entry) n i addr : (n <= length b)%nat ->
  exists r, find_other b n i addr = Ret r /\
    (r = true <-> exists j e, (j < n)%nat /\ j <> i /\ b !! j = Some e /\ e_addr e = addr).
Proof.
  induction n as [|n IH]; intros Hn; cbn.
  { exists false. split; [done|]. split; [done|]. intros (? & ? & ? & _). lia. }
  destruct (arr_get_lt b n ltac:(lia)) as (e & He & ->). cbn.
  destruct (Z.eqb_spec (e_addr e) addr) as [Ha|Ha];
    destruct (Nat.eqb_spec n i) as [Hni|Hni]; cbn.
  2: { exists true. split; [done|]. split; [|done]. intros _. exists n, e. split_and!; auto. }
  all: destruct (IH ltac:(lia)) as (r & -> & Hr); exists r; split; [done|]; rewrite Hr.
  all: split; intros (j & e' & Hj & Hji & He' & Ha').
  all: try (exists j, e'; split_and!; [lia|done|done|done]).
  all: destruct (decide (j = n)) as [->|]; [congruence|].
  all: exists j, e'; split_and!; [lia|done|done|done].
Qed.

(** ** The loop of abuf_cmp_heap *)

Definition entries_match (a1 a2 : abuf) i : Prop :=
  exists e1 e2, buf a1 !! i = Some e1 /\ buf a2 !! i = Some e2 /\
    e_addr e1 = e_addr e2 /\
    (NDEBUG = false -> e_size e1 = e_size e2 /\ is_Some (cty_of_size (e_size e1))).

Lemma push_conflict_Ret conf i r :
  push_conflict conf i = Ret r <->
  (length conf < ABUF_MAX_CONFLICTS)%nat /\ r = conf ++ [i].
Proof.
  unfold push_conflict. split.
  - intros Hr. inv_outcome. case_decide; inv_outcome. done.
  - intros [Hlt ->]. unfold fail_ifn. rewrite (proj2 (Nat.leb_le _ _)) by lia.
    cbn. by rewrite decide_True.
Qed.

Lemma cmp_heap_loop_Ret n m a1 a2 conf r :
  poped a1 = poped a2 ->
  cmp_heap_loop n m a1 a2 conf = Ret r ->
  r = (set_poped (poped a1 + n) a1, set_poped (poped a2 + n) a2,
       conf ++ List.filter (confl m (buf a1)) (seq (poped a1) n)) /\
  forall i, (poped a1 <= i < poped a1 + n)%nat -> entries_match a1 a2 i.
Proof.
  revert a1 a2 conf. induction n as [|n IH]; intros a1 a2 conf Hpo Hrun.
  { cbn in Hrun. inv_outcome. rewrite !Nat.add_0_r, app_nil_r.
    split; [by destruct a1, a2|]. intros; lia. }
  cbn [cmp_heap_loop] in Hrun. inv_outcome.
  match goal with H : cmp_heap_loop n _ _ _ _ = _ |- _ => apply IH in H as [-> Hm] end;
    [|cbn; congruence].
  match goal with
  | X1 : buf a1 !! _ = Some ?x1, X2 : buf a2 !! _ = Some ?x2,
    X3 : (e_addr ?x1 =? e_addr ?x2) = true, X4 : NDEBUG = false -> _,
    X5 : match entry_conflict m ?x1 with _ => _ end = Ret ?x3 |- _ =>
      rename x1 into e1, x2 into e2, X1 into He1, X2 into He2, X3 into Ha,
        X4 into Hs, X5 into Hc, x3 into c
  end.
  assert (Hc' : c = conf ++ (if confl m (buf a1) (poped a1) then [poped a1] else []) /\
                (NDEBUG = false -> is_Some (cty_of_size (e_size e1)))).
  { unfold confl. rewrite He1. unfold entry_conflict in *.
    destruct (cty_of_size (e_size e1)) as [t|].
    - split; [|by eauto]. destruct (negb _).
      + by apply push_conflict_Ret in Hc as [_ ->].
      + inv_outcome. by rewrite app_nil_r.
    - inv_outcome. rewrite app_nil_r. split; [done|]. intros Hd. by apply H0 in Hd. }
  destruct Hc' as [-> Hty]. cbn [poped set_poped buf seq List.filter] in *. split.
  - rewrite <- !app_assoc, Nat.add_1_r. rewrite <- Hpo.
    replace (S (poped a1) + n)%nat with (poped a1 + S n)%nat by lia.
    replace (poped a1 + 1 + n)%nat with (poped a1 + S n)%nat by lia.
    repeat f_equal. by destruct (confl m (buf a1) (poped a1)).
  - intros i Hi. destruct (decide (i = poped a1)) as [->|].
    + exists e1, e2. rewrite Hpo at 2. split_and!; [done|done|by apply Z.eqb_eq|].
      intros Hd. split; [by apply Z.eqb_eq, Hs|auto].
    + apply Hm. lia.
Qed.

(** The loop returns when the entries match and the conflict table cannot
    overflow. *)
Definition entries_equal (a1 a2 : abuf) i : Prop :=
  exists e1 e2, buf a1 !! i = Some e1 /\ buf a2 !! i = Some e2 /\
    e_addr e1 = e_addr e2 /\ e_size e1 = e_size e2 /\ is_Some (cty_of_size (e_size e1)).

Lemma cmp_heap_loop_ok n m a1 a2 conf :
  poped a1 = poped a2 ->
  (forall i, (poped a1 <= i < poped a1 + n)%nat -> entries_equal a1 a2 i) ->
  (length conf + n <= ABUF_MAX_CONFLICTS)%nat ->
  exists r, cmp_heap_loop n m a1 a2 conf = Ret r.
Proof.
  revert a1 a2 conf. induction n as [|n IH]; intros a1 a2 conf Hpo Hm Hle; cbn; [eauto|].
  destruct (Hm (poped a1) ltac:(lia)) as (e1 & e2 & He1 & He2 & Ha & Hs & t & Ht).
  rewrite Hpo in He2. unfold arr_get. rewrite He1, He2. cbn.
  rewrite Hs, Ha, !Z.eqb_refl, c_assert_true. cbn.
  assert (Hc : exists conf', match entry_conflict m e1 with
      | Some true => push_conflict conf (poped a1)
      | Some false => Ret conf | None => c_assert false;; Ret conf end = Ret conf' /\
      (length conf' <= length conf + 1)%nat).
  { unfold entry_conflict. rewrite Ht. destruct (negb _).
    - eexists. split; [apply push_conflict_Ret; split; [lia|reflexivity]|].
      rewrite length_app. cbn. lia.
    - exists conf. split; [done|lia]. }
  destruct Hc as (conf' & -> & Hlen). cbn. apply IH; cbn; [congruence| |lia].
  intros i Hi. apply Hm. lia.
Qed.

(** ** The duplicate check *)

Lemma check_conflicts_Ret a conf u :
  (pushed a <= length (buf a))%nat ->
  check_conflicts a conf = Ret u ->
  forall i, i ∈ conf -> (i < pushed a)%nat ->
  exists j e e', (i < j < pushed a)%nat /\ buf a !! i = Some e /\
                 buf a !! j = Some e' /\ e_addr e' = e_addr e.
Proof.
  intros Hlen. induction conf as [|i0 conf IH]; intros Hrun i Hi Hlt; [inversion Hi|].
  cbn [check_conflicts] in Hrun. inv_outcome.
  match goal with X : buf a !! i0 = Some ?e |- _ => rename e into e0, X into He0 end.
  destruct (find_last_spec (buf a) (pushed a) (e_addr e0) Hlen) as (r & Hr & Hspec).
  match goal with X : find_last _ _ _ = Ret ?j |- _ => rewrite Hr in X; injection X as <- end.
  apply elem_of_cons in Hi as [->|Hi]; [|by eapply IH].
  destruct r as [j|].
  - destruct Hspec as (Hj & (e' & He' & Ha') & Hlast). case_decide; [discriminate|].
    exists j, e0, e'. split_and!; try done.
    destruct (decide (i0 < j)%nat); [lia|]. exfalso.
    apply (Hlast i0 e0); [lia|done|done].
  - exfalso. by apply (Hspec i0 e0).
Qed.

Lemma check_conflicts_ok a conf :
  (pushed a <= length (buf a))%nat ->
  (forall i, i ∈ conf -> exists j e e', (i < j < pushed a)%nat /\ buf a !! i = Some e /\
                 buf a !! j = Some e' /\ e_addr e' = e_addr e) ->
  check_conflicts a conf = Ret tt.
Proof.
  intros Hlen. induction conf as [|i conf IH]; intros Hc; [done|]. cbn [check_conflicts].
  destruct (Hc i ltac:(left)) as (j & e & e' & Hij & He & He' & Ha).
  unfold arr_get at 1. rewrite He. cbn.
  destruct (find_last_spec (buf a) (pushed a) (e_addr e) Hlen) as (r & -> & Hspec). cbn.
  destruct r as [j'|].
  - destruct Hspec as (Hj' & _ & Hlast). rewrite decide_False; [cbn|].
    + apply IH. intros i' Hi'. apply Hc. by right.
    + intros ->. apply (Hlast j e'); [lia|done|done].
  - exfalso. by apply (Hspec j e'); [lia|..].
Qed.

(** ** Soundness and completeness of abuf_cmp_heap on logs *)

Lemma entry_rel_conflict m e w : entry_rel e w ->
  entry_conflict m e = Some (negb (load (w_size w) m (w_addr w) =? w_val w)).
Proof.
  intros (Hs & Ha & Hv). unfold entry_conflict. rewrite Hs, cty_of_size_sizeof, Ha.
  by rewrite Hv.
Qed.

Lemma log_rel_confl m a l i w : log_rel a l -> l !! i = Some w ->
  confl m (buf a) i = negb (load (w_size w) m (w_addr w) =? w_val w).
Proof.
  intros Hrel Hi. destruct (log_rel_buf a l i w Hrel Hi) as (e & He & Hr & _).
  unfold confl. by rewrite He, (entry_rel_conflict m e w Hr).
Qed.

Lemma abuf_cmp_heap_inv m a1 a2 r :
  poped a1 = 0%nat -> poped a2 = 0%nat -> (pushed a1 <= length (buf a1))%nat ->
  abuf_cmp_heap m a1 a2 = Ret r ->
  (NDEBUG = false -> pushed a1 = pushed a2) /\
  (forall i, (i < pushed a1)%nat -> entries_match a1 a2 i) /\
  r = (set_poped (pushed a1) a1, set_poped (pushed a1) a2) /\
  (forall i, (i < pushed a1)%nat -> confl m (buf a1) i = true ->
     exists j e e', (i < j < pushed a1)%nat /\ buf a1 !! i = Some e /\
                    buf a1 !! j = Some e' /\ e_addr e' = e_addr e).
Proof.
  intros Hp1 Hp2 Hlen Hrun. unfold abuf_cmp_heap in Hrun. inv_outcome.
  match goal with X : cmp_heap_loop _ _ _ _ _ = Ret _ |- _ =>
    apply cmp_heap_loop_Ret in X as [-> Hm]; [|congruence] end.
  rewrite Hp1, Hp2, Nat.sub_0_r in *. cbn [Nat.add app] in *.
  split_and!.
  - intros Hd. apply Nat.eqb_eq. auto.
  - intros i Hi. apply Hm. lia.
  - by destruct (List.filter _ _); inv_outcome.
  - intros i Hi Hc.
    assert (Hin : i ∈ List.filter (confl m (buf a1)) (seq 0 (pushed a1))).
    { apply list_elem_of_In, filter_In. split; [|done]. apply in_seq. lia. }
    destruct (List.filter _ _) as [|c0 conf] eqn:Ef; [inversion Hin|].
    inv_outcome.
    match goal with X : check_conflicts _ _ = Ret _ |- _ =>
      exact (check_conflicts_Ret (set_poped (pushed a1) a1) _ _ Hlen X i Hin Hi) end.
Qed.

(** An accepted comparison means: the memory holds the last logged value of
    every object of phase 0. *)
Lemma abuf_cmp_heap_sound m a1 a2 l1 l2 r :
  log_rel a1 l1 -> log_rel a2 l2 -> poped a1 = 0%nat -> poped a2 = 0%nat ->
  abuf_cmp_heap m a1 a2 = Ret r ->
  (forall i w, last_for l1 i w -> load (w_size w) m (w_addr w) = w_val w) /\
  (forall i w1 w2, l1 !! i = Some w1 -> l2 !! i = Some w2 -> w_addr w1 = w_addr w2) /\
  (NDEBUG = false -> shape <$> l1 = shape <$> l2).
Proof.
  intros Hr1 Hr2 Hp1 Hp2 Hrun.
  pose proof (log_rel_length _ _ Hr1) as Hl1. pose proof (log_rel_length _ _ Hr2) as Hl2.
  assert (Hlen : (pushed a1 <= length (buf a1))%nat) by (destruct Hr1 as [[] _]; lia).
  destruct (abuf_cmp_heap_inv _ _ _ _ Hp1 Hp2 Hlen Hrun) as (Hpu & Hm & _ & Hdup).
  assert (Haddr : forall i w1 w2, l1 !! i = Some w1 -> l2 !! i = Some w2 ->
            w_addr w1 = w_addr w2 /\ (NDEBUG = false -> w_ty w1 = w_ty w2)).
  { intros i w1 w2 Hi1 Hi2.
    destruct (log_rel_buf _ _ _ _ Hr1 Hi1) as (e1 & He1 & (Hs1 & Ha1 & _) & Hlt1).
    destruct (log_rel_buf _ _ _ _ Hr2 Hi2) as (e2 & He2 & (Hs2 & Ha2 & _) & _).
    destruct (Hm i Hlt1) as (e1' & e2' & He1' & He2' & Ha & Hs). simplify_eq.
    split; [congruence|]. intros Hd. destruct (Hs Hd) as [Hsz _].
    rewrite Hs1, Hs2 in Hsz. apply (f_equal cty_of_size) in Hsz.
    rewrite !cty_of_size_sizeof in Hsz. congruence. }
  split_and!; [| intros i w1 w2 Hi1 Hi2; by destruct (Haddr i w1 w2 Hi1 Hi2) |].
  - intros i w [Hi Hlast].
    pose proof (log_rel_confl m a1 l1 i w Hr1 Hi) as Hc.
    destruct (Z.eqb_spec (load (w_size w) m (w_addr w)) (w_val w)) as [|_]; [done|].
    destruct (log_rel_buf _ _ _ _ Hr1 Hi) as (e & He & (_ & Ha & _) & Hlt).
    destruct (Hdup i Hlt Hc) as (j & e0 & e' & Hij & He0 & He' & Ha').
    destruct (log_rel_lookup a1 l1 j Hr1 ltac:(lia)) as (ej & w' & Hej & Hw' & (_ & Haj & _)).
    simplify_eq. exfalso. apply (Hlast j w'); [lia|done|congruence].
  - intros Hd. apply list_eq_same_length with (n := pushed a1);
      [rewrite length_fmap, Hl2; symmetry; auto | by rewrite length_fmap |].
    intros i x y _ Hx Hy. rewrite list_lookup_fmap in Hx, Hy.
    destruct (l1 !! i) as [w1|] eqn:Hi1, (l2 !! i) as [w2|] eqn:Hi2; try discriminate.
    destruct (Haddr i w1 w2 Hi1 Hi2) as [Ha Ht]. injection Hx as <-. injection Hy as <-.
    unfold shape. by rewrite Ha, Ht.
Qed.

Lemma abuf_cmp_heap_complete m a1 a2 l1 l2 :
  SEI_DMR_REDUNDANCY = 2%nat ->
  log_rel a1 l1 -> log_rel a2 l2 -> poped a1 = 0%nat -> poped a2 = 0%nat ->
  shape <$> l1 = shape <$> l2 ->
  (length l1 <= ABUF_MAX_CONFLICTS)%nat ->
  (forall i w, last_for l1 i w -> load (w_size w) m (w_addr w) = w_val w) ->
  exists r, abuf_cmp_heap m a1 a2 = Ret r.
Proof.
  intros HN Hr1 Hr2 Hp1 Hp2 Hsh Hmax Hlast.
  pose proof (log_rel_length _ _ Hr1) as Hl1. pose proof (log_rel_length _ _ Hr2) as Hl2.
  assert (Hpu : pushed a1 = pushed a2).
  { rewrite <- Hl1, <- Hl2. apply (f_equal length) in Hsh. by rewrite !length_fmap in Hsh. }
  assert (Hlen : (pushed a1 <= length (buf a1))%nat) by (destruct Hr1 as [[] _]; lia).
  unfold abuf_cmp_heap. rewrite HN, Hp1, Hp2, <- Hpu, Nat.eqb_refl, !c_assert_true. cbn.
  rewrite Nat.eqb_refl, c_assert_true. cbn. rewrite Nat.sub_0_r.
  destruct (cmp_heap_loop_ok (pushed a1) m a1 a2 []) as [r Hr]; [congruence| |cbn; lia|].
  { intros i Hi. rewrite Hp1 in Hi.
    destruct (log_rel_lookup a1 l1 i Hr1 ltac:(lia)) as (e1 & w1 & He1 & Hw1 & Hs1 & Ha1 & _).
    destruct (shape_lookup l1 l2 i w1 Hsh Hw1) as (w2 & Hw2 & Ht & Ha).
    destruct (log_rel_buf a2 l2 i w2 Hr2 Hw2) as (e2 & He2 & (Hs2 & Ha2 & _) & _).
    exists e1, e2. split_and!; [done|done|congruence|congruence|].
    rewrite Hs1, cty_of_size_sizeof. eauto. }
  pose proof Hr as Hr'. apply cmp_heap_loop_Ret in Hr' as [-> _]; [|congruence].
  rewrite Hr. cbn. rewrite Hp1.
  set (conf := List.filter (confl m (buf a1)) (seq 0 (pushed a1))).
  assert (Hck : check_conflicts (set_poped (0 + pushed a1) a1) conf = Ret tt).
  2: { destruct conf; [by eexists|]. rewrite Hck. by eexists. }
  apply check_conflicts_ok; [done|].
  intros i Hi. apply list_elem_of_In, filter_In in Hi as [Hi Hc].
  apply in_seq in Hi.
  destruct (log_rel_lookup a1 l1 i Hr1 ltac:(lia)) as (e & w & He & Hw & Hs & Ha & _).
  destruct (last_for_exists l1 i w Hw) as (j & w' & Hij & Hlj & Haj).
  destruct (decide (i = j)) as [<-|Hne].
  - rewrite (log_rel_confl m a1 l1 i w' Hr1 (proj1 Hlj)) in Hc.
    rewrite (Hlast i w' Hlj), Z.eqb_refl in Hc. discriminate.
  - destruct (log_rel_buf a1 l1 j w' Hr1 (proj1 Hlj)) as (e' & He' & (_ & Ha' & _) & Hlt).
    exists j, e, e'. cbn. split_and!; [lia|lia|done|done|congruence].
Qed.

End Cmp.
