(* ===== verification/AbufTry.v ===== *)
(** * Theory of the non-aborting comparisons and of the restore routines

    [abuf_try_cmp_heap] is total, leaves both buffers as they were and decides a
    predicate that is stated here on logs; it is weaker than the one
    [abuf_cmp_heap] checks.  [abuf_restore] replays the log in forward order. *)

From S2P Require Export AbufCmp.

Implicit Types (ws l : list wr) (m : mem) (w : wr) (i j k : nat).

Definition mismatch m w : bool := negb (load (w_size w) m (w_addr w) =? w_val w).

(** Number of entries that differ from the memory. *)
Definition conflicts m l : nat := length (filter (fun w => mismatch m w = true) l).

Arguments conflicts : simpl never.
Arguments mismatch : simpl never.

(** The acceptance condition of [abuf_try_cmp_heap]: an entry that differs from
    the memory must share its address with some other entry. *)
Definition excused m l : Prop :=
  forall i w, l !! i = Some w -> mismatch m w = true ->
  exists j w', j <> i /\ l !! j = Some w' /\ w_addr w' = w_addr w.

Section Try.
Context `{Build}.

Lemma set_poped_id a : set_poped (poped a) a = a.
Proof. by destruct a. Qed.

Lemma entry_rel_neq e1 e2 w1 w2 :
  entry_rel e1 w1 -> entry_rel e2 w2 ->
  (e_size e1 = e_size e2 /\ e_addr e1 = e_addr e2 <-> shape w1 = shape w2).
Proof.
  intros (Hs1 & Ha1 & _) (Hs2 & Ha2 & _). rewrite Hs1, Hs2, Ha1, Ha2. unfold shape.
  split; [intros [Hs ->]|by intros [= -> ->]].
  apply (f_equal cty_of_size) in Hs. rewrite !cty_of_size_sizeof in Hs. congruence.
Qed.

(** One run of the loop from entry [k] on, on logs of equal length. *)
Lemma try_cmp_heap_loop_spec n m a1 a2 l1 l2 conf :
  log_rel a1 l1 -> log_rel a2 l2 -> poped a1 = poped a2 ->
  pushed a1 = pushed a2 -> pushed a1 = (poped a1 + n)%nat ->
  exists c p1 p2,
    try_cmp_heap_loop n m a1 a2 conf = Ret (c, set_poped p1 a1, set_poped p2 a2) /\
    match c with
    | Some conf' =>
        shape <$> drop (poped a1) l1 = shape <$> drop (poped a1) l2 /\
        conf' = conf ++ List.filter (confl m (buf a1)) (seq (poped a1) n) /\
        (length conf' <= length conf `max` ABUF_MAX_CONFLICTS)%nat
    | None =>
        shape <$> drop (poped a1) l1 <> shape <$> drop (poped a1) l2 \/
        (ABUF_MAX_CONFLICTS < length conf + conflicts m (drop (poped a1) l1))%nat
    end.
Proof.
  revert a1 a2 conf. induction n as [|n IH]; intros a1 a2 conf Hr1 Hr2 Hpo Hpu Hn.
  { pose proof (log_rel_length _ _ Hr1). pose proof (log_rel_length _ _ Hr2).
    exists (Some conf), (poped a1), (poped a2). rewrite !set_poped_id. split; [done|].
    rewrite !drop_ge by lia. rewrite app_nil_r. split_and!; [done|done|lia]. }
  destruct (log_rel_lookup a1 l1 (poped a1) Hr1 ltac:(lia)) as (e1 & w1 & He1 & Hw1 & Hrel1).
  destruct (log_rel_lookup a2 l2 (poped a1) Hr2 ltac:(lia)) as (e2 & w2 & He2 & Hw2 & Hrel2).
  cbn [try_cmp_heap_loop]. rewrite <- Hpo. unfold arr_get. rewrite He1, He2. cbn.
  rewrite (drop_S l1 w1 _ Hw1), (drop_S l2 w2 _ Hw2). cbn [fmap list_fmap].
  pose proof (entry_rel_neq _ _ _ _ Hrel1 Hrel2) as Hsh.
  destruct (Z.eqb_spec (e_size e1) (e_size e2)) as [Hs|Hs]; cbn.
  2: { exists None, (poped a1 + 1)%nat, (poped a1 + 1)%nat. split; [done|].
       left. intros [E _]%cons_inj. by apply Hsh in E as [??]. }
  destruct (Z.eqb_spec (e_addr e1) (e_addr e2)) as [Ha|Ha]; cbn.
  2: { exists None, (poped a1 + 1)%nat, (poped a1 + 1)%nat. split; [done|].
       left. intros [E _]%cons_inj. by apply Hsh in E as [??]. }
  assert (Hw12 : shape w1 = shape w2) by (by apply Hsh).
  rewrite (entry_rel_conflict m e1 w1 Hrel1). fold (mismatch m w1).
  assert (Hc1 : confl m (buf a1) (poped a1) = mismatch m w1)
    by (by apply (log_rel_confl m a1 l1)).
  assert (Hcc : conflicts m (w1 :: drop (S (poped a1)) l1) =
     ((if mismatch m w1 then 1 else 0) + conflicts m (drop (S (poped a1)) l1))%nat).
  { unfold conflicts. rewrite filter_cons.
    by destruct (mismatch m w1); [rewrite decide_True by done | rewrite decide_False by done]. }
  assert (HIH : forall conf0,
    exists c p1 p2,
    try_cmp_heap_loop n m (set_poped (poped a1 + 1) a1) (set_poped (poped a1 + 1) a2) conf0 =
      Ret (c, set_poped p1 a1, set_poped p2 a2) /\
    match c with
    | Some conf' =>
        shape <$> drop (S (poped a1)) l1 = shape <$> drop (S (poped a1)) l2 /\
        conf' = conf0 ++ List.filter (confl m (buf a1)) (seq (S (poped a1)) n) /\
        (length conf' <= length conf0 `max` ABUF_MAX_CONFLICTS)%nat
    | None =>
        shape <$> drop (S (poped a1)) l1 <> shape <$> drop (S (poped a1)) l2 \/
        (ABUF_MAX_CONFLICTS < length conf0 + conflicts m (drop (S (poped a1)) l1))%nat
    end).
  { intros conf0. rewrite Nat.add_1_r.
    apply (IH (set_poped (S (poped a1)) a1) (set_poped (S (poped a1)) a2) conf0);
      try (apply set_poped_rel; [lia|done]); cbn; lia. }
  destruct (mismatch m w1) eqn:Hmis.
  - destruct (Nat.leb_spec ABUF_MAX_CONFLICTS (length conf)) as [Hmax|Hmax].
    + exists None, (poped a1 + 1)%nat, (poped a1 + 1)%nat. split; [done|].
      right. rewrite Hcc. lia.
    + destruct (HIH (conf ++ [poped a1])) as (c & p1 & p2 & -> & Hspec).
      exists c, p1, p2. split; [done|]. rewrite length_app in Hspec. cbn in Hspec.
      destruct c as [conf'|].
      * destruct Hspec as (Hs' & -> & Hlen). cbn [seq List.filter]. rewrite Hc1.
        rewrite <- app_assoc in *. cbn in *. split_and!; [by rewrite Hw12, Hs'|done|lia].
      * destruct Hspec as [Hs'|Hs']; [left; intros [_ E]%cons_inj; done|right; rewrite Hcc; lia].
  - destruct (HIH conf) as (c & p1 & p2 & -> & Hspec).
    exists c, p1, p2. split; [done|]. destruct c as [conf'|].
    + destruct Hspec as (Hs' & -> & Hlen). cbn [seq List.filter]. rewrite Hc1.
      split_and!; [by rewrite Hw12, Hs'|done|lia].
    + destruct Hspec as [Hs'|Hs']; [left; intros [_ E]%cons_inj; done|right; rewrite Hcc; lia].
Qed.

Lemma conflicts_count m a l k n : log_rel a l -> (k + n = pushed a)%nat ->
  length (List.filter (confl m (buf a)) (seq k n)) = conflicts m (drop k l).
Proof.
  intros Hrel. revert k. induction n as [|n IH]; intros k Hk.
  { pose proof (log_rel_length a l Hrel). by rewrite drop_ge by lia. }
  destruct (log_rel_lookup a l k Hrel ltac:(lia)) as (e & w & He & Hw & _).
  rewrite (drop_S l w k Hw). cbn [seq List.filter].
  rewrite (log_rel_confl m a l k w Hrel Hw). fold (mismatch m w).
  unfold conflicts. rewrite filter_cons. fold (conflicts m (drop (S k) l)).
  specialize (IH (S k) ltac:(lia)).
  destruct (mismatch m w); [rewrite decide_True by done|rewrite decide_False by done];
    cbn; by rewrite IH.
Qed.

Lemma all_have_duplicate_spec a conf :
  (pushed a <= length (buf a))%nat -> (forall i, i ∈ conf -> (i < pushed a)%nat) ->
  exists r, all_have_duplicate a conf = Ret r /\
    (r = true <-> forall i, i ∈ conf -> exists j e e', j <> i /\ (j < pushed a)%nat /\
       buf a !! i = Some e /\ buf a !! j = Some e' /\ e_addr e' = e_addr e).
Proof.
  intros Hlen. induction conf as [|i conf IH]; intros Hin.
  { exists true. split; [done|]. split; [|done]. intros _ i Hi. inversion Hi. }
  cbn [all_have_duplicate].
  destruct (arr_get_lt (buf a) i) as (e & He & ->).
  { specialize (Hin i ltac:(left)). lia. }
  cbn. destruct (find_other_spec (buf a) (pushed a) i (e_addr e) Hlen) as (r & -> & Hr). cbn.
  destruct IH as (r' & Hrun & Hr'); [intros; apply Hin; by right|].
  destruct r.
  - exists r'. split; [done|]. rewrite Hr'. split; intros Hall i' Hi'.
    + apply elem_of_cons in Hi' as [->|Hi']; [|by apply Hall].
      destruct (proj1 Hr eq_refl) as (j & e' & Hj & Hji & He' & Ha).
      exists j, e, e'. done.
    + apply Hall. by right.
  - exists false. split; [done|]. split; [done|]. intros Hall. apply Hr.
    destruct (Hall i ltac:(left)) as (j & e0 & e' & Hji & Hj & He0 & He' & Ha).
    exists j, e'. split_and!; congruence.
Qed.

Lemma excused_conf m a l conf : log_rel a l ->
  conf = List.filter (confl m (buf a)) (seq 0 (pushed a)) ->
  excused m l <-> forall i, i ∈ conf -> exists j e e', j <> i /\ (j < pushed a)%nat /\
     buf a !! i = Some e /\ buf a !! j = Some e' /\ e_addr e' = e_addr e.
Proof.
  intros Hrel ->. split.
  - intros Hex i Hi. apply list_elem_of_In, filter_In in Hi as [Hi Hc]. apply in_seq in Hi.
    destruct (log_rel_lookup a l i Hrel ltac:(lia)) as (e & w & He & Hw & (_ & Ha & _)).
    rewrite (log_rel_confl m a l i w Hrel Hw) in Hc.
    destruct (Hex i w Hw Hc) as (j & w' & Hji & Hj & Haw).
    destruct (log_rel_buf a l j w' Hrel Hj) as (e' & He' & (_ & Ha' & _) & Hlt).
    exists j, e, e'. split_and!; congruence.
  - intros Hall i w Hw Hmis.
    destruct (log_rel_buf a l i w Hrel Hw) as (e & He & (_ & Ha & _) & Hlt).
    destruct (Hall i) as (j & e0 & e' & Hji & Hj & He0 & He' & Haj).
    { apply list_elem_of_In, filter_In. split; [apply in_seq; lia|].
      by rewrite (log_rel_confl m a l i w Hrel Hw). }
    destruct (log_rel_lookup a l j Hrel Hj) as (ej & w' & Hej & Hw' & (_ & Ha' & _)).
    exists j, w'. split_and!; congruence.
Qed.

(** The comparison decides this predicate, always returns and leaves both
    buffers unchanged. *)
Lemma abuf_try_cmp_heap_spec m a1 a2 l1 l2 :
  SEI_DMR_REDUNDANCY = 2%nat ->
  log_rel a1 l1 -> log_rel a2 l2 -> poped a1 = 0%nat -> poped a2 = 0%nat ->
  exists v, abuf_try_cmp_heap m a1 a2 = Ret (v, a1, a2) /\
    (v = true <-> shape <$> l1 = shape <$> l2 /\
                  (conflicts m l1 <= ABUF_MAX_CONFLICTS)%nat /\ excused m l1).
Proof.
  intros HN Hr1 Hr2 Hp1 Hp2.
  pose proof (log_rel_length _ _ Hr1) as Hl1. pose proof (log_rel_length _ _ Hr2) as Hl2.
  assert (Hlen : (pushed a1 <= length (buf a1))%nat) by (destruct Hr1 as [[] _]; lia).
  assert (Hid1 : forall p, set_poped 0 (set_poped p a1) = a1) by (intros p; rewrite <- Hp1; by destruct a1).
  assert (Hid2 : forall p, set_poped 0 (set_poped p a2) = a2) by (intros p; rewrite <- Hp2; by destruct a2).
  assert (Hsame : shape <$> l1 = shape <$> l2 -> pushed a1 = pushed a2).
  { intros E%(f_equal length). by rewrite !length_fmap, Hl1, Hl2 in E. }
  unfold abuf_try_cmp_heap. rewrite HN, Nat.eqb_refl, c_assert_true, Hp1, Hp2. cbn -[set_poped].
  destruct (Nat.eqb_spec (pushed a1) (pushed a2)) as [Hpu|Hpu]; cbn -[set_poped].
  2: { exists false. split; [by rewrite <- Hp1 at 1; rewrite <- Hp2 at 1; rewrite !set_poped_id|]. split; [done|].
       intros [Hsh _]. tauto. }
  rewrite Nat.sub_0_r.
  destruct (try_cmp_heap_loop_spec (pushed a1) m a1 a2 l1 l2 [] Hr1 Hr2)
    as (c & p1 & p2 & Hrun & Hc); [congruence|done|lia|].
  rewrite Hp1, !drop_0 in Hc. cbn [length app] in Hc.
  pose proof (conflicts_count m a1 l1 0 (pushed a1) Hr1 eq_refl) as Hcc. rewrite drop_0 in Hcc.
  rewrite Hrun. cbn -[set_poped]. destruct c as [conf|].
  2: { exists false. split; [by rewrite Hid1, Hid2|]. split; [done|].
       intros (Hsh & Hmax & _). destruct Hc as [Hc|Hc]; [done|lia]. }
  destruct Hc as (Hsh & Hconf & Hmax).
  assert (Hexc : excused m l1 <-> forall i, i ∈ conf -> exists j e e', j <> i /\ (j < pushed a1)%nat /\
       buf a1 !! i = Some e /\ buf a1 !! j = Some e' /\ e_addr e' = e_addr e).
  { apply (excused_conf m a1 l1 conf Hr1 Hconf). }
  destruct (all_have_duplicate_spec (set_poped p1 a1) conf Hlen) as (r & Hdup & Hr).
  { intros i Hi. rewrite Hconf in Hi. apply list_elem_of_In, filter_In in Hi as [Hi _].
    apply in_seq in Hi. cbn. lia. }
  cbn [buf pushed set_poped] in Hr. rewrite <- Hexc in Hr.
  exists r. rewrite <- Hcc, <- Hconf, Hr. split; [|split; [intros Hx; split_and!; [done|lia|done]|tauto]].
  destruct conf as [|c0 conf].
  - cbn in Hdup. injection Hdup as <-. by rewrite Hid1, Hid2.
  - rewrite Hdup. cbn -[set_poped]. by rewrite Hid1, Hid2.
Qed.

(** ** Restore *)

Lemma restore_loop_rel (f : mem -> abuf_entry -> outcome mem) a l m :
  (forall M e w, entry_rel e w -> f M e = Ret (apply_wr M w)) ->
  log_rel a l ->
  for_range (pushed a) 0 (fun i M => e ← arr_get (buf a) i; f M e) m = Ret (replay l m).
Proof.
  intros Hf Hrel. pose proof (log_rel_length a l Hrel) as Hl.
  destruct (for_range_total (fun i M => M = replay (take i l) m) (pushed a) 0
    (fun i M => e ← arr_get (buf a) i; f M e) m) as (m' & -> & ->); [done| |].
  - intros i M Hi ->.
    destruct (log_rel_lookup a l i Hrel ltac:(lia)) as (e & w & He & Hw & Hr).
    unfold arr_get. rewrite He. cbn. rewrite (Hf _ e w Hr). eexists. split; [done|].
    by rewrite Nat.add_1_r, (take_S_r l i w Hw), replay_app.
  - by rewrite take_ge by lia.
Qed.

Lemma restore_entry_rel M e w : entry_rel e w -> restore_entry M e = Ret (apply_wr M w).
Proof.
  intros (Hs & Ha & Hv). unfold restore_entry. rewrite Hs, cty_of_size_sizeof, Ha, Hv. done.
Qed.

(** The restore routine replays the log from its first entry to its last. *)
Lemma abuf_restore_rel a l m :
  log_rel a l -> abuf_restore a m = Ret (abuf_clean a, replay l m).
Proof.
  intros Hrel. unfold abuf_restore.
  rewrite (restore_loop_rel restore_entry a l m restore_entry_rel Hrel). done.
Qed.

Lemma abuf_restore_filtered_rel in_talloc a l m :
  (forall x, in_talloc x = false) ->
  log_rel a l -> abuf_restore_filtered in_talloc a m = Ret (abuf_clean a, replay l m).
Proof.
  intros Hno Hrel. unfold abuf_restore_filtered.
  rewrite (restore_loop_rel (restore_filtered_entry in_talloc) a l m); [done| |done].
  intros M e w Hr. unfold restore_filtered_entry. rewrite !Hno, !andb_false_r.
  by apply restore_entry_rel.
Qed.

(** ** The N-way comparison looks at one buffer's values *)

Definition scrub (b : abuf) : abuf := set_buf ((fun e => set_wval e 0) <$> buf b) b.

Arguments scrub : simpl never.

Lemma arr_get_buf_scrub b k :
  arr_get (buf (scrub b)) k = (fun e => set_wval e 0) <$> arr_get (buf b) k.
Proof.
  unfold arr_get, scrub. cbn [buf set_buf]. rewrite list_lookup_fmap. by destruct (buf b !! k).
Qed.

Lemma arr_get_scrub b0 bs i :
  (1 <= i)%nat -> arr_get (b0 :: (scrub <$> bs)) i = scrub <$> arr_get (b0 :: bs) i.
Proof.
  intros Hi. destruct i as [|i]; [lia|]. unfold arr_get.
  rewrite !lookup_cons, list_lookup_fmap.
  by destruct (bs !! i).
Qed.

Lemma counts_agree_scrub b0 bs n i : (1 <= i)%nat ->
  counts_agree (b0 :: (scrub <$> bs)) b0 n i = counts_agree (b0 :: bs) b0 n i.
Proof.
  revert i. induction n as [|n IH]; intros i Hi; cbn [counts_agree]; [done|].
  rewrite arr_get_scrub by done. destruct (arr_get (b0 :: bs) i) as [bi|]; cbn; [|done].
  by rewrite IH by lia.
Qed.

Lemma phases_agree_scrub b0 bs e0 k n i : (1 <= i)%nat ->
  phases_agree (b0 :: (scrub <$> bs)) e0 k n i = phases_agree (b0 :: bs) e0 k n i.
Proof.
  revert i. induction n as [|n IH]; intros i Hi; cbn [phases_agree]; [done|].
  rewrite arr_get_scrub by done. destruct (arr_get (b0 :: bs) i) as [bi|]; cbn; [|done].
  rewrite arr_get_buf_scrub. destruct (arr_get (buf bi) k); cbn; [|done].
  by rewrite IH by lia.
Qed.

Lemma try_nway_loop_scrub r m b0 bs n k conf :
  try_nway_loop r m (b0 :: (scrub <$> bs)) b0 n k conf =
  try_nway_loop r m (b0 :: bs) b0 n k conf.
Proof.
  revert k conf. induction r as [|r IH]; intros k conf; cbn [try_nway_loop]; [done|].
  destruct (arr_get (buf b0) k) as [e0|]; cbn; [|done].
  rewrite phases_agree_scrub by lia.
  destruct (phases_agree _ _ _ _ _) as [ok|]; cbn; [|done].
  destruct (negb ok); [done|]. destruct (entry_conflict m e0) as [[]|]; by rewrite ?IH.
Qed.

End Try.
