(* ===== verification/AbufProps.v ===== *)
(** * Properties of the write buffer

    The main theorems about src/abuf.c, with witnesses on concrete logs. *)

From S2P Require Export AbufTry.

Implicit Types (ws l : list wr) (m : mem) (a : abuf).

Section Props.
Context `{Build}.

(** ** Undo *)

(** C9.  Swapping an execution's log with the memory undoes the execution: for
    every sequence of writes, whatever their sizes and overlaps, the memory is
    the one before the first write, and the log now holds the values written,
    in order. *)
Theorem abuf_swap_undoes n ws m :
  exists a a' m', log_writes ws (abuf_init (S n), m) = Ret (a, replay ws m) /\
    abuf_swap a (replay ws m) = Ret (a', m') /\ m' ≈ m /\
    log_rel a' (norm <$> ws) /\ poped a' = 0%nat.
Proof.
  destruct (log_writes_rel ws (abuf_init (S n)) [] m) as (a & E & Hrel & Hpo); [by apply abuf_init_rel; lia|].
  destruct (abuf_swap_rel a _ (replay ws m) Hrel Hpo) as (a' & E' & Hrel' & _ & Hpo').
  destruct (aswap_undo ws m) as [E1 E2]. cbn [app] in *. rewrite E1 in Hrel'.
  exists a, a', (aswap (undo_log ws m) (replay ws m)).2. split_and!; done.
Qed.

(** Restoring a log of overwritten values brings the memory back when no
    two writes share a byte. *)
Theorem abuf_restore_undoes ws m : all_disjoint ws ->
  exists a a' m', log_writes ws (abuf_init 4, m) = Ret (a, replay ws m) /\
    abuf_restore a (replay ws m) = Ret (a', m') /\ m' ≈ m /\ log_rel a' [].
Proof.
  intros Hd.
  destruct (log_writes_rel ws (abuf_init 4) [] m) as (a & E & Hrel & Hpo); [by apply abuf_init_rel; lia|].
  cbn [app] in Hrel. exists a, (abuf_clean a), (replay (undo_log ws m) (replay ws m)).
  split_and!; [done|by apply abuf_restore_rel|by apply replay_undo_disjoint|].
  apply abuf_clean_rel, Hrel.
Qed.

(** When an object is written twice, restoring leaves the value of the first
    write instead of the original one: the entries are applied oldest first. *)
Theorem abuf_restore_duplicate t addr v1 v2 m :
  exists a a' m', log_writes [mk_wr t addr v1; mk_wr t addr v2] (abuf_init 4, m) =
      Ret (a, replay [mk_wr t addr v1; mk_wr t addr v2] m) /\
    abuf_restore a (replay [mk_wr t addr v1; mk_wr t addr v2] m) = Ret (a', m') /\
    load (sizeof t) m' addr = wrap (sizeof t) v1.
Proof.
  set (ws := [mk_wr t addr v1; mk_wr t addr v2]).
  destruct (log_writes_rel ws (abuf_init 4) [] m) as (a & E & Hrel & Hpo); [by apply abuf_init_rel; lia|].
  cbn [app] in Hrel. exists a, (abuf_clean a), (replay (undo_log ws m) (replay ws m)).
  split_and!; [done|by apply abuf_restore_rel|]. cbn. unfold replay. cbn. unfold apply_wr. cbn.
  rewrite !load_store_same. apply wrap_small, wrap_bound.
Qed.

(** ** Round trip *)

(** Push, then pop: reading back the buffer returns the pushed value reduced
    to its type, for every type and every alignment of the address, and fails
    for another address. *)
Theorem abuf_push_pop t a addr v : log_rel a [] -> poped a = 0%nat ->
  exists a1 a2, abuf_push_ty t a addr v = Ret a1 /\
    abuf_pop_ty t a1 addr = Ret (wrap (sizeof t) v, a2) /\ abuf_size a2 = 0 /\
    forall addr', addr' <> addr -> abuf_pop_ty t a1 addr' = Stop (SeiFail "reading wrong address").
Proof.
  intros Hrel Hpo. destruct (abuf_push_rel t a [] addr v Hrel) as (a1 & E & Hrel1 & Hpu & Hpo1).
  pose proof (log_rel_length _ _ Hrel) as Hl. cbn in Hl.
  destruct (log_rel_buf a1 _ 0 (mk_wr t addr (wrap (sizeof t) v)) Hrel1 eq_refl) as (e & He & (Hs & Ha & Hv) & _).
  assert (Hlt : (poped a1 <? pushed a1)%nat = true) by (apply Nat.ltb_lt; lia).
  assert (Hg : arr_get (buf a1) (poped a1) = Ret e) by (apply arr_get_Ret; by rewrite Hpo1, Hpo).
  exists a1, (set_poped (poped a1 + 1) a1). split_and!; [done| | |].
  - unfold abuf_pop_ty. rewrite Hlt, c_assert_true. cbn [mbind outcome_bind]. rewrite Hg.
    cbn [mbind outcome_bind]. rewrite Ha. cbn [w_addr]. rewrite Z.eqb_refl. cbn [fail_ifn mbind outcome_bind].
    rewrite Hs. cbn [w_ty]. rewrite Z.eqb_refl, c_assert_true. cbn [mbind outcome_bind].
    cbn [w_ty w_addr w_val] in Hv. by rewrite Hv.
  - unfold abuf_size. cbn. lia.
  - intros addr' Hne. unfold abuf_pop_ty. rewrite Hlt, c_assert_true. cbn [mbind outcome_bind]. rewrite Hg.
    cbn [mbind outcome_bind]. rewrite Ha. cbn [w_addr].
    by rewrite (proj2 (Z.eqb_neq addr addr')) by done.
Qed.

(** ** The two comparisons agree on logs without repeated objects *)

(** A log without repeated objects: a mismatch is never excused. *)
Lemma excused_disjoint m l : all_disjoint l ->
  excused m l <-> forall i w, l !! i = Some w -> mismatch m w = false.
Proof.
  intros Hd. split.
  - intros He i w Hi. destruct (mismatch m w) eqn:E; [|done].
    destruct (He i w Hi E) as (j & w' & Hne & Hj & Ha). exfalso.
    pose proof (Hd _ _ _ _ Hne Hj Hi) as Hr. rewrite Ha in Hr. unfold disjoint_range in Hr.
    pose proof (sizeof_pos (w_ty w)). pose proof (sizeof_pos (w_ty w')). lia.
  - intros Hno i w Hi E. by rewrite (Hno i w Hi) in E.
Qed.

Lemma no_mismatch_conflicts m l : (forall i w, l !! i = Some w -> mismatch m w = false) ->
  conflicts m l = 0%nat.
Proof.
  intros Hno. unfold conflicts. rewrite length_zero_iff_nil. apply elem_of_nil_inv.
  intros w [Hm [i Hi]%list_elem_of_lookup]%list_elem_of_filter. by rewrite (Hno i w Hi) in Hm.
Qed.

(** On logs that do not repeat an object the pre-check of the recovery mode
    ([abuf_try_cmp_heap]) accepts exactly when the aborting comparison of a debug
    build ([abuf_cmp_heap]) returns, and it leaves both buffers as they were. *)
Theorem try_cmp_heap_iff_cmp_heap m a1 a2 l1 l2 :
  SEI_DMR_REDUNDANCY = 2%nat -> NDEBUG = false ->
  log_rel a1 l1 -> log_rel a2 l2 -> poped a1 = 0%nat -> poped a2 = 0%nat ->
  all_disjoint l1 -> (length l1 <= ABUF_MAX_CONFLICTS)%nat ->
  exists v, abuf_try_cmp_heap m a1 a2 = Ret (v, a1, a2) /\
    (v = true <-> exists r, abuf_cmp_heap m a1 a2 = Ret r).
Proof.
  intros HN Hdbg Hr1 Hr2 Hp1 Hp2 Hd Hmax.
  destruct (abuf_try_cmp_heap_spec m a1 a2 l1 l2 HN Hr1 Hr2 Hp1 Hp2) as (v & E & Hv).
  exists v. split; [done|]. rewrite Hv, excused_disjoint by done. split.
  - intros (Hsh & _ & Hno). eapply abuf_cmp_heap_complete; eauto. intros i w [Hi _].
    specialize (Hno i w Hi). unfold mismatch in Hno. apply negb_false_iff, Z.eqb_eq in Hno. done.
  - intros [r Hr]. destruct (abuf_cmp_heap_sound m a1 a2 l1 l2 r Hr1 Hr2 Hp1 Hp2 Hr) as (Hlast & _ & Hsh).
    assert (Hno : forall i w, l1 !! i = Some w -> mismatch m w = false).
    { intros i w Hi. unfold mismatch. apply negb_false_iff, Z.eqb_eq, (Hlast i). split; [done|].
      intros j w' Hij Hj Ha. pose proof (Hd j i w' w ltac:(lia) Hj Hi) as Hr'. rewrite Ha in Hr'.
      unfold disjoint_range in Hr'. pose proof (sizeof_pos (w_ty w)). pose proof (sizeof_pos (w_ty w')). lia. }
    split_and!; [by apply Hsh| |done]. rewrite no_mismatch_conflicts by done. lia.
Qed.

(** ** N-way *)

(** The N-way comparison reads the recorded values of phase 0 only: erasing
    every value of all the other phases' logs never changes its verdict.  What
    the middle phases computed is not compared. *)
Theorem nway_ignores_later_values m b0 bs n :
  abuf_try_cmp_heap_nway m (b0 :: (scrub <$> bs)) n = abuf_try_cmp_heap_nway m (b0 :: bs) n.
Proof.
  unfold abuf_try_cmp_heap_nway. destruct (c_assert _); cbn; [|done].
  rewrite counts_agree_scrub by lia. destruct (counts_agree _ _ _ _) as [same|]; cbn; [|done].
  by rewrite try_nway_loop_scrub.
Qed.

End Props.

Section Witnesses.

Lemma abuf_restore_undoes_witness :
  let _ := debug_build 2 in
  all_disjoint [mk_wr uint8_t 5 1] /\
  exists a a' m', log_writes [mk_wr uint8_t 5 1] (abuf_init 4, ∅) = Ret (a, replay [mk_wr uint8_t 5 1] ∅) /\
    abuf_restore a (replay [mk_wr uint8_t 5 1] ∅) = Ret (a', m') /\ m' ≈ ∅ /\ log_rel a' [].
Proof.
  intros B. assert (Hd : all_disjoint [mk_wr uint8_t 5 1]).
  { intros i j w1 w2 Hij Hi Hj. apply lookup_lt_Some in Hi as Hi'. apply lookup_lt_Some in Hj as Hj'.
    cbn in Hi', Hj'. lia. }
  split; [exact Hd|]. exact (@abuf_restore_undoes B _ ∅ Hd).
Defined.

Lemma abuf_push_pop_witness :
  let _ := debug_build 2 in
  exists a1 a2, abuf_push_ty uint16_t (abuf_init 4) 6 0x12345 = Ret a1 /\
    abuf_pop_ty uint16_t a1 6 = Ret (0x2345, a2) /\ abuf_size a2 = 0.
Proof.
  intros B. destruct (@abuf_push_pop B uint16_t (abuf_init 4) 6 0x12345) as (a1 & a2 & E1 & E2 & E3 & _).
  - apply abuf_init_rel. lia.
  - reflexivity.
  - exists a1, a2. split; [exact E1|]. split; [exact E2|exact E3].
Defined.

Lemma try_cmp_heap_iff_cmp_heap_witness :
  let _ := debug_build 2 in
  let m := store 4 ∅ 100 7 in
  exists a1 a2 v, log_rel a1 [mk_wr uint32_t 100 7] /\ log_rel a2 [mk_wr uint32_t 100 0] /\
    abuf_try_cmp_heap m a1 a2 = Ret (v, a1, a2) /\
    (v = true <-> exists r, abuf_cmp_heap m a1 a2 = Ret r).
Proof.
  intros B m.
  destruct (abuf_push_rel uint32_t (abuf_init 4) [] 100 7) as (a1 & _ & Hr1 & _ & Hp1); [apply abuf_init_rel; lia|].
  destruct (abuf_push_rel uint32_t (abuf_init 4) [] 100 0) as (a2 & _ & Hr2 & _ & Hp2); [apply abuf_init_rel; lia|].
  destruct (@try_cmp_heap_iff_cmp_heap B m a1 a2 _ _ eq_refl eq_refl Hr1 Hr2 Hp1 Hp2) as (v & E & Hv).
  - intros i j w1 w2 Hij Hi Hj. apply lookup_lt_Some in Hi. apply lookup_lt_Some in Hj. cbn in Hi, Hj. lia.
  - change ABUF_MAX_CONFLICTS with (Z.to_nat 8000). cbn. lia.
  - exists a1, a2, v. split; [exact Hr1|]. split; [exact Hr2|]. split; [exact E|exact Hv].
Defined.

End Witnesses.
