(* ===== verification/Protect.v ===== *)
(** * Page protection (src/protect.c and the HEAP_PROTECT parts of src/mode_cow.c)

    In this build the heap is read-only outside transactions.  The first write to a page
    raises a signal, whose handler makes the page writable and notes it in the buffer
    [wpages]; the commit protects the noted pages again.

    [mprotect] is a parameter with its documented effect on whole pages, and so is what
    the processor asks about a page.  The theorem follows pages through a transaction,
    with what the loop of the commit does: its bound [abuf_size(sei->wpages)] shrinks as
    entries are taken out, so that it stops half way. *)

From S2P Require Export AbufLog.

Inductive protect_t := READ | WRITE.

Definition PROT_READ : Z := 1.
Definition PROT_WRITE : Z := 2.
Definition page (a : Z) : Z := a / 4096.

(** The phase, the written pages and the operating system. *)
Record guard (K : Type) := mk_guard { gu_p : Z; gu_wpages : abuf; gu_os : K }.
Arguments mk_guard {K}.
Arguments gu_p {K}.
Arguments gu_wpages {K}.
Arguments gu_os {K}.

Section Protect.
Context `{Build} {K : Type} (mprotect : Z -> Z -> Z -> K -> Z * K) (writable : K -> Z -> bool).
Implicit Types s : guard K.

Definition protect_mem (addr size : Z) (prot : protect_t) (k : K) : outcome K :=
  c_assert (negb (addr =? 0));;
  c_assert (0 <? size);;
  let paddr := Z.land addr (2^64 - 4096) in
  let size := u64 (size + u64 (addr - paddr)) in
  let p := Z.lor PROT_READ (match prot with WRITE => PROT_WRITE | READ => 0 end) in
  let '(r, k) := mprotect paddr size p k in
  c_assert (r =? 0);;
  Ret k.

Definition sei_unprotect s (addr size : Z) : outcome (guard K) :=
  (if gu_p s =? 1 then c_assert false else Ret tt);;
  if (gu_p s =? 0) || (gu_p s =? -1) then
    a ← abuf_push (gu_wpages s) addr size;
    k ← protect_mem addr size WRITE (gu_os s);
    Ret (mk_guard (gu_p s) a k)
  else Ret s.

(** The handler of the signal. *)
Definition fault_handler s (si_addr : Z) : outcome (guard K) := sei_unprotect s si_addr 1.

(** What [sei_malloc] does with a new block. *)
Definition protect_block s (ptr size : Z) : outcome (guard K) :=
  if gu_p s =? 0 then k ← protect_mem ptr size READ (gu_os s); Ret (mk_guard (gu_p s) (gu_wpages s) k) else Ret s.

(** The loop at the end of [sei_commit]. *)
Fixpoint reprotect_loop (fuel : nat) (i : Z) s : option (outcome (guard K)) :=
  match fuel with
  | O => None
  | S fuel' =>
      if i <? abuf_size (gu_wpages s) then
        '(size, ptr, a) ⇐ lift (abuf_pop (gu_wpages s));
        k ⇐ lift (protect_mem ptr size READ (gu_os s));
        reprotect_loop fuel' (i + 1) (mk_guard (gu_p s) a k)
      else Some (Ret s)
  end.

Definition reprotect (fuel : nat) s : option (outcome (guard K)) :=
  s ⇐ reprotect_loop fuel 0 s;
  Some (Ret (mk_guard (gu_p s) (abuf_clean (gu_wpages s)) (gu_os s))).

(** A write: the processor repeats it after the handler has returned. *)
Fixpoint write_at (fuel : nat) (addr : Z) s : option (outcome (guard K)) :=
  match fuel with
  | O => None
  | S fuel' =>
      if writable (gu_os s) (page addr) then Some (Ret s)
      else s ⇐ lift (fault_handler s addr); write_at fuel' addr s
  end.

Fixpoint writes_at (addrs : list Z) s : option (outcome (guard K)) :=
  match addrs with [] => Some (Ret s) | a :: addrs' => s ⇐ write_at 2 a s; writes_at addrs' s end.

(** ** Pages *)

Lemma page_start a : 0 <= a < 2^64 -> Z.land a (2^64 - 4096) = 4096 * page a.
Proof.
  intros Ha. unfold page. change (2^64 - 4096) with (Z.shiftl (Z.ones 52) 12).
  replace (4096 * (a / 4096)) with (Z.shiftl (Z.shiftr a 12) 12) by (rewrite Z.shiftl_mul_pow2, Z.shiftr_div_pow2 by lia; apply Z.mul_comm).
  apply Z.bits_inj'. intros i Hi. rewrite Z.land_spec. destruct (decide (i < 12)) as [Hlt|Hge].
  - rewrite !Z.shiftl_spec_low by lia. apply andb_false_r.
  - rewrite !Z.shiftl_spec_high, Z.shiftr_spec, Z.sub_add by lia. destruct (decide (i < 64)) as [Hlt|Hge'].
    + rewrite Z.ones_spec_low by lia. apply andb_true_r.
    + rewrite Z.ones_spec_high, andb_false_r by lia. symmetry. apply Z.bits_above_log2; [lia|].
      destruct (decide (a = 0)) as [->|]; [cbn; lia|]. apply Z.log2_lt_pow2; [lia|]. eapply Z.lt_le_trans; [apply Ha|]. apply Z.pow_le_mono_r; lia.
Qed.

(** The pages of a range. *)
Definition covers (addr size pg : Z) : Prop := page addr <= pg <= page (addr + size - 1).

#[local] Instance covers_dec addr size pg : Decision (covers addr size pg).
Proof. unfold covers. apply _. Defined.

Lemma covers_byte a pg : covers a 1 pg <-> pg = page a.
Proof. unfold covers. replace (a + 1 - 1) with a by lia. lia. Qed.

(** What POSIX says of [mprotect] on mapped pages. *)
Context (mapped : Z -> Prop).
Hypothesis mprotect_spec : forall a size p k, 0 <= a -> a mod 4096 = 0 -> 0 < size -> a + size <= 2^64 -> (forall pg, covers a size pg -> mapped pg) ->
  let '(r, k') := mprotect a size p k in r = 0 /\ forall pg, writable k' pg = if decide (covers a size pg) then Z.testbit p 1 else writable k pg.

(** Ranges the program may protect. *)
Definition range_ok (addr size : Z) : Prop := 0 < addr /\ 0 < size /\ addr + size < 2^64 /\ forall pg, covers addr size pg -> mapped pg.

(** Exactly the pages that hold a byte of the range change. *)
Lemma protect_mem_ok addr size prot k : range_ok addr size -> exists k', protect_mem addr size prot k = Ret k' /\
  forall pg, writable k' pg = if decide (covers addr size pg) then match prot with WRITE => true | READ => false end else writable k pg.
Proof using All.
  intros (Ha & Hs & Htop & Hm). unfold protect_mem. rewrite (proj2 (Z.eqb_neq _ _)), (proj2 (Z.ltb_lt _ _)), !c_assert_true, !bind_Ret_l by lia. rewrite page_start by lia.
  pose proof (Z.div_mod addr 4096 ltac:(lia)) as Hd. pose proof (Z.mod_pos_bound addr 4096 ltac:(lia)). fold (page addr) in Hd. assert (0 <= page addr) by (apply Z.div_pos; lia).
  rewrite (u64_small (addr - _)), u64_small by lia.
  assert (Hsame : forall pg, covers (4096 * page addr) (size + (addr - 4096 * page addr)) pg <-> covers addr size pg).
  { intros pg. unfold covers. replace (4096 * page addr + (size + (addr - 4096 * page addr)) - 1) with (addr + size - 1) by lia. unfold page at 1. by rewrite Z.mul_comm, Z.div_mul. }
  pose proof (mprotect_spec (4096 * page addr) (size + (addr - 4096 * page addr)) (Z.lor PROT_READ match prot with WRITE => PROT_WRITE | READ => 0 end) k) as Hsp.
  destruct (mprotect _ _ _ k) as [r k']. destruct Hsp as [-> Hw]; [lia|by rewrite Z.mul_comm, Z.mod_mul|lia|lia|intros pg Hc; by apply Hm, Hsame|].
  rewrite Z.eqb_refl, c_assert_true, bind_Ret_l. exists k'. split; [done|]. intros pg. rewrite Hw. rewrite (decide_ext _ _ _ _ (Hsame pg)). by destruct prot.
Qed.

(** ** Writes *)

Definition noted (a : Z) : wr := mk_wr uint64_t a 1.

(** A write to a protected page. *)
Lemma write_fault s addr l : gu_p s = 0 -> log_rel (gu_wpages s) l -> range_ok addr 1 -> writable (gu_os s) (page addr) = false ->
  exists s', write_at 2 addr s = Some (Ret s') /\ gu_p s' = 0 /\ log_rel (gu_wpages s') (l ++ [noted addr]) /\ poped (gu_wpages s') = poped (gu_wpages s) /\
    forall pg, writable (gu_os s') pg = bool_decide (pg = page addr) || writable (gu_os s) pg.
Proof using All.
  intros Hp Hl Hr Hw. cbn [write_at]. rewrite Hw. unfold fault_handler, sei_unprotect. rewrite Hp. cbn [Z.eqb orb]. rewrite bind_Ret_l.
  destruct (abuf_push_rel uint64_t (gu_wpages s) l addr 1 Hl) as (a & Ea & Hla & _ & Hpo). unfold abuf_push. rewrite Ea, bind_Ret_l.
  destruct (protect_mem_ok addr 1 WRITE (gu_os s) Hr) as (k & -> & Hk). rewrite bind_Ret_l. cbn [lift fbind gu_os].
  assert (Hk' : forall pg, writable k pg = bool_decide (pg = page addr) || writable (gu_os s) pg).
  { intros pg. rewrite Hk. destruct (decide (covers addr 1 pg)) as [Hc|Hc]; rewrite covers_byte in Hc; [by rewrite bool_decide_eq_true_2|by rewrite bool_decide_eq_false_2]. }
  rewrite Hk', bool_decide_eq_true_2 by done. eexists. split; [done|]. by split_and!.
Qed.

(** Writes to different protected pages. *)
Lemma writes_fault addrs : forall s l, gu_p s = 0 -> log_rel (gu_wpages s) l -> Forall (fun a => range_ok a 1 /\ writable (gu_os s) (page a) = false) addrs -> NoDup (page <$> addrs) ->
  exists s', writes_at addrs s = Some (Ret s') /\ gu_p s' = 0 /\ log_rel (gu_wpages s') (l ++ (noted <$> addrs)) /\ poped (gu_wpages s') = poped (gu_wpages s) /\
    forall pg, writable (gu_os s') pg = bool_decide (pg ∈ page <$> addrs) || writable (gu_os s) pg.
Proof using All.
  induction addrs as [|a addrs IH]; intros s l Hp Hl Ha Hnd; cbn [writes_at].
  { exists s. rewrite app_nil_r. split_and!; try done. }
  apply Forall_cons in Ha as [[Hr Hw] Ha]. cbn [fmap list_fmap] in *. apply NoDup_cons in Hnd as [Hni Hnd].
  destruct (write_fault s a l Hp Hl Hr Hw) as (s1 & -> & Hp1 & Hl1 & Hpo1 & Hw1). cbn [fbind].
  destruct (IH s1 _ Hp1 Hl1) as (s2 & -> & Hp2 & Hl2 & Hpo2 & Hw2); [|done|].
  { rewrite Forall_forall in Ha |- *. intros x Hx. destruct (Ha x Hx) as [? Hx']. split; [done|]. rewrite Hw1, Hx', orb_false_r. apply bool_decide_eq_false. intros E. apply Hni. rewrite <- E. by apply list_elem_of_fmap_2. }
  exists s2. split_and!; [done|done|by rewrite <- app_assoc in Hl2|congruence|]. intros pg. rewrite Hw2, Hw1, orb_assoc. f_equal.
  apply eq_iff_eq_true. rewrite orb_true_iff, !bool_decide_eq_true, elem_of_cons. tauto.
Qed.

(** Writes to writable pages raise nothing, in any phase. *)
Lemma writes_quiet addrs s : Forall (fun a => writable (gu_os s) (page a) = true) addrs -> writes_at addrs s = Some (Ret s).
Proof. induction 1 as [|a addrs Hw _ IH]; cbn [writes_at write_at]; [done|]. by rewrite Hw. Qed.

(** ** The commit *)

(** The loop stops when it has taken half of the entries. *)
Lemma reprotect_loop_ok l : Forall (fun w => w_ty w = uint64_t /\ range_ok (w_addr w) (w_val w)) l -> let half := ((length l + 1) / 2)%nat in
  forall fuel s, log_rel (gu_wpages s) l -> let i := poped (gu_wpages s) in (i <= half)%nat -> (half - i < fuel)%nat ->
  exists s', reprotect_loop fuel (Z.of_nat i) s = Some (Ret s') /\ gu_p s' = gu_p s /\ log_rel (gu_wpages s') l /\
    forall pg, writable (gu_os s') pg = if decide (Exists (fun w => covers (w_addr w) (w_val w) pg) (drop i (take half l))) then false else writable (gu_os s) pg.
Proof using All.
  intros Hl half. pose proof (Nat.div_mod (length l + 1) 2 ltac:(lia)) as Hdm. fold half in Hdm. pose proof (Nat.mod_upper_bound (length l + 1) 2 ltac:(lia)).
  induction fuel as [|fuel IH]; intros s Hlog i Hi Hf; [lia|]. cbn [reprotect_loop]. unfold abuf_size. rewrite <- (log_rel_length _ _ Hlog). fold i.
  destruct (Z.ltb_spec (Z.of_nat i) (Z.of_nat (length l) - Z.of_nat i)) as [Hlt|Hge].
  - destruct (lookup_lt_is_Some_2 l i ltac:(lia)) as [w Hw]. pose proof Hw as Hok. rewrite Forall_lookup in Hl. destruct (Hl i w Hw) as [Hty Hr].
    rewrite (abuf_pop_rel (gu_wpages s) l w Hlog Hw Hty). cbn [lift fbind]. destruct (protect_mem_ok (w_addr w) (w_val w) READ (gu_os s) Hr) as (k & -> & Hk). cbn [lift fbind].
    set (s1 := mk_guard (gu_p s) (set_poped (poped (gu_wpages s) + 1) (gu_wpages s)) k). replace (Z.of_nat i + 1) with (Z.of_nat (poped (gu_wpages s1))) by (cbn; fold i; lia).
    assert (Hlog1 : log_rel (gu_wpages s1) l) by (apply set_poped_rel; [rewrite <- (log_rel_length _ _ Hlog); fold i; lia|done]).
    assert (Ei : poped (gu_wpages s1) = (i + 1)%nat) by done. clearbody half.
    destruct (IH s1 Hlog1) as (s' & -> & Hp' & Hl' & Hw'); [lia|lia|]. exists s'. split; [done|]. split; [done|]. split; [done|]. intros pg. rewrite Hw', Ei. cbn [s1 gu_os]. rewrite Hk. assert (Ed : drop i (take half l) = w :: drop (i + 1) (take half l)).
    { rewrite Nat.add_1_r. apply drop_S. rewrite lookup_take_lt by lia. done. }
    rewrite Ed. repeat case_decide; try done; rewrite Exists_cons in *; tauto.
  - exists s. split; [done|]. split; [done|]. split; [done|]. intros pg. rewrite drop_ge by (rewrite length_take; lia). rewrite decide_False; [done|]. intros He. by apply Exists_nil in He.
Qed.

(** C33.  What page protection does in a transaction.  The handler writes to [n] different
    pages that are read-only: each first write is caught once and goes through, the
    second execution writes the same pages without any signal, and the commit ends; but
    it protects only the first half of the pages again, rounded up.  The others stay
    writable, and no other page is touched. *)
Theorem commit_protects_half s addrs fuel : gu_p s = 0 -> log_rel (gu_wpages s) [] -> poped (gu_wpages s) = 0%nat ->
  Forall (fun a => range_ok a 1 /\ writable (gu_os s) (page a) = false) addrs -> NoDup (page <$> addrs) -> (length addrs < fuel)%nat ->
  exists s1, writes_at addrs s = Some (Ret s1) /\
    (forall pg, writable (gu_os s1) pg = bool_decide (pg ∈ page <$> addrs) || writable (gu_os s) pg) /\
    (let s1' := mk_guard 1 (gu_wpages s1) (gu_os s1) in writes_at addrs s1' = Some (Ret s1')) /\
    exists s2, reprotect fuel (mk_guard (-1) (gu_wpages s1) (gu_os s1)) = Some (Ret s2) /\ log_rel (gu_wpages s2) [] /\ poped (gu_wpages s2) = 0%nat /\
      (forall i a, addrs !! i = Some a -> writable (gu_os s2) (page a) = negb (i <? (length addrs + 1) / 2)%nat) /\
      (forall pg, pg ∉ page <$> addrs -> writable (gu_os s2) pg = writable (gu_os s) pg).
Proof using All.
  intros Hp Hlog Hpo Ha Hnd Hfuel. destruct (writes_fault addrs s [] Hp Hlog Ha Hnd) as (s1 & E1 & Hp1 & Hl1 & Hpo1 & Hw1). cbn [app] in Hl1. exists s1. split; [exact E1|]. split; [exact Hw1|]. split.
  { apply writes_quiet, Forall_forall. intros a Hin. cbn. rewrite Hw1. rewrite bool_decide_eq_true_2 by (by apply list_elem_of_fmap_2). done. }
  set (s0 := mk_guard (-1) (gu_wpages s1) (gu_os s1)). pose proof (Nat.div_mod (length addrs + 1) 2 ltac:(lia)) as Hdm. pose proof (Nat.mod_upper_bound (length addrs + 1) 2 ltac:(lia)).
  destruct (reprotect_loop_ok (noted <$> addrs)) with (fuel := fuel) (s := s0) as (s2 & E2 & Hp2 & Hl2 & Hw2).
  - apply Forall_fmap. eapply Forall_impl; [exact Ha|]. intros a [Hr _]. by split.
  - exact Hl1.
  - cbn [s0 gu_wpages]. rewrite Hpo1, Hpo. lia.
  - cbn [s0 gu_wpages]. rewrite Hpo1, Hpo, length_fmap. lia.
  - cbn [s0 gu_wpages] in E2. rewrite Hpo1, Hpo in E2. change (Z.of_nat 0) with 0 in E2. unfold reprotect. rewrite E2. cbn [fbind]. eexists. split; [done|]. split; [by apply abuf_clean_rel; destruct Hl2|]. split; [done|]. cbn [gu_os].
    assert (Hcov : forall pg, Exists (fun w => covers (w_addr w) (w_val w) pg) (drop (poped (gu_wpages s0)) (take ((length (noted <$> addrs) + 1) / 2) (noted <$> addrs))) <->
      exists j a, addrs !! j = Some a /\ (j < (length addrs + 1) / 2)%nat /\ pg = page a).
    { intros pg. cbn [s0 gu_wpages]. rewrite Hpo1, Hpo, drop_0, length_fmap, <- fmap_take, Exists_fmap, Exists_exists. split.
      - intros (a & Hin & Hc). apply list_elem_of_lookup in Hin as [j Hj]. apply lookup_take_Some in Hj as [Hj Hlt]. cbn in Hc. apply covers_byte in Hc. eauto.
      - intros (j & a & Hj & Hlt & ->). exists a. split; [|by apply covers_byte]. apply list_elem_of_lookup. exists j. by rewrite lookup_take_lt. }
    split.
    + intros i a Hi. rewrite Hw2. destruct (Nat.ltb_spec i ((length addrs + 1) / 2)) as [Hlt|Hge].
      * rewrite decide_True by (apply Hcov; eauto). done.
      * rewrite decide_False.
        -- cbn [s0 gu_os]. rewrite Hw1, bool_decide_eq_true_2; [done|]. apply list_elem_of_fmap_2, list_elem_of_lookup. eauto.
        -- rewrite Hcov. intros (j & b & Hj & Hjlt & Epg). assert (j = i); [|lia]. apply (NoDup_lookup _ _ _ (page a) Hnd); rewrite list_lookup_fmap, ?Hj, ?Hi; cbn; congruence.
    + intros pg Hni. rewrite Hw2, decide_False.
      * cbn [s0 gu_os]. by rewrite Hw1, bool_decide_eq_false_2.
      * rewrite Hcov. intros (j & a & Hj & _ & ->). apply Hni, list_elem_of_fmap_2, list_elem_of_lookup. eauto.
Qed.
End Protect.

(** An operating system that keeps the set of writable pages. *)
Definition demo_mprotect (a size p : Z) (k : gset Z) : Z * gset Z :=
  let pages := list_to_set (seqZ (page a) (page (a + size - 1) - page a + 1)) in
  (0, if Z.testbit p 1 then k ∪ pages else k ∖ pages).
Definition demo_writable (k : gset Z) (pg : Z) : bool := bool_decide (pg ∈ k).

(** Three pages are written, the last one stays writable. *)
Lemma commit_protects_half_witness : let B := debug_build 2 in
  exists s1 s2, writes_at demo_mprotect demo_writable [4096; 8200; 20480] (mk_guard 0 (abuf_init 100) ∅) = Some (Ret s1) /\
    reprotect demo_mprotect 10 (mk_guard (-1) (gu_wpages s1) (gu_os s1)) = Some (Ret s2) /\
    demo_writable (gu_os s2) 1 = false /\ demo_writable (gu_os s2) 2 = false /\ demo_writable (gu_os s2) 5 = true.
Proof.
  intros B.
  assert (Hspec : forall a size p k, 0 <= a -> a mod 4096 = 0 -> 0 < size -> a + size <= 2^64 -> (forall pg, covers a size pg -> True) ->
    let '(r, k') := demo_mprotect a size p k in r = 0 /\ forall pg, demo_writable k' pg = if decide (covers a size pg) then Z.testbit p 1 else demo_writable k pg).
  { intros a size p k _ _ _ _ _. unfold demo_mprotect, demo_writable. split; [done|]. intros pg. assert (Hin : pg ∈ (list_to_set (seqZ (page a) (page (a + size - 1) - page a + 1)) : gset Z) <-> covers a size pg).
    { rewrite elem_of_list_to_set, elem_of_seqZ. unfold covers. lia. }
    destruct (Z.testbit p 1), (decide (covers a size pg)) as [Hc|Hc]; rewrite <- Hin in Hc; apply eq_iff_eq_true; rewrite ?bool_decide_eq_true; set_solver. }
  destruct (commit_protects_half (H:=B) demo_mprotect demo_writable (fun _ => True) Hspec (mk_guard 0 (abuf_init 100) ∅) [4096; 8200; 20480] 10) as (s1 & E1 & _ & _ & s2 & E2 & _ & _ & Hw & _).
  - done.
  - apply abuf_init_rel. lia.
  - done.
  - repeat constructor; cbn; lia.
  - change (page <$> [4096; 8200; 20480]) with [1; 2; 5]. repeat constructor; set_solver.
  - cbn. lia.
  - exists s1, s2. split; [exact E1|]. split; [exact E2|]. split; [exact (Hw 0%nat _ eq_refl)|]. split; [exact (Hw 1%nat _ eq_refl)|exact (Hw 2%nat _ eq_refl)].
Defined.
