(* ===== verification/Cfc.v ===== *)
(** * Control-flow checking (src/cfc.c, src/cfc.h) and the stash (src/stash.c)

    Two small components the transaction driver uses: the gate flags of each
    execution of the handler, and the growing array that keeps the output
    buffers of shifted contexts. *)

From S2P Require Export Prelude.

(** ** cfc *)

Inductive cfc_flag := SET | RESET.

#[global] Instance cfc_flag_eq_dec : EqDecision cfc_flag.
Proof. solve_decision. Defined.

Record cfc := mk_cfc { Scf : cfc_flag; Rcf : cfc_flag; LScf : cfc_flag; LRcf : cfc_flag }.

#[global] Instance cfc_eq_dec : EqDecision cfc.
Proof. solve_decision. Defined.

Definition cfc_reset (c : cfc) : cfc := mk_cfc RESET RESET RESET RESET.

(** at-least-once gate *)
Definition cfc_alog (c : cfc) : cfc := mk_cfc (Scf c) (Rcf c) SET SET.

(** at-most-once gate *)
Definition cfc_amog (c : cfc) : bool * cfc :=
  if bool_decide (Scf c <> Rcf c) || bool_decide (Scf c <> RESET) then (false, c)
  else (true, mk_cfc SET SET (LScf c) (LRcf c)).

(** at-least-once check *)
Definition cfc_check (c : cfc) : bool :=
  if bool_decide (LScf c <> LRcf c) || bool_decide (LScf c <> SET) then false else true.

(** The gates as a machine: one step per call, the outcome of [cfc_amog] being
    observable. *)
Inductive cfc_op := OpReset | OpAlog | OpAmog (r : bool).

Inductive cfc_step : cfc -> cfc_op -> cfc -> Prop :=
  | step_reset c : cfc_step c OpReset (cfc_reset c)
  | step_alog c : cfc_step c OpAlog (cfc_alog c)
  | step_amog c r c' : cfc_amog c = (r, c') -> cfc_step c (OpAmog r) c'.

Inductive cfc_steps : cfc -> list cfc_op -> cfc -> Prop :=
  | steps_nil c : cfc_steps c [] c
  | steps_cons c o c' os c'' : cfc_step c o c' -> cfc_steps c' os c'' -> cfc_steps c (o :: os) c''.

#[global] Instance cfc_op_eq_dec : EqDecision cfc_op.
Proof. solve_decision. Defined.

(** How often the at-most-once gate let the execution through. *)
Definition passes (os : list cfc_op) : nat :=
  length (filter (fun o => o = OpAmog true) os).

Lemma cfc_amog_pass c c' : cfc_amog c = (true, c') -> Scf c = RESET /\ Scf c' = SET.
Proof.
  destruct c as [[] [] ? ?]; vm_compute; intros E; by simplify_eq.
Qed.

(** Once through the gate, the flag stays set until the next reset. *)
Lemma cfc_closed c os c' : cfc_steps c os c' -> Scf c = SET -> OpReset ∉ os ->
  passes os = 0%nat.
Proof.
  induction 1 as [|c o c1 os c2 Hstep _ IH]; intros Hset Hno; [done|].
  apply not_elem_of_cons in Hno as [Hne Hno]. unfold passes. rewrite filter_cons.
  inversion Hstep; subst; [done| |].
  - rewrite decide_False by done. by apply IH.
  - match goal with X : cfc_amog _ = _ |- _ => rename X into Hg end.
    destruct r; [apply cfc_amog_pass in Hg as [Hg _]; congruence|].
    rewrite decide_False by done. apply IH; [|done].
    unfold cfc_amog in Hg. case_match; by simplify_eq.
Qed.

(** The at-most-once gate opens at most once between two resets, whatever
    sequence of gate calls an execution makes. *)
Theorem cfc_at_most_once c os c' : cfc_steps c os c' -> OpReset ∉ os -> (passes os <= 1)%nat.
Proof.
  induction 1 as [|c o c1 os c2 Hstep Hsteps IH]; intros Hno; [cbn; lia|].
  apply not_elem_of_cons in Hno as [_ Hno]. unfold passes. rewrite filter_cons.
  case_decide as Ho; [|by apply IH].
  subst o. inversion Hstep; subst. cbn. fold (passes os).
  rewrite (cfc_closed _ _ _ Hsteps); [lia| |done]. by eapply cfc_amog_pass.
Qed.

(** ** stash *)

Definition STASH_INITIAL_SIZE : nat := 128.

Record stash (A : Type) := mk_stash { st_array : list A; st_c : nat; st_max : nat }.
Arguments mk_stash {A}.
Arguments st_array {A}.
Arguments st_c {A}.
Arguments st_max {A}.

Section Stash.
Context `{Build} {A : Type} (null : A).

Definition stash_init : stash A :=
  mk_stash (replicate STASH_INITIAL_SIZE null) 0 STASH_INITIAL_SIZE.

(** realloc to twice the size; the new slots are indeterminate (here NULL). *)
Definition stash_extend (s : stash A) : stash A :=
  mk_stash (st_array s ++ replicate (st_max s) null) (st_c s) (st_max s * 2).

Definition stash_add (s : stash A) (item : A) : outcome (nat * stash A) :=
  let s := if (st_c s =? st_max s)%nat then stash_extend s else s in
  arr ← arr_set (st_array s) (st_c s) item;
  Ret (st_c s, mk_stash arr (st_c s + 1)%nat (st_max s)).

Definition stash_get (s : stash A) (handle : nat) : outcome A :=
  c_assert (handle <? st_c s)%nat;;
  arr_get (st_array s) handle.

Definition stash_size (s : stash A) : nat := st_c s.

(** The allocation has [st_max] slots, [st_c] of them used. *)
Record stash_wf (s : stash A) : Prop := {
  swf_len : length (st_array s) = st_max s;
  swf_c : (st_c s <= st_max s)%nat;
  swf_pos : (0 < st_max s)%nat;
}.

Lemma stash_init_wf : stash_wf stash_init.
Proof. split; cbn -[replicate]; unfold STASH_INITIAL_SIZE; rewrite ?length_replicate; lia. Qed.

Lemma stash_get_lt s h : (h < st_c s)%nat -> stash_get s h = arr_get (st_array s) h.
Proof.
  intros Hh. unfold stash_get. by rewrite (proj2 (Nat.ltb_lt _ _) Hh), c_assert_true.
Qed.

(** Insert, then look up: the handle returned reads the item back, earlier
    handles are unaffected (also when the array had to grow), and the number of
    items grows by one. *)
Theorem stash_add_spec s item : stash_wf s ->
  exists s', stash_add s item = Ret (st_c s, s') /\ stash_wf s' /\
    stash_size s' = S (stash_size s) /\ stash_get s' (st_c s) = Ret item /\
    forall h, (h < st_c s)%nat -> stash_get s' h = stash_get s h.
Proof.
  intros [Hl Hc Hp]. unfold stash_add, stash_size.
  set (s1 := if (st_c s =? st_max s)%nat then stash_extend s else s).
  assert (Hs1 : st_c s1 = st_c s /\ length (st_array s1) = st_max s1 /\ (st_c s < st_max s1)%nat /\
                forall h, (h < st_c s)%nat -> st_array s1 !! h = st_array s !! h).
  { unfold s1. destruct (Nat.eqb_spec (st_c s) (st_max s)) as [E|E]; cbn; [|split_and!; auto; lia].
    rewrite length_app, length_replicate. split_and!; [done|lia|lia|].
    intros h Hh. apply lookup_app_l. lia. }
  destruct Hs1 as (Hc1 & Hl1 & Hlt & Hold). rewrite Hc1.
  unfold arr_set. rewrite decide_True by lia. cbn.
  eexists. split; [reflexivity|]. cbn. split_and!.
  - split; cbn; rewrite ?length_insert; lia.
  - lia.
  - rewrite stash_get_lt by (cbn; lia). unfold arr_get. cbn [st_array].
    by rewrite list_lookup_insert_eq by lia.
  - intros h Hh. rewrite !stash_get_lt by (cbn; lia). unfold arr_get. cbn [st_array].
    by rewrite list_lookup_insert_ne, Hold by lia.
Qed.

End Stash.

(** ** Witnesses *)

Lemma cfc_at_most_once_witness :
  exists c', cfc_steps (mk_cfc RESET RESET RESET RESET) [OpAlog; OpAmog true; OpAmog false] c' /\
    (passes [OpAlog; OpAmog true; OpAmog false] <= 1)%nat.
Proof.
  assert (Hs : cfc_steps (mk_cfc RESET RESET RESET RESET) [OpAlog; OpAmog true; OpAmog false]
                         (mk_cfc SET SET SET SET)).
  { eapply steps_cons; [apply step_alog|]. eapply steps_cons; [apply step_amog; reflexivity|].
    eapply steps_cons; [apply step_amog; reflexivity|]. apply steps_nil. }
  exists (mk_cfc SET SET SET SET). split; [exact Hs|].
  apply (cfc_at_most_once _ _ _ Hs). rewrite !not_elem_of_cons. split_and!; try discriminate. apply not_elem_of_nil.
Defined.

Lemma stash_add_spec_witness :
  let _ := debug_build 2 in
  exists s', stash_add 0 (stash_init 0) 42 = Ret (0%nat, s') /\ stash_get s' 0 = Ret 42.
Proof.
  intros B. destruct (@stash_add_spec B Z 0 (stash_init 0) 42 (stash_init_wf 0)) as (s' & E & _ & _ & Hg & _).
  exists s'. split; [exact E|exact Hg].
Defined.
