(* ===== verification/Alloc.v ===== *)
(** * The allocator interface

    src/talloc.c and src/tbin.c call [malloc]/[free] of the C library, or
    [heap_malloc]/[heap_free] of src/heap.c when a heap was configured.  What
    they rely on is stated once, as a class; the clients' theorems are proved
    against it, and the C library's allocator is an instance. *)

From stdpp Require Export gmap.
From S2P Require Export Prelude.

Class Allocator (S : Type) := {
  al_malloc : S -> Z -> outcome (Z * S);
  al_free : S -> Z -> outcome S;
  al_live : S -> gset Z;           (* addresses of the blocks in use *)
}.

Class AllocatorLaws (S : Type) `{Allocator S} := {
  malloc_total : forall s n, exists p s', al_malloc s n = Ret (p, s');
  malloc_fresh : forall s n p s', al_malloc s n = Ret (p, s') ->
    p <> 0 /\ (p ∉ al_live s) /\ al_live s' = {[p]} ∪ al_live s;
  free_live : forall s p, p ∈ al_live s ->
    exists s', al_free s p = Ret s' /\ al_live s' = al_live s ∖ {[p]};
  free_dead : forall s p, p <> 0 -> p ∉ al_live s -> al_free s p = Stop InvalidFree;
}.

(** Freeing a list of blocks in order. *)
Fixpoint free_all {S} `{Allocator S} (ps : list Z) (s : S) : outcome S :=
  match ps with
  | [] => Ret s
  | p :: ps' => s' ← al_free s p; free_all ps' s'
  end.

Lemma free_all_live {S} `{AllocatorLaws S} ps (s : S) :
  NoDup ps -> (forall p, p ∈ ps -> p ∈ al_live s) ->
  exists s', free_all ps s = Ret s' /\ al_live s' = al_live s ∖ list_to_set ps.
Proof.
  revert s. induction ps as [|p ps IH]; intros s Hnd Hin; cbn.
  { exists s. split; [done|]. set_solver. }
  apply NoDup_cons in Hnd as [Hp Hnd].
  destruct (free_live s p) as (s1 & -> & Hl1); [apply Hin; by left|]. cbn.
  destruct (IH s1 Hnd) as (s2 & -> & Hl2).
  { intros q Hq. rewrite Hl1. specialize (Hin q ltac:(by right)). set_solver. }
  exists s2. split; [done|]. rewrite Hl2, Hl1. set_solver.
Qed.

(** A pointer freed twice stops the process. *)
Lemma free_all_dup {S} `{AllocatorLaws S} ps (s s' : S) :
  free_all ps s = Ret s' -> (forall p, p ∈ ps -> p <> 0) -> NoDup ps /\ (forall p, p ∈ ps -> p ∈ al_live s).
Proof.
  revert s. induction ps as [|p ps IH]; intros s Hrun Hnz; cbn in Hrun.
  { split; [constructor|]. set_solver. }
  inv_outcome.
  match goal with X : al_free s p = Ret ?x |- _ => rename X into Hf, x into s1 end.
  destruct (decide (p ∈ al_live s)) as [Hp|Hp].
  2: { rewrite free_dead in Hf; [discriminate|apply Hnz; by left|done]. }
  destruct (free_live s p Hp) as (s1' & Hf' & Hl). rewrite Hf in Hf'. injection Hf' as <-.
  match goal with X : free_all ps s1 = Ret s' |- _ =>
    apply IH in X as [Hnd Hin]; [|set_solver] end.
  split.
  - constructor; [|done]. intros Hps. specialize (Hin p Hps). set_solver.
  - intros q [->|Hq]%elem_of_cons; [done|]. specialize (Hin q Hq). set_solver.
Qed.

(** ** The C library's allocator

    The C standard does not fix where a block is placed.  The instance places it
    above every live block, 16-byte aligned, and remembers the size of every
    live block; [malloc] does not fail (the sources only [assert] that) and
    [free(NULL)] has no effect. *)

Record libc := mk_libc { blocks : gmap Z Z }.

(** First address above every live block. *)
Definition top (b : gmap Z Z) : Z :=
  map_fold (fun a n acc => Z.max acc (a + Z.max n 1)) 0 b.

Definition libc_malloc (s : libc) (n : Z) : outcome (Z * libc) :=
  let p := 16 * (top (blocks s) / 16 + 1) in
  Ret (p, mk_libc (<[p := n]> (blocks s))).

Definition libc_free (s : libc) (p : Z) : outcome libc :=
  if decide (p = 0) then Ret s
  else match blocks s !! p with
       | Some _ => Ret (mk_libc (delete p (blocks s)))
       | None => Stop InvalidFree
       end.

#[global] Instance libc_allocator : Allocator libc := {|
  al_malloc := libc_malloc; al_free := libc_free;
  al_live s := dom (blocks s) ∖ {[0]};
|}.

Lemma top_bound b : 0 <= top b /\ forall a n, b !! a = Some n -> a < top b.
Proof.
  unfold top. apply (map_fold_weak_ind (fun r m =>
    0 <= r /\ forall a n, m !! a = Some n -> a < r)).
  - split; [lia|]. intros a n. by rewrite lookup_empty.
  - intros a n m r Hm [Hr IH]. split; [lia|]. intros a' n' Ha'.
    rewrite lookup_insert in Ha'. case_decide; [lia|]. specialize (IH a' n' Ha'). lia.
Qed.

#[global] Instance libc_laws : AllocatorLaws libc.
Proof.
  split.
  - intros s n. cbn. unfold libc_malloc. eauto.
  - intros s n p s' E. cbn in *. injection E as <- <-.
    destruct (top_bound (blocks s)) as [H0 Ht].
    pose proof (Z.mod_pos_bound (top (blocks s)) 16 ltac:(lia)).
    pose proof (Z.div_mod (top (blocks s)) 16 ltac:(lia)).
    split_and!; [lia| |].
    + intros [Hp _]%elem_of_difference. apply elem_of_dom in Hp as [v Hv].
      specialize (Ht _ _ Hv). lia.
    + cbn [blocks]. rewrite dom_insert_L. apply set_eq. intros x.
      rewrite !elem_of_difference, !elem_of_union, !elem_of_singleton, elem_of_difference,
        elem_of_singleton. intuition lia.
  - intros s p Hp. cbn in Hp. apply elem_of_difference in Hp as [Hp Hp0].
    rewrite elem_of_singleton in Hp0.
    apply elem_of_dom in Hp as [v Hv]. cbn. unfold libc_free.
    rewrite decide_False, Hv by done. eexists. split; [done|]. cbn [blocks].
    rewrite dom_delete_L. set_solver.
  - intros s p Hp0 Hp. cbn. unfold libc_free. rewrite decide_False by done.
    destruct (blocks s !! p) as [v|] eqn:E; [|done]. exfalso. apply Hp.
    cbn. apply elem_of_difference. rewrite elem_of_singleton. split; [|done].
    apply elem_of_dom. eauto.
Qed.

(** ** Sizes

    What a client that writes into its blocks relies on: a live block keeps its size,
    and a new block shares no byte with a live one. *)

Class AllocatorSizes (S : Type) `{Allocator S} := {
  al_size : S -> Z -> Z;
  malloc_size : forall s n p s', al_malloc s n = Ret (p, s') -> al_size s' p = n /\
    forall q, q ∈ al_live s -> al_size s' q = al_size s q /\ (p + n <= q \/ q + al_size s q <= p);
  free_size : forall s p s', al_free s p = Ret s' -> forall q, q ∈ al_live s' -> q ∈ al_live s /\ al_size s' q = al_size s q;
}.

Lemma top_above b a n : b !! a = Some n -> a + Z.max n 1 <= top b.
Proof.
  revert a n. unfold top. apply (map_fold_weak_ind (fun r m => forall a n, m !! a = Some n -> a + Z.max n 1 <= r)).
  - intros a n. by rewrite lookup_empty.
  - intros a n m r Hm IH a' n' Ha'. rewrite lookup_insert in Ha'. case_decide; [simplify_eq; lia|]. specialize (IH a' n' Ha'). lia.
Qed.

#[global] Instance libc_sizes : AllocatorSizes libc.
Proof.
  refine {| al_size s q := default 0 (blocks s !! q) |}.
  - intros s n p s' E. cbn in E. injection E as <- <-. cbn [blocks]. split; [by rewrite lookup_insert_eq|].
    intros q Hq. cbn in Hq. apply elem_of_difference in Hq as [[k Hk]%elem_of_dom _]. pose proof (top_above _ _ _ Hk).
    pose proof (Z.mod_pos_bound (top (blocks s)) 16 ltac:(lia)). pose proof (Z.div_mod (top (blocks s)) 16 ltac:(lia)).
    rewrite lookup_insert_ne by lia. rewrite Hk. cbn. split; [done|]. lia.
  - intros s p s' E q Hq. cbn in E. unfold libc_free in E. case_decide; [by injection E as <-|]. case_match; [|discriminate]. injection E as <-.
    cbn in Hq |- *. apply elem_of_difference in Hq as [[k Hk]%elem_of_dom Hq]. apply lookup_delete_Some in Hk as [Hne Hk]. rewrite lookup_delete_ne by done.
    split; [|done]. apply elem_of_difference. split; [|done]. apply elem_of_dom. eauto.
Defined.
