(* ===== verification/Heap.v ===== *)
(** * The private heap (src/heap.c)

    A preallocated region cut into blocks whose sizes are powers of two.  A
    block starts with a header of 16 bytes in the region itself, its size and
    the link of the free list it is on; freed blocks are kept in one FIFO list
    per power of two.  The model keeps headers and links in the byte memory, so
    that a client that writes outside its block corrupts them as in the code.
    [heap_repr] relates the memory to the abstract state, a finite map of blocks
    and the contents of the free lists. *)

From stdpp Require Import functions.
From S2P Require Export Mem Alloc.

Definition ALLOC_MAX_SIZE : Z := 1024 * 1024.
(** [sizeof(allocation_t)]: the fields [size] and [next]. *)
Definition sizeof_allocation : Z := 16.

(** [heap_t]; [h_data] is the address of [heap->data]. *)
Record heap := mk_heap {
  h_size : Z;
  h_cursor : Z;
  h_free_list : list Z;
  h_data : Z;
}.

(** ** Integer helpers *)

Definition upper_power_of_two (v : Z) : Z :=
  let v := u64 (v - 1) in
  let v := Z.lor v (Z.shiftr v 1) in
  let v := Z.lor v (Z.shiftr v 2) in
  let v := Z.lor v (Z.shiftr v 4) in
  let v := Z.lor v (Z.shiftr v 8) in
  let v := Z.lor v (Z.shiftr v 16) in
  let v := Z.lor v (Z.shiftr v 32) in
  u64 (v + 1).

(** [while (x >>= 1) ++r;]; 64 rounds empty any 64-bit value. *)
Fixpoint log2_loop (fuel : nat) (x r : Z) : Z :=
  match fuel with
  | O => r
  | S fuel' => let x := Z.shiftr x 1 in if x =? 0 then r else log2_loop fuel' x (r + 1)
  end.
Definition int_log2 (x : Z) : Z := log2_loop 64 x 0.

(** ** Memory helpers *)

Fixpoint bzero (n : nat) (m : mem) (a : Z) : mem :=
  match n with O => m | S n' => bzero n' (store 1 m a 0) (a + 1) end.

Definition a_size (m : mem) (a : Z) : Z := load 8 m a.
Definition a_next (m : mem) (a : Z) : Z := load 8 m (a + 8).
Definition set_size (m : mem) (a v : Z) : mem := store 8 m a v.
Definition set_next (m : mem) (a v : Z) : mem := store 8 m (a + 8) v.
Definition a_data (a : Z) : Z := a + sizeof_allocation.

Section Heap.
Context `{Build} {A : Type} `{Allocator A}.
Implicit Types (h : heap) (m : mem) (s : A).

(** Number of free lists: [int_log2(upper_power_of_two(ALLOC_MAX_SIZE)) + 1]. *)
Definition NCLASS : Z := int_log2 (upper_power_of_two ALLOC_MAX_SIZE) + 1.

(** [heap_init(size)]; [data] is the address of the region the C library
    returned ([posix_memalign], which clears nothing: [bzero] does); the exits
    on a failed allocation are not modelled. *)
Definition heap_init (size data : Z) (m : mem) : outcome (heap * mem) :=
  (if 0 <? size then c_assert (ALLOC_MAX_SIZE <? size) else Ret tt);;
  let m := if 0 <? size then bzero (Z.to_nat size) m data else m in
  Ret (mk_heap size 0 (replicate (Z.to_nat NCLASS) 0) data, m).

Definition heap_in h (ptr : Z) : bool :=
  if h_size h =? 0 then true
  else (h_data h <=? ptr) && (ptr <? h_data h + h_size h).

(** Returns [NULL] as 0.  [s] is the C library's allocator, used when nothing
    was preallocated. *)
Definition heap_malloc h m s (size : Z) : outcome (Z * heap * mem * A) :=
  c_assert (size <=? ALLOC_MAX_SIZE);;
  let tsize := u64 (size + sizeof_allocation) in
  let pow_2_size := upper_power_of_two tsize in
  let log2 := int_log2 pow_2_size in
  a ← arr_getZ (h_free_list h) log2;
  if negb (a =? 0) then
    fl ← arr_setZ (h_free_list h) log2 (a_next m a);
    Ret (a_data a, mk_heap (h_size h) (h_cursor h) fl (h_data h), set_next m a 0, s)
  else if 0 <? h_size h then
    c_assert (u64 (h_cursor h + pow_2_size) <? h_size h);;
    if h_size h <=? u64 (h_cursor h + pow_2_size) then Ret (0, h, m, s)
    else
      let a := h_data h + h_cursor h in
      let h' := mk_heap (h_size h) (u64 (h_cursor h + pow_2_size)) (h_free_list h) (h_data h) in
      let m := bzero (Z.to_nat size) m (a_data a) in
      Ret (a_data a, h', set_next (set_size m a pow_2_size) a 0, s)
  else
    '(a, s') ← al_malloc s tsize;
    c_assert (negb (a =? 0));;
    Ret (a_data a, h, set_next (set_size m a pow_2_size) a 0, s').

(** [while (tail->next != NULL) tail = tail->next;] *)
Fixpoint list_tail (fuel : nat) (m : mem) (tail : Z) : option Z :=
  match fuel with
  | O => None
  | S fuel' => if a_next m tail =? 0 then Some tail else list_tail fuel' m (a_next m tail)
  end.

(** [None]: the walk along the free list did not end within the fuel. *)
Definition heap_free (fuel : nat) h m (ptr : Z) : option (outcome (heap * mem)) :=
  let checks :=
    (if 0 <? h_size h then c_assert (heap_in h ptr) else Ret tt);;
    let a := ptr - sizeof_allocation in
    c_assert (a_size m a <=? ALLOC_MAX_SIZE);;
    let log2 := int_log2 (a_size m a) in
    tail ← arr_getZ (h_free_list h) log2; Ret (a, log2, tail) in
  match checks with
  | Stop e => Some (Stop e)
  | Ret (a, log2, tail) =>
      if tail =? 0 then
        Some (fl ← arr_setZ (h_free_list h) log2 a;
              Ret (mk_heap (h_size h) (h_cursor h) fl (h_data h), m))
      else match list_tail fuel m tail with
           | None => None
           | Some tail => Some (Ret (h, set_next m tail a))
           end
  end.

Definition heap_rel h (ptr : Z) : outcome Z :=
  c_assert (0 <? h_size h);; Ret (u64 (ptr - h_data h)).

Definition heap_get h (rel : Z) : outcome Z :=
  c_assert (0 <? h_size h);; Ret (u64 (h_data h + rel)).

End Heap.

(** ** The integer helpers are exact *)

(** [v] has its highest bit at [n] and the [k] bits from there down set. *)
Definition smeared (n k v : Z) : Prop :=
  0 <= v /\ (forall i, n < i -> Z.testbit v i = false) /\
  forall i, 0 <= i -> n - k < i <= n -> Z.testbit v i = true.

Lemma smear_step n k v : 0 < k -> smeared n k v -> smeared n (2 * k) (Z.lor v (Z.shiftr v k)).
Proof.
  intros Hk (Hv & Hhi & Hlo). split_and!.
  - apply Z.lor_nonneg. split; [done|]. by apply Z.shiftr_nonneg.
  - intros i Hi. destruct (Z.neg_nonneg_cases i); [by rewrite Z.testbit_neg_r|].
    rewrite Z.lor_spec, Z.shiftr_spec, !Hhi by lia. done.
  - intros i Hi0 Hi. rewrite Z.lor_spec, Z.shiftr_spec by lia.
    destruct (decide (n - k < i)); [by rewrite Hlo by lia|]. rewrite (Hlo (i + k)) by lia. apply orb_true_r.
Qed.

Lemma smeared_full n k v : 0 <= n -> n < k -> smeared n k v -> v = 2^(n + 1) - 1.
Proof.
  intros Hn Hk (Hv & Hhi & Hlo). replace (2 ^ (n + 1) - 1) with (Z.ones (n + 1)) by (rewrite Z.ones_equiv; lia). apply Z.bits_inj'. intros i Hi.
  destruct (decide (i <= n)).
  - rewrite Hlo, Z.ones_spec_low by lia. done.
  - rewrite Hhi, Z.ones_spec_high by lia. done.
Qed.

Lemma smeared_log2 v : 0 < v -> smeared (Z.log2 v) 1 v.
Proof.
  intros Hv. split_and!; [lia|intros i Hi; by apply Z.bits_above_log2; lia|].
  intros i _ Hi. replace i with (Z.log2 v) by lia. by apply Z.bit_log2.
Qed.

Lemma upper_power_of_two_spec v : 1 <= v <= 2^63 -> upper_power_of_two v = 2 ^ Z.log2_up v.
Proof.
  intros Hv. unfold upper_power_of_two. rewrite (u64_small (v - 1)) by lia.
  destruct (decide (v = 1)) as [->|Hne]; [done|].
  assert (Hlt : Z.log2 (v - 1) < 63) by (apply Z.log2_lt_pow2; lia).
  pose proof (Z.log2_nonneg (v - 1)).
  pose proof (smeared_log2 (v - 1) ltac:(lia)) as Hs.
  apply smear_step, (smear_step _ 2), (smear_step _ 4), (smear_step _ 8), (smear_step _ 16), (smear_step _ 32) in Hs;
    [|lia..].
  apply smeared_full in Hs; [|lia|lia]. cbv zeta. rewrite Hs.
  replace (2 ^ (Z.log2 (v - 1) + 1) - 1 + 1) with (2 ^ (Z.log2 (v - 1) + 1)) by lia.
  rewrite u64_small.
  - f_equal. unfold Z.log2_up. rewrite (proj2 (Z.compare_lt_iff 1 v)) by lia. rewrite <- Z.sub_1_r. lia.
  - split; [apply Z.pow_nonneg; lia|]. apply Z.pow_lt_mono_r; lia.
Qed.

Lemma log2_loop_spec fuel : forall x r, 0 <= x < 2 ^ Z.of_nat fuel -> log2_loop fuel x r = r + Z.log2 x.
Proof.
  induction fuel as [|fuel IH]; intros x r Hx; cbn [log2_loop].
  { replace x with 0 by lia. cbn. lia. }
  rewrite Nat2Z.inj_succ, Z.pow_succ_r in Hx by lia.
  pose proof (Z.shiftr_div_pow2 x 1 ltac:(lia)) as Hd. change (2^1) with 2 in Hd.
  pose proof (Z.div_mod x 2 ltac:(lia)). pose proof (Z.mod_pos_bound x 2 ltac:(lia)).
  destruct (Z.eqb_spec (Z.shiftr x 1) 0) as [E|E].
  - assert (x = 0 \/ x = 1) as [->| ->] by lia; cbn; lia.
  - rewrite IH by lia. rewrite Z.log2_shiftr by lia. pose proof (Z.log2_pos x ltac:(lia)). lia.
Qed.

Lemma int_log2_spec x : 0 <= x < 2^64 -> int_log2 x = Z.log2 x.
Proof. intros Hx. unfold int_log2. rewrite log2_loop_spec by (cbn; lia). lia. Qed.

Lemma NCLASS_21 : NCLASS = 21.
Proof. reflexivity. Qed.

(** ** Abstract view *)

(** The list of headers linked from [p]. *)
Fixpoint chain (m : mem) (p : Z) (l : list Z) : Prop :=
  match l with
  | [] => p = 0
  | a :: l' => p = a /\ chain m (a_next m a) l'
  end.

Definition is_class (k : Z) : Prop := 0 <= k < 21.

(** [blocks] maps the header of every block cut so far to the exponent of its
    size, [fl k] lists the free blocks of size [2^k] in the order of reuse; a
    block on no list is in use. *)
Record heap_repr (h : heap) (m : mem) (blocks : gmap Z Z) (fl : Z -> list Z) : Prop := {
  hr_lists : length (h_free_list h) = 21%nat;
  hr_chain : forall k, is_class k -> chain m (nth (Z.to_nat k) (h_free_list h) 0) (fl k);
  hr_fl : forall k a, is_class k -> a ∈ fl k -> blocks !! a = Some k;
  hr_nodup : forall k, is_class k -> NoDup (fl k);
  hr_class : forall a k, blocks !! a = Some k -> 4 <= k /\ is_class k;
  hr_block : forall a k, blocks !! a = Some k ->
    h_data h <= a /\ a + 2^k <= h_data h + h_cursor h /\ a_size m a = 2^k;
  hr_live : forall a k, blocks !! a = Some k -> a ∉ fl k -> a_next m a = 0;
  hr_disj : forall a b k j, blocks !! a = Some k -> blocks !! b = Some j -> a <> b ->
    a + 2^k <= b \/ b + 2^j <= a;
  hr_bounds : 0 < h_data h /\ 0 <= h_cursor h < h_size h /\ h_data h + h_size h < 2^63;
}.

Definition in_use (blocks : gmap Z Z) (fl : Z -> list Z) (a k : Z) : Prop :=
  blocks !! a = Some k /\ a ∉ fl k.

(** The bytes a client of the block may use. *)
Definition in_payload (x : Z) (n : nat) (a k : Z) : Prop :=
  a_data a <= x /\ x + Z.of_nat n <= a + 2^k.

Lemma pow2_ge_16 k : 4 <= k -> 16 <= 2^k.
Proof. intros Hk. apply (Z.pow_le_mono_r 2 4 k); lia. Qed.

(** ** Frames *)

Lemma mget_bzero n : forall m a b, ~ in_range b a n -> mget (bzero n m a) b = mget m b.
Proof.
  unfold in_range. induction n as [|n IH]; intros m a b Hb; cbn [bzero]; [done|].
  rewrite IH by lia. apply mget_store_out. unfold in_range. lia.
Qed.

Lemma load_bzero n k m a b : disjoint_range a n b k -> load k (bzero n m a) b = load k m b.
Proof. intros Hd. apply load_ext. intros x Hx. apply mget_bzero. unfold disjoint_range, in_range in *. lia. Qed.

Lemma chain_frame m m' l : forall p, (forall a, a ∈ l -> a_next m' a = a_next m a) ->
  chain m p l -> chain m' p l.
Proof.
  induction l as [|b l IH]; intros p Hf Hc; [done|]. destruct Hc as [-> Hc]. split; [done|].
  rewrite Hf by (by left). apply IH; [|done]. intros a Ha. apply Hf. by right.
Qed.

(** Memory changes that leave every header alone keep the representation. *)
Lemma heap_repr_frame h m m' blocks fl : heap_repr h m blocks fl ->
  (forall a k, blocks !! a = Some k -> a_size m' a = a_size m a /\ a_next m' a = a_next m a) ->
  heap_repr h m' blocks fl.
Proof.
  intros [] Hf. split; try done.
  - intros k Hk. eapply chain_frame; [|by apply hr_chain0]. intros a Ha. apply (Hf a k). eauto.
  - intros a k Ha. destruct (hr_block0 a k Ha) as (? & ? & E). split_and!; [done|done|]. rewrite <- E. by eapply Hf.
  - intros a k Ha Hl. rewrite <- (hr_live0 a k Ha Hl). by eapply Hf.
Qed.

(** A range inside block [a] is disjoint from the header of another block. *)
Lemma other_header h m blocks fl a k b j x n : heap_repr h m blocks fl ->
  blocks !! a = Some k -> blocks !! b = Some j -> a <> b ->
  a <= x -> x + Z.of_nat n <= a + 2^k ->
  disjoint_range x n b 8 /\ disjoint_range x n (b + 8) 8.
Proof.
  intros Hr Ha Hb Hne Hx Hn. pose proof (hr_disj _ _ _ _ Hr a b k j Ha Hb Hne).
  pose proof (pow2_ge_16 j (proj1 (hr_class _ _ _ _ Hr b j Hb))). unfold disjoint_range. lia.
Qed.

(** Clients that stay inside their blocks never break the heap. *)
Lemma client_store h m blocks fl a k x n v : heap_repr h m blocks fl ->
  in_use blocks fl a k -> in_payload x n a k -> heap_repr h (store n m x v) blocks fl.
Proof.
  intros Hr [Ha _] [Hx Hn]. eapply heap_repr_frame; [done|]. intros b j Hb. unfold a_size, a_next, a_data, sizeof_allocation in *.
  destruct (decide (a = b)) as [->|Hne].
  - rewrite !load_store_disjoint by (unfold disjoint_range; lia). done.
  - destruct (other_header h m blocks fl a k b j x n) as [? ?]; try done; [lia|].
    rewrite !load_store_disjoint by done. done.
Qed.

Section HeapSpec.
Context `{Build} {A : Type} `{Allocator A}.
Implicit Types (h : heap) (m : mem) (s : A) (blocks : gmap Z Z) (fl : Z -> list Z).

(** The class of a request, and that the block is large enough. *)
Lemma request_class size : 0 <= size <= ALLOC_MAX_SIZE - sizeof_allocation ->
  let k := Z.log2_up (size + sizeof_allocation) in
  upper_power_of_two (u64 (size + sizeof_allocation)) = 2^k /\ int_log2 (2^k) = k /\
  4 <= k /\ is_class k /\ size + sizeof_allocation <= 2^k.
Proof.
  intros Hs k. unfold ALLOC_MAX_SIZE, sizeof_allocation, is_class in *.
  assert (Hk : 4 <= k <= 20).
  { split; [apply (Z.log2_up_le_mono 16 (size + 16)); lia|apply (Z.log2_up_le_mono (size + 16) (2^20)); lia]. }
  rewrite u64_small, upper_power_of_two_spec by lia. fold k. split_and!; try lia.
  - assert (2^k <= 2^20) by (apply Z.pow_le_mono_r; lia).
    rewrite int_log2_spec by (split; [apply Z.pow_nonneg|]; lia). apply Z.log2_pow2. lia.
  - apply Z.log2_up_spec. lia.
Qed.

Lemma free_list_get h m blocks fl k : heap_repr h m blocks fl -> is_class k ->
  arr_getZ (h_free_list h) k = Ret (nth (Z.to_nat k) (h_free_list h) 0).
Proof.
  intros Hr [Hk1 Hk2]. pose proof (hr_lists _ _ _ _ Hr). rewrite <- (Z2Nat.id k) at 1 by lia.
  rewrite arr_getZ_nat. apply arr_get_nth. lia.
Qed.

Lemma free_list_set h m blocks fl k v : heap_repr h m blocks fl -> is_class k ->
  arr_setZ (h_free_list h) k v = Ret (<[Z.to_nat k := v]> (h_free_list h)).
Proof.
  intros Hr [Hk1 Hk2]. pose proof (hr_lists _ _ _ _ Hr). rewrite <- (Z2Nat.id k) at 1 by lia.
  rewrite arr_setZ_nat. apply arr_set_lt. lia.
Qed.

Lemma free_list_nth h m blocks fl k j v : heap_repr h m blocks fl -> is_class k -> is_class j ->
  nth (Z.to_nat j) (<[Z.to_nat k := v]> (h_free_list h)) 0 =
  if decide (j = k) then v else nth (Z.to_nat j) (h_free_list h) 0.
Proof.
  intros Hr [Hk1 Hk2] [Hj1 Hj2]. pose proof (hr_lists _ _ _ _ Hr). case_decide as E.
  - subst j. apply nth_insert_eq. lia.
  - apply nth_insert_ne. lia.
Qed.

(** Setting the link of one block leaves the other headers alone. *)
Lemma set_next_frame h m blocks fl e k v : heap_repr h m blocks fl -> blocks !! e = Some k ->
  (forall b j, blocks !! b = Some j -> a_size (set_next m e v) b = a_size m b) /\
  (forall b j, blocks !! b = Some j -> b <> e -> a_next (set_next m e v) b = a_next m b).
Proof.
  intros Hr He. pose proof (pow2_ge_16 k (proj1 (hr_class _ _ _ _ Hr e k He))). unfold a_size, a_next, set_next.
  split; intros b j Hb; [destruct (decide (e = b)) as [->|Hne]|intros Hne].
  - by rewrite load_store_disjoint by (unfold disjoint_range; lia).
  - destruct (other_header h m blocks fl e k b j (e + 8) 8) as [? _]; try done; [lia|lia|].
    by rewrite load_store_disjoint by done.
  - destruct (other_header h m blocks fl e k b j (e + 8) 8) as [_ ?]; try done; [lia|lia|].
    by rewrite load_store_disjoint by done.
Qed.

(** Reuse: the oldest free block of the class. *)
Lemma heap_malloc_reuse h m s blocks fl size a l : heap_repr h m blocks fl ->
  0 <= size <= ALLOC_MAX_SIZE - sizeof_allocation ->
  let k := Z.log2_up (size + sizeof_allocation) in fl k = a :: l ->
  exists h' m', heap_malloc h m s size = Ret (a_data a, h', m', s) /\
    heap_repr h' m' blocks (<[k := l]> fl).
Proof.
  intros Hr Hs k Hfl. destruct (request_class size Hs) as (Hpow & Hlog & Hk4 & Hk & Hfit). fold k in Hpow, Hlog, Hk4, Hk, Hfit.
  unfold heap_malloc. rewrite (proj2 (Z.leb_le size ALLOC_MAX_SIZE)), c_assert_true by (unfold sizeof_allocation in *; lia).
  rewrite bind_Ret_l. cbv beta zeta. rewrite Hpow, Hlog, (free_list_get _ _ _ _ _ Hr Hk), bind_Ret_l. cbv beta.
  pose proof (hr_chain _ _ _ _ Hr k Hk) as Hch. rewrite Hfl in Hch. destruct Hch as [-> Hch].
  assert (Ha : blocks !! a = Some k) by (apply (hr_fl _ _ _ _ Hr); [done|rewrite Hfl; by left]).
  pose proof (hr_block _ _ _ _ Hr a k Ha) as (Hda & _ & _). pose proof (hr_bounds _ _ _ _ Hr) as (Hd0 & _).
  rewrite (proj2 (Z.eqb_neq a 0)) by lia. cbn [negb]. rewrite (free_list_set _ _ _ _ _ _ Hr Hk), bind_Ret_l. cbv beta.
  eexists _, _. split; [done|]. pose proof (hr_nodup _ _ _ _ Hr k Hk) as Hnd. rewrite Hfl in Hnd.
  apply NoDup_cons in Hnd as [Hal Hnd]. pose proof (pow2_ge_16 k Hk4).
  destruct (set_next_frame h m blocks fl a k 0 Hr Ha) as [Hsz Hother].
  assert (Hself : a_next (set_next m a 0) a = 0) by (unfold a_next, set_next; by rewrite load_store_same).
  split; cbn [h_free_list h_cursor h_size h_data]; try done.
  - rewrite length_insert. apply (hr_lists _ _ _ _ Hr).
  - intros j Hj. rewrite (free_list_nth _ _ _ _ _ _ _ Hr Hk Hj). case_decide as E.
    + subst j. rewrite fn_lookup_insert. eapply chain_frame; [|exact Hch].
      intros b Hb. apply (Hother b k); [|by intros ->]. apply (hr_fl _ _ _ _ Hr); [done|]. rewrite Hfl. by right.
    + rewrite fn_lookup_insert_ne by done. eapply chain_frame; [|by apply (hr_chain _ _ _ _ Hr)].
      intros b Hb. pose proof (hr_fl _ _ _ _ Hr j b Hj Hb). apply (Hother b j); [done|]. intros ->. congruence.
  - intros j b Hj Hb. apply (hr_fl _ _ _ _ Hr); [done|]. destruct (decide (j = k)) as [->|].
    + rewrite fn_lookup_insert in Hb. rewrite Hfl. by right.
    + by rewrite fn_lookup_insert_ne in Hb by done.
  - intros j Hj. destruct (decide (j = k)) as [->|]; [by rewrite fn_lookup_insert|].
    rewrite fn_lookup_insert_ne by done. by apply (hr_nodup _ _ _ _ Hr).
  - apply (hr_class _ _ _ _ Hr).
  - intros b j Hb. destruct (hr_block _ _ _ _ Hr b j Hb) as (? & ? & E). split_and!; [done|done|].
    rewrite <- E. by eapply Hsz.
  - intros b j Hb Hn. destruct (decide (b = a)) as [->|Hne]; [apply Hself|].
    rewrite (Hother b j Hb Hne). apply (hr_live _ _ _ _ Hr b j Hb).
    destruct (decide (j = k)) as [->|]; [|by rewrite fn_lookup_insert_ne in Hn by done].
    rewrite fn_lookup_insert in Hn. rewrite Hfl. intros [?|?]%elem_of_cons; done.
  - apply (hr_disj _ _ _ _ Hr).
  - apply (hr_bounds _ _ _ _ Hr).
Qed.

(** A fresh block, cut at the cursor. *)
Lemma heap_malloc_fresh h m s blocks fl size : heap_repr h m blocks fl ->
  0 <= size <= ALLOC_MAX_SIZE - sizeof_allocation ->
  let k := Z.log2_up (size + sizeof_allocation) in fl k = [] -> h_cursor h + 2^k < h_size h ->
  let a := h_data h + h_cursor h in
  exists h' m', heap_malloc h m s size = Ret (a_data a, h', m', s) /\
    blocks !! a = None /\ heap_repr h' m' (<[a := k]> blocks) fl.
Proof.
  intros Hr Hs k Hfl Hroom a. destruct (request_class size Hs) as (Hpow & Hlog & Hk4 & Hk & Hfit). fold k in Hpow, Hlog, Hk4, Hk, Hfit.
  pose proof (hr_bounds _ _ _ _ Hr) as (Hd0 & Hcur & Htop). pose proof (pow2_ge_16 k Hk4).
  pose proof (hr_chain _ _ _ _ Hr k Hk) as Hch. rewrite Hfl in Hch. cbn in Hch.
  unfold heap_malloc. rewrite (proj2 (Z.leb_le size ALLOC_MAX_SIZE)), c_assert_true by (unfold sizeof_allocation in *; lia).
  rewrite bind_Ret_l. cbv beta zeta. rewrite Hpow, Hlog, (free_list_get _ _ _ _ _ Hr Hk), Hch, bind_Ret_l. cbv beta. cbn [Z.eqb negb].
  rewrite (proj2 (Z.ltb_lt 0 _)), u64_small, (proj2 (Z.ltb_lt _ (h_size h))), c_assert_true, bind_Ret_l by lia.
  cbv beta. rewrite (proj2 (Z.leb_gt _ _)) by lia.
  fold a. set (m1 := set_next _ a 0). eexists _, m1. split; [done|].
  assert (Hnew : blocks !! a = None).
  { destruct (blocks !! a) as [j|] eqn:E; [|done]. pose proof (hr_block _ _ _ _ Hr a j E).
    pose proof (pow2_ge_16 j (proj1 (hr_class _ _ _ _ Hr a j E))). lia. }
  assert (Hbelow : forall b j, blocks !! b = Some j -> b <> a /\ b + 2^j <= a /\ 16 <= 2^j).
  { intros b j Hb. pose proof (hr_block _ _ _ _ Hr b j Hb). pose proof (pow2_ge_16 j (proj1 (hr_class _ _ _ _ Hr b j Hb))).
    split_and!; [intros ->; congruence|lia|lia]. }
  assert (Hold : forall b j, blocks !! b = Some j -> a_size m1 b = a_size m b /\ a_next m1 b = a_next m b).
  { intros b j Hb. destruct (Hbelow b j Hb) as (_ & Hba & Hj). unfold m1, a_size, a_next, set_next, set_size, a_data, sizeof_allocation.
    rewrite !load_store_disjoint, !load_bzero by (unfold disjoint_range; lia). done. }
  assert (Hself : a_size m1 a = 2^k /\ a_next m1 a = 0).
  { unfold m1, a_size, a_next, set_next, set_size. rewrite load_store_disjoint by (unfold disjoint_range; lia).
    rewrite !load_store_same, wrap_small; [done|]. assert (2^k <= 2^20) by (apply Z.pow_le_mono_r; unfold is_class in *; lia).
    change (256 ^ Z.of_nat 8) with (2^64). lia. }
  split; [done|]. split; cbn [h_free_list h_cursor h_size h_data]; try done.
  - apply (hr_lists _ _ _ _ Hr).
  - intros j Hj. eapply chain_frame; [|by apply (hr_chain _ _ _ _ Hr)]. intros b Hb.
    by eapply Hold, (hr_fl _ _ _ _ Hr).
  - intros j b Hj Hb. pose proof (hr_fl _ _ _ _ Hr j b Hj Hb). rewrite lookup_insert_ne; [done|]. intros <-. congruence.
  - apply (hr_nodup _ _ _ _ Hr).
  - intros b j [[<- <-]|[_ Hb]]%lookup_insert_Some; [done|by apply (hr_class _ _ _ _ Hr b)].
  - intros b j [[<- <-]|[_ Hb]]%lookup_insert_Some; [split_and!; [lia|lia|apply Hself]|].
    destruct (hr_block _ _ _ _ Hr b j Hb) as (? & ? & E). split_and!; [done|lia|]. rewrite <- E. by eapply Hold.
  - intros b j [[<- <-]|[_ Hb]]%lookup_insert_Some Hn; [apply Hself|].
    rewrite (proj2 (Hold b j Hb)). by apply (hr_live _ _ _ _ Hr b j).
  - intros b c j i [[<- <-]|[Hba Hb]]%lookup_insert_Some [[<- <-]|[Hca Hc]]%lookup_insert_Some Hne; try done.
    + right. by apply Hbelow.
    + left. by apply Hbelow.
    + by eapply (hr_disj _ _ _ _ Hr).
  - lia.
Qed.

(** Exhaustion: an assertion failure, or [NULL] in a release build. *)
Lemma heap_malloc_full h m s blocks fl size : heap_repr h m blocks fl ->
  0 <= size <= ALLOC_MAX_SIZE - sizeof_allocation ->
  let k := Z.log2_up (size + sizeof_allocation) in fl k = [] -> h_size h <= h_cursor h + 2^k ->
  heap_malloc h m s size = if NDEBUG then Ret (0, h, m, s) else Stop AssertFailed.
Proof.
  intros Hr Hs k Hfl Hfull. destruct (request_class size Hs) as (Hpow & Hlog & Hk4 & Hk & Hfit). fold k in Hpow, Hlog, Hk4, Hk, Hfit.
  pose proof (hr_bounds _ _ _ _ Hr) as (Hd0 & Hcur & Htop).
  assert (2^k <= 2^20) by (apply Z.pow_le_mono_r; unfold is_class in *; lia).
  pose proof (hr_chain _ _ _ _ Hr k Hk) as Hch. rewrite Hfl in Hch. cbn in Hch.
  unfold heap_malloc. rewrite (proj2 (Z.leb_le size ALLOC_MAX_SIZE)), c_assert_true by (unfold sizeof_allocation in *; lia).
  rewrite bind_Ret_l. cbv beta zeta. rewrite Hpow, Hlog, (free_list_get _ _ _ _ _ Hr Hk), Hch, bind_Ret_l. cbv beta. cbn [Z.eqb negb].
  rewrite (proj2 (Z.ltb_lt 0 _)), u64_small, (proj2 (Z.ltb_ge _ (h_size h))), (proj2 (Z.leb_le (h_size h) _)) by lia.
  unfold c_assert. by destruct NDEBUG.
Qed.

Lemma heap_repr_fl_ext h m blocks fl fl' : (forall k, fl k = fl' k) ->
  heap_repr h m blocks fl -> heap_repr h m blocks fl'.
Proof.
  intros E []. split; try done; intros.
  - rewrite <- E. auto.
  - rewrite <- E in *. auto.
  - rewrite <- E. auto.
  - rewrite <- E in *. eauto.
Qed.

(** ** Free *)

Lemma list_tail_chain m l a : forall fuel b, chain m a (a :: l) -> (forall c, c ∈ l -> c <> 0) ->
  (length l < fuel)%nat -> last (a :: l) = Some b -> list_tail fuel m a = Some b.
Proof.
  revert a. induction l as [|c l IH]; intros a fuel b [_ Hc] Hnz Hf Hb; (destruct fuel as [|fuel]; [cbn in Hf; lia|]).
  - cbn in Hb, Hc |- *. injection Hb as <-. by rewrite Hc.
  - destruct Hc as [Hc Hc']. cbn [list_tail]. rewrite (proj2 (Z.eqb_neq _ _)) by (rewrite Hc; apply Hnz; by left).
    rewrite Hc. apply (IH c fuel b); [done| |cbn in Hf; lia|done]. intros d Hd. apply Hnz. by right.
Qed.

(** Linking [a] behind the last element. *)
Lemma chain_snoc m m' l a : forall p b, chain m p l -> NoDup l -> last l = Some b ->
  (forall c, c ∈ l -> c <> b -> a_next m' c = a_next m c) -> a_next m' b = a -> a_next m' a = 0 ->
  chain m' p (l ++ [a]).
Proof.
  induction l as [|c l IH]; intros p b Hc Hnd Hl Hf Hb Ha; [done|].
  destruct Hc as [-> Hc]. apply NoDup_cons in Hnd as [Hcl Hnd]. split; [done|].
  destruct l as [|d l].
  - cbn in Hl |- *. injection Hl as ->. split; [done|]. done.
  - assert (Hne : c <> b).
    { intros ->. apply Hcl. rewrite last_cons_cons in Hl. apply last_Some_elem_of in Hl. done. }
    rewrite (Hf c) by (done || by left). apply (IH _ b); try done. intros e He Hn. apply Hf; [by right|done].
Qed.

(** What remains to be shown after [a] was put on its list. *)
Lemma freed_repr h m m' blocks fl a k free_list : heap_repr h m blocks fl -> in_use blocks fl a k ->
  length free_list = 21%nat ->
  (forall j, is_class j -> chain m' (nth (Z.to_nat j) free_list 0) (if decide (j = k) then fl k ++ [a] else fl j)) ->
  (forall b j, blocks !! b = Some j -> a_size m' b = a_size m b) ->
  (forall b j, in_use blocks fl b j -> a_next m' b = a_next m b) ->
  heap_repr (mk_heap (h_size h) (h_cursor h) free_list (h_data h)) m' blocks (<[k := fl k ++ [a]]> fl).
Proof.
  intros Hr [Ha Hlive] Hlen Hch Hsz Hnx. destruct (hr_class _ _ _ _ Hr a k Ha) as [_ Hk].
  split; cbn [h_free_list h_cursor h_size h_data]; try done.
  - intros j Hj. specialize (Hch j Hj). case_decide as E; [subst j; by rewrite fn_lookup_insert|by rewrite fn_lookup_insert_ne].
  - intros j b Hj Hb. destruct (decide (k = j)) as [<-|].
    + rewrite fn_lookup_insert in Hb. apply elem_of_app in Hb as [Hb|Hb%list_elem_of_singleton]; [by apply (hr_fl _ _ _ _ Hr)|by subst].
    + rewrite fn_lookup_insert_ne in Hb by done. by apply (hr_fl _ _ _ _ Hr).
  - intros j Hj. destruct (decide (k = j)) as [<-|]; [|rewrite fn_lookup_insert_ne by done; by apply (hr_nodup _ _ _ _ Hr)].
    rewrite fn_lookup_insert. apply NoDup_app. split_and!; [by apply (hr_nodup _ _ _ _ Hr)| |apply NoDup_singleton].
    intros b Hb ->%list_elem_of_singleton. done.
  - apply (hr_class _ _ _ _ Hr).
  - intros b j Hb. destruct (hr_block _ _ _ _ Hr b j Hb) as (? & ? & E). split_and!; [done|done|]. rewrite <- E. by eapply Hsz.
  - intros b j Hb Hn. assert (Hfl : b ∉ fl j).
    { destruct (decide (k = j)) as [<-|]; [|by rewrite fn_lookup_insert_ne in Hn by done].
      rewrite fn_lookup_insert in Hn. intros Hbl. apply Hn, elem_of_app. by left. }
    rewrite (Hnx b j) by done. by apply (hr_live _ _ _ _ Hr b j).
  - apply (hr_disj _ _ _ _ Hr).
  - apply (hr_bounds _ _ _ _ Hr).
Qed.

Lemma heap_free_repr fuel h m blocks fl a k : heap_repr h m blocks fl -> in_use blocks fl a k ->
  (length (fl k) < fuel)%nat ->
  exists h' m', heap_free fuel h m (a_data a) = Some (Ret (h', m')) /\
    heap_repr h' m' blocks (<[k := fl k ++ [a]]> fl).
Proof.
  intros Hr [Ha Hlive] Hfuel. destruct (hr_class _ _ _ _ Hr a k Ha) as [Hk4 Hk].
  destruct (hr_block _ _ _ _ Hr a k Ha) as (Hda & Htop & Hsz). pose proof (hr_bounds _ _ _ _ Hr) as (Hd0 & Hcur & Hlim).
  pose proof (pow2_ge_16 k Hk4). assert (Hk20 : 2^k <= 2^20) by (apply Z.pow_le_mono_r; unfold is_class in *; lia).
  pose proof (hr_live _ _ _ _ Hr a k Ha Hlive) as Hnext.
  assert (Hin : heap_in h (a_data a) = true).
  { unfold heap_in, a_data, sizeof_allocation. rewrite (proj2 (Z.eqb_neq _ _)) by lia. apply andb_true_iff.
    split; [apply Z.leb_le|apply Z.ltb_lt]; lia. }
  unfold heap_free. rewrite (proj2 (Z.ltb_lt 0 (h_size h))) by lia. rewrite Hin, c_assert_true, bind_Ret_l. cbv beta zeta.
  replace (a_data a - sizeof_allocation) with a by (unfold a_data; lia). rewrite Hsz.
  rewrite (proj2 (Z.leb_le (2^k) _)), c_assert_true, bind_Ret_l by (unfold ALLOC_MAX_SIZE; lia). cbv beta.
  rewrite int_log2_spec, Z.log2_pow2 by (unfold is_class in *; lia).
  rewrite (free_list_get _ _ _ _ _ Hr Hk), bind_Ret_l. cbv beta iota.
  pose proof (hr_chain _ _ _ _ Hr k Hk) as Hch.
  assert (Hnz : forall c, c ∈ fl k -> c <> 0).
  { intros c Hc. pose proof (hr_block _ _ _ _ Hr c k (hr_fl _ _ _ _ Hr k c Hk Hc)). lia. }
  assert (Hcase : fl k = [] \/ exists b l, fl k = b :: l) by (destruct (fl k); eauto).
  destruct Hcase as [Efl|(b & l & Efl)]; rewrite Efl in Hch.
  - cbn in Hch. rewrite Hch, Z.eqb_refl, (free_list_set _ _ _ _ _ _ Hr Hk), bind_Ret_l.
    eexists _, _. split; [done|]. apply (freed_repr h m m blocks fl a k); try done.
    + rewrite length_insert. apply (hr_lists _ _ _ _ Hr).
    + intros j Hj. rewrite (free_list_nth _ _ _ _ _ _ _ Hr Hk Hj). case_decide as E.
      * subst j. rewrite Efl. done.
      * by apply (hr_chain _ _ _ _ Hr).
  - pose proof Hch as [Hhead _]. rewrite Hhead in Hch |- *.
    rewrite (proj2 (Z.eqb_neq b 0)) by (apply Hnz; rewrite Efl; by left).
    destruct (last (b :: l)) as [e|] eqn:El; [|by apply last_None in El].
    rewrite (list_tail_chain m l b fuel e);
      [|done|intros c Hc; apply Hnz; rewrite Efl; by right|rewrite Efl in Hfuel; cbn in Hfuel; lia|done].
    assert (Hel : e ∈ fl k) by (rewrite Efl; by apply last_Some_elem_of).
    pose proof (hr_fl _ _ _ _ Hr k e Hk Hel) as He.
    pose proof (set_next_frame h m blocks fl e k a Hr He) as [Hsz' Hnx'].
    assert (Hea : e <> a) by (intros ->; done).
    eexists _, (set_next m e a). split; [done|].
    replace h with (mk_heap (h_size h) (h_cursor h) (h_free_list h) (h_data h)) at 1 by (by destruct h).
    apply (freed_repr h m); try done.
    + apply (hr_lists _ _ _ _ Hr).
    + intros j Hj. case_decide as E.
      * subst j. rewrite Hhead, Efl. apply (chain_snoc m _ _ _ b e); try done.
        -- rewrite <- Efl. by apply (hr_nodup _ _ _ _ Hr).
        -- intros c Hc Hne. apply (Hnx' c k); [|done]. apply (hr_fl _ _ _ _ Hr); [done|by rewrite Efl].
        -- unfold a_next, set_next. rewrite load_store_same, wrap_small; [done|]. change (256 ^ Z.of_nat 8) with (2^64). lia.
        -- rewrite (Hnx' a k) by done. done.
      * eapply chain_frame; [|by apply (hr_chain _ _ _ _ Hr)]. intros c Hc.
        pose proof (hr_fl _ _ _ _ Hr j c Hj Hc). apply (Hnx' c j); [done|]. intros ->. congruence.
    + intros c j [Hc Hnc]. apply (Hnx' c j); [done|]. intros ->. rewrite He in Hc. injection Hc as <-. done.
Qed.

(** ** Properties *)

Lemma disjoint_in_use h m blocks fl a b k j : heap_repr h m blocks fl ->
  in_use blocks fl a k -> in_use blocks fl b j -> a <> b -> a + 2^k <= b \/ b + 2^j <= a.
Proof. intros Hr [Ha _] [Hb _]. by apply (hr_disj _ _ _ _ Hr). Qed.

(** C25.  Allocation: a request of at most ALLOC_MAX_SIZE minus the header that the heap
    can serve gets a block that was not in
    use, is large enough, overlaps no block in use and stays in use until freed;
    whatever the client writes into its part of the block keeps the heap intact.
    The request fails only when the free list of its class is empty and the
    region is used up. *)
Theorem heap_malloc_spec h m s blocks fl size : heap_repr h m blocks fl ->
  0 <= size <= ALLOC_MAX_SIZE - sizeof_allocation ->
  let k := Z.log2_up (size + sizeof_allocation) in
  (exists a h' m' blocks' fl', heap_malloc h m s size = Ret (a_data a, h', m', s) /\
     ~ in_use blocks fl a k /\ in_use blocks' fl' a k /\ in_payload (a_data a) (Z.to_nat size) a k /\
     heap_repr h' m' blocks' fl' /\
     (forall b j, in_use blocks fl b j -> in_use blocks' fl' b j /\ (a + 2^k <= b \/ b + 2^j <= a)) /\
     (forall x n v, in_payload x n a k -> heap_repr h' (store n m' x v) blocks' fl')) \/
  (fl k = [] /\ h_size h <= h_cursor h + 2^k /\
   heap_malloc h m s size = if NDEBUG then Ret (0, h, m, s) else Stop AssertFailed).
Proof.
  intros Hr Hs k. destruct (request_class size Hs) as (_ & _ & _ & Hk & Hfit). fold k in Hk, Hfit.
  assert (Hpay : forall a, in_payload (a_data a) (Z.to_nat size) a k).
  { intros a. unfold in_payload, a_data, sizeof_allocation in *. lia. }
  destruct (fl k) as [|a l] eqn:Efl.
  - destruct (decide (h_cursor h + 2^k < h_size h)) as [Hroom|Hfull].
    2: { right. split; [done|]. split; [lia|]. eapply heap_malloc_full; [done|done|done|unfold k in *; lia]. }
    left. destruct (heap_malloc_fresh h m s blocks fl size Hr Hs Efl Hroom) as (h' & m' & E & Hnew & Hr').
    set (a := h_data h + h_cursor h) in *. fold k in Hr'.
    assert (Hin : in_use (<[a := k]> blocks) fl a k).
    { split; [apply lookup_insert_eq|]. rewrite Efl. intros Hx. by apply elem_of_nil in Hx. }
    exists a, h', m', (<[a := k]> blocks), fl. split_and!; try done.
    + intros [Hx _]. congruence.
    + intros b j [Hb Hbl]. assert (Hne : a <> b) by (intros <-; congruence).
      assert (Hbu : in_use (<[a := k]> blocks) fl b j) by (split; [by rewrite lookup_insert_ne|done]).
      split; [done|]. by eapply disjoint_in_use.
    + intros x n v Hx. by eapply client_store.
  - left. destruct (heap_malloc_reuse h m s blocks fl size a l Hr Hs Efl) as (h' & m' & E & Hr'). fold k in Hr'.
    assert (Ha : blocks !! a = Some k) by (apply (hr_fl _ _ _ _ Hr); [done|rewrite Efl; by left]).
    assert (Hin : in_use blocks (<[k := l]> fl) a k).
    { split; [done|]. rewrite fn_lookup_insert. pose proof (hr_nodup _ _ _ _ Hr k Hk) as Hnd. rewrite Efl in Hnd.
      by apply NoDup_cons in Hnd as [? _]. }
    exists a, h', m', blocks, (<[k := l]> fl). split_and!; try done.
    + intros [_ Hx]. apply Hx. rewrite Efl. by left.
    + intros b j [Hb Hbl]. assert (Hne : a <> b).
      { intros <-. rewrite Ha in Hb. injection Hb as <-. apply Hbl. rewrite Efl. by left. }
      assert (Hbu : in_use blocks (<[k := l]> fl) b j).
      { split; [done|]. destruct (decide (k = j)) as [<-|]; [|by rewrite fn_lookup_insert_ne].
        rewrite fn_lookup_insert. intros Hx. apply Hbl. rewrite Efl. by right. }
      split; [done|]. by eapply disjoint_in_use.
    + intros x n v Hx. by eapply client_store.
Qed.

(** Reuse is first in, first out: a freed block goes behind the blocks of
    its size freed before, the walk to the end of the list ends, and when it is
    the only one the next request of that size gets it back. *)
Theorem heap_free_reuse fuel h m s blocks fl a k size : heap_repr h m blocks fl -> in_use blocks fl a k ->
  (length (fl k) < fuel)%nat -> 0 <= size <= ALLOC_MAX_SIZE - sizeof_allocation ->
  Z.log2_up (size + sizeof_allocation) = k ->
  exists h' m', heap_free fuel h m (a_data a) = Some (Ret (h', m')) /\
    heap_repr h' m' blocks (<[k := fl k ++ [a]]> fl) /\
    exists h'' m'', heap_malloc h' m' s size = Ret (a_data (hd a (fl k)), h'', m'', s) /\
      heap_repr h'' m'' blocks (<[k := tl (fl k ++ [a])]> fl).
Proof.
  intros Hr Ha Hf Hs Hk. destruct (heap_free_repr fuel h m blocks fl a k Hr Ha Hf) as (h' & m' & E & Hr').
  exists h', m'. split; [done|]. split; [done|].
  assert (Hfl : <[k := fl k ++ [a]]> fl (Z.log2_up (size + sizeof_allocation)) = hd a (fl k) :: tl (fl k ++ [a])).
  { rewrite Hk, fn_lookup_insert. by destruct (fl k). }
  destruct (heap_malloc_reuse h' m' s blocks _ size _ _ Hr' Hs Hfl) as (h'' & m'' & E' & Hr'').
  exists h'', m''. split; [done|]. rewrite Hk in Hr''. eapply heap_repr_fl_ext; [|exact Hr''].
  intros j. destruct (decide (k = j)) as [<-|]; [by rewrite !fn_lookup_insert|by rewrite !fn_lookup_insert_ne].
Qed.

(** Requests that pass the size assertion but do not fit the largest class
    together with the header index the array of free lists out of bounds. *)
Theorem heap_malloc_largest h m (s : A) size : length (h_free_list h) = Z.to_nat NCLASS ->
  ALLOC_MAX_SIZE - sizeof_allocation < size <= ALLOC_MAX_SIZE ->
  heap_malloc h m s size = Stop OutOfBounds.
Proof.
  intros Hl Hs. unfold heap_malloc. rewrite (proj2 (Z.leb_le size ALLOC_MAX_SIZE)), c_assert_true, bind_Ret_l by lia.
  cbv beta zeta. unfold ALLOC_MAX_SIZE, sizeof_allocation in *.
  assert (Hk : Z.log2_up (size + 16) = 21).
  { apply Z.le_antisymm; [apply (Z.log2_up_le_mono (size + 16) (2^21)); lia|].
    pose proof (proj1 (Z.log2_up_lt_pow2 (size + 16) 20 ltac:(lia)) ltac:(lia)). lia. }
  rewrite u64_small, upper_power_of_two_spec, Hk by lia. rewrite int_log2_spec by (cbn; lia).
  rewrite Z.log2_pow2 by lia. unfold arr_getZ, arr_get. cbn [Z.ltb Z.compare].
  rewrite lookup_ge_None_2; [done|]. rewrite Hl. change (Z.to_nat NCLASS) with 21%nat. lia.
Qed.

End HeapSpec.

(** ** Initial state and witnesses *)

Lemma heap_init_repr `{Build} size data m : ALLOC_MAX_SIZE < size -> 0 < data -> data + size < 2^63 ->
  exists h m', heap_init size data m = Ret (h, m') /\ h_data h = data /\ h_size h = size /\
    heap_repr h m' ∅ (fun _ => []).
Proof.
  intros Hs Hd Hlim. unfold heap_init, ALLOC_MAX_SIZE in *.
  rewrite (proj2 (Z.ltb_lt 0 size)), (proj2 (Z.ltb_lt _ size)), c_assert_true, bind_Ret_l by lia.
  eexists _, _. split; [done|]. split_and!; [done|done|].
  generalize (if 0 <? size then bzero (Z.to_nat size) m data else m). intros m'.
  split; cbn [h_free_list h_cursor h_size h_data].
  - by rewrite length_replicate.
  - intros k [Hk1 Hk2]. cbn. rewrite nth_lookup, lookup_replicate_2; [done|]. change (Z.to_nat NCLASS) with 21%nat. lia.
  - by intros k a _ ?%elem_of_nil.
  - intros. constructor.
  - intros a k Ha. by rewrite lookup_empty in Ha.
  - intros a k Ha. by rewrite lookup_empty in Ha.
  - intros a k Ha. by rewrite lookup_empty in Ha.
  - intros a b k j Ha. by rewrite lookup_empty in Ha.
  - lia.
Qed.

(** A heap of two megabytes with its region at address 4096: one block of 32
    bytes in use, one of 64 bytes freed. *)
Definition demo_region : heap := mk_heap (2 * ALLOC_MAX_SIZE) 96 (<[6%nat := 4128]> (replicate 21 0)) 4096.
Definition demo_hmem : mem := set_next (set_size (set_next (set_size ∅ 4096 32) 4096 0) 4128 64) 4128 0.
Definition demo_blocks : gmap Z Z := {[4096 := 5; 4128 := 6]}.
Definition demo_fl : Z -> list Z := <[6 := [4128]]> (fun _ => []).

Lemma demo_blocks_inv a k : demo_blocks !! a = Some k -> (a = 4096 /\ k = 5) \/ (a = 4128 /\ k = 6).
Proof.
  unfold demo_blocks. intros [[<- <-]|[_ [<- <-]%lookup_singleton_Some]]%lookup_insert_Some; auto.
Qed.

Lemma demo_heap_repr : heap_repr demo_region demo_hmem demo_blocks demo_fl.
Proof.
  assert (Hfl : forall k a, a ∈ demo_fl k -> k = 6 /\ a = 4128).
  { intros k a. unfold demo_fl. destruct (decide (k = 6)) as [->|]; [rewrite fn_lookup_insert|rewrite fn_lookup_insert_ne by done].
    - by intros ->%list_elem_of_singleton.
    - by intros ?%elem_of_nil. }
  split; try done.
  - intros k [Hk1 Hk2]. unfold demo_fl. destruct (decide (k = 6)) as [->|]; [vm_compute; auto|].
    rewrite fn_lookup_insert_ne by done. cbn [chain]. unfold demo_region. cbn [h_free_list].
    rewrite nth_insert_ne by lia. rewrite nth_lookup, lookup_replicate_2 by lia. done.
  - intros k a _ [-> ->]%Hfl. reflexivity.
  - intros k _. unfold demo_fl. destruct (decide (k = 6)) as [->|]; [apply NoDup_singleton|].
    rewrite fn_lookup_insert_ne by done. constructor.
  - intros a k [[-> ->]|[-> ->]]%demo_blocks_inv; unfold is_class; lia.
  - intros a k [[-> ->]|[-> ->]]%demo_blocks_inv; vm_compute; split_and!; congruence.
  - intros a k [[-> ->]|[-> ->]]%demo_blocks_inv Hn; reflexivity.
  - intros a b k j [[-> ->]|[-> ->]]%demo_blocks_inv [[-> ->]|[-> ->]]%demo_blocks_inv Hne; try done; lia.
Qed.

Lemma demo_in_use : in_use demo_blocks demo_fl 4096 5.
Proof. split; [reflexivity|]. unfold demo_fl. rewrite fn_lookup_insert_ne by done. apply not_elem_of_nil. Qed.

Lemma heap_malloc_spec_witness :
  let _ := debug_build 2 in
  exists a h' m', heap_malloc demo_region demo_hmem (mk_libc ∅) 40 = Ret (a_data a, h', m', mk_libc ∅) /\ a = 4128.
Proof.
  intros B. destruct (heap_malloc_spec demo_region demo_hmem (mk_libc ∅) demo_blocks demo_fl 40 demo_heap_repr) as
    [(a & h' & m' & _ & _ & E & _)|(Hfl & _)]; [vm_compute; split; congruence| |discriminate Hfl].
  exists a, h', m'. split; [exact E|].
  assert (Ha : (r ← heap_malloc demo_region demo_hmem (mk_libc ∅) 40; Ret r.1.1.1) = Ret 4144) by (vm_compute; reflexivity).
  rewrite E in Ha. injection Ha as Ha. unfold a_data, sizeof_allocation in Ha. lia.
Defined.

Lemma heap_free_reuse_witness :
  let _ := debug_build 2 in
  exists h' m', heap_free 3 demo_region demo_hmem (a_data 4096) = Some (Ret (h', m')) /\
    exists h'' m'', heap_malloc h' m' (mk_libc ∅) 16 = Ret (a_data 4096, h'', m'', mk_libc ∅).
Proof.
  intros B. destruct (heap_free_reuse 3 demo_region demo_hmem (mk_libc ∅) demo_blocks demo_fl 4096 5 16
    demo_heap_repr demo_in_use) as (h' & m' & E & _ & h'' & m'' & E' & _).
  - unfold demo_fl. rewrite fn_lookup_insert_ne by done. cbn. lia.
  - vm_compute; split; congruence.
  - reflexivity.
  - exists h', m'. split; [exact E|]. exists h'', m''. exact E'.
Defined.

Lemma heap_malloc_largest_witness :
  let _ := debug_build 2 in
  heap_malloc demo_region demo_hmem (mk_libc ∅) ALLOC_MAX_SIZE = Stop OutOfBounds.
Proof. intros B. apply heap_malloc_largest; [reflexivity|]. unfold ALLOC_MAX_SIZE, sizeof_allocation. lia. Defined.
