(* ===== verification/Cow.v ===== *)
(** * The word hash table (src/cow.c, src/cow_helpers.h)

    The other write set of the library, used by the heap mode and by the
    copy-on-write mode without append-only buffers: a hash table from word
    addresses to 64-bit words.  Without COW_WT it is a write-back buffer (reads
    look in the table first, the memory is written at the commit); with COW_WT
    the memory is written through and the table holds the old words.  In heap
    mode the keys are relative to the heap the buffer belongs to. *)

From S2P Require Export Heap AbufLog.

Definition COW_MAX : nat := 128.

(** [MODE == 1] and [COW_WT] of the build. *)
Class CowBuild := { HEAP_MODE : bool; COW_WT : bool }.

(** [next] is written and never read; it is left out. *)
Record cow_entry := mk_ce { ce_wkey : Z; ce_wvalue : Z }.

Record cow := mk_cow {
  c_table : list (list cow_entry);
  c_sizes : list nat;
  c_max_size : list nat;
  c_heap : heap;
}.

Definition centry0 : cow_entry := mk_ce 0 0.

Section Cow.
Context `{Build} `{CowBuild}.
Implicit Types (c : cow) (m : mem).

(** ** cow_helpers.h *)

Definition HASH (k : Z) : nat := Z.to_nat (k mod Z.of_nat COW_MAX).
Definition ADDR2KEY (addr : Z) : Z := Z.shiftr addr 3.
Definition KEY2ADDR (k : Z) : Z := u64 (Z.shiftl k 3).

Definition GETWKEY (hp : heap) (addr : Z) : outcome Z :=
  if HEAP_MODE then r ← heap_rel hp addr; Ret (ADDR2KEY r) else Ret (ADDR2KEY addr).
Definition GETWADDR (hp : heap) (wkey : Z) : outcome Z :=
  if HEAP_MODE then heap_get hp (KEY2ADDR wkey) else Ret (KEY2ADDR wkey).

Definition TYPEMASK (addr : Z) (t : cty) : Z := Z.land addr (Z.of_nat (sizeof t) - 1).

Definition WVAL (e : cow_entry) : Z := ce_wvalue e.
Definition set_WVAL (e : cow_entry) (w : Z) : cow_entry := mk_ce (ce_wkey e) w.

(** ** Table access *)

Definition get_entry c (key j : nat) : outcome cow_entry :=
  b ← arr_get (c_table c) key; arr_get b j.

Definition set_entry c (key j : nat) (e : cow_entry) : outcome cow :=
  b ← arr_get (c_table c) key;
  b' ← arr_set b j e;
  tb ← arr_set (c_table c) key b';
  Ret (mk_cow tb (c_sizes c) (c_max_size c) (c_heap c)).

Definition set_csize c (key n : nat) : outcome cow :=
  sz ← arr_set (c_sizes c) key n;
  Ret (mk_cow (c_table c) sz (c_max_size c) (c_heap c)).

(** [cow_init]; the entries are those of fresh memory. *)
Definition cow_init (hp : heap) (max_size : nat) : cow :=
  mk_cow (replicate COW_MAX (replicate max_size centry0)) (replicate COW_MAX 0%nat)
         (replicate COW_MAX max_size) hp.

(** [for (i = 0; i < n; ++i) if (e->wkey == wkey) return e;] *)
Fixpoint find_loop c (key : nat) (n i : nat) (wkey : Z) : outcome (option nat) :=
  match n with
  | O => Ret None
  | S n' => e ← get_entry c key i;
            if ce_wkey e =? wkey then Ret (Some i) else find_loop c key n' (i + 1) wkey
  end.

(** The index of the entry in the bucket of the key. *)
Definition cow_find c (wkey : Z) : outcome (option nat) :=
  n ← arr_get (c_sizes c) (HASH wkey); find_loop c (HASH wkey) n 0 wkey.

(** ** Reading and writing *)

Definition cow_read (t : cty) c m (addr : Z) : outcome Z :=
  if COW_WT then Ret (load (sizeof t) m addr)
  else
    k ← GETWKEY (c_heap c) addr;
    r ← cow_find c k;
    match r with
    | None => Ret (load (sizeof t) m addr)
    | Some i =>
        if TYPEMASK addr t =? 0 then
          e ← get_entry c (HASH k) i; Ret (wvax_get (WVAL e) t addr)
        else c_assert false;; Stop (SeiFail "cant handle unaligned accesses")
    end.

(** [COW_CHECK_SIZE(i)]: double the bucket before it is full. *)
Definition COW_CHECK_SIZE c (i : nat) : outcome cow :=
  n ← arr_get (c_sizes c) i;
  mx ← arr_get (c_max_size c) i;
  if (n + 1 =? mx)%nat then
    mxs ← arr_set (c_max_size c) i (mx * 2)%nat;
    b ← arr_get (c_table c) i;
    tb ← arr_set (c_table c) i (b ++ replicate (mx * 2 - length b) centry0);
    Ret (mk_cow tb (c_sizes c) mxs (c_heap c))
  else Ret c.

Definition cow_write (t : cty) c m (addr value : Z) : outcome (cow * mem) :=
  (if negb (TYPEMASK addr t =? 0) then c_assert false else Ret tt);;
  k ← GETWKEY (c_heap c) addr;
  let key := HASH k in
  r ← cow_find c k;
  '(c, j) ← match r with
    | Some j => Ret (c, j)
    | None =>
        c ← COW_CHECK_SIZE c key;
        n ← arr_get (c_sizes c) key;
        c ← set_csize c key (n + 1);
        wa ← GETWADDR (c_heap c) k;
        c ← set_entry c key n (mk_ce k (load 8 m wa));
        Ret (c, n)
    end;
  if COW_WT then Ret (c, store (sizeof t) m addr value)
  else
    e ← get_entry c key j;
    c ← set_entry c key j (set_WVAL e (wvax_set (WVAL e) t addr value));
    Ret (c, m).

(** ** Applying *)

Definition apply_entry c (i j : nat) m : outcome mem :=
  e ← get_entry c i j;
  wa ← GETWADDR (c_heap c) (ce_wkey e);
  Ret (store 8 m wa (WVAL e)).

Definition cow_apply c m : outcome (cow * mem) :=
  for_range COW_MAX 0 (fun i st =>
    let '(c, m) := st in
    n ← arr_get (c_sizes c) i;
    m ← for_range n 0 (fun j m => apply_entry c i j m) m;
    c ← set_csize c i 0;
    Ret (c, m)) (c, m).

Definition swap_centry (i j : nat) (st : cow * mem) : outcome (cow * mem) :=
  let '(c, m) := st in
  e ← get_entry c i j;
  wa ← GETWADDR (c_heap c) (ce_wkey e);
  let val := load 8 m wa in
  let m := store 8 m wa (WVAL e) in
  c ← set_entry c i j (set_WVAL e val);
  Ret (c, m).

Definition cow_swap c m : outcome (cow * mem) :=
  (if COW_WT then Ret tt else c_assert false);;
  for_range COW_MAX 0 (fun i st =>
    n ← arr_get (c_sizes st.1) i;
    for_range n 0 (swap_centry i) st) (c, m).

(** One entry of [cow_apply_cmp]. *)
Definition cmp_centry (c1 c2 : cow) (i j : nat) m : outcome mem :=
  e1 ← get_entry c1 i j;
  e2 ← get_entry c2 i j;
  fail_ifn (ce_wkey e1 =? ce_wkey e2) "entries point to different addresses";;
  if COW_WT then
    wa ← GETWADDR (c_heap c1) (ce_wkey e1);
    fail_ifn (WVAL e1 =? load 8 m wa) "cow entries differ (value)";;
    Ret m
  else
    fail_ifn (WVAL e1 =? WVAL e2) "cow entries differ (value)";;
    wa ← GETWADDR (c_heap c1) (ce_wkey e1);
    Ret (store 8 m wa (WVAL e1)).

Definition cow_apply_cmp (c1 c2 : cow) m : outcome (cow * cow * mem) :=
  for_range COW_MAX 0 (fun i st =>
    let '(c1, c2, m) := st in
    n1 ← arr_get (c_sizes c1) i;
    n2 ← arr_get (c_sizes c2) i;
    fail_ifn (n1 =? n2)%nat "cow sizes differ";;
    if (n1 =? 0)%nat then Ret (c1, c2, m) else
    m ← for_range n1 0 (fun j m => cmp_centry c1 c2 i j m) m;
    c2 ← set_csize c2 i 0;
    c1 ← set_csize c1 i 0;
    Ret (c1, c2, m)) (c1, c2, m).

(** One entry of [cow_apply_heap]: the two heaps hold copies of the same data. *)
Definition cmp_heap_centry (c1 c2 : cow) (i j : nat) m : outcome mem :=
  e1 ← get_entry c1 i j;
  e2 ← get_entry c2 i j;
  wa1 ← GETWADDR (c_heap c1) (ce_wkey e1);
  wa2 ← GETWADDR (c_heap c2) (ce_wkey e2);
  fail_ifn (negb (wa1 =? wa2)) "cow entries point to same address";;
  let v1 := WVAL e1 in
  let v2 := WVAL e2 in
  (if negb (v1 =? v2) then
     r1 ← heap_rel (c_heap c1) v1;
     r2 ← heap_rel (c_heap c2) v2;
     fail_ifn (r1 =? r2) "cow values differ and are not pointers"
   else Ret tt);;
  Ret (store 8 (store 8 m wa1 v1) wa2 v2).

Definition cow_apply_heap (c1 c2 : cow) m : outcome (cow * cow * mem) :=
  for_range COW_MAX 0 (fun i st =>
    let '(c1, c2, m) := st in
    n1 ← arr_get (c_sizes c1) i;
    n2 ← arr_get (c_sizes c2) i;
    fail_ifn (n1 =? n2)%nat "different sizes";;
    if (n1 =? 0)%nat then Ret (c1, c2, m) else
    m ← for_range n1 0 (fun j m => cmp_heap_centry c1 c2 i j m) m;
    c2 ← set_csize c2 i 0;
    c1 ← set_csize c1 i 0;
    Ret (c1, c2, m)) (c1, c2, m).

End Cow.
