(* ===== verification/CowProps.v ===== *)
(** * Properties of the word hash table

    [cow_rel c W] relates the table to the finite map of words it holds;
    [overlay W m M] says that [M] is the memory [m] with these words on top.
    The write-back buffer then behaves as if every write had gone to memory. *)

From S2P Require Export Cow.

(** ** Words and lanes *)

(** Bit [n] of a loaded value is bit [n mod 8] of byte [n / 8]. *)
Lemma load_testbit k m a n : 0 <= n < 8 * Z.of_nat k ->
  Z.testbit (load k m a) n = Z.testbit (mget m (a + n / 8)) (n mod 8).
Proof.
  intros Hn. assert (Hd : 0 <= n / 8 < Z.of_nat k) by (split; [apply Z.div_pos|apply Z.div_lt_upper_bound]; lia).
  pose proof (Z.mod_pos_bound n 8 ltac:(lia)) as Hm.
  rewrite <- (load_byte k m a (a + n / 8)) by (unfold in_range; lia).
  replace (a + n / 8 - a) with (n / 8) by lia.
  change 256 with (2^8) at 2. rewrite Z.mod_pow2_bits_low by lia.
  replace (256 ^ (n / 8)) with (2 ^ (8 * (n / 8))) by (rewrite Z.pow_mul_r by lia; done).
  rewrite Z.div_pow2_bits by lia. f_equal. rewrite (Z.div_mod n 8) at 1 by lia. lia.
Qed.

Lemma load_testbit_high k m a n : 8 * Z.of_nat k <= n -> Z.testbit (load k m a) n = false.
Proof.
  intros Hn. pose proof (load_bound k m a) as Hb.
  replace (256 ^ Z.of_nat k) with (2 ^ (8 * Z.of_nat k)) in Hb by (rewrite Z.pow_mul_r by lia; done).
  rewrite <- (Z.mod_small (load k m a) (2 ^ (8 * Z.of_nat k))) by done. by apply Z.mod_pow2_bits_high; lia.
Qed.

(** The word that contains an address. *)
Definition word_base (addr : Z) : Z := 8 * (addr / 8).

Lemma TYPEMASK_aligned t addr : TYPEMASK addr t = 0 <-> aligned t addr.
Proof.
  unfold TYPEMASK, aligned. destruct t; cbn [sizeof].
  - rewrite Z.mod_1_r. change (Z.of_nat 1 - 1) with 0. rewrite Z.land_0_r. done.
  - change (Z.of_nat 2 - 1) with (Z.ones 1). by rewrite Z.land_ones by lia.
  - change (Z.of_nat 4 - 1) with (Z.ones 2). by rewrite Z.land_ones by lia.
  - change (Z.of_nat 8 - 1) with (Z.ones 3). by rewrite Z.land_ones by lia.
Qed.

Lemma lane_shift_aligned t addr : aligned t addr -> lane_shift addr t = 8 * (addr mod 8).
Proof.
  unfold aligned, lane_shift, ABUF_PICKMASK. change 7 with (Z.ones 3). rewrite Z.land_ones by lia. change (2^3) with 8.
  pose proof (Z.mod_pos_bound addr 8 ltac:(lia)) as Hb. pose proof (Z.div_mod addr 8 ltac:(lia)).
  set (x := addr mod 8) in *. intros Ha. rewrite Z.shiftr_div_pow2 by (apply Z.shiftr_nonneg; lia).
  destruct t; cbn [sizeof] in *.
  - change (2 ^ Z.shiftr (Z.of_nat 1) 1) with 1. rewrite Z.div_1_r. lia.
  - change (2 ^ Z.shiftr (Z.of_nat 2) 1) with 2. apply Z.mod_divide in Ha as [y Hy]; [|lia].
    pose proof (Z.div_mod x 2 ltac:(lia)). pose proof (Z.mod_pos_bound x 2 ltac:(lia)). lia.
  - change (2 ^ Z.shiftr (Z.of_nat 4) 1) with 4. apply Z.mod_divide in Ha as [y Hy]; [|lia].
    pose proof (Z.div_mod x 4 ltac:(lia)). pose proof (Z.mod_pos_bound x 4 ltac:(lia)). lia.
  - change (2 ^ Z.shiftr (Z.of_nat 8) 1) with 16. rewrite (Z.div_small x 16) by lia.
    apply Z.mod_divide in Ha as [y Hy]; [|lia]. lia.
Qed.

(** The access does not cross the end of its word. *)
Lemma aligned_in_word t addr : aligned t addr -> addr mod 8 + Z.of_nat (sizeof t) <= 8.
Proof.
  unfold aligned. intros Ha. pose proof (Z.div_mod addr 8 ltac:(lia)). pose proof (Z.mod_pos_bound addr 8 ltac:(lia)).
  apply Z.mod_divide in Ha as [y Hy]; [|destruct t; cbn; lia]. destruct t; cbn [sizeof] in *; lia.
Qed.

Lemma word_base_split addr : addr = word_base addr + addr mod 8.
Proof. unfold word_base. apply Z.div_mod. lia. Qed.

(** Reading a lane of the word is the narrow load. *)
Lemma wvax_get_word t m addr : aligned t addr ->
  wvax_get (load 8 m (word_base addr)) t addr = load (sizeof t) m addr.
Proof.
  intros Ha. unfold wvax_get. rewrite (lane_shift_aligned t addr Ha).
  pose proof (aligned_in_word t addr Ha) as Hin. pose proof (Z.mod_pos_bound addr 8 ltac:(lia)) as Hb.
  pose proof (word_base_split addr) as Hs. set (o := addr mod 8) in *.
  apply Z.bits_inj'. intros n Hn. rewrite Z.land_spec, Z.shiftr_spec by lia.
  destruct (decide (n < 8 * Z.of_nat (sizeof t))).
  - rewrite Z.ones_spec_low, andb_true_r by lia. rewrite !load_testbit by lia.
    replace ((n + 8 * o) mod 8) with (n mod 8) by (rewrite (Z.mul_comm 8 o); by rewrite Z_mod_plus_full).
    f_equal. f_equal. rewrite (Z.mul_comm 8 o), Z.div_add by lia. lia.
  - rewrite Z.ones_spec_high, andb_false_r by lia. by rewrite load_testbit_high by lia.
Qed.

(** Setting a lane of the word is the narrow store. *)
Lemma wvax_set_word t m addr v : aligned t addr ->
  wvax_set (load 8 m (word_base addr)) t addr v = load 8 (store (sizeof t) m addr v) (word_base addr).
Proof.
  intros Ha. unfold wvax_set. rewrite (lane_shift_aligned t addr Ha). cbv zeta.
  pose proof (aligned_in_word t addr Ha) as Hin. pose proof (Z.mod_pos_bound addr 8 ltac:(lia)) as Hb.
  pose proof (word_base_split addr) as Hs. set (o := addr mod 8) in *.
  apply Z.bits_inj'. intros n Hn. rewrite Z.lor_spec, Z.ldiff_spec, !Z.shiftl_spec, Z.land_spec by lia.
  destruct (decide (n < 64)); [|].
  2: { rewrite !load_testbit_high by lia. rewrite Z.ones_spec_high by lia. by rewrite !andb_false_r. }
  rewrite !load_testbit by lia. rewrite mget_store. unfold in_range.
  pose proof (Z.div_mod n 8 ltac:(lia)) as Hdm. pose proof (Z.mod_pos_bound n 8 ltac:(lia)) as Hm.
  case_decide as Hr.
  - rewrite Z.ones_spec_low by lia. rewrite andb_false_r, andb_true_r. cbn [orb].
    change 256 with (2^8) at 2. rewrite Z.mod_pow2_bits_low by lia.
    replace (256 ^ (word_base addr + n / 8 - addr)) with (2 ^ (8 * (word_base addr + n / 8 - addr)))
      by (rewrite Z.pow_mul_r by lia; done).
    rewrite Z.div_pow2_bits by lia. f_equal. lia.
  - destruct (decide (n < 8 * o)).
    + rewrite (Z.testbit_neg_r _ (n - 8 * o)), (Z.testbit_neg_r v) by lia. by rewrite andb_true_r, orb_false_r.
    + rewrite Z.ones_spec_high by lia. by rewrite andb_true_r, andb_false_r, orb_false_r.
Qed.

Section CowProps.
Context `{Build} `{CowBuild}.
Implicit Types (c : cow) (m M : mem) (W : gmap Z Z).

(** ** Keys *)

(** Where word 0 is: the start of the data of the heap, or address 0. *)
Definition base (hp : heap) : Z := if HEAP_MODE then h_data hp else 0.

Record base_ok (hp : heap) : Prop := {
  bo_nonneg : 0 <= base hp;
  bo_aligned : base hp mod 8 = 0;
  bo_heap : HEAP_MODE = true -> 0 < h_size hp;
}.

Definition key_of (hp : heap) (addr : Z) : Z := (addr - base hp) / 8.
Definition waddr (hp : heap) (k : Z) : Z := base hp + 8 * k.

(** Addresses whose word lies in the 64-bit address space above the base. *)
Definition valid_addr (hp : heap) (addr : Z) : Prop := base hp <= addr < 2^64.
Definition valid_key (hp : heap) (k : Z) : Prop := 0 <= k /\ base hp + 8 * k < 2^64.

Lemma GETWKEY_ok hp addr : base_ok hp -> valid_addr hp addr -> GETWKEY hp addr = Ret (key_of hp addr).
Proof.
  intros [Hb _ Hh] [Ha1 Ha2]. unfold GETWKEY, key_of, base, ADDR2KEY in *. destruct HEAP_MODE.
  - unfold heap_rel. rewrite (proj2 (Z.ltb_lt _ _)), c_assert_true by auto. cbn [mbind outcome_bind].
    rewrite u64_small by lia. by rewrite Z.shiftr_div_pow2 by lia.
  - rewrite Z.shiftr_div_pow2 by lia. by rewrite Z.sub_0_r.
Qed.

Lemma GETWADDR_ok hp k : base_ok hp -> valid_key hp k -> GETWADDR hp k = Ret (waddr hp k).
Proof.
  intros [Hb _ Hh] [Hk1 Hk2]. unfold GETWADDR, waddr, base, KEY2ADDR in *.
  rewrite Z.shiftl_mul_pow2, Z.mul_comm by lia. change (2^3) with 8.
  unfold base in Hk2. destruct HEAP_MODE; rewrite u64_small by lia; [|done].
  unfold heap_get. rewrite (proj2 (Z.ltb_lt _ _)), c_assert_true by auto. cbn [mbind outcome_bind]. by rewrite u64_small by lia.
Qed.

Lemma waddr_key hp addr : base_ok hp -> waddr hp (key_of hp addr) = word_base addr.
Proof.
  intros [_ Hb _]. unfold waddr, key_of, word_base. apply Z.mod_divide in Hb as [y Hy]; [|lia]. rewrite Hy.
  replace (addr - y * 8) with (addr + (- y) * 8) by lia. rewrite Z.div_add by lia. lia.
Qed.

Lemma valid_key_of hp addr : base_ok hp -> valid_addr hp addr -> valid_key hp (key_of hp addr).
Proof.
  intros [Hb _ _] [Ha1 Ha2]. unfold valid_key, key_of. pose proof (Z.div_mod (addr - base hp) 8 ltac:(lia)).
  pose proof (Z.mod_pos_bound (addr - base hp) 8 ltac:(lia)). lia.
Qed.

(** A byte belongs to the word of its key. *)
Lemma key_range hp b k : key_of hp b = k <-> in_range b (waddr hp k) 8.
Proof.
  unfold key_of, waddr, in_range. pose proof (Z.div_mod (b - base hp) 8 ltac:(lia)).
  pose proof (Z.mod_pos_bound (b - base hp) 8 ltac:(lia)). split; intros; [lia|].
  symmetry. apply (Z.div_unique _ _ _ (b - base hp - 8 * k)); lia.
Qed.

(** ** The table and the words it holds *)

Definition bucket c (i : nat) : list cow_entry := nth i (c_table c) [].
Definition csize c (i : nat) : nat := nth i (c_sizes c) 0%nat.
Definition cmax c (i : nat) : nat := nth i (c_max_size c) 0%nat.

(** Entry [j] of bucket [i] is in use. *)
Definition centry c (i j : nat) (e : cow_entry) : Prop := (j < csize c i)%nat /\ bucket c i !! j = Some e.

Record cow_wf c : Prop := {
  cw_table : length (c_table c) = COW_MAX;
  cw_sizes : length (c_sizes c) = COW_MAX;
  cw_maxs : length (c_max_size c) = COW_MAX;
  cw_base : base_ok (c_heap c);
  cw_room : forall i, (i < COW_MAX)%nat -> (csize c i < cmax c i)%nat /\ length (bucket c i) = cmax c i;
  cw_key : forall i j e, centry c i j e -> HASH (ce_wkey e) = i /\ valid_key (c_heap c) (ce_wkey e);
  cw_value : forall i j e, centry c i j e -> 0 <= ce_wvalue e < 2^64;
  cw_unique : forall i j1 j2 e1 e2, centry c i j1 e1 -> centry c i j2 e2 -> ce_wkey e1 = ce_wkey e2 -> j1 = j2;
}.

Definition cow_rel c W : Prop :=
  cow_wf c /\
  forall k w, W !! k = Some w <-> exists j, centry c (HASH k) j (mk_ce k w).

Lemma HASH_lt k : (HASH k < COW_MAX)%nat.
Proof. unfold HASH, COW_MAX. pose proof (Z.mod_pos_bound k (Z.of_nat 128) ltac:(lia)). lia. Qed.

Lemma get_bucket c i : cow_wf c -> (i < COW_MAX)%nat -> arr_get (c_table c) i = Ret (bucket c i).
Proof. intros Hwf Hi. apply arr_get_nth. by rewrite (cw_table _ Hwf). Qed.

Lemma get_csize c i : cow_wf c -> (i < COW_MAX)%nat -> arr_get (c_sizes c) i = Ret (csize c i).
Proof. intros Hwf Hi. apply arr_get_nth. by rewrite (cw_sizes _ Hwf). Qed.

Lemma centry_lt c i j : cow_wf c -> (i < COW_MAX)%nat -> (j < csize c i)%nat -> exists e, centry c i j e.
Proof.
  intros Hwf Hi Hj. destruct (cw_room _ Hwf i Hi) as [Hr Hl].
  destruct (lookup_lt_is_Some_2 (bucket c i) j) as [e He]; [lia|]. by exists e.
Qed.

Lemma get_entry_ok c i j e : cow_wf c -> (i < COW_MAX)%nat -> bucket c i !! j = Some e -> get_entry c i j = Ret e.
Proof. intros Hwf Hi He. unfold get_entry. rewrite get_bucket by done. cbn. by apply arr_get_Ret. Qed.

(** ** Lookup *)

Lemma find_loop_spec c i k n : forall j, cow_wf c -> (i < COW_MAX)%nat -> (j + n = csize c i)%nat ->
  (forall j' e, (j' < j)%nat -> centry c i j' e -> ce_wkey e <> k) ->
  exists r, find_loop c i n j k = Ret r /\
    match r with
    | Some j' => exists e, centry c i j' e /\ ce_wkey e = k
    | None => forall j' e, centry c i j' e -> ce_wkey e <> k
    end.
Proof.
  induction n as [|n IH]; intros j Hwf Hi Hn Hprev; cbn [find_loop].
  { exists None. split; [done|]. intros j' e He. apply (Hprev j' e); [destruct He; lia|done]. }
  destruct (centry_lt c i j Hwf Hi) as [e He]; [lia|]. rewrite (get_entry_ok c i j e Hwf Hi (proj2 He)).
  cbn [mbind outcome_bind]. destruct (Z.eqb_spec (ce_wkey e) k) as [E|E]; [by exists (Some j); eauto|].
  apply IH; [done|done|lia|]. intros j' e' Hj He'. destruct (decide (j' = j)) as [->|]; [|apply (Hprev j'); [lia|done]].
  destruct He as [_ He]. destruct He' as [_ He']. rewrite He in He'. by injection He' as <-.
Qed.

Lemma cow_find_spec c W k : cow_rel c W -> exists r, cow_find c k = Ret r /\
  match r with
  | Some j => exists w, centry c (HASH k) j (mk_ce k w) /\ W !! k = Some w
  | None => W !! k = None
  end.
Proof.
  intros [Hwf Hrel]. unfold cow_find. rewrite (get_csize c _ Hwf (HASH_lt k)). cbn [mbind outcome_bind].
  destruct (find_loop_spec c (HASH k) k (csize c (HASH k)) 0 Hwf (HASH_lt k)) as (r & -> & Hr); [done|lia|].
  exists r. split; [done|]. destruct r as [j|].
  - destruct Hr as (e & He & Hk). destruct e as [k' w]. cbn in Hk. subst k'. exists w. split; [done|]. apply Hrel. eauto.
  - destruct (W !! k) as [w|] eqn:E; [|done]. apply Hrel in E as [j Hj]. by destruct (Hr _ _ Hj).
Qed.

(** ** Updates *)

(** The table with entry [j] of bucket [i] replaced. *)
Lemma set_entry_ok c i j e : cow_wf c -> (i < COW_MAX)%nat -> (j < length (bucket c i))%nat ->
  set_entry c i j e =
  Ret (mk_cow (<[i := <[j := e]> (bucket c i)]> (c_table c)) (c_sizes c) (c_max_size c) (c_heap c)).
Proof.
  intros Hwf Hi Hj. unfold set_entry. rewrite get_bucket by done. cbn [mbind outcome_bind].
  rewrite arr_set_lt by done. cbn [mbind outcome_bind]. by rewrite arr_set_lt by (by rewrite (cw_table _ Hwf)).
Qed.

Lemma bucket_insert c i b i' sz mx hp : (i < length (c_table c))%nat ->
  bucket (mk_cow (<[i := b]> (c_table c)) sz mx hp) i' = if decide (i' = i) then b else bucket c i'.
Proof.
  intros Hi. unfold bucket. cbn. case_decide as E; [subst i'; by apply nth_insert_eq|by apply nth_insert_ne].
Qed.

(** Replacing the value of an entry. *)
Lemma update_entry_rel c W k j w w' : cow_rel c W -> centry c (HASH k) j (mk_ce k w) -> 0 <= w' < 2^64 ->
  exists c', set_entry c (HASH k) j (mk_ce k w') = Ret c' /\ cow_rel c' (<[k := w']> W) /\
    c_heap c' = c_heap c /\ (forall i, csize c' i = csize c i) /\ centry c' (HASH k) j (mk_ce k w') /\
    (forall i j' e, centry c i j' e -> ~ (i = HASH k /\ j' = j) -> centry c' i j' e).
Proof.
  intros [Hwf Hrel] He Hw'. pose proof He as [Hj Hb]. pose proof (lookup_lt_Some _ _ _ Hb) as Hlen.
  pose proof (HASH_lt k) as Hk. eexists. split; [by apply set_entry_ok|].
  set (c' := mk_cow _ _ _ _). pose proof (cw_table _ Hwf) as Ht.
  assert (Hbk : forall i, bucket c' i = if decide (i = HASH k) then <[j := mk_ce k w']> (bucket c (HASH k)) else bucket c i)
    by (intros i; apply bucket_insert; lia).
  assert (Hcen : forall i j' e, centry c' i j' e <->
    (i = HASH k /\ j' = j /\ e = mk_ce k w') \/ (~ (i = HASH k /\ j' = j) /\ centry c i j' e)).
  { intros i j' e. unfold centry. change (csize c' i) with (csize c i). rewrite Hbk. destruct (decide (i = HASH k)) as [->|Hne].
    - rewrite list_lookup_insert_Some. split.
      + intros [Hlt [[<- [<- _]]|[Hn Hl]]]; [by left|]. right. split; [intros [_ ->]; done|done].
      + intros [(_ & -> & ->)|[Hn [Hlt Hl]]]; [by split; [|left]|]. split; [done|]. right. split; [|done]. intros <-. by apply Hn.
    - split; [intros [? ?]; right; split; [by intros [-> _]|done]|]. intros [(-> & _)|[_ ?]]; done. }
  split; [|split; [done|split; [done|split; [apply Hcen; by left|intros; apply Hcen; by right]]]].
  split.
  - split; try done.
    + cbn. by rewrite length_insert.
    + apply (cw_sizes _ Hwf).
    + apply (cw_maxs _ Hwf).
    + apply (cw_base _ Hwf).
    + intros i Hi. destruct (cw_room _ Hwf i Hi) as [? ?]. split; [done|]. rewrite Hbk. case_decide as E; [|done].
      subst i. by rewrite length_insert.
    + intros i j' e [(-> & -> & ->)|[_ He']]%Hcen; [cbn; split; [done|]; by apply (cw_key _ Hwf _ _ _ He)|].
      by apply (cw_key _ Hwf _ _ _ He').
    + intros i j' e [(-> & -> & ->)|[_ He']]%Hcen; [done|]. by apply (cw_value _ Hwf _ _ _ He').
    + intros i j1 j2 e1 e2 [(-> & -> & ->)|[Hn1 He1]]%Hcen [(? & -> & ->)|[Hn2 He2]]%Hcen Hkk; try done.
      * by eapply (cw_unique _ Hwf _ _ _ _ _ He He2).
      * subst i. by eapply (cw_unique _ Hwf _ _ _ _ _ He1 He).
      * by eapply (cw_unique _ Hwf _ _ _ _ _ He1 He2).
  - intros k' v. rewrite lookup_insert_Some, Hrel. split.
    + intros [[<- <-]|[Hne [j' Hj']]].
      * exists j. apply Hcen. by left.
      * exists j'. apply Hcen. right. split; [|done]. intros [E ->]. rewrite E in Hj'. destruct Hj' as [_ Hj'].
        rewrite Hb in Hj'. injection Hj' as -> _. done.
    + intros [j' [(E1 & -> & E2)|[Hn Hj']]%Hcen]; [injection E2 as -> ->; by left|].
      destruct (decide (k = k')) as [<-|Hne]; [|by right; eauto].
      destruct Hn. split; [done|]. by eapply (cw_unique _ Hwf _ _ _ _ _ Hj' He).
Qed.

(** Making room. *)
Lemma check_size_ok c W i : cow_rel c W -> (i < COW_MAX)%nat ->
  exists c', COW_CHECK_SIZE c i = Ret c' /\ cow_rel c' W /\ c_heap c' = c_heap c /\
    (forall i, csize c' i = csize c i) /\ (csize c' i + 1 < length (bucket c' i))%nat /\
    (forall i j e, centry c' i j e <-> centry c i j e).
Proof.
  intros [Hwf Hrel] Hi. destruct (cw_room _ Hwf i Hi) as [Hr Hl]. unfold COW_CHECK_SIZE.
  rewrite (get_csize c i Hwf Hi). cbn [mbind outcome_bind].
  rewrite (arr_get_nth 0%nat) by (by rewrite (cw_maxs _ Hwf)). cbn [mbind outcome_bind]. fold (cmax c i).
  destruct (Nat.eqb_spec (csize c i + 1) (cmax c i)) as [E|E].
  2: { exists c. split_and!; try done. lia. }
  rewrite arr_set_lt by (by rewrite (cw_maxs _ Hwf)). cbn [mbind outcome_bind].
  rewrite get_bucket by done. cbn [mbind outcome_bind]. rewrite arr_set_lt by (by rewrite (cw_table _ Hwf)).
  cbn [mbind outcome_bind]. eexists. split; [done|]. set (c' := mk_cow _ _ _ _).
  pose proof (cw_table _ Hwf) as Ht. pose proof (cw_maxs _ Hwf) as Hm.
  assert (Hbk : forall i', bucket c' i' = if decide (i' = i) then bucket c i ++ replicate (cmax c i * 2 - length (bucket c i)) centry0
    else bucket c i') by (intros i'; apply bucket_insert; lia).
  assert (Hmx : forall i', cmax c' i' = if decide (i' = i) then (cmax c i * 2)%nat else cmax c i').
  { intros i'. unfold cmax at 1, c'. cbn [c_max_size]. case_decide as E'; [subst i'; apply nth_insert_eq; lia|].
    by apply nth_insert_ne. }
  assert (Hcen : forall i' j e, centry c' i' j e <-> centry c i' j e).
  { intros i' j e. unfold centry. change (csize c' i') with (csize c i'). rewrite Hbk. case_decide as E'; [|done]. subst i'.
    split; intros [Hj He]; (split; [done|]).
    - by rewrite lookup_app_l in He by lia.
    - by rewrite lookup_app_l by lia. }
  split_and!; try done.
  - split.
    + split; try done.
      * cbn. by rewrite length_insert.
      * apply (cw_sizes _ Hwf).
      * cbn. by rewrite length_insert.
      * apply (cw_base _ Hwf).
      * intros i' Hi'. destruct (cw_room _ Hwf i' Hi') as [? ?]. change (csize c' i') with (csize c i').
        rewrite Hbk, Hmx. case_decide as E'; [|done]. subst i'. rewrite length_app, length_replicate. lia.
      * intros i' j e He%Hcen. by apply (cw_key _ Hwf _ _ _ He).
      * intros i' j e He%Hcen. by apply (cw_value _ Hwf _ _ _ He).
      * intros i' j1 j2 e1 e2 He1%Hcen He2%Hcen. by apply (cw_unique _ Hwf i' j1 j2 e1 e2).
    + intros k w. rewrite Hrel. split; intros [j Hj]; exists j; by apply Hcen.
  - rewrite Hbk, decide_True by done. change (csize c' i) with (csize c i). rewrite length_app, length_replicate. lia.
Qed.

(** A new entry at the end of its bucket. *)
Lemma new_entry_rel c W k w : cow_rel c W -> W !! k = None -> valid_key (c_heap c) k -> 0 <= w < 2^64 ->
  (csize c (HASH k) + 1 < length (bucket c (HASH k)))%nat ->
  exists c1 c', set_csize c (HASH k) (csize c (HASH k) + 1) = Ret c1 /\ c_heap c1 = c_heap c /\
    set_entry c1 (HASH k) (csize c (HASH k)) (mk_ce k w) = Ret c' /\ c_heap c' = c_heap c /\
    cow_rel c' (<[k := w]> W) /\ centry c' (HASH k) (csize c (HASH k)) (mk_ce k w) /\
    (forall i, csize c' i = if decide (i = HASH k) then (csize c (HASH k) + 1)%nat else csize c i) /\
    (forall i j e, centry c' i j e <-> (i = HASH k /\ j = csize c (HASH k) /\ e = mk_ce k w) \/ centry c i j e).
Proof.
  intros [Hwf Hrel] HW Hvk Hw Hroom. pose proof (HASH_lt k) as Hk. pose proof (cw_table _ Hwf) as Ht.
  pose proof (cw_sizes _ Hwf) as Hs. unfold set_csize. rewrite arr_set_lt by lia. cbn [mbind outcome_bind].
  set (n := csize c (HASH k)) in *. set (c1 := mk_cow _ _ _ _). exists c1.
  unfold set_entry. change (c_table c1) with (c_table c). rewrite get_bucket by done. cbn [mbind outcome_bind].
  rewrite arr_set_lt by lia. cbn [mbind outcome_bind]. rewrite arr_set_lt by lia. cbn [mbind outcome_bind].
  set (c' := mk_cow _ _ _ _). exists c'. split; [done|]. split; [done|]. split; [done|]. split; [done|].
  assert (Hbk : forall i, bucket c' i = if decide (i = HASH k) then <[n := mk_ce k w]> (bucket c (HASH k)) else bucket c i)
    by (intros i; apply bucket_insert; lia).
  assert (Hsz : forall i, csize c' i = if decide (i = HASH k) then (n + 1)%nat else csize c i).
  { intros i. unfold csize, c', c1. cbn [c_sizes]. case_decide as E; [subst i; apply nth_insert_eq; lia|].
    by apply nth_insert_ne. }
  assert (Hcen : forall i j e, centry c' i j e <-> (i = HASH k /\ j = n /\ e = mk_ce k w) \/ centry c i j e).
  { intros i j e. unfold centry. rewrite Hbk, Hsz. destruct (decide (i = HASH k)) as [->|Hne].
    - rewrite list_lookup_insert_Some. split.
      + intros [Hlt [[<- [<- _]]|[Hn Hl]]]; [by left|]. right. split; [fold n; lia|done].
      + intros [(_ & -> & ->)|[Hlt Hl]]; [split; [lia|left; split_and!; [done|done|lia]]|].
        fold n in Hlt. split; [lia|]. right. split; [lia|done].
    - split; [by right|]. intros [(-> & _)|?]; done. }
  split; [|split_and!; [apply Hcen; by left|done|done]]. split.
  - split; try done.
    + cbn. by rewrite length_insert.
    + cbn. by rewrite length_insert.
    + apply (cw_maxs _ Hwf).
    + apply (cw_base _ Hwf).
    + intros i Hi. destruct (cw_room _ Hwf i Hi) as [? ?]. change (cmax c' i) with (cmax c i). rewrite Hbk, Hsz.
      case_decide as E; [|done]. subst i. rewrite length_insert. lia.
    + intros i j e [(-> & -> & ->)|He]%Hcen; [done|]. by apply (cw_key _ Hwf _ _ _ He).
    + intros i j e [(-> & -> & ->)|He]%Hcen; [done|]. by apply (cw_value _ Hwf _ _ _ He).
    + assert (Hno : forall j e, centry c (HASH k) j e -> ce_wkey e <> k).
      { intros j [k' v] He. cbn. intros ->. assert (W !! k = Some v) by (apply Hrel; eauto). congruence. }
      intros i j1 j2 e1 e2 [(-> & -> & ->)|He1]%Hcen [(Ei & -> & ->)|He2]%Hcen Hkk; try done.
      * by destruct (Hno _ _ He2).
      * subst i. by destruct (Hno _ _ He1).
      * by eapply (cw_unique _ Hwf _ _ _ _ _ He1 He2).
  - intros k' v. rewrite lookup_insert_Some, Hrel. split.
    + intros [[<- <-]|[Hne [j Hj]]]; [exists n|exists j]; apply Hcen; auto.
    + intros [j [(E1 & -> & E2)|Hj]%Hcen]; [injection E2 as -> ->; by left|].
      destruct (decide (k = k')) as [<-|Hne]; [|by right; eauto].
      assert (W !! k = Some v) by (apply Hrel; eauto). congruence.
Qed.

(** ** The virtual memory *)

(** [M] is [m] with the words of [W] written over it. *)
Definition overlay (hp : heap) W m M : Prop :=
  (forall k w, W !! k = Some w -> load 8 M (waddr hp k) = w) /\
  (forall b, W !! key_of hp b = None -> mget M b = mget m b).

Lemma overlay_load hp W m M t addr : base_ok hp -> overlay hp W m M -> aligned t addr ->
  W !! key_of hp addr = None -> load (sizeof t) M addr = load (sizeof t) m addr.
Proof.
  intros Hb [_ Hout] Ha HW. apply load_ext. intros b Hr. apply Hout.
  replace (key_of hp b) with (key_of hp addr); [done|]. symmetry. apply key_range. rewrite waddr_key by done.
  pose proof (aligned_in_word t addr Ha). pose proof (word_base_split addr). pose proof (Z.mod_pos_bound addr 8 ltac:(lia)).
  unfold in_range in *. lia.
Qed.

Lemma overlay_word hp W m M addr : base_ok hp -> overlay hp W m M ->
  default (load 8 m (word_base addr)) (W !! key_of hp addr) = load 8 M (word_base addr).
Proof.
  intros Hb Ho. destruct (W !! key_of hp addr) as [w|] eqn:E; cbn [from_option id].
  - rewrite <- (waddr_key hp addr Hb). symmetry. by apply Ho.
  - symmetry. apply load_ext. intros b Hr. apply Ho. replace (key_of hp b) with (key_of hp addr); [done|].
    symmetry. apply key_range. by rewrite waddr_key by done.
Qed.

(** A write to the virtual memory changes one word. *)
Lemma overlay_write hp W m M t addr v : base_ok hp -> overlay hp W m M -> aligned t addr ->
  overlay hp (<[key_of hp addr := wvax_set (load 8 M (word_base addr)) t addr v]> W) m (store (sizeof t) M addr v).
Proof.
  intros Hb [Hin Hout] Ha. pose proof (aligned_in_word t addr Ha). pose proof (word_base_split addr).
  pose proof (waddr_key hp addr Hb) as Hwk. pose proof (Z.mod_pos_bound addr 8 ltac:(lia)). split.
  - intros k w [[<- <-]|[Hne Hk]]%lookup_insert_Some.
    + rewrite Hwk. symmetry. by apply wvax_set_word.
    + rewrite load_store_disjoint; [by apply Hin|]. unfold waddr in *. unfold disjoint_range.
      assert (key_of hp addr < k \/ k < key_of hp addr) as [?|?] by lia; lia.
  - intros b [HW Hne]%lookup_insert_None. rewrite mget_store_out; [by apply Hout|].
    intros Hr. apply Hne. symmetry. apply key_range. rewrite Hwk. unfold in_range in *. lia.
Qed.

(** ** Reads and writes of the write-back buffer *)

Lemma cow_read_ok c W m M t addr : COW_WT = false -> cow_rel c W -> overlay (c_heap c) W m M ->
  aligned t addr -> valid_addr (c_heap c) addr -> cow_read t c m addr = Ret (load (sizeof t) M addr).
Proof.
  intros Hwb Hc Ho Ha Hv. pose proof (cw_base _ (proj1 Hc)) as Hb. unfold cow_read. rewrite Hwb, GETWKEY_ok by done.
  cbn [mbind outcome_bind]. destruct (cow_find_spec c W (key_of (c_heap c) addr) Hc) as (r & -> & Hr).
  cbn [mbind outcome_bind]. destruct r as [j|].
  - destruct Hr as (w & He & HW). rewrite (proj2 (Z.eqb_eq _ _)) by (by apply TYPEMASK_aligned).
    rewrite (get_entry_ok c _ _ _ (proj1 Hc) (HASH_lt _) (proj2 He)). cbn [mbind outcome_bind WVAL ce_wvalue]. f_equal.
    pose proof (overlay_word _ _ _ _ addr Hb Ho) as Hw. rewrite HW in Hw. cbn [from_option id] in Hw. rewrite Hw. by apply wvax_get_word.
  - f_equal. symmetry. by eapply overlay_load.
Qed.

Lemma load8_bound m a : 0 <= load 8 m a < 2^64.
Proof. pose proof (load_bound 8 m a). by change (256 ^ Z.of_nat 8) with (2^64) in *. Qed.

Lemma cow_write_ok c W m M t addr v : COW_WT = false -> cow_rel c W -> overlay (c_heap c) W m M ->
  aligned t addr -> valid_addr (c_heap c) addr ->
  exists c' W', cow_write t c m addr v = Ret (c', m) /\ cow_rel c' W' /\ c_heap c' = c_heap c /\
    overlay (c_heap c) W' m (store (sizeof t) M addr v).
Proof.
  intros Hwb Hc Ho Ha Hv. pose proof (cw_base _ (proj1 Hc)) as Hb. set (k := key_of (c_heap c) addr).
  pose proof (valid_key_of _ _ Hb Hv) as Hvk. fold k in Hvk.
  pose proof (overlay_word _ _ _ _ addr Hb Ho) as Hword. fold k in Hword.
  pose proof (overlay_write _ _ _ _ t addr v Hb Ho Ha) as Ho'. fold k in Ho'.
  assert (Hw' : 0 <= wvax_set (load 8 M (word_base addr)) t addr v < 2^64)
    by (rewrite wvax_set_word by done; apply load8_bound).
  unfold cow_write. rewrite (proj2 (Z.eqb_eq _ _)) by (by apply TYPEMASK_aligned). cbn [negb mbind outcome_bind].
  rewrite GETWKEY_ok by done. cbn [mbind outcome_bind]. fold k.
  destruct (cow_find_spec c W k Hc) as (r & -> & Hr). cbn [mbind outcome_bind].
  destruct r as [j|].
  - destruct Hr as (w & He & HW). rewrite HW in Hword. cbn [from_option id] in Hword. cbn [mbind outcome_bind]. rewrite Hwb.
    rewrite (get_entry_ok c _ _ _ (proj1 Hc) (HASH_lt _) (proj2 He)). unfold set_WVAL, WVAL. cbn [mbind outcome_bind ce_wkey ce_wvalue].
    rewrite Hword. destruct (update_entry_rel c W k j w _ Hc He Hw') as (c' & -> & Hc' & Hh & _).
    cbn [mbind outcome_bind]. eexists c', _. done.
  - rewrite Hr in Hword. cbn [from_option id] in Hword.
    destruct (check_size_ok c W (HASH k) Hc (HASH_lt k)) as (c1 & -> & Hc1 & Hh1 & Hs1 & Hroom & _). cbn [mbind outcome_bind].
    rewrite (get_csize c1 _ (proj1 Hc1) (HASH_lt k)). cbn [mbind outcome_bind].
    destruct (new_entry_rel c1 W k (load 8 m (word_base addr)) Hc1 Hr) as (c2 & c3 & -> & Hh2 & E3 & Hh3 & Hc3 & He3 & _);
      [by rewrite Hh1|apply load8_bound|done|]. cbn [mbind outcome_bind].
    rewrite Hh2, Hh1, GETWADDR_ok by done. cbn [mbind outcome_bind]. rewrite (waddr_key _ addr Hb : waddr _ k = _).
    rewrite E3. cbn [mbind outcome_bind]. rewrite Hwb.
    rewrite (get_entry_ok c3 _ _ _ (proj1 Hc3) (HASH_lt _) (proj2 He3)). unfold set_WVAL, WVAL. cbn [mbind outcome_bind ce_wkey ce_wvalue].
    rewrite Hword. destruct (update_entry_rel c3 _ k _ _ _ Hc3 He3 Hw') as (c' & -> & Hc' & Hh & _).
    cbn [mbind outcome_bind]. rewrite insert_insert_eq in Hc'. eexists c', _. split_and!; [done|done|congruence|done].
Qed.

(** ** Applying the buffer *)

(** Outside the table, and on the words of [D], the memory is already [M]. *)
Definition applied (hp : heap) W M (D : Z -> Prop) (mm : mem) : Prop :=
  forall b, W !! key_of hp b = None \/ D (key_of hp b) -> mget mm b = mget M b.

Lemma applied_step hp W m M D mm k w : overlay hp W m M -> applied hp W M D mm -> W !! k = Some w ->
  applied hp W M (fun x => D x \/ x = k) (store 8 mm (waddr hp k) w).
Proof.
  intros [Hin _] Ha HW b Hb. rewrite mget_store. case_decide as Hr.
  - rewrite <- (Hin k w HW). by apply load_byte.
  - apply Ha. assert (key_of hp b <> k) by (rewrite key_range; done). tauto.
Qed.

Lemma applied_ext hp W M (D D' : Z -> Prop) mm : (forall x, D x <-> D' x) -> applied hp W M D mm -> applied hp W M D' mm.
Proof. intros E Ha b Hb. apply Ha. rewrite E. done. Qed.

(** The keys of the first [j] entries of a bucket. *)
Definition keys_upto c (i j : nat) (x : Z) : Prop := exists j' e, (j' < j)%nat /\ centry c i j' e /\ ce_wkey e = x.

Lemma keys_upto_S c i j e x : centry c i j e ->
  keys_upto c i (j + 1) x <-> keys_upto c i j x \/ x = ce_wkey e.
Proof.
  intros He. split.
  - intros (j' & e' & Hj & He' & <-). destruct (decide (j' = j)) as [->|]; [|left; exists j', e'; split; [lia|done]].
    right. destruct He as [_ He], He' as [_ He']. congruence.
  - intros [(j' & e' & Hj & He' & <-)| ->]; [exists j', e'; split; [lia|done]|]. exists j, e. split; [lia|done].
Qed.

Lemma cow_rel_entry c W i j e : cow_rel c W -> centry c i j e ->
  W !! ce_wkey e = Some (ce_wvalue e) /\ valid_key (c_heap c) (ce_wkey e).
Proof.
  intros [Hwf Hrel] He. destruct (cw_key _ Hwf _ _ _ He) as [<- Hv]. split; [|done].
  apply Hrel. exists j. by destruct e.
Qed.

(** The words of bucket [i] are applied when the keys of the first [n] are. *)
Lemma keys_upto_full c W i k w : cow_rel c W -> W !! k = Some w -> HASH k = i -> keys_upto c i (csize c i) k.
Proof. intros [_ Hrel] HW <-. apply Hrel in HW as [j Hj]. exists j, (mk_ce k w). split; [apply Hj|done]. Qed.

(** The buffer after the first [i] buckets have been emptied. *)
Record zeroed c (i : nat) c' : Prop := {
  ze_table : c_table c' = c_table c;
  ze_max : c_max_size c' = c_max_size c;
  ze_heap : c_heap c' = c_heap c;
  ze_len : length (c_sizes c') = length (c_sizes c);
  ze_size : forall i', csize c' i' = if decide (i' < i)%nat then 0%nat else csize c i';
}.

Lemma zeroed_0 c : zeroed c 0 c.
Proof. by split. Qed.

Lemma zeroed_step c i c' c'' : zeroed c i c' -> set_csize c' i 0 = Ret c'' -> zeroed c (i + 1) c''.
Proof.
  intros [] E. unfold set_csize in E. inv_outcome. split; cbn; try done.
  - by rewrite length_insert.
  - intros i'. unfold csize at 1. cbn. destruct (decide (i = i')) as [<-|Hne].
    + rewrite nth_insert_eq by done. by rewrite decide_True by lia.
    + rewrite nth_insert_ne by done. fold (csize c' i'). rewrite ze_size0.
      destruct (decide (i' < i)%nat), (decide (i' < i + 1)%nat); try done; lia.
Qed.

Lemma zeroed_skip c i c' : zeroed c i c' -> csize c i = 0%nat -> zeroed c (i + 1) c'.
Proof.
  intros [] E. split; try done. intros i'. rewrite ze_size0.
  destruct (decide (i' < i)%nat), (decide (i' < i + 1)%nat); try done; try lia. by replace i' with i by lia.
Qed.

Lemma zeroed_all c W c' : cow_rel c W -> zeroed c COW_MAX c' -> cow_rel c' ∅.
Proof.
  intros [Hwf _] []. assert (Hno : forall i j e, ~ centry c' i j e).
  { intros i j e [Hj He]. rewrite ze_size0 in Hj. case_decide; [lia|]. unfold bucket in He.
    rewrite ze_table0, nth_overflow in He; [by rewrite lookup_nil in He|]. rewrite (cw_table _ Hwf). lia. }
  split.
  - split; try (intros; exfalso; by eapply Hno).
    + by rewrite ze_table0, (cw_table _ Hwf).
    + by rewrite ze_len0, (cw_sizes _ Hwf).
    + by rewrite ze_max0, (cw_maxs _ Hwf).
    + rewrite ze_heap0. apply (cw_base _ Hwf).
    + intros i Hi. destruct (cw_room _ Hwf i Hi) as [? ?]. rewrite ze_size0, decide_True by done.
      unfold cmax, bucket. rewrite ze_max0, ze_table0. fold (cmax c i) (bucket c i). split; [lia|done].
  - intros k w. rewrite lookup_empty. split; [done|]. intros [j Hj]. by destruct (Hno _ _ _ Hj).
Qed.

Lemma zeroed_get c c' i j : zeroed c i c' -> get_entry c' i j = get_entry c i j.
Proof. intros []. unfold get_entry. by rewrite ze_table0. Qed.

(** Done with the buckets before [i]. *)
Definition done_upto (i : nat) (x : Z) : Prop := (HASH x < i)%nat.

Lemma applied_bucket c W M i mm : cow_rel c W ->
  applied (c_heap c) W M (fun x => done_upto i x \/ keys_upto c i (csize c i) x) mm ->
  applied (c_heap c) W M (done_upto (i + 1)) mm.
Proof.
  intros Hc Ha b [HW|Hd]; [apply Ha; by left|]. apply Ha. destruct (W !! key_of (c_heap c) b) as [w|] eqn:E; [|by left].
  right. unfold done_upto in *. destruct (decide (HASH (key_of (c_heap c) b) = i)) as [Hi|]; [|left; lia].
  right. by eapply keys_upto_full.
Qed.

Lemma applied_all hp W M mm : applied hp W M (done_upto COW_MAX) mm -> mm ≈ M.
Proof. intros Ha b. apply Ha. right. apply HASH_lt. Qed.

Lemma overlay_applied hp W m M : overlay hp W m M -> applied hp W M (done_upto 0) m.
Proof. intros [_ Ho] b [HW|Hd]; [symmetry; by apply Ho|]. unfold done_upto in Hd. lia. Qed.

Lemma cow_apply_ok c W m M : cow_rel c W -> overlay (c_heap c) W m M ->
  exists c' m', cow_apply c m = Ret (c', m') /\ m' ≈ M /\ cow_rel c' ∅.
Proof.
  intros Hc Ho. pose proof Hc as [Hwf _]. unfold cow_apply.
  run_loop (fun i (st : cow * mem) => zeroed c i st.1 /\ applied (c_heap c) W M (done_upto i) st.2) st Hst.
  { split; [apply zeroed_0|by apply overlay_applied]. }
  2: { destruct st as [c' m'], Hst as [Hz Ha]. exists c', m'. split_and!; [done|by eapply applied_all|by eapply zeroed_all]. }
  intros i [c1 mm] Hi [Hz Ha]. cbn [fst snd] in *.
  rewrite (arr_get_nth 0%nat) by (rewrite (ze_len _ _ _ Hz), (cw_sizes _ Hwf); lia). cbn [mbind outcome_bind].
  fold (csize c1 i). rewrite (ze_size _ _ _ Hz), decide_False by lia.
  run_loop (fun j (mm : mem) => applied (c_heap c) W M (fun x => done_upto i x \/ keys_upto c i j x) mm) m2 Hm2.
  { eapply applied_ext; [|exact Ha]. intros x. split; [by left|]. intros [?|(j' & e & Hj & _)]; [done|lia]. }
  2: { unfold set_csize. rewrite arr_set_lt by (rewrite (ze_len _ _ _ Hz), (cw_sizes _ Hwf); lia). cbn [mbind outcome_bind].
       eexists. split; [done|]. cbn [fst snd]. split; [|by apply applied_bucket].
       eapply zeroed_step; [done|]. unfold set_csize.
       by rewrite arr_set_lt by (rewrite (ze_len _ _ _ Hz), (cw_sizes _ Hwf); lia). }
  intros j m1 Hj Hm1. destruct (centry_lt c i j Hwf) as [e He]; [lia|lia|]. unfold apply_entry.
  rewrite (zeroed_get _ _ _ _ Hz), (get_entry_ok c i j e Hwf) by (lia || apply He). cbn [mbind outcome_bind].
  destruct (cow_rel_entry _ _ _ _ _ Hc He) as [HW Hv]. rewrite (ze_heap _ _ _ Hz), GETWADDR_ok by (done || apply Hwf).
  cbn [mbind outcome_bind]. eexists. split; [done|]. eapply applied_ext; [|by eapply applied_step].
  intros x. rewrite (keys_upto_S c i j e x He). tauto.
Qed.

(** ** Comparing and applying two buffers *)

Lemma get_entry_Ret c i j e : cow_wf c -> (i < COW_MAX)%nat -> (j < csize c i)%nat -> get_entry c i j = Ret e -> centry c i j e.
Proof.
  intros Hwf Hi Hj E. destruct (centry_lt c i j Hwf Hi Hj) as [e' He].
  rewrite (get_entry_ok c i j e' Hwf Hi (proj2 He)) in E. by injection E as <-.
Qed.

Section Cmp.
Context (c1 c2 : cow) (W1 W2 : gmap Z Z) (m M1 M2 : mem) (hp : heap).
Context (Hwb : COW_WT = false) (Hc1 : cow_rel c1 W1) (Hc2 : cow_rel c2 W2).
Context (Hh1 : c_heap c1 = hp) (Hh2 : c_heap c2 = hp).
Context (Ho1 : overlay hp W1 m M1) (Ho2 : overlay hp W2 m M2).

(** Both buffers are applied up to the keys [D]. *)
Definition applied2 (D1 D2 : Z -> Prop) (mm : mem) : Prop := applied hp W1 M1 D1 mm /\ applied hp W2 M2 D2 mm.

Lemma cmp_bucket_inv i c1' c2' mm mm' : (i < COW_MAX)%nat -> zeroed c1 i c1' -> zeroed c2 i c2' ->
  csize c1 i = csize c2 i -> applied2 (done_upto i) (done_upto i) mm ->
  for_range (csize c1 i) 0 (fun j m => cmp_centry c1' c2' i j m) mm = Ret mm' ->
  applied2 (done_upto (i + 1)) (done_upto (i + 1)) mm'.
Proof using All.
  intros Hi Hz1 Hz2 Hn Ha E. pose proof Hc1 as [Hwf1 _]. pose proof Hc2 as [Hwf2 _].
  apply (for_range_invariant (fun j mm => applied2 (fun x => done_upto i x \/ keys_upto c1 i j x)
    (fun x => done_upto i x \/ keys_upto c2 i j x) mm)) in E.
  - destruct E as [E1 E2]. cbn [Nat.add] in *. split.
    + rewrite <- Hh1 in *. by apply applied_bucket.
    + rewrite Hn in E2. rewrite <- Hh2 in *. by apply applied_bucket.
  - destruct Ha as [Ha1 Ha2]. split; (eapply applied_ext; [|eassumption]); intros x; (split; [by left|]);
      intros [?|(j' & e & Hj & _)]; (done || lia).
  - clear Ha E mm mm'. intros j mm mm' Hj [Ha1 Ha2] E. unfold cmp_centry in E. rewrite Hwb in E.
    apply bind_Ret in E as (e1 & E1 & E). apply bind_Ret in E as (e2 & E2 & E). inv_outcome.
    rewrite (zeroed_get _ _ _ _ Hz1) in E1. rewrite (zeroed_get _ _ _ _ Hz2) in E2.
    apply get_entry_Ret in E1; [|done|done|lia]. apply get_entry_Ret in E2; [|done|done|lia].
    repeat match goal with X : (_ =? _) = true |- _ => apply Z.eqb_eq in X end. unfold WVAL in *.
    destruct (cow_rel_entry _ _ _ _ _ Hc1 E1) as [HW1 Hv1]. destruct (cow_rel_entry _ _ _ _ _ Hc2 E2) as [HW2 Hv2].
    match goal with X : GETWADDR _ _ = Ret _ |- _ => rewrite (ze_heap _ _ _ Hz1), GETWADDR_ok in X by (done || apply Hwf1);
      injection X as <- end.
    match goal with X : ce_wkey e1 = ce_wkey e2 |- _ => rename X into Hk end.
    match goal with X : ce_wvalue e1 = ce_wvalue e2 |- _ => rename X into Hv end. rewrite Hh1. split.
    + eapply applied_ext; [|by eapply applied_step]. intros x. rewrite (keys_upto_S _ _ _ _ _ E1). tauto.
    + rewrite Hk, Hv. eapply applied_ext; [|by eapply applied_step]. intros x. rewrite (keys_upto_S _ _ _ _ _ E2). tauto.
Qed.

Lemma cow_apply_cmp_inv c1' c2' m' : cow_apply_cmp c1 c2 m = Ret (c1', c2', m') ->
  m' ≈ M1 /\ m' ≈ M2 /\ cow_rel c1' ∅ /\ cow_rel c2' ∅.
Proof using All.
  intros E. unfold cow_apply_cmp in E. pose proof Hc1 as [Hwf1 _]. pose proof Hc2 as [Hwf2 _].
  apply (for_range_invariant (fun i (st : cow * cow * mem) => zeroed c1 i st.1.1 /\ zeroed c2 i st.1.2 /\
    applied2 (done_upto i) (done_upto i) st.2)) in E.
  - destruct E as (Hz1 & Hz2 & Ha1 & Ha2). cbn in *. split_and!.
    + by eapply applied_all.
    + by eapply applied_all.
    + exact (zeroed_all _ _ _ Hc1 Hz1).
    + exact (zeroed_all _ _ _ Hc2 Hz2).
  - cbn. split_and!; [apply zeroed_0|apply zeroed_0|split; by apply overlay_applied].
  - clear E c1' c2' m'. intros i [[d1 d2] mm] [[d1' d2'] mm'] Hi (Hz1 & Hz2 & Ha) E. cbn [fst snd] in *.
    rewrite (arr_get_nth 0%nat (c_sizes d1)) in E by (rewrite (ze_len _ _ _ Hz1), (cw_sizes _ Hwf1); lia). cbn [mbind outcome_bind] in E.
    rewrite (arr_get_nth 0%nat (c_sizes d2)) in E by (rewrite (ze_len _ _ _ Hz2), (cw_sizes _ Hwf2); lia). cbn [mbind outcome_bind] in E.
    fold (csize d1 i) (csize d2 i) in E. rewrite (ze_size _ _ _ Hz1), (ze_size _ _ _ Hz2), !decide_False in E by lia.
    apply bind_Ret in E as (u & Hn & E). apply fail_ifn_Ret, Nat.eqb_eq in Hn.
    destruct (Nat.eqb_spec (csize c1 i) 0) as [Hz|Hnz].
    + injection E as <- <- <-. split_and!; [by apply zeroed_skip|by apply zeroed_skip; congruence|].
      eapply (cmp_bucket_inv i d1 d2 mm mm); try done; [lia|]. by rewrite Hz.
    + apply bind_Ret in E as (m2 & Em & E). apply bind_Ret in E as (d2'' & E2 & E). apply bind_Ret in E as (d1'' & E1 & E).
      injection E as <- <- <-. split_and!; [by eapply zeroed_step|by eapply zeroed_step|].
      eapply (cmp_bucket_inv i d1 d2 mm m2); try done; lia.
Qed.

End Cmp.

(** Equal buffers are accepted. *)
Lemma cow_apply_cmp_same c W m : COW_WT = false -> cow_rel c W -> exists r, cow_apply_cmp c c m = Ret r.
Proof.
  intros Hwb Hc. pose proof Hc as [Hwf _]. unfold cow_apply_cmp.
  run_loop (fun i (st : cow * cow * mem) => st.1.1 = st.1.2 /\ zeroed c i st.1.1) st Hst; [split; [done|apply zeroed_0]| |eauto].
  intros i [[d1 d2] mm] Hi [Heq Hz]. cbn [fst snd] in *. subst d2.
  rewrite (arr_get_nth 0%nat) by (rewrite (ze_len _ _ _ Hz), (cw_sizes _ Hwf); lia). cbn [mbind outcome_bind].
  fold (csize d1 i). rewrite (ze_size _ _ _ Hz), decide_False by lia. rewrite Nat.eqb_refl. cbn [fail_ifn mbind outcome_bind].
  destruct (Nat.eqb_spec (csize c i) 0) as [E|E]; [eexists; split; [done|]; split; [done|by apply zeroed_skip]|].
  run_loop (fun (_ : nat) (_ : mem) => True) m2 Hm2; [done| |].
  - intros j m1 Hj _. destruct (centry_lt c i j Hwf) as [e He]; [lia|lia|]. unfold cmp_centry.
    rewrite (zeroed_get _ _ _ _ Hz), (get_entry_ok c i j e Hwf) by (lia || apply He). cbn [mbind outcome_bind].
    rewrite !Z.eqb_refl, Hwb. cbn [fail_ifn mbind outcome_bind]. destruct (cow_rel_entry _ _ _ _ _ Hc He) as [_ Hv].
    rewrite (ze_heap _ _ _ Hz), GETWADDR_ok by (done || apply Hwf). cbn. eauto.
  - unfold set_csize. rewrite arr_set_lt by (rewrite (ze_len _ _ _ Hz), (cw_sizes _ Hwf); lia). cbn [mbind outcome_bind].
    eexists. split; [done|]. cbn [fst snd]. split; [done|]. eapply zeroed_step; [done|]. unfold set_csize.
    by rewrite arr_set_lt by (rewrite (ze_len _ _ _ Hz), (cw_sizes _ Hwf); lia).
Qed.

(** ** Properties *)

(** A sequence of writes. *)
Fixpoint cow_writes (ws : list wr) c m : outcome (cow * mem) :=
  match ws with
  | [] => Ret (c, m)
  | w :: ws' => '(c, m) ← cow_write (w_ty w) c m (w_addr w) (w_val w); cow_writes ws' c m
  end.

Definition wr_ok (hp : heap) (w : wr) : Prop := aligned (w_ty w) (w_addr w) /\ valid_addr hp (w_addr w).

Lemma cow_init_rel hp n : base_ok hp -> (0 < n)%nat -> cow_rel (cow_init hp n) ∅.
Proof.
  intros Hb Hn. assert (Hs : forall i, csize (cow_init hp n) i = 0%nat).
  { intros i. unfold csize, cow_init. cbn [c_sizes]. rewrite nth_lookup. destruct (_ !! i) eqn:E; [|done].
    by apply lookup_replicate in E as [-> _]. }
  assert (Hno : forall i j e, ~ centry (cow_init hp n) i j e) by (intros i j e [Hj _]; rewrite Hs in Hj; lia).
  split.
  - split; try (intros; exfalso; by eapply Hno); try (unfold cow_init; cbn [c_table c_sizes c_max_size c_heap]; by rewrite ?length_replicate).
    intros i Hi. rewrite Hs. unfold cmax, bucket, cow_init. cbn [c_table c_max_size].
    rewrite !nth_lookup, !lookup_replicate_2 by done. cbn. by rewrite length_replicate.
  - intros k w. rewrite lookup_empty. split; [done|]. intros [j Hj]. by destruct (Hno _ _ _ Hj).
Qed.

Lemma cow_writes_ok ws : forall c W m M, COW_WT = false -> cow_rel c W -> overlay (c_heap c) W m M ->
  Forall (wr_ok (c_heap c)) ws ->
  exists c' W', cow_writes ws c m = Ret (c', m) /\ cow_rel c' W' /\ c_heap c' = c_heap c /\
    overlay (c_heap c) W' m (replay ws M).
Proof.
  induction ws as [|w ws IH]; intros c W m M Hwb Hc Ho Hws; cbn [cow_writes]; [eauto 10|].
  apply Forall_cons in Hws as [[Ha Hv] Hws].
  destruct (cow_write_ok c W m M (w_ty w) (w_addr w) (w_val w) Hwb Hc Ho Ha Hv) as (c1 & W1 & -> & Hc1 & Hh1 & Ho1).
  cbn [mbind outcome_bind]. rewrite <- Hh1 in Ho1, Hws |- *.
  apply (IH c1 W1 m _ Hwb Hc1 Ho1 Hws).
Qed.

Lemma overlay_empty hp m : overlay hp ∅ m m.
Proof. split; [|done]. intros k w Hk. by rewrite lookup_empty in Hk. Qed.

(** C22.  The write-back buffer is transparent: after any sequence of aligned
    writes the memory is unchanged, every aligned read through the buffer returns
    what it would return had the writes gone to memory, and applying the buffer
    produces exactly that memory and empties the buffer. *)
Theorem cow_write_back_refines hp n ws m : COW_WT = false -> base_ok hp -> (0 < n)%nat -> Forall (wr_ok hp) ws ->
  exists c, cow_writes ws (cow_init hp n) m = Ret (c, m) /\
    (forall t addr, aligned t addr -> valid_addr hp addr ->
       cow_read t c m addr = Ret (load (sizeof t) (replay ws m) addr)) /\
    exists c' m', cow_apply c m = Ret (c', m') /\ m' ≈ replay ws m /\ cow_rel c' ∅.
Proof.
  intros Hwb Hb Hn Hws.
  destruct (cow_writes_ok ws (cow_init hp n) ∅ m m Hwb (cow_init_rel hp n Hb Hn) (overlay_empty _ _) Hws)
    as (c & W & E & Hc & Hh & Ho). cbn [cow_init c_heap] in Hh, Ho. rewrite <- Hh in Ho.
  exists c. split; [done|]. split.
  - intros t addr Ha Hv. eapply cow_read_ok; try done. by rewrite Hh.
  - by eapply cow_apply_ok.
Qed.

(** C23.  Commit of the write-back mode: two executions that wrote the same are
    always accepted, and whatever the two executions wrote, when the comparison
    returns the memory is the one each of them alone would have produced.  (Writes are
    aligned and in the address range of the table; only the debug build refuses others.) *)
Theorem cow_apply_cmp_correct hp n ws1 ws2 m : COW_WT = false -> base_ok hp -> (0 < n)%nat ->
  Forall (wr_ok hp) ws1 -> Forall (wr_ok hp) ws2 ->
  exists c1 c2, cow_writes ws1 (cow_init hp n) m = Ret (c1, m) /\ cow_writes ws2 (cow_init hp n) m = Ret (c2, m) /\
    (ws1 = ws2 -> exists r, cow_apply_cmp c1 c2 m = Ret r) /\
    forall c1' c2' m', cow_apply_cmp c1 c2 m = Ret (c1', c2', m') ->
      m' ≈ replay ws1 m /\ m' ≈ replay ws2 m /\ cow_rel c1' ∅ /\ cow_rel c2' ∅.
Proof.
  intros Hwb Hb Hn Hws1 Hws2.
  destruct (cow_writes_ok ws1 (cow_init hp n) ∅ m m Hwb (cow_init_rel hp n Hb Hn) (overlay_empty _ _) Hws1)
    as (c1 & W1 & E1 & Hc1 & Hh1 & Ho1).
  destruct (cow_writes_ok ws2 (cow_init hp n) ∅ m m Hwb (cow_init_rel hp n Hb Hn) (overlay_empty _ _) Hws2)
    as (c2 & W2 & E2 & Hc2 & Hh2 & Ho2). cbn [cow_init c_heap] in *.
  exists c1, c2. split; [done|]. split; [done|]. split.
  - intros ->. rewrite E1 in E2. injection E2 as ->. by eapply cow_apply_cmp_same.
  - intros c1' c2' m' E. by eapply (cow_apply_cmp_inv c1 c2 W1 W2 m).
Qed.

End CowProps.

(** ** Witnesses *)

Definition demo_wb : CowBuild := {| HEAP_MODE := false; COW_WT := false |}.
Definition no_heap : heap := mk_heap 0 0 [] 0.
Definition demo_cow_ws : list wr := [mk_wr uint32_t 100 7; mk_wr uint8_t 103 9; mk_wr uint64_t 2048 5].

Lemma demo_base_ok : @base_ok demo_wb no_heap.
Proof. by split. Qed.

Lemma demo_wr_ok : Forall (@wr_ok demo_wb no_heap) demo_cow_ws.
Proof. repeat constructor; vm_compute; congruence. Qed.

Lemma cow_write_back_refines_witness :
  let _ := debug_build 2 in let _ := demo_wb in
  exists c, cow_writes demo_cow_ws (cow_init no_heap 2) ∅ = Ret (c, ∅) /\
    cow_read uint32_t c ∅ 100 = Ret 0x09000007 /\
    exists c' m', cow_apply c ∅ = Ret (c', m') /\ m' ≈ replay demo_cow_ws ∅.
Proof.
  intros B C. assert (HW : @COW_WT C = false) by reflexivity.
  destruct (cow_write_back_refines no_heap 2 demo_cow_ws ∅ HW demo_base_ok ltac:(lia) demo_wr_ok)
    as (c & E & Hread & c' & m' & Ea & Hm & _).
  exists c. split; [exact E|]. split; [|exists c', m'; split; [exact Ea|exact Hm]].
  rewrite (Hread uint32_t 100); [vm_compute; reflexivity|vm_compute; reflexivity|vm_compute; split; congruence].
Defined.

Lemma cow_apply_cmp_correct_witness :
  let _ := debug_build 2 in let _ := demo_wb in
  exists c1 c2, cow_writes demo_cow_ws (cow_init no_heap 2) ∅ = Ret (c1, ∅) /\
    cow_writes demo_cow_ws (cow_init no_heap 2) ∅ = Ret (c2, ∅) /\
    exists r, cow_apply_cmp c1 c2 ∅ = Ret r.
Proof.
  intros B C. assert (HW : @COW_WT C = false) by reflexivity.
  destruct (cow_apply_cmp_correct no_heap 2 demo_cow_ws demo_cow_ws ∅ HW demo_base_ok ltac:(lia)
    demo_wr_ok demo_wr_ok) as (c1 & c2 & E1 & E2 & Hsame & _).
  exists c1, c2. split; [exact E1|]. split; [exact E2|]. exact (Hsame eq_refl).
Defined.
