(* ===== verification/CowWt.v ===== *)
(** * The word hash table in write-through mode

    With COW_WT the table holds the words before the first write of the phase:
    it is an overlay that turns the current memory back into the one before.
    [cow_swap] exchanges the two, so that the next phase starts from the same
    memory, and the comparison at the commit checks the memory against the words
    the first phase left. *)

From S2P Require Export CowProps.

Section CowWt.
Context `{Build} `{CowBuild}.
Context (Hwt : COW_WT = true).
Implicit Types (c : cow) (m M : mem) (W : gmap Z Z).

(** ** Writing through *)

Lemma overlay_store hp W m M t addr v : base_ok hp -> overlay hp W m M -> aligned t addr ->
  is_Some (W !! key_of hp addr) -> overlay hp W (store (sizeof t) m addr v) M.
Proof.
  intros Hb [Hin Hout] Ha [w HW]. split; [done|]. intros b Hn. rewrite mget_store_out; [by apply Hout|].
  intros Hr. assert (key_of hp b = key_of hp addr); [|congruence]. apply key_range. rewrite waddr_key by done.
  pose proof (aligned_in_word t addr Ha). pose proof (word_base_split addr). pose proof (Z.mod_pos_bound addr 8 ltac:(lia)).
  unfold in_range in *. lia.
Qed.

Lemma overlay_insert_same hp W m M k : overlay hp W m M ->
  overlay hp (<[k := load 8 M (waddr hp k)]> W) m M.
Proof.
  intros [Hin Hout]. split.
  - intros k' w [[<- <-]|[_ Hk]]%lookup_insert_Some; [done|by apply Hin].
  - intros b [HW _]%lookup_insert_None. by apply Hout.
Qed.

Lemma cow_write_wt c W m M t addr v : cow_rel c W -> overlay (c_heap c) W m M ->
  aligned t addr -> valid_addr (c_heap c) addr ->
  exists c' W', cow_write t c m addr v = Ret (c', store (sizeof t) m addr v) /\ cow_rel c' W' /\ c_heap c' = c_heap c /\
    overlay (c_heap c) W' (store (sizeof t) m addr v) M.
Proof using Hwt.
  intros Hc Ho Ha Hv. pose proof (cw_base _ (proj1 Hc)) as Hb. set (k := key_of (c_heap c) addr).
  pose proof (valid_key_of _ _ Hb Hv) as Hvk. fold k in Hvk.
  pose proof (overlay_word _ _ _ _ addr Hb Ho) as Hword. fold k in Hword.
  unfold cow_write. rewrite (proj2 (Z.eqb_eq _ _)) by (by apply TYPEMASK_aligned). cbn [negb mbind outcome_bind].
  rewrite GETWKEY_ok by done. cbn [mbind outcome_bind]. fold k.
  destruct (cow_find_spec c W k Hc) as (r & -> & Hr). cbn [mbind outcome_bind].
  destruct r as [j|].
  - destruct Hr as (w & _ & HW). cbn [mbind outcome_bind]. rewrite Hwt. exists c, W. split_and!; try done.
    apply overlay_store; [done|done|done|by exists w].
  - rewrite Hr in Hword. cbn [from_option id] in Hword.
    destruct (check_size_ok c W (HASH k) Hc (HASH_lt k)) as (c1 & -> & Hc1 & Hh1 & Hs1 & Hroom & _). cbn [mbind outcome_bind].
    rewrite (get_csize c1 _ (proj1 Hc1) (HASH_lt k)). cbn [mbind outcome_bind].
    destruct (new_entry_rel c1 W k (load 8 m (word_base addr)) Hc1 Hr) as (c2 & c3 & -> & Hh2 & E3 & Hh3 & Hc3 & He3 & _);
      [by rewrite Hh1|apply load8_bound|done|]. cbn [mbind outcome_bind].
    rewrite Hh2, Hh1, GETWADDR_ok by done. cbn [mbind outcome_bind]. rewrite (waddr_key _ addr Hb : waddr _ k = _).
    rewrite E3. cbn [mbind outcome_bind]. rewrite Hwt. eexists c3, _. split_and!; [done|done|congruence|].
    apply overlay_store; [done| |done|rewrite lookup_insert_eq; eauto].
    rewrite Hword, <- (waddr_key _ addr Hb : waddr _ k = _). by apply overlay_insert_same.
Qed.

(** ** The swap *)

(** Entry [(i', j')] comes before [(i, j)] in the order of the loops. *)
Definition before (i j i' j' : nat) : Prop := (i' < i)%nat \/ (i' = i /\ (j' < j)%nat).

#[local] Instance before_dec i j i' j' : Decision (before i j i' j').
Proof. unfold before. apply _. Defined.

Section Swap.
Context (c : cow) (W : gmap Z Z) (m M : mem).
Context (Hc : cow_rel c W) (Ho : overlay (c_heap c) W m M).
Abbreviation hp := (c_heap c).

(** The state of the loops when the entries before [(i, j)] are exchanged. *)
Record swapping (i j : nat) (st : cow * mem) : Prop := {
  sp_rel : exists W', cow_rel st.1 W';
  sp_heap : c_heap st.1 = hp;
  sp_size : forall i', csize st.1 i' = csize c i';
  sp_entry : forall i' j' e, centry c i' j' e -> centry st.1 i' j'
    (if decide (before i j i' j') then mk_ce (ce_wkey e) (load 8 m (waddr hp (ce_wkey e))) else e);
  sp_done : forall b i' j' e, centry c i' j' e -> ce_wkey e = key_of hp b -> before i j i' j' -> mget st.2 b = mget M b;
  sp_todo : forall b, (forall i' j' e, centry c i' j' e -> ce_wkey e = key_of hp b -> ~ before i j i' j') ->
    mget st.2 b = mget m b;
}.

Lemma entry_key_unique i1 j1 e1 i2 j2 e2 : centry c i1 j1 e1 -> centry c i2 j2 e2 -> ce_wkey e1 = ce_wkey e2 ->
  i1 = i2 /\ j1 = j2.
Proof using Hc.
  intros H1 H2 Hk. pose proof (cw_key _ (proj1 Hc) _ _ _ H1) as [Hh1 _]. pose proof (cw_key _ (proj1 Hc) _ _ _ H2) as [Hh2 _].
  assert (Hi : i2 = i1) by congruence. rewrite Hi in H2. split; [done|]. exact (cw_unique _ (proj1 Hc) _ _ _ _ _ H1 H2 Hk).
Qed.

Lemma swap_step i j st : (i < COW_MAX)%nat -> (j < csize c i)%nat -> swapping i j st ->
  exists st', swap_centry i j st = Ret st' /\ swapping i (j + 1) st'.
Proof using Hc Ho.
  intros Hi Hj [[W' HW'] Hh Hsz Hen Hdone Htodo]. destruct st as [c' mm]. cbn [fst snd] in *.
  destruct (centry_lt c i j (proj1 Hc) Hi Hj) as [e He]. pose proof (cow_rel_entry _ _ _ _ _ Hc He) as [HW Hvk].
  pose proof (Hen i j e He) as He'. rewrite decide_False in He' by (unfold before; lia).
  pose proof (cw_base _ (proj1 Hc)) as Hb. pose proof (cw_key _ (proj1 Hc) _ _ _ He) as [Hhash _].
  set (k := ce_wkey e) in *.
  assert (Hval : load 8 mm (waddr hp k) = load 8 m (waddr hp k)).
  { apply load_ext. intros b Hr. apply Htodo. intros i' j' e' Hx Hk' Hbef. apply key_range in Hr.
    destruct (entry_key_unique _ _ _ _ _ _ Hx He) as [-> ->]; [by rewrite Hk', Hr|]. unfold before in Hbef. lia. }
  unfold swap_centry. rewrite (get_entry_ok c' i j e (proj1 HW') Hi (proj2 He')). cbn [mbind outcome_bind].
  rewrite Hh. fold k. rewrite GETWADDR_ok by done. cbn [mbind outcome_bind]. rewrite Hval.
  destruct e as [k0 w]. cbn in k, HW. subst k. unfold set_WVAL, WVAL. cbn [ce_wkey ce_wvalue] in *. rewrite <- Hhash in He'.
  destruct (update_entry_rel c' W' k0 j w (load 8 m (waddr hp k0)) HW' He' (load8_bound _ _))
    as (c'' & Es & Hrel'' & Hh'' & Hsz'' & Hnew & Hold). rewrite Hhash in Es. rewrite Es. cbn [mbind outcome_bind].
  eexists. split; [done|]. split; cbn [fst snd].
  - eauto.
  - congruence.
  - intros i'. by rewrite Hsz''.
  - intros i' j' e' Hx. specialize (Hen _ _ _ Hx). destruct (decide (i' = i /\ j' = j)) as [[-> ->]|Hne].
    + rewrite decide_True by (unfold before; lia). destruct Hx as [_ Hx], He as [_ He]. rewrite He in Hx. injection Hx as <-.
      by rewrite Hhash in Hnew.
    + replace (if decide (before i (j + 1) i' j') then _ else _) with
        (if decide (before i j i' j') then mk_ce (ce_wkey e') (load 8 m (waddr hp (ce_wkey e'))) else e');
        [apply Hold; [done|by rewrite Hhash]|].
      destruct (decide (before i j i' j')), (decide (before i (j + 1) i' j')); try done; unfold before in *; lia.
  - intros b i' j' e' Hx Hk' Hbef. rewrite mget_store. case_decide as Hr.
    + rewrite <- (proj1 Ho k0 w HW). by apply load_byte.
    + apply (Hdone b i' j' e' Hx Hk'). destruct (decide (i' = i /\ j' = j)) as [[-> ->]|Hne]; [|unfold before in *; lia].
      destruct Hr. apply key_range. destruct Hx as [_ Hx], He as [_ He]. rewrite He in Hx. by injection Hx as <-.
  - intros b Hb'. rewrite mget_store_out.
    + apply Htodo. intros i' j' e' Hx Hk' Hbef. apply (Hb' i' j' e' Hx Hk'). unfold before in *. lia.
    + intros Hr. apply key_range in Hr. apply (Hb' i j _ He); [done|]. unfold before. lia.
Qed.

Lemma cow_swap_ok : exists c' m' W', cow_swap c m = Ret (c', m') /\ m' ≈ M /\ c_heap c' = hp /\
  cow_rel c' W' /\ overlay hp W' m' m /\ (forall i j e, centry c i j e -> exists w, centry c' i j (mk_ce (ce_wkey e) w)) /\
  (forall i, csize c' i = csize c i).
Proof using Hwt Hc Ho.
  pose proof (proj1 Hc) as Hwf. unfold cow_swap. rewrite Hwt. cbn [mbind outcome_bind].
  run_loop (fun i st => swapping i 0 st) st Hst.
  - split; cbn [fst snd]; [by exists W|done|done| | |done].
    + intros i' j' e He. by rewrite decide_False by (unfold before; lia).
    + intros b i' j' e He Hk Hbef. unfold before in Hbef. lia.
  - intros i st Hi Hst. pose proof Hst as [[W' HW'] Hh Hsz _ _ _].
    rewrite (get_csize _ _ (proj1 HW')) by lia. cbn [mbind outcome_bind]. rewrite Hsz.
    run_loop (fun j st => swapping i j st) st2 Hst2; [done|intros j s Hj Hs; apply swap_step; [lia|lia|done]|].
    exists st2. split; [done|]. destruct Hst2 as [? ? ? Hen Hd Ht]. cbn [Nat.add] in *.
    assert (Hbef : forall i' j' e, centry c i' j' e -> before (i + 1) 0 i' j' <-> before i (csize c i) i' j').
    { intros i' j' e [Hlt _]. unfold before. split; [|lia]. intros [?|?]; [|lia].
      destruct (decide (i' = i)) as [->|]; [lia|lia]. }
    split; try done.
    + intros i' j' e He. specialize (Hen _ _ _ He). pose proof (Hbef _ _ _ He).
      destruct (decide (before i (csize c i) i' j')), (decide (before (i + 1) 0 i' j')); try done; tauto.
    + intros b i' j' e He Hk Hx. apply (Hd b i' j' e He Hk). by eapply Hbef.
    + intros b Hb. apply Ht. intros i' j' e He Hk Hx. apply (Hb i' j' e He Hk). by eapply Hbef.
  - destruct st as [c' m'], Hst as [[W' HW'] Hh Hsz Hen Hd Ht]. cbn [fst snd] in *.
    assert (Hall : forall i' j' e, centry c i' j' e -> before (0 + COW_MAX) 0 i' j').
    { intros i' j' e He. left. pose proof (cw_key _ Hwf _ _ _ He) as [<- _]. apply HASH_lt. }
    assert (Hen' : forall i' j' e, centry c i' j' e -> centry c' i' j' (mk_ce (ce_wkey e) (load 8 m (waddr hp (ce_wkey e))))).
    { intros i' j' e He. specialize (Hen _ _ _ He). by rewrite decide_True in Hen by (by eapply Hall). }
    exists c', m', W'. split; [done|]. split; [|split; [done|split; [done|split; [|split; [eauto|done]]]]].
    + intros b. destruct (W !! key_of hp b) as [w|] eqn:E.
      * apply Hc in E as [j Hj]. apply (Hd b _ j _ Hj); [done|]. by eapply Hall.
      * rewrite (proj2 Ho b E). apply Ht. intros i' j' e He Hk _.
        pose proof (cow_rel_entry _ _ _ _ _ Hc He) as [HW _]. congruence.
    + split.
      * intros k w HW. apply HW' in HW as [j Hj]. pose proof Hj as [Hlt Hb']. rewrite Hsz in Hlt.
        destruct (centry_lt c (HASH k) j Hwf (HASH_lt k) Hlt) as [e He]. pose proof (Hen' _ _ _ He) as [_ Hx].
        rewrite Hb' in Hx. by injection Hx as -> ->.
      * intros b HW. symmetry. apply Ht. intros i' j' e He Hk _. pose proof (cow_rel_entry _ _ _ _ _ HW' (Hen' _ _ _ He)) as [Hx _].
        cbn in Hx. congruence.
Qed.

End Swap.

(** ** The comparison *)

(** Every entry of [c1] has a partner with the same key in [c2], and the memory
    holds its word. *)
Definition matches c1 c2 m (i : nat) : Prop :=
  csize c1 i = csize c2 i /\
  forall j e1, centry c1 i j e1 -> load 8 m (waddr (c_heap c1) (ce_wkey e1)) = ce_wvalue e1 /\
    exists e2, centry c2 i j e2 /\ ce_wkey e2 = ce_wkey e1.

Lemma cmp_bucket_wt c1 c2 W1 W2 m i d1 d2 m' : cow_rel c1 W1 -> cow_rel c2 W2 -> (i < COW_MAX)%nat ->
  zeroed c1 i d1 -> zeroed c2 i d2 -> csize c1 i = csize c2 i ->
  for_range (csize c1 i) 0 (fun j m => cmp_centry d1 d2 i j m) m = Ret m' -> m' = m /\ matches c1 c2 m i.
Proof using Hwt.
  intros Hc1 Hc2 Hi Hz1 Hz2 Hn E. pose proof (proj1 Hc1) as Hwf1. pose proof (proj1 Hc2) as Hwf2.
  apply (for_range_invariant (fun j mm => mm = m /\ forall j' e1, (j' < j)%nat -> centry c1 i j' e1 ->
    load 8 m (waddr (c_heap c1) (ce_wkey e1)) = ce_wvalue e1 /\ exists e2, centry c2 i j' e2 /\ ce_wkey e2 = ce_wkey e1)) in E.
  - destruct E as [-> E]. split; [done|]. split; [done|]. intros j e1 He1. apply E; [apply He1|done].
  - split; [done|]. lia.
  - clear E m'. intros j mm mm' Hj [-> Hprev] E. unfold cmp_centry in E. rewrite Hwt in E.
    apply bind_Ret in E as (e1 & E1 & E). apply bind_Ret in E as (e2 & E2 & E). inv_outcome.
    rewrite (zeroed_get _ _ _ _ Hz1) in E1. rewrite (zeroed_get _ _ _ _ Hz2) in E2.
    apply get_entry_Ret in E1; [|done|done|lia]. apply get_entry_Ret in E2; [|done|done|lia].
    repeat match goal with X : (_ =? _) = true |- _ => apply Z.eqb_eq in X end. unfold WVAL in *.
    destruct (cow_rel_entry _ _ _ _ _ Hc1 E1) as [_ Hv1].
    match goal with X : GETWADDR _ _ = Ret _ |- _ => rewrite (ze_heap _ _ _ Hz1), GETWADDR_ok in X by (done || apply Hwf1);
      injection X as <- end.
    split; [done|]. intros j' e Hj' He. destruct (decide (j' = j)) as [->|]; [|apply Hprev; [lia|done]].
    destruct He as [_ He]. pose proof E1 as [_ Hb]. rewrite Hb in He. injection He as <-. split; [done|]. eauto.
Qed.

Lemma cow_apply_cmp_wt c1 c2 W1 W2 m d1 d2 m' : cow_rel c1 W1 -> cow_rel c2 W2 ->
  cow_apply_cmp c1 c2 m = Ret (d1, d2, m') ->
  m' = m /\ (forall i, (i < COW_MAX)%nat -> matches c1 c2 m i) /\ cow_rel d1 ∅ /\ cow_rel d2 ∅.
Proof using Hwt.
  intros Hc1 Hc2 E. unfold cow_apply_cmp in E. pose proof (proj1 Hc1) as Hwf1. pose proof (proj1 Hc2) as Hwf2.
  apply (for_range_invariant (fun i (st : cow * cow * mem) => zeroed c1 i st.1.1 /\ zeroed c2 i st.1.2 /\
    st.2 = m /\ forall i', (i' < i)%nat -> matches c1 c2 m i')) in E.
  - cbn [fst snd] in E. destruct E as (Hz1 & Hz2 & -> & Hm). split_and!; [done|exact Hm|..].
    + exact (zeroed_all _ _ _ Hc1 Hz1).
    + exact (zeroed_all _ _ _ Hc2 Hz2).
  - cbn. split_and!; [apply zeroed_0|apply zeroed_0|done|lia].
  - clear E d1 d2 m'. intros i [[d1 d2] mm] [[d1' d2'] mm'] Hi Hst E. cbn [fst snd] in *.
    destruct Hst as (Hz1 & Hz2 & -> & Hm).
    rewrite (arr_get_nth 0%nat (c_sizes d1)) in E by (rewrite (ze_len _ _ _ Hz1), (cw_sizes _ Hwf1); lia). cbn [mbind outcome_bind] in E.
    rewrite (arr_get_nth 0%nat (c_sizes d2)) in E by (rewrite (ze_len _ _ _ Hz2), (cw_sizes _ Hwf2); lia). cbn [mbind outcome_bind] in E.
    fold (csize d1 i) (csize d2 i) in E. rewrite (ze_size _ _ _ Hz1), (ze_size _ _ _ Hz2), !decide_False in E by lia.
    apply bind_Ret in E as (u & Hn & E). apply fail_ifn_Ret, Nat.eqb_eq in Hn.
    assert (Hlast : forall P : nat -> Prop, (forall i', (i' < i)%nat -> P i') -> P i -> forall i', (i' < i + 1)%nat -> P i').
    { intros P HP HPi i' Hlt. destruct (decide (i' = i)) as [->|]; [done|]. apply HP. lia. }
    destruct (Nat.eqb_spec (csize c1 i) 0) as [Hz|Hnz].
    + injection E as <- <- <-. split_and!; [by apply zeroed_skip|by apply zeroed_skip; congruence|done|].
      apply Hlast; [done|]. eapply (cmp_bucket_wt c1 c2 W1 W2 m i d1 d2 m); try done; [lia|]. by rewrite Hz.
    + apply bind_Ret in E as (m2 & Em & E). apply bind_Ret in E as (d2'' & E2 & E). apply bind_Ret in E as (d1'' & E1 & E).
      injection E as <- <- <-. eapply (cmp_bucket_wt c1 c2 W1 W2) in Em as [-> Hmi]; try done; [|lia].
      split_and!; [by eapply zeroed_step|by eapply zeroed_step|done|]. by apply Hlast.
Qed.

(** Matching tables are accepted. *)
Lemma cow_apply_cmp_wt_ok c1 c2 W1 W2 m : cow_rel c1 W1 -> cow_rel c2 W2 ->
  (forall i, (i < COW_MAX)%nat -> matches c1 c2 m i) -> exists r, cow_apply_cmp c1 c2 m = Ret r.
Proof using Hwt.
  intros Hc1 Hc2 Hm. pose proof (proj1 Hc1) as Hwf1. pose proof (proj1 Hc2) as Hwf2. unfold cow_apply_cmp.
  run_loop (fun i (st : cow * cow * mem) => zeroed c1 i st.1.1 /\ zeroed c2 i st.1.2 /\ st.2 = m) st Hst;
    [split_and!; [apply zeroed_0|apply zeroed_0|done]| |eauto].
  intros i [[d1 d2] mm] Hi Hst. cbn [fst snd] in Hst. destruct Hst as (Hz1 & Hz2 & ->). destruct (Hm i) as [Hn Hmi]; [lia|].
  rewrite (arr_get_nth 0%nat (c_sizes d1)) by (rewrite (ze_len _ _ _ Hz1), (cw_sizes _ Hwf1); lia). cbn [mbind outcome_bind].
  rewrite (arr_get_nth 0%nat (c_sizes d2)) by (rewrite (ze_len _ _ _ Hz2), (cw_sizes _ Hwf2); lia). cbn [mbind outcome_bind].
  fold (csize d1 i) (csize d2 i). rewrite (ze_size _ _ _ Hz1), (ze_size _ _ _ Hz2), !decide_False by lia.
  rewrite <- Hn, Nat.eqb_refl. cbn [fail_ifn mbind outcome_bind].
  destruct (Nat.eqb_spec (csize c1 i) 0) as [E|E];
    [eexists; split; [done|]; cbn [fst snd]; split_and!; [by apply zeroed_skip|apply zeroed_skip; [done|congruence]|done]|].
  run_loop (fun (_ : nat) (mm : mem) => mm = m) m2 Hm2; [done| |].
  - intros j m1 Hj ->. destruct (centry_lt c1 i j Hwf1) as [e1 He1]; [lia|lia|]. destruct (Hmi j e1 He1) as (Hv & e2 & He2 & Hk).
    unfold cmp_centry. rewrite (zeroed_get _ _ _ _ Hz1), (get_entry_ok c1 i j e1 Hwf1) by (lia || apply He1). cbn [mbind outcome_bind].
    rewrite (zeroed_get _ _ _ _ Hz2), (get_entry_ok c2 i j e2 Hwf2) by (lia || apply He2). cbn [mbind outcome_bind].
    rewrite Hk, Z.eqb_refl, Hwt. cbn [fail_ifn mbind outcome_bind]. destruct (cow_rel_entry _ _ _ _ _ Hc1 He1) as [_ Hvk].
    rewrite (ze_heap _ _ _ Hz1), GETWADDR_ok by (done || apply Hwf1). cbn [mbind outcome_bind]. unfold WVAL.
    rewrite Hv, Z.eqb_refl. cbn. eauto.
  - unfold set_csize. rewrite (arr_set_lt (c_sizes d2)) by (rewrite (ze_len _ _ _ Hz2), (cw_sizes _ Hwf2); lia). cbn [mbind outcome_bind].
    rewrite (arr_set_lt (c_sizes d1)) by (rewrite (ze_len _ _ _ Hz1), (cw_sizes _ Hwf1); lia). cbn [mbind outcome_bind].
    eexists. split; [done|]. cbn [fst snd]. split_and!; [..|done]; (eapply zeroed_step; [done|]); unfold set_csize.
    + by rewrite arr_set_lt by (rewrite (ze_len _ _ _ Hz1), (cw_sizes _ Hwf1); lia).
    + by rewrite arr_set_lt by (rewrite (ze_len _ _ _ Hz2), (cw_sizes _ Hwf2); lia).
Qed.

(** ** Sequences of writes *)

Lemma cow_writes_wt ws : forall c W m M, cow_rel c W -> overlay (c_heap c) W m M ->
  Forall (wr_ok (c_heap c)) ws ->
  exists c' W', cow_writes ws c m = Ret (c', replay ws m) /\ cow_rel c' W' /\ c_heap c' = c_heap c /\
    overlay (c_heap c) W' (replay ws m) M.
Proof using Hwt.
  induction ws as [|w ws IH]; intros c W m M Hc Ho Hws; cbn [cow_writes]; [eauto 10|].
  apply Forall_cons in Hws as [[Ha Hv] Hws].
  destruct (cow_write_wt c W m M (w_ty w) (w_addr w) (w_val w) Hc Ho Ha Hv) as (c1 & W1 & -> & Hc1 & Hh1 & Ho1).
  cbn [mbind outcome_bind]. rewrite <- Hh1 in Ho1, Hws |- *. apply (IH c1 W1 _ M Hc1 Ho1 Hws).
Qed.

(** The table built does not depend on the representation of the memory. *)
Lemma cow_write_mem_eq t c m m2 addr v c' m' : m ≈ m2 -> cow_write t c m addr v = Ret (c', m') ->
  exists m2', cow_write t c m2 addr v = Ret (c', m2') /\ m' ≈ m2'.
Proof using Hwt.
  intros Hm E. unfold cow_write in *. apply bind_Ret in E as (u & -> & E). cbn [mbind outcome_bind].
  apply bind_Ret in E as (k & -> & E). cbn [mbind outcome_bind]. apply bind_Ret in E as (r & -> & E). cbn [mbind outcome_bind].
  rewrite Hwt in *. destruct r as [j|].
  - cbn [mbind outcome_bind] in *. injection E as <- <-. eexists. split; [done|]. by rewrite Hm.
  - apply bind_Ret in E as ([c5 n5] & E & E'). injection E' as <- <-.
    apply bind_Ret in E as (c1 & -> & E). cbn [mbind outcome_bind]. apply bind_Ret in E as (n & -> & E). cbn [mbind outcome_bind].
    apply bind_Ret in E as (c2 & -> & E). cbn [mbind outcome_bind]. apply bind_Ret in E as (wa & -> & E). cbn [mbind outcome_bind].
    rewrite <- (load_proper 8 _ _ Hm wa _ eq_refl). apply bind_Ret in E as (c3 & -> & E). cbn [mbind outcome_bind].
    injection E as <- <-. eexists. split; [done|]. by rewrite Hm.
Qed.

Lemma cow_writes_mem_eq ws : forall c m m2 c' m', m ≈ m2 -> cow_writes ws c m = Ret (c', m') ->
  exists m2', cow_writes ws c m2 = Ret (c', m2') /\ m' ≈ m2'.
Proof using Hwt.
  induction ws as [|w ws IH]; intros c m m2 c' m' Hm E; cbn [cow_writes] in *; [injection E as <- <-; eauto|].
  apply bind_Ret in E as ([c1 m1] & E1 & E). destruct (cow_write_mem_eq _ _ _ _ _ _ _ _ Hm E1) as (m2' & -> & Hm1).
  cbn [mbind outcome_bind]. by eapply IH.
Qed.

(** ** A transaction in write-through mode *)

(** Phase 0, the swap, phase 1, the comparison (the calls of mode_cow.c without
    COW_APPEND_ONLY). *)
Definition wt_transaction (hp : heap) (n : nat) (ws0 ws1 : list wr) m : outcome (cow * cow * mem) :=
  '(c0, m) ← cow_writes ws0 (cow_init hp n) m;
  '(c0, m) ← cow_swap c0 m;
  '(c1, m) ← cow_writes ws1 (cow_init hp n) m;
  cow_apply_cmp c0 c1 m.

(** Tables accepted by the comparison: the memory of phase 1 is that of phase 0. *)
Lemma matches_mem_eq c0 c1 W0 W1 m1 m2 m3 hp : c_heap c0 = hp -> cow_rel c0 W0 -> cow_rel c1 W1 ->
  overlay hp W0 m2 m1 -> overlay hp W1 m3 m2 ->
  (forall i, (i < COW_MAX)%nat -> matches c0 c1 m3 i) -> m3 ≈ m1.
Proof using Hwt.
  intros Hh Hc0 Hc1 Ho0 Ho1 Hm b. destruct (W0 !! key_of hp b) as [w|] eqn:E.
  - pose proof (proj1 Ho0 _ _ E) as Hw. apply Hc0 in E as [j Hj]. destruct (Hm _ (HASH_lt (key_of hp b))) as [_ Hx].
    destruct (Hx _ _ Hj) as [Hv _]. rewrite Hh in Hv. cbn [ce_wkey ce_wvalue] in Hv.
    assert (Hr : in_range b (waddr hp (key_of hp b)) 8) by (by apply key_range).
    rewrite <- (load_byte 8 m3 _ b Hr), <- (load_byte 8 m1 _ b Hr). congruence.
  - rewrite (proj2 Ho0 b E). symmetry. apply Ho1. destruct (W1 !! key_of hp b) as [w|] eqn:E1; [|done].
    apply Hc1 in E1 as [j Hj]. destruct (Hm _ (HASH_lt (key_of hp b))) as [Hn Hx].
    destruct (centry_lt c0 (HASH (key_of hp b)) j (proj1 Hc0) (HASH_lt _)) as [e0 He0]; [rewrite Hn; apply Hj|].
    destruct (Hx _ _ He0) as (_ & e1 & [_ Hb1] & Hk). destruct Hj as [_ Hb2]. rewrite Hb2 in Hb1. injection Hb1 as <-.
    pose proof (cow_rel_entry _ _ _ _ _ Hc0 He0) as [HW _]. cbn in Hk. rewrite <- Hk in HW. congruence.
Qed.

(** The write-through mode: whatever the two executions wrote, a transaction
    that returns leaves the memory each of them alone would have produced; two
    executions that write the same are always accepted. *)
Theorem wt_transaction_correct hp n ws0 ws1 m : base_ok hp -> (0 < n)%nat ->
  Forall (wr_ok hp) ws0 -> Forall (wr_ok hp) ws1 ->
  (ws0 = ws1 -> exists r, wt_transaction hp n ws0 ws1 m = Ret r) /\
  forall d0 d1 m', wt_transaction hp n ws0 ws1 m = Ret (d0, d1, m') ->
    m' ≈ replay ws0 m /\ m' ≈ replay ws1 m /\ cow_rel d0 ∅ /\ cow_rel d1 ∅.
Proof using Hwt.
  intros Hb Hn Hws0 Hws1. unfold wt_transaction.
  destruct (cow_writes_wt ws0 (cow_init hp n) ∅ m m (cow_init_rel hp n Hb Hn) (overlay_empty _ _) Hws0)
    as (c0 & W0 & E0 & Hc0 & Hh0 & Ho0). rewrite E0. cbn [mbind outcome_bind]. cbn [cow_init c_heap] in Hh0, Ho0.
  rewrite <- Hh0 in Ho0.
  destruct (cow_swap_ok c0 W0 (replay ws0 m) m Hc0 Ho0) as (c0' & m2 & W0' & Es & Hm2 & Hh0' & Hc0' & Ho0' & Hkeys & Hsz).
  rewrite Es. cbn [mbind outcome_bind]. rewrite Hh0 in Hh0', Ho0'.
  destruct (cow_writes_wt ws1 (cow_init hp n) ∅ m2 m2 (cow_init_rel hp n Hb Hn) (overlay_empty _ _) Hws1)
    as (c1 & W1 & E1 & Hc1 & Hh1 & Ho1). rewrite E1. cbn [mbind outcome_bind]. cbn [cow_init c_heap] in Hh1, Ho1.
  split.
  - intros ->. destruct (cow_writes_mem_eq ws1 _ _ m2 _ _ (symmetry Hm2 : m ≈ m2) E0) as (m3 & E1' & Hm3).
    rewrite E1 in E1'. injection E1' as <- <-. eapply cow_apply_cmp_wt_ok; [done|done|].
    intros i Hi. split; [apply Hsz|]. intros j e He. pose proof He as [Hlt Hb0]. rewrite Hsz in Hlt.
    destruct (centry_lt c1 i j (proj1 Hc1) Hi Hlt) as [e1 He1]. destruct (Hkeys _ _ _ He1) as [w Hw].
    destruct Hw as [_ Hw]. rewrite Hb0 in Hw. injection Hw as ->. cbn [ce_wkey ce_wvalue]. split; [|eauto].
    rewrite Hh0', <- (load_proper 8 _ _ Hm3 _ _ eq_refl). apply Ho0'. pose proof (cow_rel_entry _ _ _ _ _ Hc0' He) as [HW _]. done.
  - intros d0 d1 m' E. eapply cow_apply_cmp_wt in E as (-> & Hm & Hd0 & Hd1); [|done|done].
    split_and!; [|by rewrite Hm2|done|done]. by eapply (matches_mem_eq c0' c1 W0' W1).
Qed.

End CowWt.

Definition demo_wt : CowBuild := {| HEAP_MODE := false; COW_WT := true |}.

Lemma wt_transaction_correct_witness :
  let _ := debug_build 2 in let _ := demo_wt in
  exists r, wt_transaction no_heap 2 demo_cow_ws demo_cow_ws ∅ = Ret r.
Proof.
  intros B C. assert (HW : @COW_WT C = true) by reflexivity.
  assert (Hb : @base_ok C no_heap) by (split; done).
  assert (Hws : Forall (@wr_ok C no_heap) demo_cow_ws) by (repeat constructor; vm_compute; congruence).
  destruct (wt_transaction_correct HW no_heap 2 demo_cow_ws demo_cow_ws ∅ Hb ltac:(lia) Hws Hws) as [Hsame _].
  exact (Hsame eq_refl).
Defined.
