(* ===== verification/ModeHeap.v ===== *)
(** * The driver of the heap mode (src/mode_heap.c)

    In this mode each of the two executions has a private heap and a write-back
    table of its own, and the two heaps hold the same data at the same offsets:
    a word of one is equal to its twin in the other, or both are pointers into their
    heap, at the same offset.  Reads compare the two copies, the commit compares the
    tables word by word before it writes both.

    The write barrier is left out: a comment inside the macro SEI_WRITE swallows the
    rest of the macro.  The writes of an execution are the calls of [cow_write] with
    its table. *)

From S2P Require Export CowProps Cfc.

Definition COW_SIZE : nat := 128.

(** [struct sei], the memory and the C library's allocator.  A table keeps a copy of
    the record of its heap, of which it uses the address and the size. *)
Record hsei (A : Type) := mk_hsei {
  hs_p : Z;
  hs_heap : list heap;
  hs_cow : list cow;
  hs_cf : list cfc;
  hs_mem : mem;
  hs_alloc : A;
}.
Arguments mk_hsei {A}.
Arguments hs_p {A}.
Arguments hs_heap {A}.
Arguments hs_cow {A}.
Arguments hs_cf {A}.
Arguments hs_mem {A}.
Arguments hs_alloc {A}.

(** [memcpy] of ranges that do not overlap. *)
Fixpoint copy_bytes (n : nat) (m : mem) (dest src : Z) : mem :=
  match n with O => m | S n' => copy_bytes n' (store 1 m dest (mget m src)) (dest + 1) (src + 1) end.

Section Mode.
Context `{Build} `{CowBuild} {A : Type} `{Allocator A}.
Implicit Types s : hsei A.

Definition set_hp s (p : Z) : hsei A := mk_hsei p (hs_heap s) (hs_cow s) (hs_cf s) (hs_mem s) (hs_alloc s).
Definition set_hcf s (cf : list cfc) : hsei A := mk_hsei (hs_p s) (hs_heap s) (hs_cow s) cf (hs_mem s) (hs_alloc s).
Definition set_hcows s (cows : list cow) (m : mem) : hsei A := mk_hsei (hs_p s) (hs_heap s) cows (hs_cf s) m (hs_alloc s).
Definition set_hheap s (heaps : list heap) (m : mem) (al : A) : hsei A := mk_hsei (hs_p s) heaps (hs_cow s) (hs_cf s) m al.

(** [data0] and [data1] are the regions the heaps get from the C library; the control
    flags are those of fresh memory. *)
Definition sei_init (HEAP_SIZE data0 data1 : Z) (cf : list cfc) (m : mem) (al : A) : outcome (hsei A) :=
  '(h0, m) ← heap_init HEAP_SIZE data0 m;
  '(h1, m) ← heap_init HEAP_SIZE data1 m;
  Ret (mk_hsei (-1) [h0; h1] [cow_init h0 COW_SIZE; cow_init h1 COW_SIZE] cf m al).

(** ** Traversal control *)

Definition sei_begin s : outcome (hsei A) :=
  if hs_p s =? -1 then
    c0 ← arr_get (hs_cf s) 0;
    cf ← arr_set (hs_cf s) 0 (cfc_reset c0);
    c1 ← arr_get cf 1;
    cf ← arr_set cf 1 (cfc_reset c1);
    Ret (set_hcf (set_hp s 0) cf)
  else Ret s.

Definition sei_switch s : outcome (hsei A) :=
  let s := set_hp s 1 in
  c ← arr_get (hs_cf s) 0;
  let '(r, c) := cfc_amog (cfc_alog c) in
  cf ← arr_set (hs_cf s) 0 c;
  fail_ifn r "control flow error";;
  Ret (set_hcf s cf).

Definition sei_commit s : outcome (hsei A) :=
  let s := set_hp s (-1) in
  c ← arr_get (hs_cf s) 1;
  let '(r, c) := cfc_amog c in
  fail_ifn r "control flow error";;
  cf ← arr_set (hs_cf s) 1 (cfc_alog c);
  t0 ← arr_get (hs_cow s) 0;
  t1 ← arr_get (hs_cow s) 1;
  '(t0, t1, m) ← cow_apply_heap t0 t1 (hs_mem s);
  f0 ← arr_get cf 0;
  fail_ifn (cfc_check f0) "control flow error";;
  f1 ← arr_get cf 1;
  fail_ifn (cfc_check f1) "control flow error";;
  Ret (set_hcows (set_hcf s cf) [t0; t1] m).

Definition sei_getp s : Z := hs_p s.
Definition sei_setp s (p : Z) : hsei A := set_hp s p.

(** ** Memory management *)

Definition sei_malloc s (size : Z) : outcome (Z * hsei A) :=
  h ← arr_getZ (hs_heap s) (hs_p s);
  '(ptr, h, m, al) ← heap_malloc h (hs_mem s) (hs_alloc s) size;
  hs ← arr_setZ (hs_heap s) (hs_p s) h;
  Ret (ptr, set_hheap s hs m al).

Definition sei_free (fuel : nat) s (ptr : Z) : option (outcome (hsei A)) :=
  h ⇐ lift (arr_getZ (hs_heap s) (hs_p s));
  _ ⇐ lift (c_assert (heap_in h ptr));
  '(h, m) ⇐ heap_free fuel h (hs_mem s) ptr;
  hs ⇐ lift (arr_setZ (hs_heap s) (hs_p s) h);
  Some (Ret (set_hheap s hs m (hs_alloc s))).

Definition sei_calloc s (nmemb size : Z) : outcome (Z * hsei A) :=
  c_assert false;; Ret (0, s).

Definition sei_malloc2 s (size : Z) : outcome (Z * hsei A) :=
  c_assert (hs_p s =? -1);;
  '(ptr1, s) ← sei_malloc (set_hp s 0) size;
  c_assert (negb (ptr1 =? 0));;
  '(ptr2, s) ← sei_malloc (set_hp s 1) size;
  c_assert (negb (ptr2 =? 0));;
  Ret (ptr1, set_hp s (-1)).

Definition sei_free2 (fuel : nat) s (ptr1 ptr2 : Z) : option (outcome (hsei A)) :=
  _ ⇐ lift (c_assert (hs_p s =? -1));
  h0 ⇐ lift (arr_get (hs_heap s) 0);
  '(h0, m) ⇐ heap_free fuel h0 (hs_mem s) ptr1;
  hs ⇐ lift (arr_set (hs_heap s) 0 h0);
  h1 ⇐ lift (arr_get hs 1);
  '(h1, m) ⇐ heap_free fuel h1 m ptr2;
  hs ⇐ lift (arr_set hs 1 h1);
  Some (Ret (set_hheap s hs m (hs_alloc s))).

(** The twin of an address. *)
Definition sei_other s (addr : Z) : outcome Z :=
  c_assert ((hs_p s =? 0) || (hs_p s =? 1));;
  h ← arr_getZ (hs_heap s) (hs_p s);
  h' ← arr_getZ (hs_heap s) (1 - hs_p s);
  if heap_in h addr then rel ← heap_rel h addr; heap_get h' rel
  else
    c_assert (heap_in h' addr);;
    rel ← heap_rel h' addr; heap_get h rel.

(** [__sei_other] of src/tmi.c. *)
Definition __sei_other s (ptr : Z) : outcome (Z * hsei A) :=
  let p := sei_getp s in
  let s := sei_setp s 0 in
  r ← sei_other s ptr;
  Ret (r, sei_setp s p).

Definition sei_memcpy2 s (dest src n : Z) : outcome (Z * hsei A) :=
  c_assert (hs_p s =? -1);;
  let s := set_hp s 0 in
  let m := copy_bytes (Z.to_nat n) (hs_mem s) dest src in
  other ← sei_other s dest;
  let m := copy_bytes (Z.to_nat n) m other src in
  Ret (dest, set_hp (set_hcows s (hs_cow s) m) (-1)).

(** [SEI_READ(type)] *)
Definition sei_read (t : cty) s (addr : Z) : outcome Z :=
  c_assert ((hs_p s =? 0) || (hs_p s =? 1));;
  h ← arr_getZ (hs_heap s) (hs_p s);
  h' ← arr_getZ (hs_heap s) (1 - hs_p s);
  let m := hs_mem s in
  if heap_in h' addr then Stop (SeiFail "ERROR, reading from other heap")
  else if negb (heap_in h addr) then Ret (load (sizeof t) m addr)
  else
    rel ← heap_rel h addr;
    addr2 ← heap_get h' rel;
    let v := load (sizeof t) m addr in
    let v2 := load (sizeof t) m addr2 in
    (if negb (v =? v2) then
       if (sizeof t =? 8)%nat then
         rel1 ← heap_rel h v;
         rel2 ← heap_rel h' v2;
         fail_ifn (rel1 =? rel2) "error mem check"
       else fail_ifn false "error mem check"
     else Ret tt);;
    c ← arr_getZ (hs_cow s) (hs_p s);
    cow_read t c m addr.
End Mode.

(** ** The keys of a table, in the order of their entries *)

Section Keys.
Context `{Build} `{CowBuild}.
Implicit Types (c : cow) (m : mem) (W : gmap Z Z).

Definition keys c (i : nat) : list Z := ce_wkey <$> take (csize c i) (bucket c i).

Lemma keys_centry c i j e : centry c i j e -> keys c i !! j = Some (ce_wkey e).
Proof. intros [Hj He]. unfold keys. rewrite list_lookup_fmap, lookup_take_lt by done. by rewrite He. Qed.

Lemma keys_lookup c i j k : keys c i !! j = Some k -> exists e, centry c i j e /\ ce_wkey e = k.
Proof.
  intros E. unfold keys in E. rewrite list_lookup_fmap in E. apply fmap_Some in E as (e & E & ->). apply lookup_take_Some in E as [E Hj]. by exists e.
Qed.

Lemma length_keys c i : cow_wf c -> (i < COW_MAX)%nat -> length (keys c i) = csize c i.
Proof. intros Hwf Hi. destruct (cw_room _ Hwf i Hi). unfold keys. rewrite length_fmap, length_take. lia. Qed.

(** A table that keeps the keys of [c], with [extra] behind them. *)
Lemma keys_grown c c' i extra : cow_wf c -> cow_wf c' -> (i < COW_MAX)%nat -> csize c' i = (csize c i + length extra)%nat ->
  (forall j e, centry c i j e -> exists e', centry c' i j e' /\ ce_wkey e' = ce_wkey e) ->
  (forall j k, extra !! j = Some k -> exists e, centry c' i (csize c i + j) e /\ ce_wkey e = k) -> keys c' i = keys c i ++ extra.
Proof.
  intros Hwf Hwf' Hi Hs Hold Hnew. apply list_eq_same_length with (n := csize c' i); [rewrite length_app, length_keys by done; lia|by apply length_keys|].
  intros j x y Hj Hx Hy. apply keys_lookup in Hx as (e & He & <-). destruct (decide (j < csize c i)%nat) as [Hlt|Hge].
  - rewrite lookup_app_l in Hy by (by rewrite length_keys). apply keys_lookup in Hy as (e0 & He0 & <-). destruct (Hold j e0 He0) as (e' & He' & <-).
    destruct He as [_ He], He' as [_ He']. congruence.
  - rewrite lookup_app_r, length_keys in Hy by (rewrite ?length_keys by done; done || lia). destruct (Hnew _ _ Hy) as (e' & He' & <-).
    replace (csize c i + (j - csize c i))%nat with j in He' by lia. destruct He as [_ He], He' as [_ He']. congruence.
Qed.

(** A write adds its key at the end of its bucket, unless it is there. *)
Lemma cow_write_keys c W m t addr v c' m' : COW_WT = false -> cow_rel c W -> aligned t addr -> valid_addr (c_heap c) addr ->
  cow_write t c m addr v = Ret (c', m') -> let k := key_of (c_heap c) addr in
  (exists W', cow_rel c' W') /\ c_heap c' = c_heap c /\
  forall i, (i < COW_MAX)%nat -> keys c' i = keys c i ++ (if decide (i = HASH k /\ k ∉ keys c i) then [k] else []).
Proof.
  intros Hwb Hc Ha Hv E k. pose proof (cw_base _ (proj1 Hc)) as Hb. pose proof (valid_key_of _ _ Hb Hv) as Hvk. fold k in Hvk.
  assert (Hw' : forall w, 0 <= w < 2^64 -> 0 <= wvax_set w t addr v < 2^64).
  { intros w Hw. assert (Ew : load 8 (store 8 ∅ (word_base addr) w) (word_base addr) = w) by (rewrite load_store_same; apply wrap_small; by change (256 ^ Z.of_nat 8) with (2^64)).
    rewrite <- Ew, wvax_set_word by done. apply load8_bound. }
  unfold cow_write in E. rewrite (proj2 (Z.eqb_eq _ _)) in E by (by apply TYPEMASK_aligned). cbn [negb mbind outcome_bind] in E.
  rewrite GETWKEY_ok in E by done. cbn [mbind outcome_bind] in E. fold k in E. destruct (cow_find_spec c W k Hc) as (r & Er & Hr). rewrite Er in E. cbn [mbind outcome_bind] in E.
  destruct r as [j|].
  - destruct Hr as (w & He & HW). cbn [mbind outcome_bind] in E. rewrite Hwb, (get_entry_ok c _ _ _ (proj1 Hc) (HASH_lt _) (proj2 He)) in E.
    unfold set_WVAL, WVAL in E. cbn [mbind outcome_bind ce_wkey ce_wvalue] in E.
    destruct (update_entry_rel c W k j w _ Hc He (Hw' w (cw_value _ (proj1 Hc) _ _ _ He))) as (c2 & E2 & Hc2 & Hh2 & Hs2 & He2 & Hold). rewrite E2 in E. injection E as <- _.
    split; [by eexists|]. split; [done|]. intros i Hi.
    rewrite decide_False by (intros [-> Hn]; apply Hn; eapply list_elem_of_lookup_2, (keys_centry _ _ _ _ He)).
    apply keys_grown; [apply Hc|apply Hc2|done|cbn; rewrite Hs2; lia| |by intros ? ?]. intros j' e He'.
    destruct (decide (i = HASH k /\ j' = j)) as [[-> ->]|Hne]; [|by exists e; split; [apply Hold|]]. exists (mk_ce k (wvax_set w t addr v)). split; [done|].
    destruct He as [_ He], He' as [_ He']. by assert (e = mk_ce k w) as -> by congruence.
  - destruct (check_size_ok c W (HASH k) Hc (HASH_lt k)) as (c1 & E1 & Hc1 & Hh1 & Hs1 & Hroom & Hcen1). rewrite E1 in E. cbn [mbind outcome_bind] in E.
    rewrite (get_csize c1 _ (proj1 Hc1) (HASH_lt k)) in E. cbn [mbind outcome_bind] in E.
    destruct (new_entry_rel c1 W k (load 8 m (word_base addr)) Hc1 Hr) as (c2 & c3 & E2 & Hh2 & E3 & Hh3 & Hc3 & He3 & Hs3 & Hcen3); [by rewrite Hh1|apply load8_bound|done|].
    rewrite E2 in E. cbn [mbind outcome_bind] in E. rewrite Hh2, Hh1, GETWADDR_ok in E by done. cbn [mbind outcome_bind] in E. rewrite (waddr_key _ addr Hb : waddr _ k = _), E3 in E.
    cbn [mbind outcome_bind] in E. rewrite Hwb, (get_entry_ok c3 _ _ _ (proj1 Hc3) (HASH_lt _) (proj2 He3)) in E. unfold set_WVAL, WVAL in E. cbn [mbind outcome_bind ce_wkey ce_wvalue] in E.
    destruct (update_entry_rel c3 _ k _ _ _ Hc3 He3 (Hw' (load 8 m (word_base addr)) (load8_bound _ _))) as (c4 & E4 & Hc4 & Hh4 & Hs4 & He4 & Hold). rewrite E4 in E. injection E as <- _.
    split; [by eexists|]. split; [congruence|]. intros i Hi.
    assert (Hkeep : forall j e, centry c i j e -> centry c4 i j e).
    { intros j e He%Hcen1. apply Hold; [apply Hcen3; by right|]. intros [-> ->]. destruct He as [He _]. lia. }
    assert (Hno : k ∉ keys c (HASH k)).
    { intros (j & Hj)%list_elem_of_lookup. apply keys_lookup in Hj as ([k' w] & Hj & Hk). cbn in Hk. subst k'. apply cow_rel_entry with (W := W) in Hj as [Hj _]; [|done]. cbn in Hj. congruence. }
    apply keys_grown; [apply Hc|apply Hc4|done| |intros j e He; exists e; split; [by apply Hkeep|done]|].
    + rewrite Hs4, Hs3, !Hs1. destruct (decide (i = HASH k)) as [->|Hne]; [by rewrite decide_True|]. rewrite decide_False by tauto. cbn. lia.
    + intros j k' Hj. case_decide as Hd; [|done]. destruct Hd as [-> _]. destruct j as [|j]; [|done]. injection Hj as <-. rewrite Nat.add_0_r, <- Hs1. by eexists; split; [exact He4|].
Qed.

(** Tables with the same keys in the same places. *)
Definition same_keys c0 c1 : Prop := forall i, (i < COW_MAX)%nat -> keys c0 i = keys c1 i.

(** The same write, relocated. *)
Definition twin_writes (hp0 hp1 : heap) (ws0 ws1 : list wr) : Prop :=
  Forall2 (fun w0 w1 => w_ty w0 = w_ty w1 /\ key_of hp0 (w_addr w0) = key_of hp1 (w_addr w1)) ws0 ws1.

Lemma cow_writes_keys ws0 : forall ws1 c0 c1 W0 W1 m m' c0' c1' m0 m1, COW_WT = false -> cow_rel c0 W0 -> cow_rel c1 W1 -> same_keys c0 c1 ->
  Forall (wr_ok (c_heap c0)) ws0 -> Forall (wr_ok (c_heap c1)) ws1 -> twin_writes (c_heap c0) (c_heap c1) ws0 ws1 ->
  cow_writes ws0 c0 m = Ret (c0', m0) -> cow_writes ws1 c1 m' = Ret (c1', m1) -> same_keys c0' c1'.
Proof.
  induction ws0 as [|w0 ws0 IH]; intros [|w1 ws1] c0 c1 W0 W1 m m' c0' c1' m0 m1 Hwb Hc0 Hc1 Hk Ho0 Ho1 Ht E0 E1; try (by inversion Ht).
  { cbn in E0, E1. by simplify_eq. }
  apply Forall2_cons in Ht as [[Hty Hkey] Ht]. apply Forall_cons in Ho0 as [[Ha0 Hv0] Ho0]. apply Forall_cons in Ho1 as [[Ha1 Hv1] Ho1]. cbn [cow_writes] in E0, E1.
  apply bind_Ret in E0 as ([d0 n0] & F0 & E0). apply bind_Ret in E1 as ([d1 n1] & F1 & E1).
  destruct (cow_write_keys _ _ _ _ _ _ _ _ Hwb Hc0 Ha0 Hv0 F0) as ([W0' Hd0] & Hh0 & Hk0). destruct (cow_write_keys _ _ _ _ _ _ _ _ Hwb Hc1 Ha1 Hv1 F1) as ([W1' Hd1] & Hh1 & Hk1).
  eapply (IH ws1 d0 d1 W0' W1'); try done; rewrite ?Hh0, ?Hh1; try done.
  intros i Hi. by rewrite (Hk0 i Hi), (Hk1 i Hi), Hkey, (Hk i Hi).
Qed.
End Keys.

(** ** The commit *)

(** Equal words, or pointers to the same offset. *)
Definition twin (hp0 hp1 : heap) (v w : Z) : Prop := v = w \/ u64 (v - h_data hp0) = u64 (w - h_data hp1).

#[export] Instance twin_dec hp0 hp1 v w : Decision (twin hp0 hp1 v w).
Proof. unfold twin. apply _. Defined.

Section Commit.
Context `{Build} `{CowBuild} (Hmode : HEAP_MODE = true).
Context (c0 c1 : cow) (W0 W1 : gmap Z Z) (m M : mem).
Context (Hc0 : cow_rel c0 W0) (Hc1 : cow_rel c1 W1).
Abbreviation hp0 := (c_heap c0).
Abbreviation hp1 := (c_heap c1).

(** [M] is [m] with the words of both tables written over it. *)
Record overlays : Prop := {
  ov_0 : forall k w, W0 !! k = Some w -> load 8 M (waddr hp0 k) = w;
  ov_1 : forall k w, W1 !! k = Some w -> load 8 M (waddr hp1 k) = w;
  ov_out : forall b, W0 !! key_of hp0 b = None -> W1 !! key_of hp1 b = None -> mget M b = mget m b;
}.
Context (Hov : overlays).

(** Outside the tables and on the keys [D0] and [D1] the memory is already [M]. *)
Definition written (D0 D1 : Z -> Prop) (mm : mem) : Prop :=
  forall b, (W0 !! key_of hp0 b = None \/ D0 (key_of hp0 b)) -> (W1 !! key_of hp1 b = None \/ D1 (key_of hp1 b)) -> mget mm b = mget M b.

Lemma written_ext (D0 D0' D1 D1' : Z -> Prop) mm : (forall x, D0' x -> D0 x) -> (forall x, D1' x -> D1 x) -> written D0 D1 mm -> written D0' D1' mm.
Proof. intros H0' H1' Hw b Hb0 Hb1. apply Hw; naive_solver. Qed.

Lemma written_step D0 D1 mm k0 k1 w0 w1 : written D0 D1 mm -> W0 !! k0 = Some w0 -> W1 !! k1 = Some w1 ->
  written (fun x => D0 x \/ x = k0) (fun x => D1 x \/ x = k1) (store 8 (store 8 mm (waddr hp0 k0) w0) (waddr hp1 k1) w1).
Proof using Hov.
  intros Hw HW0 HW1 b Hb0 Hb1. rewrite mget_store. case_decide as Hr1.
  { rewrite <- (ov_1 Hov k1 w1 HW1). by apply load_byte. }
  rewrite mget_store. case_decide as Hr0; [rewrite <- (ov_0 Hov k0 w0 HW0); by apply load_byte|].
  assert (key_of hp0 b <> k0) by (rewrite key_range; done). assert (key_of hp1 b <> k1) by (rewrite key_range; done). apply Hw; tauto.
Qed.

(** What the comparison of two entries demands. *)
Definition entries_match (e0 e1 : cow_entry) : Prop :=
  waddr hp0 (ce_wkey e0) <> waddr hp1 (ce_wkey e1) /\ twin hp0 hp1 (WVAL e0) (WVAL e1).

Lemma cmp_heap_centry_spec d0 d1 i j mm e0 e1 : (i < COW_MAX)%nat -> zeroed c0 i d0 -> zeroed c1 i d1 -> centry c0 i j e0 -> centry c1 i j e1 ->
  (forall mm', cmp_heap_centry d0 d1 i j mm = Ret mm' -> entries_match e0 e1 /\ mm' = store 8 (store 8 mm (waddr hp0 (ce_wkey e0)) (WVAL e0)) (waddr hp1 (ce_wkey e1)) (WVAL e1)) /\
  (entries_match e0 e1 -> exists mm', cmp_heap_centry d0 d1 i j mm = Ret mm').
Proof using All.
  intros Hi Hz0 Hz1 He0 He1. pose proof Hc0 as [Hwf0 _]. pose proof Hc1 as [Hwf1 _]. unfold cmp_heap_centry.
  rewrite (zeroed_get _ _ _ _ Hz0), (zeroed_get _ _ _ _ Hz1), (get_entry_ok c0 i j e0 Hwf0 Hi (proj2 He0)), bind_Ret_l, (get_entry_ok c1 i j e1 Hwf1 Hi (proj2 He1)), bind_Ret_l.
  destruct (cow_rel_entry _ _ _ _ _ Hc0 He0) as [_ Hv0]. destruct (cow_rel_entry _ _ _ _ _ Hc1 He1) as [_ Hv1].
  rewrite (ze_heap _ _ _ Hz0), (ze_heap _ _ _ Hz1), !GETWADDR_ok, !bind_Ret_l by (done || apply Hwf0 || apply Hwf1). cbv zeta.
  unfold heap_rel. rewrite !(proj2 (Z.ltb_lt 0 _)), !c_assert_true by (apply (bo_heap _ (cw_base _ Hwf0)) || apply (bo_heap _ (cw_base _ Hwf1)); done). rewrite !bind_Ret_l.
  unfold entries_match, twin. set (v0 := WVAL e0). set (v1 := WVAL e1). destruct (Z.eqb_spec (waddr hp0 (ce_wkey e0)) (waddr hp1 (ce_wkey e1))) as [Ew|Ew]; cbn [negb].
  { split; [by intros mm' E|by intros [? _]]. }
  cbn [fail_ifn]. rewrite bind_Ret_l. destruct (Z.eqb_spec v0 v1) as [Ev|Ev]; cbn [negb].
  { rewrite bind_Ret_l. split; [intros mm' [= <-]; split; [split; [done|by left]|done]|eauto]. }
  destruct (Z.eqb_spec (u64 (v0 - h_data hp0)) (u64 (v1 - h_data hp1))) as [Er|Er]; cbn [fail_ifn].
  - rewrite bind_Ret_l. split; [intros mm' [= <-]; split; [split; [done|by right]|done]|eauto].
  - split; [by intros mm' E|intros [_ [?|?]]; done].
Qed.

(** The tables agree in bucket [i]. *)
Definition bucket_match (i : nat) : Prop :=
  csize c0 i = csize c1 i /\ forall j e0 e1, centry c0 i j e0 -> centry c1 i j e1 -> entries_match e0 e1.

Lemma apply_bucket_inv i d0 d1 mm mm' : (i < COW_MAX)%nat -> zeroed c0 i d0 -> zeroed c1 i d1 -> csize c0 i = csize c1 i ->
  written (done_upto i) (done_upto i) mm -> for_range (csize c0 i) 0 (fun j m => cmp_heap_centry d0 d1 i j m) mm = Ret mm' ->
  bucket_match i /\ written (done_upto (i + 1)) (done_upto (i + 1)) mm'.
Proof using All.
  intros Hi Hz0 Hz1 Hn Hw E. pose proof Hc0 as [Hwf0 _]. pose proof Hc1 as [Hwf1 _].
  apply (for_range_invariant (fun j mm => (forall j' e0 e1, (j' < j)%nat -> centry c0 i j' e0 -> centry c1 i j' e1 -> entries_match e0 e1) /\
    written (fun x => done_upto i x \/ keys_upto c0 i j x) (fun x => done_upto i x \/ keys_upto c1 i j x) mm)) in E.
  - destruct E as [Hm Hw']. cbn [Nat.add] in *. split; [split; [done|]; intros j e0 e1 He0 He1; apply (Hm j); [apply He0|done|done]|].
    intros b Hb0 Hb1. apply Hw'.
    + destruct (W0 !! key_of hp0 b) as [w|] eqn:EW; [|by left]. right. destruct Hb0 as [?|Hd]; [done|]. unfold done_upto in *.
      destruct (decide (HASH (key_of hp0 b) = i)); [right; by eapply keys_upto_full|left; lia].
    + destruct (W1 !! key_of hp1 b) as [w|] eqn:EW; [|by left]. right. destruct Hb1 as [?|Hd]; [done|]. unfold done_upto in *.
      destruct (decide (HASH (key_of hp1 b) = i)); [right; rewrite Hn; by eapply keys_upto_full|left; lia].
  - split; [intros; lia|]. eapply written_ext; [| |exact Hw]; intros x [?|(j' & e & Hj & _)]; (done || lia).
  - clear Hw E mm mm'. intros j mm mm' Hj [Hm Hw] E. destruct (centry_lt c0 i j Hwf0 Hi) as [e0 He0]; [lia|]. destruct (centry_lt c1 i j Hwf1 Hi) as [e1 He1]; [lia|].
    destruct (cmp_heap_centry_spec d0 d1 i j mm e0 e1 Hi Hz0 Hz1 He0 He1) as [Hs _]. destruct (Hs mm' E) as [Hmatch ->]. split.
    + intros j' e0' e1' Hj' He0' He1'. destruct (decide (j' = j)) as [->|]; [|apply (Hm j'); (done || lia)].
      destruct He0 as [_ He0], He1 as [_ He1], He0' as [_ He0'], He1' as [_ He1']. by simplify_eq.
    + destruct (cow_rel_entry _ _ _ _ _ Hc0 He0) as [HW0 _]. destruct (cow_rel_entry _ _ _ _ _ Hc1 He1) as [HW1 _].
      eapply written_ext; [| |by apply written_step]; intros x; rewrite keys_upto_S by done; tauto.
Qed.

Lemma bucket_sizes d0 d1 i : zeroed c0 i d0 -> zeroed c1 i d1 -> (i < COW_MAX)%nat ->
  arr_get (c_sizes d0) i = Ret (csize c0 i) /\ arr_get (c_sizes d1) i = Ret (csize c1 i).
Proof using Hc0 Hc1.
  intros Hz0 Hz1 Hi. pose proof Hc0 as [Hwf0 _]. pose proof Hc1 as [Hwf1 _].
  rewrite !(arr_get_nth 0%nat) by (rewrite ?(ze_len _ _ _ Hz0), ?(ze_len _ _ _ Hz1), ?(cw_sizes _ Hwf0), ?(cw_sizes _ Hwf1); lia).
  fold (csize d0 i) (csize d1 i). by rewrite (ze_size _ _ _ Hz0), (ze_size _ _ _ Hz1), !decide_False by lia.
Qed.

Lemma cow_apply_heap_inv c0' c1' m' : cow_apply_heap c0 c1 m = Ret (c0', c1', m') ->
  m' ≈ M /\ cow_rel c0' ∅ /\ cow_rel c1' ∅ /\ c_heap c0' = hp0 /\ c_heap c1' = hp1 /\ forall i, (i < COW_MAX)%nat -> bucket_match i.
Proof using All.
  intros E. unfold cow_apply_heap in E.
  apply (for_range_invariant (fun i (st : cow * cow * mem) => zeroed c0 i st.1.1 /\ zeroed c1 i st.1.2 /\ written (done_upto i) (done_upto i) st.2 /\
    forall i', (i' < i)%nat -> bucket_match i')) in E.
  - destruct E as (Hz0 & Hz1 & Hw & Hm). cbn in *. split_and!; [|exact (zeroed_all _ _ _ Hc0 Hz0)|exact (zeroed_all _ _ _ Hc1 Hz1)|apply Hz0|apply Hz1|done].
    intros b. apply Hw; right; apply HASH_lt.
  - cbn. split_and!; [apply zeroed_0|apply zeroed_0| |intros; lia]. intros b [?|Hd] [?|Hd']; unfold done_upto in *; [|lia..]. symmetry. by apply Hov.
  - clear E c0' c1' m'. intros i [[d0 d1] mm] [[d0' d1'] mm'] Hi (Hz0 & Hz1 & Hw & Hm) E. cbn [fst snd] in *.
    destruct (bucket_sizes d0 d1 i Hz0 Hz1 ltac:(lia)) as [F0 F1]. rewrite F0, bind_Ret_l, F1, bind_Ret_l in E.
    apply bind_Ret in E as (u & Hn & E). apply fail_ifn_Ret, Nat.eqb_eq in Hn.
    assert (Hall : bucket_match i -> forall i', (i' < i + 1)%nat -> bucket_match i').
    { intros Hb i' Hi'. destruct (decide (i' = i)) as [->|]; [done|apply Hm; lia]. }
    destruct (Nat.eqb_spec (csize c0 i) 0) as [Hz|Hnz].
    + injection E as <- <- <-. destruct (apply_bucket_inv i d0 d1 mm mm ltac:(lia) Hz0 Hz1 Hn Hw ltac:(by rewrite Hz)) as [Hb Hw'].
      split_and!; [by apply zeroed_skip|apply zeroed_skip; [done|congruence]|done|by apply Hall].
    + apply bind_Ret in E as (m2 & Em & E). apply bind_Ret in E as (d1'' & E1 & E). apply bind_Ret in E as (d0'' & E0 & E). injection E as <- <- <-.
      destruct (apply_bucket_inv i d0 d1 mm m2 ltac:(lia) Hz0 Hz1 Hn Hw Em) as [Hb Hw']. split_and!; [by eapply zeroed_step|by eapply zeroed_step|done|by apply Hall].
Qed.

Lemma cow_apply_heap_ok : (forall i, (i < COW_MAX)%nat -> bucket_match i) -> exists r, cow_apply_heap c0 c1 m = Ret r.
Proof using All.
  intros Hm. pose proof Hc0 as [Hwf0 _]. pose proof Hc1 as [Hwf1 _]. unfold cow_apply_heap.
  run_loop (fun i (st : cow * cow * mem) => zeroed c0 i st.1.1 /\ zeroed c1 i st.1.2) st Hst; [split; apply zeroed_0| |eauto].
  intros i [[d0 d1] mm] Hi [Hz0 Hz1]. cbn [fst snd] in *. destruct (bucket_sizes d0 d1 i Hz0 Hz1 ltac:(lia)) as [F0 F1]. rewrite F0, bind_Ret_l, F1, bind_Ret_l.
  destruct (Hm i ltac:(lia)) as [Hn Hall]. rewrite <- Hn, Nat.eqb_refl. cbn [fail_ifn]. rewrite bind_Ret_l.
  destruct (Nat.eqb_spec (csize c0 i) 0) as [E|E]; [eexists; split; [done|]; split; apply zeroed_skip; (done || congruence)|].
  run_loop (fun (_ : nat) (_ : mem) => True) m2 Hm2; [done| |].
  - intros j m1 Hj _. destruct (centry_lt c0 i j Hwf0) as [e0 He0]; [lia|lia|]. destruct (centry_lt c1 i j Hwf1) as [e1 He1]; [lia|lia|].
    destruct (cmp_heap_centry_spec d0 d1 i j m1 e0 e1 ltac:(lia) Hz0 Hz1 He0 He1) as [_ Hok]. destruct (Hok (Hall j e0 e1 He0 He1)) as (mm' & ->). eauto.
  - assert (Hset : forall c d W, cow_rel c W -> zeroed c i d -> exists d', set_csize d i 0 = Ret d' /\ zeroed c (i + 1) d').
    { intros c d W [Hwf _] Hz. unfold set_csize. rewrite arr_set_lt by (rewrite (ze_len _ _ _ Hz), (cw_sizes _ Hwf); lia). eexists. split; [done|].
      eapply zeroed_step; [done|]. unfold set_csize. by rewrite arr_set_lt by (rewrite (ze_len _ _ _ Hz), (cw_sizes _ Hwf); lia). }
    destruct (Hset c1 d1 W1 Hc1 Hz1) as (d1' & -> & ?). rewrite bind_Ret_l. destruct (Hset c0 d0 W0 Hc0 Hz0) as (d0' & -> & ?). rewrite bind_Ret_l. eauto.
Qed.
End Commit.

(** ** Two heaps *)

Record regions (h0 h1 : heap) : Prop := {
  rg_size : h_size h1 = h_size h0 /\ 0 < h_size h0 /\ h_size h0 mod 8 = 0;
  rg_data : 0 < h_data h0 /\ 0 < h_data h1;
  rg_align : h_data h0 mod 8 = 0 /\ h_data h1 mod 8 = 0;
  rg_top : h_data h0 + h_size h0 < 2^63 /\ h_data h1 + h_size h1 < 2^63;
  rg_disj : h_data h0 + h_size h0 <= h_data h1 \/ h_data h1 + h_size h1 <= h_data h0;
}.

(** The heaps hold the same data. *)
Definition mirrored (h0 h1 : heap) (m : mem) : Prop := forall k, 0 <= k -> 8 * k + 8 <= h_size h0 ->
  twin h0 h1 (load 8 m (h_data h0 + 8 * k)) (load 8 m (h_data h1 + 8 * k)).

(** An aligned write into the heap. *)
Definition in_region (h : heap) (w : wr) : Prop :=
  aligned (w_ty w) (w_addr w) /\ h_data h <= w_addr w /\ w_addr w + Z.of_nat (sizeof (w_ty w)) <= h_data h + h_size h.

Lemma replay_local ws (P : Z -> Prop) m m' : (forall b, P b -> mget m b = mget m' b) -> forall b, P b -> mget (replay ws m) b = mget (replay ws m') b.
Proof.
  revert m m'. induction ws as [|w ws IH]; intros m m' Hm b Hb; [by apply Hm|]. rewrite !replay_cons. apply IH; [|done].
  intros x Hx. unfold apply_wr. rewrite !mget_store. case_decide; [done|by apply Hm].
Qed.

Lemma replay_outside h ws m b : Forall (in_region h) ws -> ~ (h_data h <= b < h_data h + h_size h) -> mget (replay ws m) b = mget m b.
Proof.
  intros Hws Hb. apply mget_replay_out. intros i w Hi Hr. rewrite Forall_lookup in Hws. destruct (Hws i w Hi) as (_ & ? & ?). unfold in_range in Hr. lia.
Qed.

Section Driver.
Context `{Build} `{CowBuild} {A : Type} `{Allocator A}.
Implicit Types s : hsei A.

(** The writes of the execution that runs. *)
Definition run_writes (ws : list wr) s : outcome (hsei A) :=
  c ← arr_getZ (hs_cow s) (hs_p s);
  '(c, m) ← cow_writes ws c (hs_mem s);
  cows ← arr_setZ (hs_cow s) (hs_p s) c;
  Ret (set_hcows s cows m).

(** A handler whose executions write [ws0] and [ws1]. *)
Definition heap_transaction (ws0 ws1 : list wr) s : outcome (hsei A) :=
  s ← sei_begin s;
  s ← run_writes ws0 s;
  s ← sei_switch s;
  s ← sei_begin s;
  s ← run_writes ws1 s;
  sei_commit s.

(** Between two transactions. *)
Definition idle s (h0 h1 : heap) : Prop := hs_p s = -1 /\ length (hs_cf s) = 2%nat /\
  exists c0 c1, hs_cow s = [c0; c1] /\ cow_rel c0 ∅ /\ cow_rel c1 ∅ /\
    h_data (c_heap c0) = h_data h0 /\ h_size (c_heap c0) = h_size h0 /\ h_data (c_heap c1) = h_data h1 /\ h_size (c_heap c1) = h_size h1.

Lemma cow_writes_inside ws : forall c W m c' m' i k, COW_WT = false -> cow_rel c W -> Forall (wr_ok (c_heap c)) ws -> cow_writes ws c m = Ret (c', m') ->
  (i < COW_MAX)%nat -> k ∈ keys c' i -> k ∈ keys c i \/ exists w, w ∈ ws /\ k = key_of (c_heap c) (w_addr w).
Proof.
  induction ws as [|w ws IH]; intros c W m c' m' i k Hwb Hc Hws E Hi Hk; cbn [cow_writes] in E; [injection E as <- <-; by left|].
  apply Forall_cons in Hws as [[Ha Hv] Hws]. apply bind_Ret in E as ([d n] & F & E). destruct (cow_write_keys _ _ _ _ _ _ _ _ Hwb Hc Ha Hv F) as ([W' Hd] & Hh & Hkd).
  destruct (IH d W' n c' m' i k Hwb Hd ltac:(by rewrite Hh) E Hi Hk) as [Hk'|(w' & Hw' & ->)]; [|right; exists w'; split; [by right|by rewrite Hh]].
  rewrite (Hkd i Hi) in Hk'. apply elem_of_app in Hk' as [?|Hk']; [by left|]. case_decide; [|by apply elem_of_nil in Hk']. apply list_elem_of_singleton in Hk' as ->.
  right. exists w. split; [by left|done].
Qed.

(** The executions, up to the comparison. *)
Lemma heap_transaction_unfold ws0 ws1 s c0 c1 c0' c1' : hs_p s = -1 -> length (hs_cf s) = 2%nat -> hs_cow s = [c0; c1] ->
  cow_writes ws0 c0 (hs_mem s) = Ret (c0', hs_mem s) -> cow_writes ws1 c1 (hs_mem s) = Ret (c1', hs_mem s) ->
  heap_transaction ws0 ws1 s = ('(t0, t1, m) ← cow_apply_heap c0' c1' (hs_mem s);
    Ret (mk_hsei (-1) (hs_heap s) [t0; t1] [mk_cfc SET SET SET SET; mk_cfc SET SET SET SET] m (hs_alloc s))).
Proof.
  intros Hp Hcf Hcow E0 E1. destruct s as [p hs cows cf m al]. cbn [hs_p hs_cf hs_cow hs_mem hs_heap hs_alloc] in *. subst p cows. destruct cf as [|f0 [|f1 [|]]]; try done.
  unfold heap_transaction. set (s := mk_hsei (-1) hs [c0; c1] [f0; f1] m al). set (R := mk_cfc RESET RESET RESET RESET). set (D := mk_cfc SET SET SET SET).
  assert (B0 : sei_begin s = Ret (mk_hsei 0 hs [c0; c1] [R; R] m al)) by reflexivity. rewrite B0, bind_Ret_l.
  assert (R0 : run_writes ws0 (mk_hsei 0 hs [c0; c1] [R; R] m al) = Ret (mk_hsei 0 hs [c0'; c1] [R; R] m al)).
  { unfold run_writes. change (arr_getZ _ _) with (Ret c0). rewrite bind_Ret_l. cbn [hs_mem]. by rewrite E0, bind_Ret_l. }
  rewrite R0, bind_Ret_l. assert (S0 : sei_switch (mk_hsei 0 hs [c0'; c1] [R; R] m al) = Ret (mk_hsei 1 hs [c0'; c1] [D; R] m al)) by reflexivity. rewrite S0, bind_Ret_l.
  assert (B1 : sei_begin (mk_hsei 1 hs [c0'; c1] [D; R] m al) = Ret (mk_hsei 1 hs [c0'; c1] [D; R] m al)) by reflexivity. rewrite B1, bind_Ret_l.
  assert (R1 : run_writes ws1 (mk_hsei 1 hs [c0'; c1] [D; R] m al) = Ret (mk_hsei 1 hs [c0'; c1'] [D; R] m al)).
  { unfold run_writes. change (arr_getZ _ _) with (Ret c1). rewrite bind_Ret_l. cbn [hs_mem]. by rewrite E1, bind_Ret_l. }
  rewrite R1, bind_Ret_l. unfold sei_commit. cbv zeta. cbn [set_hp hs_cf hs_cow hs_mem hs_heap hs_alloc].
  change (arr_get [D; R] 1) with (Ret R). rewrite bind_Ret_l. cbn [cfc_amog]. change (cfc_amog R) with (true, mk_cfc SET SET RESET RESET). cbv iota beta. cbn [fail_ifn]. rewrite bind_Ret_l.
  change (arr_set [D; R] 1 (cfc_alog (mk_cfc SET SET RESET RESET))) with (Ret [D; D]). rewrite bind_Ret_l.
  change (arr_get [c0'; c1'] 0) with (Ret c0'). rewrite bind_Ret_l. change (arr_get [c0'; c1'] 1) with (Ret c1'). rewrite bind_Ret_l.
  destruct (cow_apply_heap c0' c1' m) as [[[t0 t1] m']|e]; [|reflexivity]. rewrite !bind_Ret_l. change (arr_get [D; D] 0) with (Ret D). change (arr_get [D; D] 1) with (Ret D). rewrite bind_Ret_l.
  assert (Hd : cfc_check D = true) by (by vm_compute). rewrite Hd. cbn [fail_ifn]. rewrite !bind_Ret_l, Hd. reflexivity.
Qed.

(** ** Initialisation *)

Lemma mget_bzero_in n : forall m a b, in_range b a n -> mget (bzero n m a) b = 0.
Proof.
  unfold in_range. induction n as [|n IH]; intros m a b Hb; cbn [bzero]; [lia|]. destruct (decide (b = a)) as [->|Hne]; [|apply IH; lia].
  rewrite mget_bzero by (unfold in_range; lia). cbn [store]. by rewrite mget_insert, decide_True.
Qed.

(** [sei_init] returns an idle driver whose heaps hold the same data, so that
    transactions can start. *)
Lemma heap_mode_starts_idle HEAP_SIZE data0 data1 cf m al : HEAP_MODE = true -> regions (mk_heap HEAP_SIZE 0 [] data0) (mk_heap HEAP_SIZE 0 [] data1) ->
  ALLOC_MAX_SIZE < HEAP_SIZE -> length cf = 2%nat ->
  exists s h0 h1, sei_init HEAP_SIZE data0 data1 cf m al = Ret s /\ hs_heap s = [h0; h1] /\ h_data h0 = data0 /\ h_data h1 = data1 /\
    regions h0 h1 /\ idle s h0 h1 /\ mirrored h0 h1 (hs_mem s).
Proof.
  intros Hmode Hreg Hsize Hcf. pose proof Hreg as [(_ & Hpos & Hs8) [? ?] [Ha0 Ha1] [? ?] Hdis]. cbn [h_size h_data] in *.
  unfold sei_init, heap_init. rewrite (proj2 (Z.ltb_lt 0 _)), (proj2 (Z.ltb_lt ALLOC_MAX_SIZE _)), c_assert_true, !bind_Ret_l by done.
  set (h0 := mk_heap HEAP_SIZE 0 _ data0). set (h1 := mk_heap HEAP_SIZE 0 _ data1). do 3 eexists. split; [reflexivity|]. split; [reflexivity|].
  split; [done|]. split; [done|]. split; [by destruct Hreg|]. split.
  - split; [done|]. split; [done|]. do 2 eexists. split; [reflexivity|].
    assert (Hb : forall h, 0 < h_data h -> h_data h mod 8 = 0 -> 0 < h_size h -> cow_rel (cow_init h COW_SIZE) ∅).
    { intros h ? ? ?. apply cow_init_rel; [split; unfold base; rewrite ?Hmode; done || lia|unfold COW_SIZE; lia]. }
    split; [by apply Hb|]. split; [by apply Hb|]. done.
  - intros k Hk Hks. left. subst h0 h1. cbn [hs_mem h_data h_size] in *.
    assert (Hz : forall a m', (forall b, in_range b a 8 -> mget m' b = 0) -> load 8 m' a = load 8 (∅ : mem) a).
    { intros a m' Hm'. apply load_ext. intros b Hb. rewrite Hm' by done. done. }
    rewrite (Hz (data1 + 8 * k)), (Hz (data0 + 8 * k)).
    + reflexivity.
    + intros b Hb. unfold in_range in Hb. rewrite mget_bzero by (unfold in_range; lia). apply mget_bzero_in. unfold in_range. lia.
    + intros b Hb. unfold in_range in Hb. apply mget_bzero_in. unfold in_range. lia.
Qed.

Section Exact.
Context (Hmode : HEAP_MODE = true) (Hwb : COW_WT = false) (h0 h1 : heap) (Hreg : regions h0 h1).

Lemma heap_rel_ok h a : 0 < h_size h -> heap_rel h a = Ret (u64 (a - h_data h)).
Proof. intros Hs. unfold heap_rel. by rewrite (proj2 (Z.ltb_lt 0 _)), c_assert_true, bind_Ret_l by done. Qed.

Lemma heap_get_ok h o : 0 < h_size h -> heap_get h o = Ret (u64 (h_data h + o)).
Proof. intros Hs. unfold heap_get. by rewrite (proj2 (Z.ltb_lt 0 _)), c_assert_true, bind_Ret_l by done. Qed.

(** Tables of the two heaps. *)
Definition on_heap (c : cow) (h : heap) : Prop := h_data (c_heap c) = h_data h /\ h_size (c_heap c) = h_size h.

Lemma base_on c h : on_heap c h -> base (c_heap c) = h_data h.
Proof using Hmode. intros [E _]. unfold base. by rewrite Hmode. Qed.

Lemma region_wr_ok c h ws : on_heap c h -> 0 < h_data h -> h_data h + h_size h < 2^63 -> Forall (in_region h) ws -> Forall (wr_ok (c_heap c)) ws.
Proof using Hmode.
  intros Hon Hd Ht Hws. eapply Forall_impl; [exact Hws|]. intros w (Ha & ? & ?). split; [done|]. unfold valid_addr. rewrite (base_on c h Hon). destruct (w_ty w); cbn in *; lia.
Qed.

(** The word of an aligned write lies in the region. *)
Lemma region_key c h w : on_heap c h -> h_data h mod 8 = 0 -> h_size h mod 8 = 0 -> in_region h w ->
  let k := key_of (c_heap c) (w_addr w) in 0 <= k /\ 8 * k + 8 <= h_size h.
Proof using Hmode.
  intros Hon Hd Hs (Ha & Hlo & Hhi). cbv zeta. unfold key_of. rewrite (base_on c h Hon). set (o := w_addr w - h_data h). pose proof (Z.div_mod o 8 ltac:(lia)). pose proof (Z.mod_pos_bound o 8 ltac:(lia)).
  assert (0 < Z.of_nat (sizeof (w_ty w))) by (destruct (w_ty w); cbn; lia). pose proof (Z.div_mod (h_size h) 8 ltac:(lia)). split; [apply Z.div_pos; lia|].
  assert (o / 8 < h_size h / 8) by (apply Z.div_lt_upper_bound; lia). lia.
Qed.

(** The words the two executions have written, in the memory they leave together. *)
Section Words.
Context (c0 c1 c0' c1' : cow) (W0 W1 : gmap Z Z) (m : mem) (ws0 ws1 : list wr).
Context (Hon0 : on_heap c0 h0) (Hon1 : on_heap c1 h1) (Hc0 : cow_rel c0 ∅) (Hc1 : cow_rel c1 ∅).
Context (Hr0 : Forall (in_region h0) ws0) (Hr1 : Forall (in_region h1) ws1).
Context (E0 : cow_writes ws0 c0 m = Ret (c0', m)) (E1 : cow_writes ws1 c1 m = Ret (c1', m)).
Context (Hd0 : cow_rel c0' W0) (Hd1 : cow_rel c1' W1) (Hh0 : c_heap c0' = c_heap c0) (Hh1 : c_heap c1' = c_heap c1).
Context (Ho0 : overlay (c_heap c0) W0 m (replay ws0 m)) (Ho1 : overlay (c_heap c1) W1 m (replay ws1 m)).
Abbreviation M := (replay ws1 (replay ws0 m)).

Lemma no_keys c i k : cow_rel c ∅ -> k ∉ keys c i.
Proof.
  intros Hc (j & Hj)%list_elem_of_lookup. apply keys_lookup in Hj as (e & He & _). apply cow_rel_entry with (W := ∅) in He as [He _]; [|done]. by rewrite lookup_empty in He.
Qed.

Lemma W0_inside k w : W0 !! k = Some w -> 0 <= k /\ 8 * k + 8 <= h_size h0.
Proof using All.
  intros HW. apply Hd0 in HW as [j Hj]. apply keys_centry in Hj. apply list_elem_of_lookup_2 in Hj. cbn in Hj.
  destruct Hreg as [(? & ? & ?) [? ?] [? ?] [? ?] _]. destruct (cow_writes_inside _ _ _ _ _ _ _ _ Hwb Hc0 (region_wr_ok c0 h0 ws0 Hon0 ltac:(done) ltac:(done) Hr0) E0 (HASH_lt k) Hj) as [Hn|(w' & Hw' & ->)].
  - by destruct (no_keys c0 _ _ Hc0 Hn).
  - apply region_key; try done. rewrite Forall_forall in Hr0. by apply Hr0.
Qed.

Lemma W1_inside k w : W1 !! k = Some w -> 0 <= k /\ 8 * k + 8 <= h_size h1.
Proof using All.
  intros HW. apply Hd1 in HW as [j Hj]. apply keys_centry in Hj. apply list_elem_of_lookup_2 in Hj. cbn in Hj.
  destruct Hreg as [(Hs & ? & ?) [? ?] [? ?] [? ?] _]. destruct (cow_writes_inside _ _ _ _ _ _ _ _ Hwb Hc1 (region_wr_ok c1 h1 ws1 Hon1 ltac:(done) ltac:(done) Hr1) E1 (HASH_lt k) Hj) as [Hn|(w' & Hw' & ->)].
  - by destruct (no_keys c1 _ _ Hc1 Hn).
  - apply region_key; try done; [by rewrite Hs|]. rewrite Forall_forall in Hr1. by apply Hr1.
Qed.

Lemma words_overlaid : overlays c0' c1' W0 W1 m M.
Proof using All.
  pose proof (rg_disj _ _ Hreg) as Hdis. split; rewrite ?Hh0, ?Hh1.
  - intros k w HW. pose proof (W0_inside k w HW). destruct Ho0 as [Hin _]. rewrite <- (Hin k w HW). apply load_ext. intros b Hb.
    unfold waddr, in_range in Hb. rewrite (base_on c0 h0 Hon0) in Hb. apply (replay_outside h1); [done|lia].
  - intros k w HW. pose proof (W1_inside k w HW). destruct Ho1 as [Hin _]. rewrite <- (Hin k w HW). apply load_ext. intros b Hb.
    unfold waddr, in_range in Hb. rewrite (base_on c1 h1 Hon1) in Hb. apply (replay_local ws1 (fun x => x = b)); [|done]. intros x ->. apply (replay_outside h0); [done|lia].
  - intros b Hb0 Hb1. destruct Ho0 as [_ Hout0], Ho1 as [_ Hout1]. rewrite <- (Hout1 b Hb1).
    apply (replay_local ws1 (fun x => x = b)); [|done]. intros x ->. by apply Hout0.
Qed.

Context (Hk : same_keys c0' c1') (Hm : mirrored h0 h1 m).

Lemma twin_on v w : twin (c_heap c0') (c_heap c1') v w <-> twin h0 h1 v w.
Proof using Hon0 Hon1 Hh0 Hh1. unfold twin. rewrite Hh0, Hh1. destruct Hon0 as [-> _], Hon1 as [-> _]. done. Qed.

(** A word that is in one table is in the other, at the same place. *)
Lemma same_places i j e0 e1 : centry c0' i j e0 -> centry c1' i j e1 -> (i < COW_MAX)%nat -> ce_wkey e0 = ce_wkey e1.
Proof using Hk. intros He0 He1 Hi. apply keys_centry in He0, He1. rewrite (Hk i Hi) in He0. congruence. Qed.

Lemma entry_words i j e0 e1 : centry c0' i j e0 -> centry c1' i j e1 -> (i < COW_MAX)%nat -> let k := ce_wkey e0 in
  0 <= k /\ 8 * k + 8 <= h_size h0 /\ WVAL e0 = load 8 M (h_data h0 + 8 * k) /\ WVAL e1 = load 8 M (h_data h1 + 8 * k).
Proof using All.
  intros He0 He1 Hi k. pose proof (same_places _ _ _ _ He0 He1 Hi) as Ek. pose proof words_overlaid as [Hv0 Hv1 _].
  destruct (cow_rel_entry _ _ _ _ _ Hd0 He0) as [HW0 _]. destruct (cow_rel_entry _ _ _ _ _ Hd1 He1) as [HW1 _]. destruct (W0_inside _ _ HW0). fold k in HW0.
  rewrite <- Ek in HW1. fold k in HW1. specialize (Hv0 k _ HW0). specialize (Hv1 k _ HW1). unfold waddr in Hv0, Hv1. rewrite Hh0, (base_on c0 h0 Hon0) in Hv0. rewrite Hh1, (base_on c1 h1 Hon1) in Hv1. done.
Qed.

(** A word in no table is what it was. *)
Lemma other_words k : W0 !! k = None -> W1 !! k = None -> 0 <= k -> 8 * k + 8 <= h_size h0 ->
  load 8 M (h_data h0 + 8 * k) = load 8 m (h_data h0 + 8 * k) /\ load 8 M (h_data h1 + 8 * k) = load 8 m (h_data h1 + 8 * k).
Proof using All.
  intros HW0 HW1 Hk0 Hks. pose proof words_overlaid as [_ _ Hout]. rewrite Hh0, Hh1 in Hout. pose proof (rg_disj _ _ Hreg) as Hdis. pose proof (rg_size _ _ Hreg) as (Hs & _).
  assert (Hkey : forall c h b x, on_heap c h -> in_range b (h_data h + 8 * x) 8 -> key_of (c_heap c) b = x).
  { intros c h b x Hon Hb. apply key_range. unfold waddr. by rewrite (base_on c h Hon). }
  assert (Hno0 : forall b, h_data h1 <= b < h_data h1 + h_size h1 -> W0 !! key_of (c_heap c0) b = None).
  { intros b Hb. destruct (W0 !! key_of (c_heap c0) b) as [w|] eqn:E; [|done]. pose proof (W0_inside _ _ E). pose proof (proj1 (key_range _ _ _) (eq_refl (key_of (c_heap c0) b))) as Hr.
    unfold waddr, in_range in Hr. rewrite (base_on c0 h0 Hon0) in Hr. lia. }
  assert (Hno1 : forall b, h_data h0 <= b < h_data h0 + h_size h0 -> W1 !! key_of (c_heap c1) b = None).
  { intros b Hb. destruct (W1 !! key_of (c_heap c1) b) as [w|] eqn:E; [|done]. pose proof (W1_inside _ _ E). pose proof (proj1 (key_range _ _ _) (eq_refl (key_of (c_heap c1) b))) as Hr.
    unfold waddr, in_range in Hr. rewrite (base_on c1 h1 Hon1) in Hr. lia. }
  split; apply load_ext; intros b Hb; apply Hout.
  - by rewrite (Hkey c0 h0 b k Hon0 Hb).
  - apply Hno1. unfold in_range in Hb. lia.
  - apply Hno0. unfold in_range in Hb. lia.
  - by rewrite (Hkey c1 h1 b k Hon1 Hb).
Qed.

Lemma tables_match : (forall i, (i < COW_MAX)%nat -> bucket_match c0' c1' i) <-> mirrored h0 h1 M.
Proof using All.
  pose proof (rg_disj _ _ Hreg) as Hdis. pose proof (rg_size _ _ Hreg) as (Hs & _). split.
  - intros Hb k Hk0 Hks. assert (Hin : W0 !! k = None -> W1 !! k = None).
    { intros HW. destruct (W1 !! k) as [w|] eqn:E; [|done]. apply Hd1 in E as [j Hj]. pose proof (keys_centry _ _ _ _ Hj) as Hj'. rewrite <- (Hk _ (HASH_lt k)) in Hj'.
      apply keys_lookup in Hj' as (e & He & Ek). apply cow_rel_entry with (W := W0) in He as [He _]; [|done]. rewrite Ek in He. cbn in He. congruence. }
    destruct (W0 !! k) as [w|] eqn:E.
    + apply Hd0 in E as [j Hj]. destruct (Hb (HASH k) (HASH_lt k)) as [Hn Hmatch]. destruct (centry_lt c1' (HASH k) j (proj1 Hd1) (HASH_lt k)) as [e1 He1]; [rewrite <- Hn; apply Hj|].
      destruct (entry_words _ _ _ _ Hj He1 (HASH_lt k)) as (_ & _ & Ew0 & Ew1). cbn [ce_wkey] in Ew0, Ew1. destruct (Hmatch j _ _ Hj He1) as [_ Ht]. rewrite <- Ew0, <- Ew1. by apply twin_on.
    + destruct (other_words k E (Hin eq_refl) Hk0 Hks) as [-> ->]. by apply Hm.
  - intros HM i Hi. split.
    + rewrite <- (length_keys c0' i (proj1 Hd0) Hi), <- (length_keys c1' i (proj1 Hd1) Hi). by rewrite (Hk i Hi).
    + intros j e0 e1 He0 He1. destruct (entry_words _ _ _ _ He0 He1 Hi) as (Hk0 & Hks & Ew0 & Ew1). split.
      * rewrite <- (same_places _ _ _ _ He0 He1 Hi). unfold waddr. rewrite Hh0, Hh1, (base_on c0 h0 Hon0), (base_on c1 h1 Hon1). lia.
      * apply twin_on. rewrite Ew0, Ew1. by apply HM.
Qed.
End Words.

(** C24.  The heap mode commits exactly the transactions whose executions leave the heaps
    mirrored.  When the driver is idle, the two heaps hold the same data, and the
    executions write aligned objects of the same widths, each into its heap, at the same
    offsets (any values; the writes are those of the table, the write barrier of this mode
    does not compile): the commit
    returns if every word of one heap is then equal to its twin or points to the same
    offset, and only then; the memory is the one both executions have written, the
    heaps are mirrored again and the driver is idle, for the next transaction. *)
Theorem heap_transaction_exact s ws0 ws1 : idle s h0 h1 -> mirrored h0 h1 (hs_mem s) ->
  Forall (in_region h0) ws0 -> Forall (in_region h1) ws1 ->
  Forall2 (fun w0 w1 => w_ty w0 = w_ty w1 /\ w_addr w0 - h_data h0 = w_addr w1 - h_data h1) ws0 ws1 ->
  let M := replay ws1 (replay ws0 (hs_mem s)) in
  (mirrored h0 h1 M -> exists s', heap_transaction ws0 ws1 s = Ret s') /\
  forall s', heap_transaction ws0 ws1 s = Ret s' -> mirrored h0 h1 M /\ hs_mem s' ≈ M /\ idle s' h0 h1.
Proof using All.
  intros (Hp & Hcf & c0 & c1 & Hcow & Hc0 & Hc1 & Hd0 & Hs0 & Hd1 & Hs1) Hm Hr0 Hr1 Ht. cbv zeta. assert (Hon0 : on_heap c0 h0) by done. assert (Hon1 : on_heap c1 h1) by done.
  pose proof (rg_data _ _ Hreg) as [? ?]. pose proof (rg_top _ _ Hreg) as [? ?].
  pose proof (region_wr_ok c0 h0 ws0 Hon0 ltac:(done) ltac:(done) Hr0) as Hok0. pose proof (region_wr_ok c1 h1 ws1 Hon1 ltac:(done) ltac:(done) Hr1) as Hok1.
  destruct (cow_writes_ok ws0 c0 ∅ (hs_mem s) _ Hwb Hc0 (overlay_empty _ _) Hok0) as (c0' & W0 & E0 & Hd0' & Hh0 & Ho0).
  destruct (cow_writes_ok ws1 c1 ∅ (hs_mem s) _ Hwb Hc1 (overlay_empty _ _) Hok1) as (c1' & W1 & E1 & Hd1' & Hh1 & Ho1).
  assert (Hk : same_keys c0' c1').
  { eapply (cow_writes_keys ws0 ws1 c0 c1 ∅ ∅); try done.
    - intros i Hi. assert (Hnil : forall c, cow_rel c ∅ -> keys c i = []); [|by rewrite !Hnil]. intros c Hc. destruct (keys c i) as [|k l] eqn:E; [done|].
      exfalso. apply (no_keys c i k Hc). rewrite E. by left.
    - eapply Forall2_impl; [exact Ht|]. intros w0 w1 [-> Ho]. split; [done|]. unfold key_of. rewrite (base_on c0 h0 Hon0), (base_on c1 h1 Hon1). by rewrite Ho. }
  pose proof (words_overlaid c0 c1 c0' c1' W0 W1 (hs_mem s) ws0 ws1 Hon0 Hon1 Hc0 Hc1 Hr0 Hr1 E0 E1 Hd0' Hd1' Hh0 Hh1 Ho0 Ho1) as Hov.
  pose proof (tables_match c0 c1 c0' c1' W0 W1 (hs_mem s) ws0 ws1 Hon0 Hon1 Hc0 Hc1 Hr0 Hr1 E0 E1 Hd0' Hd1' Hh0 Hh1 Ho0 Ho1 Hk Hm) as Hmatch.
  rewrite (heap_transaction_unfold ws0 ws1 s c0 c1 c0' c1' Hp Hcf Hcow E0 E1). split.
  - intros HM. destruct (cow_apply_heap_ok Hmode c0' c1' W0 W1 (hs_mem s) _ Hd0' Hd1' Hov (proj2 Hmatch HM)) as ([[t0 t1] m'] & ->). by eexists.
  - intros s' E. destruct (cow_apply_heap c0' c1' (hs_mem s)) as [[[t0 t1] m']|] eqn:Ea; [|done]. injection E as <-.
    destruct (cow_apply_heap_inv Hmode c0' c1' W0 W1 (hs_mem s) _ Hd0' Hd1' Hov t0 t1 m' Ea) as (HM & Ht0 & Ht1 & Eh0 & Eh1 & Hb).
    split; [by apply Hmatch|]. split; [done|]. split; [done|]. split; [done|]. exists t0, t1. cbn. rewrite Eh0, Eh1, Hh0, Hh1. done.
Qed.

(** ** Addresses *)

(** The twin of an address is at the same offset of the other heap, and its twin is
    the address. *)
Lemma sei_other_twin s o : hs_heap s = [h0; h1] -> hs_p s = 0 \/ hs_p s = 1 -> 0 <= o < h_size h0 ->
  sei_other s (h_data h0 + o) = Ret (h_data h1 + o) /\ sei_other s (h_data h1 + o) = Ret (h_data h0 + o).
Proof using Hreg.
  intros Hh Hp Ho. destruct Hreg as [(Hs & Hpos & _) [? ?] _ [? ?] Hdis]. unfold sei_other. rewrite Hh.
  assert (Hin : forall a b c, 0 < h_size a -> heap_in a (h_data b + c) = bool_decide (h_data a <= h_data b + c < h_data a + h_size a)).
  { intros a b c Ha. unfold heap_in. rewrite (proj2 (Z.eqb_neq _ 0)) by lia. case_bool_decide; [rewrite andb_true_iff, Z.leb_le, Z.ltb_lt; lia|].
    rewrite andb_false_iff, Z.leb_gt, Z.ltb_ge. lia. }
  assert (Hmove : forall a b x, 0 < h_size a -> 0 < h_size b -> 0 < h_data b -> 0 <= x < 2^63 -> h_data b + x < 2^63 -> (rel ← heap_rel a (h_data a + x); heap_get b rel) = Ret (h_data b + x)).
  { intros a b x Ha Hb Hd Hx Hbx. rewrite heap_rel_ok, bind_Ret_l, heap_get_ok, Z.add_simpl_l, (u64_small x), u64_small by (done || lia). done. }
  destruct Hp as [->| ->]; change (arr_getZ [h0; h1] 0) with (Ret h0); change (arr_getZ [h0; h1] 1) with (Ret h1);
    change (arr_getZ [h0; h1] (1 - 0)) with (Ret h1); change (arr_getZ [h0; h1] (1 - 1)) with (Ret h0); rewrite c_assert_true, !bind_Ret_l, !Hin by lia;
    (split; repeat (case_bool_decide; try lia); rewrite ?c_assert_true, ?bind_Ret_l; apply Hmove; lia).
Qed.

(** [__sei_other] answers in every phase and outside of traversals, and leaves the state
    as it was. *)
Lemma thread_other_twin s o : hs_heap s = [h0; h1] -> 0 <= o < h_size h0 ->
  __sei_other s (h_data h0 + o) = Ret (h_data h1 + o, s) /\ __sei_other s (h_data h1 + o) = Ret (h_data h0 + o, s).
Proof using Hreg.
  intros Hh Ho. unfold __sei_other. destruct (sei_other_twin (sei_setp s 0) o Hh (or_introl eq_refl) Ho) as [-> ->].
  rewrite !bind_Ret_l. by destruct s.
Qed.

(** ** Reads *)

(** A read compares the committed copies: it returns what the execution has written or
    else the committed value when they agree (or are pointers to the same offset), and
    fails otherwise. *)
Lemma sei_read_checked s t o c W M : hs_heap s = [h0; h1] -> hs_p s = 0 -> arr_get (hs_cow s) 0 = Ret c -> on_heap c h0 -> cow_rel c W ->
  overlay (c_heap c) W (hs_mem s) M -> aligned t (h_data h0 + o) -> 0 <= o < h_size h0 ->
  let v := load (sizeof t) (hs_mem s) (h_data h0 + o) in let v' := load (sizeof t) (hs_mem s) (h_data h1 + o) in
  sei_read t s (h_data h0 + o) =
    if decide (v = v' \/ (sizeof t = 8%nat /\ twin h0 h1 v v')) then Ret (load (sizeof t) M (h_data h0 + o)) else Stop (SeiFail "error mem check").
Proof using Hmode Hwb Hreg.
  intros Hh Hp Hc Hon Hcr Hov Ha Ho v v'. destruct Hreg as [(Hs & Hpos & _) [? ?] _ [? ?] Hdis]. unfold sei_read. rewrite Hh, Hp, c_assert_true, bind_Ret_l by done.
  change (arr_getZ [h0; h1] 0) with (Ret h0). change (arr_getZ [h0; h1] (1 - 0)) with (Ret h1). rewrite !bind_Ret_l. cbv zeta. unfold heap_in.
  rewrite !(proj2 (Z.eqb_neq _ 0)) by lia. replace ((h_data h1 <=? h_data h0 + o) && (h_data h0 + o <? h_data h1 + h_size h1)) with false
    by (symmetry; rewrite andb_false_iff, Z.leb_gt, Z.ltb_ge; lia).
  rewrite (proj2 (Z.leb_le _ _)), (proj2 (Z.ltb_lt _ _)) by lia. cbn [andb negb]. rewrite (heap_rel_ok h0 (h_data h0 + o)), bind_Ret_l, heap_get_ok, bind_Ret_l by lia.
  rewrite Z.add_simpl_l, (u64_small o), u64_small by lia. fold v v'. change (arr_getZ (hs_cow s) 0) with (arr_get (hs_cow s) 0). rewrite Hc, bind_Ret_l.
  assert (Er : cow_read t c (hs_mem s) (h_data h0 + o) = Ret (load (sizeof t) M (h_data h0 + o))).
  { eapply cow_read_ok; try done. unfold valid_addr. rewrite (base_on c h0 Hon). lia. }
  rewrite Er. unfold twin. destruct (Z.eqb_spec v v') as [Ev|Ev]; cbn [negb]; [by rewrite bind_Ret_l, decide_True by (by left)|].
  destruct (Nat.eqb_spec (sizeof t) 8) as [Et|Et]; [|rewrite decide_False by tauto; done].
  rewrite (heap_rel_ok h0), bind_Ret_l, (heap_rel_ok h1), bind_Ret_l by lia.
  destruct (Z.eqb_spec (u64 (v - h_data h0)) (u64 (v' - h_data h1))) as [Eu|Eu]; cbn [fail_ifn]; [rewrite bind_Ret_l, decide_True by tauto; done|rewrite decide_False by tauto; done].
Qed.
End Exact.
End Driver.

(** ** Examples *)

Definition demo_heap_mode : CowBuild := {| HEAP_MODE := true; COW_WT := false |}.
Definition demo_h0 : heap := mk_heap 2048 0 [] 4096.
Definition demo_h1 : heap := mk_heap 2048 0 [] 8192.

Lemma demo_regions : regions demo_h0 demo_h1.
Proof. split; repeat split; solve [by vm_compute | left; by vm_compute]. Qed.

Definition demo_hsei : hsei libc := let B := demo_heap_mode in
  mk_hsei (-1) [demo_h0; demo_h1] [cow_init demo_h0 COW_SIZE; cow_init demo_h1 COW_SIZE] [mk_cfc SET SET SET SET; mk_cfc SET SET SET SET] ∅ (mk_libc ∅).

Lemma demo_idle : let B := demo_heap_mode in idle demo_hsei demo_h0 demo_h1.
Proof.
  intros B. split; [done|]. split; [done|]. exists (cow_init demo_h0 COW_SIZE), (cow_init demo_h1 COW_SIZE).
  assert (Hb : forall h, 0 < h_size h -> 0 <= h_data h -> h_data h mod 8 = 0 -> base_ok (H0:=B) h) by (intros h ? ? ?; split; done).
  split; [done|]. split; [apply cow_init_rel; [apply Hb; by vm_compute|unfold COW_SIZE; lia]|]. split; [apply cow_init_rel; [apply Hb; by vm_compute|unfold COW_SIZE; lia]|done].
Qed.

(** A check of all words. *)
Lemma mirrored_check h0 h1 m : forallb (fun k => bool_decide (twin h0 h1 (load 8 m (h_data h0 + 8 * k)) (load 8 m (h_data h1 + 8 * k)))) (seqZ 0 (h_size h0 / 8)) = true -> mirrored h0 h1 m.
Proof.
  intros Hf k Hk Hks. rewrite forallb_forall in Hf. specialize (Hf k). rewrite bool_decide_eq_true in Hf. apply Hf. apply list_elem_of_In, elem_of_seqZ.
  pose proof (Z.div_mod (h_size h0) 8 ltac:(lia)). pose proof (Z.mod_pos_bound (h_size h0) 8 ltac:(lia)). lia.
Qed.

(** A number, and a pointer to it, each execution to its own copy. *)
Lemma heap_transaction_exact_witness : let B := debug_build 2 in let C := demo_heap_mode in
  exists s', heap_transaction [mk_wr uint32_t 4100 7; mk_wr uint64_t 4112 4100] [mk_wr uint32_t 8196 7; mk_wr uint64_t 8208 8196] demo_hsei = Ret s' /\
    mirrored demo_h0 demo_h1 (hs_mem s').
Proof.
  intros B C. set (ws0 := [mk_wr uint32_t 4100 7; mk_wr uint64_t 4112 4100]). set (ws1 := [mk_wr uint32_t 8196 7; mk_wr uint64_t 8208 8196]).
  destruct (heap_transaction_exact (H:=B) (H0:=C) eq_refl eq_refl demo_h0 demo_h1 demo_regions demo_hsei ws0 ws1 demo_idle) as [Hret Hs].
  - intros k _ _. by left.
  - repeat constructor; cbn; lia.
  - repeat constructor; cbn; lia.
  - by repeat constructor.
  - destruct Hret as (s' & E); [apply mirrored_check; vm_compute; reflexivity|]. exists s'. split; [exact E|]. destruct (Hs s' E) as (HM & Hmem & _).
    intros k Hk Hks. rewrite Hmem. by apply HM.
Defined.

(** The commit does not compare the addresses: executions that write the same value at
    different offsets of the same bucket pass, and the heaps differ. *)
Lemma heap_commit_ignores_addresses : let B := debug_build 2 in let C := demo_heap_mode in
  exists s', heap_transaction [mk_wr uint64_t 4096 7] [mk_wr uint64_t 9216 7] demo_hsei = Ret s' /\ ~ mirrored demo_h0 demo_h1 (hs_mem s').
Proof.
  intros B C. eexists. split; [vm_compute; reflexivity|]. intros Hm. specialize (Hm 0 ltac:(lia) ltac:(cbn; lia)). by vm_compute in Hm; destruct Hm.
Qed.
