(* ===== verification/Talloc.v ===== *)
(** * The traversal allocator (src/talloc.c)

    Memory allocated by a handler is allocated once, in phase 0; the other
    phases get the same addresses in the same order, so that a deterministic
    handler computes the same pointers in every execution.  Rolling back frees
    what phase 0 allocated. *)

From S2P Require Export Alloc.

(** config.h *)
Definition TALLOC_MAX_ALLOCS : nat := Z.to_nat 20000.
#[global] Opaque TALLOC_MAX_ALLOCS.

Record talloc := mk_talloc {
  ta_p : nat;
  ta_redundancy_level : nat;
  ta_allocations : list (Z * Z);       (* addr, size; TALLOC_MAX_ALLOCS slots *)
  ta_size : list nat;                  (* allocation count of each phase *)
}.

Section Talloc.
Context `{Build} {S : Type} `{Allocator S}.

Definition talloc_init : talloc :=
  mk_talloc 0 SEI_DMR_REDUNDANCY (replicate TALLOC_MAX_ALLOCS (0, 0))
            (replicate SEI_DMR_REDUNDANCY 0%nat).

(** [s] is the state of the allocator behind [talloc->heap ? heap_malloc :
    malloc]. *)
Definition talloc_malloc (t : talloc) (s : S) (size : Z) : outcome (Z * talloc * S) :=
  c_assert (ta_p t <? SEI_DMR_REDUNDANCY)%nat;;
  if (ta_p t =? 0)%nat then
    n ← arr_get (ta_size t) 0;
    c_assert (n + 1 <? TALLOC_MAX_ALLOCS)%nat;;
    sizes ← arr_set (ta_size t) 0 (n + 1)%nat;
    '(addr, s') ← al_malloc s size;
    allocs ← arr_set (ta_allocations t) n (addr, size);
    c_assert (negb (addr =? 0));;
    Ret (addr, mk_talloc (ta_p t) (ta_redundancy_level t) allocs sizes, s')
  else
    n ← arr_get (ta_size t) (ta_p t);
    sizes ← arr_set (ta_size t) (ta_p t) (n + 1)%nat;
    a ← arr_get (ta_allocations t) n;
    Ret (a.1, mk_talloc (ta_p t) (ta_redundancy_level t) (ta_allocations t) sizes, s).

Definition talloc_switch (t : talloc) : outcome talloc :=
  c_assert (ta_p t <? ta_redundancy_level t - 1)%nat;;
  let next_phase := (ta_p t + 1)%nat in
  n ← arr_get (ta_size t) next_phase;
  c_assert (n =? 0)%nat;;
  Ret (mk_talloc next_phase (ta_redundancy_level t) (ta_allocations t) (ta_size t)).

(** [for (i = 0; i < redundancy_level; i++) talloc->size[i] = 0;] *)
Definition reset_counts (level : nat) (sizes : list nat) : outcome (list nat) :=
  for_range level 0 (fun i sizes => arr_set sizes i 0%nat) sizes.

Definition talloc_clean (t : talloc) : outcome talloc :=
  let level := ta_redundancy_level t in
  c_assert (ta_p t =? level - 1)%nat;;
  expected ← arr_get (ta_size t) 0;
  for_range (level - 1) 1 (fun i _ =>
    n ← arr_get (ta_size t) i;
    fail_ifn (n =? expected)%nat "number of allocations in traversals differ") tt;;
  sizes ← reset_counts level (ta_size t);
  Ret (mk_talloc 0 level (ta_allocations t) sizes).

Fixpoint counts_equal (sizes : list nat) (expected n i : nat) : outcome bool :=
  match n with
  | O => Ret true
  | Datatypes.S n' =>
      k ← arr_get sizes i;
      if negb (k =? expected)%nat then Ret false else counts_equal sizes expected n' (i + 1)
  end.

Definition talloc_can_commit (t : talloc) : outcome bool :=
  expected ← arr_get (ta_size t) 0;
  counts_equal (ta_size t) expected (ta_redundancy_level t - 1) 1.

Definition talloc_rollback (t : talloc) (s : S) : outcome (talloc * S) :=
  n0 ← arr_get (ta_size t) 0;
  '(allocs, s') ← for_range n0 0 (fun i st =>
    let '(allocs, s) := st in
    a ← arr_get allocs i;
    if negb (a.1 =? 0) then
      s' ← al_free s a.1;
      allocs' ← arr_set allocs i (0, a.2);
      Ret (allocs', s')
    else Ret (allocs, s)) (ta_allocations t, s);
  sizes ← reset_counts (ta_redundancy_level t) (ta_size t);
  Ret (mk_talloc 0 (ta_redundancy_level t) allocs sizes, s').

(** [talloc_addr_in_range]: in one of the first [n] recorded blocks. *)
Fixpoint in_allocs (allocs : list (Z * Z)) (n : nat) (addr : Z) : bool :=
  match n, allocs with
  | Datatypes.S n', (start, size) :: allocs' =>
      if negb (start =? 0) && ((start <=? addr) && (addr <? start + size)) then true
      else in_allocs allocs' n' addr
  | _, _ => false
  end.

Definition talloc_addr_in_range (t : talloc) (addr : Z) : bool :=
  in_allocs (ta_allocations t) (nth 0 (ta_size t) 0%nat) addr.

(** ** Invariant *)

(** The arrays have their declared lengths, phase 0 has allocated [ps], and no
    phase counter exceeds the table. *)
Record talloc_wf (t : talloc) : Prop := {
  twf_dmr : (2 <= SEI_DMR_REDUNDANCY)%nat;
  twf_level : (2 <= ta_redundancy_level t <= SEI_DMR_REDUNDANCY)%nat;
  twf_p : (ta_p t < ta_redundancy_level t)%nat;
  twf_len : length (ta_size t) = SEI_DMR_REDUNDANCY;
  twf_allocs : length (ta_allocations t) = TALLOC_MAX_ALLOCS;
}.

(** The blocks of the current transaction, in order. *)
Definition recorded (t : talloc) : list Z :=
  fst <$> take (nth 0 (ta_size t) 0%nat) (ta_allocations t).

(** A run of allocation requests. *)
Fixpoint talloc_mallocs (t : talloc) (s : S) (sizes : list Z)
  : outcome (list Z * talloc * S) :=
  match sizes with
  | [] => Ret ([], t, s)
  | n :: sizes' =>
      '(p, t1, s1) ← talloc_malloc t s n;
      '(ps, t2, s2) ← talloc_mallocs t1 s1 sizes';
      Ret (p :: ps, t2, s2)
  end.

(** ** Lemmas *)

Context `{!AllocatorLaws S}.
Implicit Types (t : talloc) (s : S).

Definition count t (i : nat) : nat := nth i (ta_size t) 0%nat.

Lemma get_count t i : talloc_wf t -> (i < SEI_DMR_REDUNDANCY)%nat ->
  ta_size t !! i = Some (count t i).
Proof.
  intros Hwf Hi. unfold count. rewrite nth_lookup.
  destruct (ta_size t !! i) eqn:E; [done|]. apply lookup_ge_None in E.
  rewrite (twf_len t Hwf) in E. lia.
Qed.

Lemma count_insert_eq q v t i n allocs : talloc_wf t -> (i < SEI_DMR_REDUNDANCY)%nat ->
  count (mk_talloc q v allocs (<[i := n]> (ta_size t))) i = n.
Proof.
  intros Hwf Hi. unfold count. cbn. rewrite nth_lookup.
  by rewrite list_lookup_insert_eq by (rewrite (twf_len t Hwf); lia).
Qed.

Lemma count_insert_ne q v t i j n allocs : i <> j ->
  count (mk_talloc q v allocs (<[i := n]> (ta_size t))) j = count t j.
Proof. intros Hij. unfold count. cbn. by rewrite !nth_lookup, list_lookup_insert_ne. Qed.

(** Allocation in phase 0: a fresh block, appended to the record. *)
Lemma talloc_malloc_phase0 t s n :
  talloc_wf t -> ta_p t = 0%nat -> (count t 0 + 1 < TALLOC_MAX_ALLOCS)%nat ->
  exists p t' s', talloc_malloc t s n = Ret (p, t', s') /\
    talloc_wf t' /\ ta_p t' = 0%nat /\ ta_redundancy_level t' = ta_redundancy_level t /\
    count t' 0 = (count t 0 + 1)%nat /\ (forall i, i <> 0%nat -> count t' i = count t i) /\
    recorded t' = recorded t ++ [p] /\
    p <> 0 /\ (p ∉ al_live s) /\ al_live s' = {[p]} ∪ al_live s.
Proof.
  intros Hwf Hp Hmax. destruct (malloc_total s n) as (p & s' & Hm).
  destruct (malloc_fresh s n p s' Hm) as (Hp0 & Hfresh & Hlive).
  pose proof (twf_dmr t Hwf). pose proof (twf_allocs t Hwf) as Hal.
  unfold talloc_malloc. rewrite Hp. cbn [Nat.eqb].
  rewrite (proj2 (Nat.ltb_lt 0 _)), c_assert_true by lia. cbn -[Nat.ltb].
  unfold arr_get. rewrite (get_count t 0 Hwf) by lia. cbn -[Nat.ltb].
  rewrite (proj2 (Nat.ltb_lt _ _) Hmax), c_assert_true. cbn.
  unfold arr_set. rewrite decide_True by (rewrite (twf_len t Hwf); lia). cbn.
  rewrite Hm. cbn. rewrite decide_True by lia. cbn.
  rewrite (proj2 (Z.eqb_neq p 0) Hp0), c_assert_true. cbn.
  eexists _, _, _. split; [reflexivity|].
  assert (Hc0 : forall q v allocs, count (mk_talloc q v allocs
      (<[0%nat := (count t 0 + 1)%nat]> (ta_size t))) 0 = (count t 0 + 1)%nat)
    by (intros; apply count_insert_eq; [done|lia]).
  split_and!; try done.
  - destruct Hwf. split; cbn; rewrite ?length_insert; lia.
  - intros i Hi. by apply count_insert_ne.
  - unfold recorded at 1. fold (count t 0). fold (count (mk_talloc 0 (ta_redundancy_level t)
      (<[count t 0:=(p, n)]> (ta_allocations t)) (<[0%nat := (count t 0 + 1)%nat]> (ta_size t))) 0).
    rewrite Hc0. cbn [ta_allocations].
    rewrite Nat.add_1_r, (take_S_r _ _ (p, n)) by (apply list_lookup_insert_eq; lia).
    rewrite take_insert_ge by lia. by rewrite fmap_app.
Qed.

(** Allocation in a later phase: the next recorded block, nothing allocated. *)
Lemma talloc_malloc_later t s n p :
  talloc_wf t -> (0 < ta_p t)%nat -> recorded t !! count t (ta_p t) = Some p ->
  exists t', talloc_malloc t s n = Ret (p, t', s) /\
    talloc_wf t' /\ ta_p t' = ta_p t /\ ta_redundancy_level t' = ta_redundancy_level t /\
    recorded t' = recorded t /\ count t' 0 = count t 0 /\
    count t' (ta_p t) = (count t (ta_p t) + 1)%nat /\
    (forall i, i <> ta_p t -> count t' i = count t i).
Proof.
  intros Hwf Hp Hrec. pose proof (twf_p t Hwf). pose proof (twf_level t Hwf).
  unfold recorded in Hrec. rewrite list_lookup_fmap in Hrec.
  destruct (take _ _ !! _) as [[addr sz]|] eqn:E; [|done]. injection Hrec as ->.
  rewrite lookup_take_Some in E. destruct E as [Ha Hlt].
  unfold talloc_malloc. rewrite (proj2 (Nat.ltb_lt _ _)), c_assert_true by lia. cbn.
  rewrite (proj2 (Nat.eqb_neq _ _)) by lia.
  unfold arr_get. rewrite (get_count t _ Hwf) by lia. cbn.
  unfold arr_set. rewrite decide_True by (rewrite (twf_len t Hwf); lia). cbn.
  rewrite Ha. cbn. eexists. split; [reflexivity|].
  assert (Hc0 : count (mk_talloc (ta_p t) (ta_redundancy_level t) (ta_allocations t)
      (<[ta_p t := (count t (ta_p t) + 1)%nat]> (ta_size t))) 0 = count t 0)
    by (apply count_insert_ne; lia).
  split_and!; try done.
  - destruct Hwf. split; cbn; rewrite ?length_insert; lia.
  - unfold recorded. fold (count t 0). by rewrite <- Hc0.
  - apply count_insert_eq; [done|lia].
  - intros i Hi. by apply count_insert_ne.
Qed.

(** Phase 0 of a handler that asks for blocks of the given sizes. *)
Lemma talloc_mallocs_phase0 sizes t s :
  talloc_wf t -> ta_p t = 0%nat -> (count t 0 + length sizes < TALLOC_MAX_ALLOCS)%nat ->
  exists ps t' s', talloc_mallocs t s sizes = Ret (ps, t', s') /\
    talloc_wf t' /\ ta_p t' = 0%nat /\ ta_redundancy_level t' = ta_redundancy_level t /\
    count t' 0 = (count t 0 + length sizes)%nat /\ (forall i, i <> 0%nat -> count t' i = count t i) /\
    recorded t' = recorded t ++ ps /\ length ps = length sizes /\
    NoDup ps /\ (forall p, p ∈ ps -> p <> 0 /\ p ∉ al_live s) /\
    al_live s' = list_to_set ps ∪ al_live s.
Proof.
  revert t s. induction sizes as [|n sizes IH]; intros t s Hwf Hp Hmax; cbn [talloc_mallocs].
  { exists [], t, s. cbn. rewrite app_nil_r, Nat.add_0_r.
    split_and!; try done; [constructor|set_solver|set_solver]. }
  cbn [length] in Hmax.
  destruct (talloc_malloc_phase0 t s n Hwf Hp ltac:(lia))
    as (p & t1 & s1 & -> & Hwf1 & Hp1 & Hl1 & Hc1 & Hci1 & Hr1 & Hnz & Hfr & Hlv1). cbn.
  destruct (IH t1 s1 Hwf1 Hp1 ltac:(lia))
    as (ps & t2 & s2 & -> & Hwf2 & Hp2 & Hl2 & Hc2 & Hci2 & Hr2 & Hlen & Hnd & Hps & Hlv2). cbn.
  exists (p :: ps), t2, s2. split_and!; try done; try (cbn; lia); try congruence.
  - intros i Hi. rewrite Hci2, Hci1; done.
  - by rewrite Hr2, Hr1, <- app_assoc.
  - constructor; [|done]. intros Hin. apply Hps in Hin as [_ Hin]. rewrite Hlv1 in Hin. set_solver.
  - intros q [->|Hq]%elem_of_cons; [done|]. apply Hps in Hq as [Hq0 Hq]. rewrite Hlv1 in Hq. set_solver.
  - rewrite Hlv2, Hlv1. cbn. set_solver.
Qed.

(** A later phase of a handler that asks for as many blocks. *)
Lemma talloc_mallocs_later sizes t s ps :
  talloc_wf t -> (0 < ta_p t)%nat -> length ps = length sizes ->
  (forall i p, ps !! i = Some p -> recorded t !! (count t (ta_p t) + i)%nat = Some p) ->
  exists t', talloc_mallocs t s sizes = Ret (ps, t', s) /\
    talloc_wf t' /\ ta_p t' = ta_p t /\ ta_redundancy_level t' = ta_redundancy_level t /\
    recorded t' = recorded t /\ count t' 0 = count t 0 /\
    count t' (ta_p t) = (count t (ta_p t) + length sizes)%nat /\
    (forall i, i <> ta_p t -> count t' i = count t i).
Proof.
  revert t ps. induction sizes as [|n sizes IH]; intros t ps Hwf Hp Hlen Hps.
  { destruct ps; [|done]. exists t. cbn. rewrite Nat.add_0_r. split_and!; done. }
  destruct ps as [|p ps]; [done|]. injection Hlen as Hlen.
  destruct (talloc_malloc_later t s n p Hwf Hp) as (t1 & E & Hwf1 & Hp1 & Hl1 & Hr1 & Hc01 & Hc1 & Hci1).
  { specialize (Hps 0%nat p eq_refl). by rewrite Nat.add_0_r in Hps. }
  cbn [talloc_mallocs]. rewrite E. cbn.
  destruct (IH t1 ps Hwf1) as (t2 & -> & Hwf2 & Hp2 & Hl2 & Hr2 & Hc02 & Hc2 & Hci2);
    [lia|done| |].
  { intros i q Hi. rewrite Hp1, Hc1, Hr1, <- Nat.add_assoc. by apply (Hps (Datatypes.S i)). }
  cbn. exists t2. split_and!; try done; try congruence.
  - rewrite <- Hp1 at 1. rewrite Hc2, Hp1, Hc1. cbn. lia.
  - intros i Hi. rewrite Hci2, Hci1; congruence.
Qed.

(** What every successful allocation does to the counters. *)
Lemma talloc_malloc_Ret t s n a t' s' : talloc_wf t -> talloc_malloc t s n = Ret (a, t', s') ->
  talloc_wf t' /\ ta_p t' = ta_p t /\ ta_redundancy_level t' = ta_redundancy_level t /\
  count t' (ta_p t) = (count t (ta_p t) + 1)%nat /\ (forall i, i <> ta_p t -> count t' i = count t i).
Proof.
  intros Hwf E. pose proof (twf_p t Hwf). pose proof (twf_level t Hwf).
  assert (Hg : arr_get (ta_size t) (ta_p t) = Ret (count t (ta_p t))).
  { apply arr_get_Ret, get_count; [done|lia]. }
  unfold talloc_malloc in E. destruct (Nat.eqb_spec (ta_p t) 0) as [Ep|Ep].
  - rewrite Ep in Hg |- *. rewrite Hg in E. inv_outcome. simplify_eq. cbn [ta_p ta_redundancy_level].
    match goal with X : (let '(_, _) := ?r in _) = _ |- _ => destruct r; inv_outcome; simplify_eq end.
    split_and!; [|done|done|apply count_insert_eq; [done|lia]|intros; by apply count_insert_ne].
    destruct Hwf; split; cbn; rewrite ?length_insert; lia.
  - rewrite Hg in E. inv_outcome. simplify_eq. cbn [ta_p ta_redundancy_level].
    split_and!; [|done|done|apply count_insert_eq; [done|lia]|intros; by apply count_insert_ne].
    destruct Hwf; split; cbn; rewrite ?length_insert; lia.
Qed.

Lemma reset_counts_spec level sizes : (level <= length sizes)%nat ->
  exists sizes', reset_counts level sizes = Ret sizes' /\ length sizes' = length sizes /\
    (forall i, (i < level)%nat -> nth i sizes' 0%nat = 0%nat) /\
    (forall i, (level <= i)%nat -> sizes' !! i = sizes !! i).
Proof.
  intros Hle.
  destruct (for_range_total (fun k l => length l = length sizes /\
     (forall i, (i < k)%nat -> nth i l 0%nat = 0%nat) /\ (forall i, (k <= i)%nat -> l !! i = sizes !! i))
     level 0 (fun i l => arr_set l i 0%nat) sizes) as (l & Hrun & Hl & Hz & Hrest).
  - split_and!; try done. intros; lia.
  - intros k l Hk (Hl & Hz & Hrest). unfold arr_set. rewrite decide_True by lia.
    eexists. split; [done|]. rewrite length_insert. split_and!; [done| |].
    + intros i Hi. rewrite nth_lookup. destruct (decide (i = k)) as [->|].
      * by rewrite list_lookup_insert_eq by lia.
      * rewrite list_lookup_insert_ne, <- nth_lookup by lia. apply Hz. lia.
    + intros i Hi. rewrite list_lookup_insert_ne by lia. apply Hrest. lia.
  - exists l. split_and!; done.
Qed.

(** The end of a transaction: every phase allocated as often as phase 0. *)
Lemma talloc_clean_Ret t t' : talloc_wf t -> talloc_clean t = Ret t' ->
  (forall i, (i < ta_redundancy_level t)%nat -> count t i = count t 0) /\
  talloc_wf t' /\ ta_p t' = 0%nat /\ ta_redundancy_level t' = ta_redundancy_level t /\
  (forall i, (i < ta_redundancy_level t)%nat -> count t' i = 0%nat).
Proof.
  intros Hwf E. pose proof (twf_level t Hwf) as Hlv. unfold talloc_clean in E.
  assert (Hg : forall i, (i < ta_redundancy_level t)%nat -> arr_get (ta_size t) i = Ret (count t i)).
  { intros i Hi. apply arr_get_Ret, get_count; [done|lia]. }
  rewrite Hg in E by lia. inv_outcome. simplify_eq.
  match goal with X : for_range _ 1 _ _ = _ |- _ => pose proof (for_range_check_Ret _ _ _ _ X) as Hc end.
  cbn beta in Hc.
  destruct (reset_counts_spec (ta_redundancy_level t) (ta_size t)) as (l & E' & Hll & Hz & _);
    [rewrite (twf_len t Hwf); lia|].
  match goal with X : reset_counts _ _ = Ret _ |- _ => rewrite E' in X; injection X as <- end.
  split_and!; [| |done|done|].
  - apply (range_0_1 _ (fun i => count t i = count t 0)); [done|]. intros i Hi. specialize (Hc i Hi).
    rewrite Hg in Hc by lia. cbn in Hc. by apply fail_ifn_Ret, Nat.eqb_eq in Hc.
  - destruct Hwf; split; cbn; lia.
  - intros i Hi. by apply Hz.
Qed.

Lemma talloc_clean_ok t : talloc_wf t -> ta_p t = (ta_redundancy_level t - 1)%nat ->
  (forall i, (i < ta_redundancy_level t)%nat -> count t i = count t 0) ->
  exists t', talloc_clean t = Ret t'.
Proof.
  intros Hwf Hp Hc. pose proof (twf_level t Hwf) as Hlv. unfold talloc_clean.
  assert (Hg : forall i, (i < ta_redundancy_level t)%nat -> arr_get (ta_size t) i = Ret (count t i)).
  { intros i Hi. apply arr_get_Ret, get_count; [done|lia]. }
  rewrite Hp, Nat.eqb_refl, c_assert_true, Hg by lia. cbn [mbind outcome_bind].
  rewrite for_range_check_ok.
  - cbn [mbind outcome_bind].
    destruct (reset_counts_spec (ta_redundancy_level t) (ta_size t)) as (l & -> & _);
      [rewrite (twf_len t Hwf); lia|]. cbn. eauto.
  - intros i Hi. rewrite Hg by lia. cbn. apply fail_ifn_Ret, Nat.eqb_eq, Hc. lia.
Qed.

Lemma talloc_switch_Ret t t' : talloc_wf t -> (ta_p t + 1 < ta_redundancy_level t)%nat ->
  talloc_switch t = Ret t' ->
  talloc_wf t' /\ ta_p t' = (ta_p t + 1)%nat /\ ta_redundancy_level t' = ta_redundancy_level t /\
  ta_size t' = ta_size t /\ ta_allocations t' = ta_allocations t.
Proof.
  intros Hwf Hp E. unfold talloc_switch in E. inv_outcome. simplify_eq.
  split_and!; try done. destruct Hwf; split; cbn; lia.
Qed.

(** Rolling back frees exactly the blocks the transaction allocated, once
    each, and empties the record. *)
Theorem talloc_rollback_frees t s :
  talloc_wf t -> (count t 0 <= TALLOC_MAX_ALLOCS)%nat ->
  NoDup (recorded t) -> (forall p, p ∈ recorded t -> p <> 0 /\ p ∈ al_live s) ->
  exists t' s', talloc_rollback t s = Ret (t', s') /\ talloc_wf t' /\
    ta_p t' = 0%nat /\ ta_redundancy_level t' = ta_redundancy_level t /\ recorded t' = [] /\
    al_live s' = al_live s ∖ list_to_set (recorded t).
Proof.
  intros Hwf Hmax Hnd Hlive. pose proof (twf_dmr t Hwf). pose proof (twf_allocs t Hwf) as Hal.
  pose proof (twf_level t Hwf).
  unfold talloc_rollback. rewrite (proj2 (arr_get_Ret _ _ _) (get_count t 0 Hwf ltac:(lia))).
  cbn -[for_range].
  assert (Hrec : forall i, (i < count t 0)%nat -> exists a, ta_allocations t !! i = Some a /\
            recorded t !! i = Some a.1).
  { intros i Hi. destruct (lookup_lt_is_Some_2 (ta_allocations t) i ltac:(lia)) as [a Ha].
    exists a. split; [done|]. unfold recorded. fold (count t 0).
    by rewrite list_lookup_fmap, lookup_take_lt, Ha by lia. }
  assert (Hlen : length (recorded t) = count t 0).
  { unfold recorded. rewrite length_fmap, length_take. fold (count t 0). lia. }
  destruct (for_range_total (fun k st => length st.1 = TALLOC_MAX_ALLOCS /\
     (forall i, (k <= i)%nat -> st.1 !! i = ta_allocations t !! i) /\
     al_live st.2 = al_live s ∖ list_to_set (take k (recorded t)))
     (count t 0) 0 (fun i st =>
    let '(allocs, s) := st in
    a ← arr_get allocs i;
    if negb (a.1 =? 0) then
      s' ← al_free s a.1;
      allocs' ← arr_set allocs i (0, a.2);
      Ret (allocs', s')
    else Ret (allocs, s)) (ta_allocations t, s)) as ([allocs s1] & -> & Hl1 & _ & Hlv1).
  - cbn. split_and!; [done|done|set_solver].
  - intros k [allocs s1] Hk (Hl & Hrest & Hlv). cbn in Hl, Hrest, Hlv.
    destruct (Hrec k ltac:(lia)) as (a & Ha & Hr).
    unfold arr_get. rewrite Hrest, Ha by lia. cbn.
    destruct (Hlive a.1) as [Hnz Hin]; [apply list_elem_of_lookup; eauto|].
    rewrite (proj2 (Z.eqb_neq _ _) Hnz). cbn.
    destruct (free_live s1 a.1) as (s2 & -> & Hlv2).
    { rewrite Hlv. apply elem_of_difference. split; [done|].
      rewrite elem_of_list_to_set. intros Hin'.
      apply list_elem_of_lookup in Hin' as [j Hj]. apply lookup_take_Some in Hj as [Hj Hjk].
      assert (j = k) by (eapply NoDup_lookup; eauto). lia. }
    cbn. unfold arr_set. rewrite decide_True by lia. cbn. eexists. split; [done|]. cbn.
    rewrite length_insert. split_and!; [done| |].
    + intros i Hi. rewrite list_lookup_insert_ne by lia. apply Hrest. lia.
    + rewrite Hlv2, Hlv, Nat.add_1_r, (take_S_r _ _ _ Hr). set_solver.
  - cbn in Hl1, Hlv1. cbn -[reset_counts].
    destruct (reset_counts_spec (ta_redundancy_level t) (ta_size t)) as (sz & -> & Hsz & Hz & _).
    { rewrite (twf_len t Hwf). lia. }
    cbn. eexists _, _. split; [reflexivity|]. split_and!; try done.
    + destruct Hwf. split; cbn; lia.
    + unfold recorded. cbn [ta_size ta_allocations]. by rewrite Hz by lia.
    + rewrite Hlv1, take_ge by (rewrite Hlen; lia). done.
Qed.

(** C13.  Allocation is replayed: what the first execution of a handler allocated,
    in a fresh block each, the next execution gets again, the same addresses in
    the same order, and nothing new is allocated. *)
Theorem talloc_replays sizes t s :
  talloc_wf t -> ta_p t = 0%nat -> count t 0 = 0%nat -> count t 1 = 0%nat ->
  (length sizes < TALLOC_MAX_ALLOCS)%nat ->
  exists ps t1 s1 t2 t3, talloc_mallocs t s sizes = Ret (ps, t1, s1) /\
    NoDup ps /\ (forall p, p ∈ ps -> p <> 0 /\ p ∉ al_live s) /\
    al_live s1 = list_to_set ps ∪ al_live s /\
    talloc_switch t1 = Ret t2 /\ talloc_mallocs t2 s1 sizes = Ret (ps, t3, s1) /\
    count t3 1 = count t3 0.
Proof.
  intros Hwf Hp Hc0 Hc1 Hmax. pose proof (twf_level t Hwf).
  destruct (talloc_mallocs_phase0 sizes t s Hwf Hp ltac:(lia))
    as (ps & t1 & s1 & E & Hwf1 & Hp1 & Hl1 & Hct0 & Hct & Hrec & Hlen & Hnd & Hps & Hlive).
  assert (Hsw : exists t2, talloc_switch t1 = Ret t2).
  { unfold talloc_switch. rewrite Hp1, Hl1. rewrite (proj2 (Nat.ltb_lt _ _)), c_assert_true by lia.
    cbn [mbind outcome_bind]. assert (Hg : arr_get (ta_size t1) (0 + 1) = Ret 0%nat).
    { apply arr_get_Ret. cbn [Nat.add]. rewrite get_count by (done || lia). by rewrite Hct, Hc1. }
    rewrite Hg. cbn [mbind outcome_bind Nat.eqb]. rewrite c_assert_true. cbn. eauto. }
  destruct Hsw as [t2 Esw]. destruct (talloc_switch_Ret t1 t2 Hwf1 ltac:(lia) Esw) as (Hwf2 & Hp2 & Hl2 & Hs2 & Ha2).
  rewrite Hp1 in Hp2. cbn in Hp2.
  assert (Hcc : forall i, count t2 i = count t1 i) by (intros; unfold count; by rewrite Hs2).
  assert (Hr2 : recorded t2 = ps).
  { unfold recorded in *. rewrite Hs2, Ha2, Hrec. unfold count in Hc0. by rewrite Hc0. }
  destruct (talloc_mallocs_later sizes t2 s1 ps Hwf2) as (t3 & E3 & _ & _ & _ & _ & Hc30 & Hc31 & _);
    [lia|done| |].
  { intros i p Hi. rewrite Hp2, Hcc, (Hct 1%nat), Hc1, Hr2 by lia. done. }
  exists ps, t1, s1, t2, t3. split_and!; try done.
  rewrite Hc30, <- Hp2, Hc31, Hp2, !Hcc, (Hct 1%nat), Hc1, Hct0, Hc0 by lia. done.
Qed.

End Talloc.

(** ** Witnesses *)

Lemma talloc_init_wf2 : @talloc_wf (debug_build 2) (@talloc_init (debug_build 2)).
Proof.
  split; cbn [SEI_DMR_REDUNDANCY debug_build talloc_init ta_redundancy_level ta_p ta_size ta_allocations];
    rewrite ?length_replicate; lia.
Qed.

Lemma talloc_replays_witness :
  let _ := debug_build 2 in
  exists ps t1 s1 t2 t3, talloc_mallocs talloc_init (mk_libc ∅) [24; 8] = Ret (ps, t1, s1) /\
    talloc_switch t1 = Ret t2 /\ talloc_mallocs t2 s1 [24; 8] = Ret (ps, t3, s1).
Proof.
  intros B. destruct (@talloc_replays B libc _ _ [24; 8] talloc_init (mk_libc ∅) talloc_init_wf2 eq_refl eq_refl eq_refl)
    as (ps & t1 & s1 & t2 & t3 & E1 & _ & _ & _ & E2 & E3 & _).
  - change TALLOC_MAX_ALLOCS with (Z.to_nat 20000). cbn. lia.
  - exists ps, t1, s1, t2, t3. split; [exact E1|]. split; [exact E2|exact E3].
Defined.

Lemma talloc_rollback_frees_witness :
  let _ := debug_build 2 in
  exists t' s', talloc_rollback talloc_init (mk_libc ∅) = Ret (t', s') /\ recorded t' = [].
Proof.
  intros B. destruct (@talloc_rollback_frees B libc _ _ talloc_init (mk_libc ∅) talloc_init_wf2)
    as (t' & s' & E & _ & _ & _ & Hr & _).
  - apply Nat.le_0_l.
  - apply NoDup_nil_2.
  - intros p Hp. by apply elem_of_nil in Hp.
  - exists t', s'. split; [exact E|exact Hr].
Defined.
