(* ===== verification/Tbin.v ===== *)
(** * The trash bin (src/tbin.c)

    Frees requested by a handler are delayed to the commit.  Every phase records
    its own pointers; the commit checks that all phases recorded the same list
    and frees each pointer once. *)

From S2P Require Export Alloc.

(** config.h *)
Definition TBIN_SIZE : nat := Z.to_nat 10000.
#[global] Opaque TBIN_SIZE.

Record tbin := mk_tbin {
  tb_max_items : nat;
  tb_redundancy_level : nat;
  tb_nitems : list nat;            (* number of items of each phase *)
  tb_items : list (list Z);        (* items; one pointer per phase each *)
}.

Section Tbin.
Context `{Build} {S : Type} `{Allocator S}.

Definition tbin_init (max_items : nat) : outcome tbin :=
  c_assert (0 <? max_items)%nat;;
  Ret (mk_tbin max_items SEI_DMR_REDUNDANCY (replicate SEI_DMR_REDUNDANCY 0%nat)
               (replicate max_items (replicate SEI_DMR_REDUNDANCY 0))).

Definition tbin_add (t : tbin) (ptr p : Z) : outcome tbin :=
  c_assert ((0 <=? p) && (p <? Z.of_nat SEI_DMR_REDUNDANCY));;
  n ← arr_getZ (tb_nitems t) p;
  c_assert (n + 1 <=? tb_max_items t)%nat;;
  nitems ← arr_setZ (tb_nitems t) p (n + 1)%nat;
  it ← arr_get (tb_items t) n;
  it' ← arr_setZ it p ptr;
  items ← arr_set (tb_items t) n it';
  Ret (mk_tbin (tb_max_items t) (tb_redundancy_level t) nitems items).

Definition tbin_can_flush (t : tbin) : outcome bool :=
  let level := tb_redundancy_level t in
  expected_count ← arr_get (tb_nitems t) 0;
  same ← check_range (level - 1) 1 (fun p =>
    n ← arr_get (tb_nitems t) p; Ret (n =? expected_count)%nat);
  if negb same then Ret false
  else check_range expected_count 0 (fun i =>
    it ← arr_get (tb_items t) i;
    valid ← check_range level 0 (fun p => q ← arr_get it p; Ret (negb (q =? 0)));
    if negb valid then Ret false
    else check_range (level - 1) 1 (fun p =>
      q0 ← arr_get it 0; q ← arr_get it p; Ret (q0 =? q))).

(** [for (p = 0; p < level; p++) it->ptr[p] = NULL;] *)
Definition clear_item (level : nat) (it : list Z) : outcome (list Z) :=
  for_range level 0 (fun p it => arr_set it p 0) it.

Definition reset_nitems (level : nat) (nitems : list nat) : outcome (list nat) :=
  for_range level 0 (fun p l => arr_set l p 0%nat) nitems.

(** Body of the loop of [tbin_flush]: verify an item, free it once, clear it. *)
Definition flush_item (level i : nat) (st : list (list Z) * S) : outcome (list (list Z) * S) :=
  let '(items, s) := st in
  it ← arr_get items i;
  for_range level 0 (fun p _ =>
    q ← arr_get it p; fail_ifn (negb (q =? 0)) "null pointer in phase") tt;;
  for_range (level - 1) 1 (fun p _ =>
    q0 ← arr_get it 0; q ← arr_get it p;
    fail_ifn (q0 =? q) "pointers differ across phases") tt;;
  q0 ← arr_get it 0;
  s' ← al_free s q0;
  it' ← clear_item level it;
  items' ← arr_set items i it';
  Ret (items', s').

Definition tbin_flush (t : tbin) (s : S) : outcome (tbin * S) :=
  let level := tb_redundancy_level t in
  expected_count ← arr_get (tb_nitems t) 0;
  for_range (level - 1) 1 (fun p _ =>
    n ← arr_get (tb_nitems t) p;
    fail_ifn (n =? expected_count)%nat "number of items differ across phases") tt;;
  '(items, s') ← for_range expected_count 0 (flush_item level) (tb_items t, s);
  nitems ← reset_nitems level (tb_nitems t);
  Ret (mk_tbin (tb_max_items t) level nitems items, s').

(** Reset without freeing (rollback). *)
Definition tbin_reset (t : tbin) : outcome tbin :=
  let level := tb_redundancy_level t in
  n0 ← arr_get (tb_nitems t) 0;
  max_count ← for_range (level - 1) 1 (fun p acc =>
    n ← arr_get (tb_nitems t) p; Ret (if (acc <? n)%nat then n else acc)) n0;
  items ← for_range max_count 0 (fun i items =>
    it ← arr_get items i;
    it' ← clear_item level it;
    arr_set items i it') (tb_items t);
  nitems ← reset_nitems level (tb_nitems t);
  Ret (mk_tbin (tb_max_items t) level nitems items).

(** ** Invariant and view *)

Record tbin_wf (t : tbin) : Prop := {
  tbwf_level : (1 <= tb_redundancy_level t <= SEI_DMR_REDUNDANCY)%nat;
  tbwf_nitems : length (tb_nitems t) = SEI_DMR_REDUNDANCY;
  tbwf_items : length (tb_items t) = tb_max_items t;
  tbwf_item : forall i it, tb_items t !! i = Some it -> length it = SEI_DMR_REDUNDANCY;
  tbwf_bound : forall p n, tb_nitems t !! p = Some n -> (n <= tb_max_items t)%nat;
}.

(** The pointers phase [p] asked to free, in order. *)
Definition freed (t : tbin) (p : nat) : list Z :=
  (fun it => nth p it 0) <$> take (nth p (tb_nitems t) 0%nat) (tb_items t).

(** All phases asked to free the same non-null pointers. *)
Definition tbin_agree (t : tbin) : Prop :=
  (forall p, (p < tb_redundancy_level t)%nat -> freed t p = freed t 0) /\
  (forall q, q ∈ freed t 0 -> q <> 0).

(** ** Lemmas *)

Context `{!AllocatorLaws S}.
Implicit Types (t : tbin) (s : S) (it : list Z).

Abbreviation nitems_of t p := (nth p (tb_nitems t) 0%nat).

Lemma get_nitems t p : tbin_wf t -> (p < SEI_DMR_REDUNDANCY)%nat ->
  arr_get (tb_nitems t) p = Ret (nitems_of t p).
Proof.
  intros Hwf Hp. destruct (arr_get_lt (tb_nitems t) p) as (n & Hn & ->);
    [rewrite (tbwf_nitems t Hwf); lia|]. by rewrite nth_lookup, Hn.
Qed.

Lemma nitems_le t p : tbin_wf t -> (nitems_of t p <= length (tb_items t))%nat.
Proof.
  intros Hwf. rewrite nth_lookup. destruct (tb_nitems t !! p) as [n|] eqn:E; cbn; [|lia].
  rewrite (tbwf_items t Hwf). by eapply tbwf_bound.
Qed.

Lemma get_ptr it p : (p < length it)%nat -> arr_get it p = Ret (nth p it 0).
Proof.
  intros Hp. destruct (arr_get_lt it p Hp) as (q & Hq & ->). by rewrite nth_lookup, Hq.
Qed.

Lemma freed_lookup t p i q : tbin_wf t ->
  freed t p !! i = Some q <->
  (i < nitems_of t p)%nat /\ exists it, tb_items t !! i = Some it /\ q = nth p it 0.
Proof.
  intros Hwf. unfold freed. rewrite list_lookup_fmap. split.
  - destruct (take _ _ !! i) as [it|] eqn:E; [|done]. intros [= <-].
    apply lookup_take_Some in E as [E Hi]. eauto.
  - intros [Hi (it & Hit & ->)]. by rewrite lookup_take_lt, Hit by done.
Qed.

Lemma freed_length t p : tbin_wf t -> length (freed t p) = nitems_of t p.
Proof.
  intros Hwf. pose proof (nitems_le t p Hwf). unfold freed. rewrite length_fmap, length_take. lia.
Qed.

(** The item-wise form of the agreement, as the code checks it. *)
Definition item_ok (level : nat) it : Prop :=
  forall p, (p < level)%nat -> nth p it 0 <> 0 /\ nth p it 0 = nth 0 it 0.

Definition tbin_ok t : Prop :=
  (forall p, (p < tb_redundancy_level t)%nat -> nitems_of t p = nitems_of t 0) /\
  (forall i it, (i < nitems_of t 0)%nat -> tb_items t !! i = Some it ->
     item_ok (tb_redundancy_level t) it).

Lemma tbin_ok_agree t : tbin_wf t -> tbin_ok t <-> tbin_agree t.
Proof.
  intros Hwf. split.
  - intros [Hn Hit]. split.
    + intros p Hp. apply list_eq. intros i. destruct (freed t 0 !! i) as [q|] eqn:E.
      * apply freed_lookup in E as (Hi & it & Hl & ->); [|done].
        apply freed_lookup; [done|]. rewrite Hn by done. split; [done|].
        exists it. split; [done|]. symmetry. by apply (Hit i it Hi Hl p).
      * apply lookup_ge_None in E. apply lookup_ge_None.
        rewrite freed_length in * by done. rewrite Hn; done.
    + intros q [i Hq]%list_elem_of_lookup. apply freed_lookup in Hq as (Hi & it & Hl & ->); [|done].
      apply (Hit i it Hi Hl 0%nat). pose proof (tbwf_level t Hwf). lia.
  - intros [Hf Hnz].
    assert (Hn : forall p, (p < tb_redundancy_level t)%nat -> nitems_of t p = nitems_of t 0).
    { intros p Hp. rewrite <- !freed_length by done. by rewrite Hf. }
    split; [done|]. intros i it Hi Hl p Hp.
    assert (E0 : freed t 0 !! i = Some (nth 0 it 0)) by (apply freed_lookup; eauto).
    assert (Ep : freed t p !! i = Some (nth p it 0)).
    { apply freed_lookup; [done|]. rewrite Hn by done. eauto. }
    rewrite (Hf p Hp), E0 in Ep. injection Ep as Ep. split; [|done]. rewrite <- Ep.
    apply Hnz, list_elem_of_lookup. eauto.
Qed.

Lemma tbin_add_spec t ptr p : tbin_wf t ->
  (p < SEI_DMR_REDUNDANCY)%nat -> (nitems_of t p < tb_max_items t)%nat ->
  exists t', tbin_add t ptr (Z.of_nat p) = Ret t' /\ tbin_wf t' /\
    tb_redundancy_level t' = tb_redundancy_level t /\
    freed t' p = freed t p ++ [ptr] /\ (forall q, q <> p -> freed t' q = freed t q).
Proof.
  intros Hwf Hp Hmax. unfold tbin_add.
  rewrite (proj2 (Z.leb_le 0 (Z.of_nat p))), (proj2 (Z.ltb_lt (Z.of_nat p) _)), c_assert_true by lia.
  cbn -[Nat.leb]. unfold arr_getZ, arr_setZ.
  rewrite (proj2 (Z.ltb_ge (Z.of_nat p) 0)), Nat2Z.id, get_nitems by (done || lia).
  cbn -[Nat.leb]. rewrite (proj2 (Nat.leb_le _ _)), c_assert_true by lia. cbn.
  set (n := nitems_of t p) in *.
  rewrite arr_set_lt by (rewrite (tbwf_nitems t Hwf); lia). cbn.
  destruct (arr_get_lt (tb_items t) n) as (it & Hit & ->); [rewrite (tbwf_items t Hwf); lia|]. cbn.
  pose proof (tbwf_item t Hwf n it Hit) as Hlit.
  rewrite arr_set_lt by lia. cbn.
  rewrite arr_set_lt by (rewrite (tbwf_items t Hwf); lia). cbn.
  set (t' := mk_tbin _ _ _ _). exists t'. split; [done|].
  assert (Hwf' : tbin_wf t').
  { destruct Hwf as [H1 H2 H3 H4 H5]. split; cbn; rewrite ?length_insert; try done.
    - intros i it' Hi. destruct (decide (i = n)) as [->|].
      + rewrite list_lookup_insert_eq in Hi by lia. injection Hi as <-. by rewrite length_insert.
      + rewrite list_lookup_insert_ne in Hi by done. eauto.
    - intros q k Hq. destruct (decide (q = p)) as [->|].
      + rewrite list_lookup_insert_eq in Hq by lia. injection Hq as <-. lia.
      + rewrite list_lookup_insert_ne in Hq by done. eauto. }
  split_and!; [done|done| |].
  - assert (Hn' : nitems_of t' p = Datatypes.S n).
    { unfold t'. cbn. rewrite nth_lookup, list_lookup_insert_eq by (rewrite (tbwf_nitems t Hwf); lia).
      cbn. lia. }
    unfold freed. rewrite Hn'. unfold t'. cbn [tb_items].
    rewrite (take_S_r _ n (<[p:=ptr]> it)) by (apply list_lookup_insert_eq; rewrite (tbwf_items t Hwf); lia).
    rewrite take_insert_ge by lia. rewrite fmap_app. f_equal. cbn.
    by rewrite nth_lookup, list_lookup_insert_eq by lia.
  - intros q Hq. assert (Hn' : nitems_of t' q = nitems_of t q).
    { unfold t'. cbn. by rewrite !nth_lookup, list_lookup_insert_ne by done. }
    unfold freed. rewrite Hn'. unfold t'. cbn [tb_items].
    apply list_eq. intros i. rewrite !list_lookup_fmap.
    destruct (decide (i < nitems_of t q)%nat); [|by rewrite !lookup_take_ge by lia].
    rewrite !lookup_take_lt by done. destruct (decide (i = n)) as [->|].
    + rewrite list_lookup_insert_eq, Hit by (rewrite (tbwf_items t Hwf); lia). cbn.
      by rewrite !nth_lookup, list_lookup_insert_ne by done.
    + by rewrite list_lookup_insert_ne by done.
Qed.

Lemma tbin_add_Ret t ptr p t' : tbin_wf t -> (p < SEI_DMR_REDUNDANCY)%nat ->
  tbin_add t ptr (Z.of_nat p) = Ret t' ->
  tbin_wf t' /\ tb_redundancy_level t' = tb_redundancy_level t /\
  freed t' p = freed t p ++ [ptr] /\ (forall q, q <> p -> freed t' q = freed t q).
Proof.
  intros Hwf Hp E. assert (Hn : (nitems_of t p < tb_max_items t)%nat).
  { unfold tbin_add in E. rewrite arr_getZ_nat, get_nitems in E by done. inv_outcome.
    rewrite <- (tbwf_items t Hwf). by eapply lookup_lt_Some. }
  destruct (tbin_add_spec t ptr p Hwf Hp Hn) as (t1 & E1 & Ht1). rewrite E in E1. by simplify_eq.
Qed.

Lemma check_item_decides (level : nat) it : (1 <= level <= length it)%nat ->
  decides
    (valid ← check_range level 0 (fun p => q ← arr_get it p; Ret (negb (q =? 0)));
     if negb valid then Ret false
     else check_range (level - 1) 1 (fun p =>
       q0 ← arr_get it 0; q ← arr_get it p; Ret (q0 =? q)))
    (item_ok level it).
Proof.
  intros Hl. eapply decides_iff.
  2: { apply decides_and.
       - apply (decides_range _ _ _ (fun p => nth p it 0 <> 0)). intros p Hp.
         rewrite get_ptr by lia. apply decides_ret. rewrite negb_true_iff. apply Z.eqb_neq.
       - intros _. apply (decides_range _ _ _ (fun p => nth p it 0 = nth 0 it 0)). intros p Hp.
         rewrite !get_ptr by lia. apply decides_ret. rewrite Z.eqb_eq. naive_solver. }
  rewrite (range_0_1 level (fun p => nth p it 0 = nth 0 it 0)) by done. unfold item_ok.
  split; [intros [HA HB]|intros HC]; [intros p Hp; split; [apply HA|apply HB]; lia|].
  split; intros p Hp; apply HC; lia.
Qed.

(** The pre-check decides the agreement. *)
Lemma tbin_can_flush_decides t : tbin_wf t -> decides (tbin_can_flush t) (tbin_agree t).
Proof.
  intros Hwf. pose proof (tbwf_level t Hwf) as Hlv.
  eapply decides_iff; [apply tbin_ok_agree; done|].
  unfold tbin_can_flush. rewrite get_nitems by (done || lia). cbn.
  eapply decides_iff.
  2: { apply decides_and.
       - apply (decides_range _ _ _ (fun p => nitems_of t p = nitems_of t 0)). intros p Hp.
         rewrite get_nitems by (done || lia). apply decides_ret, Nat.eqb_eq.
       - intros _. apply (decides_range _ _ _ (fun i => forall it, tb_items t !! i = Some it ->
           item_ok (tb_redundancy_level t) it)). intros i Hi.
         destruct (arr_get_lt (tb_items t) i) as (it & Hit & ->);
           [pose proof (nitems_le t 0 Hwf); lia|]. cbn.
         pose proof (tbwf_item t Hwf i it Hit) as Hlit.
         eapply decides_iff; [|apply check_item_decides; lia].
         split; [intros ? it' E; by simplify_eq|eauto]. }
  rewrite range_0_1 by done. unfold tbin_ok. apply and_iff_compat_l.
  split; intros HC i; [intros it Hi; apply HC; lia|intros Hi it; apply HC; lia].
Qed.

(** ** Flush *)

Lemma clear_item_ok level it : (level <= length it)%nat ->
  exists it', clear_item level it = Ret it' /\ length it' = length it /\
    forall p, (p < level)%nat -> nth p it' 0 = 0.
Proof.
  intros Hl. unfold clear_item.
  destruct (for_range_total (fun i it' => length it' = length it /\
    forall p, (p < i)%nat -> nth p it' 0 = 0) level 0 (fun p it => arr_set it p 0) it)
    as (it' & E & Hlen & Hz); [split; [done|lia]| |eauto].
  intros i s Hi [Hlen Hz]. exists (<[i := 0]> s). rewrite arr_set_lt by lia.
  split; [done|]. rewrite length_insert. split; [done|]. intros p Hp.
  rewrite nth_lookup. destruct (decide (p = i)) as [->|].
  - by rewrite list_lookup_insert_eq by lia.
  - rewrite list_lookup_insert_ne by done. rewrite <- nth_lookup. apply Hz. lia.
Qed.

Lemma reset_nitems_ok level l : (level <= length l)%nat ->
  exists l', reset_nitems level l = Ret l' /\ length l' = length l /\
    (forall p, (p < level)%nat -> nth p l' 0%nat = 0%nat) /\
    (forall p, (level <= p)%nat -> l' !! p = l !! p).
Proof.
  intros Hl. unfold reset_nitems.
  destruct (for_range_total (fun i l' => length l' = length l /\
    (forall p, (p < i)%nat -> nth p l' 0%nat = 0%nat) /\
    (forall p, (i <= p)%nat -> l' !! p = l !! p)) level 0 (fun p l => arr_set l p 0%nat) l)
    as (l' & E & Hlen & Hz & Hr); [split_and!; [done|lia|done]| |eauto].
  intros i s Hi (Hlen & Hz & Hr). exists (<[i := 0%nat]> s). rewrite arr_set_lt by lia.
  split; [done|]. rewrite length_insert. split_and!; [done| |].
  - intros p Hp. rewrite nth_lookup. destruct (decide (p = i)) as [->|].
    + by rewrite list_lookup_insert_eq by lia.
    + rewrite list_lookup_insert_ne by done. rewrite <- nth_lookup. apply Hz. lia.
  - intros p Hp. rewrite list_lookup_insert_ne by lia. apply Hr. lia.
Qed.

Lemma check_item_ok (level : nat) it : (1 <= level <= length it)%nat -> item_ok level it ->
  for_range level 0 (fun p _ =>
    q ← arr_get it p; fail_ifn (negb (q =? 0)) "null pointer in phase") tt = Ret tt /\
  for_range (level - 1) 1 (fun p _ =>
    q0 ← arr_get it 0; q ← arr_get it p;
    fail_ifn (q0 =? q) "pointers differ across phases") tt = Ret tt.
Proof.
  intros Hl Hok. split; apply for_range_check_ok; intros p Hp; rewrite !get_ptr by lia;
    (destruct (Hok p) as [Hn He]; [lia|]); cbn; apply fail_ifn_Ret.
  - by apply negb_true_iff, Z.eqb_neq.
  - by apply Z.eqb_eq.
Qed.

(** One iteration: exactly the verified items are freed. *)
Lemma flush_item_Ret level i items s it items' s' :
  items !! i = Some it -> (1 <= level <= length it)%nat ->
  flush_item level i (items, s) = Ret (items', s') ->
  item_ok level it /\ al_free s (nth 0 it 0) = Ret s' /\
  exists it', items' = <[i := it']> items.
Proof.
  intros Hit Hl Hrun. unfold flush_item in Hrun. rewrite (proj2 (arr_get_Ret _ _ _) Hit) in Hrun.
  cbn [mbind outcome_bind] in Hrun. inv_outcome. simplify_eq.
  match goal with X : for_range level 0 _ tt = _ |- _ => pose proof (for_range_check_Ret _ _ _ _ X) as Hv end.
  match goal with X : for_range (level - 1) 1 _ tt = _ |- _ => pose proof (for_range_check_Ret _ _ _ _ X) as He end.
  cbn beta in Hv, He. match goal with X : it !! 0%nat = Some _ |- _ => rename X into H0' end.
  assert (Hnth : forall p, (p < level)%nat -> arr_get it p = Ret (nth p it 0)) by (intros; apply get_ptr; lia).
  split_and!; [| |eauto].
  - intros p Hp. split.
    + specialize (Hv p ltac:(lia)). rewrite Hnth in Hv by done. cbn in Hv.
      by apply fail_ifn_Ret, negb_true_iff, Z.eqb_neq in Hv.
    + destruct (decide (p = 0%nat)) as [->|]; [done|]. specialize (He p ltac:(lia)).
      rewrite !Hnth in He by lia. cbn in He. by apply fail_ifn_Ret, Z.eqb_eq in He.
  - by rewrite nth_lookup, H0'.
Qed.

Lemma flush_item_ok level i items s it s' :
  items !! i = Some it -> (1 <= level <= length it)%nat -> item_ok level it ->
  al_free s (nth 0 it 0) = Ret s' ->
  exists it', flush_item level i (items, s) = Ret (<[i := it']> items, s') /\ length it' = length it.
Proof.
  intros Hit Hl Hok Hf. destruct (check_item_ok level it Hl Hok) as [E1 E2].
  destruct (clear_item_ok level it) as (it' & E3 & Hlen & _); [lia|].
  exists it'. split; [|done]. unfold flush_item. rewrite (proj2 (arr_get_Ret _ _ _) Hit). cbn [mbind outcome_bind].
  rewrite E1. cbn [mbind outcome_bind]. rewrite E2. cbn [mbind outcome_bind]. rewrite get_ptr by lia.
  cbn [mbind outcome_bind]. rewrite Hf. cbn [mbind outcome_bind]. rewrite E3. cbn [mbind outcome_bind].
  rewrite arr_set_lt by (by eapply lookup_lt_Some). done.
Qed.

(** The pointers the items [lo, lo + n) hold for phase 0. *)
Definition ptrs0 (items : list (list Z)) (lo n : nat) : list Z :=
  (fun it => nth 0 it 0) <$> take n (drop lo items).

Lemma ptrs0_insert items lo n it' : ptrs0 (<[lo := it']> items) (lo + 1) n = ptrs0 items (lo + 1) n.
Proof. unfold ptrs0. by rewrite drop_insert_lt by lia. Qed.

Lemma ptrs0_cons items lo n it : items !! lo = Some it ->
  ptrs0 items lo (Datatypes.S n) = nth 0 it 0 :: ptrs0 items (lo + 1) n.
Proof.
  intros Hit. unfold ptrs0. rewrite (drop_S _ _ _ Hit). cbn. by rewrite Nat.add_1_r.
Qed.

Lemma lengths_insert (items : list (list Z)) i it it' : items !! i = Some it -> length it' = length it ->
  length <$> <[i := it']> items = length <$> items.
Proof.
  intros Hit Hl. rewrite list_fmap_insert. apply list_insert_id. by rewrite list_lookup_fmap, Hit, Hl.
Qed.

(** An operation that only clears items and counters keeps the invariant. *)
Lemma tbin_wf_reset t items nitems : tbin_wf t ->
  length <$> items = length <$> tb_items t ->
  reset_nitems (tb_redundancy_level t) (tb_nitems t) = Ret nitems ->
  tbin_wf (mk_tbin (tb_max_items t) (tb_redundancy_level t) nitems items).
Proof.
  intros Hwf Hl E. destruct Hwf as [Hlv H2 H3 H4 H5].
  destruct (reset_nitems_ok (tb_redundancy_level t) (tb_nitems t)) as (l & E' & Hlen & Hz & Hr); [lia|].
  rewrite E in E'. injection E' as ->. split; cbn; [done|lia| | |].
  - rewrite <- H3. apply (f_equal length) in Hl. by rewrite !length_fmap in Hl.
  - intros i it Hi. assert (Hx : (length <$> items) !! i = Some (length it)) by (by rewrite list_lookup_fmap, Hi).
    rewrite Hl, list_lookup_fmap in Hx. destruct (tb_items t !! i) eqn:Ei; [|done].
    injection Hx as <-. eauto.
  - intros p n Hp. destruct (decide (p < tb_redundancy_level t)%nat) as [Hpl|].
    + specialize (Hz p Hpl). rewrite nth_lookup, Hp in Hz. cbn in Hz. lia.
    + rewrite Hr in Hp by lia. eauto.
Qed.

Lemma flush_loop_ok level n : forall lo items s s',
  (forall i it, (lo <= i < lo + n)%nat -> items !! i = Some it ->
     (1 <= level <= length it)%nat /\ item_ok level it) ->
  (lo + n <= length items)%nat ->
  free_all (ptrs0 items lo n) s = Ret s' ->
  exists items', for_range n lo (flush_item level) (items, s) = Ret (items', s') /\
    length <$> items' = length <$> items.
Proof.
  induction n as [|n IH]; intros lo items s s' Hok Hlen Hf; cbn [for_range].
  { injection Hf as ->. eauto. }
  destruct (lookup_lt_is_Some_2 items lo) as [it Hit]; [lia|].
  rewrite (ptrs0_cons _ _ _ _ Hit) in Hf. cbn in Hf. inv_outcome.
  destruct (Hok lo it) as [Hl Hi]; [lia|done|].
  edestruct (flush_item_ok level lo items s it) as (it' & -> & Hlit'); [done..|]. cbn [mbind outcome_bind].
  edestruct (IH (lo + 1)%nat (<[lo := it']> items)) as (items' & -> & Hlen').
  - intros i it1 Hi1 Hl1. rewrite list_lookup_insert_ne in Hl1 by lia. apply (Hok i); [lia|done].
  - rewrite length_insert. lia.
  - rewrite ptrs0_insert. eassumption.
  - rewrite (lengths_insert _ _ _ _ Hit Hlit') in Hlen'. eauto.
Qed.

Lemma flush_loop_Ret level n : forall lo items s items' s',
  (forall i it, (lo <= i < lo + n)%nat -> items !! i = Some it -> (1 <= level <= length it)%nat) ->
  (lo + n <= length items)%nat ->
  for_range n lo (flush_item level) (items, s) = Ret (items', s') ->
  (forall i it, (lo <= i < lo + n)%nat -> items !! i = Some it -> item_ok level it) /\
  free_all (ptrs0 items lo n) s = Ret s'.
Proof.
  induction n as [|n IH]; intros lo items s items' s' Hl Hlen Hrun; cbn [for_range] in Hrun.
  { inv_outcome. simplify_eq. split; [lia|done]. }
  inv_outcome. match goal with X : flush_item _ _ _ = Ret ?r |- _ => destruct r as [items1 s1] end.
  destruct (lookup_lt_is_Some_2 items lo) as [it Hit]; [lia|].
  assert (Hlit : (1 <= level <= length it)%nat) by (apply (Hl lo); [lia|done]).
  match goal with X : flush_item _ _ _ = Ret _ |- _ =>
    destruct (flush_item_Ret _ _ _ _ _ _ _ Hit Hlit X) as (Hok & Hf & it' & ->) end.
  edestruct IH as [Hall Hf']; [| |eassumption|].
  { intros i it1 Hi1 Hl1. rewrite list_lookup_insert_ne in Hl1 by lia. apply (Hl i); [lia|done]. }
  { rewrite length_insert. lia. }
  rewrite ptrs0_insert in Hf'. split.
  - intros i it1 Hi Hl1. destruct (decide (i = lo)) as [->|]; [by simplify_eq|].
    apply (Hall i); [lia|]. by rewrite list_lookup_insert_ne by lia.
  - rewrite (ptrs0_cons _ _ _ _ Hit). cbn. rewrite Hf. done.
Qed.

Lemma ptrs0_freed t : ptrs0 (tb_items t) 0 (nitems_of t 0) = freed t 0.
Proof. done. Qed.

Lemma reset_nitems_freed t items nitems :
  tbin_wf t -> reset_nitems (tb_redundancy_level t) (tb_nitems t) = Ret nitems ->
  forall p, (p < tb_redundancy_level t)%nat ->
    freed (mk_tbin (tb_max_items t) (tb_redundancy_level t) nitems items) p = [].
Proof.
  intros Hwf E p Hp. pose proof (tbwf_level t Hwf).
  destruct (reset_nitems_ok (tb_redundancy_level t) (tb_nitems t)) as (l & E' & _ & Hz & _).
  { rewrite (tbwf_nitems t Hwf). lia. }
  rewrite E in E'. injection E' as ->. unfold freed. cbn. by rewrite Hz.
Qed.

(** A flush that returns has freed the pointers of phase 0 in order. *)
Lemma tbin_flush_frees t s t' s' : tbin_wf t -> tbin_flush t s = Ret (t', s') -> free_all (freed t 0) s = Ret s'.
Proof.
  intros Hwf E. pose proof (tbwf_level t Hwf) as Hlv. unfold tbin_flush in E. rewrite get_nitems in E by (done || lia). rewrite bind_Ret_l in E.
  apply bind_Ret in E as (u & _ & E). apply bind_Ret in E as ([items s1] & E & E2). apply bind_Ret in E2 as (n & _ & [= _ <-]).
  apply flush_loop_Ret in E as [_ E]; [by rewrite ptrs0_freed in E| |pose proof (nitems_le t 0 Hwf); lia].
  intros i it Hi Hl. rewrite (tbwf_item t Hwf i it Hl). lia.
Qed.

(** Flushing succeeds exactly when the phases agree and every pointer is a live
    block recorded once; the blocks freed are those of phase 0, each once. *)
Lemma tbin_flush_ok t s : tbin_wf t -> tbin_agree t ->
  NoDup (freed t 0) -> (forall q, q ∈ freed t 0 -> q ∈ al_live s) ->
  exists t' s', tbin_flush t s = Ret (t', s') /\
    al_live s' = al_live s ∖ list_to_set (freed t 0) /\ tbin_wf t' /\
    (forall p, (p < tb_redundancy_level t)%nat -> freed t' p = []).
Proof.
  intros Hwf Hag Hnd Hlive. apply tbin_ok_agree in Hag as [Hn Hit]; [|done].
  pose proof (tbwf_level t Hwf) as Hlv.
  destruct (free_all_live (freed t 0) s Hnd Hlive) as (s' & Hf & Hl').
  destruct (flush_loop_ok (tb_redundancy_level t) (nitems_of t 0) 0 (tb_items t) s s')
    as (items & E & Hls).
  { intros i it Hi Hl. rewrite (tbwf_item t Hwf i it Hl). split; [lia|]. apply (Hit i); [lia|done]. }
  { pose proof (nitems_le t 0 Hwf). lia. }
  { by rewrite ptrs0_freed. }
  destruct (reset_nitems_ok (tb_redundancy_level t) (tb_nitems t)) as (l & E' & _).
  { rewrite (tbwf_nitems t Hwf). lia. }
  exists (mk_tbin (tb_max_items t) (tb_redundancy_level t) l items), s'. split_and!; [|done|by apply tbin_wf_reset|].
  - unfold tbin_flush. rewrite get_nitems by (done || lia). cbn [mbind outcome_bind].
    rewrite for_range_check_ok.
    + cbn [mbind outcome_bind]. rewrite E. cbn [mbind outcome_bind]. by rewrite E'.
    + intros p Hp. rewrite get_nitems by (done || lia). cbn. apply fail_ifn_Ret, Nat.eqb_eq, Hn. lia.
  - by apply reset_nitems_freed.
Qed.

Lemma tbin_flush_Ret t s t' s' : tbin_wf t -> tbin_flush t s = Ret (t', s') ->
  tbin_agree t /\ NoDup (freed t 0) /\ (forall q, q ∈ freed t 0 -> q ∈ al_live s).
Proof.
  intros Hwf Hrun. pose proof (tbwf_level t Hwf) as Hlv. unfold tbin_flush in Hrun.
  rewrite get_nitems in Hrun by (done || lia). cbn [mbind outcome_bind] in Hrun. inv_outcome.
  match goal with X : for_range _ 1 _ tt = _ |- _ => pose proof (for_range_check_Ret _ _ _ _ X) as Hc end.
  match goal with X : for_range _ 0 _ (_, _) = Ret ?r |- _ => destruct r as [items s1]; rename X into Hloop end.
  cbn beta in Hc. inv_outcome. simplify_eq.
  apply flush_loop_Ret in Hloop as [Hok Hf].
  2: { intros i it _ Hl. rewrite (tbwf_item t Hwf i it Hl). lia. }
  2: { pose proof (nitems_le t 0 Hwf). lia. }
  assert (Hag : tbin_agree t).
  { apply tbin_ok_agree; [done|]. split.
    - apply (range_0_1 _ (fun p => nitems_of t p = nitems_of t 0)); [done|]. intros p Hp.
      specialize (Hc p Hp). rewrite get_nitems in Hc by (done || lia). cbn in Hc.
      by apply fail_ifn_Ret, Nat.eqb_eq in Hc.
    - intros i it Hi Hl. apply (Hok i); [lia|done]. }
  split; [done|]. rewrite ptrs0_freed in Hf. by eapply free_all_dup; [|apply Hag].
Qed.

(** Resetting never stops: every phase has nothing left to free. *)
Lemma tbin_reset_ok t : tbin_wf t ->
  exists t', tbin_reset t = Ret t' /\ tbin_wf t' /\
    forall p, (p < tb_redundancy_level t)%nat -> freed t' p = [].
Proof.
  intros Hwf. pose proof (tbwf_level t Hwf) as Hlv. unfold tbin_reset.
  rewrite get_nitems by (done || lia). cbn [mbind outcome_bind].
  run_loop (fun (_ : nat) m => (m <= length (tb_items t))%nat) mx Hmx.
  { by apply nitems_le. }
  { intros p m Hp Hm. rewrite get_nitems by (done || lia). cbn [mbind outcome_bind].
    eexists. split; [done|]. pose proof (nitems_le t p Hwf). case_match; lia. }
  run_loop (fun (_ : nat) (items : list (list Z)) => length <$> items = length <$> tb_items t) items Hls; [done| |].
  { intros i items Hi Hls. pose proof (f_equal length Hls) as Hll. rewrite !length_fmap in Hll.
    destruct (arr_get_lt items i) as (it & Hit & ->); [lia|]. cbn [mbind outcome_bind].
    assert (Hlit : (length <$> tb_items t) !! i = Some (length it)).
    { by rewrite <- Hls, list_lookup_fmap, Hit. }
    rewrite list_lookup_fmap in Hlit. destruct (tb_items t !! i) as [it0|] eqn:E0; [|done].
    injection Hlit as Hlit. rewrite (tbwf_item t Hwf i it0 E0) in Hlit.
    destruct (clear_item_ok (tb_redundancy_level t) it) as (it' & -> & Hl' & _); [lia|].
    cbn [mbind outcome_bind]. rewrite arr_set_lt by lia. eexists. split; [done|].
    by rewrite (lengths_insert _ _ _ _ Hit Hl'). }
  destruct (reset_nitems_ok (tb_redundancy_level t) (tb_nitems t)) as (l & E' & _).
  { rewrite (tbwf_nitems t Hwf). lia. }
  rewrite E'. cbn. eexists. split; [done|]. split; [by apply tbin_wf_reset|]. by apply reset_nitems_freed.
Qed.

Lemma tbin_init_ok (n : nat) : (0 < n)%nat -> (1 <= SEI_DMR_REDUNDANCY)%nat ->
  exists t, tbin_init n = Ret t /\ tbin_wf t /\ tb_max_items t = n /\
    tb_redundancy_level t = SEI_DMR_REDUNDANCY /\ forall p, freed t p = [].
Proof.
  intros Hn Hd. unfold tbin_init. rewrite (proj2 (Nat.ltb_lt 0 n)), c_assert_true by lia. cbn.
  eexists. split; [done|]. split_and!; [|done|done|].
  - split; cbn; rewrite ?length_replicate; try done.
    + intros i it Hi. apply lookup_replicate in Hi as [-> _]. by rewrite length_replicate.
    + intros p k Hp. apply lookup_replicate in Hp as [-> _]. lia.
  - intros p. unfold freed. cbn. rewrite nth_lookup. destruct (replicate _ _ !! p) eqn:E; [|done].
    apply lookup_replicate in E as [-> _]. done.
Qed.

(** C11.  The trash bin frees only what all executions agreed to free: the flush
    returns exactly when every phase recorded the same non-null pointers and each
    of them is a live block recorded once; then exactly these blocks are freed,
    once each, and every phase's record is empty again. *)
Theorem tbin_flush_iff t s : tbin_wf t ->
  ((exists t' s', tbin_flush t s = Ret (t', s')) <->
   tbin_agree t /\ NoDup (freed t 0) /\ (forall q, q ∈ freed t 0 -> q ∈ al_live s)) /\
  (forall t' s', tbin_flush t s = Ret (t', s') ->
     al_live s' = al_live s ∖ list_to_set (freed t 0) /\ tbin_wf t' /\
     forall p, (p < tb_redundancy_level t)%nat -> freed t' p = []).
Proof.
  intros Hwf. split; [split|].
  - intros (t' & s' & E). by eapply tbin_flush_Ret.
  - intros (Hag & Hnd & Hl). destruct (tbin_flush_ok t s Hwf Hag Hnd Hl) as (t' & s' & E & _). eauto.
  - intros t' s' E. destruct (tbin_flush_Ret _ _ _ _ Hwf E) as (Hag & Hnd & Hl).
    destruct (tbin_flush_ok t s Hwf Hag Hnd Hl) as (t1 & s1 & E1 & Hs). rewrite E in E1. by simplify_eq.
Qed.

(** The pre-check of the recovery mode predicts the flush: it always answers,
    and answers yes exactly when the phases recorded the same non-null pointers,
    so that the flush cannot fail because of a disagreement. *)
Theorem tbin_can_flush_exact t s : tbin_wf t ->
  exists b, tbin_can_flush t = Ret b /\ (b = true <-> tbin_agree t) /\
    (b = true -> NoDup (freed t 0) -> (forall q, q ∈ freed t 0 -> q ∈ al_live s) ->
     exists t' s', tbin_flush t s = Ret (t', s')).
Proof.
  intros Hwf. destruct (tbin_can_flush_decides t Hwf) as (b & E & Hb). exists b.
  split_and!; [done|done|]. intros Hbt Hnd Hl. apply Hb in Hbt.
  destruct (tbin_flush_ok t s Hwf Hbt Hnd Hl) as (t' & s' & E' & _). eauto.
Qed.

End Tbin.

(** ** Witnesses *)

(** A bin in which both phases freed block 16. *)
Definition demo_tbin : tbin := mk_tbin 2 2 [1%nat; 1%nat] [[16; 16]; [0; 0]].
Definition demo_heap : libc := mk_libc {[16 := 8]}.

Lemma demo_tbin_wf : @tbin_wf (debug_build 2) demo_tbin.
Proof.
  split; cbn; [lia|done|done| |].
  - intros i it Hi. destruct i as [|[|i]]; cbn in Hi; by simplify_eq.
  - intros p n Hp. destruct p as [|[|p]]; cbn in Hp; simplify_eq; lia.
Qed.

Lemma tbin_flush_iff_witness :
  let _ := debug_build 2 in
  exists t' s', tbin_flush demo_tbin demo_heap = Ret (t', s') /\ al_live s' = al_live demo_heap ∖ {[16]}.
Proof.
  intros B. destruct (@tbin_flush_iff B libc _ _ demo_tbin demo_heap demo_tbin_wf) as [[_ Hok] Hpost].
  destruct Hok as (t' & s' & E).
  { change (freed demo_tbin 0) with [16]. split; [split|split].
    - intros p Hp. cbn in Hp. destruct p as [|[|p]]; [reflexivity|reflexivity|lia].
    - intros q Hq. change (freed demo_tbin 0) with [16] in Hq. apply list_elem_of_singleton in Hq. lia.
    - apply NoDup_singleton.
    - intros q Hq. apply list_elem_of_singleton in Hq as ->. set_solver. }
  exists t', s'. split; [exact E|]. destruct (Hpost t' s' E) as [-> _].
  change (freed demo_tbin 0) with [16]. set_solver.
Defined.

Lemma tbin_can_flush_exact_witness :
  let _ := debug_build 2 in
  exists b, tbin_can_flush demo_tbin = Ret b /\ (b = true <-> tbin_agree demo_tbin).
Proof.
  intros B. destruct (@tbin_can_flush_exact B libc _ _ demo_tbin demo_heap demo_tbin_wf) as (b & E & Hb & _).
  exists b. split; [exact E|exact Hb].
Defined.
