(* ===== verification/Wts.v ===== *)
(** * The waitress (src/wts.c)

    System calls requested by a handler are queued, one record per phase, and
    executed at the commit after all phases were checked to have requested the
    same calls.  What a call does is a parameter of the model: [call f args w]
    is the state of the outside world after the callback at address [f] ran on
    the argument array [args]. *)

From S2P Require Export Prelude.

(** config.h *)
Definition WTS_MAX_ARG : nat := 32.

Record wts_item := mk_wts_item {
  w_func : list Z;                (* function pointer of each phase; 0 is NULL *)
  w_anum : list nat;              (* number of arguments of each phase *)
  w_args : list (list Z);         (* arguments of each phase *)
}.

Record wts := mk_wts {
  w_max_items : nat;
  w_nitems : list nat;
  w_items : list wts_item;
}.

Section Wts.
Context `{Build} {W : Type} (call : Z -> list Z -> W -> W).

Abbreviation level := SEI_DMR_REDUNDANCY.

(** An item after [bzero]. *)
Definition zero_item : wts_item :=
  mk_wts_item (replicate level 0) (replicate level 0%nat)
              (replicate level (replicate WTS_MAX_ARG 0)).

Definition wts_init (max_items : nat) : outcome wts :=
  c_assert (0 <? max_items)%nat;;
  Ret (mk_wts max_items (replicate level 0%nat) (replicate max_items zero_item)).

(** The checks of one item in [wts_can_flush]. *)
Definition can_flush_item (it : wts_item) : outcome bool :=
  expected_func ← arr_get (w_func it) 0;
  funcs ← check_range level 0 (fun p =>
    f ← arr_get (w_func it) p; Ret (negb (f =? 0) && (f =? expected_func)));
  if negb funcs then Ret false else
  expected_anum ← arr_get (w_anum it) 0;
  anums ← check_range level 0 (fun p =>
    n ← arr_get (w_anum it) p; Ret (n =? expected_anum)%nat);
  if negb anums then Ret false else
  check_range expected_anum 0 (fun j =>
    args0 ← arr_get (w_args it) 0;
    expected_arg ← arr_get args0 j;
    check_range (level - 1) 1 (fun p =>
      argsp ← arr_get (w_args it) p;
      a ← arr_get argsp j;
      Ret (a =? expected_arg))).

Definition wts_can_flush (w : wts) : outcome bool :=
  expected_nitems ← arr_get (w_nitems w) 0;
  same ← check_range (level - 1) 1 (fun p =>
    n ← arr_get (w_nitems w) p; Ret (n =? expected_nitems)%nat);
  if negb same then Ret false else
  check_range expected_nitems 0 (fun i =>
    it ← arr_get (w_items w) i; can_flush_item it).

Definition wts_flush (w : wts) (world : W) : outcome (wts * W) :=
  ok ← wts_can_flush w;
  fail_ifn ok "N-way system call mismatch";;
  n ← arr_get (w_nitems w) 0;
  world' ← for_range n 0 (fun i world =>
    it ← arr_get (w_items w) i;
    f ← arr_get (w_func it) 0;
    args ← arr_get (w_args it) 0;
    Ret (call f args world)) world;
  nitems ← for_range level 0 (fun p l => arr_set l p 0%nat) (w_nitems w);
  Ret (mk_wts (w_max_items w) nitems (w_items w), world').

(** [wts_add(w, p, fp, arg_num, ...)]; [args] are the variadic arguments, so
    [arg_num] is their number. *)
Definition wts_add (w : wts) (p : Z) (fp : Z) (args : list Z) : outcome wts :=
  c_assert (negb (fp =? 0));;
  c_assert ((0 <=? p) && (p <? Z.of_nat level));;
  n ← arr_getZ (w_nitems w) p;
  nitems ← arr_setZ (w_nitems w) p (n + 1)%nat;
  c_assert ((n + 1) + 1 <=? w_max_items w)%nat;;
  it ← arr_get (w_items w) n;
  func ← arr_setZ (w_func it) p fp;
  anum ← arr_setZ (w_anum it) p (length args);
  argsp ← arr_getZ (w_args it) p;
  argsp' ← for_range (length args) 0 (fun i l => a ← arr_get args i; arr_set l i a) argsp;
  args' ← arr_setZ (w_args it) p argsp';
  items ← arr_set (w_items w) n (mk_wts_item func anum args');
  Ret (mk_wts (w_max_items w) nitems items).

(** [wts_reset] (built with SEI_CPU_ISOLATION): the counters of phases 0 and 1. *)
Definition wts_reset (w : wts) : outcome wts :=
  nitems1 ← arr_set (w_nitems w) 0 0%nat;
  nitems2 ← arr_set nitems1 1 0%nat;
  Ret (mk_wts (w_max_items w) nitems2 (replicate (w_max_items w) zero_item)).

(** ** Invariant and view *)

Record item_wf (it : wts_item) : Prop := {
  itwf_func : length (w_func it) = level;
  itwf_anum : length (w_anum it) = level;
  itwf_args : length (w_args it) = level;
  itwf_arg : forall p l, w_args it !! p = Some l -> length l = WTS_MAX_ARG;
  itwf_bound : forall p n, w_anum it !! p = Some n -> (n <= WTS_MAX_ARG)%nat;
}.

Record wts_wf (w : wts) : Prop := {
  wwf_nitems : length (w_nitems w) = level;
  wwf_items : length (w_items w) = w_max_items w;
  wwf_item : forall i it, w_items w !! i = Some it -> item_wf it;
  wwf_bound : forall p n, w_nitems w !! p = Some n -> (n <= w_max_items w)%nat;
}.

(** The call an item holds for phase [p]: the function and its arguments. *)
Definition call_of (p : nat) (it : wts_item) : Z * list Z :=
  (nth p (w_func it) 0, take (nth p (w_anum it) 0%nat) (nth p (w_args it) [])).

(** The calls phase [p] queued, in order. *)
Definition queued (w : wts) (p : nat) : list (Z * list Z) :=
  call_of p <$> take (nth p (w_nitems w) 0%nat) (w_items w).

(** All phases queued the same calls. *)
Definition wts_agree (w : wts) : Prop :=
  (forall p, (p < level)%nat -> queued w p = queued w 0) /\
  (forall c, c ∈ queued w 0 -> c.1 <> 0).

(** ** Lemmas *)

Implicit Types (w : wts) (it : wts_item).

Abbreviation wn w p := (nth p (w_nitems w) 0%nat).

Lemma wn_le w p : wts_wf w -> (wn w p <= length (w_items w))%nat.
Proof.
  intros Hwf. rewrite nth_lookup. destruct (w_nitems w !! p) as [n|] eqn:E; cbn; [|lia].
  rewrite (wwf_items w Hwf). by eapply wwf_bound.
Qed.

Lemma item_wf_lengths it p : item_wf it -> (p < level)%nat ->
  length (nth p (w_args it) []) = WTS_MAX_ARG /\ (nth p (w_anum it) 0 <= WTS_MAX_ARG)%nat.
Proof.
  intros Hit Hp. split.
  - apply (itwf_arg it Hit p). apply nth_lt_lookup. by rewrite (itwf_args it Hit).
  - apply (itwf_bound it Hit p). apply nth_lt_lookup. by rewrite (itwf_anum it Hit).
Qed.

(** Two phases hold the same call exactly when their fields agree, the
    arguments up to the argument count. *)
Lemma call_of_eq it p : item_wf it -> (p < level)%nat ->
  call_of p it = call_of 0 it <->
  nth p (w_func it) 0 = nth 0 (w_func it) 0 /\
  nth p (w_anum it) 0%nat = nth 0 (w_anum it) 0%nat /\
  (forall j, (j < nth 0 (w_anum it) 0)%nat ->
     nth j (nth p (w_args it) []) 0 = nth j (nth 0 (w_args it) []) 0).
Proof.
  intros Hit Hp. destruct (item_wf_lengths it p Hit Hp) as [Hl Hn].
  destruct (item_wf_lengths it 0 Hit) as [Hl0 Hn0]; [lia|]. unfold call_of.
  split.
  - intros [= Hf Ht]. pose proof (f_equal length Ht) as He. rewrite !length_take in He.
    split_and!; [done|lia|]. intros j Hj.
    assert (E : take (nth p (w_anum it) 0%nat) (nth p (w_args it) []) !! j =
                take (nth 0 (w_anum it) 0%nat) (nth 0 (w_args it) []) !! j) by (by rewrite Ht).
    rewrite !lookup_take_lt in E by lia. rewrite !(nth_lt_lookup 0) in E by lia. congruence.
  - intros (Hf & Ha & Hj). f_equal; [done|]. rewrite Ha. apply list_eq. intros j.
    destruct (decide (j < nth 0 (w_anum it) 0)%nat).
    + rewrite !lookup_take_lt by done. rewrite !(nth_lt_lookup 0) by lia. f_equal. by apply Hj.
    + by rewrite !lookup_take_ge by lia.
Qed.

Definition item_agree it : Prop :=
  forall p, (p < level)%nat -> (call_of p it).1 <> 0 /\ call_of p it = call_of 0 it.

Lemma args_decides it : item_wf it -> (1 <= level)%nat ->
  decides
    (check_range (nth 0 (w_anum it) 0%nat) 0 (fun j =>
      args0 ← arr_get (w_args it) 0;
      expected_arg ← arr_get args0 j;
      check_range (level - 1) 1 (fun p =>
        argsp ← arr_get (w_args it) p;
        a ← arr_get argsp j;
        Ret (a =? expected_arg))))
    (forall p, (p < level)%nat -> forall j, (j < nth 0 (w_anum it) 0)%nat ->
       nth j (nth p (w_args it) []) 0 = nth j (nth 0 (w_args it) []) 0).
Proof.
  intros Hit Hlv. destruct (item_wf_lengths it 0 Hit Hlv) as [Hl0 Hn0].
  eapply decides_iff; [|apply (decides_range _ _ _ (fun j => forall p, (p < level)%nat ->
    nth j (nth p (w_args it) []) 0 = nth j (nth 0 (w_args it) []) 0))].
  - split; intros HA; [intros p Hp j Hj; apply HA; lia|intros j Hj p Hp; apply HA; lia].
  - intros j Hj. rewrite (arr_get_nth []) by (rewrite (itwf_args it Hit); lia). cbn [mbind outcome_bind].
    rewrite (arr_get_nth 0) by lia. cbn [mbind outcome_bind].
    eapply decides_iff; [apply (range_0_1 level (fun p =>
      nth j (nth p (w_args it) []) 0 = nth j (nth 0 (w_args it) []) 0)); done|].
    apply decides_range. intros p Hp. destruct (item_wf_lengths it p Hit) as [Hl _]; [lia|].
    rewrite (arr_get_nth []) by (rewrite (itwf_args it Hit); lia). cbn [mbind outcome_bind].
    rewrite (arr_get_nth 0) by lia. apply decides_ret, Z.eqb_eq.
Qed.

Lemma can_flush_item_decides it : item_wf it -> (1 <= level)%nat ->
  decides (can_flush_item it) (item_agree it).
Proof.
  intros Hit Hlv. unfold can_flush_item.
  rewrite (arr_get_nth 0) by (rewrite (itwf_func it Hit); lia). cbn [mbind outcome_bind].
  rewrite (arr_get_nth 0%nat) by (rewrite (itwf_anum it Hit); lia).
  eapply decides_iff.
  2: { apply decides_and.
       - apply (decides_range _ _ _ (fun p => nth p (w_func it) 0 <> 0 /\
           nth p (w_func it) 0 = nth 0 (w_func it) 0)). intros p Hp.
         rewrite (arr_get_nth 0) by (rewrite (itwf_func it Hit); lia). apply decides_ret.
         by rewrite andb_true_iff, negb_true_iff, Z.eqb_neq, Z.eqb_eq.
       - intros _. cbn [mbind outcome_bind]. apply decides_and.
         + apply (decides_range _ _ _ (fun p => nth p (w_anum it) 0%nat = nth 0 (w_anum it) 0%nat)).
           intros p Hp. rewrite (arr_get_nth 0%nat) by (rewrite (itwf_anum it Hit); lia).
           apply decides_ret, Nat.eqb_eq.
         + intros _. by apply args_decides. }
  rewrite range_0, (range_0 level (fun p => nth p (w_anum it) 0%nat = _)). unfold item_agree. split.
  - intros (HF & HN & HA) p Hp. rewrite call_of_eq by done. destruct (HF p Hp). auto.
  - intros HC. split_and!; intros p Hp; destruct (HC p Hp) as [Hf [? [? ?]]%call_of_eq]; auto.
Qed.

Lemma queued_lookup w p i c : queued w p !! i = Some c <->
  (i < wn w p)%nat /\ exists it, w_items w !! i = Some it /\ c = call_of p it.
Proof.
  unfold queued. rewrite list_lookup_fmap. split.
  - destruct (take _ _ !! i) as [it|] eqn:E; [|done]. intros [= <-].
    apply lookup_take_Some in E as [E Hi]. eauto.
  - intros [Hi (it & Hit & ->)]. by rewrite lookup_take_lt, Hit by done.
Qed.

Lemma queued_length w p : wts_wf w -> length (queued w p) = wn w p.
Proof.
  intros Hwf. pose proof (wn_le w p Hwf). unfold queued. rewrite length_fmap, length_take. lia.
Qed.

(** The item-wise form of the agreement, as the code checks it. *)
Lemma wts_agree_items w : wts_wf w -> (1 <= level)%nat ->
  ((forall p, (p < level)%nat -> wn w p = wn w 0) /\
   (forall i it, (i < wn w 0)%nat -> w_items w !! i = Some it -> item_agree it)) <-> wts_agree w.
Proof.
  intros Hwf Hlv. split.
  - intros [Hn Hit]. split.
    + intros p Hp. apply list_eq. intros i. destruct (queued w 0 !! i) as [c|] eqn:E.
      * apply queued_lookup in E as (Hi & it & Hl & ->).
        apply queued_lookup. rewrite Hn by done. split; [done|].
        exists it. split; [done|]. symmetry. by apply (Hit i it Hi Hl p).
      * apply lookup_ge_None in E. apply lookup_ge_None.
        rewrite queued_length in * by done. rewrite Hn; done.
    + intros c [i Hc]%list_elem_of_lookup. apply queued_lookup in Hc as (Hi & it & Hl & ->).
      apply (Hit i it Hi Hl 0%nat). lia.
  - intros [Hf Hnz].
    assert (Hn : forall p, (p < level)%nat -> wn w p = wn w 0).
    { intros p Hp. rewrite <- !queued_length by done. by rewrite Hf. }
    split; [done|]. intros i it Hi Hl p Hp.
    assert (E0 : queued w 0 !! i = Some (call_of 0 it)) by (apply queued_lookup; eauto).
    assert (Ep : queued w p !! i = Some (call_of p it)).
    { apply queued_lookup. rewrite Hn by done. eauto. }
    rewrite (Hf p Hp), E0 in Ep. injection Ep as Ep1 Ep2. 
    assert (Ec : call_of p it = call_of 0 it) by (unfold call_of; by rewrite Ep1, Ep2).
    split; [|done]. rewrite Ec. apply Hnz, list_elem_of_lookup. eauto.
Qed.

(** The pre-check decides the agreement. *)
Lemma wts_can_flush_decides w : wts_wf w -> (1 <= level)%nat ->
  decides (wts_can_flush w) (wts_agree w).
Proof.
  intros Hwf Hlv. eapply decides_iff; [by apply wts_agree_items|]. unfold wts_can_flush.
  rewrite (arr_get_nth 0%nat) by (rewrite (wwf_nitems w Hwf); lia). cbn [mbind outcome_bind].
  eapply decides_iff.
  2: { apply decides_and.
       - apply (decides_range _ _ _ (fun p => wn w p = wn w 0)). intros p Hp.
         rewrite (arr_get_nth 0%nat) by (rewrite (wwf_nitems w Hwf); lia).
         apply decides_ret, Nat.eqb_eq.
       - intros _. apply (decides_range _ _ _ (fun i => forall it, w_items w !! i = Some it ->
           item_agree it)). intros i Hi.
         destruct (arr_get_lt (w_items w) i) as (it & Hit & ->); [pose proof (wn_le w 0 Hwf); lia|].
         eapply decides_iff; [|apply can_flush_item_decides; [by eapply wwf_item|done]].
         split; [intros ? it' E; by simplify_eq|eauto]. }
  rewrite range_0_1 by done. apply and_iff_compat_l.
  split; intros HC i; [intros it Hi; apply HC; lia|intros Hi it; apply HC; lia].
Qed.

(** The effect of executing the calls of phase 0, in order. *)
Definition run_calls (items : list wts_item) (world : W) : W :=
  foldl (fun world it => call (nth 0 (w_func it) 0) (nth 0 (w_args it) []) world) world items.

Lemma flush_calls_ok w n : forall lo world, wts_wf w -> (1 <= level)%nat ->
  (lo + n <= length (w_items w))%nat ->
  for_range n lo (fun i world =>
    it ← arr_get (w_items w) i;
    f ← arr_get (w_func it) 0;
    args ← arr_get (w_args it) 0;
    Ret (call f args world)) world = Ret (run_calls (take n (drop lo (w_items w))) world).
Proof.
  induction n as [|n IH]; intros lo world Hwf Hlv Hlen; cbn [for_range]; [done|].
  destruct (arr_get_lt (w_items w) lo) as (it & Hit & ->); [lia|]. cbn [mbind outcome_bind].
  pose proof (wwf_item w Hwf lo it Hit) as Hi.
  rewrite (arr_get_nth 0) by (rewrite (itwf_func it Hi); lia). cbn [mbind outcome_bind].
  rewrite (arr_get_nth []) by (rewrite (itwf_args it Hi); lia). cbn [mbind outcome_bind].
  rewrite IH by (done || lia). rewrite (drop_S _ _ _ Hit), Nat.add_1_r. done.
Qed.

Lemma zero_counters l : (level <= length l)%nat -> exists l',
  for_range level 0 (fun p l => arr_set l p 0%nat) l = Ret l' /\ length l' = length l /\
  forall p, (p < level)%nat -> nth p l' 0%nat = 0%nat.
Proof.
  intros Hl. run_loop (fun i (l' : list nat) => length l' = length l /\
    forall p, (p < i)%nat -> nth p l' 0%nat = 0%nat) l' Hx; [split; [done|lia]| |eauto].
  intros i s Hi [Hlen Hz]. exists (<[i := 0%nat]> s). rewrite arr_set_lt by lia.
  split; [done|]. rewrite length_insert. split; [done|]. intros p Hp.
  rewrite nth_lookup. destruct (decide (p = i)) as [->|].
  - by rewrite list_lookup_insert_eq by lia.
  - rewrite list_lookup_insert_ne by done. rewrite <- nth_lookup. apply Hz. lia.
Qed.

(** Flushing runs the calls of phase 0, each once and in order, exactly when all
    phases queued the same calls; otherwise nothing is executed. *)
Lemma wts_flush_spec w world : wts_wf w -> (1 <= level)%nat ->
  (wts_agree w -> exists w', wts_flush w world = Ret (w', run_calls (take (wn w 0) (w_items w)) world) /\
     wts_wf w' /\ forall p, (p < level)%nat -> queued w' p = []) /\
  (~ wts_agree w -> wts_flush w world = Stop (SeiFail "N-way system call mismatch")).
Proof.
  intros Hwf Hlv. destruct (wts_can_flush_decides w Hwf Hlv) as (b & E & Hb).
  split; intros Hag; unfold wts_flush; rewrite E; cbn [mbind outcome_bind].
  - rewrite (proj2 Hb Hag). cbn [fail_ifn mbind outcome_bind].
    rewrite (arr_get_nth 0%nat) by (rewrite (wwf_nitems w Hwf); lia). cbn [mbind outcome_bind].
    rewrite flush_calls_ok by (done || (pose proof (wn_le w 0 Hwf); lia)). cbn [mbind outcome_bind].
    destruct (zero_counters (w_nitems w)) as (l & -> & Hll & Hl); [by rewrite (wwf_nitems w Hwf)|].
    cbn [mbind outcome_bind]. eexists. split; [done|]. split.
    + destruct Hwf as [H1 H2 H3 H4]. split; cbn; [lia|done|done|].
      intros p n Hp. specialize (Hl p). rewrite nth_lookup, Hp in Hl. cbn in Hl.
      apply lookup_lt_Some in Hp. rewrite Hl by lia. lia.
    + intros p Hp. unfold queued. cbn. by rewrite Hl.
  - destruct b; [by destruct Hag; apply Hb|]. done.
Qed.

(** ** Queueing a call *)

Lemma copy_args (args : list Z) : forall l : list Z, (length args <= length l)%nat ->
  for_range (length args) 0 (fun i l => a ← arr_get args i; arr_set l i a) l
    = Ret (args ++ drop (length args) l).
Proof.
  intros l Hl. run_loop (fun i (l' : list Z) => l' = take i args ++ drop i l) l' Hx; [done| |].
  - intros i s Hi ->. destruct (arr_get_lt args i) as (a & Ha & ->); [lia|]. cbn [mbind outcome_bind].
    rewrite arr_set_lt by (rewrite length_app, length_take, length_drop; lia).
    eexists. split; [done|]. rewrite Nat.add_1_r, (take_S_r _ _ _ Ha).
    destruct (lookup_lt_is_Some_2 l i) as [b Hb]; [lia|].
    rewrite (drop_S _ _ _ Hb). rewrite insert_app_r_alt by (rewrite length_take; lia).
    rewrite length_take, Nat.min_l, Nat.sub_diag by lia. cbn. by rewrite <- app_assoc.
  - rewrite Hx. cbn [Nat.add]. by rewrite take_ge.
Qed.

(** The item after phase [p] stored its call in it. *)
Definition set_call it p fp args : wts_item :=
  mk_wts_item (<[p := fp]> (w_func it)) (<[p := length args]> (w_anum it))
    (<[p := args ++ drop (length args) (nth p (w_args it) [])]> (w_args it)).

Lemma set_call_wf it p fp args : item_wf it -> (p < level)%nat -> (length args <= WTS_MAX_ARG)%nat ->
  item_wf (set_call it p fp args).
Proof.
  intros Hit Hp Ha. destruct (item_wf_lengths it p Hit Hp) as [Hl _].
  destruct Hit as [H1 H2 H3 H4 H5]. split; cbn; rewrite ?length_insert; try done.
  - intros q l Hq. destruct (decide (q = p)) as [->|].
    + rewrite list_lookup_insert_eq in Hq by lia. injection Hq as <-.
      rewrite length_app, length_drop. lia.
    + rewrite list_lookup_insert_ne in Hq by done. eauto.
  - intros q n Hq. destruct (decide (q = p)) as [->|].
    + rewrite list_lookup_insert_eq in Hq by lia. by injection Hq as <-.
    + rewrite list_lookup_insert_ne in Hq by done. eauto.
Qed.

Lemma call_of_set_call it p q fp args : item_wf it -> (p < level)%nat ->
  call_of q (set_call it p fp args) = if decide (q = p) then (fp, args) else call_of q it.
Proof.
  intros [H1 H2 H3 H4 H5] Hp. unfold call_of, set_call. cbn. case_decide as Hq.
  - subst q. rewrite !nth_insert_eq by lia. by rewrite take_app_length.
  - by rewrite !nth_insert_ne by done.
Qed.

Lemma wts_add_run w p fp args it : wts_wf w -> (p < level)%nat -> fp <> 0 ->
  (length args <= WTS_MAX_ARG)%nat -> (wn w p + 2 <= w_max_items w)%nat ->
  w_items w !! wn w p = Some it ->
  wts_add w (Z.of_nat p) fp args =
    Ret (mk_wts (w_max_items w) (<[p := (wn w p + 1)%nat]> (w_nitems w))
                (<[wn w p := set_call it p fp args]> (w_items w))).
Proof.
  intros Hwf Hp Hfp Ha Hmax Hit. pose proof (wwf_item w Hwf _ _ Hit) as Hi.
  destruct (item_wf_lengths it p Hi Hp) as [Hl _].
  unfold wts_add. rewrite (proj2 (Z.eqb_neq _ _) Hfp), (phase_in_range p level Hp).
  cbn [negb]. rewrite !c_assert_true. cbn [mbind outcome_bind].
  rewrite arr_getZ_nat, ?arr_setZ_nat, (arr_get_nth 0%nat) by (rewrite (wwf_nitems w Hwf); lia).
  cbn [mbind outcome_bind]. rewrite ?arr_setZ_nat, arr_set_lt by (rewrite (wwf_nitems w Hwf); lia).
  cbn [mbind outcome_bind]. rewrite (proj2 (Nat.leb_le _ _)), c_assert_true by lia. cbn [mbind outcome_bind].
  rewrite (proj2 (arr_get_Ret _ _ _) Hit). cbn [mbind outcome_bind].
  rewrite ?arr_setZ_nat, ?arr_getZ_nat, (arr_set_lt (w_func it)) by (rewrite (itwf_func it Hi); lia). cbn [mbind outcome_bind].
  rewrite (arr_set_lt (w_anum it)) by (rewrite (itwf_anum it Hi); lia). cbn [mbind outcome_bind].
  rewrite (arr_get_nth []) by (rewrite (itwf_args it Hi); lia). cbn [mbind outcome_bind].
  rewrite copy_args by lia. cbn [mbind outcome_bind].
  rewrite ?arr_setZ_nat, (arr_set_lt (w_args it)) by (rewrite (itwf_args it Hi); lia). cbn [mbind outcome_bind].
  by rewrite arr_set_lt by (by eapply lookup_lt_Some).
Qed.

(** Storing the call in the next item appends it to the queue of its phase. *)
Lemma set_call_queued w p fp args it : wts_wf w -> (p < level)%nat ->
  (length args <= WTS_MAX_ARG)%nat -> w_items w !! wn w p = Some it ->
  let w' := mk_wts (w_max_items w) (<[p := (wn w p + 1)%nat]> (w_nitems w))
                   (<[wn w p := set_call it p fp args]> (w_items w)) in
  wts_wf w' /\ queued w' p = queued w p ++ [(fp, args)] /\ forall q, q <> p -> queued w' q = queued w q.
Proof.
  intros Hwf Hp Ha Hit w'. pose proof (wwf_item w Hwf _ _ Hit) as Hi.
  assert (Hlt : (wn w p < length (w_items w))%nat) by (by eapply lookup_lt_Some).
  destruct Hwf as [H1 H2 H3 H4]. split_and!.
  - split; cbn; rewrite ?length_insert; try done.
    + intros i it' [[_ [<- _]]|[_ Hi']]%list_lookup_insert_Some; [by apply set_call_wf|eauto].
    + intros q n [[_ [<- _]]|[_ Hq]]%list_lookup_insert_Some; [lia|eauto].
  - unfold queued. cbn. rewrite nth_insert_eq, Nat.add_1_r by lia.
    rewrite (take_S_r _ _ (set_call it p fp args)) by (by apply list_lookup_insert_eq).
    rewrite take_insert_ge, fmap_app by lia. cbn. rewrite call_of_set_call by done.
    by rewrite decide_True by done.
  - intros q Hq. unfold queued. cbn. rewrite nth_insert_ne by done.
    apply list_eq. intros i. rewrite !list_lookup_fmap.
    destruct (decide (i < wn w q)%nat); [|by rewrite !lookup_take_ge by lia].
    rewrite !lookup_take_lt by done. destruct (decide (i = wn w p)) as [->|].
    + rewrite list_lookup_insert_eq, Hit by done. cbn. rewrite call_of_set_call by done.
      by rewrite decide_False.
    + by rewrite list_lookup_insert_ne by done.
Qed.

Lemma wts_add_spec w p fp args : wts_wf w -> (p < level)%nat -> fp <> 0 ->
  (length args <= WTS_MAX_ARG)%nat -> (wn w p + 2 <= w_max_items w)%nat ->
  exists w', wts_add w (Z.of_nat p) fp args = Ret w' /\ wts_wf w' /\ w_max_items w' = w_max_items w /\
    queued w' p = queued w p ++ [(fp, args)] /\ forall q, q <> p -> queued w' q = queued w q.
Proof.
  intros Hwf Hp Hfp Ha Hmax.
  destruct (lookup_lt_is_Some_2 (w_items w) (wn w p)) as [it Hit]; [rewrite (wwf_items w Hwf); lia|].
  destruct (set_call_queued w p fp args it Hwf Hp Ha Hit) as (H1 & H2 & H3).
  eexists. split; [by apply wts_add_run|]. split_and!; done.
Qed.

(** The same from a successful call: the queue had room. *)
Lemma copy_args_Ret (args l l' : list Z) :
  for_range (length args) 0 (fun i l => a ← arr_get args i; arr_set l i a) l = Ret l' ->
  (length args <= length l)%nat.
Proof.
  intros E. eapply (for_range_invariant (fun i (k : list Z) => length k = length l /\ (i <= length l)%nat))
    in E; [lia|split; [done|lia]|].
  intros i k k' Hi [Hk Hle] E'. inv_outcome. rewrite length_insert. split; [done|lia].
Qed.

Lemma wts_add_Ret w p fp args w' : wts_wf w -> (p < level)%nat ->
  wts_add w (Z.of_nat p) fp args = Ret w' ->
  wts_wf w' /\ queued w' p = queued w p ++ [(fp, args)] /\ forall q, q <> p -> queued w' q = queued w q.
Proof.
  intros Hwf Hp E. unfold wts_add in E.
  rewrite arr_getZ_nat, (arr_get_nth 0%nat) in E by (rewrite (wwf_nitems w Hwf); lia).
  inv_outcome. rewrite ?arr_setZ_nat, ?arr_getZ_nat in *. inv_outcome.
  match goal with X : w_items w !! _ = Some ?x |- _ => rename X into Hit, x into it end.
  match goal with X : for_range _ _ _ ?l = Ret _ |- _ =>
    pose proof (copy_args_Ret _ _ _ X) as Hlen; rewrite (copy_args _ _ Hlen) in X; injection X as <- end.
  pose proof (wwf_item w Hwf _ _ Hit) as Hi. destruct (item_wf_lengths it p Hi Hp) as [Hl _].
  match goal with X : w_args it !! p = Some ?l |- _ =>
    rewrite (nth_lt_lookup []) in X by (rewrite (itwf_args it Hi); lia); injection X as <- end.
  fold (set_call it p fp args). apply set_call_queued; [done|done|lia|done].
Qed.

Lemma wts_init_ok (n : nat) : (0 < n)%nat ->
  exists w, wts_init n = Ret w /\ wts_wf w /\ w_max_items w = n /\ forall p, queued w p = [].
Proof.
  intros Hn. unfold wts_init. rewrite (proj2 (Nat.ltb_lt 0 n)), c_assert_true by lia. cbn [mbind outcome_bind].
  eexists. split; [done|]. split_and!; [|done|].
  - split; cbn [w_nitems w_items w_max_items]; rewrite ?length_replicate; try done.
    + intros i it [-> _]%lookup_replicate.
      split; cbn [zero_item w_func w_anum w_args]; rewrite ?length_replicate; try done.
      * intros p l [-> _]%lookup_replicate. by rewrite length_replicate.
      * intros p k [-> _]%lookup_replicate. lia.
    + intros p k [-> _]%lookup_replicate. lia.
  - intros p. unfold queued. cbn. rewrite nth_lookup. destruct (replicate _ _ !! p) eqn:E; [|done].
    apply lookup_replicate in E as [-> _]. done.
Qed.

(** C12.  Delayed system calls: the flush returns exactly when every phase queued
    the same non-null calls with the same arguments; it then runs the calls of
    phase 0, each once and in order, and empties the queues.  Otherwise it stops
    the process before running any call. *)
Theorem wts_flush_iff w world : wts_wf w -> (1 <= level)%nat ->
  ((exists w' world', wts_flush w world = Ret (w', world')) <-> wts_agree w) /\
  (forall w' world', wts_flush w world = Ret (w', world') ->
     wts_wf w' /\ (forall p, (p < level)%nat -> queued w' p = []) /\
     exists items, call_of 0 <$> items = queued w 0 /\ world' = run_calls items world) /\
  (~ wts_agree w -> wts_flush w world = Stop (SeiFail "N-way system call mismatch")).
Proof.
  intros Hwf Hlv. destruct (wts_flush_spec w world Hwf Hlv) as [Hok Hno].
  assert (Hdec : wts_agree w \/ ~ wts_agree w).
  { destruct (wts_can_flush_decides w Hwf Hlv) as (b & _ & Hb). destruct b; [left; by apply Hb|].
    right. intros Hag. by apply Hb in Hag. }
  split_and!; [split| |done].
  - intros (w' & world' & E). destruct Hdec as [Hag|Hag]; [done|]. rewrite (Hno Hag) in E. done.
  - intros Hag. destruct (Hok Hag) as (w' & E & _). eauto.
  - intros w' world' E. destruct Hdec as [Hag|Hag]; [|rewrite (Hno Hag) in E; done].
    destruct (Hok Hag) as (w1 & E1 & Hw1 & Hq1). rewrite E in E1. injection E1 as <- ->.
    split_and!; [done|done|]. eexists. split; [|done]. done.
Qed.

End Wts.

(** ** Three executions *)

(** A queue of a three-phase build in which the last phase queued a call. *)
Definition demo_wts3 : wts :=
  mk_wts 1 [0%nat; 0%nat; 1%nat]
    [mk_wts_item [0; 0; 7] [0%nat; 0%nat; 0%nat] (replicate 3 (replicate WTS_MAX_ARG 0))].

(** The reset of a rollback clears the counters of phases 0 and 1 only: in a
    three-phase build the call queued by phase 2 survives the rollback, and the
    phases then disagree although none of them queued anything since. *)
Theorem wts_reset_keeps_phase_2 :
  let _ := release_build 3 in
  exists w, wts_reset demo_wts3 = Ret w /\ w_nitems w = [0%nat; 0%nat; 1%nat] /\ wts_can_flush w = Ret false.
Proof. eexists. split; [reflexivity|]. split; reflexivity. Qed.

Lemma wts_flush_iff_witness :
  let _ := debug_build 2 in
  exists w, wts_init 1 = Ret w /\ exists w' world', wts_flush (fun f _ l => f :: l) w [] = Ret (w', world').
Proof.
  intros B. destruct (@wts_init_ok B 1 ltac:(lia)) as (w & E & Hwf & _ & Hq). exists w. split; [exact E|].
  apply (@wts_flush_iff B _ (fun f _ l => f :: l) w [] Hwf ltac:(cbn; lia)). split.
  - intros p _. by rewrite !Hq.
  - intros c Hc. rewrite Hq in Hc. by apply elem_of_nil in Hc.
Defined.
