(* ===== verification/Crc.v ===== *)
(** * CRC-32C (src/crc.c, src/crc32c/)

    A buffer is an address (the software routines branch on its alignment) and
    the bytes found there, each in [0, 256); a CRC is a 32-bit integer.  The
    reference definition [crc_spec] processes one bit at a time; the table
    routines, the slicing routines and the routines that use the processor's
    CRC32 instruction are proved equal to it. *)

From S2P Require Export Prelude CrcTables.

(** ** Reference definition: one bit at a time (reflected polynomial) *)

Definition CRCPOLY : Z := 0x82f63b78.

Definition crc_bit (x : Z) : Z :=
  Z.lxor (Z.shiftr x 1) (if Z.odd x then CRCPOLY else 0).

Definition crc_bits (n : nat) (x : Z) : Z := Nat.iter n crc_bit x.

Definition crc_spec (crc : Z) (data : list Z) : Z :=
  foldl (fun c b => crc_bits 8 (Z.lxor c b)) crc data.

(** ** crc32c_software.c *)

(** [*p_buf] is a signed [char]; converting it to [uint32_t] sign-extends. *)
Definition char_u32 (b : Z) : Z := if b <? 128 then b else b + 0xFFFFFF00.

Definition tbl (t : list Z) (i : Z) : Z := nth (Z.to_nat i) t 0.

(** [*(uint32_t* ) p_buf] and the like on a little-endian machine. *)
Definition le (l : list Z) : Z := foldr (fun b acc => b + 256 * acc) 0 l.

(** [crc = crc_tableil8_o32[(crc ^ *p_buf++) & 0xFF] ^ (crc >> 8)] *)
Definition sarwate_step (crc b : Z) : Z :=
  Z.lxor (tbl crc_tableil8_o32 (Z.land (Z.lxor crc (char_u32 b)) 0xFF)) (Z.shiftr crc 8).

Definition crc32cSarwate (crc : Z) (addr : Z) (data : list Z) : Z :=
  foldl sarwate_step crc data.

Definition slice4_step (crc w : Z) : Z :=
  let crc := Z.lxor crc w in
  let term1 := Z.lxor (tbl crc_tableil8_o56 (Z.land crc 0xFF))
                      (tbl crc_tableil8_o48 (Z.land (Z.shiftr crc 8) 0xFF)) in
  let term2 := Z.shiftr crc 16 in
  Z.lxor (Z.lxor term1 (tbl crc_tableil8_o40 (Z.land term2 0xFF)))
         (tbl crc_tableil8_o32 (Z.land (Z.shiftr term2 8) 0xFF)).

Definition slice8_step (crc w w' : Z) : Z :=
  let crc := Z.lxor crc w in
  let term1 := Z.lxor (tbl crc_tableil8_o88 (Z.land crc 0xFF))
                      (tbl crc_tableil8_o80 (Z.land (Z.shiftr crc 8) 0xFF)) in
  let term2 := Z.shiftr crc 16 in
  let crc := Z.lxor (Z.lxor term1 (tbl crc_tableil8_o72 (Z.land term2 0xFF)))
                    (tbl crc_tableil8_o64 (Z.land (Z.shiftr term2 8) 0xFF)) in
  let term1 := Z.lxor (tbl crc_tableil8_o56 (Z.land w' 0xFF))
                      (tbl crc_tableil8_o48 (Z.land (Z.shiftr w' 8) 0xFF)) in
  let term2 := Z.shiftr w' 16 in
  Z.lxor (Z.lxor (Z.lxor crc term1) (tbl crc_tableil8_o40 (Z.land term2 0xFF)))
         (tbl crc_tableil8_o32 (Z.land (Z.shiftr term2 8) 0xFF)).

(** [for (li = 0; li < n; li++)] over words of [k] bytes: the CRC and the
    remaining bytes. *)
Fixpoint words_loop (k n : nat) (step : Z -> list Z -> Z) (crc : Z) (data : list Z)
  : Z * list Z :=
  match n with
  | O => (crc, data)
  | S n' => words_loop k n' step (step crc (take k data)) (drop k data)
  end.

(** Number of leading bytes before a 4-byte boundary, at most [length]. *)
Definition initial_bytes (addr : Z) (length : Z) : Z :=
  let n := Z.land (4 - addr) 3 in
  if length <? n then length else n.

(** The common shape of the two slicing routines, for a word size [k]. *)
Definition slicing (k : nat) (step : Z -> list Z -> Z) (crc addr : Z) (data : list Z) : Z :=
  let ib := Z.to_nat (initial_bytes addr (Z.of_nat (length data))) in
  let crc := foldl sarwate_step crc (take ib data) in
  let data := drop ib data in
  let len := Z.of_nat (length data) in
  let running_length := Z.land len (Z.lnot (Z.of_nat k - 1)) in
  let end_bytes := len - running_length in
  let '(crc, data) := words_loop k (Z.to_nat (running_length / Z.of_nat k)) step crc data in
  foldl sarwate_step crc (take (Z.to_nat end_bytes) data).

Definition crc32cSlicingBy4 (crc addr : Z) (data : list Z) : Z :=
  slicing 4 (fun crc w => slice4_step crc (le w)) crc addr data.

Definition crc32cSlicingBy8 (crc addr : Z) (data : list Z) : Z :=
  slicing 8 (fun crc w => slice8_step crc (le (take 4 w)) (le (drop 4 w))) crc addr data.

(** ** crc32c_hardware.c

    The compiler's builtins for the CRC32 instruction are parameters. *)

Class Crc32Insn := {
  ia32_crc32qi : Z -> Z -> Z;
  ia32_crc32hi : Z -> Z -> Z;
  ia32_crc32si : Z -> Z -> Z;
  ia32_crc32di : Z -> Z -> Z;
}.

(** Intel's description of the instruction: the operand is reflected, combined
    with the accumulator and reduced modulo the CRC-32C polynomial. *)
Class Crc32InsnSpec `{Crc32Insn} := {
  crc32qi_spec : forall c v, 0 <= c < 2^32 -> 0 <= v < 2^8 -> ia32_crc32qi c v = crc_bits 8 (Z.lxor c v);
  crc32hi_spec : forall c v, 0 <= c < 2^32 -> 0 <= v < 2^16 -> ia32_crc32hi c v = crc_bits 16 (Z.lxor c v);
  crc32si_spec : forall c v, 0 <= c < 2^32 -> 0 <= v < 2^32 -> ia32_crc32si c v = crc_bits 32 (Z.lxor c v);
  crc32di_spec : forall c v, 0 <= c < 2^32 -> 0 <= v < 2^64 -> ia32_crc32di c v = crc_bits 64 (Z.lxor c v);
}.

Section Hardware.
Context `{Crc32Insn}.

Definition crc32cHardware32 (crc : Z) (addr : Z) (data : list Z) : Z :=
  let '(crc, p_buf) := words_loop 4 (length data / 4)
                         (fun crc w => ia32_crc32si crc (le w)) crc data in
  match (length data mod 4)%nat with
  | 3%nat => let crc := ia32_crc32qi crc (le (take 1 p_buf)) in
             let p_buf := drop 1 p_buf in
             ia32_crc32hi crc (le (take 2 p_buf))
  | 2%nat => ia32_crc32hi crc (le (take 2 p_buf))
  | 1%nat => ia32_crc32qi crc (le (take 1 p_buf))
  | _ => crc
  end.

(** Built for a 64-bit target ([__LP64__]). *)
Definition crc32cHardware64 (crc : Z) (addr : Z) (data : list Z) : Z :=
  let '(crc64bit, p_buf) := words_loop 8 (length data / 8)
                              (fun crc w => ia32_crc32di crc (le w)) crc data in
  let crc32bit := crc64bit mod 2^32 in
  match (length data mod 8)%nat with
  | 7%nat => let crc32bit := ia32_crc32qi crc32bit (le (take 1 p_buf)) in
             let p_buf := drop 1 p_buf in
             let crc32bit := ia32_crc32hi crc32bit (le (take 2 p_buf)) in
             let p_buf := drop 2 p_buf in
             ia32_crc32si crc32bit (le (take 4 p_buf))
  | 6%nat => let crc32bit := ia32_crc32hi crc32bit (le (take 2 p_buf)) in
             let p_buf := drop 2 p_buf in
             ia32_crc32si crc32bit (le (take 4 p_buf))
  | 4%nat => ia32_crc32si crc32bit (le (take 4 p_buf))
  | 3%nat => let crc32bit := ia32_crc32qi crc32bit (le (take 1 p_buf)) in
             let p_buf := drop 1 p_buf in
             ia32_crc32hi crc32bit (le (take 2 p_buf))
  | 2%nat => ia32_crc32hi crc32bit (le (take 2 p_buf))
  | 5%nat => let crc32bit := ia32_crc32si crc32bit (le (take 4 p_buf)) in
             let p_buf := drop 4 p_buf in
             ia32_crc32qi crc32bit (le (take 1 p_buf))
  | 1%nat => ia32_crc32qi crc32bit (le (take 1 p_buf))
  | _ => crc32bit
  end.

(** [crc32c_impl] on a 64-bit target: the result of [cpuid(1)] selects the
    routine. *)
Definition crc32c_impl (ecx : Z) : Z -> Z -> list Z -> Z :=
  let hasSSE42 := Z.land ecx (Z.shiftl 1 20) in
  if negb (hasSSE42 =? 0) then crc32cHardware64 else crc32cSlicingBy8.

End Hardware.

(** ** crc.c (default build: neither CRC_CHECKSUM nor CRC_NONE) *)

Definition crc_init : Z := 0xFFFFFFFF.

Section CrcApi.
Context (crc32c : Z -> Z -> list Z -> Z).

Definition crc_append (crc addr : Z) (block : list Z) : Z := crc32c crc addr block.
Definition crc_append_len (crc : Z) (len : Z) : Z := crc.
Definition crc_close (crc : Z) : Z := Z.lxor crc 0xFFFFFFFF.   (* [~crc] on 32 bits *)

Definition crc_compute (addr : Z) (block : list Z) : Z :=
  crc_close (crc_append_len (crc_append crc_init addr block) (Z.of_nat (length block))).

End CrcApi.

(** [crc_compute_redundant]: [compute i] is the result of the [i]-th call of
    [crc_compute] (a faulty core may return different results for the same
    block); [None] is the return value 0. *)
Definition crc_compute_redundant (compute : nat -> Z) (redundancy_count : nat) : option Z :=
  if (redundancy_count <? 2)%nat || (10 <? redundancy_count)%nat then None
  else
    let crc_results := compute <$> seq 0 redundancy_count in
    if all_range (redundancy_count - 1) 1 (fun i => nth i crc_results 0 =? nth 0 crc_results 0)
    then Some (nth 0 crc_results 0)
    else None.

(** ** Algebra of the bit step *)

Lemma crc_bit_nonneg x : 0 <= x -> 0 <= crc_bit x.
Proof.
  intros Hx. unfold crc_bit. apply Z.lxor_nonneg. rewrite Z.shiftr_nonneg.
  destruct (Z.odd x); unfold CRCPOLY; lia.
Qed.

Lemma crc_bit_lxor x y : crc_bit (Z.lxor x y) = Z.lxor (crc_bit x) (crc_bit y).
Proof.
  unfold crc_bit. rewrite Z.shiftr_lxor. rewrite <- (Z.bit0_odd (Z.lxor x y)), Z.lxor_spec, !Z.bit0_odd.
  rewrite !Z.lxor_assoc. f_equal. rewrite (Z.lxor_comm _ (Z.lxor (Z.shiftr y 1) _)), Z.lxor_assoc.
  f_equal. by destruct (Z.odd x), (Z.odd y).
Qed.

Lemma crc_bits_S n x : crc_bits (S n) x = crc_bit (crc_bits n x).
Proof. done. Qed.

Lemma crc_bits_lxor n x y : crc_bits n (Z.lxor x y) = Z.lxor (crc_bits n x) (crc_bits n y).
Proof. induction n as [|n IH]; [done|]. by rewrite !crc_bits_S, IH, crc_bit_lxor. Qed.

Lemma crc_bits_add n m x : crc_bits (n + m) x = crc_bits n (crc_bits m x).
Proof. induction n as [|n IH]; [done|]. cbn [Nat.add]. by rewrite !crc_bits_S, IH. Qed.

Lemma crc_bits_0 n : crc_bits n 0 = 0.
Proof. induction n as [|n IH]; [done|]. by rewrite crc_bits_S, IH. Qed.

Lemma crc_bit_double x : crc_bit (2 * x) = x.
Proof.
  unfold crc_bit. rewrite Z.odd_even, Z.lxor_0_r, Z.shiftr_div_pow2 by lia.
  change (2^1) with 2. rewrite Z.mul_comm. by apply Z.div_mul.
Qed.

Lemma crc_bits_shiftl n x : crc_bits n (Z.shiftl x (Z.of_nat n)) = x.
Proof.
  revert x. induction n as [|n IH]; intros x; [apply Z.shiftl_0_r|].
  rewrite <- Nat.add_1_r, crc_bits_add. unfold crc_bits at 2. cbn [Nat.iter].
  rewrite Nat2Z.inj_add, <- Z.shiftl_shiftl by lia. change (Z.of_nat 1) with 1.
  rewrite (Z.shiftl_mul_pow2 _ 1) by lia. change (2^1) with 2.
  rewrite Z.mul_comm, crc_bit_double. apply IH.
Qed.

(** Splitting off the low [k] bits. *)
Lemma split_low x (k : Z) : 0 <= k ->
  x = Z.lxor (Z.land x (Z.ones k)) (Z.shiftl (Z.shiftr x k) k).
Proof.
  intros Hk. apply Z.bits_inj'. intros i Hi. rewrite Z.lxor_spec, Z.land_spec, Z.shiftl_spec by lia.
  destruct (decide (i < k)).
  - rewrite Z.ones_spec_low, (Z.testbit_neg_r _ (i - k)) by lia. by destruct (Z.testbit x i).
  - rewrite Z.ones_spec_high, Z.shiftr_spec by lia. rewrite Z.sub_add. by destruct (Z.testbit x i).
Qed.

Lemma crc_bits_split n (k : nat) x : (k <= n)%nat ->
  crc_bits n x = Z.lxor (crc_bits n (Z.land x (Z.ones (Z.of_nat k))))
                        (crc_bits (n - k) (Z.shiftr x (Z.of_nat k))).
Proof.
  intros Hk. rewrite (split_low x (Z.of_nat k)) at 1 by lia. rewrite crc_bits_lxor. f_equal.
  replace n with ((n - k) + k)%nat at 1 by lia. by rewrite crc_bits_add, crc_bits_shiftl.
Qed.

(** ** The tables *)

Definition is_table (n : nat) (t : list Z) : Prop := t = crc_bits n <$> seqZ 0 256.

Lemma o32_table : is_table 8 crc_tableil8_o32. Proof. by vm_compute. Qed.
Lemma o40_table : is_table 16 crc_tableil8_o40. Proof. by vm_compute. Qed.
Lemma o48_table : is_table 24 crc_tableil8_o48. Proof. by vm_compute. Qed.
Lemma o56_table : is_table 32 crc_tableil8_o56. Proof. by vm_compute. Qed.
Lemma o64_table : is_table 40 crc_tableil8_o64. Proof. by vm_compute. Qed.
Lemma o72_table : is_table 48 crc_tableil8_o72. Proof. by vm_compute. Qed.
Lemma o80_table : is_table 56 crc_tableil8_o80. Proof. by vm_compute. Qed.
Lemma o88_table : is_table 64 crc_tableil8_o88. Proof. by vm_compute. Qed.

Lemma land_ff_range x : 0 <= Z.land x 0xFF < 256.
Proof. change 0xFF with (Z.ones 8). rewrite Z.land_ones by lia. apply Z.mod_pos_bound. lia. Qed.

Lemma tbl_land n t x : is_table n t -> tbl t (Z.land x 0xFF) = crc_bits n (Z.land x 0xFF).
Proof.
  intros ->. pose proof (land_ff_range x) as Hr. unfold tbl. rewrite nth_lookup, list_lookup_fmap.
  rewrite lookup_seqZ_lt by lia. cbn. f_equal. lia.
Qed.

#[global] Opaque crc_tableil8_o32 crc_tableil8_o40 crc_tableil8_o48 crc_tableil8_o56
  crc_tableil8_o64 crc_tableil8_o72 crc_tableil8_o80 crc_tableil8_o88.

(** ** Ranges *)

Lemma u32_bits x : 0 <= x -> x < 2^32 <-> forall i, 32 <= i -> Z.testbit x i = false.
Proof.
  intros H0. split.
  - intros Hx i Hi. destruct (decide (x = 0)) as [->|]; [apply Z.bits_0|].
    apply Z.bits_above_log2; [lia|]. apply Z.log2_lt_pow2; [lia|].
    eapply Z.lt_le_trans; [done|]. apply Z.pow_le_mono_r; lia.
  - intros Hb. destruct (Z.lt_ge_cases x (2^32)) as [|Hge]; [done|].
    assert (Hl : 32 <= Z.log2 x) by (apply Z.log2_le_pow2; lia).
    specialize (Hb _ Hl). rewrite Z.bit_log2 in Hb by lia. done.
Qed.

Lemma lxor_u32 x y : 0 <= x < 2^32 -> 0 <= y < 2^32 -> 0 <= Z.lxor x y < 2^32.
Proof.
  intros [Hx Hx'] [Hy Hy']. assert (0 <= Z.lxor x y) by (apply Z.lxor_nonneg; lia). split; [done|].
  apply u32_bits; [done|]. intros i Hi. rewrite Z.lxor_spec.
  rewrite (proj1 (u32_bits x Hx) Hx'), (proj1 (u32_bits y Hy) Hy') by done. done.
Qed.

Lemma crc_bit_u32 x : 0 <= x < 2^32 -> 0 <= crc_bit x < 2^32.
Proof.
  intros Hx. unfold crc_bit. apply lxor_u32.
  - rewrite Z.shiftr_div_pow2 by lia. change (2^1) with 2. split; [apply Z.div_pos; lia|].
    apply Z.div_lt_upper_bound; lia.
  - destruct (Z.odd x); unfold CRCPOLY; lia.
Qed.

Lemma crc_bits_u32 n x : 0 <= x < 2^32 -> 0 <= crc_bits n x < 2^32.
Proof. intros Hx. induction n as [|n IH]; [done|]. rewrite crc_bits_S. by apply crc_bit_u32. Qed.

Definition bytes (l : list Z) : Prop := Forall (fun b => 0 <= b < 256) l.

Lemma crc_spec_u32 crc data : 0 <= crc < 2^32 -> bytes data -> 0 <= crc_spec crc data < 2^32.
Proof.
  intros Hc Hd. revert crc Hc. induction Hd as [|b l Hb Hl IH]; intros crc Hc; [done|].
  cbn [crc_spec foldl]. apply IH, crc_bits_u32, lxor_u32; lia.
Qed.

Lemma crc_spec_app crc l1 l2 : crc_spec crc (l1 ++ l2) = crc_spec (crc_spec crc l1) l2.
Proof. apply foldl_app. Qed.

(** ** Byte-wise routine *)

Lemma char_u32_land crc b : 0 <= b < 256 ->
  Z.land (Z.lxor crc (char_u32 b)) 0xFF = Z.land (Z.lxor crc b) 0xFF.
Proof.
  intros Hb. unfold char_u32. destruct (b <? 128) eqn:E; [done|]. apply Z.ltb_ge in E.
  change 0xFF with (Z.ones 8). rewrite !(Z.land_comm _ (Z.ones 8)).
  apply Z.bits_inj'. intros i Hi. rewrite !Z.land_spec, !Z.lxor_spec.
  destruct (decide (i < 8)); [|by rewrite Z.ones_spec_high by lia].
  f_equal. f_equal. replace (b + 0xFFFFFF00) with (b + 0xFFFFFF * 2^8) by lia.
  rewrite <- (Z.mod_pow2_bits_low _ 8) by lia. rewrite Z.mod_add by lia.
  by rewrite Z.mod_pow2_bits_low by lia.
Qed.

Lemma shiftr_lxor_byte crc b : 0 <= b < 256 -> Z.shiftr (Z.lxor crc b) 8 = Z.shiftr crc 8.
Proof.
  intros Hb. rewrite Z.shiftr_lxor. rewrite (Z.shiftr_div_pow2 b), Z.div_small by lia.
  apply Z.lxor_0_r.
Qed.

Lemma sarwate_step_spec crc b : 0 <= b < 256 -> sarwate_step crc b = crc_bits 8 (Z.lxor crc b).
Proof.
  intros Hb. unfold sarwate_step. rewrite char_u32_land, (tbl_land 8) by (done || apply o32_table).
  rewrite (crc_bits_split 8 8 (Z.lxor crc b)) by lia. change (Z.ones (Z.of_nat 8)) with 0xFF.
  change (Z.of_nat 8) with 8. by rewrite shiftr_lxor_byte.
Qed.

Lemma sarwate_fold crc data : bytes data -> foldl sarwate_step crc data = crc_spec crc data.
Proof.
  intros Hd. revert crc. induction Hd as [|b l Hb Hl IH]; intros crc; [done|].
  cbn [foldl crc_spec]. by rewrite IH, sarwate_step_spec.
Qed.

(** ** Words *)

Lemma le_range l : bytes l -> 0 <= le l < 2^(8 * Z.of_nat (length l)).
Proof.
  induction 1 as [|b l Hb Hl IH]; [done|]. cbn [le foldr length].
  replace (8 * Z.of_nat (Datatypes.S (length l))) with (8 + 8 * Z.of_nat (length l)) by lia.
  rewrite Z.pow_add_r by lia. change (2^8) with 256. unfold le in IH. lia.
Qed.

Lemma le_cons b l : 0 <= b < 256 -> 0 <= le l -> le (b :: l) = Z.lxor b (Z.shiftl (le l) 8).
Proof.
  intros Hb Hl. change (le (b :: l)) with (b + 256 * le l).
  rewrite Z.add_nocarry_lxor.
  - f_equal. rewrite Z.shiftl_mul_pow2 by lia. lia.
  - replace (256 * le l) with (Z.shiftl (le l) 8) by (rewrite Z.shiftl_mul_pow2 by lia; lia).
    apply Z.bits_inj'. intros i Hi. rewrite Z.land_spec, Z.bits_0, Z.shiftl_spec by lia.
    destruct (decide (i < 8)); [by rewrite (Z.testbit_neg_r _ (i - 8)), andb_false_r by lia|].
    destruct (decide (b = 0)) as [->|]; [by rewrite Z.bits_0|].
    assert (Z.log2 b < 8) by (apply Z.log2_lt_pow2; lia). rewrite Z.bits_above_log2; [done|lia|lia].
Qed.

(** Processing a word of bytes at once. *)
Lemma crc_spec_word crc l : 0 <= crc -> bytes l ->
  crc_spec crc l = crc_bits (8 * length l) (Z.lxor crc (le l)).
Proof.
  intros Hc Hl. revert crc Hc. induction Hl as [|b l Hb Hl IH]; intros crc Hc.
  { cbn. by rewrite Z.lxor_0_r. }
  pose proof (le_range l Hl) as [Hle _].
  change (crc_spec crc (b :: l)) with (crc_spec (crc_bits 8 (Z.lxor crc b)) l). rewrite IH.
  2: { assert (0 <= Z.lxor crc b) by (apply Z.lxor_nonneg; lia).
       unfold crc_bits; cbn; repeat apply crc_bit_nonneg; done. }
  rewrite <- (crc_bits_shiftl 8 (le l)) at 1. rewrite <- crc_bits_lxor, <- crc_bits_add.
  rewrite le_cons by lia. change (Z.of_nat 8) with 8. rewrite Z.lxor_assoc. f_equal. cbn [length]. lia.
Qed.

Lemma words_loop_spec k n step crc data :
  (1 <= k)%nat -> 0 <= crc < 2^32 -> bytes data -> (n * k <= length data)%nat ->
  (forall c w, 0 <= c < 2^32 -> bytes w -> length w = k -> step c w = crc_spec c w) ->
  words_loop k n step crc data = (crc_spec crc (take (n * k) data), drop (n * k) data).
Proof.
  intros Hk. revert crc data. induction n as [|n IH]; intros crc data Hc Hd Hn Hstep; cbn [words_loop].
  { by rewrite take_0, drop_0. }
  assert (Hw : bytes (take k data)) by (by apply Forall_take).
  rewrite Hstep by (done || (rewrite length_take; lia)).
  rewrite IH; [|by apply crc_spec_u32|by apply Forall_drop|rewrite length_drop; lia|done].
  rewrite drop_drop, <- crc_spec_app. replace (Datatypes.S n * k)%nat with (k + n * k)%nat by lia.
  by rewrite take_take_drop.
Qed.

Lemma slice4_bits x : 0 <= x < 2^32 ->
  slice4_step x 0 = crc_bits 32 x.
Proof.
  intros Hx. unfold slice4_step. rewrite Z.lxor_0_r.
  rewrite (tbl_land 32), (tbl_land 24), (tbl_land 16), (tbl_land 8)
    by (apply o56_table || apply o48_table || apply o40_table || apply o32_table).
  rewrite (crc_bits_split 32 8 x) by lia.
  rewrite (crc_bits_split (32 - 8) 8 (Z.shiftr x _)) by lia.
  rewrite (crc_bits_split (32 - 8 - 8) 8 (Z.shiftr (Z.shiftr x _) _)) by lia.
  rewrite (crc_bits_split (32 - 8 - 8 - 8) 8 (Z.shiftr (Z.shiftr (Z.shiftr x _) _) _)) by lia.
  change (Z.ones (Z.of_nat 8)) with 0xFF. change (Z.of_nat 8) with 8.
  cbn [Nat.sub]. rewrite !Z.shiftr_shiftr by lia. change (8 + 8 + 8 + 8) with 32.
  change (8 + 8 + 8) with 24. change (16 + 8) with 24. change (8 + 8) with 16.
  rewrite (Z.shiftr_div_pow2 x 32), (Z.div_small x (2^32)) by lia.
  rewrite crc_bits_0, Z.lxor_0_r, !Z.lxor_assoc. done.
Qed.

Lemma slice4_step_lxor c w : slice4_step c w = slice4_step (Z.lxor c w) 0.
Proof. unfold slice4_step. by rewrite Z.lxor_0_r. Qed.

Lemma slice4_step_spec c w : 0 <= c < 2^32 -> bytes w -> length w = 4%nat ->
  slice4_step c (le w) = crc_spec c w.
Proof.
  intros Hc Hw Hl. pose proof (le_range w Hw) as Hle. rewrite Hl in Hle.
  rewrite slice4_step_lxor, slice4_bits by (apply lxor_u32; lia).
  rewrite crc_spec_word, Hl by (done || lia). done.
Qed.

Lemma slice8_step_split c w w' : 0 <= c < 2^32 -> 0 <= w < 2^32 -> 0 <= w' < 2^32 ->
  slice8_step c w w' = Z.lxor (crc_bits 64 (Z.lxor c w)) (crc_bits 32 w').
Proof.
  intros Hc Hw Hw'. rewrite <- (slice4_bits w') by done. unfold slice8_step, slice4_step.
  rewrite Z.lxor_0_r. pose proof (lxor_u32 c w Hc Hw) as Hx. set (x := Z.lxor c w) in *.
  rewrite (tbl_land 64), (tbl_land 56), (tbl_land 48), (tbl_land 40)
    by (apply o88_table || apply o80_table || apply o72_table || apply o64_table).
  rewrite (crc_bits_split 64 8 x) by lia.
  rewrite (crc_bits_split (64 - 8) 8 (Z.shiftr x _)) by lia.
  rewrite (crc_bits_split (64 - 8 - 8) 8 (Z.shiftr (Z.shiftr x _) _)) by lia.
  rewrite (crc_bits_split (64 - 8 - 8 - 8) 8 (Z.shiftr (Z.shiftr (Z.shiftr x _) _) _)) by lia.
  change (Z.ones (Z.of_nat 8)) with 0xFF. change (Z.of_nat 8) with 8.
  cbn [Nat.sub]. rewrite !Z.shiftr_shiftr by lia. change (8 + 8 + 8 + 8) with 32.
  change (8 + 8 + 8) with 24. change (16 + 8) with 24. change (8 + 8) with 16.
  rewrite (Z.shiftr_div_pow2 x 32), (Z.div_small x (2^32)) by lia.
  rewrite crc_bits_0, Z.lxor_0_r, !Z.lxor_assoc. done.
Qed.

Lemma slice8_step_spec c w : 0 <= c < 2^32 -> bytes w -> length w = 8%nat ->
  slice8_step c (le (take 4 w)) (le (drop 4 w)) = crc_spec c w.
Proof.
  intros Hc Hw Hl. assert (Hw1 : bytes (take 4 w)) by (by apply Forall_take).
  assert (Hw2 : bytes (drop 4 w)) by (by apply Forall_drop).
  pose proof (le_range _ Hw1) as Hr1. pose proof (le_range _ Hw2) as Hr2.
  rewrite length_take, Hl in Hr1. rewrite length_drop, Hl in Hr2. cbn in Hr1, Hr2.
  rewrite slice8_step_split by (done || lia).
  rewrite <- (take_drop 4 w) at 3. rewrite crc_spec_app, (crc_spec_word c), length_take, Hl by (done || lia).
  cbn [Nat.min Nat.mul Nat.add]. rewrite crc_spec_word, length_drop, Hl; [|apply crc_bits_u32, lxor_u32; lia|done].
  cbn [Nat.sub Nat.mul Nat.add].
  change 64%nat with (32 + 32)%nat. by rewrite (crc_bits_add 32 32), (crc_bits_lxor 32 (crc_bits 32 _)).
Qed.

Lemma land_lnot_ones n (k : Z) : 0 <= k -> Z.land n (Z.lnot (Z.ones k)) = 2^k * (n / 2^k).
Proof.
  intros Hk. rewrite <- Z.ldiff_land, Z.ldiff_ones_r, Z.shiftl_mul_pow2, Z.shiftr_div_pow2 by lia. lia.
Qed.

Lemma initial_bytes_range addr n : 0 <= n -> 0 <= initial_bytes addr n <= n.
Proof.
  intros Hn. unfold initial_bytes. change 3 with (Z.ones 2). rewrite Z.land_ones by lia.
  pose proof (Z.mod_pos_bound (4 - addr) (2^2) ltac:(lia)).
  destruct (n <? (4 - addr) mod 2^2) eqn:E; [lia|]. apply Z.ltb_ge in E. lia.
Qed.

Lemma slicing_spec (j : Z) k step crc addr data :
  0 <= j -> Z.of_nat k = 2^j -> 0 <= crc < 2^32 -> bytes data ->
  (forall c w, 0 <= c < 2^32 -> bytes w -> length w = k -> step c w = crc_spec c w) ->
  slicing k step crc addr data = crc_spec crc data.
Proof.
  intros Hj Hk Hc Hd Hstep. unfold slicing.
  pose proof (initial_bytes_range addr (Z.of_nat (length data)) ltac:(lia)) as Hib.
  set (ib := Z.to_nat (initial_bytes _ _)). assert (ib <= length data)%nat by lia.
  assert (Hd1 : bytes (take ib data)) by (by apply Forall_take).
  assert (Hd2 : bytes (drop ib data)) by (by apply Forall_drop).
  rewrite sarwate_fold by done. set (rest := drop ib data) in *.
  rewrite Hk. replace (2^j - 1) with (Z.ones j) by (rewrite Z.ones_equiv; lia).
  rewrite land_lnot_ones by done. assert (Hp : 0 < 2^j) by (apply Z.pow_pos_nonneg; lia).
  rewrite (Z.mul_comm (2^j)), Z.div_mul by lia. rewrite (Z.mul_comm _ (2^j)).
  pose proof (Z.div_mod (Z.of_nat (length rest)) (2^j) ltac:(lia)) as Hdm.
  pose proof (Z.mod_pos_bound (Z.of_nat (length rest)) (2^j) Hp) as Hmb.
  assert (Hq : 0 <= Z.of_nat (length rest) / 2^j) by (apply Z.div_pos; lia).
  set (q := Z.of_nat (length rest) / 2^j) in *.
  assert (Hqk : Z.of_nat (Z.to_nat q * k) = 2^j * q) by (rewrite Nat2Z.inj_mul, Hk; lia).
  rewrite words_loop_spec by (done || lia || by apply crc_spec_u32).
  rewrite (take_ge (drop (Z.to_nat q * k) rest)) by (rewrite length_drop; lia).
  rewrite sarwate_fold by (by apply Forall_drop).
  rewrite <- crc_spec_app, take_drop, <- crc_spec_app. unfold rest. by rewrite take_drop.
Qed.

Lemma crc32cSlicingBy4_spec crc addr data : 0 <= crc < 2^32 -> bytes data ->
  crc32cSlicingBy4 crc addr data = crc_spec crc data.
Proof.
  intros Hc Hd. apply (slicing_spec 2); [lia|done|done|done|]. intros. by apply slice4_step_spec.
Qed.

Lemma crc32cSlicingBy8_spec crc addr data : 0 <= crc < 2^32 -> bytes data ->
  crc32cSlicingBy8 crc addr data = crc_spec crc data.
Proof.
  intros Hc Hd. apply (slicing_spec 3); [lia|done|done|done|]. intros. by apply slice8_step_spec.
Qed.

(** ** The instruction-based routines *)

Section HardwareSpec.
Context `{Crc32InsnSpec}.

Ltac word_step lem n :=
  intros Hc Hw Hl; pose proof (le_range _ Hw) as Hr; rewrite Hl in Hr;
  rewrite lem by (done || lia); rewrite crc_spec_word, Hl by (done || lia); done.

Lemma qi_word c w : 0 <= c < 2^32 -> bytes w -> length w = 1%nat -> ia32_crc32qi c (le w) = crc_spec c w.
Proof. word_step crc32qi_spec 1. Qed.
Lemma hi_word c w : 0 <= c < 2^32 -> bytes w -> length w = 2%nat -> ia32_crc32hi c (le w) = crc_spec c w.
Proof. word_step crc32hi_spec 2. Qed.
Lemma si_word c w : 0 <= c < 2^32 -> bytes w -> length w = 4%nat -> ia32_crc32si c (le w) = crc_spec c w.
Proof. word_step crc32si_spec 4. Qed.
Lemma di_word c w : 0 <= c < 2^32 -> bytes w -> length w = 8%nat -> ia32_crc32di c (le w) = crc_spec c w.
Proof. word_step crc32di_spec 8. Qed.

(** Process the rest of the buffer piece by piece. *)
Lemma crc_spec_piece k c l : crc_spec c l = crc_spec (crc_spec c (take k l)) (drop k l).
Proof. by rewrite <- crc_spec_app, take_drop. Qed.

Ltac piece_side :=
  repeat first [done | apply crc_spec_u32 | apply Forall_take | apply Forall_drop
               | (rewrite ?length_take, ?length_drop; lia)].
Ltac pieces :=
  repeat first [rewrite qi_word by piece_side | rewrite hi_word by piece_side | rewrite si_word by piece_side];
  rewrite <- ?crc_spec_app; f_equal; rewrite ?take_take_drop; try (by rewrite take_ge by piece_side).

Lemma div_mod_split (k : nat) (data : list Z) : (1 <= k)%nat ->
  (length data / k * k <= length data)%nat /\
  length (drop (length data / k * k) data) = (length data mod k)%nat.
Proof.
  intros Hk. pose proof (Nat.div_mod (length data) k ltac:(lia)). rewrite length_drop. lia.
Qed.

Lemma crc32cHardware32_spec crc addr data : 0 <= crc < 2^32 -> bytes data ->
  crc32cHardware32 crc addr data = crc_spec crc data.
Proof.
  intros Hc Hd. destruct (div_mod_split 4 data ltac:(lia)) as [Hq Hr].
  pose proof (Nat.mod_upper_bound (length data) 4 ltac:(lia)) as Hm. unfold crc32cHardware32.
  rewrite words_loop_spec by (done || lia || apply si_word).
  rewrite (crc_spec_piece (length data / 4 * 4) crc data).
  assert (Hd1 : bytes (take (length data / 4 * 4) data)) by (by apply Forall_take).
  assert (Hd2 : bytes (drop (length data / 4 * 4) data)) by (by apply Forall_drop).
  pose proof (crc_spec_u32 crc _ Hc Hd1) as Hc1.
  set (c := crc_spec crc (take _ _)) in *. set (l := drop _ _) in *. rewrite <- Hr.
  rewrite <- Hr in Hm. destruct l as [|b1 [|b2 [|b3 [|b4 l]]]]; cbn [length] in *; try lia; pieces.
Qed.

Lemma crc32cHardware64_spec crc addr data : 0 <= crc < 2^32 -> bytes data ->
  crc32cHardware64 crc addr data = crc_spec crc data.
Proof.
  intros Hc Hd. destruct (div_mod_split 8 data ltac:(lia)) as [Hq Hr].
  pose proof (Nat.mod_upper_bound (length data) 8 ltac:(lia)) as Hm. unfold crc32cHardware64.
  rewrite words_loop_spec by (done || lia || apply di_word).
  rewrite (crc_spec_piece (length data / 8 * 8) crc data).
  assert (Hd1 : bytes (take (length data / 8 * 8) data)) by (by apply Forall_take).
  assert (Hd2 : bytes (drop (length data / 8 * 8) data)) by (by apply Forall_drop).
  pose proof (crc_spec_u32 crc _ Hc Hd1) as Hc1.
  set (c := crc_spec crc (take _ _)) in *. set (l := drop _ _) in *. rewrite <- Hr.
  rewrite (Z.mod_small c) by lia. rewrite <- Hr in Hm.
  destruct l as [|b1 [|b2 [|b3 [|b4 [|b5 [|b6 [|b7 [|b8 l]]]]]]]]; cbn [length] in *; try lia; pieces.
Qed.

End HardwareSpec.

(** ** Detection

    The bit step is injective on 32-bit values: bit 31 of the result tells
    whether the polynomial was added. *)

Lemma crc_bit_31 x : 0 <= x < 2^32 -> Z.testbit (crc_bit x) 31 = Z.odd x.
Proof.
  intros Hx. unfold crc_bit. rewrite Z.lxor_spec, Z.shiftr_spec by lia.
  rewrite (proj1 (u32_bits x ltac:(lia)) ltac:(lia)) by lia. by destruct (Z.odd x).
Qed.

Lemma crc_bit_zero x : 0 <= x < 2^32 -> crc_bit x = 0 -> x = 0.
Proof.
  intros Hx E. pose proof (crc_bit_31 x Hx) as Ho. rewrite E, Z.bits_0 in Ho.
  unfold crc_bit in E. rewrite <- Ho, Z.lxor_0_r, Z.shiftr_div_pow2 in E by lia. change (2^1) with 2 in E.
  pose proof (Z.div_mod x 2 ltac:(lia)). rewrite Zmod_odd, <- Ho in *. lia.
Qed.

Lemma crc_bits_zero n x : 0 <= x < 2^32 -> crc_bits n x = 0 -> x = 0.
Proof.
  intros Hx. induction n as [|n IH]; [done|]. rewrite crc_bits_S. intros E.
  by apply IH, crc_bit_zero; [apply crc_bits_u32|].
Qed.

Lemma crc_bits_inj n x y : 0 <= x < 2^32 -> 0 <= y < 2^32 -> crc_bits n x = crc_bits n y -> x = y.
Proof.
  intros Hx Hy E. apply Z.lxor_eq. apply (crc_bits_zero n); [by apply lxor_u32|].
  by rewrite crc_bits_lxor, E, Z.lxor_nilpotent.
Qed.

Lemma lxor_cancel_r a b c : Z.lxor a c = Z.lxor b c -> a = b.
Proof.
  intros E. rewrite <- (Z.lxor_0_r a), <- (Z.lxor_nilpotent c), <- Z.lxor_assoc, E, Z.lxor_assoc,
    Z.lxor_nilpotent. apply Z.lxor_0_r.
Qed.

Lemma lxor_cancel_l a b c : Z.lxor c a = Z.lxor c b -> a = b.
Proof. rewrite !(Z.lxor_comm c). apply lxor_cancel_r. Qed.

(** Appending the same data keeps different states apart. *)
Lemma crc_spec_inj_state c c' data : 0 <= c < 2^32 -> 0 <= c' < 2^32 -> bytes data ->
  crc_spec c data = crc_spec c' data -> c = c'.
Proof.
  intros Hc Hc' Hd. revert c c' Hc Hc'. induction Hd as [|b l Hb Hl IH]; intros c c' Hc Hc' E; [done|].
  change (crc_spec (crc_bits 8 (Z.lxor c b)) l = crc_spec (crc_bits 8 (Z.lxor c' b)) l) in E.
  assert (Hb' : 0 <= b < 2^32) by lia.
  apply IH in E; [|apply crc_bits_u32; by apply lxor_u32..].
  apply crc_bits_inj in E; [|by apply lxor_u32..]. by eapply lxor_cancel_r.
Qed.

Lemma le_inj l l' : bytes l -> bytes l' -> length l = length l' -> le l = le l' -> l = l'.
Proof.
  intros Hl. revert l'. induction Hl as [|b l Hb Hl IH]; intros [|b' l'] Hl' Hlen E; try done.
  apply Forall_cons in Hl' as [Hb' Hl']. cbn in Hb', Hlen.
  change (b + 256 * le l = b' + 256 * le l') in E.
  assert (b = b') as -> by lia. f_equal. apply IH; [done|lia|lia].
Qed.

Lemma crc_spec_inj_word c w w' : 0 <= c < 2^32 -> bytes w -> bytes w' ->
  length w = length w' -> (length w <= 4)%nat -> crc_spec c w = crc_spec c w' -> w = w'.
Proof.
  intros Hc Hw Hw' Hl Hlen E. rewrite !crc_spec_word, <- Hl in E by (done || lia).
  pose proof (le_range w Hw) as Hr. pose proof (le_range w' Hw') as Hr'. rewrite <- Hl in Hr'.
  assert (2^(8 * Z.of_nat (length w)) <= 2^32) by (apply Z.pow_le_mono_r; lia).
  apply crc_bits_inj in E; [|apply lxor_u32; lia..]. apply le_inj; [done..|]. by eapply lxor_cancel_l.
Qed.

(** ** crc.c *)

(** A routine that computes CRC-32C: what the library's function pointer
    [crc32c] promises to its users. *)
Class Crc32c (crc32c : Z -> Z -> list Z -> Z) : Prop :=
  crc32c_ok : forall crc addr data, 0 <= crc < 2^32 -> bytes data ->
    crc32c crc addr data = crc_spec crc data.

#[global] Instance crc32cSarwate_ok : Crc32c crc32cSarwate.
Proof. intros crc addr data _ Hd. by apply sarwate_fold. Qed.
#[global] Instance crc32cSlicingBy4_ok : Crc32c crc32cSlicingBy4.
Proof. intros crc addr data. apply crc32cSlicingBy4_spec. Qed.
#[global] Instance crc32cSlicingBy8_ok : Crc32c crc32cSlicingBy8.
Proof. intros crc addr data. apply crc32cSlicingBy8_spec. Qed.
#[global] Instance crc32cHardware32_ok `{Crc32InsnSpec} : Crc32c crc32cHardware32.
Proof. intros crc addr data. apply crc32cHardware32_spec. Qed.
#[global] Instance crc32cHardware64_ok `{Crc32InsnSpec} : Crc32c crc32cHardware64.
Proof. intros crc addr data. apply crc32cHardware64_spec. Qed.
#[global] Instance crc32c_impl_ok `{Crc32InsnSpec} ecx : Crc32c (crc32c_impl ecx).
Proof. unfold crc32c_impl. destruct (negb _); apply _. Qed.

(** The instruction, computed bit by bit. *)
Definition insn_bits : Crc32Insn := {|
  ia32_crc32qi c v := crc_bits 8 (Z.lxor c v);
  ia32_crc32hi c v := crc_bits 16 (Z.lxor c v);
  ia32_crc32si c v := crc_bits 32 (Z.lxor c v);
  ia32_crc32di c v := crc_bits 64 (Z.lxor c v);
|}.

Lemma insn_bits_spec : @Crc32InsnSpec insn_bits.
Proof. by split. Qed.

Lemma crc_compute_spec crc32c `{!Crc32c crc32c} addr data : bytes data ->
  crc_compute crc32c addr data = Z.lxor (crc_spec crc_init data) 0xFFFFFFFF.
Proof.
  intros Hd. unfold crc_compute, crc_close, crc_append_len, crc_append.
  by rewrite crc32c_ok by (done || (unfold crc_init; lia)).
Qed.

(** Two messages of the same length that differ only inside a window of four
    bytes have different checksums. *)
Lemma crc_compute_burst crc32c `{!Crc32c crc32c} addr addr' pre w w' post :
  bytes pre -> bytes w -> bytes w' -> bytes post ->
  length w = length w' -> (length w <= 4)%nat -> w <> w' ->
  crc_compute crc32c addr (pre ++ w ++ post) <> crc_compute crc32c addr' (pre ++ w' ++ post).
Proof.
  intros Hp Hw Hw' Hq Hl Hlen Hne E.
  rewrite !crc_compute_spec in E by (by repeat apply Forall_app_2). apply lxor_cancel_r in E.
  rewrite !crc_spec_app in E.
  assert (Hi : 0 <= crc_init < 2^32) by (unfold crc_init; lia).
  assert (Hs : 0 <= crc_spec crc_init pre < 2^32) by (by apply crc_spec_u32).
  apply crc_spec_inj_state in E; [|by apply crc_spec_u32..|done].
  apply Hne. by apply crc_spec_inj_word in E.
Qed.

(** The redundant computation answers exactly when all runs agreed. *)
Lemma crc_compute_redundant_spec compute n r :
  crc_compute_redundant compute n = Some r <->
  (2 <= n <= 10)%nat /\ forall i, (i < n)%nat -> compute i = r.
Proof.
  unfold crc_compute_redundant. destruct ((n <? 2)%nat || (10 <? n)%nat) eqn:E.
  { split; [done|]. apply orb_true_iff in E as [E%Nat.ltb_lt|E%Nat.ltb_lt]; lia. }
  apply orb_false_iff in E as [E1%Nat.ltb_ge E2%Nat.ltb_ge].
  assert (Hnth : forall i, (i < n)%nat -> nth i (compute <$> seq 0 n) 0 = compute i).
  { intros i Hi. by rewrite nth_lookup, list_lookup_fmap, lookup_seq_lt. }
  destruct (all_range _ _ _) eqn:Ea.
  - assert (Hall : forall i, (i < n)%nat -> compute i = compute 0%nat).
    { apply range_0_1; [done|]. intros i Hi. rewrite all_range_true in Ea.
      specialize (Ea i Hi). rewrite !Hnth in Ea by lia. by apply Z.eqb_eq. }
    rewrite Hnth by lia. split.
    + intros [= <-]. split; [lia|done].
    + intros [_ Hr]. f_equal. apply Hr. lia.
  - split; [done|]. intros [_ Hr]. exfalso. enough (false = true) by done. rewrite <- Ea.
    apply all_range_true. intros i Hi. rewrite !Hnth by lia. rewrite !Hr by lia. apply Z.eqb_refl.
Qed.

(** ** Properties *)

(** The three software routines compute the same function, the bitwise
    CRC-32C, for every buffer, every length and every alignment. *)
Theorem crc32c_software_routines crc addr data : 0 <= crc < 2^32 -> bytes data ->
  crc32cSarwate crc addr data = crc_spec crc data /\
  crc32cSlicingBy4 crc addr data = crc_spec crc data /\
  crc32cSlicingBy8 crc addr data = crc_spec crc data.
Proof.
  intros Hc Hd. split_and!; [by apply crc32cSarwate_ok|by apply crc32cSlicingBy4_spec|by apply crc32cSlicingBy8_spec].
Qed.

Lemma crc32c_software_routines_witness :
  crc32cSarwate 0xFFFFFFFF 1 [0x31; 0x32; 0xB3] = crc_spec 0xFFFFFFFF [0x31; 0x32; 0xB3] /\
  crc32cSlicingBy4 0xFFFFFFFF 1 [0x31; 0x32; 0xB3] = crc_spec 0xFFFFFFFF [0x31; 0x32; 0xB3] /\
  crc32cSlicingBy8 0xFFFFFFFF 1 [0x31; 0x32; 0xB3] = crc_spec 0xFFFFFFFF [0x31; 0x32; 0xB3].
Proof. apply crc32c_software_routines; [lia|]. repeat constructor; lia. Defined.

(** C20.  The routine selected at start-up, with the CRC32 instruction or without
    it, is CRC-32C: both builds of the same message get the same checksum. *)
Theorem crc32c_impl_correct `{Crc32InsnSpec} ecx crc addr data : 0 <= crc < 2^32 -> bytes data ->
  crc32c_impl ecx crc addr data = crc_spec crc data /\
  crc32cHardware32 crc addr data = crc_spec crc data /\
  crc32cHardware64 crc addr data = crc_spec crc data.
Proof.
  intros Hc Hd. split_and!; [by apply crc32c_impl_ok|by apply crc32cHardware32_spec|by apply crc32cHardware64_spec].
Qed.

Lemma crc32c_impl_correct_witness :
  @crc32c_impl insn_bits 0x100000 0xFFFFFFFF 3 [0x68; 0xFF; 1] = crc_spec 0xFFFFFFFF [0x68; 0xFF; 1].
Proof.
  destruct (@crc32c_impl_correct insn_bits insn_bits_spec 0x100000 0xFFFFFFFF 3 [0x68; 0xFF; 1])
    as [E _]; [lia|repeat constructor; lia|exact E].
Defined.

(** C21.  Error detection: two messages of the same length that differ only inside
    a window of four bytes have different checksums. *)
Theorem crc_burst_detected `{Crc32InsnSpec} ecx addr addr' pre w w' post :
  bytes pre -> bytes w -> bytes w' -> bytes post ->
  length w = length w' -> (length w <= 4)%nat -> w <> w' ->
  crc_compute (crc32c_impl ecx) addr (pre ++ w ++ post) <>
  crc_compute (crc32c_impl ecx) addr' (pre ++ w' ++ post).
Proof. apply crc_compute_burst; apply _. Qed.

Lemma crc_burst_detected_witness :
  crc_compute (@crc32c_impl insn_bits 0) 0 ([1] ++ [2; 3] ++ [4]) <>
  crc_compute (@crc32c_impl insn_bits 0) 0 ([1] ++ [2; 7] ++ [4]).
Proof.
  apply (@crc_burst_detected insn_bits insn_bits_spec);
    [repeat constructor; lia..|reflexivity|cbn; lia|discriminate].
Defined.
