(* ===== verification/Obuf.v ===== *)
(** * The output buffer (src/obuf.c)

    The messages a handler sends are not kept: per phase, a ring buffer holds
    the size and the CRC of every message, built chunk by chunk.  The CRC the
    application attaches to a message is released ([obuf_pop]) after all phases
    are checked to have produced the same one. *)

From S2P Require Export Crc.

Record obuf_entry := mk_oentry { o_size : Z; o_crc : Z; o_done : bool }.

Record obuf_queue := mk_oqueue {
  q_entries : list obuf_entry;
  q_head : Z;
  q_tail : Z;
}.

Record obuf := mk_obuf {
  ob_queue : list obuf_queue;
  ob_p : nat;
  ob_redundancy_level : nat;
}.

#[global] Instance obuf_entry_eq_dec : EqDecision obuf_entry.
Proof. solve_decision. Defined.

Definition MAX_MSGS : nat := 100.

Definition empty_entry : obuf_entry := mk_oentry 0 crc_init false.
Definition empty_queue : obuf_queue := mk_oqueue (replicate MAX_MSGS empty_entry) 0 0.

Section Obuf.
Context `{Build} (crc32c : Z -> Z -> list Z -> Z).

(** The argument [max_msgs] is not used by the code. *)
Definition obuf_init (max_msgs : Z) : obuf :=
  mk_obuf (replicate SEI_DMR_REDUNDANCY empty_queue) 0 SEI_DMR_REDUNDANCY.

Definition obuf_close (o : obuf) : obuf :=
  mk_obuf (ob_queue o) ((ob_p o + 1) mod ob_redundancy_level o)%nat (ob_redundancy_level o).

(** Index of an entry: [i % MAX_MSGS] of a C [int]. *)
Definition slot (i : Z) : Z := Z.rem i (Z.of_nat MAX_MSGS).

Definition set_queue (o : obuf) (p : nat) (q : obuf_queue) : outcome obuf :=
  qs ← arr_set (ob_queue o) p q;
  Ret (mk_obuf qs (ob_p o) (ob_redundancy_level o)).

(** [obuf_push(obuf, ptr, size)]; [data] are the [size] bytes at [addr]. *)
Definition obuf_push (o : obuf) (addr : Z) (data : list Z) : outcome obuf :=
  queue ← arr_get (ob_queue o) (ob_p o);
  e ← arr_getZ (q_entries queue) (slot (q_tail queue));
  c_assert (negb (o_done e));;
  let e' := mk_oentry ((o_size e + Z.of_nat (length data)) mod 2^64)
                      (crc_append crc32c (o_crc e) addr data) (o_done e) in
  es ← arr_setZ (q_entries queue) (slot (q_tail queue)) e';
  set_queue o (ob_p o) (mk_oqueue es (q_head queue) (q_tail queue)).

Definition obuf_done (o : obuf) : outcome obuf :=
  queue ← arr_get (ob_queue o) (ob_p o);
  e ← arr_getZ (q_entries queue) (slot (q_tail queue));
  c_assert (negb (o_done e));;
  c_assert (0 <? o_size e);;
  let e' := mk_oentry (o_size e) (crc_close (crc_append_len (o_crc e) (o_size e))) true in
  es ← arr_setZ (q_entries queue) (slot (q_tail queue)) e';
  tail ← int_inc (q_tail queue);
  c_assert (tail - q_head queue <=? Z.of_nat MAX_MSGS);;
  set_queue o (ob_p o) (mk_oqueue es (q_head queue) tail).

Definition obuf_pop (o : obuf) : outcome (Z * obuf) :=
  let level := ob_redundancy_level o in
  for_range level 0 (fun p _ =>
    q ← arr_get (ob_queue o) p; c_assert (q_head q <? q_tail q)) tt;;
  (* entries[p] = &q->entries[q->head++ % MAX_MSGS]; a pointer is its slot *)
  '(qs, slots) ← for_range level 0 (fun p st =>
    let '(qs, slots) := st in
    q ← arr_get qs p;
    head ← int_inc (q_head q);
    qs' ← arr_set qs p (mk_oqueue (q_entries q) head (q_tail q));
    Ret (qs', slots ++ [slot (q_head q)])) (ob_queue o, []);
  let entry p := q ← arr_get qs p; i ← arr_get slots p; arr_getZ (q_entries q) i in
  for_range (level - 1) 1 (fun p _ =>
    e0 ← entry 0%nat; ep ← entry p;
    c_assert (o_size e0 =? o_size ep);;
    c_assert (bool_decide (o_done e0 = o_done ep));;
    c_assert (o_crc e0 =? o_crc ep)) tt;;
  e0 ← entry 0%nat;
  qs' ← for_range level 0 (fun p qs =>
    q ← arr_get qs p; i ← arr_get slots p;
    es ← arr_setZ (q_entries q) i empty_entry;
    arr_set qs p (mk_oqueue es (q_head q) (q_tail q))) qs;
  Ret (o_crc e0, mk_obuf qs' (ob_p o) level).

Definition obuf_size (o : obuf) : outcome Z :=
  let level := ob_redundancy_level o in
  for_range (level - 1) 1 (fun p _ =>
    q0 ← arr_get (ob_queue o) 0; q ← arr_get (ob_queue o) p;
    c_assert (q_head q0 =? q_head q);;
    c_assert (q_tail q0 =? q_tail q)) tt;;
  q0 ← arr_get (ob_queue o) 0;
  Ret (q_tail q0 - q_head q0).

(** Reset every queue up to the redundancy level (rollback). *)
Definition obuf_reset (o : obuf) : outcome obuf :=
  let level := ob_redundancy_level o in
  qs ← for_range level 0 (fun p qs =>
    q ← arr_get qs p;
    es ← for_range MAX_MSGS 0 (fun i es => arr_set es i empty_entry) (q_entries q);
    arr_set qs p (mk_oqueue es 0 0)) (ob_queue o);
  Ret (mk_obuf qs 0 level).

(** ** Abstract view

    A queue is the list of its completed messages (size and CRC) and the message
    being built.  [h] is the head counter; the ring entry at distance [i] from
    the head is [ring msgs cur i]. *)

Definition ring (msgs : list (Z * Z)) (cur : Z * Z) (i : nat) : obuf_entry :=
  match msgs !! i with
  | Some m => mk_oentry m.1 m.2 true
  | None => if (i =? length msgs)%nat then mk_oentry cur.1 cur.2 false else empty_entry
  end.

Definition no_msg : Z * Z := (0, crc_init).

Record queue_rel (q : obuf_queue) (h : Z) (msgs : list (Z * Z)) (cur : Z * Z) : Prop := {
  qr_head : q_head q = h;
  qr_tail : q_tail q = h + Z.of_nat (length msgs);
  qr_pos : 0 <= h;
  qr_len : (length msgs <= MAX_MSGS)%nat;
  qr_full : length msgs = MAX_MSGS -> cur = no_msg;
  qr_entries : length (q_entries q) = MAX_MSGS;
  qr_ring : forall i, (i < MAX_MSGS)%nat ->
    q_entries q !! Z.to_nat (slot (h + Z.of_nat i)) = Some (ring msgs cur i);
}.

Lemma slot_range i : 0 <= i -> 0 <= slot i < Z.of_nat MAX_MSGS.
Proof. intros Hi. unfold slot, MAX_MSGS. apply Z.rem_bound_pos; lia. Qed.

Lemma slot_inj h i j : 0 <= h -> (i < MAX_MSGS)%nat -> (j < MAX_MSGS)%nat ->
  slot (h + Z.of_nat i) = slot (h + Z.of_nat j) -> i = j.
Proof.
  intros Hh Hi Hj. unfold slot, MAX_MSGS in *. rewrite !Z.rem_mod_nonneg by lia. intros E.
  pose proof (Z.div_mod (h + Z.of_nat i) (Z.of_nat 100) ltac:(lia)).
  pose proof (Z.div_mod (h + Z.of_nat j) (Z.of_nat 100) ltac:(lia)). nia.
Qed.

Lemma slot_wrap h : 0 <= h -> slot (h + Z.of_nat MAX_MSGS) = slot h.
Proof.
  intros Hh. unfold slot, MAX_MSGS. rewrite !Z.rem_mod_nonneg by lia.
  rewrite <- (Z.mul_1_l (Z.of_nat 100)) at 1. apply Z.mod_add. lia.
Qed.

Lemma arr_getZ_slot q h msgs cur i : queue_rel q h msgs cur -> (i < MAX_MSGS)%nat ->
  arr_getZ (q_entries q) (slot (h + Z.of_nat i)) = Ret (ring msgs cur i).
Proof.
  intros Hq Hi. pose proof (qr_pos _ _ _ _ Hq). destruct (slot_range (h + Z.of_nat i)) as [Hs _]; [lia|].
  unfold arr_getZ. rewrite (proj2 (Z.ltb_ge _ _)) by lia.
  by apply arr_get_Ret, (qr_ring _ _ _ _ Hq).
Qed.

Lemma arr_setZ_slot q h msgs cur i e : queue_rel q h msgs cur -> (i < MAX_MSGS)%nat ->
  exists es, arr_setZ (q_entries q) (slot (h + Z.of_nat i)) e = Ret es /\
    length es = MAX_MSGS /\
    (forall j, (j < MAX_MSGS)%nat -> es !! Z.to_nat (slot (h + Z.of_nat j)) =
       Some (if decide (j = i) then e else ring msgs cur j)).
Proof.
  intros Hq Hi. pose proof (qr_pos _ _ _ _ Hq) as Hh.
  destruct (slot_range (h + Z.of_nat i)) as [Hs Hs']; [lia|].
  unfold arr_setZ. rewrite (proj2 (Z.ltb_ge _ _)) by lia.
  rewrite arr_set_lt by (rewrite (qr_entries _ _ _ _ Hq); lia).
  eexists. split; [done|]. split; [by rewrite length_insert, (qr_entries _ _ _ _ Hq)|].
  intros j Hj. case_decide as Hij.
  - subst j. apply list_lookup_insert_eq. rewrite (qr_entries _ _ _ _ Hq). lia.
  - rewrite list_lookup_insert_ne; [by apply (qr_ring _ _ _ _ Hq)|]. intros E.
    destruct (slot_range (h + Z.of_nat j)) as [Ht _]; [lia|].
    apply Hij. symmetry. apply (slot_inj h); [done|done|done|lia].
Qed.

Lemma ring_cur msgs cur : ring msgs cur (length msgs) = mk_oentry cur.1 cur.2 false.
Proof. unfold ring. by rewrite lookup_ge_None_2, Nat.eqb_refl by lia. Qed.

(** The handler's view: the queue of the current phase. *)
Definition cur_rel (o : obuf) (h : Z) (msgs : list (Z * Z)) (cur : Z * Z) : Prop :=
  exists q, ob_queue o !! ob_p o = Some q /\ queue_rel q h msgs cur.

(** The other phases' queues are left alone. *)
Definition same_others (o o' : obuf) : Prop :=
  ob_p o' = ob_p o /\ ob_redundancy_level o' = ob_redundancy_level o /\
  length (ob_queue o') = length (ob_queue o) /\
  forall p, p <> ob_p o -> ob_queue o' !! p = ob_queue o !! p.

Lemma set_queue_rel o q q' h msgs cur :
  ob_queue o !! ob_p o = Some q -> queue_rel q' h msgs cur ->
  exists o', set_queue o (ob_p o) q' = Ret o' /\ cur_rel o' h msgs cur /\ same_others o o'.
Proof.
  intros Hq Hq'. assert (Hlt : (ob_p o < length (ob_queue o))%nat) by (by eapply lookup_lt_Some).
  unfold set_queue. rewrite arr_set_lt by done. cbn [mbind outcome_bind].
  eexists. split; [done|]. split.
  - exists q'. split; [by apply list_lookup_insert_eq|done].
  - split_and!; [done|done|apply length_insert|]. intros p Hp. cbn. by apply list_lookup_insert_ne.
Qed.

(** Appending a chunk extends the current message. *)
Lemma obuf_push_rel o h msgs cur addr data :
  cur_rel o h msgs cur -> (length msgs < MAX_MSGS)%nat ->
  exists o', obuf_push o addr data = Ret o' /\
    cur_rel o' h msgs ((cur.1 + Z.of_nat (length data)) mod 2^64, crc32c cur.2 addr data) /\
    same_others o o'.
Proof.
  intros (q & Hq & Hr) Hlen. unfold obuf_push. rewrite (proj2 (arr_get_Ret _ _ _) Hq).
  cbn [mbind outcome_bind]. rewrite (qr_tail _ _ _ _ Hr), (arr_getZ_slot _ _ _ _ _ Hr Hlen), ring_cur.
  cbn [mbind outcome_bind o_done negb]. rewrite c_assert_true. cbn [mbind outcome_bind o_size o_crc].
  edestruct (arr_setZ_slot q h msgs cur (length msgs)) as (es & -> & Hel & Hes); [done|done|].
  cbn [mbind outcome_bind]. eapply set_queue_rel; [done|].
  destruct Hr as [H1 H2 H3 H4 H5 H6 H7]. split; cbn; try done; try lia.
  intros i Hi. rewrite Hes by done. f_equal. unfold ring. case_decide as Hd.
  - subst i. by rewrite lookup_ge_None_2, Nat.eqb_refl by lia.
  - destruct (msgs !! i); [done|]. by rewrite (proj2 (Nat.eqb_neq _ _) Hd).
Qed.

(** Closing a non-empty message appends it to the completed ones. *)
Lemma obuf_done_rel o h msgs cur :
  cur_rel o h msgs cur -> (length msgs < MAX_MSGS)%nat -> 0 < cur.1 ->
  h + Z.of_nat (length msgs) < INT_MAX ->
  exists o', obuf_done o = Ret o' /\
    cur_rel o' h (msgs ++ [(cur.1, crc_close cur.2)]) no_msg /\ same_others o o'.
Proof.
  intros (q & Hq & Hr) Hlen Hsz Hmax. unfold obuf_done. rewrite (proj2 (arr_get_Ret _ _ _) Hq).
  cbn [mbind outcome_bind]. rewrite (qr_tail _ _ _ _ Hr), (arr_getZ_slot _ _ _ _ _ Hr Hlen), ring_cur.
  cbn [mbind outcome_bind o_done o_size o_crc negb].
  rewrite (proj2 (Z.ltb_lt _ _) Hsz), !c_assert_true. cbn [mbind outcome_bind].
  edestruct (arr_setZ_slot q h msgs cur (length msgs)) as (es & -> & Hel & Hes); [done|done|].
  cbn [mbind outcome_bind]. rewrite int_inc_lt by done. cbn [mbind outcome_bind].
  rewrite (proj2 (Z.leb_le _ _)), c_assert_true by (rewrite (qr_head _ _ _ _ Hr); lia).
  cbn [mbind outcome_bind]. eapply set_queue_rel; [done|].
  destruct Hr as [H1 H2 H3 H4 H5 H6 H7]. split; cbn; rewrite ?length_app; cbn; try done; try lia.
  intros i Hi. rewrite Hes by done. f_equal. unfold ring. case_decide as Hd.
  - subst i. by rewrite lookup_app_r, Nat.sub_diag by lia.
  - rewrite length_app. cbn [length]. destruct (decide (i < length msgs)%nat).
    + rewrite lookup_app_l by lia.
      by destruct (lookup_lt_is_Some_2 msgs i) as [m ->].
    + rewrite !lookup_ge_None_2 by (rewrite ?length_app; cbn; lia).
      rewrite (proj2 (Nat.eqb_neq _ _) Hd). by destruct (i =? _)%nat.
Qed.

(** ** Releasing a message *)

(** Advance the head of every queue and remember the slots it had. *)
Lemma pop_heads_ok qs level :
  (level <= length qs)%nat ->
  (forall p q, (p < level)%nat -> qs !! p = Some q -> q_head q < INT_MAX) ->
  exists qs', for_range level 0 (fun p (st : list obuf_queue * list Z) =>
    let '(qs, slots) := st in
    q ← arr_get qs p;
    head ← int_inc (q_head q);
    qs' ← arr_set qs p (mk_oqueue (q_entries q) head (q_tail q));
    Ret (qs', slots ++ [slot (q_head q)])) (qs, [])
    = Ret (qs', (fun q => slot (q_head q)) <$> take level qs) /\ length qs' = length qs /\
    forall p, qs' !! p = (fun q => if decide (p < level)%nat
      then mk_oqueue (q_entries q) (q_head q + 1) (q_tail q) else q) <$> qs !! p.
Proof.
  intros Hlen Hmax.
  match goal with |- exists _, for_range ?n ?lo ?b ?x0 = _ /\ _ =>
    destruct (for_range_total (fun i st => length st.1 = length qs /\
      st.2 = (fun q => slot (q_head q)) <$> take i qs /\
      forall p, st.1 !! p = (fun q => if decide (p < i)%nat
        then mk_oqueue (q_entries q) (q_head q + 1) (q_tail q) else q) <$> qs !! p) n lo b x0)
      as ([qs' sl] & E & Hl & Hs & Hq) end.
  - cbn. split_and!; [done|done|]. intros p. destruct (qs !! p) eqn:E; [|done]. cbn.
    by rewrite decide_False by lia.
  - intros i [qs1 sl] Hi (Hl & Hs & Hq). cbn [fst snd] in *.
    destruct (lookup_lt_is_Some_2 qs i) as [q Hqi]; [lia|].
    assert (Hqi1 : qs1 !! i = Some q) by (rewrite Hq, Hqi; cbn; by rewrite decide_False by lia).
    rewrite (proj2 (arr_get_Ret _ _ _) Hqi1). cbn [mbind outcome_bind].
    rewrite int_inc_lt by (apply (Hmax i); [lia|done]). cbn [mbind outcome_bind].
    rewrite arr_set_lt by lia. cbn [mbind outcome_bind]. eexists. split; [done|]. cbn [fst snd].
    split_and!; [by rewrite length_insert| |].
    + rewrite Hs, Nat.add_1_r, (take_S_r _ _ _ Hqi), fmap_app. done.
    + intros p. destruct (decide (p = i)) as [->|].
      * rewrite list_lookup_insert_eq, Hqi by lia. cbn. by rewrite decide_True by lia.
      * rewrite list_lookup_insert_ne, Hq by done. destruct (qs !! p); [|done]. cbn.
        f_equal. repeat case_decide; done || lia.
  - exists qs'. cbn [fst snd Nat.add] in *. subst sl. split_and!; done.
Qed.

(** Clear the popped entry of every queue. *)
Lemma pop_clear_ok qs slots level :
  (level <= length qs)%nat -> (level <= length slots)%nat ->
  (forall p q i, (p < level)%nat -> qs !! p = Some q -> slots !! p = Some i ->
     0 <= i < Z.of_nat (length (q_entries q))) ->
  exists qs', for_range level 0 (fun p qs =>
    q ← arr_get qs p; i ← arr_get slots p;
    es ← arr_setZ (q_entries q) i empty_entry;
    arr_set qs p (mk_oqueue es (q_head q) (q_tail q))) qs = Ret qs' /\ length qs' = length qs /\
    forall p, qs' !! p = (fun q => if decide (p < level)%nat
      then mk_oqueue (<[Z.to_nat (nth p slots 0) := empty_entry]> (q_entries q)) (q_head q) (q_tail q)
      else q) <$> qs !! p.
Proof.
  intros Hlen Hsl Hr.
  match goal with |- exists _, for_range ?n ?lo ?b ?x0 = _ /\ _ =>
    destruct (for_range_total (fun i qs1 => length qs1 = length qs /\
      forall p, qs1 !! p = (fun q => if decide (p < i)%nat
        then mk_oqueue (<[Z.to_nat (nth p slots 0) := empty_entry]> (q_entries q)) (q_head q) (q_tail q)
        else q) <$> qs !! p) n lo b x0) as (qs' & E & Hl & Hq) end.
  - split; [done|]. intros p. destruct (qs !! p) eqn:E; [|done]. cbn. by rewrite decide_False by lia.
  - intros i qs1 Hi (Hl & Hq).
    destruct (lookup_lt_is_Some_2 qs i) as [q Hqi]; [lia|].
    destruct (lookup_lt_is_Some_2 slots i) as [k Hk]; [lia|].
    assert (Hqi1 : qs1 !! i = Some q) by (rewrite Hq, Hqi; cbn; by rewrite decide_False by lia).
    rewrite (proj2 (arr_get_Ret _ _ _) Hqi1), (proj2 (arr_get_Ret _ _ _) Hk). cbn [mbind outcome_bind].
    specialize (Hr i q k ltac:(lia) Hqi Hk). unfold arr_setZ. rewrite (proj2 (Z.ltb_ge _ _)) by lia.
    rewrite arr_set_lt by lia. cbn [mbind outcome_bind]. rewrite arr_set_lt by lia.
    eexists. split; [done|]. split; [by rewrite length_insert|].
    intros p. destruct (decide (p = i)) as [->|].
    + rewrite list_lookup_insert_eq, Hqi by lia. cbn. rewrite decide_True by lia.
      by rewrite nth_lookup, Hk.
    + rewrite list_lookup_insert_ne, Hq by done. destruct (qs !! p); [|done]. cbn.
      f_equal. repeat case_decide; done || lia.
  - exists qs'. cbn [Nat.add] in *. done.
Qed.

(** A queue whose head entry was cleared and whose head moved on. *)
Lemma queue_rel_pop q h m msgs cur : queue_rel q h (m :: msgs) cur ->
  queue_rel (mk_oqueue (<[Z.to_nat (slot h) := empty_entry]> (q_entries q)) (h + 1) (q_tail q))
    (h + 1) msgs cur.
Proof.
  intros [H1 H2 H3 H4 H5 H6 H7]. cbn [length] in *. split; cbn; try done; try lia.
  - by rewrite length_insert.
  - intros i Hi. replace (h + 1 + Z.of_nat i) with (h + Z.of_nat (Datatypes.S i)) by lia.
    destruct (decide (i = MAX_MSGS - 1)%nat) as [->|].
    + replace (Datatypes.S (MAX_MSGS - 1)) with MAX_MSGS by (unfold MAX_MSGS; lia).
      rewrite slot_wrap, list_lookup_insert_eq by (done || (destruct (slot_range h H3); lia)).
      f_equal. unfold ring. rewrite lookup_ge_None_2 by (unfold MAX_MSGS in *; lia).
      destruct (Nat.eqb_spec (MAX_MSGS - 1) (length msgs)) as [E|]; [|done].
      rewrite H5 by (unfold MAX_MSGS in *; lia). done.
    + rewrite list_lookup_insert_ne, H7 by (unfold MAX_MSGS in *; lia || (intros E;
        assert (Datatypes.S i = 0%nat); [|lia]; apply (slot_inj h); unfold MAX_MSGS in *; try lia;
        destruct (slot_range h H3), (slot_range (h + Z.of_nat (Datatypes.S i)));
        rewrite ?Z.add_0_r in *; lia)).
      done.
Qed.

(** All queues up to the redundancy level. *)
Record obuf_rel (o : obuf) (hs : nat -> Z) (mss : nat -> list (Z * Z)) (curs : nat -> Z * Z) : Prop := {
  or_level : (1 <= ob_redundancy_level o <= length (ob_queue o))%nat;
  or_queue : forall p, (p < ob_redundancy_level o)%nat ->
    exists q, ob_queue o !! p = Some q /\ queue_rel q (hs p) (mss p) (curs p);
}.

(** What [obuf_pop] reads through [entries[p]] after the heads moved. *)
Lemma pop_entry_ok o hs mss curs qs p m ms :
  obuf_rel o hs mss curs -> (p < ob_redundancy_level o)%nat -> mss p = m :: ms ->
  (forall p, qs !! p = (fun q => if decide (p < ob_redundancy_level o)%nat
     then mk_oqueue (q_entries q) (q_head q + 1) (q_tail q) else q) <$> ob_queue o !! p) ->
  (q ← arr_get qs p; i ← arr_get ((fun q => slot (q_head q)) <$> take (ob_redundancy_level o) (ob_queue o)) p;
   arr_getZ (q_entries q) i) = Ret (mk_oentry m.1 m.2 true).
Proof.
  intros Hr Hp Hm Hqs. destruct (or_queue _ _ _ _ Hr p Hp) as (q & Hq & Hqr). rewrite Hm in Hqr.
  assert (E1 : arr_get qs p = Ret (mk_oqueue (q_entries q) (q_head q + 1) (q_tail q))).
  { apply arr_get_Ret. rewrite Hqs, Hq. cbn. by rewrite decide_True. }
  rewrite E1. cbn [mbind outcome_bind].
  assert (E2 : arr_get ((fun q => slot (q_head q)) <$> take (ob_redundancy_level o) (ob_queue o)) p
               = Ret (slot (hs p))).
  { apply arr_get_Ret. rewrite list_lookup_fmap, lookup_take_lt, Hq by done. cbn.
    by rewrite (qr_head _ _ _ _ Hqr). }
  rewrite E2. cbn [mbind outcome_bind q_entries].
  rewrite <- (Z.add_0_r (hs p)). change 0 with (Z.of_nat 0).
  by rewrite (arr_getZ_slot _ _ _ _ _ Hqr) by (unfold MAX_MSGS; lia).
Qed.

Lemma popped_rel o hs mss curs qs qs' ms :
  obuf_rel o hs mss curs ->
  (forall p, (p < ob_redundancy_level o)%nat -> exists m, mss p = m :: ms p) ->
  (forall p, qs !! p = (fun q => if decide (p < ob_redundancy_level o)%nat
     then mk_oqueue (q_entries q) (q_head q + 1) (q_tail q) else q) <$> ob_queue o !! p) ->
  length qs = length (ob_queue o) -> length qs' = length qs ->
  (forall p, qs' !! p = (fun q => if decide (p < ob_redundancy_level o)%nat
      then mk_oqueue (<[Z.to_nat (nth p ((fun q => slot (q_head q)) <$>
             take (ob_redundancy_level o) (ob_queue o)) 0) := empty_entry]> (q_entries q))
             (q_head q) (q_tail q)
      else q) <$> qs !! p) ->
  obuf_rel (mk_obuf qs' (ob_p o) (ob_redundancy_level o)) (fun p => hs p + 1) ms curs.
Proof.
  intros Hr Hms Hqs Hl Hl' Hqs'. pose proof (or_level _ _ _ _ Hr) as Hlv. split; cbn; [lia|].
  intros p Hp. destruct (or_queue _ _ _ _ Hr p Hp) as (q & Hq & Hqr). destruct (Hms p Hp) as [m Hm].
  rewrite Hm in Hqr. rewrite Hqs', Hqs, Hq. cbn. rewrite !decide_True by done. eexists. split; [done|].
  cbn. rewrite nth_lookup, list_lookup_fmap, lookup_take_lt, Hq by done. cbn.
  rewrite (qr_head _ _ _ _ Hqr). by eapply queue_rel_pop.
Qed.

(** Popping releases the CRC of the first message when all phases completed
    one; with assertions on, all of them must be equal. *)
Lemma obuf_pop_rel o hs mss curs m ms :
  obuf_rel o hs mss curs ->
  (forall p, (p < ob_redundancy_level o)%nat -> mss p = m p :: ms p /\ hs p < INT_MAX) ->
  (NDEBUG = false -> forall p, (p < ob_redundancy_level o)%nat -> m p = m 0%nat) ->
  exists o', obuf_pop o = Ret ((m 0%nat).2, o') /\
    obuf_rel o' (fun p => hs p + 1) ms curs /\ ob_p o' = ob_p o.
Proof.
  intros Hr Hms Hd. pose proof (or_level _ _ _ _ Hr) as Hlv. unfold obuf_pop.
  rewrite for_range_check_ok.
  2: { intros p Hp. destruct (or_queue _ _ _ _ Hr p) as (q & Hq & Hqr); [lia|].
       rewrite (proj2 (arr_get_Ret _ _ _) Hq). cbn [mbind outcome_bind].
       destruct (Hms p) as [Hm _]; [lia|]. rewrite (qr_head _ _ _ _ Hqr), (qr_tail _ _ _ _ Hqr), Hm.
       cbn [length]. rewrite (proj2 (Z.ltb_lt _ _)) by lia. apply c_assert_true. }
  cbn [mbind outcome_bind].
  destruct (pop_heads_ok (ob_queue o) (ob_redundancy_level o)) as (qs & -> & Hql & Hqs); [lia| |].
  { intros p q Hp Hq. destruct (or_queue _ _ _ _ Hr p Hp) as (q' & Hq' & Hqr). simplify_eq.
    rewrite (qr_head _ _ _ _ Hqr). by apply Hms. }
  cbn [mbind outcome_bind].
  assert (He : forall p, (p < ob_redundancy_level o)%nat -> (q ← arr_get qs p;
    i ← arr_get ((fun q => slot (q_head q)) <$> take (ob_redundancy_level o) (ob_queue o)) p;
    arr_getZ (q_entries q) i) = Ret (mk_oentry (m p).1 (m p).2 true)).
  { intros p Hp. destruct (Hms p Hp) as [Hm _]. by eapply pop_entry_ok. }
  rewrite for_range_check_ok.
  2: { intros p Hp. rewrite !He by lia. cbn [mbind outcome_bind o_size o_crc o_done].
       rewrite bool_decide_eq_true_2, c_assert_true by done. unfold c_assert.
       destruct NDEBUG eqn:En; [done|]. rewrite (Hd eq_refl p ltac:(lia)), !Z.eqb_refl. done. }
  cbn [mbind outcome_bind]. rewrite He by lia. cbn [mbind outcome_bind o_crc].
  destruct (pop_clear_ok qs ((fun q => slot (q_head q)) <$>
    take (ob_redundancy_level o) (ob_queue o)) (ob_redundancy_level o)) as (qs' & -> & Hql' & Hqs'); [..|cbn [mbind outcome_bind]].
  - lia.
  - rewrite length_fmap, length_take. lia.
  - intros p q i Hp Hq Hi. destruct (or_queue _ _ _ _ Hr p Hp) as (q' & Hq' & Hqr).
    rewrite Hqs, Hq' in Hq. cbn in Hq. rewrite decide_True in Hq by done. injection Hq as <-.
    rewrite list_lookup_fmap, lookup_take_lt, Hq' in Hi by done. injection Hi as <-.
    cbn. rewrite (qr_entries _ _ _ _ Hqr). apply slot_range. rewrite (qr_head _ _ _ _ Hqr).
    apply (qr_pos _ _ _ _ Hqr).
  - eexists. split; [done|]. split; [|done].
    eapply popped_rel; [done| |done|done|done|done]. intros p Hp. destruct (Hms p Hp). eauto.
Qed.

(** With assertions on, a released CRC was computed identically by all phases. *)
Lemma obuf_pop_agree o hs mss curs m ms crc o' :
  NDEBUG = false -> obuf_rel o hs mss curs ->
  (forall p, (p < ob_redundancy_level o)%nat -> mss p = m p :: ms p /\ hs p < INT_MAX) ->
  obuf_pop o = Ret (crc, o') ->
  crc = (m 0%nat).2 /\ forall p, (p < ob_redundancy_level o)%nat -> m p = m 0%nat.
Proof.
  intros Hn Hr Hms Hrun. pose proof (or_level _ _ _ _ Hr) as Hlv. unfold obuf_pop in Hrun.
  apply bind_Ret in Hrun as (u & _ & Hrun).
  destruct (pop_heads_ok (ob_queue o) (ob_redundancy_level o)) as (qs & E & Hql & Hqs); [lia| |].
  { intros p q Hp Hq. destruct (or_queue _ _ _ _ Hr p Hp) as (q' & Hq' & Hqr). simplify_eq.
    rewrite (qr_head _ _ _ _ Hqr). by apply Hms. }
  rewrite E in Hrun. cbn [mbind outcome_bind] in Hrun. clear E.
  assert (He : forall p, (p < ob_redundancy_level o)%nat -> (q ← arr_get qs p;
    i ← arr_get ((fun q => slot (q_head q)) <$> take (ob_redundancy_level o) (ob_queue o)) p;
    arr_getZ (q_entries q) i) = Ret (mk_oentry (m p).1 (m p).2 true)).
  { intros p Hp. destruct (Hms p Hp) as [Hm _]. by eapply pop_entry_ok. }
  apply bind_Ret in Hrun as (u' & Hc & Hrun). pose proof (for_range_check_Ret _ _ _ _ Hc) as Hck.
  cbn beta in Hck. rewrite He in Hrun by lia. cbn [mbind outcome_bind o_crc] in Hrun.
  apply bind_Ret in Hrun as (qs' & _ & Hrun). injection Hrun as <- _. split; [done|].
  apply (range_0_1 _ (fun p => m p = m 0%nat)); [done|]. intros p Hp. specialize (Hck p Hp).
  rewrite !He in Hck by lia. cbn [mbind outcome_bind o_size o_crc o_done] in Hck.
  inv_outcome. repeat match goal with X : NDEBUG = false -> _ |- _ => specialize (X Hn) end.
  destruct (m p), (m 0%nat). cbn in *. f_equal; lia.
Qed.

(** ** Sending a message

    A handler sends a message as a sequence of chunks followed by [obuf_done]
    (sei_output_append and sei_output_done). *)

Fixpoint obuf_push_all (o : obuf) (chunks : list (Z * list Z)) : outcome obuf :=
  match chunks with
  | [] => Ret o
  | (addr, data) :: cs => o' ← obuf_push o addr data; obuf_push_all o' cs
  end.

Definition obuf_send (o : obuf) (chunks : list (Z * list Z)) : outcome obuf :=
  o' ← obuf_push_all o chunks; obuf_done o'.

Definition payload (chunks : list (Z * list Z)) : list Z := concat (snd <$> chunks).

Lemma same_others_trans o1 o2 o3 : same_others o1 o2 -> same_others o2 o3 -> same_others o1 o3.
Proof.
  intros (E1 & E2 & E3 & E4) (F1 & F2 & F3 & F4). split_and!; [congruence..|].
  intros p Hp. rewrite F4, E4; [done|done|congruence].
Qed.

Context `{!Crc32c crc32c}.

Lemma obuf_push_all_rel chunks : forall o h msgs data,
  cur_rel o h msgs (Z.of_nat (length data), crc_spec crc_init data) -> (length msgs < MAX_MSGS)%nat ->
  bytes data -> bytes (payload chunks) -> Z.of_nat (length (data ++ payload chunks)) < 2^64 ->
  exists o', obuf_push_all o chunks = Ret o' /\
    cur_rel o' h msgs (Z.of_nat (length (data ++ payload chunks)), crc_spec crc_init (data ++ payload chunks)) /\
    same_others o o'.
Proof.
  induction chunks as [|[addr d] cs IH]; intros o h msgs data Hr Hm Hd Hb Hlen.
  { exists o. unfold payload. cbn. rewrite app_nil_r. split_and!; done. }
  change (payload ((addr, d) :: cs)) with (d ++ payload cs) in *.
  apply Forall_app in Hb as [Hb1 Hb2]. rewrite !length_app in Hlen.
  destruct (obuf_push_rel _ _ _ _ addr d Hr Hm) as (o1 & E & Hr1 & Hs1). cbn [obuf_push_all].
  rewrite E. cbn [mbind outcome_bind]. cbn [fst snd] in Hr1.
  rewrite crc32c_ok, <- crc_spec_app, Z.mod_small, <- Nat2Z.inj_add, <- length_app in Hr1.
  - destruct (IH _ _ _ _ Hr1 Hm) as (o' & E' & Hr' & Hs');
      [by apply Forall_app_2|done|rewrite !length_app; lia|].
    rewrite <- app_assoc in Hr'. exists o'. split_and!; [done|done|by eapply same_others_trans].
  - lia.
  - apply crc_spec_u32; [unfold crc_init; lia|done].
  - done.
Qed.

(** The entry recorded for a message is its length and the checksum
    [crc_compute] gives for its bytes, whatever the chunks and their addresses. *)
Lemma obuf_send_rel o h msgs chunks addr :
  cur_rel o h msgs no_msg -> (length msgs < MAX_MSGS)%nat -> h + Z.of_nat (length msgs) < INT_MAX ->
  bytes (payload chunks) -> payload chunks <> [] -> Z.of_nat (length (payload chunks)) < 2^64 ->
  exists o', obuf_send o chunks = Ret o' /\
    cur_rel o' h (msgs ++ [(Z.of_nat (length (payload chunks)), crc_compute crc32c addr (payload chunks))]) no_msg /\
    same_others o o'.
Proof.
  intros Hr Hm Hmax Hb Hne Hlen.
  destruct (obuf_push_all_rel chunks o h msgs []) as (o1 & E & Hr1 & Hs1); [done|done|by constructor|done|done|].
  cbn [app] in Hr1. unfold obuf_send. rewrite E. cbn [mbind outcome_bind].
  destruct (obuf_done_rel _ _ _ _ Hr1 Hm) as (o2 & E2 & Hr2 & Hs2); [|done|].
  { cbn. destruct (payload chunks); [done|]. cbn. lia. }
  exists o2. split_and!; [done| |by eapply same_others_trans].
  rewrite crc_compute_spec by done. done.
Qed.

(** Messages: whatever chunks a handler appends, from whatever addresses, the
    completed message is recorded with its total length and the checksum
    [crc_compute] gives for the concatenated bytes, behind the messages completed
    before; the other phases' queues are untouched. *)
Theorem obuf_send_records o h msgs chunks addr :
  cur_rel o h msgs no_msg -> (length msgs < MAX_MSGS)%nat -> h + Z.of_nat (length msgs) < INT_MAX ->
  bytes (payload chunks) -> payload chunks <> [] -> Z.of_nat (length (payload chunks)) < 2^64 ->
  exists o', obuf_send o chunks = Ret o' /\ same_others o o' /\
    cur_rel o' h (msgs ++ [(Z.of_nat (length (payload chunks)), crc_compute crc32c addr (payload chunks))]) no_msg.
Proof.
  intros Hr Hm Hmax Hb Hne Hlen.
  destruct (obuf_send_rel o h msgs chunks addr Hr Hm Hmax Hb Hne Hlen) as (o' & E & Hr' & Hs). eauto.
Qed.

(** Release of a checksum: when every phase has a completed message at the
    head of its queue, [obuf_pop] removes one message from every queue and
    returns the checksum of phase 0; in a debug build it returns exactly when all
    phases completed a message of the same size and checksum. *)
Theorem obuf_pop_releases o hs mss curs m ms :
  obuf_rel o hs mss curs ->
  (forall p, (p < ob_redundancy_level o)%nat -> mss p = m p :: ms p /\ hs p < INT_MAX) ->
  ((exists crc o', obuf_pop o = Ret (crc, o')) <->
   (NDEBUG = false -> forall p, (p < ob_redundancy_level o)%nat -> m p = m 0%nat)) /\
  (forall crc o', obuf_pop o = Ret (crc, o') ->
     crc = (m 0%nat).2 /\ obuf_rel o' (fun p => hs p + 1) ms curs).
Proof.
  intros Hr Hm.
  assert (Hagree : forall crc o', obuf_pop o = Ret (crc, o') ->
    NDEBUG = false -> forall p, (p < ob_redundancy_level o)%nat -> m p = m 0%nat).
  { intros crc o' E Hn. by destruct (obuf_pop_agree _ _ _ _ _ _ _ _ Hn Hr Hm E). }
  split; [split|].
  - intros (crc & o' & E). by eapply Hagree.
  - intros Hd. destruct (obuf_pop_rel _ _ _ _ _ _ Hr Hm Hd) as (o' & E & _). eauto.
  - intros crc o' E. destruct (obuf_pop_rel _ _ _ _ _ _ Hr Hm (Hagree _ _ E)) as (o1 & E1 & Hr1 & _).
    rewrite E in E1. by simplify_eq.
Qed.

Lemma empty_queue_rel : queue_rel empty_queue 0 [] no_msg.
Proof.
  split; try done; [cbn; unfold MAX_MSGS; lia|]. intros i Hi. cbn [q_entries empty_queue].
  rewrite lookup_replicate_2.
  - unfold ring. cbn. by destruct i.
  - destruct (slot_range (0 + Z.of_nat i)); [lia|]. unfold MAX_MSGS in *. lia.
Qed.

End Obuf.

(** ** Witnesses *)

Lemma obuf_send_records_witness :
  let _ := debug_build 2 in
  exists o', obuf_send crc32cSarwate (obuf_init 10) [(0, [1; 2]); (64, [255])] = Ret o' /\
    cur_rel o' 0 [(3, crc_compute crc32cSarwate 0 [1; 2; 255])] no_msg.
Proof.
  intros B. destruct (@obuf_send_records B crc32cSarwate _ (obuf_init 10) 0 [] [(0, [1; 2]); (64, [255])] 0)
    as (o' & E & _ & Hr).
  - exists empty_queue. split; [reflexivity|apply empty_queue_rel].
  - apply Nat.lt_0_succ.
  - reflexivity.
  - repeat constructor; lia.
  - discriminate.
  - reflexivity.
  - exists o'. split; [exact E|exact Hr].
Defined.

(** Both phases completed one message. *)
Definition demo_queue : obuf_queue :=
  mk_oqueue (mk_oentry 3 99 true :: replicate 99 empty_entry) 0 1.

Lemma demo_queue_rel : queue_rel demo_queue 0 [(3, 99)] no_msg.
Proof.
  split; try done; [cbn; unfold MAX_MSGS; lia|]. intros i Hi. cbn [demo_queue q_entries].
  assert (E : Z.to_nat (slot (0 + Z.of_nat i)) = i).
  { unfold slot, MAX_MSGS in *. rewrite Z.rem_small; lia. }
  rewrite E. unfold MAX_MSGS in Hi. destruct i as [|[|i]]; [done|done|].
  rewrite lookup_cons, lookup_replicate_2 by lia. done.
Qed.

Lemma obuf_pop_releases_witness :
  let _ := debug_build 2 in
  exists crc o', obuf_pop (mk_obuf [demo_queue; demo_queue] 0 2) = Ret (crc, o').
Proof.
  intros B. apply (@obuf_pop_releases B (mk_obuf [demo_queue; demo_queue] 0 2) (fun _ => 0) (fun _ => [(3, 99)])
    (fun _ => no_msg) (fun _ => (3, 99)) (fun _ => [])).
  - split; cbn; [lia|]. intros p Hp. exists demo_queue. split; [|apply demo_queue_rel].
    destruct p as [|[|p]]; [reflexivity|reflexivity|lia].
  - intros p _. split; reflexivity.
  - intros _ p _. reflexivity.
Defined.
