(* ===== verification/CpuIsolation.v ===== *)
(** * Core blacklisting and migration (src/cpu_isolation.c)

    A core on which a silent data corruption was detected is blacklisted and the
    thread is moved to another core.  The operating system is a parameter:
    [setaffinity cpu mask] is the return value of [pthread_setaffinity_np] and
    the core the thread runs on afterwards.  The mutex of the C code makes every
    operation atomic; each is one function on the state. *)

From S2P Require Export Prelude.

Record cpu_isolation := mk_iso {
  blacklist : Z;            (* 128-bit mask *)
  available_cores : Z;      (* 128-bit mask *)
  num_cores : Z;
  num_blacklisted : Z;
  rr_cursor : Z;
  migration_count : Z;
  blacklist_events : Z;
}.

(** The thread's machine: the isolation state and [sched_getcpu()]. *)
Record machine := mk_machine { iso : cpu_isolation; cpu : Z }.

Definition u128 (x : Z) : Z := x mod 2^128.
Definition core_mask (core : Z) : Z := u128 (Z.shiftl 1 core).

(** [(__uint128_t)1 << n], undefined for [n >= 128]. *)
Definition shl1_128 (n : Z) : outcome Z :=
  if (0 <=? n) && (n <? 128) then Ret (core_mask n) else Stop UndefinedArith.
Definition has_core (mask core : Z) : bool := negb (Z.land mask (core_mask core) =? 0).

(** [cpu_isolation_init] for [nproc = sysconf(_SC_NPROCESSORS_ONLN)]; [None] is
    the return value -1. *)
Definition cpu_isolation_init (nproc : Z) : outcome (option cpu_isolation) :=
  if nproc <=? 0 then Ret None
  else if 128 <? nproc then Ret None
  else bit ← shl1_128 nproc;
       Ret (Some (mk_iso 0 (u128 (bit - 1)) nproc 0 0 0 0)).

(** The common part of the two blacklisting functions. *)
Definition add_to_blacklist (s : cpu_isolation) (core_id : Z) : cpu_isolation :=
  if has_core (blacklist s) core_id then s
  else mk_iso (Z.lor (blacklist s) (core_mask core_id)) (available_cores s) (num_cores s)
              (num_blacklisted s + 1) (rr_cursor s) (migration_count s)
              (u64 (blacklist_events s + 1)).

Definition cpu_isolation_blacklist_current (m : machine) : outcome (Z * machine) :=
  if cpu m <? 0 then Ret (-1, m)
  else _ ← shl1_128 (cpu m);
       Ret (cpu m, mk_machine (add_to_blacklist (iso m) (cpu m)) (cpu m)).

Definition cpu_isolation_blacklist_core (s : cpu_isolation) (core_id : Z) : cpu_isolation :=
  if (core_id <? 0) || (num_cores s <=? core_id) then s else add_to_blacklist s core_id.

Definition cpu_isolation_is_blacklisted (s : cpu_isolation) (core_id : Z) : bool :=
  if (core_id <? 0) || (num_cores s <=? core_id) then true
  else has_core (blacklist s) core_id.

Definition cpu_isolation_get_available_count (s : cpu_isolation) : Z :=
  num_cores s - num_blacklisted s.

(** [available_cores & ~blacklist] *)
Definition available_mask (s : cpu_isolation) : Z :=
  Z.land (available_cores s) (u128 (Z.lnot (blacklist s))).

(** The round-robin search, [i] iterations left to do from offset [i0]. *)
Fixpoint rr_search (n : nat) (i start cores mask : Z) : option Z :=
  match n with
  | O => None
  | S n' =>
      let core := Z.rem (start + i) cores in
      if has_core mask core then Some core else rr_search n' (i + 1) start cores mask
  end.

Definition set_cursor (s : cpu_isolation) (c : Z) : cpu_isolation :=
  mk_iso (blacklist s) (available_cores s) (num_cores s) (num_blacklisted s) c
         (migration_count s) (blacklist_events s).

(** [None] is the return value -1. *)
Definition cpu_isolation_get_next_available (s : cpu_isolation) : option Z * cpu_isolation :=
  let mask := available_mask s in
  if mask =? 0 then (None, s)
  else
    let start := rr_cursor s in
    let start := if (start <? 0) || (num_cores s <=? start) then 0 else start in
    match rr_search (Z.to_nat (num_cores s)) 0 start (num_cores s) mask with
    | Some core => (Some core, set_cursor s (Z.rem (core + 1) (num_cores s)))
    | None => (None, s)
    end.

(** The [cpu_set_t] with one core, built word by word. *)
Definition single_cpuset (core : Z) : Z :=
  Z.shiftl (Z.shiftl 1 (Z.rem core 64)) (64 * (core / 64)).

Definition inc_migrations (s : cpu_isolation) : cpu_isolation :=
  mk_iso (blacklist s) (available_cores s) (num_cores s) (num_blacklisted s) (rr_cursor s)
         (u64 (migration_count s + 1)) (blacklist_events s).

(** The first core of [mask] below [n], searching from [i]. *)
Fixpoint first_core (n : nat) (i mask : Z) : option Z :=
  match n with
  | O => None
  | S n' => if has_core mask i then Some i else first_core n' (i + 1) mask
  end.

(** [CPU_CLR] and [CPU_ISSET] on a [cpu_set_t]. *)
Definition CPU_CLR (core mask : Z) : Z := Z.clearbit mask core.
Definition CPU_ISSET (core mask : Z) : bool := Z.testbit mask core.

Fixpoint apply_blacklist_loop (n : nat) (i bl mask : Z) (has : bool) : bool * Z :=
  match n with
  | O => (has, mask)
  | S n' =>
      let mask := if has_core bl i then CPU_CLR i mask else mask in
      apply_blacklist_loop n' (i + 1) bl mask (if CPU_ISSET i mask then true else has)
  end.

Definition cpu_isolation_apply_blacklist (s : cpu_isolation) (cpuset : Z) : bool * Z :=
  apply_blacklist_loop (Z.to_nat (num_cores s)) 0 (blacklist s) cpuset false.

Section Os.
Context (setaffinity : Z -> Z -> Z * Z).

(** Pin the thread to one core; a failure exits the process. *)
Definition pin_to (m : machine) (new_core : Z) : outcome machine :=
  let '(ret, cpu') := setaffinity (cpu m) (single_cpuset new_core) in
  if negb (ret =? 0) then Stop Exited
  else Ret (mk_machine (inc_migrations (iso m)) cpu').

Definition cpu_isolation_migrate_current_thread (m : machine) : outcome (Z * machine) :=
  if num_cores (iso m) <=? num_blacklisted (iso m) then Stop Exited
  else
    match cpu_isolation_get_next_available (iso m) with
    | (None, _) => Stop Exited
    | (Some new_core, s) =>
        m' ← pin_to (mk_machine s (cpu m)) new_core;
        Ret (new_core, m')
    end.

Definition cpu_isolation_migrate_excluding_core (m : machine) (exclude_core : Z)
  : outcome (Z * machine) :=
  let s := iso m in
  let mask := available_mask s in
  let mask := if (0 <=? exclude_core) && (exclude_core <? num_cores s)
              then Z.land mask (u128 (Z.lnot (core_mask exclude_core))) else mask in
  if mask =? 0 then Stop Exited
  else
    match first_core (Z.to_nat (num_cores s)) 0 mask with
    | None => Stop Exited
    | Some new_core => m' ← pin_to m new_core; Ret (new_core, m')
    end.

(** [cpu_isolation_set_affinity] of the current thread: 0 or -1. *)
Definition cpu_isolation_set_affinity (m : machine) : Z * machine :=
  match cpu_isolation_get_next_available (iso m) with
  | (None, _) => (-1, m)
  | (Some core, s) =>
      let '(ret, cpu') := setaffinity (cpu m) (single_cpuset core) in
      if negb (ret =? 0) then (-1, mk_machine s (cpu m)) else (0, mk_machine s cpu')
  end.

Definition cpu_isolation_restore_affinity (m : machine) (saved : Z) : Z * machine :=
  let '(has, mask) := cpu_isolation_apply_blacklist (iso m) saved in
  if negb has then (-1, m)
  else
    let '(ret, cpu') := setaffinity (cpu m) mask in
    if negb (ret =? 0) then (-1, m) else (0, mk_machine (iso m) cpu').

End Os.

(** ** Invariant *)

(** Number of bits set below [n]. *)
Definition count_bits (n : nat) (x : Z) : nat :=
  length (filter (fun i => Z.testbit x i = true) (seqZ 0 (Z.of_nat n))).

Definition is_core (s : cpu_isolation) (c : Z) : Prop := 0 <= c < num_cores s.
Definition blacklisted (s : cpu_isolation) (c : Z) : Prop := Z.testbit (blacklist s) c = true.

Record iso_wf (s : cpu_isolation) : Prop := {
  iwf_cores : 1 <= num_cores s <= 128;
  iwf_available : available_cores s = Z.ones (num_cores s);
  iwf_blacklist : 0 <= blacklist s;
  iwf_sub : forall c, blacklisted s c -> is_core s c;
  iwf_count : num_blacklisted s = Z.of_nat (count_bits (Z.to_nat (num_cores s)) (blacklist s));
  iwf_cursor : is_core s (rr_cursor s);
}.

(** ** Masks *)

Lemma core_mask_bits c i : 0 <= c < 128 -> 0 <= i -> Z.testbit (core_mask c) i = (i =? c).
Proof.
  intros Hc Hi. unfold core_mask, u128. rewrite Z.shiftl_1_l, Z.mod_small.
  - rewrite Z.pow2_bits_eqb by lia. apply Z.eqb_sym.
  - split; [lia|]. apply Z.pow_lt_mono_r; lia.
Qed.

Lemma has_core_bit mask c : 0 <= c < 128 -> has_core mask c = Z.testbit mask c.
Proof.
  intros Hc. unfold has_core. destruct (Z.eqb_spec (Z.land mask (core_mask c)) 0) as [E|E]; cbn.
  - assert (Z.testbit (Z.land mask (core_mask c)) c = false) as H by (by rewrite E, Z.bits_0).
    rewrite Z.land_spec, core_mask_bits, Z.eqb_refl, andb_true_r in H by lia. done.
  - destruct (Z.testbit mask c) eqn:Eb; [done|]. destruct E. apply Z.bits_inj'. intros i Hi.
    rewrite Z.land_spec, core_mask_bits, Z.bits_0 by lia.
    destruct (Z.eqb_spec i c) as [->|]; [by rewrite Eb|apply andb_false_r].
Qed.

Lemma not128_bits x i : 0 <= i < 128 -> Z.testbit (u128 (Z.lnot x)) i = negb (Z.testbit x i).
Proof. intros Hi. unfold u128. by rewrite Z.mod_pow2_bits_low, Z.lnot_spec by lia. Qed.

Lemma ones_bits n i : 0 <= n -> 0 <= i -> Z.testbit (Z.ones n) i = (i <? n).
Proof.
  intros Hn Hi. destruct (Z.ltb_spec i n); [apply Z.ones_spec_low|apply Z.ones_spec_high]; lia.
Qed.

(** The cores a thread may be moved to. *)
Definition usable (s : cpu_isolation) (c : Z) : Prop := is_core s c /\ ~ blacklisted s c.

#[global] Instance usable_dec s c : Decision (usable s c).
Proof. unfold usable, is_core, blacklisted. apply _. Defined.

Lemma available_mask_bit s c : iso_wf s -> 0 <= c ->
  Z.testbit (available_mask s) c = bool_decide (usable s c).
Proof.
  intros Hs Hc. destruct Hs as [Hn Ha _ Hsub _ _]. unfold available_mask.
  rewrite Z.land_spec, Ha, ones_bits by lia. symmetry.
  destruct (Z.ltb_spec c (num_cores s)) as [Hlt|Hge]; cbn.
  - rewrite not128_bits by lia. destruct (Z.testbit (blacklist s) c) eqn:E; cbn.
    + apply bool_decide_eq_false. intros [_ X]. by apply X.
    + apply bool_decide_eq_true. split; [unfold is_core; lia|unfold blacklisted; congruence].
  - apply bool_decide_eq_false. intros [[_ ?] _]. lia.
Qed.

Lemma available_mask_zero s : iso_wf s -> available_mask s = 0 <-> forall c, ~ usable s c.
Proof.
  intros Hs. split.
  - intros E c Hu. pose proof (available_mask_bit s c Hs ltac:(destruct Hu as [[? ?] ?]; lia)) as H.
    rewrite E, Z.bits_0, bool_decide_eq_true_2 in H by done. done.
  - intros Hall. apply Z.bits_inj'. intros i Hi. rewrite available_mask_bit, Z.bits_0 by done.
    apply bool_decide_eq_false. apply Hall.
Qed.

(** ** Counting *)

Lemma count_bits_S n x : count_bits (S n) x = (count_bits n x + if Z.testbit x (Z.of_nat n) then 1 else 0)%nat.
Proof.
  unfold count_bits. replace (Z.of_nat (S n)) with (Z.of_nat n + 1) by lia.
  rewrite seqZ_app by lia. rewrite filter_app, length_app. cbn [Z.add]. f_equal.
  replace (seqZ (0 + Z.of_nat n) 1) with [Z.of_nat n] by done. cbn.
  destruct (Z.testbit x (Z.of_nat n)) eqn:E; cbn; [by rewrite decide_True|by rewrite decide_False by congruence].
Qed.

Lemma count_bits_le n x : (count_bits n x <= n)%nat.
Proof. induction n as [|n IH]; [done|]. rewrite count_bits_S. case_match; lia. Qed.

Lemma count_bits_full n x : count_bits n x = n <-> forall i, 0 <= i < Z.of_nat n -> Z.testbit x i = true.
Proof.
  induction n as [|n IH]; [split; [lia|done]|]. rewrite count_bits_S. pose proof (count_bits_le n x).
  destruct (Z.testbit x (Z.of_nat n)) eqn:E.
  - split.
    + intros Hn i Hi. destruct (decide (i = Z.of_nat n)) as [->|]; [done|]. apply IH; lia.
    + intros Hall. rewrite (proj2 IH); [lia|]. intros i Hi. apply Hall. lia.
  - split; [lia|]. intros Hall. rewrite Hall in E by lia. done.
Qed.

Lemma count_bits_set n x c : 0 <= c < 128 -> Z.testbit x c = false ->
  count_bits n (Z.lor x (core_mask c)) = (count_bits n x + if decide (c < Z.of_nat n)%Z then 1 else 0)%nat.
Proof.
  intros Hc Hx. induction n as [|n IH]; [by rewrite decide_False by lia|].
  rewrite !count_bits_S, IH, Z.lor_spec, core_mask_bits by lia.
  destruct (Z.eqb_spec (Z.of_nat n) c) as [Hcn|Hne].
  - rewrite Hcn, Hx. cbn [orb]. repeat case_decide; lia.
  - rewrite orb_false_r. destruct (Z.testbit x (Z.of_nat n)); repeat case_decide; lia.
Qed.

(** No usable core is left exactly when the counter reached the core count. *)
Lemma all_blacklisted s : iso_wf s -> num_cores s <= num_blacklisted s <-> forall c, ~ usable s c.
Proof.
  intros [Hn _ _ Hsub Hcount _]. rewrite Hcount. set (n := Z.to_nat (num_cores s)) in *.
  pose proof (count_bits_le n (blacklist s)). pose proof (count_bits_full n (blacklist s)) as Hf.
  split.
  - intros Hle c [Hc Hu]. apply Hu. unfold blacklisted. apply Hf; [lia|]. unfold is_core in Hc. lia.
  - intros Hall. enough (count_bits n (blacklist s) = n) by lia. apply Hf. intros i Hi.
    destruct (Z.testbit (blacklist s) i) eqn:E; [done|]. destruct (Hall i). split; [unfold is_core; lia|].
    unfold blacklisted. congruence.
Qed.

(** ** Operations *)

Lemma cpu_isolation_init_wf n s : cpu_isolation_init n = Ret (Some s) ->
  iso_wf s /\ num_cores s = n /\ forall c, usable s c <-> 0 <= c < n.
Proof.
  unfold cpu_isolation_init, shl1_128. intros E.
  destruct (Z.leb_spec n 0); [done|]. destruct (Z.ltb_spec 128 n); [done|].
  destruct ((0 <=? n) && (n <? 128)) eqn:En; [|done].
  apply andb_true_iff in En as [En1%Z.leb_le En2%Z.ltb_lt]. injection E as <-. cbn.
  assert (Hp : 0 < 2^n < 2^128) by (split; [|apply Z.pow_lt_mono_r]; lia).
  assert (Hm : u128 (core_mask n - 1) = Z.ones n).
  { unfold core_mask, u128. rewrite Z.shiftl_1_l, (Z.mod_small (2^n)), Z.mod_small, Z.ones_equiv by lia. lia. }
  split; [split; cbn|split; [done|]].
  - lia.
  - done.
  - lia.
  - intros c Hc. unfold blacklisted in Hc. cbn in Hc. by rewrite Z.bits_0 in Hc.
  - assert (forall k, count_bits k 0 = 0%nat) as ->; [|done]. intros k. induction k; [done|].
    by rewrite count_bits_S, Z.bits_0, IHk.
  - unfold is_core. cbn. lia.
  - intros c. unfold usable, is_core, blacklisted. cbn. rewrite Z.bits_0. split; [by intros [? _]|done].
Qed.

(** Blacklisting removes exactly one core from the usable ones. *)
Lemma add_to_blacklist_spec s c : iso_wf s -> is_core s c ->
  iso_wf (add_to_blacklist s c) /\ num_cores (add_to_blacklist s c) = num_cores s /\
  (forall c', usable (add_to_blacklist s c) c' <-> usable s c' /\ c' <> c).
Proof.
  intros Hs Hc. pose proof Hs as [Hn Ha Hb Hsub Hcount Hcur]. unfold is_core in Hc.
  unfold add_to_blacklist. rewrite has_core_bit by lia.
  destruct (Z.testbit (blacklist s) c) eqn:E.
  { split_and!; [done|done|]. intros c'. split; [|by intros [? _]]. intros Hu. split; [done|].
    intros ->. by destruct Hu as [_ []]. }
  assert (Hbit : forall i, 0 <= i -> Z.testbit (Z.lor (blacklist s) (core_mask c)) i =
                  Z.testbit (blacklist s) i || (i =? c)).
  { intros i Hi. by rewrite Z.lor_spec, core_mask_bits by lia. }
  split_and!; [split; cbn|done|].
  - done.
  - done.
  - apply Z.lor_nonneg. split; [done|]. unfold core_mask, u128. apply Z.mod_pos_bound. lia.
  - intros c' Hc'. unfold blacklisted in Hc'. cbn in Hc'.
    destruct (decide (0 <= c')); [|by rewrite Z.testbit_neg_r in Hc' by lia].
    rewrite Hbit in Hc' by lia. apply orb_true_iff in Hc' as [Hc'|Hc'%Z.eqb_eq]; [by apply Hsub|].
    subst c'. unfold is_core. cbn. lia.
  - rewrite count_bits_set by (done || lia). rewrite Hcount, decide_True by lia. lia.
  - done.
  - intros c'. unfold usable, is_core, blacklisted. cbn.
    destruct (decide (0 <= c')); [|split; lia]. rewrite Hbit, orb_true_iff, Z.eqb_eq by lia. naive_solver.
Qed.

Lemma available_count_range s : iso_wf s -> 0 <= cpu_isolation_get_available_count s <= num_cores s.
Proof.
  intros [Hn _ _ _ Hc _]. unfold cpu_isolation_get_available_count.
  pose proof (count_bits_le (Z.to_nat (num_cores s)) (blacklist s)). lia.
Qed.

Lemma add_to_blacklist_count s c : iso_wf s -> is_core s c ->
  cpu_isolation_get_available_count (add_to_blacklist s c) =
  cpu_isolation_get_available_count s - (if decide (usable s c) then 1 else 0).
Proof.
  intros Hs Hc. pose proof (iwf_cores _ Hs). unfold is_core in Hc.
  unfold add_to_blacklist, cpu_isolation_get_available_count. rewrite has_core_bit by lia.
  destruct (Z.testbit (blacklist s) c) eqn:E; cbn [num_cores num_blacklisted].
  - rewrite decide_False; [lia|]. intros [_ []]. done.
  - rewrite decide_True; [lia|]. split; [done|]. unfold blacklisted. congruence.
Qed.

Lemma rr_search_spec mask cores start : 1 <= cores <= 128 -> 0 <= start < cores ->
  forall n i, 0 <= i ->
  match rr_search n i start cores mask with
  | Some c => exists k, i <= k < i + Z.of_nat n /\ c = (start + k) mod cores /\ Z.testbit mask c = true /\
      forall j, i <= j < k -> Z.testbit mask ((start + j) mod cores) = false
  | None => forall j, i <= j < i + Z.of_nat n -> Z.testbit mask ((start + j) mod cores) = false
  end.
Proof.
  intros Hcores Hstart n. induction n as [|n IH]; intros i Hi; cbn [rr_search]; [intros; lia|].
  rewrite Z.rem_mod_nonneg by lia. pose proof (Z.mod_pos_bound (start + i) cores ltac:(lia)).
  rewrite has_core_bit by lia. destruct (Z.testbit mask ((start + i) mod cores)) eqn:E.
  - exists i. split_and!; [lia|lia|done|done|lia].
  - specialize (IH (i + 1) ltac:(lia)). destruct (rr_search _ _ _ _ _) as [c|].
    + destruct IH as (k & Hk & -> & Hb & Hj). exists k. split_and!; [lia|lia|done|done|].
      intros j Hji. destruct (decide (j = i)) as [->|]; [done|]. apply Hj. lia.
    + intros j Hji. destruct (decide (j = i)) as [->|]; [done|]. apply IH. lia.
Qed.

(** Every core is at some round-robin distance from the cursor. *)
Lemma rr_covers cores start c : 1 <= cores -> 0 <= start < cores -> 0 <= c < cores ->
  exists k, 0 <= k < cores /\ c = (start + k) mod cores.
Proof.
  intros Hn Hs Hc. exists ((c - start) mod cores). split; [apply Z.mod_pos_bound; lia|].
  rewrite Zplus_mod_idemp_r. replace (start + (c - start)) with c by lia. by rewrite Z.mod_small.
Qed.

Lemma set_cursor_wf s c : iso_wf s -> is_core s c -> iso_wf (set_cursor s c).
Proof. intros [H1 H2 H3 H4 H5 H6] Hc. by split. Qed.

(** Round-robin selection: the first usable core at or after the cursor, and the
    cursor moves behind it; none only if every core is blacklisted. *)
Lemma get_next_available_spec s : iso_wf s ->
  match cpu_isolation_get_next_available s with
  | (Some c, s') => usable s c /\ iso_wf s' /\ s' = set_cursor s ((c + 1) mod num_cores s) /\
      exists k, 0 <= k < num_cores s /\ c = (rr_cursor s + k) mod num_cores s /\
        forall j, 0 <= j < k -> ~ usable s ((rr_cursor s + j) mod num_cores s)
  | (None, s') => s' = s /\ forall c, ~ usable s c
  end.
Proof.
  intros Hs. pose proof Hs as [Hn Ha Hb Hsub Hcount Hcur]. unfold is_core in Hcur.
  unfold cpu_isolation_get_next_available. destruct (Z.eqb_spec (available_mask s) 0) as [E|E].
  { split; [done|]. by apply available_mask_zero. }
  rewrite (proj2 (Z.ltb_ge (rr_cursor s) 0)), (proj2 (Z.leb_gt (num_cores s) (rr_cursor s))) by lia.
  cbn [orb]. pose proof (rr_search_spec (available_mask s) (num_cores s) (rr_cursor s) Hn Hcur
    (Z.to_nat (num_cores s)) 0 ltac:(lia)) as Hrr.
  assert (Hmod : forall k, 0 <= (rr_cursor s + k) mod num_cores s < num_cores s)
    by (intros; apply Z.mod_pos_bound; lia).
  destruct (rr_search _ _ _ _ _) as [c|].
  - destruct Hrr as (k & Hk & -> & Hbit & Hj). rewrite available_mask_bit in Hbit by (done || apply Hmod).
    apply bool_decide_eq_true in Hbit. rewrite Z.rem_mod_nonneg by (specialize (Hmod k); lia).
    split_and!; [done| |done|].
    + apply set_cursor_wf; [done|]. unfold is_core. apply Z.mod_pos_bound. lia.
    + exists k. split_and!; [lia|lia|done|]. intros j Hjk Hu. specialize (Hj j ltac:(lia)).
      rewrite available_mask_bit in Hj by (done || apply Hmod). by apply bool_decide_eq_false in Hj.
  - exfalso. apply E, available_mask_zero; [done|]. intros c Hu.
    destruct (rr_covers (num_cores s) (rr_cursor s) c) as (k & Hk & ->); [lia|lia|apply Hu|].
    specialize (Hrr k ltac:(lia)). rewrite available_mask_bit in Hrr by (done || apply Hmod).
    by apply bool_decide_eq_false in Hrr.
Qed.

Lemma single_cpuset_bit c i : 0 <= c -> 0 <= i -> Z.testbit (single_cpuset c) i = (i =? c).
Proof.
  intros Hc Hi. unfold single_cpuset. rewrite Z.rem_mod_nonneg by lia.
  pose proof (Z.div_mod c 64 ltac:(lia)). pose proof (Z.mod_pos_bound c 64 ltac:(lia)).
  rewrite Z.shiftl_shiftl by lia. replace (c mod 64 + 64 * (c / 64)) with c by lia.
  rewrite Z.shiftl_1_l, Z.pow2_bits_eqb by lia. apply Z.eqb_sym.
Qed.

Lemma first_core_spec mask : forall n i, 0 <= i -> i + Z.of_nat n <= 128 ->
  match first_core n i mask with
  | Some c => i <= c < i + Z.of_nat n /\ Z.testbit mask c = true /\
      forall j, i <= j < c -> Z.testbit mask j = false
  | None => forall j, i <= j < i + Z.of_nat n -> Z.testbit mask j = false
  end.
Proof.
  induction n as [|n IH]; intros i Hi Hn; cbn [first_core]; [intros; lia|].
  rewrite has_core_bit by lia. destruct (Z.testbit mask i) eqn:E; [split_and!; [lia|lia|done|lia]|].
  specialize (IH (i + 1) ltac:(lia) ltac:(lia)). destruct (first_core _ _ _) as [c|].
  - destruct IH as (Hc & Hb & Hj). split_and!; [lia|lia|done|]. intros j Hji.
    destruct (decide (j = i)) as [->|]; [done|]. apply Hj. lia.
  - intros j Hji. destruct (decide (j = i)) as [->|]; [done|]. apply IH. lia.
Qed.

(** The mask after removing the blacklisted cores, and whether a core is left. *)
Lemma apply_blacklist_loop_spec bl : forall n i mask has, 0 <= i -> i + Z.of_nat n <= 128 ->
  (apply_blacklist_loop n i bl mask has).1 = has || existsb (fun c => Z.testbit mask c && negb (Z.testbit bl c))
    (seqZ i (Z.of_nat n)) /\
  forall j, 0 <= j -> Z.testbit (apply_blacklist_loop n i bl mask has).2 j =
    Z.testbit mask j && negb (Z.testbit bl j && (i <=? j) && (j <? i + Z.of_nat n)).
Proof.
  induction n as [|n IH]; intros i mask has Hi Hn; cbn [apply_blacklist_loop].
  { cbn [fst snd]. change (seqZ i (Z.of_nat 0)) with (@nil Z). cbn [existsb].
    rewrite orb_false_r. split; [done|]. intros j Hj. change (Z.of_nat 0) with 0.
    destruct (Z.testbit mask j), (Z.testbit bl j), (Z.leb_spec i j), (Z.ltb_spec j (i + 0)); done || lia. }
  rewrite has_core_bit by lia.
  set (mask' := if Z.testbit bl i then CPU_CLR i mask else mask).
  assert (Hm : forall j, 0 <= j -> Z.testbit mask' j = Z.testbit mask j && negb (Z.testbit bl j && (j =? i))).
  { intros j Hj. unfold mask', CPU_CLR. destruct (Z.testbit bl i) eqn:E.
    - destruct (Z.eqb_spec j i) as [->|]; [by rewrite Z.clearbit_eq, E, andb_false_r|].
      rewrite Z.clearbit_neq by done. by rewrite andb_false_r, andb_true_r.
    - destruct (Z.eqb_spec j i) as [->|]; [by rewrite E, andb_true_r|].
      by rewrite andb_false_r, andb_true_r. }
  destruct (IH (i + 1) mask' (if CPU_ISSET i mask' then true else has) ltac:(lia) ltac:(lia)) as [IH1 IH2].
  split.
  - rewrite IH1. rewrite (seqZ_cons i) by lia.
    replace (Z.pred (Z.of_nat (S n))) with (Z.of_nat n) by lia. cbn [existsb]. rewrite <- Z.add_1_r.
    unfold CPU_ISSET. rewrite Hm, Z.eqb_refl, andb_true_r by lia.
    assert (Hex : existsb (fun c => Z.testbit mask' c && negb (Z.testbit bl c)) (seqZ (i + 1) (Z.of_nat n)) =
                  existsb (fun c => Z.testbit mask c && negb (Z.testbit bl c)) (seqZ (i + 1) (Z.of_nat n))).
    { apply eq_true_iff_eq. rewrite !existsb_exists. split; intros (c & Hin & Hc); exists c; split; auto;
        apply list_elem_of_In, elem_of_seqZ in Hin; rewrite Hm in * by lia;
        destruct (Z.testbit mask c), (Z.testbit bl c); cbn in *; try done;
        by destruct (c =? i). }
    rewrite Hex. destruct (Z.testbit mask i && negb (Z.testbit bl i)), has; done.
  - intros j Hj. rewrite IH2, Hm by lia.
    destruct (Z.testbit mask j), (Z.testbit bl j); cbn; try done.
    destruct (Z.eqb_spec j i), (Z.leb_spec (i + 1) j), (Z.leb_spec i j),
      (Z.ltb_spec j (i + 1 + Z.of_nat n)), (Z.ltb_spec j (i + Z.of_nat (S n))); cbn; try done; lia.
Qed.

Section OsSpec.
Context (setaffinity : Z -> Z -> Z * Z).

(** pthread_setaffinity_np(3): after a successful call the thread runs on a core
    of the mask. *)
Class OsAffinity : Prop :=
  affinity_ok : forall c mask c', setaffinity c mask = (0, c') -> 0 <= c' /\ Z.testbit mask c' = true.

(** Pinning the thread to one core succeeds. *)
Definition pinning_works : Prop :=
  forall c core, 0 <= core < 128 -> (setaffinity c (single_cpuset core)).1 = 0.

Context `{!OsAffinity}.

Lemma pin_to_Ret m c m' : 0 <= c -> pin_to setaffinity m c = Ret m' ->
  cpu m' = c /\ iso m' = inc_migrations (iso m).
Proof.
  intros Hc. unfold pin_to. destruct (setaffinity _ _) as [ret c'] eqn:E.
  destruct (Z.eqb_spec ret 0) as [->|]; [|done]. intros [= <-]. split; [|done].
  apply affinity_ok in E as [H0 Hb]. rewrite single_cpuset_bit in Hb by done. cbn. by apply Z.eqb_eq.
Qed.

Lemma inc_migrations_wf s : iso_wf s -> iso_wf (inc_migrations s).
Proof. intros [H1 H2 H3 H4 H5 H6]. by split. Qed.

(** Migration: never to a blacklisted core. *)
Lemma migrate_current_thread_Ret m c m' : iso_wf (iso m) ->
  cpu_isolation_migrate_current_thread setaffinity m = Ret (c, m') ->
  usable (iso m) c /\ cpu m' = c /\ iso_wf (iso m') /\ num_cores (iso m') = num_cores (iso m) /\
  (forall c', usable (iso m') c' <-> usable (iso m) c').
Proof.
  intros Hs. unfold cpu_isolation_migrate_current_thread.
  destruct (Z.leb_spec (num_cores (iso m)) (num_blacklisted (iso m))); [done|].
  pose proof (get_next_available_spec (iso m) Hs) as Hn.
  destruct (cpu_isolation_get_next_available (iso m)) as [[c1|] s']; [|done].
  destruct Hn as (Hu & Hwf & -> & _). intros E. inv_outcome. simplify_eq.
  match goal with X : pin_to _ _ _ = _ |- _ => apply pin_to_Ret in X as [E1 E2]; [|apply Hu] end.
  rewrite E2. split_and!; [done|done|by apply inc_migrations_wf|done|done].
Qed.

(** It exits only when no core is left (or the operating system refuses). *)
Lemma migrate_current_thread_total m : iso_wf (iso m) ->
  pinning_works ->
  (exists c m', cpu_isolation_migrate_current_thread setaffinity m = Ret (c, m')) <->
  exists c, usable (iso m) c.
Proof.
  intros Hs Hos. split.
  - intros (c & m' & E). apply migrate_current_thread_Ret in E as (Hu & _); [eauto|done].
  - intros [c Hu]. unfold cpu_isolation_migrate_current_thread.
    destruct (Z.leb_spec (num_cores (iso m)) (num_blacklisted (iso m))) as [Hle|_].
    { by apply (all_blacklisted (iso m) Hs) with (c := c) in Hle. }
    pose proof (get_next_available_spec (iso m) Hs) as Hn.
    destruct (cpu_isolation_get_next_available (iso m)) as [[c1|] s']; [|by destruct (proj2 Hn c)].
    pose proof (iwf_cores _ Hs) as Hcores. destruct Hn as [[[Hc1 Hc2] _] _].
    unfold pin_to. specialize (Hos (cpu m) c1 ltac:(lia)). cbn.
    destruct (setaffinity _ _) as [ret c']. cbn in Hos. subst ret. cbn. eauto.
Qed.

(** Migration for the next execution of a computation: another core. *)
Lemma migrate_excluding_core_Ret m x c m' : iso_wf (iso m) ->
  cpu_isolation_migrate_excluding_core setaffinity m x = Ret (c, m') ->
  usable (iso m) c /\ c <> x /\ cpu m' = c /\ iso_wf (iso m') /\
  (forall c', usable (iso m) c' -> c' <> x -> c <= c') /\
  (forall c', usable (iso m') c' <-> usable (iso m) c').
Proof.
  intros Hs. pose proof (iwf_cores _ Hs) as Hn. unfold cpu_isolation_migrate_excluding_core.
  set (mask := if (0 <=? x) && (x <? num_cores (iso m)) then _ else _).
  assert (Hm : forall i, 0 <= i < num_cores (iso m) ->
    Z.testbit mask i = bool_decide (usable (iso m) i) && negb (i =? x)).
  { intros i Hi. unfold mask. destruct (_ && _) eqn:E.
    - apply andb_true_iff in E as [E1%Z.leb_le E2%Z.ltb_lt].
      rewrite Z.land_spec, available_mask_bit, not128_bits, core_mask_bits by (done || lia). done.
    - rewrite available_mask_bit by (done || lia).
      destruct (Z.eqb_spec i x) as [->|]; [|by rewrite andb_true_r].
      apply andb_false_iff in E as [E%Z.leb_gt|E%Z.ltb_ge]; lia. }
  destruct (mask =? 0); [done|].
  pose proof (first_core_spec mask (Z.to_nat (num_cores (iso m))) 0 ltac:(lia) ltac:(lia)) as Hf.
  destruct (first_core _ _ _) as [c1|]; [|done]. destruct Hf as (Hc & Hb & Hj). intros E. inv_outcome. simplify_eq.
  match goal with X : pin_to _ _ _ = _ |- _ => apply pin_to_Ret in X as [E1 E2]; [|lia] end.
  rewrite Hm in Hb by lia. apply andb_true_iff in Hb as [Hu%bool_decide_eq_true Hne%negb_true_iff%Z.eqb_neq].
  rewrite E2. split_and!; [done|done|done|by apply inc_migrations_wf| |done].
  intros c' Hu' Hne'. destruct (decide (c <= c')); [done|]. pose proof (proj1 Hu') as Hc'. unfold is_core in Hc'.
  specialize (Hj c' ltac:(lia)). rewrite Hm in Hj by lia.
  rewrite bool_decide_eq_true_2, (proj2 (Z.eqb_neq c' x)) in Hj by done. done.
Qed.

(** Round-robin selection: the core chosen is the first usable core at or
    after the cursor, the cursor moves behind it, nothing else changes; no core is
    found exactly when every core is blacklisted. *)
Theorem next_available_round_robin s : iso_wf s ->
  match cpu_isolation_get_next_available s with
  | (Some c, s') => usable s c /\ iso_wf s' /\ s' = set_cursor s ((c + 1) mod num_cores s) /\
      exists k, 0 <= k < num_cores s /\ c = (rr_cursor s + k) mod num_cores s /\
        forall j, 0 <= j < k -> ~ usable s ((rr_cursor s + j) mod num_cores s)
  | (None, s') => s' = s /\ num_cores s <= num_blacklisted s
  end.
Proof.
  intros Hs. pose proof (get_next_available_spec s Hs) as Hn.
  destruct (cpu_isolation_get_next_available s) as [[c|] s']; [done|].
  destruct Hn as [-> Hno]. split; [done|]. by apply all_blacklisted.
Qed.

(** C36.  Migration is safe and exits only when it must: a migration that returns
    has put the thread on a core that is not blacklisted, the set of usable cores
    is unchanged, and when the operating system accepts the affinity it returns
    exactly when some core is usable. *)
Theorem migration_safe m : iso_wf (iso m) ->
  (forall c m', cpu_isolation_migrate_current_thread setaffinity m = Ret (c, m') ->
     usable (iso m) c /\ cpu m' = c /\ iso_wf (iso m') /\
     forall c', usable (iso m') c' <-> usable (iso m) c') /\
  (pinning_works ->
   (exists c m', cpu_isolation_migrate_current_thread setaffinity m = Ret (c, m')) <->
   exists c, usable (iso m) c).
Proof.
  intros Hs. split; [|by apply migrate_current_thread_total].
  intros c m' E. destruct (migrate_current_thread_Ret m c m' Hs E) as (? & ? & ? & _ & ?). done.
Qed.

(** A saved affinity restored after a migration never brings the thread back
    to a blacklisted core. *)
Theorem restore_affinity_avoids_blacklist m saved m' : iso_wf (iso m) ->
  cpu_isolation_restore_affinity setaffinity m saved = (0, m') ->
  iso m' = iso m /\ Z.testbit saved (cpu m') = true /\ ~ blacklisted (iso m) (cpu m').
Proof.
  intros Hs. pose proof (iwf_cores _ Hs) as Hn. unfold cpu_isolation_restore_affinity, cpu_isolation_apply_blacklist.
  destruct (apply_blacklist_loop_spec (blacklist (iso m)) (Z.to_nat (num_cores (iso m))) 0 saved false
    ltac:(lia) ltac:(lia)) as [_ Hb].
  destruct (apply_blacklist_loop _ _ _ _ _) as [has mask]. cbn [snd] in Hb. destruct has; [|done]. cbn [negb].
  destruct (setaffinity (cpu m) mask) as [ret c'] eqn:E. destruct (Z.eqb_spec ret 0) as [->|]; [|done].
  cbn [negb]. intros [= <-]. apply affinity_ok in E as [H0 Ht]. cbn. rewrite Hb in Ht by done.
  apply andb_true_iff in Ht as [Ht1 Ht2%negb_true_iff]. split_and!; [done|done|]. intros Hbl.
  pose proof (iwf_sub _ Hs _ Hbl) as Hc. unfold is_core in Hc. unfold blacklisted in Hbl.
  rewrite Hbl, (proj2 (Z.leb_le 0 c')), (proj2 (Z.ltb_lt _ _)) in Ht2 by lia. done.
Qed.

End OsSpec.

(** C39.  Blacklisting a core removes exactly that core from the usable ones, keeps
    the counter equal to the number of bits set, and is idempotent. *)
Theorem blacklist_core_exact s c : iso_wf s -> is_core s c ->
  iso_wf (cpu_isolation_blacklist_core s c) /\
  (forall c', usable (cpu_isolation_blacklist_core s c) c' <-> usable s c' /\ c' <> c) /\
  cpu_isolation_is_blacklisted (cpu_isolation_blacklist_core s c) c = true /\
  cpu_isolation_blacklist_core (cpu_isolation_blacklist_core s c) c = cpu_isolation_blacklist_core s c.
Proof.
  intros Hs Hc. destruct (add_to_blacklist_spec s c Hs Hc) as (Hwf & Hn & Hu).
  pose proof (iwf_cores _ Hs) as Hcores. pose proof Hc as [Hc1 Hc2].
  assert (Eg : forall st, num_cores st = num_cores s -> (c <? 0) || (num_cores st <=? c) = false).
  { intros st ->. apply orb_false_iff. split; [apply Z.ltb_ge|apply Z.leb_gt]; lia. }
  assert (Hbl : has_core (blacklist (add_to_blacklist s c)) c = true).
  { rewrite has_core_bit by lia. destruct (Z.testbit _ c) eqn:E; [done|]. exfalso.
    destruct (proj1 (Hu c)) as [_ []]; [|done]. split; [unfold is_core; lia|]. unfold blacklisted. congruence. }
  unfold cpu_isolation_blacklist_core, cpu_isolation_is_blacklisted. rewrite (Eg s), (Eg _ Hn) by done.
  split_and!; [done|done|done|]. unfold add_to_blacklist at 1. by rewrite Hbl.
Qed.

(** On a machine with 128 cores, which the range check accepts, the
    initialisation shifts a 128-bit one by 128 positions: undefined behaviour.
    From 1 to 127 cores it succeeds with every core usable. *)
Theorem init_128_cores_undefined :
  cpu_isolation_init 128 = Stop UndefinedArith /\
  forall n, 1 <= n < 128 -> exists s, cpu_isolation_init n = Ret (Some s) /\ iso_wf s /\
    forall c, usable s c <-> 0 <= c < n.
Proof.
  split; [reflexivity|]. intros n Hn.
  assert (E : exists s, cpu_isolation_init n = Ret (Some s)).
  { unfold cpu_isolation_init, shl1_128. rewrite (proj2 (Z.leb_gt n 0)), (proj2 (Z.ltb_ge 128 n)) by lia.
    rewrite (proj2 (Z.leb_le 0 n)), (proj2 (Z.ltb_lt n 128)) by lia. cbn. eauto. }
  destruct E as [s E]. exists s. destruct (cpu_isolation_init_wf n s E) as (Hwf & _ & Hu). done.
Qed.

(** ** Witnesses *)

(** Two cores, the first one blacklisted; an operating system that moves the
    thread to the lowest core of the mask. *)
Definition demo_iso : cpu_isolation := mk_iso 1 3 2 1 0 0 1.
Definition demo_os (c mask : Z) : Z * Z :=
  match first_core 128 0 mask with Some c' => (0, c') | None => (22, c) end.

Lemma demo_iso_wf : iso_wf demo_iso.
Proof.
  split; cbn; try lia; try done.
  - intros c Hc. unfold blacklisted in Hc. cbn [blacklist demo_iso] in Hc. unfold is_core. cbn.
    destruct c as [|c|c]; [lia|by destruct c|done].
Qed.

Lemma demo_os_ok : OsAffinity demo_os.
Proof.
  intros c mask c' E. unfold demo_os in E. pose proof (first_core_spec mask 128 0 ltac:(lia) ltac:(lia)) as Hf.
  destruct (first_core 128 0 mask) as [c1|]; [|done]. injection E as <-. destruct Hf as (Hc & Hb & _).
  split; [lia|done].
Qed.

Lemma demo_os_pins : pinning_works demo_os.
Proof.
  intros c core Hc. unfold demo_os.
  pose proof (first_core_spec (single_cpuset core) 128 0 ltac:(lia) ltac:(lia)) as Hf.
  destruct (first_core 128 0 _) as [c1|]; [done|]. specialize (Hf core ltac:(lia)).
  by rewrite single_cpuset_bit, Z.eqb_refl in Hf by lia.
Qed.

Lemma next_available_round_robin_witness :
  exists s', cpu_isolation_get_next_available demo_iso = (Some 1, s') /\ usable demo_iso 1.
Proof.
  pose proof (next_available_round_robin demo_iso demo_iso_wf) as H.
  eexists. split; [reflexivity|]. exact (proj1 H).
Defined.

Lemma blacklist_core_exact_witness :
  cpu_isolation_is_blacklisted (cpu_isolation_blacklist_core demo_iso 1) 1 = true.
Proof.
  destruct (blacklist_core_exact demo_iso 1 demo_iso_wf) as (_ & _ & E & _); [split; cbn; lia|exact E].
Defined.

Lemma migration_safe_witness :
  exists c m', cpu_isolation_migrate_current_thread demo_os (mk_machine demo_iso 0) = Ret (c, m').
Proof.
  apply (proj2 (@migration_safe demo_os demo_os_ok (mk_machine demo_iso 0) demo_iso_wf) demo_os_pins).
  exists 1. split; [split; cbn; lia|]. discriminate.
Defined.

Lemma restore_affinity_avoids_blacklist_witness :
  exists m', cpu_isolation_restore_affinity demo_os (mk_machine demo_iso 0) 3 = (0, m') /\
    ~ blacklisted demo_iso (cpu m').
Proof.
  eexists. split; [reflexivity|].
  exact (proj2 (proj2 (@restore_affinity_avoids_blacklist demo_os demo_os_ok
    (mk_machine demo_iso 0) 3 _ demo_iso_wf eq_refl))).
Defined.
