(* ===== verification/Ibuf.v ===== *)
(** * The input buffer (src/ibuf.c)

    A handler runs on an input message whose CRC is checked on entry, and
    checked again before the commit.  With SEI_CPU_ISOLATION a computation of
    the CRC that disagrees with its repetition blames the core: the core is
    blacklisted, the thread migrates and the check is repeated.

    [crc_run core k addr data] is the value the [k]-th evaluation of
    [crc_compute] returns when it runs on [core]: cores may be faulty. *)

From S2P Require Export Mem Crc CpuIsolation.

Inductive ibuf_mode := READ_ONLY | READ_WRITE.

#[global] Instance ibuf_mode_eq_dec : EqDecision ibuf_mode.
Proof. solve_decision. Defined.

Record ibuf := mk_ibuf {
  ib_ptr : Z;          (* 0 is NULL *)
  ib_size : Z;
  ib_crc : Z;
  ib_tcrc : Z;
  ib_mode : ibuf_mode;
  ib_checked : Z;
}.

(** Fields [malloc] leaves indeterminate are 0. *)
Definition ibuf_init : ibuf := mk_ibuf 0 0 crc_init 0 READ_ONLY 0.

(** The bytes of the message. *)
Definition read_block (m : mem) (ptr size : Z) : list Z := mget m <$> seqZ ptr size.

(** The processor: the thread's core, the isolation state and the number of CRC
    evaluations so far. *)
Record proc := mk_proc { pr_machine : machine; pr_time : nat }.

Section Ibuf.
Context `{Build}.
Context (crc_run : Z -> nat -> Z -> list Z -> Z).
Context (SEI_CRC_REDUNDANCY : nat).
Context (setaffinity : Z -> Z -> Z * Z).

(** One evaluation of [crc_compute(ibuf->ptr, ibuf->size)]. *)
Definition run_crc (m : mem) (ptr size : Z) (s : proc) : Z * proc :=
  (crc_run (cpu (pr_machine s)) (pr_time s) ptr (read_block m ptr size),
   mk_proc (pr_machine s) (S (pr_time s))).

(** [crc_compute_redundant(ibuf->ptr, ibuf->size, &crc_check, n)] *)
Definition run_redundant (n : nat) (m : mem) (ptr size : Z) (s : proc) : option Z * proc :=
  (crc_compute_redundant
     (fun i => crc_run (cpu (pr_machine s)) (pr_time s + i) ptr (read_block m ptr size)) n,
   mk_proc (pr_machine s) (pr_time s + (if (n <? 2)%nat || (10 <? n)%nat then 0 else n))%nat).

Definition ibuf_correct_on_entry (m : mem) (b : ibuf) (s : proc) : outcome (bool * proc) :=
  match run_redundant SEI_CRC_REDUNDANCY m (ib_ptr b) (ib_size b) s with
  | (None, _) => Stop Aborted
  | (Some crc_check, s') => Ret (crc_check =? ib_crc b, s')
  end.

(** The return codes of [ibuf_correct_on_entry_safe]: 2, 1 and 0. *)
Inductive entry_result := EntryOk | EntryCorrupt | EntrySdc.

(** [migrate] is the build option SEI_CRC_MIGRATE_CORES. *)
Definition ibuf_correct_on_entry_safe (migrate : bool) (m : mem) (b : ibuf) (s : proc)
  : outcome (entry_result * proc) :=
  let verdict crc_check := if negb (crc_check =? ib_crc b) then EntryCorrupt else EntryOk in
  if migrate then
    let phase0_core := cpu (pr_machine s) in
    let '(crc_phase0, s) := run_crc m (ib_ptr b) (ib_size b) s in
    '(_, mach) ← cpu_isolation_migrate_excluding_core setaffinity (pr_machine s) phase0_core;
    let s := mk_proc mach (pr_time s) in
    let '(crc_phase1, s) := run_crc m (ib_ptr b) (ib_size b) s in
    if negb (crc_phase0 =? crc_phase1) then Ret (EntrySdc, s)
    else Ret (verdict crc_phase0, s)
  else
    match run_redundant SEI_CRC_REDUNDANCY m (ib_ptr b) (ib_size b) s with
    | (None, s) => Ret (EntrySdc, s)
    | (Some crc_check, s) => Ret (verdict crc_check, s)
    end.

(** The recovery after a detected corruption: blacklist and migrate. *)
Definition recover (migrate : bool) (phase0_core : Z) (s : proc) : outcome proc :=
  mach ← (if migrate then
            let st := iso (pr_machine s) in
            let current_core := cpu (pr_machine s) in
            let st := cpu_isolation_blacklist_core st phase0_core in
            let st := cpu_isolation_blacklist_core st current_core in
            Ret (mk_machine st current_core)
          else
            '(_, mach) ← cpu_isolation_blacklist_current (pr_machine s); Ret mach);
  '(_, mach) ← cpu_isolation_migrate_current_thread setaffinity mach;
  Ret (mk_proc mach (pr_time s)).

(** [while (1) { ... }]; [None] when the fuel runs out. *)
Fixpoint prepare_loop (fuel : nat) (migrate : bool) (m : mem) (b : ibuf) (s : proc)
  : option (outcome (bool * proc)) :=
  match fuel with
  | O => None
  | S fuel' =>
      let crc_phase0_core := cpu (pr_machine s) in
      match ibuf_correct_on_entry_safe migrate m b s with
      | Stop e => Some (Stop e)
      | Ret (EntryOk, s') => Some (Ret (true, s'))
      | Ret (EntryCorrupt, s') => Some (Ret (false, s'))
      | Ret (EntrySdc, s') =>
          match recover migrate crc_phase0_core s' with
          | Stop e => Some (Stop e)
          | Ret s'' => prepare_loop fuel' migrate m b s''
          end
      end
  end.

(** [ibuf_prepare]; [isolation] is the build option SEI_CPU_ISOLATION with its
    value of SEI_CRC_MIGRATE_CORES. *)
Definition ibuf_prepare (isolation : option bool) (fuel : nat) (m : mem) (b : ibuf)
    (ptr size crc : Z) (mode : ibuf_mode) (s : proc) : option (outcome (bool * ibuf * proc)) :=
  match c_assert (ib_checked b =? 0) with
  | Stop e => Some (Stop e)
  | Ret _ =>
      let b := mk_ibuf ptr size crc (ib_tcrc b) mode (ib_checked b) in
      let finish r := (fun o => '(ok, s') ← o; Ret (ok, b, s')) <$> r in
      if ib_ptr b =? 0 then
        Some (c_assert (ib_size b =? 0);;
              c_assert (ib_crc b =? crc_init);;
              c_assert (bool_decide (ib_mode b = READ_ONLY));;
              Ret (true, b, s))
      else match isolation with
           | Some migrate => finish (prepare_loop fuel migrate m b s)
           | None => finish (Some (ibuf_correct_on_entry m b s))
           end
  end.

(** Between two executions: the CRC of the message the first one left. *)
Definition ibuf_switch (m : mem) (b : ibuf) (s : proc) : ibuf * proc :=
  match ib_mode b with
  | READ_ONLY => (b, s)
  | READ_WRITE =>
      let '(c, s') := run_crc m (ib_ptr b) (ib_size b) s in
      (mk_ibuf (ib_ptr b) (ib_size b) (ib_crc b) c (ib_mode b) (ib_checked b), s')
  end.

Definition ibuf_correct (m : mem) (b : ibuf) (s : proc) : outcome (bool * proc) :=
  match ib_mode b with
  | READ_ONLY =>
      if ib_ptr b =? 0 then
        c_assert (ib_size b =? 0);;
        c_assert (ib_crc b =? crc_init);;
        c_assert (bool_decide (ib_mode b = READ_ONLY));;
        Ret (true, s)
      else
        let '(crc_check, s') := run_crc m (ib_ptr b) (ib_size b) s in
        Ret (crc_check =? ib_crc b, s')
  | READ_WRITE =>
      let '(crc_check, s') := run_crc m (ib_ptr b) (ib_size b) s in
      Ret (crc_check =? ib_tcrc b, s')
  end.

Definition ibuf_reset (b : ibuf) : ibuf :=
  mk_ibuf (ib_ptr b) (ib_size b) (ib_crc b) (ib_tcrc b) (ib_mode b) 0.

(** ** The recovery loop ends *)

Context `{!OsAffinity setaffinity}.

Abbreviation siso s := (iso (pr_machine s)).
Abbreviation score s := (cpu (pr_machine s)).
Abbreviation count s := (Z.to_nat (cpu_isolation_get_available_count s)).

(** The thread runs on a core the library knows. *)
Record proc_wf (s : proc) : Prop := {
  pwf_iso : iso_wf (siso s);
  pwf_core : is_core (siso s) (score s);
}.

Lemma blacklist_core_spec st c : iso_wf st -> is_core st c ->
  cpu_isolation_blacklist_core st c = add_to_blacklist st c.
Proof.
  intros Hs [Hc1 Hc2]. unfold cpu_isolation_blacklist_core.
  rewrite (proj2 (Z.ltb_ge c 0)), (proj2 (Z.leb_gt _ c)) by lia. done.
Qed.

Lemma blacklist_current_spec mach : iso_wf (iso mach) -> is_core (iso mach) (cpu mach) ->
  cpu_isolation_blacklist_current mach =
    Ret (cpu mach, mk_machine (add_to_blacklist (iso mach) (cpu mach)) (cpu mach)).
Proof.
  intros Hs [Hc1 Hc2]. pose proof (iwf_cores _ Hs). unfold cpu_isolation_blacklist_current, shl1_128.
  rewrite (proj2 (Z.ltb_ge (cpu mach) 0)), (proj2 (Z.leb_le 0 _)), (proj2 (Z.ltb_lt _ 128)) by lia. done.
Qed.

(** The isolation state in which [recover] migrates. *)
Definition blamed (migrate : bool) (phase0_core : Z) (s : proc) : cpu_isolation :=
  if migrate then add_to_blacklist (add_to_blacklist (siso s) phase0_core) (score s)
  else add_to_blacklist (siso s) (score s).

Lemma recover_unfold migrate c0 s : proc_wf s -> is_core (siso s) c0 ->
  recover migrate c0 s =
    ('(_, mach) ← cpu_isolation_migrate_current_thread setaffinity
                   (mk_machine (blamed migrate c0 s) (score s));
     Ret (mk_proc mach (pr_time s))).
Proof.
  intros [Hs Hc] Hc0. unfold recover, blamed. destruct migrate.
  - destruct (add_to_blacklist_spec _ _ Hs Hc0) as (Hs1 & Hn1 & _).
    rewrite !blacklist_core_spec; [done|done|done|by rewrite blacklist_core_spec|].
    rewrite blacklist_core_spec by done. unfold is_core in *. by rewrite Hn1.
  - by rewrite blacklist_current_spec.
Qed.

(** Blaming removes the cores involved from the usable ones; a usable core among
    them makes the number of usable cores smaller. *)
Lemma blamed_spec migrate c0 s : proc_wf s -> is_core (siso s) c0 ->
  iso_wf (blamed migrate c0 s) /\ num_cores (blamed migrate c0 s) = num_cores (siso s) /\
  (forall c, usable (blamed migrate c0 s) c <->
     usable (siso s) c /\ c <> score s /\ (migrate = true -> c <> c0)) /\
  (count (blamed migrate c0 s) <= count (siso s))%nat /\
  (usable (siso s) (score s) -> (count (blamed migrate c0 s) < count (siso s))%nat).
Proof.
  intros [Hs Hc] Hc0. unfold blamed. destruct migrate.
  - destruct (add_to_blacklist_spec _ _ Hs Hc0) as (Hs1 & Hn1 & Hu1).
    assert (Hc' : is_core (add_to_blacklist (siso s) c0) (score s)) by (unfold is_core in *; by rewrite Hn1).
    destruct (add_to_blacklist_spec _ _ Hs1 Hc') as (Hs2 & Hn2 & Hu2).
    pose proof (available_count_range _ Hs). pose proof (available_count_range _ Hs2) as Hr2.
    rewrite (add_to_blacklist_count _ _ Hs1 Hc'), (add_to_blacklist_count _ _ Hs Hc0) in *.
    split_and!; [done|congruence| | |].
    + intros c. rewrite Hu2, Hu1. naive_solver.
    + repeat case_decide; lia.
    + intros Hu. repeat case_decide; try lia. rewrite Hu1 in *.
      destruct (decide (score s = c0)) as [<-|]; [done|]. exfalso. auto.
  - destruct (add_to_blacklist_spec _ _ Hs Hc) as (Hs1 & Hn1 & Hu1).
    pose proof (available_count_range _ Hs). pose proof (available_count_range _ Hs1) as Hr1.
    rewrite (add_to_blacklist_count _ _ Hs Hc) in *.
    split_and!; [done|done| | |].
    + intros c. rewrite Hu1. naive_solver.
    + case_decide; lia.
    + intros Hu. rewrite decide_True in * by done. lia.
Qed.

Lemma migrate_count m c m' : cpu_isolation_migrate_current_thread setaffinity m = Ret (c, m') ->
  cpu_isolation_get_available_count (iso m') = cpu_isolation_get_available_count (iso m).
Proof.
  unfold cpu_isolation_migrate_current_thread, cpu_isolation_get_next_available, pin_to.
  intros E. repeat case_match; simplify_eq/=; inv_outcome; repeat case_match; simplify_eq; inv_outcome; done.
Qed.

(** After a recovery the thread runs on a usable core, and fewer cores are left. *)
Lemma recover_Ret migrate c0 s s' : proc_wf s -> is_core (siso s) c0 -> recover migrate c0 s = Ret s' ->
  proc_wf s' /\ usable (siso s') (score s') /\
  (forall c, usable (siso s') c <-> usable (siso s) c /\ c <> score s /\ (migrate = true -> c <> c0)) /\
  (count (siso s') <= count (siso s))%nat /\
  (usable (siso s) (score s) -> (count (siso s') < count (siso s))%nat).
Proof.
  intros Hs Hc0 E. rewrite recover_unfold in E by done.
  destruct (blamed_spec migrate c0 s Hs Hc0) as (Hb & Hn & Hu & Hle & Hlt).
  apply bind_Ret in E as ([c mach] & E & [= <-]). pose proof (migrate_count _ _ _ E) as Hct.
  apply (migrate_current_thread_Ret setaffinity) in E as (Hcu & <- & Hwf & Hn' & Hu'); [|done].
  cbn [pr_machine iso] in *. rewrite Hct. split_and!; [|by apply Hu'| |done|done].
  - split; [done|]. cbn. apply Hu' in Hcu. apply Hcu.
  - intros c. by rewrite Hu', Hu.
Qed.

(** One check keeps the processor well formed and the set of usable cores. *)
Lemma correct_on_entry_safe_Ret migrate m b s r s' : proc_wf s ->
  ibuf_correct_on_entry_safe migrate m b s = Ret (r, s') ->
  proc_wf s' /\ num_cores (siso s') = num_cores (siso s) /\ (forall c, usable (siso s') c <-> usable (siso s) c) /\
  cpu_isolation_get_available_count (siso s') = cpu_isolation_get_available_count (siso s) /\
  (usable (siso s) (score s) -> usable (siso s') (score s')).
Proof.
  intros [Hs Hc]. unfold ibuf_correct_on_entry_safe. destruct migrate.
  - unfold run_crc. intros E. apply bind_Ret in E as ([c mach] & E & E'). cbn [pr_machine] in E.
    assert (Hct : num_cores (iso mach) = num_cores (siso s) /\
      cpu_isolation_get_available_count (iso mach) = cpu_isolation_get_available_count (siso s)).
    { unfold cpu_isolation_migrate_excluding_core, pin_to in E. repeat case_match; simplify_eq/=; done. }
    destruct Hct as [Hn Hct].
    apply (migrate_excluding_core_Ret setaffinity) in E as (Hcu & _ & <- & Hwf & _ & Hu); [|done].
    repeat case_match; simplify_eq; cbn [pr_machine iso];
      (split_and!; [split; [done|apply Hu, Hcu]|done|done|done|intros _; by apply Hu]).
  - unfold run_redundant. intros E. repeat case_match; simplify_eq; cbn [pr_machine];
      (split_and!; [by split|done|done|done|done]).
Qed.

(** The loop ends: at most one round more than there are usable cores. *)
Lemma prepare_loop_ends migrate m b : forall fuel s, proc_wf s ->
  (count (siso s) + (if decide (usable (siso s) (score s)) then 0 else 1) < fuel)%nat ->
  prepare_loop fuel migrate m b s <> None.
Proof.
  induction fuel as [|fuel IH]; intros s Hs Hf; [lia|]. cbn [prepare_loop].
  destruct (ibuf_correct_on_entry_safe migrate m b s) as [[r s1]|e] eqn:E; [|done].
  destruct r; [done|done|]. destruct (recover migrate (score s) s1) as [s2|e] eqn:Er; [|done].
  apply correct_on_entry_safe_Ret in E as (Hs1 & Hn1 & Hu1 & Hc1 & Hcur); [|done].
  apply recover_Ret in Er as (Hs2 & Hu2 & _ & Hle & Hlt); [|done|].
  - apply IH; [done|]. rewrite decide_True by done. rewrite Hc1 in *.
    case_decide as Hu; [|lia]. specialize (Hlt (Hcur Hu)). lia.
  - unfold is_core. rewrite Hn1. apply (pwf_core _ Hs).
Qed.

(** C35.  The entry check always ends, however the cores misbehave: in both
    recovery modes, a number of rounds two larger than the number of cores is
    enough for [ibuf_prepare] to return or to exit the process. *)
Theorem ibuf_prepare_terminates isolation fuel m b ptr size crc mode s : proc_wf s ->
  (Z.to_nat (num_cores (siso s)) + 2 <= fuel)%nat ->
  ibuf_prepare isolation fuel m b ptr size crc mode s <> None.
Proof.
  intros Hs Hf. unfold ibuf_prepare. destruct (c_assert _); [|done].
  destruct (_ =? 0); [done|]. destruct isolation as [migrate|]; [|done]. cbn zeta.
  pose proof (available_count_range _ (pwf_iso _ Hs)).
  match goal with |- _ <$> prepare_loop fuel migrate m ?b' s <> None =>
    destruct (prepare_loop fuel migrate m b' s) eqn:E; [done|];
    by apply (prepare_loop_ends migrate m b' fuel s Hs) in E; [|case_decide; lia] end.
Qed.

(** ** The check is right when some core is healthy *)

Context (crc32c : Z -> Z -> list Z -> Z).

(** A core that computes the CRC correctly, and one whose repeated computations
    never agree on a wrong value. *)
Definition healthy (c : Z) : Prop :=
  forall k addr data, crc_run c k addr data = crc_compute crc32c addr data.
Definition detectable (c : Z) : Prop :=
  forall k addr data r,
    crc_compute_redundant (fun i => crc_run c (k + i) addr data) SEI_CRC_REDUNDANCY = Some r ->
    r = crc_compute crc32c addr data.

Lemma healthy_redundant c k addr data : (2 <= SEI_CRC_REDUNDANCY <= 10)%nat -> healthy c ->
  crc_compute_redundant (fun i => crc_run c (k + i) addr data) SEI_CRC_REDUNDANCY =
    Some (crc_compute crc32c addr data).
Proof. intros Hn Hh. apply crc_compute_redundant_spec. split; [done|]. intros i _. apply Hh. Qed.

Lemma prepare_loop_correct m b h : (2 <= SEI_CRC_REDUNDANCY <= 10)%nat ->
  healthy h -> (forall c, detectable c) -> pinning_works setaffinity ->
  forall fuel s, proc_wf s -> usable (siso s) h ->
  (count (siso s) + (if decide (usable (siso s) (score s)) then 0 else 1) < fuel)%nat ->
  exists s', prepare_loop fuel false m b s =
    Some (Ret (crc_compute crc32c (ib_ptr b) (read_block m (ib_ptr b) (ib_size b)) =? ib_crc b, s')).
Proof.
  intros Hn Hh Hd Hos. induction fuel as [|fuel IH]; intros s Hs Hu Hf; [lia|].
  cbn [prepare_loop]. unfold ibuf_correct_on_entry_safe at 1. unfold run_redundant at 1.
  set (data := read_block m (ib_ptr b) (ib_size b)).
  set (s1 := mk_proc (pr_machine s) _).
  destruct (crc_compute_redundant _ _) as [r|] eqn:E.
  { pose proof (Hd _ _ _ _ _ E) as ->. exists s1.
    by destruct (crc_compute crc32c (ib_ptr b) data =? ib_crc b). }
  assert (Hne : h <> score s).
  { intros Heq. rewrite <- Heq, healthy_redundant in E by done. done. }
  assert (Hs1 : proc_wf s1) by (destruct Hs; by split).
  assert (Hc1 : is_core (siso s1) (score s)) by (apply (pwf_core _ Hs)).
  destruct (blamed_spec false (score s) s1 Hs1 Hc1) as (Hb & _ & Hbu & _).
  assert (Hex : exists c, usable (blamed false (score s) s1) c).
  { exists h. apply Hbu. split_and!; done. }
  apply (migrate_current_thread_total setaffinity (mk_machine (blamed false (score s) s1) (score s1)) Hb Hos)
    in Hex as (c & mach & Em).
  assert (Er : recover false (score s) s1 = Ret (mk_proc mach (pr_time s1))).
  { rewrite recover_unfold by done. by rewrite Em. }
  rewrite Er. pose proof (recover_Ret _ _ _ _ Hs1 Hc1 Er) as (Hs2 & Hu2 & Hus & Hle & Hlt).
  apply IH; [done|by apply Hus|]. rewrite decide_True by done. cbn [s1 pr_machine] in *.
  unfold s1 in *. cbn [pr_machine] in *. case_decide as Hcur; [specialize (Hlt Hcur)|]; lia.
Qed.

(** C34.  The recovery (with the checksum repeated on one core, SEI_CRC_MIGRATE_CORES off)
    answers correctly as long as one usable core is healthy and
    the repetitions of a faulty core never agree on a wrong value: the message is
    accepted exactly when the attached checksum is that of its bytes. *)
Theorem ibuf_prepare_correct m b h fuel ptr size crc mode s : (2 <= SEI_CRC_REDUNDANCY <= 10)%nat ->
  healthy h -> (forall c, detectable c) -> pinning_works setaffinity ->
  proc_wf s -> usable (siso s) h -> ib_checked b = 0 -> ptr <> 0 ->
  (Z.to_nat (num_cores (siso s)) + 2 <= fuel)%nat ->
  exists b' s', ibuf_prepare (Some false) fuel m b ptr size crc mode s =
    Some (Ret (crc_compute crc32c ptr (read_block m ptr size) =? crc, b', s')).
Proof.
  intros Hn Hh Hd Hos Hs Hu Hc Hp Hf. unfold ibuf_prepare. rewrite Hc, c_assert_true.
  cbn [ib_ptr]. rewrite (proj2 (Z.eqb_neq _ _) Hp).
  pose proof (available_count_range _ (pwf_iso _ Hs)).
  set (b' := mk_ibuf ptr size crc (ib_tcrc b) mode 0).
  destruct (prepare_loop_correct m b' h Hn Hh Hd Hos fuel s Hs Hu) as (s' & E); [case_decide; lia|].
  exists b', s'. cbn zeta. by rewrite E.
Qed.

(** Input integrity: after a read-only message was accepted, the check before
    the commit (on a healthy core) accepts the unmodified message and rejects
    every modification confined to a window of four bytes. *)
Theorem ibuf_correct_detects b s m m' pre w w' post : 
  Crc32c crc32c -> healthy (score s) -> ib_mode b = READ_ONLY -> ib_ptr b <> 0 ->
  crc_compute crc32c (ib_ptr b) (read_block m (ib_ptr b) (ib_size b)) = ib_crc b ->
  read_block m (ib_ptr b) (ib_size b) = pre ++ w ++ post ->
  read_block m' (ib_ptr b) (ib_size b) = pre ++ w' ++ post ->
  length w = length w' -> (length w <= 4)%nat ->
  exists s', ibuf_correct m' b s = Ret (bool_decide (w = w'), s').
Proof.
  intros Hcrc Hh Hmode Hptr Hok Hm Hm' Hl Hl4. unfold ibuf_correct. rewrite Hmode.
  rewrite (proj2 (Z.eqb_neq _ _) Hptr). unfold run_crc. rewrite Hh, Hm', <- Hok, Hm. eexists.
  f_equal. f_equal. assert (Hb : forall M, bytes (read_block M (ib_ptr b) (ib_size b))).
  { intros M. apply Forall_fmap, Forall_forall. intros x _. apply mget_bound. }
  pose proof (Hb m) as Hbm. pose proof (Hb m') as Hbm'. rewrite Hm in Hbm. rewrite Hm' in Hbm'.
  unfold bytes in *. rewrite !Forall_app in Hbm, Hbm'. destruct Hbm as (? & ? & ?), Hbm' as (_ & ? & _).
  case_bool_decide as Hw; [subst; apply Z.eqb_refl|]. apply Z.eqb_neq.
  apply crc_compute_burst; try done. congruence.
Qed.

End Ibuf.

(** ** Witnesses *)

(** A processor with two cores of which core 0 returns a different value at every
    evaluation; the thread starts there. *)
Definition demo_crc (c : Z) (k : nat) (addr : Z) (data : list Z) : Z :=
  if c =? 0 then 2^32 + Z.of_nat k else crc_compute crc32cSarwate addr data.
Definition demo_proc : proc := mk_proc (mk_machine (mk_iso 0 3 2 0 0 0 0) 0) 0.

Lemma demo_proc_wf : proc_wf demo_proc.
Proof.
  split; [|split; cbn; lia]. split; cbn; try lia; try done.
  intros c Hc. unfold blacklisted in Hc. cbn in Hc. by rewrite Z.bits_0 in Hc.
Qed.

Lemma demo_healthy : healthy demo_crc crc32cSarwate 1.
Proof. intros k addr data. done. Qed.

Lemma demo_detectable c : detectable demo_crc 2 crc32cSarwate c.
Proof.
  intros k addr data r E. apply crc_compute_redundant_spec in E as [_ E].
  pose proof (E 0%nat ltac:(lia)) as E0. pose proof (E 1%nat ltac:(lia)) as E1.
  unfold demo_crc in *. destruct (c =? 0); [lia|done].
Qed.

Lemma ibuf_prepare_terminates_witness :
  let _ := debug_build 2 in
  ibuf_prepare demo_crc 2 demo_os (Some true) 4 ∅ ibuf_init 16 4 7 READ_ONLY demo_proc <> None.
Proof.
  intros B. apply (@ibuf_prepare_terminates B demo_crc 2 demo_os demo_os_ok); [apply demo_proc_wf|cbn; lia].
Defined.

Lemma ibuf_prepare_correct_witness :
  let _ := debug_build 2 in
  exists b' s', ibuf_prepare demo_crc 2 demo_os (Some false) 4 ∅ ibuf_init 16 4 7 READ_ONLY demo_proc =
    Some (Ret (crc_compute crc32cSarwate 16 (read_block ∅ 16 4) =? 7, b', s')).
Proof.
  intros B. apply (@ibuf_prepare_correct B demo_crc 2 demo_os demo_os_ok crc32cSarwate ∅ ibuf_init 1).
  - lia.
  - apply demo_healthy.
  - apply demo_detectable.
  - apply demo_os_pins.
  - apply demo_proc_wf.
  - split; [split; cbn; lia|]. discriminate.
  - reflexivity.
  - discriminate.
  - cbn. lia.
Defined.

Lemma ibuf_correct_detects_witness :
  let _ := debug_build 2 in
  let b := mk_ibuf 16 2 (crc_compute crc32cSarwate 16 [1; 2]) 0 READ_ONLY 0 in
  let s := mk_proc (mk_machine demo_iso 1) 0 in
  exists s', ibuf_correct demo_crc (<[16 := 1]> (<[17 := 9]> ∅)) b s = Ret (bool_decide ([2] = [9]), s').
Proof.
  intros B b s. eapply (@ibuf_correct_detects B demo_crc crc32cSarwate b s (<[16 := 1]> (<[17 := 2]> ∅)) _ [1] [2] [9] []);
    try reflexivity; [apply _|apply demo_healthy|discriminate|cbn; lia].
Defined.
