(* ===== verification/Channel.v ===== *)
(** * From sender to receiver

    The checksum released by the output buffer of one process is the one the
    input buffer of another process accepts for the same bytes. *)

From S2P Require Export Obuf Ibuf.

Section Channel.
Context `{Build} (crc32c : Z -> Z -> list Z -> Z) `{!Crc32c crc32c}.

(** Both phases of the sender's handler send the same message, possibly in
    different chunks from different addresses. *)
Definition sent (chunks0 chunks1 : list (Z * list Z)) : outcome (Z * obuf) :=
  o ← obuf_send crc32c (obuf_init 10) chunks0;
  o ← obuf_send crc32c (obuf_close o) chunks1;
  obuf_pop (obuf_close o).

Lemma obuf_close_2 o : ob_redundancy_level o = 2%nat -> (ob_p o < 2)%nat ->
  ob_p (obuf_close o) = (1 - ob_p o)%nat /\ ob_queue (obuf_close o) = ob_queue o /\
  ob_redundancy_level (obuf_close o) = 2%nat.
Proof.
  intros Hl Hp. unfold obuf_close. cbn. rewrite Hl. split_and!; try done.
  destruct (ob_p o) as [|[|p]]; [done|done|lia].
Qed.

Lemma sent_ok chunks0 chunks1 data addr : SEI_DMR_REDUNDANCY = 2%nat ->
  payload chunks0 = data -> payload chunks1 = data -> bytes data -> data <> [] ->
  Z.of_nat (length data) < 2^64 ->
  exists o, sent chunks0 chunks1 = Ret (crc_compute crc32c addr data, o).
Proof.
  intros Hd Hc0 Hc1 Hb Hne Hlen. unfold sent.
  assert (Hr : cur_rel (obuf_init 10) 0 [] no_msg).
  { exists empty_queue. unfold obuf_init. rewrite Hd. split; [done|apply empty_queue_rel]. }
  destruct (obuf_send_rel crc32c (obuf_init 10) 0 [] chunks0 addr Hr) as (o1 & E1 & Hr1 & Hp1 & Hl1 & Hlen1 & Ho1);
    rewrite ?Hc0; try done; [unfold MAX_MSGS; cbn; lia|]. rewrite Hc0 in Hr1.
  rewrite E1. cbn [mbind outcome_bind]. cbn [ob_p ob_redundancy_level obuf_init] in Hp1, Hl1, Ho1. rewrite Hd in Hl1.
  destruct (obuf_close_2 o1 Hl1 ltac:(lia)) as (Hcp & Hcq & Hcl). rewrite Hp1 in Hcp. cbn [Nat.sub] in Hcp.
  assert (Hr2 : cur_rel (obuf_close o1) 0 [] no_msg).
  { exists empty_queue. rewrite Hcq, Hcp, Ho1 by lia. unfold obuf_init. rewrite Hd.
    split; [done|apply empty_queue_rel]. }
  destruct (obuf_send_rel crc32c (obuf_close o1) 0 [] chunks1 addr Hr2) as (o2 & E2 & Hr3 & Hp2 & Hl2 & Hlen2 & Ho2);
    rewrite ?Hc1; try done; [unfold MAX_MSGS; cbn; lia|]. rewrite Hc1 in Hr3.
  rewrite E2. cbn [mbind outcome_bind]. rewrite Hcl in Hl2. rewrite Hcp in Hp2, Ho2. rewrite Hcq in Ho2.
  destruct (obuf_close_2 o2 Hl2 ltac:(lia)) as (Hdp & Hdq & Hdl).
  set (msg := (Z.of_nat (length data), crc_compute crc32c addr data)) in *.
  edestruct (obuf_pop_rel (obuf_close o2) (fun _ => 0) (fun _ => [msg]) (fun _ => no_msg) (fun _ => msg)
    (fun _ => [])) as (o3 & E3 & _); [|done|done|rewrite E3; eauto].
  split; rewrite Hdl, Hdq.
  - rewrite Hlen2, Hcq, Hlen1. unfold obuf_init. cbn. rewrite length_replicate. lia.
  - intros p Hp. destruct p as [|[|p]]; [| |lia].
    + destruct Hr1 as (q & Hq & Hqr). exists q. rewrite Ho2 by lia. by rewrite Hp1 in Hq.
    + destruct Hr3 as (q & Hq & Hqr). exists q. by rewrite Hp2 in Hq.
Qed.

(** C10.  End to end: the checksum a two-phase sender releases for a message is
    accepted by a receiver that finds the same bytes, whatever chunks the sender
    used and whatever the addresses are on both sides; a message altered within a
    window of four bytes is rejected. *)
Theorem channel_round_trip chunks0 chunks1 pre w w' post m ptr size b (s : proc) crc_run red os :
  SEI_DMR_REDUNDANCY = 2%nat -> (2 <= red <= 10)%nat -> ptr <> 0 -> ib_checked b = 0 ->
  healthy crc_run crc32c (cpu (pr_machine s)) ->
  payload chunks0 = pre ++ w ++ post -> payload chunks1 = pre ++ w ++ post ->
  bytes (pre ++ w ++ post) -> bytes w' -> length w = length w' -> (1 <= length w <= 4)%nat ->
  Z.of_nat (length (pre ++ w ++ post)) < 2^64 ->
  read_block m ptr size = pre ++ w' ++ post ->
  exists crc o b' s', sent chunks0 chunks1 = Ret (crc, o) /\
    ibuf_prepare crc_run red os None 0 m b ptr size crc READ_ONLY s =
      Some (Ret (bool_decide (w = w'), b', s')).
Proof.
  intros Hd Hred Hptr Hck Hh Hc0 Hc1 Hb Hbw' Hl Hl4 Hlen Hm.
  destruct (sent_ok chunks0 chunks1 (pre ++ w ++ post) ptr Hd Hc0 Hc1 Hb) as (o & E); [|done|].
  { intros Hnil. apply (f_equal length) in Hnil. rewrite !length_app in Hnil. cbn in Hnil. lia. }
  exists (crc_compute crc32c ptr (pre ++ w ++ post)), o. unfold ibuf_prepare.
  rewrite Hck, c_assert_true. cbn [ib_ptr]. rewrite (proj2 (Z.eqb_neq _ _) Hptr).
  unfold ibuf_correct_on_entry, run_redundant. cbn [ib_ptr ib_size ib_crc].
  rewrite healthy_redundant with (crc32c := crc32c), Hm by done. eexists _, _. split; [done|].
  cbn. f_equal. f_equal. f_equal. f_equal. unfold bytes in Hb. rewrite !Forall_app in Hb. destruct Hb as (? & ? & ?).
  case_bool_decide as Hw; [subst; apply Z.eqb_refl|]. apply Z.eqb_neq.
  apply crc_compute_burst; try done; lia || congruence.
Qed.

End Channel.

Lemma channel_round_trip_witness :
  let _ := debug_build 2 in
  exists crc o b' s', sent crc32cSarwate [(0, [1; 2]); (9, [3])] [(32, [1; 2; 3])] = Ret (crc, o) /\
    ibuf_prepare demo_crc 2 demo_os None 0 (<[16 := 1]> (<[17 := 2]> (<[18 := 3]> ∅))) ibuf_init 16 3 crc READ_ONLY
      (mk_proc (mk_machine demo_iso 1) 0) = Some (Ret (bool_decide ([2] = [2]), b', s')).
Proof.
  intros B. apply (@channel_round_trip B crc32cSarwate _ [(0, [1; 2]); (9, [3])] [(32, [1; 2; 3])] [1] [2] [2] [3]);
    try reflexivity; try discriminate; try (cbn; lia); repeat constructor; lia.
Defined.
