(* ===== verification/Sei.v ===== *)
(** * The transaction driver (src/mode_cow.c)

    Write-through copy-on-write mode with append-only buffers (the default
    build: COW_WT and COW_APPEND_ONLY, system-call wrapping SEI_WRAP_SC, no
    private heap, no page protection, no statistics).

    The application brackets an event handler with begin and end.  The handler
    runs N times on the same initial memory: phase 0 runs, [sei_switch] swaps
    its write log with the memory (undoing its writes), phase 1 runs, and so on;
    [sei_commit] (or, with SEI_CPU_ISOLATION, [sei_try_commit] first) compares
    the executions and releases their effects. *)

From S2P Require Export AbufTry Cfc Talloc Tbin Wts Obuf Ibuf.

(** config.h and the default of SEI_DMR_MAX_REDUNDANCY *)
Definition COW_SIZE : nat := 128.
Definition OBUF_SIZE : Z := 10.
Definition SC_MAX_CALLS : nat := 100.
Definition SEI_DMR_MAX_REDUNDANCY : nat := 10.

(** [struct sei], together with what its operations act on: the memory, the C
    library's allocator, the outside world of the wrapped calls, the processor.
    [sei->obuf] and the stash hold pointers to output buffers: the buffers live
    in [s_obufs] and a pointer is an index. *)
Record sei (S W : Type) := mk_sei {
  s_p : Z;
  s_redundancy_level : nat;
  s_core_migration : bool;
  s_cow : list abuf;
  s_tbin : tbin;
  s_talloc : talloc;
  s_obufs : list obuf;
  s_obuf : nat;
  s_ibuf : ibuf;
  s_cf : list cfc;
  s_stash : stash nat;
  s_wts : wts;
  s_mem : mem;
  s_alloc : S;
  s_world : W;
  s_proc : proc;
}.
Arguments mk_sei {S W}.
Arguments s_p {S W}.
Arguments s_redundancy_level {S W}.
Arguments s_core_migration {S W}.
Arguments s_cow {S W}.
Arguments s_tbin {S W}.
Arguments s_talloc {S W}.
Arguments s_obufs {S W}.
Arguments s_obuf {S W}.
Arguments s_ibuf {S W}.
Arguments s_cf {S W}.
Arguments s_stash {S W}.
Arguments s_wts {S W}.
Arguments s_mem {S W}.
Arguments s_alloc {S W}.
Arguments s_world {S W}.
Arguments s_proc {S W}.

Section Setters.
Context {S W : Type}.
Implicit Types s : sei S W.

Definition with_p s v := mk_sei v (s_redundancy_level s) (s_core_migration s) (s_cow s) (s_tbin s)
  (s_talloc s) (s_obufs s) (s_obuf s) (s_ibuf s) (s_cf s) (s_stash s) (s_wts s) (s_mem s) (s_alloc s)
  (s_world s) (s_proc s).
Definition with_level s v := mk_sei (s_p s) v (s_core_migration s) (s_cow s) (s_tbin s)
  (s_talloc s) (s_obufs s) (s_obuf s) (s_ibuf s) (s_cf s) (s_stash s) (s_wts s) (s_mem s) (s_alloc s)
  (s_world s) (s_proc s).
Definition with_core_migration s v := mk_sei (s_p s) (s_redundancy_level s) v (s_cow s) (s_tbin s)
  (s_talloc s) (s_obufs s) (s_obuf s) (s_ibuf s) (s_cf s) (s_stash s) (s_wts s) (s_mem s) (s_alloc s)
  (s_world s) (s_proc s).
Definition with_cow s v := mk_sei (s_p s) (s_redundancy_level s) (s_core_migration s) v (s_tbin s)
  (s_talloc s) (s_obufs s) (s_obuf s) (s_ibuf s) (s_cf s) (s_stash s) (s_wts s) (s_mem s) (s_alloc s)
  (s_world s) (s_proc s).
Definition with_tbin s v := mk_sei (s_p s) (s_redundancy_level s) (s_core_migration s) (s_cow s) v
  (s_talloc s) (s_obufs s) (s_obuf s) (s_ibuf s) (s_cf s) (s_stash s) (s_wts s) (s_mem s) (s_alloc s)
  (s_world s) (s_proc s).
Definition with_talloc s v := mk_sei (s_p s) (s_redundancy_level s) (s_core_migration s) (s_cow s)
  (s_tbin s) v (s_obufs s) (s_obuf s) (s_ibuf s) (s_cf s) (s_stash s) (s_wts s) (s_mem s) (s_alloc s)
  (s_world s) (s_proc s).
Definition with_obufs s v := mk_sei (s_p s) (s_redundancy_level s) (s_core_migration s) (s_cow s)
  (s_tbin s) (s_talloc s) v (s_obuf s) (s_ibuf s) (s_cf s) (s_stash s) (s_wts s) (s_mem s) (s_alloc s)
  (s_world s) (s_proc s).
Definition with_obuf s v := mk_sei (s_p s) (s_redundancy_level s) (s_core_migration s) (s_cow s)
  (s_tbin s) (s_talloc s) (s_obufs s) v (s_ibuf s) (s_cf s) (s_stash s) (s_wts s) (s_mem s) (s_alloc s)
  (s_world s) (s_proc s).
Definition with_ibuf s v := mk_sei (s_p s) (s_redundancy_level s) (s_core_migration s) (s_cow s)
  (s_tbin s) (s_talloc s) (s_obufs s) (s_obuf s) v (s_cf s) (s_stash s) (s_wts s) (s_mem s) (s_alloc s)
  (s_world s) (s_proc s).
Definition with_cf s v := mk_sei (s_p s) (s_redundancy_level s) (s_core_migration s) (s_cow s)
  (s_tbin s) (s_talloc s) (s_obufs s) (s_obuf s) (s_ibuf s) v (s_stash s) (s_wts s) (s_mem s) (s_alloc s)
  (s_world s) (s_proc s).
Definition with_stash s v := mk_sei (s_p s) (s_redundancy_level s) (s_core_migration s) (s_cow s)
  (s_tbin s) (s_talloc s) (s_obufs s) (s_obuf s) (s_ibuf s) (s_cf s) v (s_wts s) (s_mem s) (s_alloc s)
  (s_world s) (s_proc s).
Definition with_wts s v := mk_sei (s_p s) (s_redundancy_level s) (s_core_migration s) (s_cow s)
  (s_tbin s) (s_talloc s) (s_obufs s) (s_obuf s) (s_ibuf s) (s_cf s) (s_stash s) v (s_mem s) (s_alloc s)
  (s_world s) (s_proc s).
Definition with_mem s (v : mem) := mk_sei (s_p s) (s_redundancy_level s) (s_core_migration s) (s_cow s)
  (s_tbin s) (s_talloc s) (s_obufs s) (s_obuf s) (s_ibuf s) (s_cf s) (s_stash s) (s_wts s) v (s_alloc s)
  (s_world s) (s_proc s).
Definition with_alloc s (v : S) : sei S W := mk_sei (s_p s) (s_redundancy_level s) (s_core_migration s) (s_cow s)
  (s_tbin s) (s_talloc s) (s_obufs s) (s_obuf s) (s_ibuf s) (s_cf s) (s_stash s) (s_wts s) (s_mem s) v
  (s_world s) (s_proc s).
Definition with_world s (v : W) : sei S W := mk_sei (s_p s) (s_redundancy_level s) (s_core_migration s) (s_cow s)
  (s_tbin s) (s_talloc s) (s_obufs s) (s_obuf s) (s_ibuf s) (s_cf s) (s_stash s) (s_wts s) (s_mem s)
  (s_alloc s) v (s_proc s).
Definition with_proc s v := mk_sei (s_p s) (s_redundancy_level s) (s_core_migration s) (s_cow s)
  (s_tbin s) (s_talloc s) (s_obufs s) (s_obuf s) (s_ibuf s) (s_cf s) (s_stash s) (s_wts s) (s_mem s)
  (s_alloc s) (s_world s) v.

End Setters.

Section Sei.
Context `{Build} {S W : Type} `{Allocator S}.
Context (crc32c : Z -> Z -> list Z -> Z).
Context (crc_run : Z -> nat -> Z -> list Z -> Z) (SEI_CRC_REDUNDANCY : nat).
Context (setaffinity : Z -> Z -> Z * Z).
Context (call : Z -> list Z -> W -> W).

(** The build option SEI_CPU_ISOLATION (with SEI_CRC_MIGRATE_CORES). *)
Context (isolation : option bool).

Implicit Types s : sei S W.

(** ** Constructor *)

(** Fields [malloc] leaves indeterminate (the control-flow flags) are RESET. *)
Definition sei_init (m : mem) (al : S) (w : W) (pr : proc) : outcome (sei S W) :=
  tb ← tbin_init TBIN_SIZE;
  wt ← wts_init SC_MAX_CALLS;
  Ret (mk_sei (-1) SEI_DMR_REDUNDANCY false
         (replicate SEI_DMR_MAX_REDUNDANCY (abuf_init COW_SIZE)) tb talloc_init
         [obuf_init OBUF_SIZE] 0 ibuf_init
         (replicate SEI_DMR_MAX_REDUNDANCY (mk_cfc RESET RESET RESET RESET))
         (stash_init 0%nat) wt m al w pr).

(** ** The current output buffer *)

Definition cur_obuf s : outcome obuf := arr_get (s_obufs s) (s_obuf s).
Definition set_cur_obuf s (o : obuf) : outcome (sei S W) :=
  os ← arr_set (s_obufs s) (s_obuf s) o; Ret (with_obufs s os).

(** ** Settings *)

Definition sei_set_redundancy s (level : nat) : outcome (sei S W) :=
  c_assert ((2 <=? level) && (level <=? SEI_DMR_REDUNDANCY))%nat;;
  c_assert (s_p s =? -1);;
  let s := with_level s level in
  let t := s_talloc s in
  let s := with_talloc s (mk_talloc (ta_p t) level (ta_allocations t) (ta_size t)) in
  let b := s_tbin s in
  let s := with_tbin s (mk_tbin (tb_max_items b) level (tb_nitems b) (tb_items b)) in
  o ← cur_obuf s;
  set_cur_obuf s (mk_obuf (ob_queue o) (ob_p o) level).

Definition sei_get_redundancy s : nat := s_redundancy_level s.

Definition sei_set_core_migration s (enable : bool) : outcome (sei S W) :=
  c_assert (s_p s =? -1);;
  Ret (with_core_migration s enable).

(** ** Traversal control *)

(** [None] when the fuel of the recovery loop of [ibuf_prepare] runs out. *)
Definition sei_prepare (fuel : nat) s (ptr size crc : Z) (ro : bool)
  : option (outcome (bool * sei S W)) :=
  match (c_assert (negb (ptr =? 0));; c_assert (s_p s =? -1)) with
  | Stop e => Some (Stop e)
  | Ret _ =>
      (fun o => '(ok, b, pr) ← o; Ret (ok, with_proc (with_ibuf s b) pr)) <$>
      ibuf_prepare crc_run SEI_CRC_REDUNDANCY setaffinity isolation fuel (s_mem s) (s_ibuf s)
        ptr size crc (if ro then READ_ONLY else READ_WRITE) (s_proc s)
  end.

(** No message to check. *)
Definition sei_prepare_nm (fuel : nat) s : option (outcome (sei S W)) :=
  (fun o => '(_, b, pr) ← o; Ret (with_proc (with_ibuf s b) pr)) <$>
  ibuf_prepare crc_run SEI_CRC_REDUNDANCY setaffinity isolation fuel (s_mem s) (s_ibuf s)
    0 0 crc_init READ_ONLY (s_proc s).

Definition sei_get_core_migration s : bool := s_core_migration s.

(** Reset the control-flow flags of the phases in use. *)
Definition reset_cf (level : nat) (cf : list cfc) : outcome (list cfc) :=
  for_range level 0 (fun i cf => c ← arr_get cf i; arr_set cf i (cfc_reset c)) cf.

Definition sei_begin s : outcome (sei S W) :=
  if s_p s =? -1 then
    let s := with_p s 0 in
    cf ← reset_cf (s_redundancy_level s) (s_cf s);
    Ret (with_cf s cf)
  else Ret s.

Definition sei_switch s : outcome (sei S W) :=
  c_assert ((0 <=? s_p s) && (s_p s <? Z.of_nat (s_redundancy_level s) - 1));;
  let s := with_p s (s_p s + 1) in
  t ← talloc_switch (s_talloc s);
  let s := with_talloc s t in
  o ← cur_obuf s;
  s ← set_cur_obuf s (obuf_close o);
  let '(ib, pr) := ibuf_switch crc_run (s_mem s) (s_ibuf s) (s_proc s) in
  let s := with_proc (with_ibuf s ib) pr in
  let prev_phase := s_p s - 1 in
  a ← arr_getZ (s_cow s) prev_phase;
  '(a', m') ← abuf_swap a (s_mem s);
  cow ← arr_setZ (s_cow s) prev_phase a';
  Ret (with_mem (with_cow s cow) m').

(** [cfc_alog] then [cfc_amog] of every phase; stop at the first failure. *)
Fixpoint cf_gates (n i : nat) (cf : list cfc) : outcome (bool * list cfc) :=
  match n with
  | O => Ret (true, cf)
  | Datatypes.S n' =>
      c ← arr_get cf i;
      let '(r, c') := cfc_amog (cfc_alog c) in
      cf' ← arr_set cf i c';
      if negb r then Ret (false, cf') else cf_gates n' (i + 1) cf'
  end.

(** The buffer comparison of [sei_commit]. *)
Definition compare_cows (m : mem) (cow : list abuf) (level : nat) : outcome (list abuf) :=
  if (level =? 2)%nat then
    a0 ← arr_get cow 0; a1 ← arr_get cow 1;
    '(a0', a1') ← abuf_cmp_heap m a0 a1;
    cow' ← arr_set cow 0 a0'; arr_set cow' 1 a1'
  else abuf_cmp_heap_nway m cow level.

Definition clean_cows (level : nat) (cow : list abuf) : outcome (list abuf) :=
  for_range level 0 (fun i cow => a ← arr_get cow i; arr_set cow i (abuf_clean a)) cow.

Definition rewind_cows (level : nat) (cow : list abuf) : outcome (list abuf) :=
  for_range level 0 (fun i cow => a ← arr_get cow i; arr_set cow i (abuf_rewind a)) cow.

(** [assert (0)] without SEI_CPU_ISOLATION, [abort()] with it. *)
Definition final_check (ok : bool) : outcome unit :=
  if ok then Ret tt
  else match isolation with Some _ => Stop Aborted | None => c_assert false end.

Definition sei_commit s : outcome (sei S W) :=
  let level := s_redundancy_level s in
  let s := with_p s (-1) in
  s ← match isolation with
      | Some _ => Ret s
      | None =>
          '(ok, cf) ← cf_gates level 0 (s_cf s);
          fail_ifn ok "control flow error";;
          cow ← compare_cows (s_mem s) (s_cow s) level;
          Ret (with_cow (with_cf s cf) cow)
      end;
  cow ← clean_cows level (s_cow s);
  let s := with_cow s cow in
  '(wt, world) ← wts_flush call (s_wts s) (s_world s);
  let s := with_world (with_wts s wt) world in
  '(tb, al) ← tbin_flush (s_tbin s) (s_alloc s);
  let s := with_alloc (with_tbin s tb) al in
  t ← talloc_clean (s_talloc s);
  let s := with_talloc s t in
  o ← cur_obuf s;
  s ← set_cur_obuf s (obuf_close o);
  for_range level 0 (fun i _ => c ← arr_get (s_cf s) i; final_check (cfc_check c)) tt;;
  '(ok, pr) ← ibuf_correct crc_run (s_mem s) (s_ibuf s) (s_proc s);
  final_check ok;;
  Ret (with_proc s pr).

Definition sei_getp s : Z := s_p s.
Definition sei_setp s (p : Z) : sei S W := with_p s p.

(** [sei_shift(sei, handle)]: [None] is the argument -1 (a new context). *)
Definition sei_shift s (handle : option nat) : outcome (nat * sei S W) :=
  match handle with
  | None =>
      let s := if negb (stash_size (s_stash s) =? 0)%nat
               then with_obuf (with_obufs s (s_obufs s ++ [obuf_init OBUF_SIZE]))
                              (length (s_obufs s))
               else s in
      '(h, st) ← stash_add 0%nat (s_stash s) (s_obuf s);
      Ret (h, with_stash s st)
  | Some h =>
      o ← stash_get (s_stash s) h;
      Ret (h, with_obuf s o)
  end.

(** ** Memory *)

Definition sei_malloc s (size : Z) : outcome (Z * sei S W) :=
  '(ptr, t, al) ← talloc_malloc (s_talloc s) (s_alloc s) size;
  Ret (ptr, with_alloc (with_talloc s t) al).

Definition sei_free s (ptr : Z) : outcome (sei S W) :=
  b ← tbin_add (s_tbin s) ptr (s_p s);
  Ret (with_tbin s b).

(** Outside a traversal the C library's allocator is used; the functions of the heap
    mode only fail their assertion. *)
Definition sei_malloc2 s (size : Z) : outcome (Z * sei S W) :=
  '(ptr, al) ← al_malloc (s_alloc s) size; Ret (ptr, with_alloc s al).
Definition sei_calloc s (nmemb size : Z) : outcome (Z * sei S W) := c_assert false;; Ret (0, s).
Definition sei_free2 s (ptr1 ptr2 : Z) : outcome (sei S W) := c_assert false;; Ret s.
Definition sei_other s (addr : Z) : outcome Z := c_assert false;; Ret 0.
Definition sei_memcpy2 s (dest src n : Z) : outcome (Z * sei S W) := c_assert false;; Ret (0, s).
Definition sei_get_wts s : wts := s_wts s.

(** [sei_read_TYPE], [sei_write_TYPE] *)
Definition sei_read (t : cty) s (addr : Z) : Z := load (sizeof t) (s_mem s) addr.

Definition sei_write (t : cty) s (addr value : Z) : outcome (sei S W) :=
  c_assert ((0 <=? s_p s) && (s_p s <? Z.of_nat SEI_DMR_REDUNDANCY));;
  a ← arr_getZ (s_cow s) (s_p s);
  '(a', m') ← log_write t addr value (a, s_mem s);
  cow ← arr_setZ (s_cow s) (s_p s) a';
  Ret (with_mem (with_cow s cow) m').

(** ** Output *)

Definition sei_output_append s (ptr : Z) (data : list Z) : outcome (sei S W) :=
  if s_p s =? -1 then Ret s
  else o ← cur_obuf s; o' ← obuf_push crc32c o ptr data; set_cur_obuf s o'.

Definition sei_output_done s : outcome (sei S W) :=
  if s_p s =? -1 then Ret s
  else o ← cur_obuf s; o' ← obuf_done o; set_cur_obuf s o'.

(** [obuf_size] is evaluated inside an [assert]. *)
Definition sei_output_next s : outcome (Z * sei S W) :=
  c_assert (s_p s =? -1);;
  o ← cur_obuf s;
  (if NDEBUG then Ret tt else n ← obuf_size o; c_assert (0 <? n));;
  '(crc, o') ← obuf_pop o;
  s ← set_cur_obuf s o';
  Ret (crc, s).

(** ** Rollback and non-destructive commit (SEI_CPU_ISOLATION) *)

Definition sei_rollback s : outcome (sei S W) :=
  let level := s_redundancy_level s in
  a0 ← arr_get (s_cow s) 0;
  '(a0', m') ← abuf_restore_filtered (talloc_addr_in_range (s_talloc s)) a0 (s_mem s);
  cow ← arr_set (s_cow s) 0 a0';
  cow ← clean_cows level cow;
  let s := with_mem (with_cow s cow) m' in
  tb ← tbin_reset (s_tbin s);
  let s := with_tbin s tb in
  '(t, al) ← talloc_rollback (s_talloc s) (s_alloc s);
  let s := with_alloc (with_talloc s t) al in
  o ← cur_obuf s;
  o' ← obuf_reset o;
  s ← set_cur_obuf s o';
  let s := with_ibuf s (ibuf_reset (s_ibuf s)) in
  wt ← wts_reset (s_wts s);
  let s := with_wts s wt in
  let s := with_p s 0 in
  cf ← reset_cf level (s_cf s);
  Ret (with_cf s cf).

(** The comparison of [sei_try_commit]. *)
Definition try_compare_cows (m : mem) (cow : list abuf) (level : nat) : outcome (bool * list abuf) :=
  if (level =? 2)%nat then
    a0 ← arr_get cow 0; a1 ← arr_get cow 1;
    '(v, a0', a1') ← abuf_try_cmp_heap m a0 a1;
    cow ← arr_set cow 0 a0'; cow ← arr_set cow 1 a1';
    Ret (v, cow)
  else v ← abuf_try_cmp_heap_nway m cow level; Ret (v, cow).

Definition sei_try_commit s : outcome (bool * sei S W) :=
  let level := s_redundancy_level s in
  c_assert (s_p s =? Z.of_nat level - 1);;
  cow ← rewind_cows level (s_cow s);
  '(ok, cow) ← try_compare_cows (s_mem s) cow level;
  let s := with_cow s cow in
  if negb ok then Ret (false, s) else
  '(ok, cf) ← cf_gates level 0 (s_cf s);
  let s := with_cf s cf in
  if negb ok then Ret (false, s) else
  '(ok, pr) ← ibuf_correct crc_run (s_mem s) (s_ibuf s) (s_proc s);
  let s := with_proc s pr in
  if negb ok then Ret (false, s) else
  ok ← wts_can_flush (s_wts s);
  if negb ok then Ret (false, s) else
  ok ← tbin_can_flush (s_tbin s);
  if negb ok then Ret (false, s) else
  Ret (true, s).

End Sei.
