(* ===== verification/SeiTrace.v ===== *)
(** * Executions of a handler

    One execution of a handler, as the library sees it: the sequence of calls
    the instrumented code makes.  An execution on a faulty core may be any
    sequence.  [phase_state] describes what a sequence executed in phase [p] did
    to every component of the driver's state. *)

From S2P Require Export Sei.

Inductive op :=
  | OWrite (t : cty) (addr value : Z)
  | OMalloc (size : Z)
  | OFree (ptr : Z)
  | OCall (fp : Z) (args : list Z)
  | OAppend (ptr : Z) (data : list Z)
  | ODone.

Definition writes (ops : list op) : list wr :=
  omap (fun o => match o with OWrite t a v => Some (mk_wr t a v) | _ => None end) ops.
Definition frees (ops : list op) : list Z :=
  omap (fun o => match o with OFree p => Some p | _ => None end) ops.
Definition calls (ops : list op) : list (Z * list Z) :=
  omap (fun o => match o with OCall f a => Some (f, a) | _ => None end) ops.
Definition mallocs (ops : list op) : nat :=
  length (omap (fun o => match o with OMalloc n => Some n | _ => None end) ops).

Lemma undo_log_app ws1 ws2 m :
  undo_log (ws1 ++ ws2) m = undo_log ws1 m ++ undo_log ws2 (replay ws1 m).
Proof.
  revert m. induction ws1 as [|w ws IH]; intros m; [done|]. cbn. by rewrite IH, replay_cons.
Qed.

Section Trace.
Context `{Build} {S W : Type} `{Allocator S}.
Context (crc32c : Z -> Z -> list Z -> Z).
Implicit Types (s : sei S W) (ops : list op).

(** A wrapped system call: [wts_add(sei_get_wts(sei), sei_getp(sei), fp, ...)]. *)
Definition sei_delay_call s (fp : Z) (args : list Z) : outcome (sei S W) :=
  w ← wts_add (s_wts s) (s_p s) fp args; Ret (with_wts s w).

Definition exec_op (o : op) s : outcome (sei S W) :=
  match o with
  | OWrite t addr value => sei_write t s addr value
  | OMalloc size => '(_, s') ← sei_malloc s size; Ret s'
  | OFree ptr => sei_free s ptr
  | OCall fp args => sei_delay_call s fp args
  | OAppend ptr data => sei_output_append crc32c s ptr data
  | ODone => sei_output_done s
  end.

Fixpoint exec_ops ops s : outcome (sei S W) :=
  match ops with
  | [] => Ret s
  | o :: ops' => s' ← exec_op o s; exec_ops ops' s'
  end.

(** ** Invariant of a phase *)

(** The structural well-formedness of the components. *)
Record sei_wf s : Prop := {
  sw_dmr : (2 <= SEI_DMR_REDUNDANCY <= SEI_DMR_MAX_REDUNDANCY)%nat;
  sw_level : (2 <= s_redundancy_level s <= SEI_DMR_REDUNDANCY)%nat;
  sw_cow : length (s_cow s) = SEI_DMR_MAX_REDUNDANCY;
  sw_cf : length (s_cf s) = SEI_DMR_MAX_REDUNDANCY;
  sw_tbin : tbin_wf (s_tbin s) /\ tb_redundancy_level (s_tbin s) = s_redundancy_level s;
  sw_talloc : talloc_wf (s_talloc s) /\ ta_redundancy_level (s_talloc s) = s_redundancy_level s;
  sw_wts : wts_wf (s_wts s);
}.

(** [s] is the state after executing [ops] in phase [p] from [s0]. *)
Record phase_state s0 (p : nat) ops s : Prop := {
  ps_wf : sei_wf s;
  ps_p : s_p s = Z.of_nat p;
  ps_pb : (p < s_redundancy_level s0)%nat;
  ps_tp : ta_p (s_talloc s) = p;
  ps_level : s_redundancy_level s = s_redundancy_level s0;
  ps_ibuf : s_ibuf s = s_ibuf s0;
  ps_cf : s_cf s = s_cf s0;
  ps_world : s_world s = s_world s0;
  ps_proc : s_proc s = s_proc s0;
  ps_mem : s_mem s = replay (writes ops) (s_mem s0);
  ps_log : exists a, s_cow s = <[p := a]> (s_cow s0) /\ poped a = 0%nat /\
    log_rel a (undo_log (writes ops) (s_mem s0));
  ps_freed : forall q, freed (s_tbin s) q =
    if decide (q = p) then freed (s_tbin s0) q ++ frees ops else freed (s_tbin s0) q;
  ps_queued : forall q, queued (s_wts s) q =
    if decide (q = p) then queued (s_wts s0) q ++ calls ops else queued (s_wts s0) q;
  ps_count : forall q, count (s_talloc s) q =
    if decide (q = p) then (count (s_talloc s0) q + mallocs ops)%nat else count (s_talloc s0) q;
}.

Lemma phase_state_start s p a : sei_wf s -> s_p s = Z.of_nat p -> (p < s_redundancy_level s)%nat ->
  ta_p (s_talloc s) = p -> s_cow s !! p = Some a -> log_rel a [] -> poped a = 0%nat ->
  phase_state s p [] s.
Proof.
  intros Hwf Hp Hpb Htp Ha Hl Hpo. split; try done.
  - exists a. by rewrite list_insert_id.
  - intros q. case_decide; [by rewrite app_nil_r|done].
  - intros q. case_decide; [by rewrite app_nil_r|done].
  - intros q. case_decide; [cbn; lia|done].
Qed.

(** ** Each call preserves it *)

Lemma cur_obuf_frame s o s' : set_cur_obuf s o = Ret s' ->
  exists os, s' = with_obufs s os.
Proof. unfold set_cur_obuf. intros E. inv_outcome. eauto. Qed.

Lemma phase_state_obufs s0 p ops o s os : phase_state s0 p ops s ->
  (writes [o] = [] /\ frees [o] = [] /\ calls [o] = [] /\ mallocs [o] = 0%nat) ->
  phase_state s0 p (ops ++ [o]) (with_obufs s os).
Proof.
  intros [] (Hw & Hf & Hc & Hm).
  assert (E1 : writes (ops ++ [o]) = writes ops) by (unfold writes in *; by rewrite omap_app, Hw, app_nil_r).
  assert (E2 : frees (ops ++ [o]) = frees ops) by (unfold frees in *; by rewrite omap_app, Hf, app_nil_r).
  assert (E3 : calls (ops ++ [o]) = calls ops) by (unfold calls in *; by rewrite omap_app, Hc, app_nil_r).
  assert (E4 : mallocs (ops ++ [o]) = mallocs ops)
    by (unfold mallocs in *; rewrite omap_app, length_app; lia).
  split; rewrite ?E1, ?E2, ?E3; try done.
  - by destruct ps_wf0.
  - intros q. rewrite E4. apply ps_count0.
Qed.

Lemma phase_state_write s0 p ops s t addr v s' : phase_state s0 p ops s ->
  sei_write t s addr v = Ret s' -> phase_state s0 p (ops ++ [OWrite t addr v]) s'.
Proof.
  intros [] E. destruct ps_log0 as (a & Hcow & Hpo & Hrel). unfold sei_write in E.
  pose proof (sw_cow _ ps_wf0) as Hlc. pose proof (sw_level _ ps_wf0). pose proof (sw_dmr _ ps_wf0).
  assert (Hlc0 : length (s_cow s0) = SEI_DMR_MAX_REDUNDANCY) by (by rewrite Hcow, length_insert in Hlc).
  assert (Hg : arr_get (s_cow s) p = Ret a).
  { apply arr_get_Ret. rewrite Hcow. apply list_lookup_insert_eq. lia. }
  rewrite ps_p0, arr_getZ_nat, Hg in E. apply bind_Ret in E as (u & _ & E). cbn [mbind outcome_bind] in E.
  destruct (abuf_push_rel t a _ addr (load (sizeof t) (s_mem s) addr) Hrel) as (a' & Ea & Hrel' & _ & Hpo').
  unfold log_write in E. rewrite Ea in E. cbn [mbind outcome_bind] in E.
  rewrite arr_setZ_nat, arr_set_lt in E by lia. injection E as <-.
  rewrite wrap_small in Hrel' by apply load_bound.
  assert (Ew : writes (ops ++ [OWrite t addr v]) = writes ops ++ [mk_wr t addr v])
    by (unfold writes; by rewrite omap_app).
  assert (Ef : frees (ops ++ [OWrite t addr v]) = frees ops) by (unfold frees; by rewrite omap_app, app_nil_r).
  assert (Ec : calls (ops ++ [OWrite t addr v]) = calls ops) by (unfold calls; by rewrite omap_app, app_nil_r).
  assert (Em : mallocs (ops ++ [OWrite t addr v]) = mallocs ops)
    by (unfold mallocs; rewrite omap_app, length_app; cbn; lia).
  split; rewrite ?Ew, ?Ef, ?Ec; try done.
  - destruct ps_wf0. split; try done. cbn. by rewrite length_insert.
  - cbn. rewrite replay_app, <- ps_mem0. done.
  - exists a'. cbn. rewrite Hcow, list_insert_insert_eq. split_and!; [done|congruence|].
    rewrite undo_log_app, <- ps_mem0. done.
  - intros q. rewrite Em. apply ps_count0.
Qed.

Lemma phase_state_malloc s0 p ops s n s' : phase_state s0 p ops s ->
  ('(_, s') ← sei_malloc s n; Ret s') = Ret s' -> phase_state s0 p (ops ++ [OMalloc n]) s'.
Proof.
  intros [] E. unfold sei_malloc in E. apply bind_Ret in E as ([ptr s1] & E & [= <-]).
  apply bind_Ret in E as ([[ptr' t] al] & E & [= <- <-]).
  apply talloc_malloc_Ret in E as (Hwt & Hp & Hl & Hc & Hco); [|apply ps_wf0].
  assert (Ew : writes (ops ++ [OMalloc n]) = writes ops) by (unfold writes; by rewrite omap_app, app_nil_r).
  assert (Ef : frees (ops ++ [OMalloc n]) = frees ops) by (unfold frees; by rewrite omap_app, app_nil_r).
  assert (Ec : calls (ops ++ [OMalloc n]) = calls ops) by (unfold calls; by rewrite omap_app, app_nil_r).
  assert (Em : mallocs (ops ++ [OMalloc n]) = (mallocs ops + 1)%nat)
    by (unfold mallocs; by rewrite omap_app, length_app).
  split; rewrite ?Ew, ?Ef, ?Ec; try done.
  - destruct ps_wf0 as [? ? ? ? ? [? ?] ?]. split; try done. cbn. split; [done|congruence].
  - cbn. congruence.
  - intros q. cbn. rewrite Em. rewrite ps_tp0 in *. specialize (ps_count0 q). case_decide as Hq.
    + subst q. rewrite Hc. lia.
    + by rewrite Hco.
Qed.

Lemma phase_state_free s0 p ops s ptr s' : phase_state s0 p ops s ->
  sei_free s ptr = Ret s' -> phase_state s0 p (ops ++ [OFree ptr]) s'.
Proof.
  intros [] E. unfold sei_free in E. rewrite ps_p0 in E. apply bind_Ret in E as (b & E & [= <-]).
  pose proof (sw_level _ ps_wf0).
  apply tbin_add_Ret in E as (Hwb & Hl & Hf & Hfo); [|apply ps_wf0|lia].
  assert (Ew : writes (ops ++ [OFree ptr]) = writes ops) by (unfold writes; by rewrite omap_app, app_nil_r).
  assert (Ef : frees (ops ++ [OFree ptr]) = frees ops ++ [ptr]) by (unfold frees; by rewrite omap_app).
  assert (Ec : calls (ops ++ [OFree ptr]) = calls ops) by (unfold calls; by rewrite omap_app, app_nil_r).
  assert (Em : mallocs (ops ++ [OFree ptr]) = mallocs ops)
    by (unfold mallocs; rewrite omap_app, length_app; cbn; lia).
  split; rewrite ?Ew, ?Ec, ?Ef; try done.
  - destruct ps_wf0 as [? ? ? ? [? ?] ? ?]. split; try done. cbn. split; [done|congruence].
  - intros q. cbn. specialize (ps_freed0 q). case_decide as Hq.
    + subst q. rewrite Hf, ps_freed0, app_assoc. done.
    + by rewrite Hfo.
  - intros q. rewrite Em. apply ps_count0.
Qed.

Lemma phase_state_call s0 p ops s fp args s' : phase_state s0 p ops s ->
  sei_delay_call s fp args = Ret s' -> phase_state s0 p (ops ++ [OCall fp args]) s'.
Proof.
  intros [] E. unfold sei_delay_call in E. rewrite ps_p0 in E. apply bind_Ret in E as (w & E & [= <-]).
  pose proof (sw_level _ ps_wf0).
  apply wts_add_Ret in E as (Hww & Hf & Hfo); [|apply ps_wf0|lia].
  assert (Ew : writes (ops ++ [OCall fp args]) = writes ops) by (unfold writes; by rewrite omap_app, app_nil_r).
  assert (Ef : frees (ops ++ [OCall fp args]) = frees ops) by (unfold frees; by rewrite omap_app, app_nil_r).
  assert (Ec : calls (ops ++ [OCall fp args]) = calls ops ++ [(fp, args)]) by (unfold calls; by rewrite omap_app).
  assert (Em : mallocs (ops ++ [OCall fp args]) = mallocs ops)
    by (unfold mallocs; rewrite omap_app, length_app; cbn; lia).
  split; rewrite ?Ew, ?Ec, ?Ef; try done.
  - by destruct ps_wf0.
  - intros q. cbn. specialize (ps_queued0 q). case_decide as Hq.
    + subst q. rewrite Hf, ps_queued0, app_assoc. done.
    + by rewrite Hfo.
  - intros q. rewrite Em. apply ps_count0.
Qed.

Lemma phase_state_op s0 p ops o s s' : phase_state s0 p ops s ->
  exec_op o s = Ret s' -> phase_state s0 p (ops ++ [o]) s'.
Proof.
  intros Hs E. destruct o; cbn [exec_op] in E.
  - by eapply phase_state_write.
  - by eapply phase_state_malloc.
  - by eapply phase_state_free.
  - by eapply phase_state_call.
  - unfold sei_output_append in E. rewrite (ps_p _ _ _ _ Hs) in E.
    rewrite (proj2 (Z.eqb_neq _ _)) in E by lia.
    apply bind_Ret in E as (o & _ & E). apply bind_Ret in E as (o' & _ & E).
    apply cur_obuf_frame in E as [os ->]. by apply phase_state_obufs.
  - unfold sei_output_done in E. rewrite (ps_p _ _ _ _ Hs) in E.
    rewrite (proj2 (Z.eqb_neq _ _)) in E by lia.
    apply bind_Ret in E as (o & _ & E). apply bind_Ret in E as (o' & _ & E).
    apply cur_obuf_frame in E as [os ->]. by apply phase_state_obufs.
Qed.

Lemma phase_state_ops s0 p ops' : forall ops s s', phase_state s0 p ops s ->
  exec_ops ops' s = Ret s' -> phase_state s0 p (ops ++ ops') s'.
Proof.
  induction ops' as [|o ops' IH]; intros ops s s' Hs E; cbn [exec_ops] in E.
  { injection E as <-. by rewrite app_nil_r. }
  apply bind_Ret in E as (s1 & E1 & E2). eapply phase_state_op in E1; [|done].
  eapply IH in E2; [|done]. by rewrite <- app_assoc in E2.
Qed.

End Trace.
