(* ===== verification/SeiDmr.v ===== *)
(** * Dual modular redundancy of the driver

    A transaction executes a handler twice between begin and commit.  The two
    executions may be any sequences of calls: this is where a fault shows.
    [transaction_inv] collects what a successful transaction implies for every
    component. *)

From S2P Require Export SeiTrace.

Section Dmr.
Context `{Build} {S W : Type} `{AllocatorLaws S}.
Context (crc32c : Z -> Z -> list Z -> Z).
Context (crc_run : Z -> nat -> Z -> list Z -> Z).
Context (call : Z -> list Z -> W -> W).
Implicit Types (s : sei S W) (ops : list op).

Abbreviation commit := (sei_commit crc_run call None).
Abbreviation switch := (sei_switch crc_run).

(** begin; handler; switch; handler *)
Definition two_executions ops0 ops1 s : outcome (sei S W) :=
  s ← sei_begin s;
  s ← exec_ops crc32c ops0 s;
  s ← switch s;
  exec_ops crc32c ops1 s.

(** ... and commit (build without SEI_CPU_ISOLATION). *)
Definition transaction ops0 ops1 s : outcome (sei S W) :=
  s ← two_executions ops0 ops1 s; commit s.

(** Between transactions. *)
Record idle s : Prop := {
  id_wf : sei_wf s;
  id_p : s_p s = -1;
  id_tp : ta_p (s_talloc s) = 0%nat;
  id_cow : forall i, (i < s_redundancy_level s)%nat ->
    exists a, s_cow s !! i = Some a /\ log_rel a [] /\ poped a = 0%nat;
  id_freed : forall q, (q < s_redundancy_level s)%nat -> freed (s_tbin s) q = [];
  id_queued : forall q, (q < SEI_DMR_REDUNDANCY)%nat -> queued (s_wts s) q = [];
  id_count : forall q, (q < s_redundancy_level s)%nat -> count (s_talloc s) q = 0%nat;
}.

(** ** begin *)

Lemma reset_cf_ok level cf : (level <= length cf)%nat ->
  exists cf', reset_cf level cf = Ret cf' /\ length cf' = length cf /\
    forall i c, (i < level)%nat -> cf' !! i = Some c -> c = mk_cfc RESET RESET RESET RESET.
Proof.
  intros Hl. unfold reset_cf.
  run_loop (fun i (l : list cfc) => length l = length cf /\
    forall j c, (j < i)%nat -> l !! j = Some c -> c = mk_cfc RESET RESET RESET RESET) cf' Hcf;
    [split; [done|lia]| |eauto].
  intros i l Hi [Hlen Hj]. destruct (arr_get_lt l i) as (c & Hc & ->); [lia|]. cbn [mbind outcome_bind].
  rewrite arr_set_lt by lia. eexists. split; [done|]. rewrite length_insert. split; [done|].
  intros j c' Hji [[_ [<- _]]|[Hne Hl']]%list_lookup_insert_Some; [done|]. apply (Hj j); [lia|done].
Qed.

Lemma sei_begin_idle s : idle s -> exists cf, sei_begin s = Ret (with_cf (with_p s 0) cf) /\
  length cf = SEI_DMR_MAX_REDUNDANCY /\
  (forall i c, (i < s_redundancy_level s)%nat -> cf !! i = Some c -> c = mk_cfc RESET RESET RESET RESET) /\
  phase_state (with_cf (with_p s 0) cf) 0 [] (with_cf (with_p s 0) cf).
Proof.
  intros Hs. pose proof (id_wf _ Hs) as Hwf. pose proof (sw_level _ Hwf). pose proof (sw_dmr _ Hwf).
  destruct (reset_cf_ok (s_redundancy_level s) (s_cf s)) as (cf & E & Hl & Hcf); [rewrite (sw_cf _ Hwf); lia|].
  exists cf. split_and!; [| |done|].
  - unfold sei_begin. rewrite (id_p _ Hs), Z.eqb_refl. cbn [with_p s_redundancy_level s_cf].
    by rewrite E.
  - by rewrite Hl, (sw_cf _ Hwf).
  - destruct (id_cow _ Hs 0%nat) as (a & Ha & Hlr & Hpo); [lia|].
    eapply phase_state_start; try done.
    + destruct Hwf. split; try done. cbn. congruence.
    + cbn. lia.
    + cbn. apply (id_tp _ Hs).
Qed.

(** ** switch *)

(** The switch before the previous execution is undone: every build shares it. *)
Definition switch_common s : outcome (sei S W) :=
  c_assert ((0 <=? s_p s) && (s_p s <? Z.of_nat (s_redundancy_level s) - 1));;
  let s := with_p s (s_p s + 1) in
  t ← talloc_switch (s_talloc s);
  let s := with_talloc s t in
  o ← cur_obuf s;
  s ← set_cur_obuf s (obuf_close o);
  let '(ib, pr) := ibuf_switch crc_run (s_mem s) (s_ibuf s) (s_proc s) in
  Ret (with_proc (with_ibuf s ib) pr).

Lemma sei_switch_split s : switch s = (s ← switch_common s;
  let prev_phase := s_p s - 1 in
  a ← arr_getZ (s_cow s) prev_phase;
  '(a', m') ← abuf_swap a (s_mem s);
  cow ← arr_setZ (s_cow s) prev_phase a';
  Ret (with_mem (with_cow s cow) m')).
Proof.
  unfold sei_switch, switch_common. destruct (c_assert _); [|done]. rewrite !bind_Ret_l. cbv zeta. destruct (talloc_switch _); [|done]. rewrite !bind_Ret_l.
  destruct (cur_obuf _); [|done]. rewrite !bind_Ret_l. destruct (set_cur_obuf _ _); [|done]. rewrite !bind_Ret_l. by destruct (ibuf_switch _ _ _ _).
Qed.

Lemma switch_common_inv p s s' : sei_wf s -> s_p s = Z.of_nat p -> ta_p (s_talloc s) = p -> (p + 1 < s_redundancy_level s)%nat ->
  switch_common s = Ret s' ->
  sei_wf s' /\ s_p s' = Z.of_nat (p + 1) /\ s_redundancy_level s' = s_redundancy_level s /\
  ta_p (s_talloc s') = (p + 1)%nat /\ ta_size (s_talloc s') = ta_size (s_talloc s) /\
  s_tbin s' = s_tbin s /\ s_wts s' = s_wts s /\ s_cf s' = s_cf s /\ s_world s' = s_world s /\
  s_mem s' = s_mem s /\ s_cow s' = s_cow s.
Proof.
  intros Hwf Hp Htp0 Hlt E. unfold switch_common in E. apply bind_Ret in E as (u & _ & E).
  apply bind_Ret in E as (t & Et & E). cbn [with_p s_talloc] in Et. destruct (sw_talloc _ Hwf) as [Hwt Htl].
  apply talloc_switch_Ret in Et as (Hwt' & Htp & Htl' & Hts & _); [|done|rewrite Htp0; lia].
  apply bind_Ret in E as (o & _ & E). apply bind_Ret in E as (s1 & Eo & E). apply cur_obuf_frame in Eo as [os ->].
  destruct (ibuf_switch _ _ _ _) as [ib pr]. injection E as <-. cbn. rewrite Hp. split_and!; try done; try lia.
  destruct Hwf as [W1 W2 W3 W4 W5 W6 W7]. split; try done; cbn. split; [done|congruence].
Qed.

(** After the switch the memory is back and the log of the finished phase holds
    the values it wrote. *)
Lemma sei_switch_inv s0 p ops s s' : phase_state s0 p ops s -> (p + 1 < s_redundancy_level s0)%nat ->
  switch s = Ret s' ->
  sei_wf s' /\ s_p s' = Z.of_nat (p + 1) /\ s_redundancy_level s' = s_redundancy_level s0 /\
  ta_p (s_talloc s') = (p + 1)%nat /\ ta_size (s_talloc s') = ta_size (s_talloc s) /\
  s_tbin s' = s_tbin s /\ s_wts s' = s_wts s /\ s_cf s' = s_cf s /\ s_world s' = s_world s /\
  s_mem s' ≈ s_mem s0 /\
  exists a, s_cow s' = <[p := a]> (s_cow s0) /\ log_rel a (norm <$> writes ops) /\ poped a = 0%nat.
Proof.
  intros Hs Hp E. rewrite sei_switch_split in E. apply bind_Ret in E as (s1 & E1 & E).
  destruct (switch_common_inv p s s1 (ps_wf _ _ _ _ Hs) (ps_p _ _ _ _ Hs) (ps_tp _ _ _ _ Hs)) as (Hwf & Hp1 & Hlv & Htp & Hts & Htb & Hwt & Hcf & Hw & Hm & Hc);
    [by rewrite (ps_level _ _ _ _ Hs)|done|]. rewrite (ps_level _ _ _ _ Hs) in Hlv.
  destruct (ps_log _ _ _ _ Hs) as (a & Hcow & Hpo & Hrel). cbv zeta in E. rewrite Hp1, Hm, Hc in E.
  replace (Z.of_nat (p + 1) - 1) with (Z.of_nat p) in E by lia. pose proof (sw_cow _ Hwf) as Hlc. pose proof (sw_level _ Hwf). pose proof (sw_dmr _ Hwf).
  rewrite Hc, Hcow, length_insert in Hlc.
  assert (Hg : arr_get (s_cow s) p = Ret a) by (apply arr_get_Ret; rewrite Hcow; apply list_lookup_insert_eq; lia).
  rewrite arr_getZ_nat, Hg, bind_Ret_l in E. destruct (abuf_swap_rel a _ (s_mem s) Hrel Hpo) as (a' & Ea & Hrel' & _ & Hpo').
  rewrite Ea, bind_Ret_l, arr_setZ_nat, arr_set_lt, bind_Ret_l in E by (rewrite Hcow, length_insert; lia). injection E as <-.
  rewrite (ps_mem _ _ _ _ Hs) in *. destruct (aswap_undo (writes ops) (s_mem s0)) as [E1' E2].
  rewrite E1' in Hrel'. cbn. split_and!; try done.
  - destruct Hwf as [W1 W2 W3 W4 W5 W6 W7]. split; try done; cbn. rewrite length_insert. congruence.
  - exists a'. rewrite Hcow, list_insert_insert_eq. done.
Qed.

(** ** commit *)

(** The part of [abuf_wf] a buffer keeps whatever its counters are. *)
Definition buf_ok (a : abuf) : Prop := length (buf a) = max_size a /\ (0 < max_size a)%nat.

Lemma buf_ok_clean a : buf_ok a -> log_rel (abuf_clean a) [].
Proof. intros [? ?]. split; [|constructor]. split; cbn; lia. Qed.

Lemma log_rel_buf_ok a l : log_rel a l -> buf_ok a.
Proof. by intros [[] _]. Qed.

Lemma clean_cows_ok level cow : (level <= length cow)%nat ->
  (forall i a, (i < level)%nat -> cow !! i = Some a -> buf_ok a) ->
  exists cow', clean_cows level cow = Ret cow' /\ length cow' = length cow /\
    forall i, (i < level)%nat -> exists a, cow' !! i = Some a /\ log_rel a [] /\ poped a = 0%nat.
Proof.
  intros Hl Hwf. unfold clean_cows.
  run_loop (fun i (l : list abuf) => length l = length cow /\
    (forall j a, (j < level)%nat -> l !! j = Some a -> buf_ok a) /\
    forall j, (j < i)%nat -> exists a, l !! j = Some a /\ log_rel a [] /\ poped a = 0%nat) cow' Hc;
    [split_and!; [done|done|lia]| |destruct Hc as (? & _ & ?); eauto].
  intros i l Hi (Hlen & Hw & Hj). destruct (arr_get_lt l i) as (a & Ha & ->); [lia|]. cbn [mbind outcome_bind].
  rewrite arr_set_lt by lia. eexists. split; [done|]. rewrite length_insert.
  pose proof (buf_ok_clean a (Hw i a ltac:(lia) Ha)) as Hcl. split_and!; [done| |].
  - intros j b Hjl [[_ [<- _]]|[_ Hb]]%list_lookup_insert_Some; [by eapply log_rel_buf_ok|eauto].
  - intros j Hji. destruct (decide (j = i)) as [->|].
    + exists (abuf_clean a). rewrite list_lookup_insert_eq by lia. done.
    + destruct (Hj j) as (b & Hb & Hr); [lia|]. exists b. by rewrite list_lookup_insert_ne by done.
Qed.

Lemma cf_gates_length n i cf r cf' : cf_gates n i cf = Ret (r, cf') -> length cf' = length cf.
Proof.
  revert i cf. induction n as [|n IH]; intros i cf E; cbn in E; [by simplify_eq|].
  inv_outcome. destruct (cfc_amog _) as [b c]. inv_outcome.
  destruct b; cbn in *; simplify_eq; [|by rewrite length_insert].
  match goal with X : cf_gates _ _ _ = _ |- _ => apply IH in X; by rewrite length_insert in X end.
Qed.

(** The release of the frees: what the flush says and leaves. *)
Lemma tbin_flush_inv t (al : S) t' al' : tbin_wf t -> tbin_flush t al = Ret (t', al') ->
  tbin_agree t /\ NoDup (freed t 0) /\ (forall q, q ∈ freed t 0 -> q ∈ al_live al) /\
  al_live al' = al_live al ∖ list_to_set (freed t 0) /\ tbin_wf t' /\
  tb_redundancy_level t' = tb_redundancy_level t /\
  (forall p, (p < tb_redundancy_level t)%nat -> freed t' p = []).
Proof.
  intros Hwf E. destruct (tbin_flush_Ret _ _ _ _ Hwf E) as (Hag & Hnd & Hl).
  destruct (tbin_flush_ok _ _ Hwf Hag Hnd Hl) as (t1 & s1 & E1 & Hl1 & Hw1 & Hf1).
  rewrite E in E1. injection E1 as <- <-. split_and!; try done.
  unfold tbin_flush in E. inv_outcome. repeat (case_match; inv_outcome; simplify_eq). done.
Qed.

Lemma wts_flush_inv w world w' world' : wts_wf w -> (1 <= SEI_DMR_REDUNDANCY)%nat ->
  wts_flush call w world = Ret (w', world') ->
  wts_agree w /\ wts_wf w' /\ (forall p, (p < SEI_DMR_REDUNDANCY)%nat -> queued w' p = []) /\
  world' = run_calls call (take (nth 0 (w_nitems w) 0%nat) (w_items w)) world.
Proof.
  intros Hwf Hd E. destruct (wts_flush_spec call w world Hwf Hd) as [Hok Hno].
  destruct (wts_can_flush_decides w Hwf Hd) as ([] & _ & Hb).
  - destruct Hok as (w1 & E1 & Hw1 & Hq1); [by apply Hb|]. rewrite E in E1. injection E1 as <- <-.
    split_and!; [by apply Hb|done|done|done].
  - rewrite Hno in E; [done|]. intros Hag. by apply Hb in Hag.
Qed.

(** The first half of the commit: gates and comparison. *)
Lemma compare_inv m cow a0 a1 l0 l1 cow' :
  cow !! 0%nat = Some a0 -> cow !! 1%nat = Some a1 ->
  log_rel a0 l0 -> log_rel a1 l1 -> poped a0 = 0%nat -> poped a1 = 0%nat ->
  compare_cows m cow 2 = Ret cow' ->
  (exists r, abuf_cmp_heap m a0 a1 = Ret r) /\ length cow' = length cow /\
  forall i a, (i < 2)%nat -> cow' !! i = Some a -> buf_ok a.
Proof.
  intros Ha0 Ha1 Hr0 Hr1 Hp0 Hp1 E. unfold compare_cows in E. cbn [Nat.eqb] in E.
  rewrite (proj2 (arr_get_Ret _ _ _) Ha0), (proj2 (arr_get_Ret _ _ _) Ha1) in E. cbn [mbind outcome_bind] in E.
  apply bind_Ret in E as ([b0 b1] & Ec & E). inv_outcome.
  assert (Hlen : (pushed a0 <= length (buf a0))%nat) by (destruct Hr0 as [[] _]; lia).
  pose proof (abuf_cmp_heap_inv _ _ _ _ Hp0 Hp1 Hlen Ec) as (_ & _ & [= -> ->] & _).
  split_and!; [eauto|by rewrite !length_insert|].
  intros i a Hi [[_ [<- _]]|[Hne1 Ha]]%list_lookup_insert_Some; [by eapply log_rel_buf_ok in Hr1|].
  apply list_lookup_insert_Some in Ha as [[_ [<- _]]|[Hne0 Ha]]; [by eapply log_rel_buf_ok in Hr0|lia].
Qed.

(** The commit after the comparison of the logs, and what it says about the records of
    the executions. *)
Definition commit_flush (isolation : option bool) s : outcome (sei S W) :=
  let level := s_redundancy_level s in
  '(wt, world) ← wts_flush call (s_wts s) (s_world s);
  let s := with_world (with_wts s wt) world in
  '(tb, al) ← tbin_flush (s_tbin s) (s_alloc s);
  let s := with_alloc (with_tbin s tb) al in
  t ← talloc_clean (s_talloc s);
  let s := with_talloc s t in
  o ← cur_obuf s;
  s ← set_cur_obuf s (obuf_close o);
  for_range level 0 (fun i _ => c ← arr_get (s_cf s) i; final_check isolation (cfc_check c)) tt;;
  '(ok, pr) ← ibuf_correct crc_run (s_mem s) (s_ibuf s) (s_proc s);
  final_check isolation ok;;
  Ret (with_proc s pr).

Definition commit_rest (isolation : option bool) s : outcome (sei S W) :=
  cow ← clean_cows (s_redundancy_level s) (s_cow s); commit_flush isolation (with_cow s cow).

Lemma commit_flush_inv iso s s' : sei_wf s -> s_p s = -1 ->
  (forall i, (i < s_redundancy_level s)%nat -> exists a, s_cow s !! i = Some a /\ log_rel a [] /\ poped a = 0%nat) ->
  commit_flush iso s = Ret s' ->
  s_mem s' = s_mem s /\ wts_agree (s_wts s) /\ tbin_agree (s_tbin s) /\ NoDup (freed (s_tbin s) 0) /\
  (forall q, q ∈ freed (s_tbin s) 0 -> q ∈ al_live (s_alloc s)) /\
  al_live (s_alloc s') = al_live (s_alloc s) ∖ list_to_set (freed (s_tbin s) 0) /\
  (forall q, (q < s_redundancy_level s)%nat -> count (s_talloc s) q = count (s_talloc s) 0) /\
  s_world s' = run_calls call (take (nth 0 (w_nitems (s_wts s)) 0%nat) (w_items (s_wts s))) (s_world s) /\
  idle s'.
Proof.
  intros Hwf Hp Hcl E.
  pose proof (sw_dmr _ Hwf) as Hd. pose proof (sw_level _ Hwf) as Hlv. destruct (sw_tbin _ Hwf) as [Hwb Hbl].
  destruct (sw_talloc _ Hwf) as [Hwt Htl]. pose proof (sw_wts _ Hwf) as Hww. unfold commit_flush in E.
  apply bind_Ret in E as ([wt world] & Ew & E).
  apply wts_flush_inv in Ew as (Hag & Hww' & Hq & ->); [|done|lia].
  apply bind_Ret in E as ([tb al] & Etb & E). cbn [with_wts with_world s_tbin s_alloc] in Etb.
  apply tbin_flush_inv in Etb as (Hbag & Hnd & Hbl' & Hal & Hwb' & Hlb' & Hf); [|done].
  apply bind_Ret in E as (t & Et & E). cbn [with_wts with_world with_tbin with_alloc s_talloc] in Et.
  apply talloc_clean_Ret in Et as (Hc & Hwt' & Htp & Htl' & Hcz); [|done].
  apply bind_Ret in E as (o & _ & E). apply bind_Ret in E as (s2 & Eo & E).
  apply cur_obuf_frame in Eo as [os ->].
  apply bind_Ret in E as (u1 & _ & E). apply bind_Ret in E as ([ok' pr] & _ & E).
  apply bind_Ret in E as (u2 & _ & [= <-]).
  cbn. split_and!; try done; [intros q Hq'; apply Hc; lia|].
  split; cbn; try done.
  - destruct Hwf as [W1 W2 W3 W4 W5 W6 W7]. split; cbn; try done; (split; [done|congruence]).
  - intros q Hq'. apply Hf. lia.
  - intros q Hq'. apply Hcz. lia.
Qed.

Lemma commit_rest_inv iso s s' : sei_wf s -> s_p s = -1 ->
  (forall i a, (i < s_redundancy_level s)%nat -> s_cow s !! i = Some a -> buf_ok a) ->
  commit_rest iso s = Ret s' ->
  s_mem s' = s_mem s /\ wts_agree (s_wts s) /\ tbin_agree (s_tbin s) /\ NoDup (freed (s_tbin s) 0) /\
  (forall q, q ∈ freed (s_tbin s) 0 -> q ∈ al_live (s_alloc s)) /\
  al_live (s_alloc s') = al_live (s_alloc s) ∖ list_to_set (freed (s_tbin s) 0) /\
  (forall q, (q < s_redundancy_level s)%nat -> count (s_talloc s) q = count (s_talloc s) 0) /\
  s_world s' = run_calls call (take (nth 0 (w_nitems (s_wts s)) 0%nat) (w_items (s_wts s))) (s_world s) /\
  idle s'.
Proof.
  intros Hwf Hp Hbok E. pose proof (sw_dmr _ Hwf) as Hd. pose proof (sw_level _ Hwf) as Hlv. apply bind_Ret in E as (cow1 & Ecl & E).
  destruct (clean_cows_ok (s_redundancy_level s) (s_cow s)) as (cow2 & Ecl2 & Hlc2 & Hcl); [rewrite (sw_cow _ Hwf); lia|done|].
  rewrite Ecl in Ecl2. injection Ecl2 as <-. apply (commit_flush_inv iso (with_cow s cow1)); [|done|done|done].
  destruct Hwf. split; cbn; congruence.
Qed.

(** The whole commit.  What the comparison says is left to the level: [Hcow] is what
    the rest needs of it. *)
Lemma sei_commit_parts s s' : sei_wf s ->
  (forall cow', compare_cows (s_mem s) (s_cow s) (s_redundancy_level s) = Ret cow' ->
     length cow' = length (s_cow s) /\ forall i a, (i < s_redundancy_level s)%nat -> cow' !! i = Some a -> buf_ok a) ->
  commit s = Ret s' ->
  s_mem s' = s_mem s /\ (exists cow', compare_cows (s_mem s) (s_cow s) (s_redundancy_level s) = Ret cow') /\
  wts_agree (s_wts s) /\ tbin_agree (s_tbin s) /\ NoDup (freed (s_tbin s) 0) /\
  (forall q, q ∈ freed (s_tbin s) 0 -> q ∈ al_live (s_alloc s)) /\
  al_live (s_alloc s') = al_live (s_alloc s) ∖ list_to_set (freed (s_tbin s) 0) /\
  (forall q, (q < s_redundancy_level s)%nat -> count (s_talloc s) q = count (s_talloc s) 0) /\
  s_world s' = run_calls call (take (nth 0 (w_nitems (s_wts s)) 0%nat) (w_items (s_wts s))) (s_world s) /\
  idle s'.
Proof.
  intros Hwf Hcow E. unfold sei_commit in E.
  apply bind_Ret in E as (s1 & E1 & E). apply bind_Ret in E1 as ([ok cf] & Ecf & E1).
  apply bind_Ret in E1 as (u & _ & E1). apply bind_Ret in E1 as (cow & Ecow & [= <-]).
  cbn [with_p s_cf] in Ecf. apply cf_gates_length in Ecf.
  cbn [with_p s_mem s_cow] in Ecow. destruct (Hcow _ Ecow) as [Hlc Hbok].
  set (s1 := with_cow (with_cf (with_p s (-1)) cf) cow) in *.
  assert (Hwf1 : sei_wf s1) by (destruct Hwf; split; cbn; congruence).
  destruct (commit_rest_inv None s1 s' Hwf1 eq_refl Hbok E) as (? & ? & ? & ? & ? & ? & ? & ? & ?).
  split_and!; eauto.
Qed.

(** The same for two executions. *)
Lemma sei_commit_inv s s' a0 a1 l0 l1 : sei_wf s -> s_redundancy_level s = 2%nat ->
  s_cow s !! 0%nat = Some a0 -> s_cow s !! 1%nat = Some a1 ->
  log_rel a0 l0 -> log_rel a1 l1 -> poped a0 = 0%nat -> poped a1 = 0%nat ->
  commit s = Ret s' ->
  s_mem s' = s_mem s /\ (exists r, abuf_cmp_heap (s_mem s) a0 a1 = Ret r) /\
  wts_agree (s_wts s) /\ tbin_agree (s_tbin s) /\ NoDup (freed (s_tbin s) 0) /\
  (forall q, q ∈ freed (s_tbin s) 0 -> q ∈ al_live (s_alloc s)) /\
  al_live (s_alloc s') = al_live (s_alloc s) ∖ list_to_set (freed (s_tbin s) 0) /\
  count (s_talloc s) 1 = count (s_talloc s) 0 /\
  s_world s' = run_calls call (take (nth 0 (w_nitems (s_wts s)) 0%nat) (w_items (s_wts s))) (s_world s) /\
  idle s'.
Proof.
  intros Hwf Hlv Ha0 Ha1 Hr0 Hr1 Hp0 Hp1 E.
  destruct (sei_commit_parts s s' Hwf) as (Hm & [cow' Ecow] & Hw & Hb & Hnd & Hl & Hal & Hc & Hworld & Hidle); [|exact E|].
  - rewrite Hlv. intros cow' Ecow. by apply (compare_inv _ _ _ _ _ _ _ Ha0 Ha1 Hr0 Hr1 Hp0 Hp1) in Ecow as (_ & ? & ?).
  - rewrite Hlv in Ecow. apply (compare_inv _ _ _ _ _ _ _ Ha0 Ha1 Hr0 Hr1 Hp0 Hp1) in Ecow as (Hcmp & _).
    split_and!; try done. apply Hc. rewrite Hlv. lia.
Qed.

(** ** The transaction *)

Lemma shapes_of_addrs ws0 ws1 m :
  w_ty <$> ws0 = w_ty <$> ws1 ->
  (forall i w1 w2, (norm <$> ws0) !! i = Some w1 -> undo_log ws1 m !! i = Some w2 -> w_addr w1 = w_addr w2) ->
  shape <$> ws0 = shape <$> ws1.
Proof.
  intros Ht Ha. apply list_eq. intros i. rewrite !list_lookup_fmap.
  assert (Hi : (w_ty <$> ws0) !! i = (w_ty <$> ws1) !! i) by (by rewrite Ht).
  rewrite !list_lookup_fmap in Hi. destruct (ws0 !! i) as [w0|] eqn:E0, (ws1 !! i) as [w1|] eqn:E1; try done.
  cbn in *. injection Hi as Hi. f_equal. unfold shape. f_equal; [done|].
  destruct (shape_lookup ws1 (undo_log ws1 m) i w1) as (u & Hu & _ & Hua); [by rewrite undo_log_shape|done|].
  rewrite <- Hua. apply (Ha i (norm w0) u); [|done]. by rewrite list_lookup_fmap, E0.
Qed.

(** Two logs accepted by the comparison: the memory is what either execution
    alone would have produced. *)
Lemma accepted_replay ws0 ws1 m0 m : shape <$> ws0 = shape <$> ws1 -> separated ws0 ->
  m ≈ replay ws1 m0 ->
  (forall i w, last_for (norm <$> ws0) i w -> load (w_size w) m (w_addr w) = w_val w) ->
  m ≈ replay ws0 m0.
Proof.
  intros Hsh Hsep Hm Hlast. rewrite <- replay_norm. apply replay_determined.
  - eapply separated_shape; [|exact Hsep]. by rewrite norm_shape.
  - intros b Hb. rewrite (Hm b). apply (replay_out_shape (norm <$> ws0)); [|done].
    by rewrite norm_shape.
  - intros i w Hw. rewrite (Hlast i w Hw). destruct Hw as [Hw _].
    rewrite list_lookup_fmap in Hw. destruct (ws0 !! i); [|done]. injection Hw as <-.
    symmetry. apply wrap_small, wrap_bound.
Qed.

(** The state in which the second execution ends. *)
Lemma two_executions_inv ops0 ops1 s s4 : idle s -> s_redundancy_level s = 2%nat ->
  two_executions ops0 ops1 s = Ret s4 ->
  exists s3 a0 a1, s_mem s3 ≈ s_mem s /\ s_world s4 = s_world s /\
    sei_wf s4 /\ s_redundancy_level s4 = 2%nat /\
    s_mem s4 = replay (writes ops1) (s_mem s3) /\
    s_cow s4 !! 0%nat = Some a0 /\ log_rel a0 (norm <$> writes ops0) /\ poped a0 = 0%nat /\
    s_cow s4 !! 1%nat = Some a1 /\ log_rel a1 (undo_log (writes ops1) (s_mem s3)) /\ poped a1 = 0%nat /\
    freed (s_tbin s4) 0 = frees ops0 /\ freed (s_tbin s4) 1 = frees ops1 /\
    queued (s_wts s4) 0 = calls ops0 /\ queued (s_wts s4) 1 = calls ops1 /\
    count (s_talloc s4) 0 = mallocs ops0 /\ count (s_talloc s4) 1 = mallocs ops1.
Proof.
  intros Hs Hlv E. unfold two_executions in E.
  destruct (sei_begin_idle s Hs) as (cf & Eb & _ & _ & Hp0). rewrite Eb in E. cbn [mbind outcome_bind] in E.
  apply bind_Ret in E as (s2 & E0 & E). eapply phase_state_ops in E0; [|done]. cbn [app] in E0.
  apply bind_Ret in E as (s3 & Esw & E).
  apply (sei_switch_inv _ _ _ _ _ E0) in Esw; [|cbn; lia].
  destruct Esw as (Hwf3 & Hp3 & Hlv3 & Htp3 & Hts3 & Htb3 & Hwt3 & _ & Hw3 & Hm3 & a0 & Hc3 & Hr0 & Hpo0).
  cbn [with_cf with_p s_redundancy_level s_mem s_cow s_tbin s_wts s_talloc s_world] in *.
  destruct (id_cow _ Hs 1%nat) as (b1 & Hb1 & Hrb1 & Hpb1); [lia|].
  destruct (id_cow _ Hs 0%nat) as (b0 & Hb0 & _ & _); [lia|].
  rename E into E1. eapply (phase_state_ops _ s3 1) in E1; cycle 1.
  { eapply (phase_state_start s3 1 b1); try done.
    - rewrite Hlv3, Hlv. lia.
    - by rewrite Hc3, list_lookup_insert_ne. }
  cbn [app] in E1. destruct (ps_log _ _ _ _ E1) as (a1 & Hc4 & Hpo1 & Hr1).
  pose proof (lookup_lt_Some _ _ _ Hb1). pose proof (lookup_lt_Some _ _ _ Hb0).
  pose proof (sw_dmr _ (id_wf _ Hs)).
  assert (Hcnt : forall q, count (s_talloc s3) q = count (s_talloc s2) q) by (intros; unfold count; by rewrite Hts3).
  exists s3, a0, a1. split_and!; try done.
  - by rewrite (ps_world _ _ _ _ E1), Hw3, (ps_world _ _ _ _ E0).
  - apply (ps_wf _ _ _ _ E1).
  - by rewrite (ps_level _ _ _ _ E1), Hlv3, Hlv.
  - apply (ps_mem _ _ _ _ E1).
  - rewrite Hc4, list_lookup_insert_ne, Hc3, list_lookup_insert_eq by lia. done.
  - rewrite Hc4, list_lookup_insert_eq by (rewrite Hc3, length_insert; lia). done.
  - rewrite (ps_freed _ _ _ _ E1), Htb3, (ps_freed _ _ _ _ E0). cbn. by rewrite (id_freed _ Hs) by lia.
  - rewrite (ps_freed _ _ _ _ E1), Htb3, (ps_freed _ _ _ _ E0). cbn. by rewrite (id_freed _ Hs) by lia.
  - rewrite (ps_queued _ _ _ _ E1), Hwt3, (ps_queued _ _ _ _ E0). cbn. by rewrite (id_queued _ Hs) by lia.
  - rewrite (ps_queued _ _ _ _ E1), Hwt3, (ps_queued _ _ _ _ E0). cbn. by rewrite (id_queued _ Hs) by lia.
  - rewrite (ps_count _ _ _ _ E1), Hcnt, (ps_count _ _ _ _ E0). cbn. by rewrite (id_count _ Hs) by lia.
  - rewrite (ps_count _ _ _ _ E1), Hcnt, (ps_count _ _ _ _ E0). cbn. by rewrite (id_count _ Hs) by lia.
Qed.

(** C1.  DMR soundness.  Whatever the two executions of a handler did (within the two
    conditions at the end), if the transaction commits then the memory is the one each execution alone would
    have left, both executions wrote the same objects, freed the same blocks,
    requested the same system calls and made the same number of allocations; the
    calls are executed once each, in order; and the library is ready for the
    next transaction.  (Writes of the first execution may repeat an object but not
    overlap it partially.  Without assertions the code does not compare the
    numbers and widths of the writes: they are assumed equal.) *)
Theorem transaction_sound ops0 ops1 s s' :
  idle s -> s_redundancy_level s = 2%nat -> separated (writes ops0) ->
  (NDEBUG = true -> w_ty <$> writes ops0 = w_ty <$> writes ops1) ->
  transaction ops0 ops1 s = Ret s' ->
  s_mem s' ≈ replay (writes ops0) (s_mem s) /\ s_mem s' ≈ replay (writes ops1) (s_mem s) /\
  shape <$> writes ops0 = shape <$> writes ops1 /\
  frees ops0 = frees ops1 /\ NoDup (frees ops0) /\ mallocs ops0 = mallocs ops1 /\
  calls ops0 = calls ops1 /\
  (exists items, call_of 0 <$> items = calls ops0 /\ s_world s' = run_calls call items (s_world s)) /\
  idle s'.
Proof.
  intros Hs Hlv Hsep Hty E. pose proof (id_wf _ Hs) as Hwf. pose proof (sw_dmr _ Hwf).
  apply bind_Ret in E as (s4 & E & Ec).
  apply two_executions_inv in E as (s3 & a0 & a1 & Hm3 & Hw4 & Hwf4 & Hlv4 & Hm4 & Ha0 & Hr0 & Hpo0
    & Ha1 & Hr1 & Hpo1 & Hf0 & Hf1 & Hq0 & Hq1 & Hc0 & Hc1); [|done|done].
  destruct (sei_commit_inv _ _ _ _ _ _ Hwf4 Hlv4 Ha0 Ha1 Hr0 Hr1 Hpo0 Hpo1 Ec)
    as (Em & [r Ecmp] & Hwag & Hbag & Hnd & _ & _ & Hcnt & Hworld & Hidle).
  destruct (abuf_cmp_heap_sound _ _ _ _ _ _ Hr0 Hr1 Hpo0 Hpo1 Ecmp) as (Hlast & Haddr & Hdbg).
  assert (Hsh : shape <$> writes ops0 = shape <$> writes ops1).
  { destruct NDEBUG eqn:Hn; [by eapply shapes_of_addrs; [apply Hty|]|].
    specialize (Hdbg eq_refl). by rewrite norm_shape, undo_log_shape in Hdbg. }
  assert (Hmem : s_mem s4 ≈ replay (writes ops1) (s_mem s)) by (rewrite Hm4; by rewrite Hm3).
  destruct (sw_tbin _ Hwf4) as [_ Hbl]. rewrite Em. split_and!; try done.
  - by eapply accepted_replay.
  - destruct Hbag as [Hb _]. rewrite <- Hf0, <- Hf1. symmetry. apply Hb. lia.
  - by rewrite <- Hf0.
  - congruence.
  - destruct Hwag as [Hw _]. rewrite <- Hq0, <- Hq1. symmetry. apply Hw. lia.
  - eexists. split; [|by rewrite <- Hw4]. by rewrite <- Hq0.
Qed.

(** ** Start-up *)

(** A fresh library state is ready for a transaction. *)
Lemma sei_init_idle m al w pr : (2 <= SEI_DMR_REDUNDANCY <= SEI_DMR_MAX_REDUNDANCY)%nat ->
  exists s, sei_init m al w pr = Ret s /\ idle s /\ s_redundancy_level s = SEI_DMR_REDUNDANCY /\ s_mem s = m.
Proof.
  intros Hd. unfold sei_init.
  destruct (tbin_init_ok TBIN_SIZE) as (tb & -> & Hwb & _ & Hbl & Hf);
    [change TBIN_SIZE with (Z.to_nat 10000); lia|lia|]. cbn [mbind outcome_bind].
  destruct (wts_init_ok SC_MAX_CALLS) as (wt & -> & Hww & _ & Hq); [unfold SC_MAX_CALLS; lia|].
  cbn [mbind outcome_bind]. eexists. split; [done|]. split; [|done].
  assert (Hz : forall q, nth q (replicate SEI_DMR_REDUNDANCY 0%nat) 0%nat = 0%nat).
  { intros q. rewrite nth_lookup. destruct (replicate _ _ !! q) eqn:E; [|done].
    by apply lookup_replicate in E as [-> _]. }
  split; cbn [s_p s_redundancy_level s_cow s_tbin s_talloc s_wts s_cf]; try done.
  - split; cbn [s_redundancy_level s_cow s_tbin s_talloc s_wts s_cf]; rewrite ?length_replicate; try done; [lia|].
    split; [|done].
    split; cbn [talloc_init ta_redundancy_level ta_p ta_size ta_allocations]; rewrite ?length_replicate; lia.
  - intros i Hi. exists (abuf_init COW_SIZE). rewrite lookup_replicate_2 by lia.
    split_and!; [done|apply abuf_init_rel; unfold COW_SIZE; lia|done].
  - intros q Hq'. unfold count, talloc_init. cbn. apply Hz.
Qed.

End Dmr.

(** ** Witnesses *)

(** A handler that writes two words (one of them twice), allocates, frees a
    block of the environment and delays one system call. *)
Definition demo_ops : list op :=
  [OWrite uint32_t 100 7; OMalloc 24; OWrite uint8_t 201 300; OFree 16; OCall 5 [1; 2]; OWrite uint32_t 100 8].
Definition demo_env_heap : libc := mk_libc {[16 := 8]}.
Definition demo_call (f : Z) (args : list Z) (log : list Z) : list Z := log ++ [f].

Lemma demo_separated : separated (writes demo_ops).
Proof.
  intros i j w1 w2 Hi Hj. vm_compute in Hi, Hj.
  destruct i as [|[|[|i]]]; try discriminate Hi; destruct j as [|[|[|j]]]; try discriminate Hj;
    injection Hi as <-; injection Hj as <-; first [left; split; reflexivity | right; unfold disjoint_range; cbn; lia].
Qed.

Lemma transaction_sound_witness :
  let _ := debug_build 2 in
  exists s s', sei_init ∅ demo_env_heap [] demo_proc = Ret s /\
    transaction crc32cSarwate demo_crc demo_call demo_ops demo_ops s = Ret s' /\
    s_mem s' ≈ replay (writes demo_ops) (s_mem s) /\ load 4 (s_mem s') 100 = 8 /\ s_world s' = [5].
Proof.
  intros B.
  assert (Hrun : (s ← sei_init ∅ demo_env_heap [] demo_proc;
                  s' ← transaction crc32cSarwate demo_crc demo_call demo_ops demo_ops s;
                  Ret (load 4 (s_mem s') 100, s_world s')) = Ret (8, [5])) by (vm_compute; reflexivity).
  apply bind_Ret in Hrun as (s & E & Hrun). apply bind_Ret in Hrun as (s' & E' & Hv).
  injection Hv as Hv1 Hv2.
  destruct (sei_init_idle (∅ : mem) demo_env_heap ([] : list Z) demo_proc) as (s0 & E0 & Hidle & Hlv & _);
    [unfold SEI_DMR_MAX_REDUNDANCY; cbn; lia|].
  rewrite E in E0. injection E0 as <-.
  destruct (transaction_sound crc32cSarwate demo_crc demo_call demo_ops demo_ops s s'
    Hidle Hlv demo_separated) as (Hm & _); [discriminate|exact E'|].
  exists s, s'. split; [exact E|]. split; [exact E'|]. split; [exact Hm|]. split; [exact Hv1|exact Hv2].
Defined.
