(* ===== verification/SeiNway.v ===== *)
(** * Transactions of more than two executions

    With SEI_DMR_REDUNDANCY = N > 2 a handler is executed N times, with a switch
    after each execution but the last, and the commit uses the N-way comparison of
    src/abuf.c.  The theorem is the counterpart of [transaction_sound]; it needs that
    an execution writes no object twice, because the N-way comparison accepts a
    conflicting entry as soon as any other entry has its address. *)

From S2P Require Export SeiDmr.

Lemma for_range_checks (n lo : nat) (f : nat -> outcome unit) u : for_range n lo (fun i _ => f i) tt = Ret u ->
  forall i, (lo <= i < lo + n)%nat -> exists x, f i = Ret x.
Proof.
  revert lo. induction n as [|n IH]; intros lo E i Hi; [lia|]. cbn [for_range] in E. apply bind_Ret in E as ([] & E1 & E2).
  destruct (decide (i = lo)) as [->|]; [by exists tt|]. eapply IH; [exact E2|lia].
Qed.

(** ** The N-way comparison *)

Section Compare.
Context `{Build}.

(** Entry [k] of a later buffer against that of phase 0. *)
Definition same_entry (b0 bi : abuf) (k : nat) : Prop :=
  exists e0 ei, buf b0 !! k = Some e0 /\ buf bi !! k = Some ei /\ e_addr e0 = e_addr ei /\ (NDEBUG = false -> e_size e0 = e_size ei).

Lemma nway_conflicts m (bs : list abuf) b0 n r conf : for_range r 0 (fun k conf =>
    e0 ← arr_get (buf b0) k;
    for_range (n - 1) 1 (fun i _ =>
      bi ← arr_get bs i;
      ei ← arr_get (buf bi) k;
      fail_ifn (e_addr e0 =? e_addr ei) "addresses differ";;
      c_assert (e_size e0 =? e_size ei)) tt;;
    match entry_conflict m e0 with
    | Some true =>
        fail_ifn (length conf <? ABUF_MAX_CONFLICTS)%nat "too many conflicts";;
        Ret (conf ++ [k])
    | Some false => Ret conf
    | None => c_assert false;; Ret conf
    end) [] = Ret conf ->
  forall k, (k < r)%nat -> exists e0, buf b0 !! k = Some e0 /\ (entry_conflict m e0 = Some true -> k ∈ conf) /\
    forall i, (1 <= i < n)%nat -> exists bi, bs !! i = Some bi /\ same_entry b0 bi k.
Proof.
  intros E. refine (for_range_invariant (fun r conf => forall k, (k < r)%nat -> exists e0, buf b0 !! k = Some e0 /\
    (entry_conflict m e0 = Some true -> k ∈ conf) /\
    forall i, (1 <= i < n)%nat -> exists bi, bs !! i = Some bi /\ same_entry b0 bi k) r 0 _ [] conf _ _ E); [lia|].
  clear conf E. intros r' conf conf' _ IH Eb k Hk. apply bind_Ret in Eb as (e0 & He0 & Eb). apply arr_get_Ret in He0.
  apply bind_Ret in Eb as (u & Ei & Eb).
  assert (Hsub : conf ⊆ conf' /\ (entry_conflict m e0 = Some true -> r' ∈ conf')).
  { destruct (entry_conflict m e0) as [[]|]; inv_outcome; split; set_solver. }
  destruct Hsub as [Hsub Hin]. destruct (decide (k = r')) as [->|Hne].
  - exists e0. split_and!; [done|done|]. intros i Hi. destruct (for_range_checks _ _ _ _ Ei i ltac:(lia)) as (x & Ex).
    inv_outcome. eexists. split; [done|]. exists e0. eexists. split_and!; [done|done| |].
    + by apply Z.eqb_eq.
    + intros Hd. apply Z.eqb_eq. auto.
  - destruct (IH k ltac:(lia)) as (e & He & Hc & Hall). exists e. split_and!; [done|set_solver|done].
Qed.

(** An accepted comparison of logs whose first one does not repeat an object. *)
Lemma nway_sound m (bs bs' : list abuf) n b0 l0 : bs !! 0%nat = Some b0 -> log_rel b0 l0 -> all_disjoint l0 ->
  abuf_cmp_heap_nway m bs n = Ret bs' ->
  (forall k w, l0 !! k = Some w -> load (w_size w) m (w_addr w) = w_val w) /\
  (forall i bi li, (1 <= i < n)%nat -> bs !! i = Some bi -> log_rel bi li ->
     (forall k w0 wi, l0 !! k = Some w0 -> li !! k = Some wi -> w_addr w0 = w_addr wi) /\
     (NDEBUG = false -> shape <$> l0 = shape <$> li)).
Proof.
  intros Hb0 Hr0 Hd E. unfold abuf_cmp_heap_nway in E. apply bind_Ret in E as (u & _ & E).
  rewrite (proj2 (arr_get_Ret _ _ _) Hb0), bind_Ret_l in E. apply bind_Ret in E as (u1 & Elen & E). apply bind_Ret in E as (u2 & _ & E).
  apply bind_Ret in E as (conf & Econf & E). apply bind_Ret in E as (bs1 & _ & E). apply bind_Ret in E as (u3 & Edup & _).
  pose proof (nway_conflicts _ _ _ _ _ _ Econf) as Hk. pose proof (log_rel_length _ _ Hr0) as Hl0.
  assert (Hlen : (pushed b0 <= length (buf b0))%nat) by (destruct Hr0 as [[] _]; lia). split.
  - intros k w Hw. destruct (log_rel_buf _ _ _ _ Hr0 Hw) as (e & He & Hrel & Hlt). destruct (Hk k Hlt) as (e0 & He0 & Hc & _). rewrite He in He0. injection He0 as <-.
    rewrite (entry_rel_conflict m e w Hrel) in Hc. destruct (Z.eqb_spec (load (w_size w) m (w_addr w)) (w_val w)) as [|_]; [done|]. exfalso.
    specialize (Hc eq_refl). apply list_elem_of_lookup in Hc as [i Hi].
    destruct (for_range_checks _ _ _ _ Edup i) as (x & Ex); [pose proof (lookup_lt_Some _ _ _ Hi); lia|].
    rewrite (proj2 (arr_get_Ret _ _ _) Hi), bind_Ret_l, (proj2 (arr_get_Ret _ _ _) He), bind_Ret_l in Ex.
    destruct (find_other_spec (buf b0) (pushed b0) k (e_addr e) Hlen) as (r & Er & Hr). rewrite Er, bind_Ret_l in Ex.
    apply fail_ifn_Ret in Ex. apply Hr in Ex as (j & e' & Hj & Hjk & He' & Ha').
    destruct (log_rel_lookup b0 l0 j Hr0 Hj) as (ej & w' & Hej & Hw' & (_ & Haj & _)). rewrite He' in Hej. injection Hej as <-.
    destruct Hrel as (_ & Ha & _). specialize (Hd k j w w' ltac:(done) Hw Hw'). unfold disjoint_range in Hd.
    assert (forall x : wr, (0 < w_size x)%nat) as Hpos by (intros [[] ? ?]; cbn; lia).
    pose proof (Hpos w). pose proof (Hpos w'). lia.
  - intros i bi li Hi Hbi Hri. pose proof (log_rel_length _ _ Hri) as Hli.
    assert (Hent : forall k w0 wi, l0 !! k = Some w0 -> li !! k = Some wi -> w_addr w0 = w_addr wi /\ (NDEBUG = false -> w_ty w0 = w_ty wi)).
    { intros k w0 wi H0 H1. destruct (log_rel_buf _ _ _ _ Hr0 H0) as (e0 & He0 & (Hs0 & Ha0 & _) & Hlt).
      destruct (log_rel_buf _ _ _ _ Hri H1) as (e1 & He1 & (Hs1 & Ha1 & _) & _).
      destruct (Hk k Hlt) as (_ & _ & _ & Hall). destruct (Hall i Hi) as (b & Hb & e0' & ei & ? & ? & Ha & Hs). simplify_eq.
      split; [congruence|]. intros Hdb. specialize (Hs Hdb). rewrite Hs0, Hs1 in Hs. apply (f_equal cty_of_size) in Hs.
      rewrite !cty_of_size_sizeof in Hs. congruence. }
    split; [intros k w0 wi H0 H1; by destruct (Hent k w0 wi H0 H1)|]. intros Hdb.
    destruct (for_range_checks _ _ _ _ Elen i ltac:(lia)) as (x & Ex). rewrite (proj2 (arr_get_Ret _ _ _) Hbi), bind_Ret_l in Ex.
    apply bind_Ret in Ex as (? & Ex & _). apply c_assert_Ret in Ex; [|done]. apply Nat.eqb_eq in Ex.
    apply list_eq_same_length with (n := pushed b0); [rewrite length_fmap; lia|by rewrite length_fmap|].
    intros k x' y _ Hx Hy. rewrite list_lookup_fmap in Hx, Hy.
    destruct (l0 !! k) as [w0|] eqn:H0, (li !! k) as [wi|] eqn:H1; try discriminate.
    destruct (Hent k w0 wi H0 H1) as [Ha Ht]. injection Hx as <-. injection Hy as <-. unfold shape. by rewrite Ha, Ht.
Qed.

(** The comparison only moves the read positions. *)
Lemma nway_buffers m (bs bs' : list abuf) n : abuf_cmp_heap_nway m bs n = Ret bs' ->
  length bs' = length bs /\ forall i a', bs' !! i = Some a' -> exists a, bs !! i = Some a /\ buf a' = buf a /\ max_size a' = max_size a.
Proof.
  intros E. unfold abuf_cmp_heap_nway in E. apply bind_Ret in E as (u & _ & E). apply bind_Ret in E as (b0 & _ & E).
  apply bind_Ret in E as (u1 & _ & E). apply bind_Ret in E as (u2 & _ & E). apply bind_Ret in E as (conf & _ & E).
  apply bind_Ret in E as (bs1 & Ebs & E). apply bind_Ret in E as (u3 & _ & [= <-]).
  refine (for_range_invariant (fun _ l => length l = length bs /\ forall i a', l !! i = Some a' ->
    exists a, bs !! i = Some a /\ buf a' = buf a /\ max_size a' = max_size a) n 0 _ bs bs1 _ _ Ebs); [eauto|].
  intros i l l' _ [Hl IH] Eb. inv_outcome. rewrite length_insert. split; [done|].
  intros j a' [[-> [<- _]]|[_ Ha]]%list_lookup_insert_Some; [|by apply IH].
  match goal with X : l !! _ = Some ?x |- _ => destruct (IH _ _ X) as (a & ? & ? & ?); by exists a end.
Qed.
End Compare.

(** ** N executions *)

Section Nway.
Context `{Build} {S W : Type} `{AllocatorLaws S}.
Context (crc32c : Z -> Z -> list Z -> Z).
Context (crc_run : Z -> nat -> Z -> list Z -> Z).
Context (call : Z -> list Z -> W -> W).
Implicit Types (s : sei S W) (ops : list op).

(** switch; handler, for every further execution. *)
Fixpoint more_executions (opss : list (list op)) s : outcome (sei S W) :=
  match opss with
  | [] => Ret s
  | ops :: opss' => s ← sei_switch crc_run s; s ← exec_ops crc32c ops s; more_executions opss' s
  end.

Definition nway_transaction ops0 (opss : list (list op)) s : outcome (sei S W) :=
  s ← sei_begin s;
  s ← exec_ops crc32c ops0 s;
  s ← more_executions opss s;
  sei_commit crc_run call None s.

(** What an execution has left in the records of its phase. *)
Record recorded s (q : nat) (log : list wr) ops : Prop := {
  rc_log : exists a, s_cow s !! q = Some a /\ log_rel a log /\ poped a = 0%nat;
  rc_freed : freed (s_tbin s) q = frees ops;
  rc_queued : queued (s_wts s) q = calls ops;
  rc_count : count (s_talloc s) q = mallocs ops;
}.

(** In phase [length past]: the executions [past] are over and undone, [ops] have
    been executed since the start [s0] of the phase, the later phases are empty. *)
Record nphase s (past : list (list op)) ops s0 st : Prop := {
  np_phase : phase_state s0 (length past) ops st;
  np_level : s_redundancy_level s0 = s_redundancy_level s;
  np_mem : s_mem s0 ≈ s_mem s;
  np_world : s_world s0 = s_world s;
  np_past : forall q opsq, past !! q = Some opsq -> recorded s0 q (norm <$> writes opsq) opsq;
  np_future : forall q, (length past <= q < s_redundancy_level s)%nat -> recorded s0 q [] [];
}.

Lemma nphase_begin s s1 : idle s -> sei_begin s = Ret s1 -> nphase s [] [] s1 s1.
Proof.
  intros Hs E. destruct (sei_begin_idle s Hs) as (cf & E' & _ & _ & Hp). rewrite E in E'. injection E' as ->.
  pose proof (sw_dmr _ (id_wf _ Hs)). pose proof (sw_level _ (id_wf _ Hs)).
  split; try done. intros q Hq. cbn in Hq. split; cbn.
  - apply (id_cow _ Hs). lia.
  - apply (id_freed _ Hs). lia.
  - apply (id_queued _ Hs). lia.
  - apply (id_count _ Hs). lia.
Qed.

(** The records of the other phases stay as they were. *)
Lemma recorded_other s0 p ops st q log opsq : phase_state s0 p ops st -> q <> p -> recorded s0 q log opsq -> recorded st q log opsq.
Proof.
  intros Hps Hne [(a & Ha & ?) Hf Hq Hc]. destruct (ps_log _ _ _ _ Hps) as (b & Hcow & _). split.
  - exists a. rewrite Hcow, list_lookup_insert_ne by done. done.
  - by rewrite (ps_freed _ _ _ _ Hps), decide_False by done.
  - by rewrite (ps_queued _ _ _ _ Hps), decide_False by done.
  - by rewrite (ps_count _ _ _ _ Hps), decide_False by done.
Qed.

Lemma nphase_switch s past ops s0 st s1 : nphase s past ops s0 st -> (length past + 1 < s_redundancy_level s)%nat ->
  sei_switch crc_run st = Ret s1 -> nphase s (past ++ [ops]) [] s1 s1.
Proof.
  intros [Hps Hlv Hmem Hw Hpast Hfut] Hlen E.
  destruct (sei_switch_inv crc_run _ _ _ _ _ Hps ltac:(lia) E) as (Hwf & Hp & Hlv1 & Htp & Hts & Htb & Hwt & _ & Hw1 & Hm1 & a & Hcow & Hlog & Hpo).
  set (p := length past) in *. assert (Hc : forall q, count (s_talloc s1) q = count (s_talloc st) q) by (intros; unfold count; by rewrite Hts).
  assert (Hother : forall q log opsq, q <> p -> recorded s0 q log opsq -> recorded s1 q log opsq).
  { intros q log opsq Hne Hr. destruct (recorded_other _ _ _ _ _ _ _ Hps Hne Hr) as [_ Hf Hq Hcq]. destruct Hr as [(b & Hb & ?) _ _ _]. split.
    - exists b. rewrite Hcow, list_lookup_insert_ne by done. done.
    - by rewrite Htb.
    - by rewrite Hwt.
    - by rewrite Hc. }
  assert (Hbound : (p < length (s_cow s0))%nat).
  { destruct (Hfut p ltac:(lia)) as [(b & Hb & _) _ _ _]. by eapply lookup_lt_Some. }
  split.
  - rewrite length_app. cbn. fold p. destruct (rc_log _ _ _ _ (Hother (p + 1)%nat [] [] ltac:(lia) (Hfut (p + 1)%nat ltac:(lia)))) as (b & Hb & Hlb & Hpb).
    eapply (phase_state_start s1 (p + 1) b); try done. rewrite Hlv1. lia.
  - congruence.
  - by rewrite Hm1.
  - by rewrite Hw1, (ps_world _ _ _ _ Hps).
  - intros q opsq Hq. apply lookup_app_Some in Hq as [Hq|[Hge Hq]].
    + apply Hother; [|by apply Hpast]. pose proof (lookup_lt_Some _ _ _ Hq). lia.
    + destruct (q - length past)%nat as [|] eqn:Eq; [|done]. injection Hq as <-. assert (q = p) as -> by lia.
      destruct (Hfut p ltac:(lia)) as [_ Hf Hq Hcq]. split.
      * exists a. rewrite Hcow, list_lookup_insert_eq by done. done.
      * by rewrite Htb, (ps_freed _ _ _ _ Hps), decide_True, Hf by done.
      * by rewrite Hwt, (ps_queued _ _ _ _ Hps), decide_True, Hq by done.
      * by rewrite Hc, (ps_count _ _ _ _ Hps), decide_True, Hcq by done.
  - intros q Hq. rewrite length_app in Hq. cbn in Hq. apply Hother; [lia|]. apply Hfut. lia.
Qed.

Lemma nphase_ops s past ops s0 st ops' st' : nphase s past ops s0 st -> exec_ops crc32c ops' st = Ret st' -> nphase s past (ops ++ ops') s0 st'.
Proof. intros [Hps ? ? ? ? ?] E. split; try done. by eapply phase_state_ops. Qed.

Lemma more_executions_inv s opss : forall past ops s0 st st', nphase s past ops s0 st -> more_executions opss st = Ret st' ->
  (length past + length opss + 1 <= s_redundancy_level s)%nat ->
  exists past' opsn s0', past ++ ops :: opss = past' ++ [opsn] /\ nphase s past' opsn s0' st'.
Proof.
  induction opss as [|ops' opss IH]; intros past ops s0 st st' Hn E Hlen; cbn [more_executions length] in *.
  - injection E as <-. by exists past, ops, s0.
  - apply bind_Ret in E as (s1 & E1 & E). apply bind_Ret in E as (s2 & E2 & E).
    apply (nphase_switch _ _ _ _ _ _ Hn) in E1; [|lia]. apply (nphase_ops _ _ _ _ _ _ _ E1) in E2. cbn [app] in E2.
    destruct (IH _ _ _ _ _ E2 E) as (past' & opsn & s0' & El & Hn'); [rewrite length_app; cbn; lia|].
    exists past', opsn, s0'. split; [|done]. rewrite <- El. by rewrite <- app_assoc.
Qed.

(** The state the commit finds: every execution has its records, and the memory is
    that of the last one. *)
Lemma nway_executions_inv ops0 opss s st : idle s -> (length opss + 1)%nat = s_redundancy_level s -> opss <> [] ->
  (s1 ← sei_begin s; s1 ← exec_ops crc32c ops0 s1; more_executions opss s1) = Ret st ->
  sei_wf st /\ s_redundancy_level st = s_redundancy_level s /\ s_world st = s_world s /\
  (exists opsn, last (ops0 :: opss) = Some opsn /\ s_mem st ≈ replay (writes opsn) (s_mem s)) /\
  recorded st 0 (norm <$> writes ops0) ops0 /\
  forall q opsq, (ops0 :: opss) !! q = Some opsq -> exists log, shape <$> log = shape <$> writes opsq /\ recorded st q log opsq.
Proof.
  intros Hs Hlen Hne E. apply bind_Ret in E as (s1 & E1 & E). apply bind_Ret in E as (s2 & E2 & E).
  apply nphase_begin in E1; [|done]. apply (nphase_ops _ _ _ _ _ _ _ E1) in E2. cbn [app] in E2.
  destruct (more_executions_inv _ _ _ _ _ _ _ E2 E) as (past & opsn & s0 & El & Hn); [cbn; lia|]. cbn [app] in El.
  assert (Hp : (length past + 1)%nat = s_redundancy_level s).
  { apply (f_equal length) in El. rewrite length_app in El. cbn in El. lia. }
  destruct Hn as [Hps Hlv Hmem Hw Hpast Hfut]. destruct (Hfut (length past) ltac:(lia)) as [(b & Hb & _) Hf Hq Hc].
  assert (Hall : forall q opsq, (ops0 :: opss) !! q = Some opsq -> exists log, shape <$> log = shape <$> writes opsq /\
            recorded st q log opsq /\ (q <> length past -> log = norm <$> writes opsq)).
  { intros q opsq Hl. rewrite El in Hl. apply lookup_app_Some in Hl as [Hl|[Hge Hl]].
    - pose proof (lookup_lt_Some _ _ _ Hl). exists (norm <$> writes opsq). split_and!; [by rewrite norm_shape| |done].
      eapply recorded_other; [exact Hps|lia|by apply Hpast].
    - destruct (q - length past)%nat as [|] eqn:Eq; [|done]. injection Hl as <-. assert (q = length past) as -> by lia.
      destruct (ps_log _ _ _ _ Hps) as (a & Ha & Hpo & Hlog). exists (undo_log (writes opsn) (s_mem s0)).
      split_and!; [by rewrite undo_log_shape| |done]. split.
      + exists a. rewrite Ha, list_lookup_insert_eq by (by eapply lookup_lt_Some). done.
      + by rewrite (ps_freed _ _ _ _ Hps), decide_True, Hf by done.
      + by rewrite (ps_queued _ _ _ _ Hps), decide_True, Hq by done.
      + by rewrite (ps_count _ _ _ _ Hps), decide_True, Hc by done. }
  split_and!.
  - apply (ps_wf _ _ _ _ Hps).
  - by rewrite (ps_level _ _ _ _ Hps).
  - by rewrite (ps_world _ _ _ _ Hps).
  - exists opsn. rewrite El, last_snoc, (ps_mem _ _ _ _ Hps), Hmem. done.
  - destruct (Hall 0%nat ops0 eq_refl) as (log & _ & Hr & Hl). destruct opss; [done|]. cbn in Hlen. by rewrite <- Hl by lia.
  - intros q opsq Hl. destruct (Hall q opsq Hl) as (log & ? & ? & _). by exists log.
Qed.

(** The comparison of the commit, for more than two executions. *)
Lemma nway_compare_inv s (opss : list (list op)) ops0 : sei_wf s -> length opss = s_redundancy_level s -> (2 < s_redundancy_level s)%nat ->
  opss !! 0%nat = Some ops0 -> recorded s 0 (norm <$> writes ops0) ops0 -> all_disjoint (writes ops0) ->
  (forall q opsq, opss !! q = Some opsq -> exists log, shape <$> log = shape <$> writes opsq /\ recorded s q log opsq) ->
  (NDEBUG = true -> forall q opsq, opss !! q = Some opsq -> w_ty <$> writes opsq = w_ty <$> writes ops0) ->
  forall cow, compare_cows (s_mem s) (s_cow s) (s_redundancy_level s) = Ret cow ->
  (length cow = length (s_cow s) /\ forall i a, (i < s_redundancy_level s)%nat -> cow !! i = Some a -> buf_ok a) /\
  (forall i w, last_for (norm <$> writes ops0) i w -> load (w_size w) (s_mem s) (w_addr w) = w_val w) /\
  (forall q opsq, opss !! q = Some opsq -> shape <$> writes ops0 = shape <$> writes opsq).
Proof.
  intros Hwf Hlen Hlv Hz [(a0 & Ha0 & Hr0 & _) _ _ _] Hd Hrec Hty cow E. unfold compare_cows in E.
  rewrite (proj2 (Nat.eqb_neq _ 2)) in E by lia.
  pose proof (all_disjoint_norm _ Hd) as Hd'.
  destruct (nway_sound _ _ _ _ _ _ Ha0 Hr0 Hd' E) as [Hval Hsh]. split_and!.
  - by apply nway_buffers in E as [? _].
  - intros i a Hi Ha. apply nway_buffers in E as [_ E]. destruct (E i a Ha) as (b & Hb & Ebuf & Emax).
    destruct (lookup_lt_is_Some_2 opss i ltac:(lia)) as [opsi Hopsi]. destruct (Hrec i opsi Hopsi) as (log & _ & [(c & Hc & Hlog & _) _ _ _]).
    rewrite Hb in Hc. injection Hc as <-. apply log_rel_buf_ok in Hlog. unfold buf_ok in *. by rewrite Ebuf, Emax.
  - intros i w [Hi _]. by apply (Hval i).
  - intros q opsq Hq. destruct (decide (q = 0%nat)) as [->|Hq0]; [by rewrite Hz in Hq; injection Hq as ->|].
    destruct (Hrec q opsq Hq) as (log & Hlsh & [(a & Ha & Hlog & _) _ _ _]). pose proof (lookup_lt_Some _ _ _ Hq).
    destruct (Hsh q a log ltac:(lia) Ha Hlog) as [Haddr Hdbg]. rewrite <- Hlsh. rewrite <- (norm_shape (writes ops0)).
    destruct NDEBUG eqn:Hn; [|by apply Hdbg]. apply list_eq. intros i. rewrite Hlsh, norm_shape.
    assert (Hi : (w_ty <$> writes opsq) !! i = (w_ty <$> writes ops0) !! i) by (by rewrite (Hty eq_refl q opsq Hq)).
    assert (Hs : (shape <$> log) !! i = (shape <$> writes opsq) !! i) by (by rewrite Hlsh).
    specialize (Haddr i). rewrite !list_lookup_fmap in *.
    destruct (writes ops0 !! i) as [w0|], (writes opsq !! i) as [w1|], (log !! i) as [wl|]; try done. cbn in *.
    injection Hi as Hi. injection Hs as Hs1 Hs2. specialize (Haddr _ _ eq_refl eq_refl). cbn in Haddr. unfold shape. by rewrite Hi, Haddr, Hs2.
Qed.

(** C2.  Soundness with more than two executions: if the transaction of N > 2
    executions commits, every execution wrote the same objects, freed the same
    blocks, requested the same calls and allocated as often; the memory is the one
    the first execution alone, or the last one alone, would have left; the calls run
    once each; and the library is ready for the next transaction.  (The first execution
    writes no byte twice.  The values of the executions between the first and the
    last are not compared.  Without assertions the numbers and widths of the writes
    are assumed equal.) *)
Theorem nway_transaction_sound ops0 (opss : list (list op)) s s' :
  idle s -> (length opss + 1)%nat = s_redundancy_level s -> (2 <= length opss)%nat -> all_disjoint (writes ops0) ->
  (NDEBUG = true -> forall ops, ops ∈ opss -> w_ty <$> writes ops = w_ty <$> writes ops0) ->
  nway_transaction ops0 opss s = Ret s' ->
  s_mem s' ≈ replay (writes ops0) (s_mem s) /\
  (forall opsn, last opss = Some opsn -> s_mem s' ≈ replay (writes opsn) (s_mem s)) /\
  (forall ops, ops ∈ opss -> shape <$> writes ops = shape <$> writes ops0 /\ frees ops = frees ops0 /\
     calls ops = calls ops0 /\ mallocs ops = mallocs ops0) /\
  NoDup (frees ops0) /\
  (exists items, call_of 0 <$> items = calls ops0 /\ s_world s' = run_calls call items (s_world s)) /\
  idle s'.
Proof.
  intros Hs Hlv H2 Hd Hty E. unfold nway_transaction in E. apply bind_Ret in E as (s1 & E1 & E). apply bind_Ret in E as (s2 & E2 & E).
  apply bind_Ret in E as (st & E3 & Ec).
  destruct (nway_executions_inv ops0 opss s st Hs Hlv) as (Hwf & Hl & Hw & (opsn & Hlast & Hmem) & Hrec0 & Hrec);
    [intros ->; cbn in H2; lia|by rewrite E1, bind_Ret_l, E2, bind_Ret_l|].
  assert (Hcmp : forall cow, compare_cows (s_mem st) (s_cow st) (s_redundancy_level st) = Ret cow -> _) by
    (apply (nway_compare_inv st (ops0 :: opss) ops0 Hwf); [cbn; lia|lia|done|done|done|done|];
     intros Hn [|q] opsq Hq; [by injection Hq as <-|apply (Hty Hn); by eapply list_elem_of_lookup_2]).
  destruct (sei_commit_parts crc_run call st s' Hwf (fun cow Ecow => proj1 (Hcmp cow Ecow)) Ec)
    as (Em & [cow Ecow] & Hwag & Hbag & Hnd & _ & _ & Hcnt & Hworld & Hidle).
  destruct (Hcmp cow Ecow) as (_ & Hval & Hsh). destruct (sw_tbin _ Hwf) as [_ Hbl]. pose proof (sw_level _ Hwf).
  destruct Hrec0 as [_ Hf0 Hq0 Hc0]. rewrite Em. split_and!; try done.
  - eapply accepted_replay; [|by apply all_disjoint_separated|exact Hmem|exact Hval]. rewrite last_lookup in Hlast. by eapply Hsh.
  - intros ops Hops. replace opsn with ops in Hmem; [done|]. destruct opss; [done|]. cbn in *. congruence.
  - intros ops Hops. apply list_elem_of_lookup in Hops as [q Hq]. destruct (Hrec (Datatypes.S q) ops Hq) as (log & _ & [_ Hf Hqq Hc]).
    pose proof (lookup_lt_Some _ _ _ Hq). destruct Hwag as [Hwag _]. destruct Hbag as [Hbag _]. split_and!.
    + symmetry. by apply (Hsh (Datatypes.S q)).
    + rewrite <- Hf, <- Hf0. apply Hbag. lia.
    + rewrite <- Hqq, <- Hq0. apply Hwag. lia.
    + rewrite <- Hc, <- Hc0. apply Hcnt. lia.
  - by rewrite <- Hf0.
  - eexists. split; [|by rewrite <- Hw]. by rewrite <- Hq0.
Qed.
End Nway.

(** Three executions of a handler that writes two objects, allocates and delays a call. *)
Definition nway_ops : list op := [OWrite uint32_t 100 7; OMalloc 24; OWrite uint8_t 201 44; OFree 16; OCall 5 [1; 2]].

Lemma nway_transaction_sound_witness :
  let _ := debug_build 3 in
  exists s s', sei_init ∅ demo_env_heap [] demo_proc = Ret s /\
    nway_transaction crc32cSarwate demo_crc demo_call nway_ops [nway_ops; nway_ops] s = Ret s' /\
    s_mem s' ≈ replay (writes nway_ops) (s_mem s) /\ load 4 (s_mem s') 100 = 7 /\ s_world s' = [5].
Proof.
  intros B.
  assert (Hrun : (s ← sei_init ∅ demo_env_heap [] demo_proc;
                  s' ← nway_transaction crc32cSarwate demo_crc demo_call nway_ops [nway_ops; nway_ops] s;
                  Ret (load 4 (s_mem s') 100, s_world s')) = Ret (7, [5])) by (vm_compute; reflexivity).
  apply bind_Ret in Hrun as (s & E & Hrun). apply bind_Ret in Hrun as (s' & E' & Hv). injection Hv as Hv1 Hv2.
  destruct (sei_init_idle (∅ : mem) demo_env_heap ([] : list Z) demo_proc) as (s0 & E0 & Hidle & Hlv & _);
    [unfold SEI_DMR_MAX_REDUNDANCY; cbn; lia|].
  rewrite E in E0. injection E0 as <-.
  destruct (nway_transaction_sound crc32cSarwate demo_crc demo_call nway_ops [nway_ops; nway_ops] s s' Hidle) as (Hm & _);
    [by rewrite Hlv|cbn; lia| |discriminate|exact E'|].
  { intros [|[|i]] [|[|j]] w1 w2 Hij Hi Hj; try done; cbn in Hi, Hj; injection Hi as <-; injection Hj as <-; unfold disjoint_range; cbn; lia. }
  exists s, s'. split; [exact E|]. split; [exact E'|]. split; [exact Hm|]. split; [exact Hv1|exact Hv2].
Defined.
