(* ===== verification/SeiHandler.v ===== *)
(** * Handlers as programs, and their replay

    A handler is a deterministic program over the operations of the library: it
    reads memory, and continues according to what it read and to the addresses
    the allocator returned.  [run] executes it through the driver and returns
    the trace of operations of file SeiTrace.  A piece of code that hands a value
    on, such as the point where it stopped, is a [prog] over the type of the value.  The lemmas show that the second
    execution of a handler, after the switch, repeats the first one operation by
    operation. *)

From S2P Require Export SeiDmr.

Inductive prog (R : Type) :=
  | HEnd (r : R)
  | HRead (t : cty) (addr : Z) (k : Z -> prog R)
  | HWrite (t : cty) (addr value : Z) (k : prog R)
  | HMalloc (size : Z) (k : Z -> prog R)
  | HFree (ptr : Z) (k : prog R)
  | HCall (fp : Z) (args : list Z) (k : prog R)
  | HAppend (ptr size : Z) (k : prog R)
  | HDone (k : prog R).
Arguments HEnd {R}.
Arguments HRead {R}.
Arguments HWrite {R}.
Arguments HMalloc {R}.
Arguments HFree {R}.
Arguments HCall {R}.
Arguments HAppend {R}.
Arguments HDone {R}.

(** A handler returns nothing. *)
Definition handler : Type := prog unit.
Definition HRet : handler := HEnd tt.

(** ** Component lemmas: an operation that succeeded in one phase succeeds in the
    next one *)

Section Transfer.
Context `{Build} {S : Type} `{AllocatorLaws S}.

Lemma tbin_add_max t ptr p t' : tbin_add t ptr p = Ret t' -> tb_max_items t' = tb_max_items t.
Proof. unfold tbin_add. intros E. inv_outcome. done. Qed.

Lemma tbin_add_transfer tA tB ptr p q tA' : tbin_wf tA -> tbin_wf tB ->
  (p < SEI_DMR_REDUNDANCY)%nat -> (q < SEI_DMR_REDUNDANCY)%nat ->
  tb_max_items tA = tb_max_items tB -> length (freed tA p) = length (freed tB q) ->
  tbin_add tA ptr (Z.of_nat p) = Ret tA' ->
  exists tB', tbin_add tB ptr (Z.of_nat q) = Ret tB' /\ tb_max_items tA' = tb_max_items tB'.
Proof.
  intros HA HB Hp Hq Hm Hl E. pose proof (tbin_add_max _ _ _ _ E) as Hm'.
  apply tbin_add_Ret in E as (HA' & _ & Hf & _); [|done|done].
  apply (f_equal length) in Hf. rewrite length_app in Hf. cbn in Hf.
  assert (Hroom : (length (freed tA' p) <= tb_max_items tA')%nat).
  { rewrite freed_length by done. rewrite <- (tbwf_items _ HA'). by apply nitems_le. }
  destruct (tbin_add_spec tB ptr q HB Hq) as (tB' & E & _).
  { rewrite <- freed_length by done. lia. }
  exists tB'. split; [done|]. rewrite (tbin_add_max _ _ _ _ E). congruence.
Qed.

Lemma wts_add_max w p fp args w' : wts_add w p fp args = Ret w' -> w_max_items w' = w_max_items w.
Proof. unfold wts_add. intros E. inv_outcome. done. Qed.

Lemma wts_add_transfer wA wB p q fp args wA' : wts_wf wA -> wts_wf wB ->
  (p < SEI_DMR_REDUNDANCY)%nat -> (q < SEI_DMR_REDUNDANCY)%nat ->
  w_max_items wA = w_max_items wB -> length (queued wA p) = length (queued wB q) ->
  wts_add wA (Z.of_nat p) fp args = Ret wA' ->
  exists wB', wts_add wB (Z.of_nat q) fp args = Ret wB' /\ w_max_items wA' = w_max_items wB'.
Proof.
  intros HA HB Hp Hq Hm Hl E. pose proof (wts_add_max _ _ _ _ _ E) as Hm'.
  rewrite !queued_length in Hl by done. unfold wts_add in E.
  rewrite arr_getZ_nat, (arr_get_nth 0%nat) in E by (rewrite (wwf_nitems wA HA); lia).
  inv_outcome. rewrite ?arr_setZ_nat, ?arr_getZ_nat in *. inv_outcome.
  match goal with X : w_items wA !! _ = Some ?x |- _ => rename X into Hit, x into it end.
  match goal with X : for_range _ _ _ ?l = Ret _ |- _ => pose proof (copy_args_Ret _ _ _ X) as Hlen end.
  pose proof (wwf_item wA HA _ _ Hit) as Hi. destruct (item_wf_lengths it p Hi Hp) as [Hla _].
  match goal with X : w_args it !! p = Some ?l |- _ =>
    rewrite (nth_lt_lookup []) in X by (rewrite (itwf_args it Hi); lia); injection X as <- end.
  destruct (lookup_lt_is_Some_2 (w_items wB) (nth q (w_nitems wB) 0%nat)) as [itB HitB].
  { rewrite (wwf_items wB HB), <- Hm, <- Hl, <- (wwf_items wA HA). by eapply lookup_lt_Some. }
  pose proof (wwf_item wB HB _ _ HitB) as HiB. destruct (item_wf_lengths itB q HiB Hq) as [HlB _].
  unfold wts_add.
  match goal with X : NDEBUG = false -> negb (fp =? 0) = true |- _ =>
    rewrite (proj2 (c_assert_Ret _ tt) X) end. cbn [mbind outcome_bind].
  rewrite (phase_in_range q _ Hq), c_assert_true. cbn [mbind outcome_bind].
  rewrite arr_getZ_nat, ?arr_setZ_nat, (arr_get_nth 0%nat) by (rewrite (wwf_nitems wB HB); lia).
  cbn [mbind outcome_bind]. rewrite ?arr_setZ_nat, arr_set_lt by (rewrite (wwf_nitems wB HB); lia).
  cbn [mbind outcome_bind]. rewrite <- Hm, <- Hl.
  match goal with X : NDEBUG = false -> (_ <=? _)%nat = true |- _ =>
    rewrite (proj2 (c_assert_Ret _ tt) X) end. cbn [mbind outcome_bind].
  rewrite Hl, (proj2 (arr_get_Ret _ _ _) HitB). cbn [mbind outcome_bind].
  rewrite ?arr_setZ_nat, ?arr_getZ_nat, (arr_set_lt (w_func itB)) by (rewrite (itwf_func itB HiB); lia).
  cbn [mbind outcome_bind].
  rewrite (arr_set_lt (w_anum itB)) by (rewrite (itwf_anum itB HiB); lia). cbn [mbind outcome_bind].
  rewrite (arr_get_nth []) by (rewrite (itwf_args itB HiB); lia). cbn [mbind outcome_bind].
  rewrite copy_args by lia. cbn [mbind outcome_bind].
  rewrite ?arr_setZ_nat, (arr_set_lt (w_args itB)) by (rewrite (itwf_args itB HiB); lia). cbn [mbind outcome_bind].
  rewrite arr_set_lt by (by eapply lookup_lt_Some). cbn. eauto.
Qed.

(** Two output buffers whose current queues have the same contents. *)
Definition same_cur (oA oB : obuf) : Prop :=
  exists q, ob_queue oA !! ob_p oA = Some q /\ ob_queue oB !! ob_p oB = Some q.

Lemma set_queue_cur o q q' o' : ob_queue o !! ob_p o = Some q -> set_queue o (ob_p o) q' = Ret o' ->
  ob_p o' = ob_p o /\ ob_redundancy_level o' = ob_redundancy_level o /\
  ob_queue o' = <[ob_p o := q']> (ob_queue o) /\ ob_queue o' !! ob_p o' = Some q'.
Proof.
  intros Hq E. unfold set_queue in E. inv_outcome. cbn. split_and!; try done.
  apply list_lookup_insert_eq. by eapply lookup_lt_Some.
Qed.

Lemma set_queue_ok o q q' : ob_queue o !! ob_p o = Some q -> exists o', set_queue o (ob_p o) q' = Ret o'.
Proof.
  intros Hq. unfold set_queue. rewrite arr_set_lt by (by eapply lookup_lt_Some). cbn. eauto.
Qed.

Lemma obuf_push_transfer crc32c oA oB addr data oA' : same_cur oA oB ->
  obuf_push crc32c oA addr data = Ret oA' ->
  exists oB', obuf_push crc32c oB addr data = Ret oB' /\ same_cur oA' oB'.
Proof.
  intros (q & HA & HB) E. unfold obuf_push in *.
  rewrite (proj2 (arr_get_Ret _ _ _) HA) in E. rewrite (proj2 (arr_get_Ret _ _ _) HB). cbn [mbind outcome_bind] in *.
  apply bind_Ret in E as (e & -> & E). cbn [mbind outcome_bind].
  apply bind_Ret in E as (u & -> & E). cbn [mbind outcome_bind].
  apply bind_Ret in E as (es & -> & E). cbn [mbind outcome_bind].
  destruct (set_queue_ok oB q (mk_oqueue es (q_head q) (q_tail q)) HB) as [oB' EB]. exists oB'. split; [done|].
  apply (set_queue_cur _ _ _ _ HA) in E as (_ & _ & _ & E). apply (set_queue_cur _ _ _ _ HB) in EB as (_ & _ & _ & EB).
  by eexists.
Qed.

Lemma obuf_done_transfer oA oB oA' : same_cur oA oB -> obuf_done oA = Ret oA' ->
  exists oB', obuf_done oB = Ret oB' /\ same_cur oA' oB'.
Proof.
  intros (q & HA & HB) E. unfold obuf_done in *.
  rewrite (proj2 (arr_get_Ret _ _ _) HA) in E. rewrite (proj2 (arr_get_Ret _ _ _) HB). cbn [mbind outcome_bind] in *.
  apply bind_Ret in E as (e & -> & E). cbn [mbind outcome_bind].
  apply bind_Ret in E as (u & -> & E). cbn [mbind outcome_bind].
  apply bind_Ret in E as (u' & -> & E). cbn [mbind outcome_bind].
  apply bind_Ret in E as (es & -> & E). cbn [mbind outcome_bind].
  apply bind_Ret in E as (tl & -> & E). cbn [mbind outcome_bind].
  apply bind_Ret in E as (u'' & -> & E). cbn [mbind outcome_bind].
  destruct (set_queue_ok oB q (mk_oqueue es (q_head q) tl) HB) as [oB' EB]. exists oB'. split; [done|].
  apply (set_queue_cur _ _ _ _ HA) in E as (_ & _ & _ & E). apply (set_queue_cur _ _ _ _ HB) in EB as (_ & _ & _ & EB).
  by eexists.
Qed.

End Transfer.

Section Replay.
Context `{Build} {S W : Type} `{AllocatorLaws S}.
Context (crc32c : Z -> Z -> list Z -> Z).
Implicit Types (s : sei S W) (ops : list op) (h : handler).

(** The execution of a piece of code, with the operations it performed. *)
Fixpoint exec {R} (h : prog R) s : outcome (list op * R * sei S W) :=
  match h with
  | HEnd r => Ret ([], r, s)
  | HRead t addr k => exec (k (sei_read t s addr)) s
  | HWrite t addr value k =>
      s1 ← sei_write t s addr value;
      '(ops, r, s2) ← exec k s1; Ret (OWrite t addr value :: ops, r, s2)
  | HMalloc size k =>
      '(ptr, s1) ← sei_malloc s size;
      '(ops, r, s2) ← exec (k ptr) s1; Ret (OMalloc size :: ops, r, s2)
  | HFree ptr k =>
      s1 ← sei_free s ptr;
      '(ops, r, s2) ← exec k s1; Ret (OFree ptr :: ops, r, s2)
  | HCall fp args k =>
      s1 ← sei_delay_call s fp args;
      '(ops, r, s2) ← exec k s1; Ret (OCall fp args :: ops, r, s2)
  | HAppend ptr size k =>
      let data := read_block (s_mem s) ptr size in
      s1 ← sei_output_append crc32c s ptr data;
      '(ops, r, s2) ← exec k s1; Ret (OAppend ptr data :: ops, r, s2)
  | HDone k =>
      s1 ← sei_output_done s;
      '(ops, r, s2) ← exec k s1; Ret (ODone :: ops, r, s2)
  end.

(** The execution of a handler. *)
Definition run h s : outcome (list op * sei S W) :=
  '(ops, _, s') ← exec h s; Ret (ops, s').

Lemma run_exec h s ops s' : run h s = Ret (ops, s') <-> exec h s = Ret (ops, tt, s').
Proof.
  unfold run. split; [|by intros ->]. intros E. apply bind_Ret in E as ([[ops1 []] s1] & -> & [= <- <-]). done.
Qed.

(** An execution is the execution of its trace. *)
Lemma exec_exec_ops {R} (h : prog R) : forall s ops r s', exec h s = Ret (ops, r, s') -> exec_ops crc32c ops s = Ret s'.
Proof.
  induction h as [r0|t a k IH|t a v k IH|n k IH|p k IH|f args k IH|p n k IH|k IH];
    intros s ops r s' E; cbn [exec] in E; [by simplify_eq|by eapply IH|..].
  2: { apply bind_Ret in E as ([ptr s1] & E1 & E). apply bind_Ret in E as ([[ops1 r1] s2] & E2 & [= <- <- <-]).
       cbn [exec_ops exec_op]. rewrite E1. cbn [mbind outcome_bind]. by eapply IH. }
  all: apply bind_Ret in E as (s1 & E1 & E); apply bind_Ret in E as ([[ops1 r1] s2] & E2 & [= <- <- <-]);
    cbn [exec_ops exec_op]; rewrite E1; cbn [mbind outcome_bind]; by eapply IH.
Qed.
Lemma run_exec_ops h s ops s' : run h s = Ret (ops, s') -> exec_ops crc32c ops s = Ret s'.
Proof. intros E%run_exec. by eapply exec_exec_ops. Qed.

(** ** What an execution leaves alone *)

(** The output queues of the other phases, and the allocations made before. *)
Record frame s s' : Prop := {
  fr_obuf : forall o, cur_obuf s = Ret o -> exists o', cur_obuf s' = Ret o' /\ ob_p o' = ob_p o /\
    ob_redundancy_level o' = ob_redundancy_level o /\
    forall i, i <> ob_p o -> ob_queue o' !! i = ob_queue o !! i;
  fr_allocs : forall i, (i < count (s_talloc s) 0)%nat ->
    ta_allocations (s_talloc s') !! i = ta_allocations (s_talloc s) !! i;
  fr_count : (count (s_talloc s) 0 <= count (s_talloc s') 0)%nat;
}.

Lemma frame_refl s : frame s s.
Proof. split; eauto. Qed.

Lemma frame_trans s1 s2 s3 : frame s1 s2 -> frame s2 s3 -> frame s1 s3.
Proof.
  intros [O1 A1 C1] [O2 A2 C2]. split; [|intros; rewrite A2, A1; by try lia|lia].
  intros o Ho. destruct (O1 o Ho) as (o1 & Ho1 & Hp1 & Hl1 & Hq1).
  destruct (O2 o1 Ho1) as (o2 & Ho2 & Hp2 & Hl2 & Hq2).
  exists o2. split_and!; [done|congruence|congruence|]. intros i Hi. rewrite Hq2, Hq1 by congruence. done.
Qed.

Lemma frame_same s s' : s_obufs s' = s_obufs s -> s_obuf s' = s_obuf s -> s_talloc s' = s_talloc s ->
  frame s s'.
Proof. intros E1 E2 E3. split; rewrite ?E3; try done. intros o Ho. exists o. unfold cur_obuf in *. by rewrite E1, E2. Qed.

Lemma frame_set_cur s o q' o' s' q : cur_obuf s = Ret o -> ob_queue o !! ob_p o = Some q ->
  set_queue o (ob_p o) q' = Ret o' -> set_cur_obuf s o' = Ret s' -> frame s s'.
Proof.
  intros Hc Hq Eq Es. apply (set_queue_cur _ _ _ _ Hq) in Eq as (Hp & Hl & Hqs & _).
  unfold set_cur_obuf in Es. inv_outcome. split; cbn; try done.
  intros o1 Ho1. rewrite Hc in Ho1. injection Ho1 as <-. exists o'. split_and!; try done.
  - unfold cur_obuf. cbn. by apply arr_get_Ret, list_lookup_insert_eq.
  - intros i Hi. rewrite Hqs. by rewrite list_lookup_insert_ne by done.
Qed.

(** Allocation in phase 0 records the block behind the earlier ones. *)
Lemma talloc_malloc_0 t (al : S) n a t' al' : talloc_wf t -> ta_p t = 0%nat ->
  talloc_malloc t al n = Ret (a, t', al') ->
  ta_allocations t' = <[count t 0 := (a, n)]> (ta_allocations t) /\
  (count t 0 < length (ta_allocations t))%nat.
Proof.
  intros Hwf Hp E. pose proof (twf_level t Hwf).
  assert (Hg : arr_get (ta_size t) 0 = Ret (count t 0)) by (apply arr_get_Ret, get_count; [done|lia]).
  unfold talloc_malloc in E. rewrite Hp, Hg in E. cbn [Nat.eqb] in E. inv_outcome.
  match goal with X : (let '(_, _) := ?r in _) = _ |- _ => destruct r; inv_outcome; simplify_eq end.
  done.
Qed.

(** In a later phase it returns the block recorded there. *)
Lemma talloc_malloc_n t (al : S) n a : talloc_wf t -> (0 < ta_p t)%nat ->
  ta_allocations t !! count t (ta_p t) = Some (a, n) ->
  exists t', talloc_malloc t al n = Ret (a, t', al) /\ ta_allocations t' = ta_allocations t /\
    count t' 0 = count t 0.
Proof.
  intros Hwf Hp Ha. pose proof (twf_p t Hwf). pose proof (twf_level t Hwf).
  unfold talloc_malloc. rewrite (proj2 (Nat.ltb_lt _ _)), c_assert_true by lia. cbn.
  rewrite (proj2 (Nat.eqb_neq _ _)) by lia.
  unfold arr_get. rewrite (get_count t _ Hwf) by lia. cbn.
  unfold arr_set. rewrite decide_True by (rewrite (twf_len t Hwf); lia). cbn.
  rewrite Ha. cbn. eexists. split; [done|]. split; [done|]. by apply count_insert_ne; lia.
Qed.

Lemma frame_malloc s n ptr s' : talloc_wf (s_talloc s) -> sei_malloc s n = Ret (ptr, s') ->
  frame s s'.
Proof.
  intros Hwf E. unfold sei_malloc in E. apply bind_Ret in E as ([[a t] al] & E & [= <- <-]).
  pose proof (talloc_malloc_Ret _ _ _ _ _ _ Hwf E) as (_ & _ & _ & Hc & Hco).
  split; cbn; [eauto| |].
  - intros i Hi. destruct (decide (ta_p (s_talloc s) = 0)%nat) as [Hp|Hp].
    + apply talloc_malloc_0 in E as [-> _]; [|done|done]. by rewrite list_lookup_insert_ne by lia.
    + unfold talloc_malloc in E. rewrite (proj2 (Nat.eqb_neq _ _) Hp) in E. inv_outcome. by simplify_eq.
  - destruct (decide (ta_p (s_talloc s) = 0)%nat) as [Hp|Hp].
    + rewrite <- Hp, Hc. lia.
    + by rewrite Hco by done.
Qed.

Lemma frame_op s0 p ops o s s' : phase_state s0 p ops s -> exec_op crc32c o s = Ret s' -> frame s s'.
Proof.
  intros Hs E. destruct o; cbn [exec_op] in E.
  - unfold sei_write in E. inv_outcome. destruct r1. inv_outcome. by apply frame_same.
  - apply bind_Ret in E as ([ptr s1] & E & [= <-]). eapply frame_malloc; [apply (sw_talloc _ (ps_wf _ _ _ _ Hs))|done].
  - unfold sei_free in E. inv_outcome. by apply frame_same.
  - unfold sei_delay_call in E. inv_outcome. by apply frame_same.
  - unfold sei_output_append in E. case_match; [inv_outcome; apply frame_refl|].
    apply bind_Ret in E as (o & Ho & E). apply bind_Ret in E as (o' & Eo & E).
    unfold obuf_push in Eo. inv_outcome. by eapply frame_set_cur.
  - unfold sei_output_done in E. case_match; [inv_outcome; apply frame_refl|].
    apply bind_Ret in E as (o & Ho & E). apply bind_Ret in E as (o' & Eo & E).
    unfold obuf_done in Eo. inv_outcome. by eapply frame_set_cur.
Qed.

Lemma frame_ops s0 p ops' : forall ops s s', phase_state s0 p ops s ->
  exec_ops crc32c ops' s = Ret s' -> frame s s'.
Proof.
  induction ops' as [|o ops' IH]; intros ops s s' Hs E; cbn [exec_ops] in E.
  { injection E as <-. apply frame_refl. }
  apply bind_Ret in E as (s1 & E1 & E2). eapply frame_trans; [by eapply frame_op|].
  eapply IH; [|done]. by eapply phase_state_op.
Qed.

End Replay.

#[global] Instance read_block_proper : Proper (mem_eq ==> eq ==> eq ==> eq) read_block.
Proof. intros m1 m2 Hm p ? <- n ? <-. unfold read_block. apply list_fmap_ext. intros i a _. apply Hm. Qed.

(** ** The second execution repeats the first *)

Section Step.
Context `{Build} {S W : Type} `{AllocatorLaws S}.
Context (crc32c : Z -> Z -> list Z -> Z).
(** The states in which the two executions start, the allocator's state after
    the first one and the blocks it recorded. *)
Context (s0 s3 : sei S W) (al : S) (allocs : list (Z * Z)).
Context (Hfreed : length (freed (s_tbin s0) 0) = length (freed (s_tbin s3) 1)).
Context (Hqueued : length (queued (s_wts s0) 0) = length (queued (s_wts s3) 1)).
Context (Hcount : count (s_talloc s0) 0 = count (s_talloc s3) 1).
Implicit Types (s : sei S W) (ops : list op) (h : handler).

Record in_step ops sA sB : Prop := {
  is_A : phase_state s0 0 ops sA;
  is_B : phase_state s3 1 ops sB;
  is_mem : s_mem sA ≈ s_mem sB;
  is_tmax : tb_max_items (s_tbin sA) = tb_max_items (s_tbin sB);
  is_wmax : w_max_items (s_wts sA) = w_max_items (s_wts sB);
  is_out : exists oA oB, cur_obuf sA = Ret oA /\ cur_obuf sB = Ret oB /\ same_cur oA oB;
  is_al : s_alloc sB = al;
  is_allocs : ta_allocations (s_talloc sB) = allocs;
}.

Lemma phase_lt ops sA sB : in_step ops sA sB -> (0 < SEI_DMR_REDUNDANCY)%nat /\ (1 < SEI_DMR_REDUNDANCY)%nat.
Proof. intros Hs. pose proof (sw_dmr _ (ps_wf _ _ _ _ (is_A _ _ _ Hs))). lia. Qed.

Lemma step_write ops sA sB t addr v sA' : in_step ops sA sB -> sei_write t sA addr v = Ret sA' ->
  exists sB', sei_write t sB addr v = Ret sB' /\ in_step (ops ++ [OWrite t addr v]) sA' sB'.
Proof.
  intros Hs E. pose proof (phase_lt _ _ _ Hs) as [Hd0 Hd1]. pose proof (is_B _ _ _ Hs) as HB.
  destruct (ps_log _ _ _ _ HB) as (a & Hcow & _ & Hrel).
  pose proof (sw_cow _ (ps_wf _ _ _ _ HB)) as Hlc. rewrite Hcow, length_insert in Hlc.
  pose proof (sw_dmr _ (ps_wf _ _ _ _ HB)) as Hdm.
  assert (HBw : exists sB', sei_write t sB addr v = Ret sB' /\ s_mem sB' = store (sizeof t) (s_mem sB) addr v
    /\ s_tbin sB' = s_tbin sB /\ s_wts sB' = s_wts sB /\ cur_obuf sB' = cur_obuf sB
    /\ s_alloc sB' = s_alloc sB /\ s_talloc sB' = s_talloc sB).
  { unfold sei_write. rewrite (ps_p _ _ _ _ HB), (phase_in_range 1 _ Hd1), c_assert_true. cbn [mbind outcome_bind].
    rewrite arr_getZ_nat, (proj2 (arr_get_Ret _ _ a)) by (rewrite Hcow; apply list_lookup_insert_eq; lia).
    cbn [mbind outcome_bind]. unfold log_write.
    destruct (abuf_push_rel t a _ addr (load (sizeof t) (s_mem sB) addr) Hrel) as (a' & -> & _).
    cbn [mbind outcome_bind]. rewrite arr_setZ_nat, arr_set_lt by (rewrite Hcow, length_insert; lia).
    eexists. split; [done|]. by split_and!. }
  destruct HBw as (sB' & EB & Em & Et & Ew & Eo & Ea & Eal). exists sB'. split; [done|].
  pose proof (phase_state_write _ _ _ _ _ _ _ _ (is_A _ _ _ Hs) E) as HA'.
  pose proof (phase_state_write _ _ _ _ _ _ _ _ HB EB) as HB'.
  unfold sei_write in E. inv_outcome. destruct r1 as [a1 m1]. unfold log_write in *. inv_outcome. simplify_eq.
  destruct Hs as [_ _ Hm Ht Hw Ho Hal Hall].
  split; cbn; rewrite ?Et, ?Ew, ?Eo, ?Ea, ?Eal; try done. rewrite Em. by rewrite Hm.
Qed.

Lemma step_free ops sA sB ptr sA' : in_step ops sA sB -> sei_free sA ptr = Ret sA' ->
  exists sB', sei_free sB ptr = Ret sB' /\ in_step (ops ++ [OFree ptr]) sA' sB'.
Proof.
  intros Hs E. pose proof (phase_lt _ _ _ Hs) as [Hd0 Hd1].
  pose proof (phase_state_free _ _ _ _ _ _ (is_A _ _ _ Hs) E) as HA'.
  pose proof Hs as [HA HB Hm Ht Hw Ho Hal Hall].
  unfold sei_free in E. rewrite (ps_p _ _ _ _ HA) in E. apply bind_Ret in E as (b & E & [= <-]).
  assert (Hlen : length (freed (s_tbin sA) 0) = length (freed (s_tbin sB) 1)).
  { rewrite (ps_freed _ _ _ _ HA), (ps_freed _ _ _ _ HB), !decide_True, !length_app by done. lia. }
  destruct (tbin_add_transfer _ _ _ _ _ _ (proj1 (sw_tbin _ (ps_wf _ _ _ _ HA)))
    (proj1 (sw_tbin _ (ps_wf _ _ _ _ HB))) Hd0 Hd1 Ht Hlen E) as (b' & EB & Hmax).
  assert (EB' : sei_free sB ptr = Ret (with_tbin sB b')).
  { unfold sei_free. by rewrite (ps_p _ _ _ _ HB), EB. }
  eexists. split; [exact EB'|]. by split; try done; eapply phase_state_free.
Qed.

Lemma step_call ops sA sB fp args sA' : in_step ops sA sB -> sei_delay_call sA fp args = Ret sA' ->
  exists sB', sei_delay_call sB fp args = Ret sB' /\ in_step (ops ++ [OCall fp args]) sA' sB'.
Proof.
  intros Hs E. pose proof (phase_lt _ _ _ Hs) as [Hd0 Hd1].
  pose proof (phase_state_call _ _ _ _ _ _ _ (is_A _ _ _ Hs) E) as HA'.
  pose proof Hs as [HA HB Hm Ht Hw Ho Hal Hall].
  unfold sei_delay_call in E. rewrite (ps_p _ _ _ _ HA) in E. apply bind_Ret in E as (b & E & [= <-]).
  assert (Hlen : length (queued (s_wts sA) 0) = length (queued (s_wts sB) 1)).
  { rewrite (ps_queued _ _ _ _ HA), (ps_queued _ _ _ _ HB), !decide_True, !length_app by done. lia. }
  destruct (wts_add_transfer _ _ _ _ _ _ _ (sw_wts _ (ps_wf _ _ _ _ HA))
    (sw_wts _ (ps_wf _ _ _ _ HB)) Hd0 Hd1 Hw Hlen E) as (b' & EB & Hmax).
  assert (EB' : sei_delay_call sB fp args = Ret (with_wts sB b')).
  { unfold sei_delay_call. by rewrite (ps_p _ _ _ _ HB), EB. }
  eexists. split; [exact EB'|]. by split; try done; eapply phase_state_call.
Qed.

Lemma step_malloc ops sA sB n ptr sA' : in_step ops sA sB -> sei_malloc sA n = Ret (ptr, sA') ->
  allocs !! count (s_talloc sA) 0 = Some (ptr, n) ->
  exists sB', sei_malloc sB n = Ret (ptr, sB') /\ in_step (ops ++ [OMalloc n]) sA' sB'.
Proof.
  intros Hs E Hrec. pose proof Hs as [HA HB Hm Ht Hw Ho Hal Hall].
  assert (HA' : phase_state s0 0 (ops ++ [OMalloc n]) sA') by (eapply phase_state_malloc; [done|by rewrite E]).
  destruct (sw_talloc _ (ps_wf _ _ _ _ HB)) as [Hwt _]. pose proof (ps_tp _ _ _ _ HB) as Htp.
  destruct (talloc_malloc_n (s_talloc sB) (s_alloc sB) n ptr Hwt) as (t' & EB & Hall' & _); [lia| |].
  { rewrite Hall, Htp, (ps_count _ _ _ _ HB), decide_True, <- Hcount by done.
    by rewrite (ps_count _ _ _ _ HA), decide_True in Hrec by done. }
  assert (EB' : sei_malloc sB n = Ret (ptr, with_alloc (with_talloc sB t') (s_alloc sB))).
  { unfold sei_malloc. by rewrite EB. }
  eexists. split; [exact EB'|]. unfold sei_malloc in E. apply bind_Ret in E as ([[a t] al'] & _ & [= -> <-]).
  split; try done; [|cbn; congruence]. eapply phase_state_malloc; [done|]. by rewrite EB'.
Qed.

Lemma set_cur_obuf_get s o s' : set_cur_obuf s o = Ret s' -> cur_obuf s' = Ret o.
Proof. unfold set_cur_obuf, cur_obuf. intros E. inv_outcome. cbn. by apply arr_get_Ret, list_lookup_insert_eq. Qed.

Lemma set_cur_obuf_ok s o o' : cur_obuf s = Ret o -> exists s', set_cur_obuf s o' = Ret s'.
Proof.
  unfold set_cur_obuf, cur_obuf. intros E%arr_get_Ret%lookup_lt_Some. rewrite arr_set_lt by done. cbn. eauto.
Qed.

(** Output operations act on the current queue of the phase. *)
Lemma step_output ops o sA sB f sA' :
  (forall oA oB oA', same_cur oA oB -> f oA = Ret oA' -> exists oB', f oB = Ret oB' /\ same_cur oA' oB') ->
  (forall s, s_p s <> -1 -> exec_op crc32c o s = (o ← cur_obuf s; o' ← f o; set_cur_obuf s o')) ->
  in_step ops sA sB -> exec_op crc32c o sA = Ret sA' ->
  exists sB', exec_op crc32c o sB = Ret sB' /\ in_step (ops ++ [o]) sA' sB'.
Proof.
  intros Hf Hex Hs E. pose proof Hs as [HA HB Hm Ht Hw (oA & oB & HoA & HoB & Hsame) Hal Hall].
  pose proof (phase_state_op _ _ _ _ _ _ _ HA E) as HA'.
  rewrite Hex in E by (rewrite (ps_p _ _ _ _ HA); lia). rewrite HoA in E. cbn [mbind outcome_bind] in E.
  apply bind_Ret in E as (oA' & EA & E). destruct (Hf _ _ _ Hsame EA) as (oB' & EB & Hsame').
  destruct (set_cur_obuf_ok sB oB oB' HoB) as [sB' EsB].
  assert (EB' : exec_op crc32c o sB = Ret sB').
  { rewrite Hex by (rewrite (ps_p _ _ _ _ HB); lia). rewrite HoB. cbn [mbind outcome_bind]. by rewrite EB. }
  pose proof (phase_state_op _ _ _ _ _ _ _ HB EB') as HB'.
  exists sB'. split; [done|]. pose proof (set_cur_obuf_get _ _ _ E). pose proof (set_cur_obuf_get _ _ _ EsB).
  apply cur_obuf_frame in E as [os ->]. apply cur_obuf_frame in EsB as [os' ->].
  split; try done. by exists oA', oB'.
Qed.

Lemma step_append ops sA sB ptr data sA' : in_step ops sA sB -> sei_output_append crc32c sA ptr data = Ret sA' ->
  exists sB', sei_output_append crc32c sB ptr data = Ret sB' /\ in_step (ops ++ [OAppend ptr data]) sA' sB'.
Proof.
  apply (step_output ops (OAppend ptr data) sA sB (fun o => obuf_push crc32c o ptr data)).
  - intros. by eapply obuf_push_transfer.
  - intros s Hp. cbn. unfold sei_output_append. by rewrite (proj2 (Z.eqb_neq _ _) Hp).
Qed.

Lemma step_done ops sA sB sA' : in_step ops sA sB -> sei_output_done sA = Ret sA' ->
  exists sB', sei_output_done sB = Ret sB' /\ in_step (ops ++ [ODone]) sA' sB'.
Proof.
  apply (step_output ops ODone sA sB obuf_done).
  - intros. by eapply obuf_done_transfer.
  - intros s Hp. cbn. unfold sei_output_done. by rewrite (proj2 (Z.eqb_neq _ _) Hp).
Qed.

(** Replay: the handler run from a state in step performs the same operations. *)
Lemma exec_replay {R} (h : prog R) : forall ops sA sB ops' r sA', in_step ops sA sB ->
  exec crc32c h sA = Ret (ops', r, sA') ->
  (forall i, (i < count (s_talloc sA') 0)%nat -> allocs !! i = ta_allocations (s_talloc sA') !! i) ->
  exists sB', exec crc32c h sB = Ret (ops', r, sB') /\ in_step (ops ++ ops') sA' sB'.
Proof.
  induction h as [r0|t a k IH|t a v k IH|n k IH|p k IH|f args k IH|p n k IH|k IH];
    intros ops sA sB ops' r sA' Hs E Hrec; cbn [exec] in E |- *.
  - injection E as <- <- <-. exists sB. by rewrite app_nil_r.
  - replace (sei_read t sB a) with (sei_read t sA a) by (exact (load_proper _ _ _ (is_mem _ _ _ Hs) _ _ eq_refl)).
    by eapply IH.
  - apply bind_Ret in E as (s1 & E1 & E). apply bind_Ret in E as ([[ops1 r1] s2] & E2 & [= <- <- <-]).
    destruct (step_write _ _ _ _ _ _ _ Hs E1) as (sB1 & -> & Hs1). cbn [mbind outcome_bind].
    destruct (IH _ _ _ _ _ _ Hs1 E2 Hrec) as (sB2 & -> & Hs2). rewrite <- app_assoc in Hs2. eauto.
  - apply bind_Ret in E as ([ptr s1] & E1 & E). apply bind_Ret in E as ([[ops1 r1] s2] & E2 & [= <- <- <-]).
    pose proof (is_A _ _ _ Hs) as HA. destruct (sw_talloc _ (ps_wf _ _ _ _ HA)) as [Hwt _].
    assert (HA1 : phase_state s0 0 (ops ++ [OMalloc n]) s1) by (eapply phase_state_malloc; [done|by rewrite E1]).
    pose proof (frame_ops _ _ _ _ _ _ _ HA1 (exec_exec_ops _ _ _ _ _ _ E2)) as [_ Hall Hcnt].
    assert (Hptr : allocs !! count (s_talloc sA) 0 = Some (ptr, n)).
    { unfold sei_malloc in E1. apply bind_Ret in E1 as ([[a t] al'] & E1 & [= -> <-]). cbn in Hall, Hcnt.
      pose proof (talloc_malloc_Ret _ _ _ _ _ _ Hwt E1) as (_ & _ & _ & Hc & _).
      rewrite (ps_tp _ _ _ _ HA) in Hc.
      apply talloc_malloc_0 in E1 as [Eall Hlt]; [|done|apply (ps_tp _ _ _ _ HA)].
      rewrite Hrec, Hall, Eall by lia. by apply list_lookup_insert_eq. }
    destruct (step_malloc _ _ _ _ _ _ Hs E1 Hptr) as (sB1 & -> & Hs1). cbn [mbind outcome_bind].
    destruct (IH _ _ _ _ _ _ _ Hs1 E2 Hrec) as (sB2 & -> & Hs2). rewrite <- app_assoc in Hs2. eauto.
  - apply bind_Ret in E as (s1 & E1 & E). apply bind_Ret in E as ([[ops1 r1] s2] & E2 & [= <- <- <-]).
    destruct (step_free _ _ _ _ _ Hs E1) as (sB1 & -> & Hs1). cbn [mbind outcome_bind].
    destruct (IH _ _ _ _ _ _ Hs1 E2 Hrec) as (sB2 & -> & Hs2). rewrite <- app_assoc in Hs2. eauto.
  - apply bind_Ret in E as (s1 & E1 & E). apply bind_Ret in E as ([[ops1 r1] s2] & E2 & [= <- <- <-]).
    destruct (step_call _ _ _ _ _ _ Hs E1) as (sB1 & -> & Hs1). cbn [mbind outcome_bind].
    destruct (IH _ _ _ _ _ _ Hs1 E2 Hrec) as (sB2 & -> & Hs2). rewrite <- app_assoc in Hs2. eauto.
  - apply bind_Ret in E as (s1 & E1 & E). apply bind_Ret in E as ([[ops1 r1] s2] & E2 & [= <- <- <-]).
    rewrite <- (read_block_proper _ _ (is_mem _ _ _ Hs) _ _ eq_refl _ _ eq_refl).
    destruct (step_append _ _ _ _ _ _ Hs E1) as (sB1 & -> & Hs1). cbn [mbind outcome_bind].
    destruct (IH _ _ _ _ _ _ Hs1 E2 Hrec) as (sB2 & -> & Hs2). rewrite <- app_assoc in Hs2. eauto.
  - apply bind_Ret in E as (s1 & E1 & E). apply bind_Ret in E as ([[ops1 r1] s2] & E2 & [= <- <- <-]).
    destruct (step_done _ _ _ _ Hs E1) as (sB1 & -> & Hs1). cbn [mbind outcome_bind].
    destruct (IH _ _ _ _ _ _ Hs1 E2 Hrec) as (sB2 & -> & Hs2). rewrite <- app_assoc in Hs2. eauto.
Qed.

End Step.
