(* ===== verification/SeiComplete.v ===== *)
(** * No false alarms

    The converse of the soundness of file SeiDmr: a deterministic handler that
    runs twice on healthy cores is never rejected.  [handler_commits] shows that
    the transaction of a handler whose first execution ended goes through the
    switch, repeats the execution, passes every comparison of the commit and
    leaves exactly the effects of one execution. *)

From S2P Require Export SeiHandler.

(** The value the log holds for the last write to an object is in the memory. *)
Lemma replay_norm_last ws m i w : separated ws -> last_for (norm <$> ws) i w ->
  load (w_size w) (replay ws m) (w_addr w) = w_val w.
Proof.
  intros Hsep [Hi Hlast]. rewrite list_lookup_fmap in Hi.
  destruct (ws !! i) as [w0|] eqn:E0; [|done]. injection Hi as <-. cbn.
  apply (replay_last ws m i w0); [done|]. split; [done|]. intros j w' Hj Hw'.
  apply (Hlast j (norm w')); [done|]. by rewrite list_lookup_fmap, Hw'.
Qed.

Section Complete.
Context `{Build} {S W : Type} `{AllocatorLaws S}.
Context (crc32c : Z -> Z -> list Z -> Z).
Context (crc_run : Z -> nat -> Z -> list Z -> Z).
Context (call : Z -> list Z -> W -> W).
Implicit Types (s : sei S W) (ops : list op) (h : handler).

Abbreviation commit := (sei_commit crc_run call None).
Abbreviation switch := (sei_switch crc_run).

(** begin; handler; switch; handler; commit *)
Definition handler_transaction h s : outcome (list op * sei S W) :=
  s ← sei_begin s;
  '(_, s) ← run crc32c h s;
  s ← switch s;
  '(ops, s) ← run crc32c h s;
  s ← commit s;
  Ret (ops, s).

(** The same for code that hands on a value: the one of the second execution. *)
Definition prog_transaction {R} (h : prog R) s : outcome (list op * R * sei S W) :=
  s ← sei_begin s;
  '(_, _, s) ← exec crc32c h s;
  s ← switch s;
  '(ops, r, s) ← exec crc32c h s;
  s ← commit s;
  Ret (ops, r, s).

Lemma prog_transaction_handler h s : ('(ops, _, s') ← prog_transaction h s; Ret (ops, s')) = handler_transaction h s.
Proof.
  unfold prog_transaction, handler_transaction, run. destruct (sei_begin s) as [s0|]; [|done]. rewrite !bind_Ret_l.
  destruct (exec crc32c h s0) as [[[ops0 r0] s1]|]; [|done]. rewrite !bind_Ret_l. destruct (switch s1) as [s2|]; [|done]. rewrite !bind_Ret_l.
  destruct (exec crc32c h s2) as [[[ops1 r1] s3]|]; [|done]. rewrite !bind_Ret_l. by destruct (commit s3).
Qed.

(** The output queues of the two phases have the same contents. *)
Definition in_sync s : Prop :=
  exists o q, cur_obuf s = Ret o /\ ob_p o = 0%nat /\ ob_redundancy_level o = 2%nat /\
    ob_queue o !! 0%nat = Some q /\ ob_queue o !! 1%nat = Some q.

(** The input message is absent, or it still has its checksum after the
    execution, or it may be modified; in the last two cases the core is healthy. *)
Definition input_ok s (m : mem) : Prop :=
  let b := s_ibuf s in
  match ib_mode b with
  | READ_ONLY =>
      (ib_ptr b = 0 /\ ib_size b = 0 /\ ib_crc b = crc_init) \/
      (ib_ptr b <> 0 /\ healthy crc_run crc32c (cpu (pr_machine (s_proc s))) /\
       crc_compute crc32c (ib_ptr b) (read_block m (ib_ptr b) (ib_size b)) = ib_crc b)
  | READ_WRITE => healthy crc_run crc32c (cpu (pr_machine (s_proc s)))
  end.

(** ** The input check *)

Lemma ibuf_correct_ok s (m m' : mem) : input_ok s m -> m ≈ m' ->
  let '(b, pr) := ibuf_switch crc_run m (s_ibuf s) (s_proc s) in
  exists pr', ibuf_correct crc_run m' b pr = Ret (true, pr').
Proof.
  intros Hi Hm. unfold input_ok in Hi. unfold ibuf_switch, ibuf_correct.
  pose proof (read_block_proper _ _ Hm (ib_ptr (s_ibuf s)) _ eq_refl (ib_size (s_ibuf s)) _ eq_refl) as Hb.
  destruct (ib_mode (s_ibuf s)) eqn:Em; cbn; rewrite ?Em; cbn.
  - destruct Hi as [(-> & -> & ->)|(Hp & Hh & Hc)].
    + rewrite !Z.eqb_refl. rewrite !bool_decide_true by done. rewrite !c_assert_true. cbn. eauto.
    + rewrite (proj2 (Z.eqb_neq _ _) Hp). cbn. rewrite Hh, <- Hb, Hc, Z.eqb_refl. eauto.
  - rewrite !Hi, Hb, Z.eqb_refl. eauto.
Qed.

(** ** The control-flow gates *)

Lemma cf_gates_ok n : forall i cf, (i + n <= length cf)%nat ->
  (forall j c, (i <= j < i + n)%nat -> cf !! j = Some c -> c = mk_cfc RESET RESET RESET RESET) ->
  exists cf', cf_gates n i cf = Ret (true, cf') /\ length cf' = length cf /\
    (forall j, (j < i \/ i + n <= j)%nat -> cf' !! j = cf !! j) /\
    forall j c, (i <= j < i + n)%nat -> cf' !! j = Some c -> cfc_check c = true.
Proof.
  induction n as [|n IH]; intros i cf Hl Hc; cbn [cf_gates].
  { exists cf. split_and!; try done. intros; lia. }
  destruct (arr_get_lt cf i) as (c & Hi & ->); [lia|]. cbn [mbind outcome_bind].
  rewrite (Hc i c ltac:(lia) Hi). set (c' := mk_cfc SET SET SET SET).
  change (cfc_amog _) with (true, c'). cbn beta iota. rewrite arr_set_lt by lia. cbn [mbind outcome_bind negb].
  destruct (IH (i + 1)%nat (<[i := c']> cf)) as (cf' & E & Hl' & Hout & Hin).
  { rewrite length_insert. lia. }
  { intros j d Hj. rewrite list_lookup_insert_ne by lia. apply Hc. lia. }
  rewrite length_insert in Hl'. exists cf'. split_and!; try done.
  - intros j Hj. rewrite Hout, list_lookup_insert_ne by lia. done.
  - intros j d Hj Hd. destruct (decide (j = i)) as [->|Hne]; [|apply (Hin j); [lia|done]].
    rewrite Hout, list_lookup_insert_eq in Hd by lia. injection Hd as <-. done.
Qed.

(** ** Switch *)

Lemma sei_switch_ok s0 ops s o : phase_state s0 0 ops s -> (2 <= s_redundancy_level s0)%nat ->
  count (s_talloc s) 1 = 0%nat -> cur_obuf s = Ret o ->
  exists s', switch s = Ret s' /\ cur_obuf s' = Ret (obuf_close o) /\ s_alloc s' = s_alloc s /\
    ta_allocations (s_talloc s') = ta_allocations (s_talloc s) /\
    (s_ibuf s', s_proc s') = ibuf_switch crc_run (s_mem s) (s_ibuf s) (s_proc s).
Proof.
  intros Hs Hlv Hcnt Ho. pose proof (ps_wf _ _ _ _ Hs) as Hwf. pose proof (ps_level _ _ _ _ Hs) as El.
  destruct (ps_log _ _ _ _ Hs) as (a & Hcow & Hpo & Hrel). destruct (sw_talloc _ Hwf) as [Hwt Htl].
  pose proof (twf_level _ Hwt). pose proof (sw_cow _ Hwf) as Hlc. rewrite Hcow, length_insert in Hlc.
  unfold SEI_DMR_MAX_REDUNDANCY in Hlc.
  unfold sei_switch. rewrite (ps_p _ _ _ _ Hs), (proj2 (andb_true_iff _ _)), c_assert_true
    by (split; [done|apply Z.ltb_lt; lia]).
  cbn [mbind outcome_bind with_p s_talloc]. unfold talloc_switch.
  rewrite (ps_tp _ _ _ _ Hs), (proj2 (Nat.ltb_lt _ _)), c_assert_true by lia. cbn [mbind outcome_bind Nat.add].
  rewrite (proj2 (arr_get_Ret _ _ _) (get_count _ 1 Hwt ltac:(lia))), Hcnt. cbn [mbind outcome_bind Nat.eqb].
  rewrite c_assert_true. cbn [mbind outcome_bind].
  change (cur_obuf (with_talloc _ _)) with (cur_obuf s). rewrite Ho. cbn [mbind outcome_bind].
  unfold cur_obuf in Ho. apply arr_get_Ret in Ho as Hlt. apply lookup_lt_Some in Hlt.
  unfold set_cur_obuf. cbn [with_talloc with_p s_obufs s_obuf]. rewrite arr_set_lt by done.
  cbn [mbind outcome_bind with_obufs with_talloc with_p s_mem s_ibuf s_proc s_p].
  destruct (ibuf_switch _ _ _ _) as [ib pr].
  cbn [with_obufs with_talloc with_ibuf with_proc with_p s_mem s_cow s_p].
  change (Z.of_nat 0 + 1 - 1) with (Z.of_nat 0). rewrite arr_getZ_nat.
  rewrite (proj2 (arr_get_Ret _ _ a)) by (rewrite Hcow; apply list_lookup_insert_eq; lia).
  cbn [mbind outcome_bind]. destruct (abuf_swap_rel a _ (s_mem s) Hrel Hpo) as (a' & -> & _).
  cbn [mbind outcome_bind]. rewrite arr_setZ_nat, arr_set_lt by (rewrite Hcow, length_insert; lia).
  eexists. split; [done|]. split_and!; try done. unfold cur_obuf. cbn.
  by apply arr_get_Ret, list_lookup_insert_eq.
Qed.

(** ** Commit *)

Lemma compare_ok m cow a0 a1 l0 l1 : SEI_DMR_REDUNDANCY = 2%nat ->
  cow !! 0%nat = Some a0 -> cow !! 1%nat = Some a1 ->
  log_rel a0 l0 -> log_rel a1 l1 -> poped a0 = 0%nat -> poped a1 = 0%nat ->
  shape <$> l0 = shape <$> l1 -> (length l0 <= ABUF_MAX_CONFLICTS)%nat ->
  (forall i w, last_for l0 i w -> load (w_size w) m (w_addr w) = w_val w) ->
  exists cow', compare_cows m cow 2 = Ret cow'.
Proof.
  intros HN Ha0 Ha1 Hr0 Hr1 Hp0 Hp1 Hsh Hmax Hlast. unfold compare_cows. cbn [Nat.eqb].
  rewrite (proj2 (arr_get_Ret _ _ _) Ha0), (proj2 (arr_get_Ret _ _ _) Ha1). cbn [mbind outcome_bind].
  destruct (abuf_cmp_heap_complete m a0 a1 l0 l1) as ([b0 b1] & ->); try done. cbn [mbind outcome_bind].
  rewrite arr_set_lt by (by eapply lookup_lt_Some). cbn [mbind outcome_bind].
  rewrite arr_set_lt by (rewrite length_insert; by eapply lookup_lt_Some). eauto.
Qed.

Lemma sei_commit_ok s o pr a0 a1 l0 l1 : sei_wf s -> SEI_DMR_REDUNDANCY = 2%nat -> s_redundancy_level s = 2%nat ->
  s_cow s !! 0%nat = Some a0 -> s_cow s !! 1%nat = Some a1 ->
  log_rel a0 l0 -> log_rel a1 l1 -> poped a0 = 0%nat -> poped a1 = 0%nat ->
  (exists cow', compare_cows (s_mem s) (s_cow s) 2 = Ret cow') ->
  wts_agree (s_wts s) -> tbin_agree (s_tbin s) -> NoDup (freed (s_tbin s) 0) ->
  (forall q, q ∈ freed (s_tbin s) 0 -> q ∈ al_live (s_alloc s)) ->
  ta_p (s_talloc s) = 1%nat -> count (s_talloc s) 1 = count (s_talloc s) 0 ->
  (forall i c, (i < 2)%nat -> s_cf s !! i = Some c -> c = mk_cfc RESET RESET RESET RESET) ->
  cur_obuf s = Ret o -> ibuf_correct crc_run (s_mem s) (s_ibuf s) (s_proc s) = Ret (true, pr) ->
  exists s', commit s = Ret s' /\ cur_obuf s' = Ret (obuf_close o).
Proof.
  intros Hwf HN Hlv Ha0 Ha1 Hr0 Hr1 Hp0 Hp1 [cow Ecow] Hwag Hbag Hnd Hlive Htp Hcnt Hcf Ho Hib.
  destruct (compare_inv _ _ _ _ _ _ _ Ha0 Ha1 Hr0 Hr1 Hp0 Hp1 Ecow) as (_ & Hlc & Hbok).
  destruct (sw_tbin _ Hwf) as [Hwb Hbl]. destruct (sw_talloc _ Hwf) as [Hwt Htl].
  pose proof (sw_cf _ Hwf) as Hlf. pose proof (sw_cow _ Hwf) as Hlw. unfold SEI_DMR_MAX_REDUNDANCY in *.
  destruct (cf_gates_ok 2 0 (s_cf s)) as (cf & Ecf & Hlf' & _ & Hck); [lia|intros; by eapply (Hcf j); [lia|]|].
  destruct (clean_cows_ok 2 cow) as (cow2 & Ecl & _); [lia|done|].
  destruct (proj1 (wts_flush_spec call (s_wts s) (s_world s) (sw_wts _ Hwf) ltac:(lia)) Hwag) as (w' & Ew & _).
  destruct (tbin_flush_ok _ _ Hwb Hbag Hnd Hlive) as (tb & al & Etb & _).
  destruct (talloc_clean_ok (s_talloc s) Hwt) as (t & Et); [rewrite Htl; lia| |].
  { intros i Hi. destruct i as [|[|i]]; [done|done|lia]. }
  destruct (set_cur_obuf_ok s o (obuf_close o) Ho) as [s1 Es1]. unfold set_cur_obuf in Es1. inv_outcome.
  unfold sei_commit. rewrite Hlv. eapply bind_ex.
  { eapply bind_Ret_intro; [exact Ecf|]. cbn beta iota. eapply bind_Ret_intro; [done|].
    eapply bind_Ret_intro; [exact Ecow|]. reflexivity. }
  eapply bind_ex; [exact Ecl|]. eapply bind_ex; [exact Ew|]. eapply bind_ex; [exact Etb|].
  eapply bind_ex; [exact Et|]. eapply bind_ex; [exact Ho|].
  eapply bind_ex; [eapply bind_Ret_intro; [by apply arr_set_lt|reflexivity]|].
  eapply bind_ex.
  { apply for_range_check_ok. intros i Hi. destruct (arr_get_lt cf i) as (c & Hc & Ec); [lia|].
    eapply bind_Ret_intro; [exact Ec|]. by rewrite (Hck i c Hi Hc). }
  eapply bind_ex; [exact Hib|]. eapply bind_ex; [done|].
  eexists. split; [done|]. unfold cur_obuf. cbn. by apply arr_get_Ret, list_lookup_insert_eq.
Qed.

(** The commit frees the blocks of the trash bin in order. *)
Lemma commit_frees s s' : sei_wf s -> commit s = Ret s' -> free_all (freed (s_tbin s) 0) (s_alloc s) = Ret (s_alloc s').
Proof.
  intros Hwf E. destruct (sw_tbin _ Hwf) as [Hwb _]. unfold sei_commit in E.
  apply bind_Ret in E as (s1 & E1 & E). apply bind_Ret in E1 as ([ok cf] & Ecf & E1).
  apply bind_Ret in E1 as (u & _ & E1). apply bind_Ret in E1 as (cow & Ecow & [= <-]).
  apply bind_Ret in E as (cow1 & _ & E). unfold commit_flush in E. apply bind_Ret in E as ([wt world] & _ & E). cbn in E.
  apply bind_Ret in E as ([tb al] & Etb & E). apply (tbin_flush_frees _ _ _ _ Hwb) in Etb. rewrite Etb.
  apply bind_Ret in E as (t & _ & E). apply bind_Ret in E as (o & _ & E). apply bind_Ret in E as (s2 & Eo & E).
  apply cur_obuf_frame in Eo as [os ->]. apply bind_Ret in E as (u1 & _ & E). apply bind_Ret in E as ([ok' pr] & _ & E).
  by apply bind_Ret in E as (u2 & _ & [= <-]).
Qed.

(** ** The two executions of a handler *)

(** What the first execution hands over to the second one. *)
Lemma start_in_step s0 s1 s3 ops o0 o1 q : (2 <= s_redundancy_level s0)%nat ->
  phase_state s0 0 [] s0 -> phase_state s0 0 ops s1 -> switch s1 = Ret s3 ->
  (forall q, (q < s_redundancy_level s0)%nat -> freed (s_tbin s0) q = []) ->
  (forall q, (q < s_redundancy_level s0)%nat -> queued (s_wts s0) q = []) ->
  (forall q, (q < s_redundancy_level s0)%nat -> count (s_talloc s0) q = 0%nat) ->
  (exists b, s_cow s0 !! 1%nat = Some b /\ log_rel b [] /\ poped b = 0%nat) ->
  tb_max_items (s_tbin s1) = tb_max_items (s_tbin s0) -> w_max_items (s_wts s1) = w_max_items (s_wts s0) ->
  cur_obuf s0 = Ret o0 -> ob_queue o0 !! ob_p o0 = Some q ->
  cur_obuf s3 = Ret o1 -> ob_queue o1 !! ob_p o1 = Some q ->
  in_step s0 s3 (s_alloc s3) (ta_allocations (s_talloc s3)) [] s0 s3.
Proof.
  intros Hlv Hs0 Hs1 Esw Hf Hq Hc (b & Hb & Hrb & Hpb) Htm Hwm Ho0 Hq0 Ho1 Hq1.
  apply (sei_switch_inv _ _ _ _ _ _ Hs1) in Esw as (Hwf3 & Hp3 & Hlv3 & Htp3 & Hts3 & Htb3 & Hwt3 & _ & _ & Hm3
    & a0 & Hc3 & _ & _); [|lia].
  split; try done.
  - eapply (phase_state_start s3 1 b); try done; [lia|]. by rewrite Hc3, list_lookup_insert_ne.
  - by rewrite Htb3.
  - by rewrite Hwt3.
  - exists o0, o1. split_and!; [done|done|]. by exists q.
Qed.

(** The capacity of the trash bin and of the call queue never changes. *)
Lemma exec_ops_max ops : forall s s', exec_ops crc32c ops s = Ret s' ->
  tb_max_items (s_tbin s') = tb_max_items (s_tbin s) /\ w_max_items (s_wts s') = w_max_items (s_wts s).
Proof.
  induction ops as [|o ops IH]; intros s s' E; cbn [exec_ops] in E; [by simplify_eq|].
  apply bind_Ret in E as (s1 & E1 & E2). apply IH in E2 as [-> ->]. clear IH.
  destruct o; cbn [exec_op] in E1.
  - unfold sei_write in E1. inv_outcome. destruct r1. inv_outcome. done.
  - unfold sei_malloc in E1. apply bind_Ret in E1 as ([ptr s2] & E1 & [= <-]).
    apply bind_Ret in E1 as ([[a t] al] & _ & [= _ <-]). done.
  - unfold sei_free in E1. inv_outcome. cbn. by split; [eapply tbin_add_max|].
  - unfold sei_delay_call in E1. inv_outcome. cbn. by split; [|eapply wts_add_max].
  - unfold sei_output_append in E1. case_match; [by simplify_eq|]. inv_outcome.
    match goal with X : set_cur_obuf _ _ = _ |- _ => apply cur_obuf_frame in X as [os ->] end. done.
  - unfold sei_output_done in E1. case_match; [by simplify_eq|]. inv_outcome.
    match goal with X : set_cur_obuf _ _ = _ |- _ => apply cur_obuf_frame in X as [os ->] end. done.
Qed.

(** The state in which the second execution of a handler ends. *)
Record replayed s ops s1 s4 : Prop := {
  rp_two : two_executions crc32c crc_run ops ops s = Ret s4;
  rp_mem : s_mem s4 ≈ s_mem s1;
  rp_alloc : s_alloc s4 = s_alloc s1;
  rp_tp : ta_p (s_talloc s4) = 1%nat;
  rp_cf : forall i c, (i < 2)%nat -> s_cf s4 !! i = Some c -> c = mk_cfc RESET RESET RESET RESET;
  rp_input : (s_ibuf s4, s_proc s4) = ibuf_switch crc_run (s_mem s1) (s_ibuf s) (s_proc s);
  rp_out : exists o q, cur_obuf s4 = Ret o /\ ob_p o = 1%nat /\ ob_redundancy_level o = 2%nat /\
    ob_queue o !! 0%nat = Some q /\ ob_queue o !! 1%nat = Some q;
}.

Lemma exec_replayed {R} (h : prog R) s ops r s1 : idle s -> s_redundancy_level s = 2%nat -> in_sync s ->
  (s0 ← sei_begin s; exec crc32c h s0) = Ret (ops, r, s1) ->
  exists s3 s4, (s0 ← sei_begin s; '(_, _, s) ← exec crc32c h s0; switch s) = Ret s3 /\
    exec crc32c h s3 = Ret (ops, r, s4) /\ replayed s ops s1 s4.
Proof.
  intros Hs Hlv (o & q & Ho & Hop & Hol & Hq0 & Hq1) E.
  destruct (sei_begin_idle s Hs) as (cf & Eb & _ & Hcf & Hp0). rewrite Eb in E |- *. cbn [mbind outcome_bind] in E |- *.
  set (s0 := with_cf (with_p s 0) cf) in *. pose proof (exec_exec_ops _ _ _ _ _ _ E) as Ex.
  pose proof (phase_state_ops _ _ _ _ _ _ _ Hp0 Ex) as Hp1. cbn [app] in Hp1.
  destruct (exec_ops_max _ _ _ Ex) as [Htm Hwm].
  destruct (fr_obuf _ _ (frame_ops _ _ _ _ _ _ _ Hp0 Ex) o Ho) as (o1 & Ho1 & Hop1 & Hol1 & Hoq1).
  rewrite Hop in Hop1, Hoq1. rewrite Hol in Hol1.
  assert (Hcnt : count (s_talloc s1) 1 = 0%nat).
  { rewrite (ps_count _ _ _ _ Hp1), decide_False by done. apply (id_count _ Hs). lia. }
  destruct (sei_switch_ok s0 ops s1 o1 Hp1) as (s3 & Esw & Ho3 & Hal3 & Hall3 & Hin3);
    [cbn; lia|done|done|].
  assert (Hop3 : ob_p (obuf_close o1) = 1%nat) by (unfold obuf_close; cbn; by rewrite Hop1, Hol1).
  assert (Hst : in_step s0 s3 (s_alloc s3) (ta_allocations (s_talloc s3)) [] s0 s3).
  { eapply (start_in_step s0 s1 s3 ops o (obuf_close o1) q); try done; cbn; rewrite ?Hlv, ?Hop; try done.
    - intros p Hp. apply (id_freed _ Hs). lia.
    - intros p Hp. apply (id_queued _ Hs). pose proof (sw_dmr _ (id_wf _ Hs)). lia.
    - intros p Hp. apply (id_count _ Hs). lia.
    - apply (id_cow _ Hs). lia.
    - change (ob_queue o1 !! ob_p (obuf_close o1) = Some q). rewrite Hop3, Hoq1 by done. done. }
  pose proof (sei_switch_inv _ _ _ _ _ _ Hp1 ltac:(cbn; lia) Esw) as (_ & _ & _ & _ & Hts3 & Htb3 & Hwt3 & Hcf3 & _).
  pose proof E as Erun. eapply exec_replay in E as (s4 & E4 & Hst4); [| | | |exact Hst|by intros; rewrite Hall3].
  2: { rewrite Htb3, (ps_freed _ _ _ _ Hp1), decide_False by done. cbn. by rewrite !(id_freed _ Hs) by lia. }
  2: { rewrite Hwt3, (ps_queued _ _ _ _ Hp1), decide_False by done. cbn.
       pose proof (sw_dmr _ (id_wf _ Hs)). by rewrite !(id_queued _ Hs) by lia. }
  2: { unfold count. rewrite Hts3. fold (count (s_talloc s1) 1). rewrite Hcnt. apply (id_count _ Hs). lia. }
  exists s3, s4. pose proof (exec_exec_ops _ _ _ _ _ _ E4) as Ex4. pose proof (is_B _ _ _ _ _ _ _ Hst4) as HB4.
  split; [by rewrite Erun|]. split; [done|]. split.
  - unfold two_executions. rewrite Eb. cbn [mbind outcome_bind]. fold s0. rewrite Ex. cbn [mbind outcome_bind].
    rewrite Esw. done.
  - symmetry. apply (is_mem _ _ _ _ _ _ _ Hst4).
  - by rewrite (is_al _ _ _ _ _ _ _ Hst4).
  - apply (ps_tp _ _ _ _ HB4).
  - intros i c Hi. rewrite (ps_cf _ _ _ _ HB4), Hcf3, (ps_cf _ _ _ _ Hp1). apply Hcf. lia.
  - rewrite (ps_ibuf _ _ _ _ HB4), (ps_proc _ _ _ _ HB4), Hin3. by rewrite (ps_ibuf _ _ _ _ Hp1), (ps_proc _ _ _ _ Hp1).
  - destruct (is_out _ _ _ _ _ _ _ Hst4) as (oA & oB & HoA & HoB & (q' & HqA & HqB)).
    rewrite Ho1 in HoA. injection HoA as <-.
    destruct (fr_obuf _ _ (frame_ops _ _ _ _ _ _ _ (is_B _ _ _ _ _ _ _ Hst) Ex4) _ Ho3) as (o4 & Ho4 & Hop4 & Hol4 & Hoq4).
    rewrite HoB in Ho4. injection Ho4 as <-. rewrite Hop3 in *. exists oB, q'. split_and!; try done.
    + by rewrite Hol4.
    + rewrite Hoq4 by done. cbn. by rewrite Hop1 in HqA.
    + by rewrite Hop4 in HqB.
Qed.

(** No false alarms: a handler whose first execution ends, with writes
    that do not partially overlap, frees of distinct live blocks and delayed
    calls of real functions, always commits: the second execution performs the
    same operations, every comparison passes, and the result is the memory of one
    execution, with its frees and its calls done once; the library is ready for
    the next transaction with the output queues of both phases equal. *)
Lemma exec_commits {R} (h : prog R) s ops r s1 :
  idle s -> s_redundancy_level s = 2%nat -> SEI_DMR_REDUNDANCY = 2%nat -> in_sync s ->
  (s0 ← sei_begin s; exec crc32c h s0) = Ret (ops, r, s1) ->
  separated (writes ops) -> (length (writes ops) <= ABUF_MAX_CONFLICTS)%nat ->
  NoDup (frees ops) -> (forall q, q ∈ frees ops -> q <> 0 /\ q ∈ al_live (s_alloc s1)) ->
  (forall c, c ∈ calls ops -> c.1 <> 0) -> input_ok s (s_mem s1) ->
  exists s', prog_transaction h s = Ret (ops, r, s') /\ s_mem s' ≈ s_mem s1 /\
    free_all (frees ops) (s_alloc s1) = Ret (s_alloc s') /\
    al_live (s_alloc s') = al_live (s_alloc s1) ∖ list_to_set (frees ops) /\
    (exists items, call_of 0 <$> items = calls ops /\ s_world s' = run_calls call items (s_world s)) /\
    idle s' /\ in_sync s'.
Proof.
  intros Hs Hlv HN Hsync E Hsep Hmax Hnd Hfr Hca Hin.
  destruct (exec_replayed h s ops r s1 Hs Hlv Hsync E) as (s3 & s4 & E3 & E4 & [Htwo Hmem Hal Htp Hcf Hib Hout]).
  destruct (two_executions_inv _ _ _ _ _ _ Hs Hlv Htwo) as (s3' & a0 & a1 & Hm3 & Hw4 & Hwf4 & Hlv4 & Hm4 & Ha0 & Hr0 & Hpo0
    & Ha1 & Hr1 & Hpo1 & Hf0 & Hf1 & Hq0 & Hq1 & Hc0 & Hc1).
  destruct (sw_tbin _ Hwf4) as [_ Hbl]. destruct Hout as (o & q & Ho & Hop & Hol & Hoq0 & Hoq1).
  pose proof (ibuf_correct_ok s (s_mem s1) (s_mem s4) Hin ltac:(by symmetry)) as Hic.
  rewrite <- Hib in Hic. destruct Hic as [pr Hic].
  assert (Hcmp : exists cow', compare_cows (s_mem s4) (s_cow s4) 2 = Ret cow').
  { eapply (compare_ok _ _ a0 a1); try done.
    - by rewrite norm_shape, undo_log_shape.
    - by rewrite length_fmap.
    - intros i w Hw. rewrite Hm4. by eapply replay_norm_last. }
  destruct (sei_commit_ok s4 o pr a0 a1 _ _ Hwf4 HN Hlv4 Ha0 Ha1 Hr0 Hr1 Hpo0 Hpo1 Hcmp)
    as (s' & Ec & Ho'); try done.
  { split; [|by rewrite Hq0]. intros p Hp. destruct p as [|[|p]]; [done|congruence|lia]. }
  { split; [|rewrite Hf0; intros p Hp; by apply Hfr]. intros p Hp. destruct p as [|[|p]]; [done|congruence|lia]. }
  { by rewrite Hf0. }
  { rewrite Hf0, Hal. intros p Hp. by apply Hfr. }
  { congruence. }
  destruct (sei_commit_inv _ _ _ _ _ _ _ _ Hwf4 Hlv4 Ha0 Ha1 Hr0 Hr1 Hpo0 Hpo1 Ec)
    as (Em & _ & _ & _ & _ & _ & Hlive & _ & Hworld & Hidle).
  exists s'. split_and!; [|by rewrite Em| |by rewrite Hlive, Hal, Hf0| |done|].
  - unfold prog_transaction.
    destruct (sei_begin s) as [s0|]; cbn [mbind outcome_bind] in *; [|discriminate].
    destruct (exec crc32c h s0) as [[[ops0 r0] s2]|]; [|done]. cbn [mbind outcome_bind] in *.
    rewrite E3. cbn [mbind outcome_bind]. rewrite E4. cbn [mbind outcome_bind]. by rewrite Ec.
  - rewrite <- Hal, <- Hf0. by apply commit_frees.
  - eexists. split; [|by rewrite <- Hw4]. by rewrite <- Hq0.
  - exists (obuf_close o), q. split; [done|]. unfold obuf_close. cbn. rewrite Hop, Hol. done.
Qed.

(** The same for a handler. *)
Lemma handler_commits h s ops s1 :
  idle s -> s_redundancy_level s = 2%nat -> SEI_DMR_REDUNDANCY = 2%nat -> in_sync s ->
  (s0 ← sei_begin s; run crc32c h s0) = Ret (ops, s1) ->
  separated (writes ops) -> (length (writes ops) <= ABUF_MAX_CONFLICTS)%nat ->
  NoDup (frees ops) -> (forall q, q ∈ frees ops -> q <> 0 /\ q ∈ al_live (s_alloc s1)) ->
  (forall c, c ∈ calls ops -> c.1 <> 0) -> input_ok s (s_mem s1) ->
  exists s', handler_transaction h s = Ret (ops, s') /\ s_mem s' ≈ s_mem s1 /\
    al_live (s_alloc s') = al_live (s_alloc s1) ∖ list_to_set (frees ops) /\
    (exists items, call_of 0 <$> items = calls ops /\ s_world s' = run_calls call items (s_world s)) /\
    idle s' /\ in_sync s'.
Proof.
  intros Hs Hlv HN Hsync E Hsep Hmax Hnd Hfr Hca Hin.
  destruct (exec_commits h s ops tt s1 Hs Hlv HN Hsync) as (s' & Et & Hm & _ & Hal & Hw & Hid & Hsy); try done.
  - destruct (sei_begin s); [|done]. rewrite bind_Ret_l in *. by apply run_exec.
  - exists s'. split; [|done]. rewrite <- prog_transaction_handler, Et. done.
Qed.

End Complete.

(** ** Start-up and witness *)

Section Init.
Context `{Build} {S W : Type} `{AllocatorLaws S}.

Lemma sei_init_in_sync m (al : S) (w : W) pr s : SEI_DMR_REDUNDANCY = 2%nat ->
  sei_init m al w pr = Ret s -> in_sync s.
Proof.
  intros HN E. unfold sei_init in E. inv_outcome. unfold in_sync, cur_obuf. cbn.
  exists (obuf_init OBUF_SIZE), empty_queue. unfold obuf_init. rewrite HN. done.
Qed.

End Init.

(** A handler that increments a counter, stores the new value in a fresh block,
    frees a block of the environment, delays a call and sends the counter. *)
Definition demo_handler : handler :=
  HRead uint32_t 100 (fun n =>
  HWrite uint32_t 100 (n + 1) (
  HMalloc 8 (fun p =>
  HWrite uint64_t p (n + 1) (
  HFree 16 (HCall 5 [n; p] (HAppend 100 4 (HDone HRet))))))).
