(* ===== verification/TmiCopy.v ===== *)
(** * Bulk memory operations of the transactional interface (src/tmi.c)

    [_ITM_memcpyRtWt], [_ITM_memmoveRtWt], [_ITM_memsetW] and [realloc] cut a
    block of memory into writes of the transaction.  They are modelled against
    the interface they use: a write barrier, which may be that of the
    append-only buffers or that of the hash table, and a memory.  The theorems
    describe the sequence of writes each call makes: a tiling of the target by
    aligned writes, and the bytes it leaves. *)

From S2P Require Export AbufLog.

(** What the bulk operations need from a transaction of type [T]. *)
Class Barriers (T : Type) := {
  b_mem : T -> mem;
  b_poke : T -> mem -> T;                       (* stores outside the transaction *)
  b_write : cty -> T -> Z -> Z -> outcome T;    (* sei_write_TYPE *)
}.

(** Write-through: a write that returns has stored its value. *)
Class BarrierLaws (T : Type) `{Barriers T} := {
  b_write_mem : forall t st a v st', b_write t st a v = Ret st' -> b_mem st' = store (sizeof t) (b_mem st) a v;
  b_poke_mem : forall st m, b_mem (b_poke st m) = m;
}.

(** [memcpy] and [memset] of the C library. *)
Fixpoint memcpy (n : nat) (m : mem) (dst src : Z) : mem :=
  match n with O => m | S n' => memcpy n' (store 1 m dst (mget m src)) (dst + 1) (src + 1) end.
Fixpoint memset (n : nat) (m : mem) (s c : Z) : mem :=
  match n with O => m | S n' => memset n' (store 1 m s c) (s + 1) c end.

(** [memmove] of the C library: all bytes are read before the first one is written. *)
Fixpoint copy_from (m0 : mem) (n : nat) (m : mem) (dst src : Z) : mem :=
  match n with O => m | S n' => copy_from m0 n' (store 1 m dst (mget m0 src)) (dst + 1) (src + 1) end.
Definition memmove (n : nat) (m : mem) (dst src : Z) : mem := copy_from m n m dst src.

Section Copy.
Context {T : Type} `{Barriers T}.
Implicit Types st : T.

(** ** Copying *)

(** Write [*(t* ) (source + i)] to [destination + i]. *)
Definition copy_one (t : cty) st (dst src i : Z) : outcome T :=
  b_write t st (u64 (dst + i)) (load (sizeof t) (b_mem st) (u64 (src + i))).

(** [do copy; while (++i < bound);] with the 32-bit counter [i]. *)
Fixpoint copy_do (fuel : nat) st (dst src i bound : Z) : option (outcome (Z * T)) :=
  match fuel with
  | O => None
  | S fuel' =>
      st ⇐ lift (copy_one uint8_t st dst src i);
      let i := u32 (i + 1) in
      if i <? bound then copy_do fuel' st dst src i bound else Some (Ret (i, st))
  end.

(** The part for the hash table (COW_WT without COW_APPEND_ONLY), for at least
    four bytes. *)
Definition memcpy_words (fuel : nat) st (dst src size : Z) : option (outcome T) :=
  let len := u32 size in
  let unal := dst mod 4 in
  '(i, st) ⇐ (if 0 <? unal then copy_do fuel st dst src 0 (4 - unal) else Some (Ret (0, st)));
  let len := u32 (len - i) in
  let unal64 := u64 (dst + i) mod 8 in
  '(i, len, st) ⇐ (if (0 <? unal64) && (4 <=? len)
                   then st ⇐ lift (copy_one uint32_t st dst src i); Some (Ret (u32 (i + 4), u32 (len - 4), st))
                   else Some (Ret (i, len, st)));
  let num64w := len / 8 in
  '(_, i, len, st) ⇐ while_do fuel (fun '(j, _, _, _) => j <? num64w)
     (fun '(j, i, len, st) => st ← copy_one uint64_t st dst src i;
                              Ret (u32 (j + 1), u32 (i + 8), u32 (len - 8), st)) (0, i, len, st);
  '(i, st) ⇐ (if 4 <=? len then st ⇐ lift (copy_one uint32_t st dst src i); Some (Ret (u32 (i + 4), st))
              else Some (Ret (i, st)));
  '(_, st) ⇐ while_do fuel (fun '(i, _) => i <? size)
     (fun '(i, st) => st ← copy_one uint8_t st dst src i; Ret (u32 (i + 1), st)) (i, st);
  Some (Ret st).

(** [_ITM_memcpyRtWt]; [ignored] is [ignore_addr(dst)], [append_only] the build
    option COW_APPEND_ONLY.  The function returns [dst]. *)
Definition memcpyRtWt (append_only : bool) (fuel : nat) (ignored : bool) st (dst src size : Z)
  : option (outcome T) :=
  if ignored then Some (Ret (b_poke st (memcpy (Z.to_nat size) (b_mem st) dst src)))
  else if negb append_only && (4 <=? size) then memcpy_words fuel st dst src size
  else '(_, st) ⇐ copy_do fuel st dst src 0 size; Some (Ret st).

Definition memmoveRtWt := memcpyRtWt.

(** ** Filling *)

(** [while (cond p) { write v to p; p += sizeof(t); }] *)
Definition fill_loop (fuel : nat) (t : cty) (cond : Z -> bool) (v p : Z) st : option (outcome (Z * T)) :=
  while_do fuel (fun '(p, _) => cond p)
    (fun '(p, st) => st ← b_write t st p v; Ret (u64 (p + Z.of_nat (sizeof t)), st)) (p, st).

(** [(uint64_t) (char) c] *)
Definition char_u64 (c : Z) : Z := u64 ((c + 128) mod 256 - 128).

Definition fill_word (c : Z) : Z :=
  let b := char_u64 c in
  let sh k := u64 (Z.shiftl b k) in
  Z.lor (Z.lor (Z.lor (Z.lor (Z.lor (Z.lor (Z.lor (sh 56) (sh 48)) (sh 40)) (sh 32)) (sh 24)) (sh 16)) (sh 8)) b.

(** [p & ~(0x07)] *)
Definition align_down (p : Z) : Z := Z.land p (2^64 - 8).

(** [_ITM_memsetW]; [c] is the [int] argument. *)
Definition memsetW (fuel : nat) (ignored : bool) st (s c n : Z) : option (outcome T) :=
  if ignored then Some (Ret (b_poke st (memset (Z.to_nat n) (b_mem st) s c)))
  else
    let p := s in
    let p64 := align_down p in
    let e := u64 (p + n) in
    let e64 := align_down e in
    let v := fill_word c in
    let p64 := if p64 <? p then u64 (p64 + 8) else p64 in
    '(p, st) ⇐ fill_loop fuel uint8_t (fun p => (p <? e) && negb (p =? p64)) (c mod 256) p st;
    '(p, st) ⇐ fill_loop fuel uint64_t (fun p => p <? e64) v p st;
    '(_, st) ⇐ fill_loop fuel uint8_t (fun p => p <? e) (c mod 256) p st;
    Some (Ret st).

(** The writes in order. *)
Fixpoint write_all (ws : list wr) st : outcome T :=
  match ws with
  | [] => Ret st
  | w :: ws' => st' ← b_write (w_ty w) st (w_addr w) (w_val w); write_all ws' st'
  end.

End Copy.

(** ** Sequences of writes that tile a range *)

Section Tiling.
Context {T : Type} `{BarrierLaws T}.
Implicit Types st : T.

Lemma write_all_app ws1 ws2 st : write_all (ws1 ++ ws2) st = (st' ← write_all ws1 st; write_all ws2 st').
Proof.
  revert st. induction ws1 as [|w ws1 IH]; intros st; [done|]. cbn [app write_all].
  destruct (b_write _ _ _ _); cbn [mbind outcome_bind]; [apply IH|done].
Qed.

Lemma write_all_mem ws st st' : write_all ws st = Ret st' -> b_mem st' = replay ws (b_mem st).
Proof.
  revert st. induction ws as [|w ws IH]; intros st E; cbn [write_all] in E; inv_outcome; [done|].
  rewrite replay_cons. unfold apply_wr. erewrite <- b_write_mem by done. by apply IH.
Qed.

(** The value a write of type [t] at address [a] stores, and the range of the
    target; [ok] is what has to stay true for the values to be right. *)
Context (val : cty -> Z -> Z) (first last : Z) (ok : T -> Prop).
Context (ok_write : forall t a st st', ok st -> first <= a -> a + Z.of_nat (sizeof t) <= last ->
  b_write t st a (val t a) = Ret st' -> ok st').

(** Aligned writes that follow each other from [lo] up to [hi]. *)
Inductive tiles : Z -> Z -> list wr -> Prop :=
  | tiles_nil a : tiles a a []
  | tiles_cons t a hi ws : first <= a -> a + Z.of_nat (sizeof t) <= last -> aligned t a ->
      tiles (a + Z.of_nat (sizeof t)) hi ws -> tiles a hi (mk_wr t a (val t a) :: ws).

Lemma tiles_le lo hi ws : tiles lo hi ws -> lo <= hi.
Proof. induction 1; lia. Qed.

Lemma tiles_app lo mid hi ws1 ws2 : tiles lo mid ws1 -> tiles mid hi ws2 -> tiles lo hi (ws1 ++ ws2).
Proof. induction 1; intros; [done|]. cbn [app]. constructor; auto. Qed.

Lemma ok_write_all lo hi ws st st' : tiles lo hi ws -> ok st -> write_all ws st = Ret st' -> ok st'.
Proof.
  intros Ht. revert st. induction Ht as [|t a hi ws ? ? ? ? IH]; intros st Hok E; cbn [write_all] in E; inv_outcome; [done|].
  eapply IH; [|eassumption]. cbn in *. eauto.
Qed.

Lemma tiles_In lo hi ws w : tiles lo hi ws -> w ∈ ws ->
  lo <= w_addr w /\ w_addr w + Z.of_nat (w_size w) <= hi /\ aligned (w_ty w) (w_addr w).
Proof.
  induction 1 as [|t a hi ws ? ? ? Ht IH]; intros Hw; [by apply elem_of_nil in Hw|].
  apply tiles_le in Ht. apply elem_of_cons in Hw as [->|Hw]; [done|]. destruct (IH Hw) as (? & ? & ?). split_and!; [lia|done|done].
Qed.

Lemma tiles_disjoint lo hi ws : tiles lo hi ws -> all_disjoint ws.
Proof.
  induction 1 as [|t a hi ws ? ? ? Ht IH]; intros i j w1 w2 Hij Hi Hj; [done|].
  assert (Hhd : forall k w, ws !! k = Some w -> a + Z.of_nat (sizeof t) <= w_addr w).
  { intros k w Hk%list_elem_of_lookup_2. by apply (tiles_In _ _ _ _ Ht) in Hk as (? & _). }
  destruct i as [|i], j as [|j]; cbn in Hi, Hj; simplify_eq; cbn [w_ty w_addr].
  - left. by eapply Hhd.
  - right. by eapply Hhd.
  - eapply IH; [|done|done]. congruence.
Qed.

(** The memory after a tiling. *)
Lemma tiles_replay (f : Z -> Z) lo hi ws m b :
  (forall t a x, first <= a -> a + Z.of_nat (sizeof t) <= last -> in_range x a (sizeof t) ->
     (val t a / 256 ^ (x - a)) mod 256 = f x) ->
  tiles lo hi ws -> mget (replay ws m) b = if decide (lo <= b < hi) then f b else mget m b.
Proof.
  intros Hf Ht. revert m. induction Ht as [a|t a hi ws H1 H2 H3 Ht IH]; intros m.
  { case_decide; [lia|done]. }
  rewrite replay_cons, IH. unfold apply_wr. cbn [w_ty w_addr w_val]. apply tiles_le in Ht. rewrite mget_store.
  unfold in_range in *. repeat case_decide; try lia; try done; apply Hf; unfold in_range; done || lia.
Qed.

(** ** Programs that emit a tiling *)

(** [X] performs the writes of a tiling of [lo, hi) and returns [g]. *)
Definition emits {A} (lo hi : Z) (X : T -> option (outcome A)) (g : T -> A) : Prop :=
  exists ws, tiles lo hi ws /\ forall st, ok st -> X st = Some (st' ← write_all ws st; Ret (g st')).

Lemma emits_ret {A} a (g : T -> A) : emits a a (fun st => Some (Ret (g st))) g.
Proof. exists []. split; [constructor|done]. Qed.

Lemma emits_ext {A} lo hi (X Y : T -> option (outcome A)) g :
  (forall st, ok st -> X st = Y st) -> emits lo hi Y g -> emits lo hi X g.
Proof. intros HX (ws & Ht & HY). exists ws. split; [done|]. intros st Hst. rewrite HX by done. by apply HY. Qed.

Lemma emits_bind {A B} lo mid hi X (g : T -> A) (K : A -> option (outcome B)) g' :
  emits lo mid X g -> emits mid hi (fun st => K (g st)) g' -> emits lo hi (fun st => fbind (X st) K) g'.
Proof.
  intros (ws1 & Ht1 & H1) (ws2 & Ht2 & H2). exists (ws1 ++ ws2). split; [by eapply tiles_app|].
  intros st Hst. rewrite H1, write_all_app by done. destruct (write_all ws1 st) as [st1|e] eqn:E; [|done].
  rewrite !bind_Ret_l. cbn [fbind]. apply H2. exact (ok_write_all lo mid ws1 st st1 Ht1 Hst E).
Qed.

Lemma emits_write t a : first <= a -> a + Z.of_nat (sizeof t) <= last -> aligned t a ->
  emits a (a + Z.of_nat (sizeof t)) (fun st => lift (b_write t st a (val t a))) id.
Proof.
  intros H1 H2 H3. exists [mk_wr t a (val t a)]. split; [repeat constructor; done|]. intros st _.
  cbn [write_all w_ty w_addr w_val]. by destruct (b_write _ _ _ _).
Qed.

Lemma while_do_ext {S} fuel (c c' : S -> bool) b b' (x : S) : (forall s, c s = c' s) -> (forall s, b s = b' s) ->
  while_do fuel c b x = while_do fuel c' b' x.
Proof.
  intros Hc Hb. revert x. induction fuel as [|fuel IH]; intros x; [done|]. cbn [while_do]. rewrite Hc, Hb.
  destruct (c' x); [|done]. destruct (b' x); [apply IH|done].
Qed.

(** A loop over a counter [x]; [I n x] says that [n] rounds are left. *)
Lemma emits_while {A} (I : nat -> A -> Prop) (addr : A -> Z) (cond : A -> bool) (next : A -> A) (wr : A -> T -> outcome T) :
  (forall n x, I (S n) x -> cond x = true /\ I n (next x) /\ emits (addr x) (addr (next x)) (fun st => lift (wr x st)) id) ->
  (forall x, I 0%nat x -> cond x = false) ->
  forall n fuel x, I n x -> (n < fuel)%nat -> exists x', I 0%nat x' /\
    emits (addr x) (addr x') (fun st => while_do fuel (fun s => cond s.1) (fun s => st ← wr s.1 s.2; Ret (next s.1, st)) (x, st))
      (fun st => (x', st)).
Proof.
  intros Hstep Hend. induction n as [|n IH]; intros fuel x Hx Hf; (destruct fuel as [|fuel]; [lia|]); cbn [while_do fst snd].
  - exists x. split; [done|]. rewrite (Hend x Hx). apply emits_ret.
  - destruct (Hstep n x Hx) as (Hc & Hn & He). rewrite Hc. destruct (IH fuel (next x) Hn ltac:(lia)) as (x' & Hx0 & He').
    exists x'. split; [done|].
    apply (emits_ext _ _ _ (fun st => fbind (lift (wr x st)) (fun st =>
      while_do fuel (fun s => cond s.1) (fun s => st ← wr s.1 s.2; Ret (next s.1, st)) (next x, st)))).
    + intros st _. by destruct (wr x st).
    + exact (emits_bind _ _ _ _ _ _ _ He He').
Qed.

End Tiling.

(** ** Filling *)

Lemma align_down_spec p : 0 <= p < 2^64 -> align_down p = 8 * (p / 8).
Proof.
  intros Hp. unfold align_down. change (2^64 - 8) with (Z.shiftl (Z.ones 61) 3). apply Z.bits_inj'. intros i Hi.
  replace (8 * (p / 8)) with (Z.shiftl (Z.shiftr p 3) 3) by (rewrite Z.shiftl_mul_pow2, Z.shiftr_div_pow2 by lia; apply Z.mul_comm).
  rewrite Z.land_spec, !Z.shiftl_spec, Z.testbit_ones by lia. destruct (Z.leb_spec 0 (i - 3)); cbn [andb].
  - rewrite Z.shiftr_spec, Z.sub_add by lia. destruct (Z.ltb_spec (i - 3) 61); [by rewrite andb_true_r|].
    rewrite andb_false_r. symmetry. rewrite <- (Z.mod_small p (2^64)) by lia. apply Z.mod_pow2_bits_high. lia.
  - rewrite andb_false_r, Z.testbit_neg_r by lia. done.
Qed.

(** The bytes of the word [_ITM_memsetW] stores: [char] is signed. *)
Definition fill_byte (b k : Z) : Z := if (k =? 0) || (b <? 128) then b else 255.

Lemma fill_word_byte c k : 0 <= k < 8 -> (fill_word c / 256 ^ k) mod 256 = fill_byte (c mod 256) k.
Proof.
  intros Hk. replace (fill_word c) with (fill_word (c mod 256))
    by (unfold fill_word, char_u64; by rewrite Z.add_mod_idemp_l by lia).
  assert (Hall : forallb (fun b => forallb (fun k => (fill_word (Z.of_nat b) / 256 ^ Z.of_nat k) mod 256 =?
            fill_byte (Z.of_nat b) (Z.of_nat k)) (seq 0 8)) (seq 0 256) = true) by (vm_compute; reflexivity).
  rewrite forallb_forall in Hall. pose proof (Z.mod_pos_bound c 256 ltac:(lia)).
  specialize (Hall (Z.to_nat (c mod 256)) ltac:(apply in_seq; lia)). rewrite forallb_forall in Hall.
  specialize (Hall (Z.to_nat k) ltac:(apply in_seq; lia)). rewrite !Z2Nat.id in Hall by lia. by apply Z.eqb_eq.
Qed.

Lemma mget_memset n m s c b : mget (memset n m s c) b = if decide (s <= b < s + Z.of_nat n) then c mod 256 else mget m b.
Proof.
  revert m s. induction n as [|n IH]; intros m s; cbn [memset]; [case_decide; [lia|done]|]. rewrite IH, mget_store. unfold in_range.
  repeat case_decide; try lia; try done. replace (b - s) with 0 by lia. by rewrite Z.pow_0_r, Z.div_1_r.
Qed.

Section Fill.
Context {T : Type} `{BarrierLaws T}.
Implicit Types st : T.
Context (s c n : Z) (Hs : 0 <= s) (Hn : 0 <= n) (Hsn : s + n < 2^64).

Definition fill_val (t : cty) (a : Z) : Z := match t with uint8_t => c mod 256 | uint64_t => fill_word c | _ => wrap (sizeof t) (fill_word c) end.
Abbreviation emits_fill := (emits fill_val s (s + n) (fun _ : T => True)).

Lemma fill_loop_emits fuel t cond p hi (k : nat) : hi = p + Z.of_nat (sizeof t) * Z.of_nat k -> s <= p -> hi <= s + n ->
  ((0 < k)%nat -> aligned t p) -> (forall x, p <= x < hi -> cond x = true) -> cond hi = false -> (k < fuel)%nat ->
  emits_fill p hi (fun st => fill_loop fuel t cond (fill_val t 0) p st) (fun st => (hi, st)).
Proof.
  intros Hhi Hp Hk Ha Hc Hend Hf. set (d := Z.of_nat (sizeof t)) in *. assert (Hd : 0 < d) by (subst d; destruct t; cbn; lia).
  destruct (emits_while fill_val s (s + n) (fun _ : T => True) (fun _ _ _ _ _ _ _ _ => I)
    (fun r x => x = p + d * (Z.of_nat k - Z.of_nat r) /\ (r <= k)%nat) id cond
    (fun x => u64 (x + d)) (fun x st => b_write t st x (fill_val t 0))) with (n := k) (fuel := fuel) (x := p)
    as (x' & (Hx' & _) & He).
  - intros r x [-> Hr]. cbn [id]. rewrite u64_small by nia. split_and!; [apply Hc; nia|lia|lia|].
    replace (p + d * (Z.of_nat k - Z.of_nat (S r)) + d) with (p + d * (Z.of_nat k - Z.of_nat (S r)) + Z.of_nat (sizeof t)) by lia.
    change (fill_val t 0) with (fill_val t (p + d * (Z.of_nat k - Z.of_nat (S r)))).
    apply (emits_write fill_val); [nia|fold d; nia|]. specialize (Ha ltac:(lia)). unfold aligned in *. fold d in Ha |- *.
    by rewrite Z.mul_comm, Z_mod_plus_full.
  - intros x [-> _]. rewrite Z.sub_0_r, <- Hhi. done.
  - split; lia.
  - done.
  - replace x' with hi in * by lia. cbn [id] in He. eapply emits_ext; [|exact He].
    intros st _. apply while_do_ext; by intros [].
Qed.

Lemma fill_val_byte t a x : c mod 256 < 128 -> in_range x a (sizeof t) -> (fill_val t a / 256 ^ (x - a)) mod 256 = c mod 256.
Proof.
  intros Hc Hx. assert (Hfb : forall k, 0 <= k < 8 -> (fill_word c / 256 ^ k) mod 256 = c mod 256).
  { intros k Hk. rewrite fill_word_byte by done. unfold fill_byte. rewrite (proj2 (Z.ltb_lt _ _)) by done. by rewrite orb_true_r. }
  unfold in_range in Hx. destruct t; cbn [fill_val sizeof] in *.
  - replace (x - a) with 0 by lia. by rewrite Z.pow_0_r, Z.div_1_r, Z.mod_mod by lia.
  - rewrite <- (mget_store_in 2 ∅ a) by (unfold in_range; lia). rewrite (store_wrap 2 ∅ a (fill_word c) x).
    rewrite mget_store_in by (unfold in_range; lia). apply Hfb. lia.
  - rewrite <- (mget_store_in 4 ∅ a) by (unfold in_range; lia). rewrite (store_wrap 4 ∅ a (fill_word c) x).
    rewrite mget_store_in by (unfold in_range; lia). apply Hfb. lia.
  - apply Hfb. lia.
Qed.

(** The three loops. *)
Lemma memsetW_emits fuel : n < Z.of_nat fuel -> emits_fill s (s + n) (fun st => memsetW fuel false st s c n) id.
Proof.
  intros Hf. unfold memsetW. rewrite (u64_small (s + n)), !align_down_spec by lia.
  pose proof (Z.div_mod s 8 ltac:(lia)). pose proof (Z.mod_pos_bound s 8 ltac:(lia)).
  pose proof (Z.div_mod (s + n) 8 ltac:(lia)). pose proof (Z.mod_pos_bound (s + n) 8 ltac:(lia)).
  set (e64 := 8 * ((s + n) / 8)) in *.
  set (p64 := if 8 * (s / 8) <? s then u64 (8 * (s / 8) + 8) else 8 * (s / 8)).
  (* where the head ends *)
  assert (Hq : exists q, s <= q <= s + n /\ (forall x, s <= x < q -> x <> p64) /\ (q = s + n \/ q = p64) /\
                 ((q mod 8 = 0 /\ q <= e64) \/ e64 <= q)).
  { subst p64. destruct (Z.ltb_spec (8 * (s / 8)) s).
    - destruct (decide (8 * (s / 8) + 8 <= s + n)).
      + exists (8 * (s / 8) + 8). rewrite u64_small by lia. split_and!; [lia|lia|intros; lia|by right|left].
        split; [|lia]. replace (8 * (s / 8) + 8) with ((s / 8 + 1) * 8) by lia. apply Z_mod_mult.
      + exists (s + n). split_and!; [lia|lia| |by left|right; lia]. intros x Hx Ex.
        destruct (decide (8 * (s / 8) + 8 < 2^64)); [rewrite u64_small in Ex by lia; lia|].
        replace (8 * (s / 8) + 8) with (2^64) in Ex by lia. unfold u64 in Ex. rewrite Z_mod_same_full in Ex. lia.
    - exists s. split_and!; [lia|lia|intros; lia|right; lia|left]. split; [|lia].
      replace s with (s / 8 * 8) by lia. apply Z_mod_mult. }
  clearbody p64. destruct Hq as (q & Hq1 & Hq2 & Hq3 & Hq4). set (r := Z.max q e64).
  assert (Hr : exists k : nat, r = q + 8 * Z.of_nat k /\ Z.of_nat k <= n /\ ((0 < k)%nat -> q mod 8 = 0)).
  { destruct Hq4 as [[Hm Hle]|Hle]; [|exists 0%nat; lia].
    exists (Z.to_nat ((r - q) / 8)). assert (Hm' : (r - q) mod 8 = 0).
    { subst r. rewrite Z.max_r by lia. unfold e64. rewrite Zminus_mod, Hm, (Z.mul_comm 8), Z_mod_mult. done. }
    apply Z.div_exact in Hm'; [|lia]. rewrite Z2Nat.id by (apply Z.div_pos; lia).
    split; [lia|]. assert ((r - q) / 8 <= r - q) by (apply Z.div_le_upper_bound; lia). split; [lia|done]. }
  destruct Hr as (k & Hrk & Hkn & Hqa).
  apply (emits_bind fill_val s (s + n) (fun _ : T => True) (fun _ _ _ _ _ _ _ _ => I) s q (s + n) _ (fun st => (q, st))).
  { apply (fill_loop_emits fuel uint8_t _ _ _ (Z.to_nat (q - s))); cbn [sizeof]; try lia.
    - intros _. apply Z.mod_1_r.
    - intros x Hx. apply andb_true_iff. rewrite negb_true_iff, Z.ltb_lt, Z.eqb_neq. split; [lia|apply Hq2; lia]. }
  apply (emits_bind fill_val s (s + n) (fun _ : T => True) (fun _ _ _ _ _ _ _ _ => I) q r (s + n) _ (fun st => (r, st))).
  { apply (fill_loop_emits fuel uint64_t _ _ _ k); cbn [sizeof]; try lia; try exact Hqa; intros; lia. }
  apply (emits_bind fill_val s (s + n) (fun _ : T => True) (fun _ _ _ _ _ _ _ _ => I) r (s + n) (s + n) _ (fun st => (s + n, st)));
    [|apply emits_ret].
  apply (fill_loop_emits fuel uint8_t _ _ _ (Z.to_nat (s + n - r))); cbn [sizeof]; try lia. intros _. apply Z.mod_1_r.
Qed.

(** The writes of a call. *)
Lemma memsetW_tiling fuel st : n < Z.of_nat fuel -> c mod 256 < 128 ->
  exists ws, memsetW fuel false st s c n = Some (write_all ws st) /\ all_disjoint ws /\
    (forall w, w ∈ ws -> aligned (w_ty w) (w_addr w) /\ s <= w_addr w /\ w_addr w + Z.of_nat (w_size w) <= s + n) /\
    replay ws (b_mem st) ≈ memset (Z.to_nat n) (b_mem st) s c.
Proof.
  intros Hf Hc. destruct (memsetW_emits fuel Hf) as (ws & Ht & E). exists ws. split_and!.
  - rewrite E by done. by destruct (write_all ws st).
  - by eapply tiles_disjoint.
  - intros w Hw. destruct (tiles_In _ _ _ _ _ _ _ Ht Hw) as (? & ? & ?). done.
  - intros b. rewrite (tiles_replay fill_val s (s + n) (fun _ => c mod 256) s (s + n) ws _ b); [|clear E b|done].
    + rewrite mget_memset. repeat case_decide; lia || done.
    + intros t a x _ _ Hx. apply fill_val_byte; [done|done].
Qed.

(** [_ITM_memsetW] writes every byte of the range exactly once, through the
    barrier, with aligned writes that do not leave the range, and the result is
    that of the C library's [memset], for every length and alignment and every
    character below 128. *)
Theorem memsetW_fills fuel st : n < Z.of_nat fuel -> c mod 256 < 128 ->
  exists ws, memsetW fuel false st s c n = Some (write_all ws st) /\ all_disjoint ws /\
    (forall w, w ∈ ws -> aligned (w_ty w) (w_addr w) /\ s <= w_addr w /\ w_addr w + Z.of_nat (w_size w) <= s + n) /\
    replay ws (b_mem st) ≈ memset (Z.to_nat n) (b_mem st) s c.
Proof. apply memsetW_tiling. Qed.

End Fill.

(** [char] is signed: for characters from 128 the word [_ITM_memsetW] stores
    into an aligned word has 255 in all bytes but the first. *)
Theorem memsetW_sign_extends {T} `{Barriers T} fuel (st : T) s c : 0 <= s -> s mod 8 = 0 -> s + 8 < 2^64 ->
  128 <= c mod 256 -> (2 <= fuel)%nat ->
  memsetW fuel false st s c 8 = Some (b_write uint64_t st s (fill_word c)) /\
  forall m k, 1 <= k < 8 -> mget (store 8 m s (fill_word c)) (s + k) = 255.
Proof.
  intros Hs Ha Hb Hc Hf. split.
  - destruct fuel as [|[|fuel]]; [lia|lia|]. unfold memsetW. rewrite (u64_small (s + 8)), !align_down_spec by lia.
    assert (E1 : 8 * (s / 8) = s) by (pose proof (Z.div_mod s 8 ltac:(lia)); lia).
    assert (E2 : 8 * ((s + 8) / 8) = s + 8).
    { replace (s + 8) with (s + 1 * 8) by lia. rewrite Z.div_add by lia. lia. }
    rewrite E1, E2, Z.ltb_irrefl. unfold fill_loop. cbn [while_do fbind]. rewrite Z.eqb_refl, andb_false_r. cbn [fbind].
    rewrite (proj2 (Z.ltb_lt s (s + 8))) by lia. cbn [lift fbind]. destruct (b_write _ _ _ _) as [st1|e]; [|done].
    cbn [mbind outcome_bind fbind sizeof]. rewrite u64_small by lia. change (Z.of_nat 8) with 8. rewrite !Z.ltb_irrefl. cbn [fbind]. rewrite ?Z.ltb_irrefl. done.
  - intros m k Hk. rewrite mget_store_in by (unfold in_range; lia). replace (s + k - s) with k by lia.
    rewrite fill_word_byte by lia. unfold fill_byte. rewrite (proj2 (Z.eqb_neq k 0)), (proj2 (Z.ltb_ge _ 128)) by lia. done.
Qed.

(** ** Copying *)

Section CopyTo.
Context {T : Type} `{BarrierLaws T}.
Implicit Types st : T.
Context (m : mem) (dst src size : Z).
Context (Hdst : 0 <= dst) (Hsrc : 0 <= src) (Hdsz : dst + size <= 2^64) (Hssz : src + size <= 2^64).
Context (Hsz : 1 <= size < 2^32) (Hdis : dst + size <= src \/ src + size <= dst).

Definition copy_val (t : cty) (a : Z) : Z := load (sizeof t) m (src + (a - dst)).
(** The source still holds the bytes of [m]. *)
Definition source_kept st : Prop := forall b, src <= b < src + size -> mget (b_mem st) b = mget m b.
Abbreviation emits_copy := (emits copy_val dst (dst + size) source_kept).

Lemma source_kept_write t a st st' : source_kept st -> dst <= a -> a + Z.of_nat (sizeof t) <= dst + size ->
  b_write t st a (copy_val t a) = Ret st' -> source_kept st'.
Proof.
  intros Hk H1 H2 E b Hb. rewrite (b_write_mem _ _ _ _ _ E), mget_store_out by (unfold in_range; lia). by apply Hk.
Qed.

Lemma copy_one_emits t i : 0 <= i -> i + Z.of_nat (sizeof t) <= size -> aligned t (dst + i) ->
  emits_copy (dst + i) (dst + (i + Z.of_nat (sizeof t))) (fun st => lift (copy_one t st dst src i)) id.
Proof.
  intros Hi Hi' Ha. assert (0 < Z.of_nat (sizeof t)) by (destruct t; cbn; lia).
  rewrite Z.add_assoc. eapply emits_ext; [|apply emits_write; [lia|lia|done]].
  intros st Hk. unfold copy_one, copy_val. rewrite !u64_small by lia. do 2 f_equal.
  replace (src + (dst + i - dst)) with (src + i) by lia. apply load_ext. intros b Hb. unfold in_range in Hb. apply Hk. lia.
Qed.

Lemma aligned_byte a : aligned uint8_t a.
Proof. apply Z.mod_1_r. Qed.

Lemma copy_do_emits (k : nat) : forall fuel i bound, 0 <= i -> bound = i + 1 + Z.of_nat k -> bound <= size -> (k < fuel)%nat ->
  emits_copy (dst + i) (dst + bound) (fun st => copy_do fuel st dst src i bound) (fun st => (bound, st)).
Proof.
  induction k as [|k IH]; intros fuel i bound Hi Hb Hbs Hf; (destruct fuel as [|fuel]; [lia|]); cbn [copy_do];
    (eapply (emits_bind _ _ _ _ source_kept_write _ (dst + (i + Z.of_nat (sizeof uint8_t))));
      [apply (copy_one_emits uint8_t); [lia|cbn; lia|apply aligned_byte]|]); cbn [id sizeof]; rewrite u32_small by lia.
  - rewrite (proj2 (Z.ltb_ge _ _)) by lia. replace (i + Z.of_nat 1) with bound by lia. replace (i + 1) with bound by lia.
    apply emits_ret.
  - rewrite (proj2 (Z.ltb_lt _ _)) by lia. apply IH; lia.
Qed.

Lemma copy_do_start fuel bound : 1 <= bound <= size -> bound < Z.of_nat fuel ->
  emits_copy dst (dst + bound) (fun st => copy_do fuel st dst src 0 bound) (fun st => (bound, st)).
Proof.
  intros Hb Hf. pose proof (copy_do_emits (Z.to_nat (bound - 1)) fuel 0 bound ltac:(lia) ltac:(lia) ltac:(lia) ltac:(lia)) as He.
  by rewrite Z.add_0_r in He.
Qed.

(** The last loop. *)
Lemma copy_tail_emits (k : nat) fuel i : 0 <= i -> size = i + Z.of_nat k -> (k < fuel)%nat ->
  emits_copy (dst + i) (dst + size) (fun st => while_do fuel (fun '(i, _) => i <? size)
     (fun '(i, st) => st ← copy_one uint8_t st dst src i; Ret (u32 (i + 1), st)) (i, st))
    (fun st => (size, st)).
Proof.
  intros Hi Hk Hf.
  destruct (emits_while _ _ _ _ source_kept_write (fun r x => x = size - Z.of_nat r /\ (r <= k)%nat) (fun x => dst + x)
    (fun x => x <? size) (fun x => u32 (x + 1)) (fun x st => copy_one uint8_t st dst src x)) with (n := k) (fuel := fuel) (x := i)
    as (x' & (Hx' & _) & He).
  - intros r x [-> Hr]. cbv beta. rewrite u32_small by lia. split_and!; [apply Z.ltb_lt; lia|lia|lia|].
    apply (copy_one_emits uint8_t); [lia|cbn; lia|apply aligned_byte].
  - intros x [-> _]. cbv beta. apply Z.ltb_ge. lia.
  - lia.
  - done.
  - replace x' with size in * by lia. eapply emits_ext; [|exact He]. intros st _. apply while_do_ext; by intros [].
Qed.

(** The loop over the 64-bit words. *)
Lemma copy_words_emits (k : nat) fuel i len : 0 <= i -> len = size - i -> Z.of_nat k = len / 8 -> 0 <= len ->
  ((0 < k)%nat -> aligned uint64_t (dst + i)) -> (k < fuel)%nat ->
  emits_copy (dst + i) (dst + (i + 8 * Z.of_nat k)) (fun st => while_do fuel (fun '(j, _, _, _) => j <? len / 8)
     (fun '(j, i, len, st) => st ← copy_one uint64_t st dst src i;
                              Ret (u32 (j + 1), u32 (i + 8), u32 (len - 8), st)) (0, i, len, st))
    (fun st => (len / 8, i + 8 * Z.of_nat k, len - 8 * Z.of_nat k, st)).
Proof.
  intros Hi Hlen Hk Hl0 Ha Hf. pose proof (Z.div_mod len 8 ltac:(lia)). pose proof (Z.mod_pos_bound len 8 ltac:(lia)).
  destruct (emits_while _ _ _ _ source_kept_write
    (fun r (x : Z * Z * Z) => x = (Z.of_nat k - Z.of_nat r, i + 8 * (Z.of_nat k - Z.of_nat r), len - 8 * (Z.of_nat k - Z.of_nat r)) /\ (r <= k)%nat)
    (fun x => dst + x.1.2) (fun x => x.1.1 <? len / 8) (fun x => (u32 (x.1.1 + 1), u32 (x.1.2 + 8), u32 (x.2 - 8)))
    (fun x st => copy_one uint64_t st dst src x.1.2)) with (n := k) (fuel := fuel) (x := (0, i, len))
    as (x' & (Hx' & _) & He).
  - intros r x [-> Hr]. cbn [fst snd]. rewrite !u32_small by lia. split_and!; [apply Z.ltb_lt; lia| |lia|].
    + f_equal; [f_equal|]; lia.
    + apply (copy_one_emits uint64_t); [lia|cbn; lia|]. specialize (Ha ltac:(lia)). unfold aligned in *. cbn [sizeof] in *.
      rewrite Z.add_assoc, (Z.mul_comm 8). change (Z.of_nat 8) with 8 in *. by rewrite Z_mod_plus_full.
  - intros x [-> _]. cbn [fst]. apply Z.ltb_ge. lia.
  - split; [|lia]. f_equal; [f_equal|]; lia.
  - done.
  - rewrite Hx' in He. cbn [fst snd] in He. rewrite Z.sub_0_r in He. rewrite <- Hk.
    eapply emits_ext; [|exact He]. intros st _. rewrite Hk. apply while_do_ext; by intros [[[]]].
Qed.

(** One optional 32-bit word. *)
Lemma copy_u32_emits {A} (b : bool) i (g : Z -> T -> A) : 0 <= i -> (b = true -> i + 4 <= size /\ aligned uint32_t (dst + i)) ->
  emits_copy (dst + i) (dst + (if b then i + 4 else i))
    (fun st => if b then st ⇐ lift (copy_one uint32_t st dst src i); Some (Ret (g (i + 4) st)) else Some (Ret (g i st)))
    (fun st => g (if b then i + 4 else i) st).
Proof.
  intros Hi Hb. destruct b; [|apply emits_ret]. destruct (Hb eq_refl) as [H1 H2].
  eapply (emits_bind _ _ _ _ source_kept_write); [by apply (copy_one_emits uint32_t)|]. apply emits_ret.
Qed.

Lemma memcpy_words_emits fuel : 4 <= size -> size < Z.of_nat fuel ->
  emits_copy dst (dst + size) (fun st => memcpy_words fuel st dst src size) id.
Proof.
  intros H4 Hf. unfold memcpy_words. rewrite (u32_small size) by lia.
  pose proof (Z.div_mod dst 4 ltac:(lia)) as D4. pose proof (Z.mod_pos_bound dst 4 ltac:(lia)).
  set (a := if 0 <? dst mod 4 then 4 - dst mod 4 else 0).
  assert (Ha : 0 <= a < 4 /\ (dst + a) mod 4 = 0 /\ a <= size).
  { subst a. destruct (Z.ltb_spec 0 (dst mod 4)); (split; [lia|split; [|lia]]).
    - replace (dst + (4 - dst mod 4)) with ((dst / 4 + 1) * 4) by lia. apply Z_mod_mult.
    - rewrite Z.add_0_r. lia. }
  destruct Ha as (Ha1 & Ha2 & Ha3).
  apply (emits_bind _ _ _ _ source_kept_write _ (dst + a) _ _ (fun st => (a, st))).
  { subst a. destruct (Z.ltb_spec 0 (dst mod 4)); [|rewrite !Z.add_0_r; apply emits_ret].
    apply copy_do_start; lia. }
  cbv beta iota zeta. rewrite (u32_small (size - a)), (u64_small (dst + a)) by lia.
  set (b := (0 <? (dst + a) mod 8) && (4 <=? size - a)). set (i1 := if b then a + 4 else a).
  assert (Hb : b = true -> 4 <= size - a) by (subst b; rewrite andb_true_iff, Z.leb_le; lia).
  assert (Hi1 : 0 <= i1 <= size) by (subst i1; destruct b; lia).
  assert (Hal : (dst + i1) mod 8 = 0 \/ size - i1 < 4).
  { pose proof (Z.mod_pos_bound (dst + a) 8 ltac:(lia)). pose proof (Z.div_mod (dst + a) 8 ltac:(lia)).
    pose proof (Z.div_mod (dst + a) 4 ltac:(lia)).
    subst i1. destruct b eqn:Eb; subst b.
    - left. apply andb_true_iff in Eb as [E8 _]. apply Z.ltb_lt in E8.
      replace (dst + (a + 4)) with (((dst + a) / 8 + 1) * 8) by lia. apply Z_mod_mult.
    - apply andb_false_iff in Eb as [E8|E4]; [left; apply Z.ltb_ge in E8; lia|right; apply Z.leb_gt in E4; lia]. }
  assert (Hal4 : (dst + i1) mod 4 = 0).
  { subst i1. destruct b; [|done]. rewrite Z.add_assoc. replace (dst + a + 4) with (dst + a + 1 * 4) by lia.
    by rewrite Z_mod_plus_full. }
  apply (emits_bind _ _ _ _ source_kept_write _ (dst + i1) _ _ (fun st => (i1, size - i1, st))).
  { eapply emits_ext; [|apply (copy_u32_emits b a (fun i st => (i, size - i, st))); [lia|]].
    - intros st _. fold b. destruct b; [|done]. rewrite !u32_small by (specialize (Hb eq_refl); lia).
      replace (size - a - 4) with (size - (a + 4)) by lia. done.
    - intros Eb. specialize (Hb Eb). split; [lia|done]. }
  cbv beta iota zeta. clearbody i1. clear b Hb.
  pose proof (Z.div_mod (size - i1) 8 ltac:(lia)). pose proof (Z.mod_pos_bound (size - i1) 8 ltac:(lia)).
  set (k := Z.to_nat ((size - i1) / 8)). assert (Hk : Z.of_nat k = (size - i1) / 8) by (subst k; rewrite Z2Nat.id; [done|apply Z.div_pos; lia]).
  eapply (emits_bind _ _ _ _ source_kept_write).
  { apply (copy_words_emits k); [lia|done|done|lia| |lia]. intros Hk0. unfold aligned. change (Z.of_nat (sizeof uint64_t)) with 8. lia. }
  cbv beta iota zeta. set (i2 := i1 + 8 * Z.of_nat k). replace (size - i1 - 8 * Z.of_nat k) with (size - i2) by lia.
  set (b := 4 <=? size - i2). assert (Hb : b = true -> 4 <= size - i2) by (subst b; rewrite Z.leb_le; lia).
  eapply (emits_bind _ _ _ _ source_kept_write).
  { eapply emits_ext; [|apply (copy_u32_emits b i2 pair); [lia|]].
    - intros st _. destruct b; [|done]. specialize (Hb eq_refl). rewrite u32_small by lia. done.
    - intros Eb. specialize (Hb Eb). split; [lia|]. unfold aligned. change (Z.of_nat (sizeof uint32_t)) with 4. subst i2.
      replace (dst + (i1 + 8 * Z.of_nat k)) with (dst + i1 + (2 * Z.of_nat k) * 4) by lia. by rewrite Z_mod_plus_full. }
  cbv beta iota zeta. apply (emits_bind _ _ _ _ source_kept_write _ (dst + size) _ _ (fun st => (size, st))); [|apply emits_ret].
  apply (copy_tail_emits (Z.to_nat (size - (if b then i2 + 4 else i2)))); destruct b; try specialize (Hb eq_refl); lia.
Qed.

Lemma memcpyRtWt_emits append_only fuel : size < Z.of_nat fuel ->
  emits_copy dst (dst + size) (fun st => memcpyRtWt append_only fuel false st dst src size) id.
Proof.
  intros Hf. unfold memcpyRtWt. destruct (negb append_only && (4 <=? size)) eqn:E.
  - apply andb_true_iff in E as [_ E%Z.leb_le]. by apply memcpy_words_emits.
  - apply (emits_bind _ _ _ _ source_kept_write _ (dst + size) _ _ (fun st => (size, st))); [|apply emits_ret].
    apply copy_do_start; lia.
Qed.

End CopyTo.

Lemma mget_memcpy n m dst src b : dst + Z.of_nat n <= src \/ src + Z.of_nat n <= dst ->
  mget (memcpy n m dst src) b = if decide (dst <= b < dst + Z.of_nat n) then mget m (src + (b - dst)) else mget m b.
Proof.
  revert m dst src. induction n as [|n IH]; intros m dst src Hd; cbn [memcpy]; [case_decide; [lia|done]|].
  rewrite IH, !mget_store by lia. unfold in_range. repeat case_decide; try lia; try done.
  - f_equal. lia.
  - replace b with dst by lia. rewrite !Z.sub_diag, Z.pow_0_r, Z.div_1_r, Z.add_0_r. apply Z.mod_small, mget_bound.
Qed.

Lemma copy_val_byte m dst src t a x : in_range x a (sizeof t) -> (copy_val m dst src t a / 256 ^ (x - a)) mod 256 = mget m (src + (x - dst)).
Proof.
  intros Hx. unfold copy_val. rewrite <- (load_byte (sizeof t) m (src + (a - dst)) (src + (x - dst))) by (unfold in_range in *; lia).
  do 3 f_equal. lia.
Qed.

(** The writes of a call. *)
Lemma memcpyRtWt_tiling {T} `{BarrierLaws T} append_only fuel (st : T) dst src size :
  0 <= dst -> 0 <= src -> dst + size <= 2^64 -> src + size <= 2^64 -> 1 <= size < 2^32 ->
  dst + size <= src \/ src + size <= dst -> size < Z.of_nat fuel ->
  exists ws, memcpyRtWt append_only fuel false st dst src size = Some (write_all ws st) /\ all_disjoint ws /\
    (forall w, w ∈ ws -> aligned (w_ty w) (w_addr w) /\ dst <= w_addr w /\ w_addr w + Z.of_nat (w_size w) <= dst + size) /\
    replay ws (b_mem st) ≈ memcpy (Z.to_nat size) (b_mem st) dst src.
Proof.
  intros Hd Hs Hds Hss Hsz Hdis Hf.
  destruct (memcpyRtWt_emits (b_mem st) dst src size Hd Hs Hds Hss Hsz Hdis append_only fuel Hf) as (ws & Ht & E).
  exists ws. split_and!.
  - rewrite E by done. by destruct (write_all ws st).
  - by eapply tiles_disjoint.
  - intros w Hw. by destruct (tiles_In _ _ _ _ _ _ _ Ht Hw) as (? & ? & ?).
  - intros b. rewrite (tiles_replay _ _ _ (fun b => mget (b_mem st) (src + (b - dst))) _ _ _ _ b) by eauto using copy_val_byte.
    rewrite mget_memcpy by lia. repeat case_decide; lia || done.
Qed.

(** [_ITM_memcpyRtWt], in the build with append-only buffers and in the one
    that copies word by word, writes every byte of the target exactly once,
    through the barrier, with aligned writes that do not leave the target, and
    the result is that of the C library's [memcpy], for every length from 1 and
    every alignment of source and target. *)
Theorem memcpyRtWt_copies {T} `{BarrierLaws T} append_only fuel (st : T) dst src size :
  0 <= dst -> 0 <= src -> dst + size <= 2^64 -> src + size <= 2^64 -> 1 <= size < 2^32 ->
  dst + size <= src \/ src + size <= dst -> size < Z.of_nat fuel ->
  exists ws, memcpyRtWt append_only fuel false st dst src size = Some (write_all ws st) /\ all_disjoint ws /\
    (forall w, w ∈ ws -> aligned (w_ty w) (w_addr w) /\ dst <= w_addr w /\ w_addr w + Z.of_nat (w_size w) <= dst + size) /\
    replay ws (b_mem st) ≈ memcpy (Z.to_nat size) (b_mem st) dst src.
Proof. apply memcpyRtWt_tiling. Qed.

(** A copy of no bytes still writes one byte: the loop tests its condition
    after the first round. *)
Theorem memcpyRtWt_empty {T} `{Barriers T} append_only fuel (st : T) dst src : 0 <= dst < 2^64 -> 0 <= src < 2^64 ->
  memcpyRtWt append_only (S fuel) false st dst src 0 = Some (b_write uint8_t st dst (load 1 (b_mem st) src)).
Proof.
  intros Hd Hs. unfold memcpyRtWt. rewrite (proj2 (Z.leb_gt 4 0)), andb_false_r by lia. cbn [copy_do]. unfold copy_one.
  rewrite !Z.add_0_r, !u64_small by lia. cbn [sizeof lift fbind]. by destruct (b_write _ _ _ _).
Qed.

(** ** Witnesses: a transaction that is the bare memory *)

#[local] Instance mem_barriers : Barriers mem :=
  {| b_mem := fun m => m; b_poke := fun _ m => m; b_write := fun t m a v => Ret (store (sizeof t) m a v) |}.
#[local] Instance mem_barrier_laws : BarrierLaws mem.
Proof. split; [|done]. intros t st a v st' [= <-]. done. Qed.

Lemma memsetW_fills_witness : exists ws, memsetW 100 false (∅ : mem) 13 65 30 = Some (write_all ws (∅ : mem)) /\
  replay ws ∅ ≈ memset 30 ∅ 13 65.
Proof.
  destruct (memsetW_fills (T := mem) 13 65 30 ltac:(lia) ltac:(lia) ltac:(lia) 100 ∅ ltac:(lia) ltac:(reflexivity))
    as (ws & E & _ & _ & Hm). exists ws. split; [exact E|exact Hm].
Defined.

Lemma memsetW_sign_extends_witness :
  memsetW 2 false (∅ : mem) 16 200 8 = Some (b_write uint64_t (∅ : mem) 16 (fill_word 200)).
Proof. apply (memsetW_sign_extends 2 (∅ : mem) 16 200); [lia|reflexivity|lia|discriminate|lia]. Defined.

Lemma memcpyRtWt_copies_witness : exists ws,
  memcpyRtWt false 100 false (memset 30 ∅ 1000 7) 13 1001 25 = Some (write_all ws (memset 30 ∅ 1000 7)) /\ all_disjoint ws.
Proof.
  destruct (memcpyRtWt_copies false 100 (memset 30 ∅ 1000 7) 13 1001 25 ltac:(lia) ltac:(lia) ltac:(lia) ltac:(lia)
    ltac:(lia) ltac:(lia) ltac:(lia)) as (ws & E & Hd & _). exists ws. split; [exact E|exact Hd].
Defined.

Lemma memcpyRtWt_empty_witness : memcpyRtWt true 1 false (∅ : mem) 16 32 0 = Some (b_write uint8_t (∅ : mem) 16 (load 1 (b_mem (∅ : mem)) 32)).
Proof. apply (memcpyRtWt_empty true 0 (∅ : mem) 16 32); lia. Defined.
