(* ===== verification/TmiMock.v ===== *)
(** * The build without hardening (src/tmi_mock.c)

    With MODE=instr the functions the compiler calls go straight to the memory and to
    the C library: a transaction is executed once and leaves its writes behind.  This
    file interprets the handlers of file SeiHandler with these functions and shows that
    hardening changes nothing: when the plain program runs, the transaction of the
    hardened one commits and leaves the same memory, the same blocks and the same calls
    made. *)

From S2P Require Export SeiComplete TmiCopy.

(** The memory, the C library's allocator and the outside world. *)
Record mock (S W : Type) := mk_mock { k_mem : mem; k_al : S; k_world : W }.
Arguments mk_mock {S W}.
Arguments k_mem {S W}.
Arguments k_al {S W}.
Arguments k_world {S W}.

Section Mock.
Context `{Build} {S W : Type} `{Allocator S} (call : Z -> list Z -> W -> W).
Implicit Types k : mock S W.

(** [_ITM_beginTransaction], [_ITM_commitTransaction] *)
Definition mock_begin (properties : Z) k : Z * mock S W := (1, k).
Definition mock_commit k : mock S W := k.

(** [_ITM_malloc], [_ITM_free] *)
Definition mock_malloc k (size : Z) : outcome (Z * mock S W) :=
  '(ptr, al) ← al_malloc (k_al k) size; Ret (ptr, mk_mock (k_mem k) al (k_world k)).
Definition mock_free k (ptr : Z) : outcome (mock S W) :=
  al ← al_free (k_al k) ptr; Ret (mk_mock (k_mem k) al (k_world k)).

(** [ITM_READ], [ITM_WRITE] *)
Definition mock_R (t : cty) k (addr : Z) : Z := load (sizeof t) (k_mem k) addr.
Definition mock_W (t : cty) k (addr value : Z) : mock S W := mk_mock (store (sizeof t) (k_mem k) addr value) (k_al k) (k_world k).

(** The vector accesses; a vector is a pair of words.  [txn] is the parameter that the
    compiler does not pass. *)
Definition mock_WM128 (txn : Z) k (addr : Z) (value : Z * Z) : mock S W :=
  mock_W uint64_t (mock_W uint64_t k addr value.1) (u64 (addr + 8)) value.2.
Definition mock_RM128 (txn : Z) k (addr : Z) : Z * Z := (mock_R uint64_t k addr, mock_R uint64_t k (u64 (addr + 8))).

(** [_ITM_calloc] and [_ZGTt7realloc] forward to the C library, whose functions are
    arguments: they change the blocks and the memory. *)
Definition mock_calloc (calloc : Z -> Z -> S * mem -> outcome (Z * (S * mem))) k (nmemb size : Z) : outcome (Z * mock S W) :=
  '(p, (al, m)) ← calloc nmemb size (k_al k, k_mem k); Ret (p, mk_mock m al (k_world k)).
Definition mock_realloc (realloc : Z -> Z -> S * mem -> outcome (Z * (S * mem))) k (ptr size : Z) : outcome (Z * mock S W) :=
  '(p, (al, m)) ← realloc ptr size (k_al k, k_mem k); Ret (p, mk_mock m al (k_world k)).

(** The bulk operations; [memmove] of the C library reads the source before it
    writes. *)
Definition with_kmem k (m : mem) : mock S W := mk_mock m (k_al k) (k_world k).
Definition mock_memcpyRtWt k (dst src size : Z) : Z * mock S W := (dst, with_kmem k (memcpy (Z.to_nat size) (k_mem k) dst src)).
Definition mock_memmoveRtWt k (dst src size : Z) : Z * mock S W := (dst, with_kmem k (memmove (Z.to_nat size) (k_mem k) dst src)).
Definition mock_memsetW k (s c n : Z) : Z * mock S W := (s, with_kmem k (memset (Z.to_nat n) (k_mem k) s c)).
Definition mock_memcpy := mock_memcpyRtWt.
Definition mock_memset := mock_memsetW.
Definition mock_changeTransactionMode (flag : Z) k : mock S W := k.
Definition mock_getTMCloneOrIrrevocable (ptr : Z) k : Z * mock S W := (ptr, k).
Definition mock_initializeProcess k : Z * mock S W := (0, k).

(** Code in this build; calls are made at once, the output of messages belongs to
    the library and is not there. *)
Fixpoint mock_exec {R} (h : prog R) k : outcome (list op * R * mock S W) :=
  match h with
  | HEnd r => Ret ([], r, k)
  | HRead t addr f => mock_exec (f (mock_R t k addr)) k
  | HWrite t addr value h' => '(ops, r, k) ← mock_exec h' (mock_W t k addr value); Ret (OWrite t addr value :: ops, r, k)
  | HMalloc size f => '(ptr, k) ← mock_malloc k size; '(ops, r, k) ← mock_exec (f ptr) k; Ret (OMalloc size :: ops, r, k)
  | HFree ptr h' => k ← mock_free k ptr; '(ops, r, k) ← mock_exec h' k; Ret (OFree ptr :: ops, r, k)
  | HCall fp args h' => '(ops, r, k) ← mock_exec h' (mk_mock (k_mem k) (k_al k) (call fp args (k_world k))); Ret (OCall fp args :: ops, r, k)
  | HAppend _ _ _ | HDone _ => Stop Aborted
  end.
Definition mock_run (h : handler) k : outcome (list op * mock S W) := '(ops, _, k) ← mock_exec h k; Ret (ops, k).

(** The transaction: begin, the handler, commit. *)
Definition mock_transaction (h : handler) k : outcome (list op * mock S W) :=
  let '(_, k) := mock_begin 0 k in
  '(ops, k) ← mock_run h k;
  Ret (ops, mock_commit k).
End Mock.

(** No allocation behind a free: the hardened program frees at the commit, so a later
    allocation could not get the same block. *)
Fixpoint frees_late (freed : bool) (ops : list op) : bool :=
  match ops with
  | [] => true
  | OMalloc _ :: ops' => negb freed && frees_late freed ops'
  | OFree _ :: ops' => frees_late true ops'
  | _ :: ops' => frees_late freed ops'
  end.

Section Equivalence.
Context `{Build} {S W : Type} `{AllocatorLaws S}.
Context (crc32c : Z -> Z -> list Z -> Z) (crc_run : Z -> nat -> Z -> list Z -> Z) (call : Z -> list Z -> W -> W).
Implicit Types (s : sei S W) (k : mock S W) (ops : list op).

Lemma free_all_snoc ps p (al : S) : free_all (ps ++ [p]) al = (al' ← free_all ps al; al_free al' p).
Proof.
  revert al. induction ps as [|q ps IH]; intros al; cbn [app free_all]; [rewrite bind_Ret_l; by destruct (al_free al p)|].
  destruct (al_free al q) as [al'|]; [|done]. rewrite !bind_Ret_l. apply IH.
Qed.

(** ** Operations of a phase that have room succeed *)

Lemma write_total s0 p ops s t addr v : phase_state s0 p ops s ->
  exists s', sei_write t s addr v = Ret s' /\ s_mem s' = store (sizeof t) (s_mem s) addr v /\ s_tbin s' = s_tbin s /\ s_wts s' = s_wts s /\ s_alloc s' = s_alloc s /\
    s_talloc s' = s_talloc s.
Proof.
  intros Hs. destruct (ps_log _ _ _ _ Hs) as (a & Hcow & _ & Hrel). pose proof (sw_cow _ (ps_wf _ _ _ _ Hs)) as Hlc. pose proof Hlc as Hlc'. rewrite Hcow, length_insert in Hlc'.
  pose proof (sw_dmr _ (ps_wf _ _ _ _ Hs)) as Hdm. pose proof (ps_pb _ _ _ _ Hs). pose proof (sw_level _ (ps_wf _ _ _ _ Hs)). rewrite (ps_level _ _ _ _ Hs) in *.
  unfold sei_write. rewrite (ps_p _ _ _ _ Hs), (phase_in_range p) by lia. rewrite c_assert_true, bind_Ret_l, arr_getZ_nat, (proj2 (arr_get_Ret _ _ a)), bind_Ret_l
    by (rewrite Hcow; apply list_lookup_insert_eq; lia).
  unfold log_write. destruct (abuf_push_rel t a _ addr (load (sizeof t) (s_mem s) addr) Hrel) as (a' & -> & _). rewrite !bind_Ret_l, arr_setZ_nat, arr_set_lt, bind_Ret_l by lia.
  eexists. split; [done|]. by split_and!.
Qed.

Lemma malloc_total_0 s0 ops s n ptr al' : phase_state s0 0 ops s -> (count (s_talloc s) 0 + 1 < TALLOC_MAX_ALLOCS)%nat -> al_malloc (s_alloc s) n = Ret (ptr, al') ->
  exists s', sei_malloc s n = Ret (ptr, s') /\ s_mem s' = s_mem s /\ s_tbin s' = s_tbin s /\ s_wts s' = s_wts s /\ s_alloc s' = al' /\ count (s_talloc s') 0 = (count (s_talloc s) 0 + 1)%nat.
Proof.
  intros Hs Hmax Em. destruct (sw_talloc _ (ps_wf _ _ _ _ Hs)) as [Hwf _].
  destruct (talloc_malloc_phase0 (s_talloc s) (s_alloc s) n Hwf (ps_tp _ _ _ _ Hs) Hmax) as (p & t' & al & E & _ & _ & _ & Hc & _).
  assert (p = ptr /\ al = al') as [-> ->].
  { pose proof E as E'. unfold talloc_malloc in E'. rewrite (ps_tp _ _ _ _ Hs) in E'. cbn [Nat.eqb] in E'. inv_outcome. rewrite Em in *. inv_outcome. by simplify_eq. }
  unfold sei_malloc. rewrite E, bind_Ret_l. eexists. split; [done|]. by split_and!.
Qed.

(** What is left of the capacities of the library. *)
Record room s ops : Prop := {
  rm_mallocs : (count (s_talloc s) 0 + mallocs ops < TALLOC_MAX_ALLOCS)%nat;
  rm_frees : (length (freed (s_tbin s) 0) + length (frees ops) <= tb_max_items (s_tbin s))%nat;
  rm_calls : (length (queued (s_wts s) 0) + length (calls ops) < w_max_items (s_wts s))%nat;
}.

Definition call_ok (c : Z * list Z) : Prop := c.1 <> 0 /\ (length c.2 <= WTS_MAX_ARG)%nat.

(** The first execution follows the plain program. *)
Lemma mock_sim {R} (h : prog R) : forall s0 ops0 s k b ops r k', phase_state s0 0 ops0 s -> s_mem s = k_mem k -> free_all (frees ops0) (s_alloc s) = Ret (k_al k) ->
  (b = false -> frees ops0 = []) -> mock_exec call h k = Ret (ops, r, k') -> frees_late b ops = true -> room s ops -> Forall call_ok (calls ops) ->
  exists s', exec crc32c h s = Ret (ops, r, s') /\ s_mem s' = k_mem k' /\ free_all (frees (ops0 ++ ops)) (s_alloc s') = Ret (k_al k') /\
    k_world k' = foldl (fun w c => call c.1 c.2 w) (k_world k) (calls ops).
Proof using All.
  induction h as [r0|t a f IH|t a v h IH|n f IH|p h IH|fp args h IH|p n h IH|h IH]; intros s0 ops0 s k b ops r k' Hs Hm Hal Hb E Hlate [Hrm Hrf Hrc] Hca; cbn [mock_exec exec] in *; try discriminate.
  - injection E as <- <- <-. exists s. rewrite app_nil_r. done.
  - unfold mock_R in E. unfold sei_read. rewrite Hm. by eapply IH.
  - apply bind_Ret in E as ([[ops1 r1] k1] & E & [= <- <- <-]). destruct (write_total s0 0 ops0 s t a v Hs) as (s1 & Ew & Em1 & Et1 & Ew1 & Ea1 & Eta1).
    pose proof (phase_state_op crc32c s0 0 ops0 (OWrite t a v) s s1 Hs Ew) as Hs1.
    destruct (IH s0 (ops0 ++ [OWrite t a v]) s1 (mock_W t k a v) b ops1 r1 k1 Hs1) as (s' & Er & Hm' & Hal' & Hw'); try done.
    + rewrite Em1, Hm. done.
    + rewrite Ea1. unfold frees. rewrite omap_app, app_nil_r. exact Hal.
    + intros Hbf. unfold frees. rewrite omap_app, app_nil_r. by apply Hb.
    + by split; rewrite ?Et1, ?Ew1, ?Eta1.
    + exists s'. rewrite Ew, bind_Ret_l, Er, bind_Ret_l. split; [done|]. split; [done|]. split; [|done]. by rewrite <- app_assoc in Hal'.
  - apply bind_Ret in E as ([ptr k0] & Em & E). apply bind_Ret in E as ([[ops1 r1] k1] & E & [= <- <- <-]). cbn [frees_late] in Hlate. apply andb_prop in Hlate as [Hnb Hlate].
    destruct b; [done|]. specialize (Hb eq_refl). rewrite Hb in Hal. cbn [free_all] in Hal. injection Hal as Hal. unfold mock_malloc in Em. apply bind_Ret in Em as ([p0 al] & Em & [= <- <-]).
    rewrite <- Hal in Em. cbn [mallocs omap list_omap length] in Hrm. fold (mallocs ops1) in Hrm.
    destruct (malloc_total_0 s0 ops0 s n p0 al Hs) as (s1 & Es & Em1 & Et1 & Ew1 & Ea1 & Ec1); [unfold mallocs in *; cbn in *; lia|done|].
    assert (Hs1 : phase_state s0 0 (ops0 ++ [OMalloc n]) s1) by (apply (phase_state_op crc32c s0 0 ops0 (OMalloc n) s s1 Hs); cbn [exec_op]; by rewrite Es).
    destruct (IH p0 s0 (ops0 ++ [OMalloc n]) s1 (mk_mock (k_mem k) al (k_world k)) false ops1 r1 k1 Hs1) as (s' & Er & Hm' & Hal' & Hw'); try done.
    + by rewrite Em1.
    + unfold frees in *. rewrite omap_app, app_nil_r, Hb, Ea1. done.
    + intros _. unfold frees in *. by rewrite omap_app, app_nil_r.
    + split; rewrite ?Et1, ?Ew1, ?Ec1; [unfold mallocs in *; cbn in *; lia|done|done].
    + exists s'. rewrite Es, bind_Ret_l, Er, bind_Ret_l. split; [done|]. split; [done|]. split; [|done]. by rewrite <- app_assoc in Hal'.
  - apply bind_Ret in E as (k0 & Ef & E). apply bind_Ret in E as ([[ops1 r1] k1] & E & [= <- <- <-]). unfold mock_free in Ef. apply bind_Ret in Ef as (al & Ef & [= <-]). cbn [frees_late] in Hlate.
    destruct (sw_tbin _ (ps_wf _ _ _ _ Hs)) as [Hwf _]. pose proof (sw_dmr _ (ps_wf _ _ _ _ Hs)). cbn [frees omap list_omap length] in Hrf. fold (frees ops1) in Hrf.
    destruct (tbin_add_spec (s_tbin s) p 0 Hwf ltac:(lia)) as (tb & Et & Hwf' & _ & Hfr & _); [rewrite <- freed_length by (done || lia); unfold frees in *; cbn in *; lia|].
    assert (Es : sei_free s p = Ret (with_tbin s tb)) by (unfold sei_free; by rewrite (ps_p _ _ _ _ Hs), Et).
    pose proof (phase_state_op crc32c s0 0 ops0 (OFree p) s _ Hs Es) as Hs1.
    destruct (IH s0 (ops0 ++ [OFree p]) (with_tbin s tb) (mk_mock (k_mem k) al (k_world k)) true ops1 r1 k1 Hs1) as (s' & Er & Hm' & Hal' & Hw'); try done.
    + assert (Efr : frees (ops0 ++ [OFree p]) = frees ops0 ++ [p]) by (unfold frees; by rewrite omap_app). cbn [s_alloc with_tbin k_al]. by rewrite Efr, free_all_snoc, Hal, bind_Ret_l.
    + split; [done| |done]. cbn [s_tbin with_tbin]. rewrite Hfr, length_app, (tbin_add_max _ _ _ _ Et). unfold frees in *. cbn in *. lia.
    + exists s'. rewrite Es, bind_Ret_l, Er, bind_Ret_l. split; [done|]. split; [done|]. split; [|done]. by rewrite <- app_assoc in Hal'.
  - apply bind_Ret in E as ([[ops1 r1] k1] & E & [= <- <- <-]). cbn [frees_late] in Hlate. pose proof (sw_wts _ (ps_wf _ _ _ _ Hs)) as Hwf. pose proof (sw_dmr _ (ps_wf _ _ _ _ Hs)).
    cbn [calls omap list_omap] in Hca, Hrc. apply Forall_cons in Hca as [[Hfp Hla] Hca].
    destruct (wts_add_spec (s_wts s) 0 fp args Hwf ltac:(lia) Hfp Hla) as (w & Ew & Hwf' & Hmx & Hq & _); [rewrite <- queued_length by done; unfold calls in *; cbn in *; lia|].
    assert (Es : sei_delay_call s fp args = Ret (with_wts s w)) by (unfold sei_delay_call; by rewrite (ps_p _ _ _ _ Hs), Ew).
    pose proof (phase_state_op crc32c s0 0 ops0 (OCall fp args) s _ Hs Es) as Hs1.
    destruct (IH s0 (ops0 ++ [OCall fp args]) (with_wts s w) (mk_mock (k_mem k) (k_al k) (call fp args (k_world k))) b ops1 r1 k1 Hs1) as (s' & Er & Hm' & Hal' & Hw'); try done.
    + unfold frees. rewrite omap_app, app_nil_r. exact Hal.
    + intros Hbf. unfold frees. rewrite omap_app, app_nil_r. by apply Hb.
    + split; [done|done|]. cbn [s_wts with_wts]. rewrite Hq, length_app, Hmx. unfold calls in *. cbn in *. lia.
    + exists s'. rewrite Es, bind_Ret_l, Er, bind_Ret_l. split; [done|]. split; [done|]. split; [|done]. by rewrite <- app_assoc in Hal'.
Qed.

(** A function reads the arguments it was registered with. *)
Context (Hcall : forall f args rest w, call f (args ++ rest) w = call f args w).

Lemma run_calls_direct items cs : forall w, call_of 0 <$> items = cs -> run_calls call items w = foldl (fun w c => call c.1 c.2 w) w cs.
Proof using Hcall.
  revert cs. induction items as [|it items IH]; intros cs w <-; [done|]. unfold run_calls. cbn [fmap list_fmap foldl call_of fst snd].
  rewrite <- (Hcall _ (take _ _) (drop (nth 0 (w_anum it) 0%nat) (nth 0 (w_args it) []))), take_drop. by apply IH.
Qed.

(** What a segment of the plain build needs to run in the library. *)
Record fits s ops : Prop := {
  ft_sep : separated (writes ops);
  ft_writes : (length (writes ops) <= ABUF_MAX_CONFLICTS)%nat;
  ft_late : frees_late false ops = true;
  ft_frees : forall p, p ∈ frees ops -> p <> 0;
  ft_calls : Forall call_ok (calls ops);
  ft_mallocs : (mallocs ops < TALLOC_MAX_ALLOCS)%nat;
  ft_tbin : (length (frees ops) <= tb_max_items (s_tbin s))%nat;
  ft_wts : (length (calls ops) < w_max_items (s_wts s))%nat;
}.

Lemma mock_commits {R} (h : prog R) s ops r k' : idle s -> s_redundancy_level s = 2%nat -> SEI_DMR_REDUNDANCY = 2%nat -> in_sync s ->
  mock_exec call h (mk_mock (s_mem s) (s_alloc s) (s_world s)) = Ret (ops, r, k') -> fits s ops -> input_ok crc32c crc_run s (k_mem k') ->
  exists s', prog_transaction crc32c crc_run call h s = Ret (ops, r, s') /\ s_mem s' ≈ k_mem k' /\ s_alloc s' = k_al k' /\ s_world s' = k_world k' /\
    idle s' /\ in_sync s'.
Proof using All.
  intros Hs Hlv HN Hsync E [Hsep Hmax Hlate Hnz Hca Hm Hf Hc] Hin.
  destruct (sei_begin_idle s Hs) as (cf & Eb & _ & _ & Hs0). set (s0 := with_cf (with_p s 0) cf) in *.
  assert (Hroom : room s0 ops).
  { split; cbn [s0 with_cf with_p s_talloc s_tbin s_wts]; [rewrite (id_count _ Hs 0) by lia; lia|rewrite (id_freed _ Hs 0) by lia; done|rewrite (id_queued _ Hs 0) by lia; done]. }
  destruct (mock_sim h s0 [] s0 (mk_mock (s_mem s) (s_alloc s) (s_world s)) false ops r k' Hs0 eq_refl eq_refl (fun _ => eq_refl) E Hlate Hroom Hca) as (s1 & Er & Hm1 & Hal1 & Hw1).
  cbn [app] in Hal1. destruct (free_all_dup _ _ _ Hal1 Hnz) as [Hnd Hlive].
  destruct (exec_commits crc32c crc_run call h s ops r s1 Hs Hlv HN Hsync) as (s' & Et & Hm' & Hfa & _ & (items & Hit & Hw') & Hidle & Hsync'); try done.
  - by rewrite Eb, bind_Ret_l.
  - intros q Hq. split; [by apply Hnz|by apply Hlive].
  - intros c Hc'. rewrite Forall_forall in Hca. by apply Hca.
  - by rewrite Hm1.
  - rewrite Hal1 in Hfa. injection Hfa as Hfa. exists s'. split_and!; [done|by rewrite Hm', Hm1|done| |done|done].
    rewrite Hw', (run_calls_direct items (calls ops)) by done. by rewrite Hw1.
Qed.

End Equivalence.

(** A handler that increments a counter, stores the new value in a fresh block, frees
    a block of the environment and makes a call. *)
Definition plain_handler : handler :=
  HRead uint32_t 100 (fun n =>
  HWrite uint32_t 100 (n + 1) (
  HMalloc 8 (fun p =>
  HWrite uint64_t p (n + 1) (
  HFree 16 (HCall 5 [n; p] HRet))))).

