(* ===== verification/SeiRollback.v ===== *)
(** * Rollback of the driver

    [sei_rollback] of src/mode_cow.c as the recovery path of src/tmi.c uses it:
    after both executions, when [sei_try_commit] rejected them. *)

From S2P Require Export SeiDmr.

Section Rollback.
Context `{Build} {S W : Type} `{AllocatorLaws S}.
Context (crc32c : Z -> Z -> list Z -> Z).
Context (crc_run : Z -> nat -> Z -> list Z -> Z).
Context (call : Z -> list Z -> W -> W).
Implicit Types (s : sei S W) (ops : list op).

Abbreviation two_executions := (two_executions crc32c crc_run).

(** Without allocations no address belongs to the traversal allocator. *)
Lemma no_allocs_in_range t addr : count t 0 = 0%nat -> talloc_addr_in_range t addr = false.
Proof. intros Hc. unfold talloc_addr_in_range. unfold count in Hc. rewrite Hc. by destruct (ta_allocations t). Qed.

Lemma sei_rollback_mem s s' a0 l0 : s_cow s !! 0%nat = Some a0 -> log_rel a0 l0 ->
  count (s_talloc s) 0 = 0%nat -> sei_rollback s = Ret s' ->
  s_mem s' = replay l0 (s_mem s) /\ s_p s' = 0 /\ s_proc s' = s_proc s.
Proof.
  intros Ha Hr Hc E. unfold sei_rollback in E. rewrite (proj2 (arr_get_Ret _ _ _) Ha) in E.
  cbn [mbind outcome_bind] in E.
  rewrite (abuf_restore_filtered_rel _ a0 l0 (s_mem s)) in E by (done || (intros; by apply no_allocs_in_range)).
  cbn [mbind outcome_bind] in E.
  apply bind_Ret in E as (cow & _ & E). apply bind_Ret in E as (cow' & _ & E).
  apply bind_Ret in E as (tb & _ & E). apply bind_Ret in E as ([t al] & _ & E).
  apply bind_Ret in E as (o & _ & E). apply bind_Ret in E as (o' & _ & E).
  apply bind_Ret in E as (s1 & Eo & E). apply cur_obuf_frame in Eo as [os ->].
  apply bind_Ret in E as (wt & _ & E). apply bind_Ret in E as (cf & _ & [= <-]). done.
Qed.

(** C40.  The rollback after a failed comparison does not restore the memory.  By
    then the switch has exchanged the log of phase 0 with the memory, so that the
    log holds the values phase 0 wrote, and "restoring" it re-applies the writes
    of phase 0 on top of those of phase 1.  (Stated for two executions of
    which the first makes no allocation, so that no log entry is filtered out.) *)
Theorem rollback_reapplies_phase0 ops0 ops1 s s4 s' :
  idle s -> s_redundancy_level s = 2%nat -> mallocs ops0 = 0%nat ->
  two_executions ops0 ops1 s = Ret s4 -> sei_rollback s4 = Ret s' ->
  s_mem s' ≈ replay (writes ops0) (replay (writes ops1) (s_mem s)).
Proof.
  intros Hs Hlv Hm E Er.
  apply two_executions_inv in E as (s3 & a0 & a1 & Hm3 & _ & _ & _ & Hm4 & Ha0 & Hr0 & _ & _ & _ & _ & _ & _
    & _ & _ & Hc0 & _); [|done|done].
  apply (sei_rollback_mem _ _ _ _ Ha0 Hr0) in Er as [-> _]; [|by rewrite Hc0].
  rewrite replay_norm, Hm4. by rewrite Hm3.
Qed.

End Rollback.

(** ** Witness: a write of 7 to a zeroed word is still there after the rollback. *)

Lemma rollback_reapplies_phase0_witness :
  let _ := debug_build 2 in
  let ops := [OWrite uint32_t 100 7] in
  exists s s4 s', sei_init ∅ demo_env_heap ([] : list Z) demo_proc = Ret s /\
    two_executions crc32cSarwate demo_crc ops ops s = Ret s4 /\ sei_rollback s4 = Ret s' /\
    s_mem s' ≈ replay (writes ops) (replay (writes ops) (s_mem s)) /\
    load 4 (s_mem s) 100 = 0 /\ load 4 (s_mem s') 100 = 7.
Proof.
  intros B ops.
  assert (Hrun : (s ← sei_init ∅ demo_env_heap ([] : list Z) demo_proc;
                  s4 ← two_executions crc32cSarwate demo_crc ops ops s;
                  s' ← sei_rollback s4;
                  Ret (load 4 (s_mem s) 100, load 4 (s_mem s') 100)) = Ret (0, 7)) by (vm_compute; reflexivity).
  apply bind_Ret in Hrun as (s & E & Hrun). apply bind_Ret in Hrun as (s4 & E4 & Hrun).
  apply bind_Ret in Hrun as (s' & E' & Hv). injection Hv as Hv1 Hv2.
  destruct (sei_init_idle (∅ : mem) demo_env_heap ([] : list Z) demo_proc) as (s0 & E0 & Hidle & Hlv & _);
    [unfold SEI_DMR_MAX_REDUNDANCY; cbn; lia|].
  rewrite E in E0. injection E0 as <-.
  pose proof (rollback_reapplies_phase0 crc32cSarwate demo_crc ops ops s s4 s' Hidle Hlv eq_refl E4 E') as Hm.
  exists s, s4, s'. split; [exact E|]. split; [exact E4|]. split; [exact E'|]. split; [exact Hm|].
  split; [exact Hv1|exact Hv2].
Defined.
