(* ===== verification/SeiRecover.v ===== *)
(** * The commit of the recovery build

    With SEI_CPU_ISOLATION the comparison is made by [sei_try_commit], which changes
    nothing and answers 0 instead of stopping the process, so that a failed
    transaction can be rolled back; [sei_commit] then skips it.  Here is exactly
    what the answer says. *)

From S2P Require Export AbufProps SeiComplete.

Section Recover.
Context `{Build} {S W : Type} `{AllocatorLaws S}.
Context (crc32c : Z -> Z -> list Z -> Z).
Context (crc_run : Z -> nat -> Z -> list Z -> Z).
Context (call : Z -> list Z -> W -> W).
Implicit Types (s : sei S W) (ops : list op).

Abbreviation input_check s := (ibuf_correct crc_run (s_mem s) (s_ibuf s) (s_proc s)).

(** The phases start with their control-flow flags reset. *)
Definition cf_fresh s : Prop :=
  forall i c, (i < s_redundancy_level s)%nat -> s_cf s !! i = Some c -> c = mk_cfc RESET RESET RESET RESET.

Lemma rewind_cows_id level cow : (level <= length cow)%nat ->
  (forall i a, (i < level)%nat -> cow !! i = Some a -> poped a = 0%nat) -> rewind_cows level cow = Ret cow.
Proof.
  intros Hl Hp. unfold rewind_cows.
  run_loop (fun (_ : nat) (l : list abuf) => l = cow) cow' Hc; [done| |by subst].
  intros i l Hi ->. destruct (arr_get_lt cow i) as (a & Ha & ->); [lia|]. rewrite bind_Ret_l, arr_set_lt by lia.
  eexists. split; [done|]. apply list_insert_id. rewrite Ha. f_equal. unfold abuf_rewind.
  rewrite <- (Hp i a ltac:(lia) Ha). symmetry. apply set_poped_id.
Qed.

(** The answer of [sei_try_commit] and what it leaves: only the control-flow flags
    and the processor state change. *)
Lemma sei_try_commit_spec s a0 a1 l0 l1 ok pr : SEI_DMR_REDUNDANCY = 2%nat -> sei_wf s -> s_redundancy_level s = 2%nat -> s_p s = 1 ->
  s_cow s !! 0%nat = Some a0 -> s_cow s !! 1%nat = Some a1 -> log_rel a0 l0 -> log_rel a1 l1 ->
  poped a0 = 0%nat -> poped a1 = 0%nat -> cf_fresh s -> input_check s = Ret (ok, pr) ->
  exists v cf pr', sei_try_commit crc_run s = Ret (v, with_proc (with_cf s cf) pr') /\ length cf = length (s_cf s) /\
    (v = true <-> shape <$> l0 = shape <$> l1 /\ (conflicts (s_mem s) l0 <= ABUF_MAX_CONFLICTS)%nat /\ excused (s_mem s) l0 /\
       ok = true /\ wts_agree (s_wts s) /\ tbin_agree (s_tbin s)) /\
    (v = true -> forall i c, (i < 2)%nat -> cf !! i = Some c -> cfc_check c = true).
Proof.
  intros HN Hwf Hlv Hp Ha0 Ha1 Hr0 Hr1 Hpo0 Hpo1 Hcf Hin. unfold sei_try_commit. rewrite Hlv, Hp.
  change (1 =? Z.of_nat 2 - 1) with true. rewrite c_assert_true, bind_Ret_l.
  pose proof (sw_cow _ Hwf) as Hlc. pose proof (sw_cf _ Hwf) as Hlcf. unfold SEI_DMR_MAX_REDUNDANCY in *.
  rewrite rewind_cows_id; [|lia|intros [|[|i]] a Hi Ha; [congruence|congruence|lia]].
  rewrite bind_Ret_l. unfold try_compare_cows. cbn [Nat.eqb].
  rewrite (proj2 (arr_get_Ret _ _ _) Ha0), bind_Ret_l, (proj2 (arr_get_Ret _ _ _) Ha1), bind_Ret_l.
  destruct (abuf_try_cmp_heap_spec (s_mem s) a0 a1 l0 l1 HN Hr0 Hr1 Hpo0 Hpo1) as (v & -> & Hv). rewrite bind_Ret_l.
  rewrite arr_set_lt, bind_Ret_l, list_insert_id, arr_set_lt, bind_Ret_l, list_insert_id, bind_Ret_l by (done || lia).
  assert (Hid : with_cow s (s_cow s) = s) by (by destruct s). rewrite Hid.
  assert (Hsame : forall b, with_proc (with_cf s (s_cf s)) (s_proc s) = s /\ with_proc (with_cf s b) (s_proc s) = with_cf s b) by (by destruct s).
  destruct v; cbn [negb].
  2: { exists false, (s_cf s), (s_proc s). rewrite (proj1 (Hsame [])). split_and!; [done|done|split; [done|tauto]|done]. }
  destruct (cf_gates_ok 2 0 (s_cf s)) as (cf & -> & Hl & _ & Hck); [lia|intros j c Hj; apply Hcf; rewrite Hlv; lia|].
  rewrite bind_Ret_l. cbn [negb with_cf s_mem s_ibuf s_proc]. rewrite Hin, bind_Ret_l.
  assert (Hck' : forall i c, (i < 2)%nat -> cf !! i = Some c -> cfc_check c = true) by (intros i c Hi; apply Hck; lia).
  destruct ok; cbn [negb]; [|exists false, cf, pr; split_and!; [done|done|split; [done|intros (_ & _ & _ & ? & _); done]|done]].
  cbn [with_proc with_cf s_wts s_tbin].
  destruct (wts_can_flush_decides (s_wts s) (sw_wts _ Hwf) ltac:(lia)) as ([] & -> & Hw); rewrite bind_Ret_l; cbn [negb].
  2: { exists false, cf, pr. split_and!; [done|done|split; [done|tauto]|done]. }
  destruct (tbin_can_flush_decides (s_tbin s) (proj1 (sw_tbin _ Hwf))) as ([] & -> & Hb); rewrite bind_Ret_l; cbn [negb].
  - exists true, cf, pr. split_and!; [done|done|tauto|done].
  - exists false, cf, pr. split_and!; [done|done|split; [done|tauto]|done].
Qed.

(** The rest of what two executions leave. *)
Lemma two_executions_control ops0 ops1 s s4 : idle s -> s_redundancy_level s = 2%nat -> two_executions crc32c crc_run ops0 ops1 s = Ret s4 ->
  s_p s4 = 1 /\ cf_fresh s4.
Proof.
  intros Hs Hlv E. unfold two_executions in E.
  destruct (sei_begin_idle s Hs) as (cf & Eb & _ & Hcf & Hp0). rewrite Eb, bind_Ret_l in E.
  apply bind_Ret in E as (s2 & E0 & E). eapply phase_state_ops in E0; [|done]. cbn [app] in E0.
  apply bind_Ret in E as (s3 & Esw & E).
  destruct (sei_switch_inv crc_run _ _ _ _ _ E0 ltac:(cbn; lia) Esw) as (Hwf3 & Hp3 & Hlv3 & Htp3 & _ & _ & _ & Hcf3 & _ & _ & a & Hcow3 & _).
  destruct (id_cow _ Hs 1%nat ltac:(lia)) as (b & Hb & Hrb & Hpb).
  assert (Hps : phase_state s3 1 [] s3).
  { eapply (phase_state_start s3 1 b); try done; [rewrite Hlv3; cbn; lia|]. rewrite Hcow3. by rewrite list_lookup_insert_ne. }
  apply (phase_state_ops crc32c _ _ _ _ _ _ Hps) in E. split; [by rewrite (ps_p _ _ _ _ E)|].
  intros i c Hi Hc. rewrite (ps_level _ _ _ _ E), Hlv3 in Hi. rewrite (ps_cf _ _ _ _ E), Hcf3, (ps_cf _ _ _ _ E0) in Hc. by apply (Hcf i).
Qed.

(** The log of phase 0 against the memory of phase 1. *)
Lemma excused_iff_replay ws0 ws1 m0 m : shape <$> ws0 = shape <$> ws1 -> all_disjoint ws0 -> m ≈ replay ws1 m0 ->
  excused m (norm <$> ws0) <-> replay ws0 m0 ≈ replay ws1 m0.
Proof.
  intros Hsh Hd Hm.
  pose proof (all_disjoint_norm _ Hd) as Hd'.
  rewrite excused_disjoint by done. split.
  - intros Hno. rewrite <- Hm. symmetry. apply (accepted_replay _ _ _ _ Hsh (all_disjoint_separated _ Hd) Hm).
    intros i w [Hi _]. specialize (Hno i w Hi). unfold mismatch in Hno. by apply negb_false_iff, Z.eqb_eq in Hno.
  - intros Heq i w Hi. unfold mismatch. apply negb_false_iff, Z.eqb_eq.
    rewrite <- (replay_norm_last ws0 m0 i w (all_disjoint_separated _ Hd) (all_disjoint_last _ i w Hd' Hi)).
    apply load_proper; [|done]. by rewrite Hm, Heq.
Qed.

(** C4.  The pre-check of the recovery build is exact.  After any two executions the
    answer of sei_try_commit is 1 exactly when the input message is intact and the
    executions wrote the same objects, left the same memory, requested the same calls
    and freed the same blocks; whatever it answers, it returns, and the memory, the
    logs and the queues are untouched, so that the transaction can still be rolled
    back.  (The first execution writes no byte twice, the level is 2, and the check of the
    message returns; null function pointers and null frees are rejected.) *)
Theorem try_commit_exact ops0 ops1 s s4 ok pr : SEI_DMR_REDUNDANCY = 2%nat -> idle s -> s_redundancy_level s = 2%nat -> all_disjoint (writes ops0) ->
  two_executions crc32c crc_run ops0 ops1 s = Ret s4 -> input_check s4 = Ret (ok, pr) ->
  exists v cf pr', sei_try_commit crc_run s4 = Ret (v, with_proc (with_cf s4 cf) pr') /\
    (v = true <-> ok = true /\ shape <$> writes ops0 = shape <$> writes ops1 /\
       replay (writes ops0) (s_mem s) ≈ replay (writes ops1) (s_mem s) /\
       calls ops0 = calls ops1 /\ (forall c, c ∈ calls ops0 -> c.1 <> 0) /\
       frees ops0 = frees ops1 /\ (forall q, q ∈ frees ops0 -> q <> 0)).
Proof.
  intros HN Hs Hlv Hd E Hin. destruct (two_executions_control _ _ _ _ Hs Hlv E) as [Hp Hcf].
  apply two_executions_inv in E as (s3 & a0 & a1 & Hm3 & Hw4 & Hwf4 & Hlv4 & Hm4 & Ha0 & Hr0 & Hpo0
    & Ha1 & Hr1 & Hpo1 & Hf0 & Hf1 & Hq0 & Hq1 & Hc0 & Hc1); [|done|done].
  destruct (sei_try_commit_spec s4 a0 a1 _ _ ok pr HN Hwf4 Hlv4 Hp Ha0 Ha1 Hr0 Hr1 Hpo0 Hpo1 Hcf Hin) as (v & cf & pr' & E & _ & Hv & _).
  exists v, cf, pr'. split; [done|]. rewrite Hv, norm_shape, undo_log_shape. clear Hv.
  assert (Hmem : s_mem s4 ≈ replay (writes ops1) (s_mem s)) by (by rewrite Hm4, Hm3).
  assert (Hw : wts_agree (s_wts s4) <-> calls ops0 = calls ops1 /\ forall c, c ∈ calls ops0 -> c.1 <> 0).
  { unfold wts_agree. rewrite Hq0, <- Hq1, HN. split; intros [Hq Hn]; (split; [|done]); [symmetry; apply Hq; lia|].
    intros [|[|p]] Hlt; [done|done|lia]. }
  assert (Hb : tbin_agree (s_tbin s4) <-> frees ops0 = frees ops1 /\ forall q, q ∈ frees ops0 -> q <> 0).
  { unfold tbin_agree. rewrite (proj2 (sw_tbin _ Hwf4)), Hlv4, Hf0, <- Hf1. split; intros [Hq Hn]; (split; [|done]); [symmetry; apply Hq; lia|].
    intros [|[|p]] Hlt; [done|done|lia]. }
  rewrite Hw, Hb. split.
  - intros (Hsh & _ & Hex & ? & ? & ?). split_and!; try tauto. by apply (excused_iff_replay _ _ _ _ Hsh Hd Hmem).
  - intros (? & Hsh & Hrep & ? & ? & ? & ?). pose proof (proj2 (excused_iff_replay _ _ _ _ Hsh Hd Hmem) Hrep) as Hex.
    split_and!; try tauto. rewrite no_mismatch_conflicts; [lia|]. apply excused_disjoint; [by apply all_disjoint_norm|done].
Qed.

Lemma sei_try_commit_input s s' : sei_try_commit crc_run s = Ret (true, s') -> exists ok pr, input_check s = Ret (ok, pr).
Proof.
  intros E. unfold sei_try_commit in E. apply bind_Ret in E as (u & _ & E). apply bind_Ret in E as (cow & _ & E).
  apply bind_Ret in E as ([b1 cow'] & _ & E). destruct b1; cbn [negb] in E; [|discriminate]. apply bind_Ret in E as ([b2 cf] & _ & E).
  destruct b2; cbn [negb] in E; [|discriminate]. apply bind_Ret in E as ([ok pr] & E & _). by exists ok, pr.
Qed.

(** begin; handler; switch; handler; the pre-check, and the commit when it answers 1. *)
Definition recovery_transaction (migrate : bool) ops0 ops1 s : outcome (bool * sei S W) :=
  s ← two_executions crc32c crc_run ops0 ops1 s;
  '(ok, s) ← sei_try_commit crc_run s;
  if ok : bool then s ← sei_commit crc_run call (Some migrate) s; Ret (true, s) else Ret (false, s).

(** C3.  Soundness of the recovery build, debug or release, for two executions of
    which the first writes no byte twice: a transaction that commits has left the memory each execution alone would have left, with equal
    write sets, frees, calls and allocation counts, the calls executed once in
    order, and the library is ready for the next transaction; a transaction that is
    rejected has run no call and freed nothing, and its logs are complete. *)
Theorem recovery_transaction_sound migrate ops0 ops1 s s' v : SEI_DMR_REDUNDANCY = 2%nat -> idle s -> s_redundancy_level s = 2%nat ->
  all_disjoint (writes ops0) -> recovery_transaction migrate ops0 ops1 s = Ret (v, s') ->
  if v : bool then
    s_mem s' ≈ replay (writes ops0) (s_mem s) /\ s_mem s' ≈ replay (writes ops1) (s_mem s) /\
    shape <$> writes ops0 = shape <$> writes ops1 /\ frees ops0 = frees ops1 /\ mallocs ops0 = mallocs ops1 /\ calls ops0 = calls ops1 /\
    (exists items, call_of 0 <$> items = calls ops0 /\ s_world s' = run_calls call items (s_world s)) /\ idle s'
  else
    s_world s' = s_world s /\ s_p s' = 1 /\
    (exists s4, two_executions crc32c crc_run ops0 ops1 s = Ret s4 /\ s_alloc s' = s_alloc s4 /\ s_mem s' = s_mem s4 /\
       s_tbin s' = s_tbin s4 /\ s_wts s' = s_wts s4).
Proof.
  intros HN Hs Hlv Hd E. unfold recovery_transaction in E. apply bind_Ret in E as (s4 & E4 & E). apply bind_Ret in E as ([v' s5] & E5 & E).
  destruct (two_executions_control _ _ _ _ Hs Hlv E4) as [Hp Hcf]. pose proof E4 as E4'.
  apply two_executions_inv in E4' as (s3 & a0 & a1 & Hm3 & Hw4 & Hwf4 & Hlv4 & Hm4 & Ha0 & Hr0 & Hpo0
    & Ha1 & Hr1 & Hpo1 & Hf0 & Hf1 & Hq0 & Hq1 & Hc0 & Hc1); [|done|done].
  destruct v'.
  - apply bind_Ret in E as (s6 & E6 & [= <- <-]). destruct (sei_try_commit_input _ _ E5) as (ok & pr & Hin).
    destruct (sei_try_commit_spec s4 a0 a1 _ _ ok pr HN Hwf4 Hlv4 Hp Ha0 Ha1 Hr0 Hr1 Hpo0 Hpo1 Hcf Hin) as (v' & cf & pr' & E & Hlcf & Hv & _).
    rewrite E5 in E. injection E as <- ->. destruct (proj1 Hv eq_refl) as (Hsh & _ & Hex & _). rewrite norm_shape, undo_log_shape in Hsh.
    assert (Hmem : s_mem s4 ≈ replay (writes ops1) (s_mem s)) by (by rewrite Hm4, Hm3).
    apply (excused_iff_replay _ _ _ _ Hsh Hd Hmem) in Hex.
    set (s5 := with_p (with_proc (with_cf s4 cf) pr') (-1)) in *.
    assert (Hwf5 : sei_wf s5) by (destruct Hwf4; split; cbn; congruence).
    destruct (commit_rest_inv crc_run call (Some migrate) s5 s6 Hwf5 eq_refl) as (Em & [Hwag _] & [Hbag _] & _ & _ & _ & Hcnt & Hworld & Hidle); [|exact E6|].
    { intros [|[|i]] a Hi Ha; cbn in Hi, Ha; [| |lia]; simplify_eq; by eapply log_rel_buf_ok. }
    cbn in Em, Hwag, Hbag, Hcnt, Hworld. rewrite Em. split_and!; try done.
    + by rewrite Hmem, Hex.
    + rewrite <- Hf0, <- Hf1. symmetry. apply Hbag. rewrite (proj2 (sw_tbin _ Hwf4)). lia.
    + rewrite <- Hc0, <- Hc1. symmetry. apply Hcnt. lia.
    + rewrite <- Hq0, <- Hq1. symmetry. apply Hwag. lia.
    + eexists. split; [|by rewrite <- Hw4]. by rewrite <- Hq0.
  - injection E as <- <-. cut (s_world s5 = s_world s4 /\ s_p s5 = s_p s4 /\ s_alloc s5 = s_alloc s4 /\ s_mem s5 = s_mem s4 /\ s_tbin s5 = s_tbin s4 /\ s_wts s5 = s_wts s4).
    { intros (-> & -> & ? & ? & ? & ?). rewrite Hw4, Hp. split_and!; try done. by exists s4. }
    clear -E5. unfold sei_try_commit in E5. inv_outcome. by repeat (case_match; inv_outcome; simplify_eq).
Qed.
End Recover.

(** ** Witnesses *)

(** Two equal executions, and two executions that disagree on a byte. *)
Definition recover_ops (v : Z) : list op := [OWrite uint32_t 100 7; OWrite uint8_t 201 v; OCall 5 [1; 2]].

Lemma recover_ops_disjoint v : all_disjoint (writes (recover_ops v)).
Proof.
  intros [|[|i]] [|[|j]] w1 w2 Hij Hi Hj; try done; cbn in Hi, Hj; injection Hi as <-; injection Hj as <-; unfold disjoint_range; cbn; lia.
Qed.

Lemma try_commit_exact_witness :
  let _ := debug_build 2 in
  exists (s s4 : sei libc (list Z)) cf pr', sei_init ∅ demo_env_heap [] demo_proc = Ret s /\
    two_executions crc32cSarwate demo_crc (recover_ops 44) (recover_ops 45) s = Ret s4 /\
    sei_try_commit demo_crc s4 = Ret (false, with_proc (with_cf s4 cf) pr').
Proof.
  intros B.
  assert (Hrun : (s ← sei_init ∅ demo_env_heap ([] : list Z) demo_proc;
                  s4 ← two_executions crc32cSarwate demo_crc (recover_ops 44) (recover_ops 45) s;
                  '(ok, pr) ← ibuf_correct demo_crc (s_mem s4) (s_ibuf s4) (s_proc s4); Ret ok) = Ret true) by (vm_compute; reflexivity).
  apply bind_Ret in Hrun as (s & E & Hrun). apply bind_Ret in Hrun as (s4 & E4 & Hrun). apply bind_Ret in Hrun as ([ok pr] & Ein & _).
  destruct (sei_init_idle (∅ : mem) demo_env_heap ([] : list Z) demo_proc) as (s0 & E0 & Hidle & Hlv & Hm0);
    [unfold SEI_DMR_MAX_REDUNDANCY; cbn; lia|].
  rewrite E in E0. injection E0 as <-.
  destruct (try_commit_exact (H:=B) crc32cSarwate demo_crc (recover_ops 44) (recover_ops 45) s s4 ok pr (eq_refl 2%nat) Hidle Hlv (recover_ops_disjoint 44) E4 Ein)
    as (v & cf & pr' & Ev & Hv).
  exists s, s4, cf, pr'. split; [exact E|]. split; [exact E4|]. destruct v; [|exact Ev]. exfalso.
  destruct (proj1 Hv eq_refl) as (_ & _ & Hr & _). specialize (Hr 201). rewrite Hm0 in Hr. vm_compute in Hr. discriminate Hr.
Defined.

Lemma recovery_transaction_sound_witness :
  let _ := debug_build 2 in
  exists (s s' : sei libc (list Z)), sei_init ∅ demo_env_heap [] demo_proc = Ret s /\
    recovery_transaction crc32cSarwate demo_crc demo_call false (recover_ops 44) (recover_ops 44) s = Ret (true, s') /\
    s_mem s' ≈ replay (writes (recover_ops 44)) (s_mem s) /\ load 4 (s_mem s') 100 = 7 /\ s_world s' = [5].
Proof.
  intros B.
  assert (Hrun : (s ← sei_init ∅ demo_env_heap ([] : list Z) demo_proc;
                  '(v, s') ← recovery_transaction crc32cSarwate demo_crc demo_call false (recover_ops 44) (recover_ops 44) s;
                  Ret (v, load 4 (s_mem s') 100, s_world s')) = Ret (true, 7, [5])) by (vm_compute; reflexivity).
  apply bind_Ret in Hrun as (s & E & Hrun). apply bind_Ret in Hrun as ([v s'] & E' & Hv). injection Hv as -> Hv1 Hv2.
  destruct (sei_init_idle (∅ : mem) demo_env_heap ([] : list Z) demo_proc) as (s0 & E0 & Hidle & Hlv & Hm0);
    [unfold SEI_DMR_MAX_REDUNDANCY; cbn; lia|].
  rewrite E in E0. injection E0 as <-.
  destruct (recovery_transaction_sound (H:=B) crc32cSarwate demo_crc demo_call false (recover_ops 44) (recover_ops 44) s s' true (eq_refl 2%nat) Hidle Hlv
    (recover_ops_disjoint 44) E') as (Hm & _).
  exists s, s'. split; [exact E|]. split; [exact E'|]. split; [exact Hm|]. split; [exact Hv1|exact Hv2].
Defined.
