(* ===== verification/SeiReach.v ===== *)
(** * The states of the driver

    The order in which the control loop of tmi.c calls the driver, as a step
    relation: between transactions ([Idle]), inside an execution of the handler
    ([Running]) and after the check of the recovery build ([Checked]).  The theorem
    is the invariant of all states that can be reached, whatever the handler does,
    however often it is rolled back, and with any level of redundancy per
    transaction. *)

From S2P Require Export SeiNway SeiRecover.

Inductive mode := Idle | Running | Checked (ok : bool).

Section Reach.
Context `{Build} {S W : Type} `{AllocatorLaws S}.
Context (crc32c : Z -> Z -> list Z -> Z).
Context (crc_run : Z -> nat -> Z -> list Z -> Z) (SEI_CRC_REDUNDANCY : nat).
Context (setaffinity : Z -> Z -> Z * Z).
Context (call : Z -> list Z -> W -> W).
Context (isolation : option bool).
Implicit Types (s : sei S W) (cow : list abuf).

Inductive reach : mode -> sei S W -> Prop :=
  | reach_init m al w pr s : sei_init m al w pr = Ret s -> reach Idle s
  | reach_set_redundancy s n s' : reach Idle s -> (2 <= n <= SEI_DMR_REDUNDANCY)%nat ->
      sei_set_redundancy s n = Ret s' -> reach Idle s'
  | reach_set_core_migration s b s' : reach Idle s -> sei_set_core_migration s b = Ret s' -> reach Idle s'
  | reach_prepare fuel s ptr size crc ro ok s' : reach Idle s ->
      sei_prepare crc_run SEI_CRC_REDUNDANCY setaffinity isolation fuel s ptr size crc ro = Some (Ret (ok, s')) -> reach Idle s'
  | reach_prepare_nm fuel s s' : reach Idle s ->
      sei_prepare_nm crc_run SEI_CRC_REDUNDANCY setaffinity isolation fuel s = Some (Ret s') -> reach Idle s'
  | reach_output_next s crc s' : reach Idle s -> sei_output_next s = Ret (crc, s') -> reach Idle s'
  | reach_shift s handle h s' : reach Idle s -> sei_shift s handle = Ret (h, s') -> reach Idle s'
  | reach_begin s s' : reach Idle s -> sei_begin s = Ret s' -> reach Running s'
  | reach_op s o s' : reach Running s -> exec_op crc32c o s = Ret s' -> reach Running s'
  | reach_switch s s' : reach Running s -> s_p s + 1 < Z.of_nat (s_redundancy_level s) ->
      sei_switch crc_run s = Ret s' -> reach Running s'
  | reach_commit s s' : reach Running s -> isolation = None -> s_p s + 1 = Z.of_nat (s_redundancy_level s) ->
      sei_commit crc_run call isolation s = Ret s' -> reach Idle s'
  | reach_try_commit s ok s' : reach Running s -> isolation <> None -> s_p s + 1 = Z.of_nat (s_redundancy_level s) ->
      sei_try_commit crc_run s = Ret (ok, s') -> reach (Checked ok) s'
  | reach_accept s s' : reach (Checked true) s -> isolation <> None -> sei_commit crc_run call isolation s = Ret s' -> reach Idle s'
  | reach_reject s s' : reach (Checked false) s -> sei_rollback s = Ret s' -> reach Running s'
  | reach_segv s s' : reach Running s -> isolation <> None -> sei_rollback s = Ret s' -> reach Running s'.

(** ** What a state promises *)

(** Phase [q] has left nothing behind. *)
Definition quiet s (q : nat) : Prop :=
  (exists a, s_cow s !! q = Some a /\ log_rel a [] /\ poped a = 0%nat) /\ freed (s_tbin s) q = [] /\ count (s_talloc s) q = 0%nat.

(** Phase [q] has a complete log. *)
Definition logged s (q : nat) : Prop := exists a l, s_cow s !! q = Some a /\ log_rel a l /\ poped a = 0%nat.

(** Phase [q] has not started: it has nothing, and no delayed call either, except in a
    build with rollbacks, where [wts_reset] keeps the calls of the phases from 2 on. *)
Definition not_begun s (q : nat) : Prop :=
  quiet s q /\ (isolation = None \/ (q < 2)%nat -> queued (s_wts s) q = []).

Definition idle_inv s : Prop := sei_wf s /\ s_p s = -1 /\ ta_p (s_talloc s) = 0%nat /\
  forall q, (q < SEI_DMR_REDUNDANCY)%nat -> quiet s q /\ queued (s_wts s) q = [].

Definition running_inv s : Prop := exists s0 p ops, phase_state s0 p ops s /\
  (forall q, (q < p)%nat -> logged s0 q) /\ (forall q, (p < q < SEI_DMR_REDUNDANCY)%nat -> not_begun s0 q).

Definition checked_inv s : Prop := sei_wf s /\ s_p s + 1 = Z.of_nat (s_redundancy_level s) /\
  (forall q, (q < s_redundancy_level s)%nat -> exists a, s_cow s !! q = Some a /\ buf_ok a) /\
  forall q, (s_redundancy_level s <= q < SEI_DMR_REDUNDANCY)%nat -> quiet s q.

Definition state_inv (md : mode) s : Prop :=
  match md with Idle => idle_inv s | Running => running_inv s | Checked _ => isolation <> None /\ checked_inv s end.

Lemma idle_inv_idle s : idle_inv s -> idle s.
Proof.
  intros (Hwf & Hp & Htp & Hq). pose proof (sw_level _ Hwf). split; try done.
  - intros i Hi. apply Hq. lia.
  - intros q Hq'. apply Hq. lia.
  - intros q Hq'. by apply Hq.
  - intros q Hq'. apply Hq. lia.
Qed.

(** Only the parts named in the invariant matter. *)
Lemma quiet_ext s s' q : s_cow s' !! q = s_cow s !! q -> freed (s_tbin s') q = freed (s_tbin s) q -> count (s_talloc s') q = count (s_talloc s) q ->
  quiet s q -> quiet s' q.
Proof. unfold quiet. by intros -> -> ->. Qed.

Lemma idle_inv_ext s s' : idle_inv s -> s_p s' = s_p s -> s_redundancy_level s' = s_redundancy_level s -> s_cow s' = s_cow s -> s_cf s' = s_cf s ->
  s_tbin s' = s_tbin s -> s_talloc s' = s_talloc s -> s_wts s' = s_wts s -> idle_inv s'.
Proof.
  intros ([] & Hp & Htp & Hq) Ep El Ec Ecf Eb Et Ew. split_and!; [split; rewrite ?El, ?Ec, ?Ecf, ?Eb, ?Et, ?Ew; done|congruence|congruence|].
  intros q Hlt. destruct (Hq q Hlt) as [Hquiet Hqu]. split; [|by rewrite Ew]. eapply quiet_ext; [..|exact Hquiet]; congruence.
Qed.

(** The state inside an execution, seen from the current state. *)
Lemma running_inv_view s : running_inv s -> sei_wf s /\ exists p, s_p s = Z.of_nat p /\ (p < s_redundancy_level s)%nat /\ ta_p (s_talloc s) = p /\
  (forall q, (q <= p)%nat -> logged s q) /\ (forall q, (p < q < SEI_DMR_REDUNDANCY)%nat -> not_begun s q).
Proof.
  intros (s0 & p & ops & Hps & Hpast & Hfut). split; [apply (ps_wf _ _ _ _ Hps)|]. exists p. pose proof (ps_pb _ _ _ _ Hps) as Hpb.
  rewrite (ps_level _ _ _ _ Hps). destruct (ps_log _ _ _ _ Hps) as (a & Hcow & Hpo & Hrel). pose proof (ps_wf _ _ _ _ Hps) as Hwf.
  pose proof (sw_cow _ Hwf) as Hlc. pose proof (sw_level _ Hwf) as Hlv. pose proof (sw_dmr _ Hwf). rewrite (ps_level _ _ _ _ Hps) in Hlv. rewrite Hcow, length_insert in Hlc.
  split_and!; [apply (ps_p _ _ _ _ Hps)|done|apply (ps_tp _ _ _ _ Hps)| |].
  - intros q Hq. destruct (decide (q = p)) as [->|Hne].
    + exists a, (undo_log (writes ops) (s_mem s0)). rewrite Hcow, list_lookup_insert_eq by lia. done.
    + destruct (Hpast q ltac:(lia)) as (b & l & Hb & ?). exists b, l. rewrite Hcow, list_lookup_insert_ne by done. done.
  - intros q Hq. destruct (Hfut q Hq) as [Hquiet Hqu]. split; [|by rewrite (ps_queued _ _ _ _ Hps), decide_False by lia].
    eapply quiet_ext; [..|exact Hquiet].
    + rewrite Hcow, list_lookup_insert_ne by lia. done.
    + by rewrite (ps_freed _ _ _ _ Hps), decide_False by lia.
    + by rewrite (ps_count _ _ _ _ Hps), decide_False by lia.
Qed.

(** ** Between transactions *)

Lemma init_inv m al w pr s : (2 <= SEI_DMR_REDUNDANCY <= SEI_DMR_MAX_REDUNDANCY)%nat -> sei_init m al w pr = Ret s -> idle_inv s.
Proof.
  intros Hd E. destruct (sei_init_idle m al w pr Hd) as (s1 & E1 & Hid & Hlv & _). rewrite E in E1. injection E1 as <-.
  destruct Hid as [Hwf Hp Htp Hcow Hfr Hqu Hcnt]. rewrite Hlv in *. split_and!; [done|done|done|]. intros q Hq. unfold quiet. split_and!; auto.
Qed.

Lemma set_redundancy_inv s n s' : idle_inv s -> (2 <= n <= SEI_DMR_REDUNDANCY)%nat -> sei_set_redundancy s n = Ret s' -> idle_inv s'.
Proof.
  intros (Hwf & Hp & Htp & Hq) Hn E. unfold sei_set_redundancy in E. apply bind_Ret in E as (? & _ & E). apply bind_Ret in E as (? & _ & E).
  apply bind_Ret in E as (o & _ & E). apply cur_obuf_frame in E as [os ->]. split_and!; cbn; [|done|done|].
  - destruct Hwf as [W1 W2 W3 W4 [W5 _] [W6 _] W7]. split; try done; cbn; (split; [|done]).
    + destruct W5. split; cbn; try done. lia.
    + destruct W6. split; cbn; try done. rewrite Htp. lia.
  - intros q Hlt. destruct (Hq q Hlt) as [Hquiet ?]. split; [|done]. exact Hquiet.
Qed.

Lemma prepare_inv fuel s ptr size crc ro ok s' : idle_inv s ->
  sei_prepare crc_run SEI_CRC_REDUNDANCY setaffinity isolation fuel s ptr size crc ro = Some (Ret (ok, s')) -> idle_inv s'.
Proof.
  intros Hi E. unfold sei_prepare in E. destruct (_;; _); [|done]. apply fmap_Some in E as (o & _ & E). symmetry in E.
  apply bind_Ret in E as ([[ok1 b] pr] & _ & [= _ <-]). by eapply idle_inv_ext.
Qed.

Lemma prepare_nm_inv fuel s s' : idle_inv s ->
  sei_prepare_nm crc_run SEI_CRC_REDUNDANCY setaffinity isolation fuel s = Some (Ret s') -> idle_inv s'.
Proof.
  intros Hi E. unfold sei_prepare_nm in E. apply fmap_Some in E as (o & _ & E). symmetry in E.
  apply bind_Ret in E as ([[ok1 b] pr] & _ & [= <-]). by eapply idle_inv_ext.
Qed.

Lemma output_next_inv s crc s' : idle_inv s -> sei_output_next s = Ret (crc, s') -> idle_inv s'.
Proof.
  intros Hi E. unfold sei_output_next in E. apply bind_Ret in E as (? & _ & E). apply bind_Ret in E as (o & _ & E).
  apply bind_Ret in E as (? & _ & E). apply bind_Ret in E as ([c o'] & _ & E). apply bind_Ret in E as (s1 & Eo & [= _ <-]).
  apply cur_obuf_frame in Eo as [os ->]. by eapply idle_inv_ext.
Qed.

Lemma shift_inv s handle h s' : idle_inv s -> sei_shift s handle = Ret (h, s') -> idle_inv s'.
Proof.
  intros Hi E. unfold sei_shift in E. destruct handle as [k|].
  - apply bind_Ret in E as (o & _ & [= _ <-]). by eapply idle_inv_ext.
  - destruct (negb _); apply bind_Ret in E as ([k st] & _ & [= _ <-]); by eapply idle_inv_ext.
Qed.

(** ** Inside a transaction *)

Lemma begin_inv s s' : idle_inv s -> sei_begin s = Ret s' -> running_inv s'.
Proof.
  intros Hi E. destruct (sei_begin_idle s (idle_inv_idle s Hi)) as (cf & E1 & _ & _ & Hps). rewrite E in E1. injection E1 as ->.
  exists (with_cf (with_p s 0) cf), 0%nat, []. split_and!; [done|lia|]. intros q Hq. destruct Hi as (_ & _ & _ & Hi). destruct (Hi q ltac:(lia)) as [Hquiet Hqu]. split; [exact Hquiet|by intros _].
Qed.

Lemma op_inv s o s' : running_inv s -> exec_op crc32c o s = Ret s' -> running_inv s'.
Proof.
  intros (s0 & p & ops & Hps & Hr) E. exists s0, p, (ops ++ [o]). split; [|done]. by eapply phase_state_op.
Qed.

(** A state whose phases before [p] have logs and from [p] on nothing. *)
Lemma running_start s p : sei_wf s -> s_p s = Z.of_nat p -> (p < s_redundancy_level s)%nat -> ta_p (s_talloc s) = p ->
  (forall q, (q < p)%nat -> logged s q) -> (forall q, (p <= q < SEI_DMR_REDUNDANCY)%nat -> not_begun s q) -> running_inv s.
Proof.
  intros Hwf Hp Hlt Htp Hpast Hfut. pose proof (sw_level _ Hwf). destruct (Hfut p ltac:(lia)) as [((a & Ha & Hr & Hpo) & _) _].
  exists s, p, []. split_and!; [by eapply phase_state_start|done|]. intros q Hq. apply Hfut. lia.
Qed.

Lemma switch_inv s s' : running_inv s -> s_p s + 1 < Z.of_nat (s_redundancy_level s) -> sei_switch crc_run s = Ret s' -> running_inv s'.
Proof.
  intros (s0 & p & ops & Hps & Hpast & Hfut) Hlt E. rewrite (ps_p _ _ _ _ Hps), (ps_level _ _ _ _ Hps) in Hlt.
  destruct (sei_switch_inv crc_run _ _ _ _ _ Hps ltac:(lia) E) as (Hwf & Hp & Hlv & Htp & Hts & Htb & Hwt & _ & _ & _ & a & Hcow & Hlog & Hpo).
  pose proof (sw_cow _ Hwf) as Hlc. pose proof (sw_dmr _ Hwf). pose proof (sw_level _ Hwf). rewrite Hcow, length_insert in Hlc.
  apply (running_start s' (p + 1)); try done; [lia| |].
  - intros q Hq. destruct (decide (q = p)) as [->|Hne].
    + exists a, (norm <$> writes ops). rewrite Hcow, list_lookup_insert_eq by lia. done.
    + destruct (Hpast q ltac:(lia)) as (b & l & ? & ?). exists b, l. by rewrite Hcow, list_lookup_insert_ne by done.
  - intros q Hq. destruct (Hfut q ltac:(lia)) as [Hquiet Hqu]. split; [|by rewrite Hwt, (ps_queued _ _ _ _ Hps), decide_False by lia].
    eapply quiet_ext; [..|exact Hquiet].
    + by rewrite Hcow, list_lookup_insert_ne by lia.
    + by rewrite Htb, (ps_freed _ _ _ _ Hps), decide_False by lia.
    + unfold count. rewrite Hts. fold (count (s_talloc s) q). by rewrite (ps_count _ _ _ _ Hps), decide_False by lia.
Qed.

(** ** Phases above the level are not touched *)

(** The logs keep their entries; those from [level] on stay as they are. *)
Definition repointed (level : nat) cow cow' : Prop := length cow' = length cow /\ forall i a', cow' !! i = Some a' ->
  exists a, cow !! i = Some a /\ buf a' = buf a /\ max_size a' = max_size a /\ ((level <= i)%nat -> a' = a).

Lemma repointed_refl level cow : repointed level cow cow.
Proof. split; [done|]. intros i a Ha. by exists a. Qed.

Lemma repointed_trans level cow1 cow2 cow3 : repointed level cow1 cow2 -> repointed level cow2 cow3 -> repointed level cow1 cow3.
Proof.
  intros [Hl1 R1] [Hl2 R2]. split; [congruence|]. intros i a3 Ha3. destruct (R2 i a3 Ha3) as (a2 & Ha2 & ? & ? & E2). destruct (R1 i a2 Ha2) as (a1 & Ha1 & ? & ? & E1).
  exists a1. split_and!; [done|congruence|congruence|]. intros Hi. by rewrite E2, E1.
Qed.

Lemma repointed_insert level cow i a a' : cow !! i = Some a -> buf a' = buf a -> max_size a' = max_size a -> (i < level)%nat -> repointed level cow (<[i := a']> cow).
Proof.
  intros Ha Hb Hm Hi. split; [by rewrite length_insert|]. intros j b [[-> [<- _]]|[_ Hj]]%list_lookup_insert_Some.
  - exists a. split_and!; try done. lia.
  - by exists b.
Qed.

Lemma repointed_above level cow cow' q : repointed level cow cow' -> (level <= q)%nat -> cow' !! q = cow !! q.
Proof.
  intros [Hl R] Hq. destruct (cow' !! q) as [a'|] eqn:E.
  - destruct (R q a' E) as (a & -> & _ & _ & Ha). by rewrite Ha.
  - symmetry. apply lookup_ge_None. apply lookup_ge_None in E. lia.
Qed.

Lemma repointed_buf_ok level cow cow' : repointed level cow cow' -> (forall q, (q < level)%nat -> exists a, cow !! q = Some a /\ buf_ok a) ->
  forall i a, (i < level)%nat -> cow' !! i = Some a -> buf_ok a.
Proof.
  intros [_ R] Hok i a Hi Ha. destruct (R i a Ha) as (b & Hb & E1 & E2 & _). destruct (Hok i Hi) as (b' & Hb' & Hbo). rewrite Hb in Hb'. injection Hb' as <-.
  unfold buf_ok in *. by rewrite E1, E2.
Qed.

(** A loop over the first [n] logs that only changes their read positions. *)
Lemma for_range_repointed level n f cow cow' : (n <= level)%nat -> (forall a, buf (f a) = buf a /\ max_size (f a) = max_size a) ->
  for_range n 0 (fun i cow => a ← arr_get cow i; arr_set cow i (f a)) cow = Ret cow' -> repointed level cow cow'.
Proof.
  intros Hn Hf E. refine (for_range_invariant (fun _ l => repointed level cow l) n 0 _ cow cow' (repointed_refl _ _) _ E).
  intros i l l' Hi Hr Eb. inv_outcome. eapply repointed_trans; [exact Hr|]. destruct (Hf r) as [? ?]. eapply repointed_insert; [done|done|done|lia].
Qed.

Lemma clean_cows_above level cow cow' q : clean_cows level cow = Ret cow' -> (level <= q)%nat -> cow' !! q = cow !! q.
Proof.
  intros E Hq. refine (for_range_invariant (fun _ l => l !! q = cow !! q) level 0 _ cow cow' eq_refl _ E).
  intros i l l' Hi Hr Eb. inv_outcome. by rewrite list_lookup_insert_ne by lia.
Qed.

Lemma compare_repointed m cow level cow' : (2 <= level)%nat -> (forall q, (q < level)%nat -> exists a l, cow !! q = Some a /\ log_rel a l /\ poped a = 0%nat) ->
  compare_cows m cow level = Ret cow' -> repointed level cow cow'.
Proof.
  intros Hlv Hlog E. unfold compare_cows in E. destruct (Nat.eqb_spec level 2) as [->|Hne].
  - destruct (Hlog 0%nat ltac:(lia)) as (a0 & l0 & Ha0 & Hr0 & Hp0). destruct (Hlog 1%nat ltac:(lia)) as (a1 & l1 & Ha1 & Hr1 & Hp1).
    rewrite (proj2 (arr_get_Ret _ _ _) Ha0), bind_Ret_l, (proj2 (arr_get_Ret _ _ _) Ha1), bind_Ret_l in E. apply bind_Ret in E as ([b0 b1] & Ec & E).
    assert (Hlen : (pushed a0 <= length (buf a0))%nat) by (destruct Hr0 as [[] _]; lia).
    pose proof (abuf_cmp_heap_inv _ _ _ _ Hp0 Hp1 Hlen Ec) as (_ & _ & [= -> ->] & _). inv_outcome.
    apply (repointed_trans _ _ (<[0%nat := set_poped (pushed a0) a0]> cow)); [by apply (repointed_insert 2 cow 0 a0); (done || lia)|].
    apply (repointed_insert 2 _ 1 a1); [by rewrite list_lookup_insert_ne|done|done|lia].
  - unfold abuf_cmp_heap_nway in E. apply bind_Ret in E as (u & _ & E). apply bind_Ret in E as (b0 & _ & E). apply bind_Ret in E as (u1 & _ & E).
    apply bind_Ret in E as (u2 & _ & E). apply bind_Ret in E as (conf & _ & E). apply bind_Ret in E as (bs1 & Ebs & E). apply bind_Ret in E as (u3 & _ & [= <-]).
    by eapply (for_range_repointed level level (set_poped (pushed b0))).
Qed.

Lemma freed_nil (t : tbin) q : tbin_wf t -> (q < SEI_DMR_REDUNDANCY)%nat -> freed t q = [] -> nth q (tb_nitems t) 0%nat = 0%nat.
Proof. intros Hwf Hq Hf. rewrite <- (freed_length t q) by done. by rewrite Hf. Qed.

Lemma reset_nitems_above t nitems items q : tbin_wf t -> reset_nitems (tb_redundancy_level t) (tb_nitems t) = Ret nitems ->
  (tb_redundancy_level t <= q < SEI_DMR_REDUNDANCY)%nat -> freed t q = [] -> freed (mk_tbin (tb_max_items t) (tb_redundancy_level t) nitems items) q = [].
Proof.
  intros Hwf E Hq Hf. pose proof (tbwf_level t Hwf). destruct (reset_nitems_ok (tb_redundancy_level t) (tb_nitems t)) as (l & E' & _ & _ & Hr).
  { rewrite (tbwf_nitems t Hwf). lia. }
  rewrite E in E'. injection E' as ->. unfold freed. cbn. rewrite nth_lookup, Hr, <- nth_lookup, freed_nil by (done || lia). done.
Qed.

Lemma reset_counts_above (t : talloc) sizes allocs q : talloc_wf t -> reset_counts (ta_redundancy_level t) (ta_size t) = Ret sizes ->
  (ta_redundancy_level t <= q)%nat -> count (mk_talloc 0 (ta_redundancy_level t) allocs sizes) q = count t q.
Proof.
  intros Hwf E Hq. pose proof (twf_level t Hwf). destruct (reset_counts_spec (ta_redundancy_level t) (ta_size t)) as (l & E' & _ & _ & Hr).
  { rewrite (twf_len t Hwf). lia. }
  rewrite E in E'. injection E' as <-. unfold count. cbn. by rewrite !nth_lookup, Hr.
Qed.

Lemma tbin_flush_above t (al : S) t' al' q : tbin_wf t -> tbin_flush t al = Ret (t', al') -> (tb_redundancy_level t <= q < SEI_DMR_REDUNDANCY)%nat ->
  freed t q = [] -> freed t' q = [].
Proof.
  intros Hwf E Hq Hf. unfold tbin_flush in E. apply bind_Ret in E as (n & _ & E). apply bind_Ret in E as (u & _ & E).
  apply bind_Ret in E as ([items s'] & _ & E). apply bind_Ret in E as (nitems & En & [= <- _]). by apply reset_nitems_above.
Qed.

Lemma talloc_clean_above t t' q : talloc_wf t -> talloc_clean t = Ret t' -> (ta_redundancy_level t <= q)%nat -> count t' q = count t q.
Proof.
  intros Hwf E Hq. unfold talloc_clean in E. apply bind_Ret in E as (u & _ & E). apply bind_Ret in E as (n & _ & E).
  apply bind_Ret in E as (u1 & _ & E). apply bind_Ret in E as (sizes & Es & [= <-]). by apply reset_counts_above.
Qed.

Lemma commit_rest_above iso s s' : sei_wf s -> commit_rest crc_run call iso s = Ret s' ->
  s_redundancy_level s' = s_redundancy_level s /\ forall q, (s_redundancy_level s <= q < SEI_DMR_REDUNDANCY)%nat -> quiet s q -> quiet s' q.
Proof.
  intros Hwf E. destruct (sw_tbin _ Hwf) as [Hwb Hbl]. destruct (sw_talloc _ Hwf) as [Hwt Htl]. apply bind_Ret in E as (cow & Ecl & E).
  unfold commit_flush in E. apply bind_Ret in E as ([wt world] & _ & E). apply bind_Ret in E as ([tb al] & Etb & E).
  cbn [with_wts with_world with_cow s_tbin s_alloc] in Etb. apply bind_Ret in E as (t & Et & E). cbn [with_wts with_world with_tbin with_alloc with_cow s_talloc] in Et.
  apply bind_Ret in E as (o & _ & E). apply bind_Ret in E as (s2 & Eo & E). apply cur_obuf_frame in Eo as [os ->].
  apply bind_Ret in E as (u1 & _ & E). apply bind_Ret in E as ([ok' pr] & _ & E). apply bind_Ret in E as (u2 & _ & [= <-]). split; [done|].
  intros q Hq ((a & Ha & Hr) & Hf & Hc). split_and!; cbn.
  - exists a. by rewrite (clean_cows_above _ _ _ _ Ecl) by lia.
  - eapply tbin_flush_above; [exact Hwb|exact Etb|lia|done].
  - by rewrite (talloc_clean_above _ _ _ Hwt Et) by lia.
Qed.

(** ** Commit *)

(** The end of a commit, when the logs have been compared. *)
Lemma commit_rest_idle iso s s' : sei_wf s -> s_p s = -1 ->
  (forall i a, (i < s_redundancy_level s)%nat -> s_cow s !! i = Some a -> buf_ok a) ->
  (forall q, (s_redundancy_level s <= q < SEI_DMR_REDUNDANCY)%nat -> quiet s q) -> commit_rest crc_run call iso s = Ret s' -> idle_inv s'.
Proof.
  intros Hwf Hp Hbok Hquiet E. destruct (commit_rest_inv crc_run call iso s s' Hwf Hp Hbok E) as (_ & _ & _ & _ & _ & _ & _ & _ & [Hwf' Hp' Htp Hcow Hfr Hqu Hcnt]).
  destruct (commit_rest_above iso s s' Hwf E) as [Hlv Habove]. rewrite Hlv in *. split_and!; try done. intros q Hq. split; [|by apply Hqu].
  destruct (decide (q < s_redundancy_level s)%nat) as [Hlt|Hge]; [|apply Habove; [lia|apply Hquiet; lia]]. unfold quiet. split_and!; auto.
Qed.

Lemma commit_inv s s' : running_inv s -> isolation = None -> s_p s + 1 = Z.of_nat (s_redundancy_level s) ->
  sei_commit crc_run call isolation s = Ret s' -> idle_inv s'.
Proof.
  intros Hrun Hiso Hp E. rewrite Hiso in E. destruct (running_inv_view s Hrun) as (Hwf & p & Hp' & Hlt & _ & Hlog & Hquiet).
  unfold sei_commit in E. apply bind_Ret in E as (s1 & E1 & E). apply bind_Ret in E1 as ([ok cf] & Ecf & E1).
  apply bind_Ret in E1 as (u & _ & E1). apply bind_Ret in E1 as (cow & Ecow & [= <-]).
  cbn [with_p s_cf] in Ecf. apply cf_gates_length in Ecf. cbn [with_p s_mem s_cow] in Ecow. pose proof (sw_level _ Hwf) as Hlv.
  assert (Hlogs : forall q, (q < s_redundancy_level s)%nat -> exists a l, s_cow s !! q = Some a /\ log_rel a l /\ poped a = 0%nat) by (intros q Hq; apply Hlog; lia).
  pose proof (compare_repointed (s_mem s) (s_cow s) (s_redundancy_level s) cow (proj1 Hlv) Hlogs Ecow) as Hrep.
  eapply (commit_rest_idle None (with_cow (with_cf (with_p s (-1)) cf) cow)); [|done| | |exact E]; cbn.
  - destruct Hwf. destruct Hrep. split; cbn; congruence.
  - apply (repointed_buf_ok _ _ _ Hrep). intros q Hq. destruct (Hlogs q Hq) as (a & l & Ha & Hr & _). exists a. split; [done|by eapply log_rel_buf_ok].
  - intros q Hq. destruct (Hquiet q ltac:(lia)) as (((a & Ha & ?) & ? & ?) & _). split_and!; try done. exists a. by rewrite (repointed_above _ _ _ _ Hrep) by lia.
Qed.

Lemma accept_inv s s' : checked_inv s -> isolation <> None -> sei_commit crc_run call isolation s = Ret s' -> idle_inv s'.
Proof.
  intros (Hwf & Hp & Hbok & Hquiet) Hiso E. destruct isolation as [iso|]; [|done]. unfold sei_commit in E. rewrite bind_Ret_l in E.
  eapply (commit_rest_idle (Some iso) (with_p s (-1))); [|done| | |exact E]; cbn.
  - by destruct Hwf.
  - intros i a Hi Ha. destruct (Hbok i Hi) as (b & Hb & ?). rewrite Ha in Hb. by injection Hb as <-.
  - intros q Hq. destruct (Hquiet q Hq) as (? & ? & ?). by split_and!.
Qed.

(** ** The check of the recovery build *)

Definition same_buf (a b : abuf) : Prop := buf b = buf a /\ max_size b = max_size a.

Lemma try_loop_same n m : forall a1 a2 conf r b1 b2, try_cmp_heap_loop n m a1 a2 conf = Ret (r, b1, b2) -> same_buf a1 b1 /\ same_buf a2 b2.
Proof.
  induction n as [|n IH]; intros a1 a2 conf r b1 b2 E; cbn [try_cmp_heap_loop] in E; [by injection E as _ <- <-|].
  apply bind_Ret in E as (e1 & _ & E). apply bind_Ret in E as (e2 & _ & E). destruct (negb (e_size e1 =? e_size e2)); [by injection E as _ <- <-|].
  destruct (negb (e_addr e1 =? e_addr e2)); [by injection E as _ <- <-|]. destruct (entry_conflict m e1) as [[]|]; [|by apply IH in E|by injection E as _ <- <-].
  destruct (_ <=? _)%nat; [by injection E as _ <- <-|by apply IH in E].
Qed.

Lemma try_cmp_same m a1 a2 v b1 b2 : abuf_try_cmp_heap m a1 a2 = Ret (v, b1, b2) -> same_buf a1 b1 /\ same_buf a2 b2.
Proof.
  intros E. unfold abuf_try_cmp_heap in E. apply bind_Ret in E as (u & _ & E). cbv zeta in E. destruct (negb _); [by injection E as _ <- <-|].
  destruct (negb _); [by injection E as _ <- <-|]. destruct (negb _); [by injection E as _ <- <-|].
  apply bind_Ret in E as ([[conf c1] c2] & El & E). apply try_loop_same in El as [Hs1 Hs2].
  destruct conf as [[|i conf]|]; [by injection E as _ <- <-| |by injection E as _ <- <-]. apply bind_Ret in E as (ok & _ & E). by injection E as _ <- <-.
Qed.

Lemma try_compare_repointed m cow level v cow' : (2 <= level)%nat -> try_compare_cows m cow level = Ret (v, cow') -> repointed level cow cow'.
Proof.
  intros Hlv E. unfold try_compare_cows in E. destruct (Nat.eqb_spec level 2) as [->|Hne].
  - apply bind_Ret in E as (a0 & Ha0 & E). apply bind_Ret in E as (a1 & Ha1 & E). apply arr_get_Ret in Ha0, Ha1. apply bind_Ret in E as ([[v' b0] b1] & Ec & E).
    apply try_cmp_same in Ec as [[? ?] [? ?]]. apply bind_Ret in E as (c1 & E1 & E). apply bind_Ret in E as (c2 & E2 & [= _ <-]).
    apply arr_set_Ret in E1 as [_ ->]. apply arr_set_Ret in E2 as [_ ->].
    apply (repointed_trans _ _ (<[0%nat := b0]> cow)); [by apply (repointed_insert 2 cow 0 a0); (done || lia)|].
    apply (repointed_insert 2 _ 1 a1); [by rewrite list_lookup_insert_ne|done|done|lia].
  - apply bind_Ret in E as (v' & _ & [= _ <-]). apply repointed_refl.
Qed.

Lemma try_commit_frame s ok s' : (2 <= s_redundancy_level s)%nat -> sei_try_commit crc_run s = Ret (ok, s') ->
  exists cow cf pr, s' = with_proc (with_cf (with_cow s cow) cf) pr /\ repointed (s_redundancy_level s) (s_cow s) cow /\ length cf = length (s_cf s).
Proof.
  intros Hlv E. unfold sei_try_commit in E. apply bind_Ret in E as (u & _ & E). apply bind_Ret in E as (cow1 & Er & E). apply bind_Ret in E as ([v cow] & Ec & E).
  assert (Hr : repointed (s_redundancy_level s) (s_cow s) cow).
  { eapply repointed_trans; [eapply (for_range_repointed _ (s_redundancy_level s) abuf_rewind); [lia|done|exact Er]|by eapply try_compare_repointed]. }
  destruct v; cbn [negb] in E; [|injection E as _ <-; exists cow, (s_cf s), (s_proc s); by destruct s].
  apply bind_Ret in E as ([okc cf] & Ecf & E). apply cf_gates_length in Ecf. cbn [with_cow s_cf] in Ecf.
  destruct okc; cbn [negb] in E; [|injection E as _ <-; exists cow, cf, (s_proc s); by destruct s].
  apply bind_Ret in E as ([oki pr] & _ & E). destruct oki; cbn [negb] in E; [|injection E as _ <-; by exists cow, cf, pr].
  apply bind_Ret in E as (okw & _ & E). destruct okw; cbn [negb] in E; [|injection E as _ <-; by exists cow, cf, pr].
  apply bind_Ret in E as (okt & _ & E). destruct okt; cbn [negb] in E; injection E as _ <-; by exists cow, cf, pr.
Qed.

Lemma try_commit_inv s ok s' : running_inv s -> s_p s + 1 = Z.of_nat (s_redundancy_level s) -> sei_try_commit crc_run s = Ret (ok, s') -> checked_inv s'.
Proof.
  intros Hrun Hp E. destruct (running_inv_view s Hrun) as (Hwf & p & Hp' & Hlt & _ & Hlog & Hquiet). pose proof (sw_level _ Hwf) as Hlv.
  destruct (try_commit_frame s ok s' (proj1 Hlv) E) as (cow & cf & pr & -> & Hrep & Hcf). split_and!; cbn; [|done| |].
  - destruct Hwf. destruct Hrep. split; cbn; congruence.
  - intros q Hq. destruct (Hlog q ltac:(lia)) as (b & l & Hb & Hr & _). pose proof (lookup_lt_Some _ _ _ Hb) as Hl. rewrite <- (proj1 Hrep) in Hl.
    destruct (lookup_lt_is_Some_2 _ _ Hl) as [a Ha]. exists a. split; [done|]. destruct (proj2 Hrep q a Ha) as (b' & Hb' & E1 & E2 & _).
    rewrite Hb in Hb'. injection Hb' as <-. destruct (log_rel_buf_ok _ _ Hr). unfold buf_ok. by rewrite E1, E2.
  - intros q Hq. destruct (Hquiet q ltac:(lia)) as (((a & Ha & ?) & ? & ?) & _). split_and!; try done. exists a. cbn. by rewrite (repointed_above _ _ _ _ Hrep) by lia.
Qed.

(** ** Rollback *)

Lemma talloc_rollback_Ret t (al : S) t' al' : talloc_wf t -> talloc_rollback t al = Ret (t', al') ->
  talloc_wf t' /\ ta_p t' = 0%nat /\ ta_redundancy_level t' = ta_redundancy_level t /\ (forall q, (q < ta_redundancy_level t)%nat -> count t' q = 0%nat) /\
  forall q, (ta_redundancy_level t <= q)%nat -> count t' q = count t q.
Proof.
  intros Hwf E. pose proof (twf_level t Hwf). pose proof (twf_len t Hwf) as Hlen. unfold talloc_rollback in E. apply bind_Ret in E as (n0 & _ & E).
  apply bind_Ret in E as ([allocs s'] & El & E). apply bind_Ret in E as (sizes & Es & [= <- _]).
  destruct (reset_counts_spec (ta_redundancy_level t) (ta_size t)) as (l & E' & Hl & Hz & _); [lia|]. rewrite Es in E'. injection E' as <-.
  assert (Hal : length allocs = TALLOC_MAX_ALLOCS).
  { refine (for_range_invariant (fun _ st => length st.1 = TALLOC_MAX_ALLOCS) n0 0 _ (ta_allocations t, al) (allocs, s') (twf_allocs t Hwf) _ El).
    intros i [l1 s1] [l2 s2] _ Hst Eb. cbn in Hst |- *. apply bind_Ret in Eb as (a & _ & Eb). destruct (negb _); [|by injection Eb as <- _].
    apply bind_Ret in Eb as (s3 & _ & Eb). apply bind_Ret in Eb as (l3 & E3 & [= <- _]). apply arr_set_Ret in E3 as [_ ->]. by rewrite length_insert. }
  split_and!; [|done|done|exact Hz|intros q Hq; by apply reset_counts_above]. destruct Hwf. split; cbn; try done; lia.
Qed.

Lemma tbin_reset_Ret t t' : tbin_wf t -> tbin_reset t = Ret t' -> tbin_wf t' /\ tb_redundancy_level t' = tb_redundancy_level t /\
  (forall q, (q < tb_redundancy_level t)%nat -> freed t' q = []) /\
  forall q, (tb_redundancy_level t <= q < SEI_DMR_REDUNDANCY)%nat -> freed t q = [] -> freed t' q = [].
Proof.
  intros Hwf E. destruct (tbin_reset_ok t Hwf) as (t1 & E1 & Hwf1 & Hf1). rewrite E in E1. injection E1 as <-.
  unfold tbin_reset in E. apply bind_Ret in E as (n0 & _ & E). apply bind_Ret in E as (mx & _ & E). apply bind_Ret in E as (items & _ & E).
  apply bind_Ret in E as (nitems & En & [= <-]). split_and!; try done. intros q Hq Hf. by apply reset_nitems_above.
Qed.

Lemma wts_reset_wf w w' : wts_wf w -> wts_reset w = Ret w' -> wts_wf w'.
Proof.
  intros [W1 W2 W3 W4] E. unfold wts_reset in E. inv_outcome. split; cbn; rewrite ?length_insert, ?length_replicate; try done.
  - intros i it Hi. apply lookup_replicate in Hi as [-> _]. split; cbn; rewrite ?length_replicate; try done.
    + intros p args Hp. apply lookup_replicate in Hp as [-> _]. by rewrite ?length_replicate.
    + intros p n Hp. apply lookup_replicate in Hp as [-> _]. lia.
  - intros p n Hp. apply list_lookup_insert_Some in Hp as [(_ & <- & _)|[_ Hp]]; [lia|]. apply list_lookup_insert_Some in Hp as [(_ & <- & _)|[_ Hp]]; [lia|]. by eapply W4.
Qed.

Lemma wts_reset_queued w w' q : wts_reset w = Ret w' -> (q < 2)%nat -> queued w' q = [].
Proof.
  intros E Hq. unfold wts_reset in E. inv_outcome. unfold queued. cbn. rewrite nth_lookup.
  destruct (decide (q = 1)%nat) as [->|]; [rewrite list_lookup_insert_eq by done; done|].
  assert (q = 0%nat) as -> by lia. rewrite list_lookup_insert_ne, list_lookup_insert_eq by (rewrite ?length_insert in *; done || lia). done.
Qed.

(** What a rollback needs: logs of any content below the level. *)
Definition interrupted s : Prop := sei_wf s /\ (forall q, (q < s_redundancy_level s)%nat -> exists a, s_cow s !! q = Some a /\ buf_ok a) /\
  forall q, (s_redundancy_level s <= q < SEI_DMR_REDUNDANCY)%nat -> quiet s q.

Lemma checked_interrupted s : checked_inv s -> interrupted s.
Proof. by intros (? & _ & ? & ?). Qed.

Lemma running_interrupted s : running_inv s -> interrupted s.
Proof.
  intros Hrun. destruct (running_inv_view s Hrun) as (Hwf & p & Hp' & Hlt & _ & Hlog & Hquiet). pose proof (sw_level _ Hwf). split_and!; [done| |].
  - intros q Hq. destruct (decide (q <= p)%nat) as [Hle|Hgt].
    + destruct (Hlog q Hle) as (a & l & ? & ? & _). exists a. split; [done|by eapply log_rel_buf_ok].
    + destruct (Hquiet q ltac:(lia)) as (((a & ? & ? & _) & _) & _). exists a. split; [done|by eapply log_rel_buf_ok].
  - intros q Hq. apply Hquiet. lia.
Qed.

Lemma rollback_inv s s' : isolation <> None -> interrupted s -> sei_rollback s = Ret s' -> running_inv s'.
Proof.
  intros Hiso (Hwf & Hbok & Hquiet) E. pose proof (sw_level _ Hwf) as Hlv. pose proof (sw_dmr _ Hwf). pose proof (sw_cow _ Hwf) as Hlc. pose proof (sw_cf _ Hwf) as Hlcf.
  destruct (sw_tbin _ Hwf) as [Hwb Hbl]. destruct (sw_talloc _ Hwf) as [Hwt Htl].
  unfold sei_rollback in E. apply bind_Ret in E as (a0 & Ea0 & E). apply arr_get_Ret in Ea0. apply bind_Ret in E as ([a0' m'] & Er & E). apply bind_Ret in E as (cow1 & Ec1 & E).
  apply arr_set_Ret in Ec1 as [_ ->]. apply bind_Ret in E as (cow2 & Ecl & E). apply bind_Ret in E as (tb & Etb & E). cbn [with_mem with_cow s_tbin] in Etb.
  apply bind_Ret in E as ([t al] & Et & E). cbn [with_mem with_cow with_tbin s_talloc s_alloc] in Et. apply bind_Ret in E as (o & _ & E). apply bind_Ret in E as (o' & _ & E).
  apply bind_Ret in E as (s1 & Eo & E). apply cur_obuf_frame in Eo as [os ->]. apply bind_Ret in E as (wt & Ew & E). apply bind_Ret in E as (cf & Ecf & [= <-]).
  cbn [with_ibuf with_obufs with_alloc with_talloc with_tbin with_mem with_cow with_p with_wts s_wts s_cf] in Ew, Ecf.
  assert (Ha0 : buf_ok a0') by (unfold abuf_restore_filtered in Er; apply bind_Ret in Er as (? & _ & [= <- _]); destruct (Hbok 0%nat ltac:(lia)) as (b & Hb & ?); rewrite Ea0 in Hb; by injection Hb as <-).
  destruct (clean_cows_ok (s_redundancy_level s) (<[0%nat := a0']> (s_cow s))) as (cow3 & Ecl3 & Hl3 & Hcl); [rewrite length_insert; lia| |].
  { intros i a Hi [(<- & <- & _)|[_ Ha]]%list_lookup_insert_Some; [done|]. destruct (Hbok i Hi) as (b & Hb & ?). rewrite Ha in Hb. by injection Hb as <-. }
  rewrite Ecl in Ecl3. injection Ecl3 as <-. rewrite length_insert in Hl3.
  destruct (tbin_reset_Ret _ _ Hwb Etb) as (Hwb' & Hbl' & Hfr & Hfa). destruct (talloc_rollback_Ret _ _ _ _ Hwt Et) as (Hwt' & Htp & Htl' & Hc0 & Hca).
  destruct (reset_cf_ok (s_redundancy_level s) (s_cf s)) as (cf1 & Ecf1 & Hcf1 & _); [lia|]. rewrite Ecf in Ecf1. injection Ecf1 as <-.
  apply (running_start _ 0); cbn; [|done|lia|done|intros; lia|].
  - split; cbn; try done; [congruence|congruence|split; [done|congruence]|split; [done|congruence]|]. eapply wts_reset_wf; [|exact Ew]. apply (sw_wts _ Hwf).
  - intros q Hq. split; cbn; [|by intros [|Hq2]; [done|eapply wts_reset_queued]]. destruct (decide (q < s_redundancy_level s)%nat) as [Hlt|Hge].
    + unfold quiet. cbn. split_and!; [by apply Hcl|apply Hfr; lia|apply Hc0; lia].
    + destruct (Hquiet q ltac:(lia)) as ((a & Ha & ?) & Hf & Hc). unfold quiet. cbn. split_and!.
      * exists a. rewrite (clean_cows_above _ _ _ _ Ecl), list_lookup_insert_ne by lia. done.
      * apply Hfa; [lia|done].
      * rewrite Hca by lia. done.
Qed.

Lemma reach_state_inv md s : (2 <= SEI_DMR_REDUNDANCY <= SEI_DMR_MAX_REDUNDANCY)%nat -> reach md s -> state_inv md s.
Proof.
  intros Hd. induction 1; cbn [state_inv] in *.
  - by eapply init_inv.
  - by eapply set_redundancy_inv.
  - match goal with E : sei_set_core_migration _ _ = _ |- _ => apply bind_Ret in E as (? & _ & [= <-]) end. by eapply idle_inv_ext.
  - by eapply prepare_inv.
  - by eapply prepare_nm_inv.
  - by eapply output_next_inv.
  - by eapply shift_inv.
  - by eapply begin_inv.
  - by eapply op_inv.
  - by eapply switch_inv.
  - by eapply commit_inv.
  - split; [done|by eapply try_commit_inv].
  - eapply accept_inv; [apply IHreach|done..].
  - eapply rollback_inv; [apply IHreach|apply checked_interrupted, IHreach|done].
  - eapply rollback_inv; [done|by apply running_interrupted|done].
Qed.

(** C6.  The invariant of the driver.  Every state that a sequence of calls in the
    order of the control loop can reach is well formed: the arrays have their
    sizes, the counters stay within them, the levels of the components agree.
    Between transactions the phase is -1 and no phase, up to the largest level, has a
    log entry, a delayed free, an allocation or a delayed call; inside a transaction
    the phase is below the level and known to the allocator, the phases up to it have
    complete logs, and the later ones have no log entry, delayed free or allocation yet,
    nor a delayed call, except that in builds with rollbacks the phases from 2 on may
    still have calls from before a rollback.  This holds for every
    behaviour of the handler, through rollbacks, and when the level changes from
    transaction to transaction. *)
Theorem reachable_states_wf md s : (2 <= SEI_DMR_REDUNDANCY <= SEI_DMR_MAX_REDUNDANCY)%nat -> reach md s ->
  sei_wf s /\
  match md with
  | Idle => s_p s = -1 /\ forall q, (q < SEI_DMR_REDUNDANCY)%nat -> quiet s q /\ queued (s_wts s) q = []
  | Running => exists p, s_p s = Z.of_nat p /\ (p < s_redundancy_level s)%nat /\ ta_p (s_talloc s) = p /\
      (forall q, (q <= p)%nat -> logged s q) /\ (forall q, (p < q < SEI_DMR_REDUNDANCY)%nat -> not_begun s q)
  | Checked _ => s_p s + 1 = Z.of_nat (s_redundancy_level s) /\
      forall q, (s_redundancy_level s <= q < SEI_DMR_REDUNDANCY)%nat -> quiet s q
  end.
Proof.
  intros Hd Hr. apply reach_state_inv in Hr; [|done]. destruct md; cbn in Hr.
  - destruct Hr as (? & ? & _ & ?). by split_and!.
  - by apply running_inv_view.
  - destruct Hr as (_ & ? & ? & _ & ?). by split_and!.
Qed.

(** The delayed calls are kept and compared per phase of the build, not of the
    transaction: with fewer executions than SEI_DMR_REDUNDANCY a transaction whose
    handler makes a system call never commits. *)
Theorem reduced_level_rejects_calls ops0 ops1 s s' : idle s -> s_redundancy_level s = 2%nat -> (2 < SEI_DMR_REDUNDANCY)%nat -> calls ops0 <> [] ->
  transaction crc32c crc_run call ops0 ops1 s <> Ret s'.
Proof.
  intros Hs Hlv Hd Hc E. apply bind_Ret in E as (s4 & E & Ec). pose proof E as E0.
  apply two_executions_inv in E as (s3 & a0 & a1 & _ & _ & Hwf4 & Hlv4 & _ & Ha0 & Hr0 & Hpo0 & Ha1 & Hr1 & Hpo1 & _ & _ & Hq0 & _ & _ & _); [|done|done].
  destruct (sei_commit_inv _ _ _ _ _ _ _ _ Hwf4 Hlv4 Ha0 Ha1 Hr0 Hr1 Hpo0 Hpo1 Ec) as (_ & _ & [Hag _] & _).
  assert (Hq2 : queued (s_wts s4) 2 = []).
  { unfold two_executions in E0. destruct (sei_begin_idle s Hs) as (cf & Eb & _ & _ & Hp0). rewrite Eb, bind_Ret_l in E0. apply bind_Ret in E0 as (s1 & E1 & E0).
    eapply phase_state_ops in E1; [|done]. apply bind_Ret in E0 as (s2 & E2 & E0).
    apply (sei_switch_inv crc_run _ _ _ _ _ E1) in E2; [|cbn; lia]. destruct E2 as (Hwf2 & Hp2 & Hlv2 & Htp2 & _ & _ & Hwt2 & _ & _ & _ & b & Hcow & _).
    destruct (id_cow _ Hs 1%nat ltac:(lia)) as (b1 & Hb1 & Hrb1 & Hpb1). eapply (phase_state_ops _ s2 1) in E0; cycle 1.
    { eapply (phase_state_start s2 1 b1); try done; [rewrite Hlv2; cbn; lia|]. rewrite Hcow, list_lookup_insert_ne by done. exact Hb1. }
    rewrite (ps_queued _ _ _ _ E0), Hwt2, (ps_queued _ _ _ _ E1). cbn. by apply (id_queued _ Hs). }
  rewrite (Hag 2%nat Hd), Hq0 in Hq2. done.
Qed.
End Reach.

(** A transaction that is rejected and rolled back. *)
Lemma reachable_states_wf_witness :
  let B := debug_build 2 in
  exists (s : sei libc (list Z)), reach crc32cSarwate demo_crc 1 (fun _ _ => (0, 0)) demo_call (Some false) Running s /\ s_p s = 0 /\
    (forall q, (0 < q < 2)%nat -> quiet s q).
Proof.
  intros B. pose (w v := OWrite uint32_t 100 v).
  assert (Hrun : (s0 ← sei_init ∅ demo_env_heap ([] : list Z) demo_proc;
                  s1 ← sei_begin s0; s2 ← exec_op crc32cSarwate (w 7) s1; s3 ← sei_switch demo_crc s2; s4 ← exec_op crc32cSarwate (w 8) s3;
                  '(ok, s5) ← sei_try_commit demo_crc s4; s6 ← sei_rollback s5;
                  Ret (s_p s3, s_redundancy_level s2, s_redundancy_level s4, s_p s2, s_p s4, ok, s_p s6)) = Ret (1, 2%nat, 2%nat, 0, 1, false, 0)) by (vm_compute; reflexivity).
  apply bind_Ret in Hrun as (s0 & E0 & Hrun). apply bind_Ret in Hrun as (s1 & E1 & Hrun). apply bind_Ret in Hrun as (s2 & E2 & Hrun).
  apply bind_Ret in Hrun as (s3 & E3 & Hrun). apply bind_Ret in Hrun as (s4 & E4 & Hrun). apply bind_Ret in Hrun as ([ok s5] & E5 & Hrun).
  apply bind_Ret in Hrun as (s6 & E6 & Hv). injection Hv as Hp3 Hl2 Hl4 Hp2 Hp4 -> Hp6.
  assert (Hr : reach crc32cSarwate demo_crc 1 (fun _ _ => (0, 0)) demo_call (Some false) Running s6).
  { eapply reach_reject; [|exact E6]. eapply reach_try_commit; [|done|by rewrite Hp4, Hl4|exact E5]. eapply reach_op; [|exact E4].
    eapply reach_switch; [|by rewrite Hp2, Hl2|exact E3]. eapply reach_op; [|exact E2]. eapply reach_begin; [|exact E1]. by eapply reach_init. }
  destruct (reachable_states_wf (H:=B) crc32cSarwate demo_crc 1 (fun _ _ => (0, 0)) demo_call (Some false) Running s6) as (_ & p & Hp & _ & _ & _ & Hq);
    [unfold SEI_DMR_MAX_REDUNDANCY; cbn; lia|exact Hr|].
  exists s6. split; [exact Hr|]. split; [exact Hp6|]. intros q Hlt. apply Hq. rewrite Hp6 in Hp. cbn. lia.
Defined.
