(* ===== verification/SeiFault.v ===== *)
(** * Fault injection (SEI_FAULT_INJECTION, src/mode_cow.c and src/abuf.c)

    A build for testing the recovery flips bits of the log of phase 0 just before
    the comparison of [sei_try_commit], once, when the chosen transaction or time is
    reached, or raises a segmentation fault after a write.  The theorem says which of
    these faults the comparison sees: those that touch the part of the 64-bit word
    that holds the written value. *)

From S2P Require Export SeiRecover.

(** ** The globals *)

(** What [getenv] and [atoi] or [atol] make of the three environment variables. *)
Record fault_env := mk_fault_env {
  SEI_FAULT_INJECT_DELAY_MS : option Z;
  SEI_FAULT_INJECT_AFTER_TXN : option Z;
  SEI_FAULT_TYPE : option Z;
}.

Record faults := mk_faults {
  g_fault_delay_us : Z;
  g_fault_injected : bool;
  g_fault_start_us : Z;
  g_transaction_count : Z;
  g_fault_after_txn : Z;
  fault_type : Z;
}.

Definition faults0 : faults := mk_faults 0 false 0 0 0 (-1).

Definition set_injected (f : faults) : faults :=
  mk_faults (g_fault_delay_us f) true (g_fault_start_us f) (g_transaction_count f) (g_fault_after_txn f) (fault_type f).

Section Globals.
Context (env : fault_env).
Implicit Types f : faults.

(** [now] is what [now()] returns. *)
Definition fault_init (now : Z) f : faults :=
  if negb (g_fault_start_us f =? 0) then f
  else mk_faults (match SEI_FAULT_INJECT_DELAY_MS env with Some s => u64 (u64 s * 1000) | None => g_fault_delay_us f end)
         (g_fault_injected f) now (g_transaction_count f) (g_fault_after_txn f) (fault_type f).

Definition fault_should_inject (now : Z) f : bool * faults :=
  if g_fault_injected f then (false, f)
  else
    let f :=
      if g_fault_after_txn f =? 0 then
        let a := match SEI_FAULT_INJECT_AFTER_TXN env with Some s => s | None => g_fault_after_txn f end in
        mk_faults (g_fault_delay_us f) (g_fault_injected f) (g_fault_start_us f) (g_transaction_count f)
          (if a =? 0 then -1 else a) (fault_type f)
      else f in
    if (0 <? g_fault_after_txn f) && (g_fault_after_txn f <=? g_transaction_count f) then (true, f)
    else if 0 <? g_fault_delay_us f then (g_fault_delay_us f <=? u64 (now - g_fault_start_us f), f)
    else (false, f).

(** [g_transaction_count++] on an int. *)
Definition fault_count_transaction f : outcome faults :=
  if g_transaction_count f =? 2 ^ 31 - 1 then Stop UndefinedArith
  else Ret (mk_faults (g_fault_delay_us f) (g_fault_injected f) (g_fault_start_us f) (g_transaction_count f + 1)
              (g_fault_after_txn f) (fault_type f)).

Definition fault_get_type f : Z * faults :=
  if fault_type f <? 0 then
    let t := match SEI_FAULT_TYPE env with Some s => s | None => 0 end in
    (t, mk_faults (g_fault_delay_us f) (g_fault_injected f) (g_fault_start_us f) (g_transaction_count f) (g_fault_after_txn f) t)
  else (fault_type f, f).

(** [true]: the process gets SIGSEGV. *)
Definition fault_inject_sigsegv (now : Z) f : bool * faults :=
  let '(t, f) := fault_get_type f in
  if negb (t =? 5) then (false, f)
  else
    let '(b, f) := fault_should_inject now f in
    if negb b then (false, f) else (true, set_injected f).

(** [rnd] is what [rand()] returns. *)
Definition fault_inject_abuf (now : Z) (rnd : nat) f (a : abuf) : outcome (faults * abuf) :=
  let '(b, f) := fault_should_inject now f in
  if negb b then Ret (f, a)
  else if abuf_size a =? 0 then Ret (f, a)
  else
    let '(t, f) := fault_get_type f in
    if t =? 1 then a ← abuf_corrupt_random rnd a; Ret (set_injected f, a)
    else if t =? 2 then a ← abuf_corrupt_last a; Ret (set_injected f, a)
    else if t =? 3 then a ← abuf_corrupt_multiple a; Ret (set_injected f, a)
    else if t =? 5 then Ret (f, a)
    else a ← abuf_corrupt_first a; Ret (set_injected f, a).
End Globals.

Section Driver.
Context `{Build} {S W : Type} `{Allocator S}.
Context (crc_run : Z -> nat -> Z -> list Z -> Z).
Context (env : fault_env).
Implicit Types (s : sei S W) (f : faults).

(** The write of this build; [true]: a segmentation fault follows it. *)
Definition sei_write_fi (t : cty) (now : Z) f s (addr value : Z) : outcome (bool * faults * sei S W) :=
  s ← sei_write t s addr value;
  let '(b, f) := fault_inject_sigsegv env now f in
  Ret (b, f, s).

(** [sei_try_commit]: the injection takes place between the rewinding and the
    comparison.  What follows is the function of the other build, whose own
    rewinding then has nothing to do. *)
Definition sei_try_commit_fi (now : Z) (rnd : nat) f s : outcome (bool * faults * sei S W) :=
  let level := s_redundancy_level s in
  c_assert (s_p s =? Z.of_nat level - 1);;
  f ← fault_count_transaction f;
  cow ← rewind_cows level (s_cow s);
  a0 ← arr_get cow 0;
  '(f, a0) ← fault_inject_abuf env now rnd f a0;
  cow ← arr_set cow 0 a0;
  '(v, s) ← sei_try_commit crc_run (with_cow s cow);
  Ret (v, f, s).
End Driver.

(** ** Flipped logs *)

(** The bits of mask [x] that belong to the value of the write. *)
Definition visible (x : Z) (w : wr) : Prop := wvax_get x (w_ty w) (w_addr w) <> 0.

Definition flip_wr (x : Z) (w : wr) : wr :=
  mk_wr (w_ty w) (w_addr w) (Z.lxor (w_val w) (wvax_get x (w_ty w) (w_addr w))).
Definition flip (l : list wr) (j : nat * Z) : list wr := alter (flip_wr j.2) j.1 l.
Definition flips (js : list (nat * Z)) (l : list wr) : list wr := foldl flip l js.

(** What the four kinds flip in a log of [n] entries. *)
Definition injections (kind : Z) (rnd n : nat) : list (nat * Z) :=
  if kind =? 1 then [((rnd mod n)%nat, 0xDEADBEEF)]
  else if kind =? 2 then [((n - 1)%nat, 0xFF)]
  else if kind =? 3 then if (n <? 2)%nat then [] else filter (fun j => (j.1 < n)%nat) [(0%nat, 1); (2%nat, 2); (4%nat, 4)]
  else if kind =? 5 then []
  else [(0%nat, 1)].

Lemma wvax_get_lxor x y t addr : wvax_get (Z.lxor x y) t addr = Z.lxor (wvax_get x t addr) (wvax_get y t addr).
Proof.
  unfold wvax_get. pose proof (lane_shift_nonneg addr t). apply Z.bits_inj'. intros n Hn.
  rewrite Z.lxor_spec, !Z.land_spec, !Z.shiftr_spec, Z.lxor_spec by lia.
  by destruct (Z.testbit x _), (Z.testbit y _), (Z.testbit (Z.ones _) n).
Qed.

Lemma xor_entry_rel a l i x : log_rel a l -> (i < length l)%nat ->
  exists a', xor_entry a i x = Ret a' /\ log_rel a' (flip l (i, x)) /\ pushed a' = pushed a /\ poped a' = poped a.
Proof.
  intros Hrel Hi. pose proof (log_rel_length _ _ Hrel) as Hl. destruct (log_rel_lookup a l i Hrel ltac:(lia)) as (e & w & He & Hw & Hs & Ha & Hv).
  destruct Hrel as [Hwf HF]. unfold xor_entry. rewrite (proj2 (arr_get_Ret _ _ _) He), bind_Ret_l, arr_set_lt by (by eapply lookup_lt_Some).
  rewrite bind_Ret_l. eexists. split; [done|]. split_and!; try done. destruct Hwf. split; [split; cbn; rewrite ?length_insert; lia|].
  cbn [set_buf pushed buf]. apply Forall2_same_length_lookup. split.
  { rewrite length_take, length_insert. unfold flip. rewrite length_alter. lia. }
  intros k e' w' He' Hw'. apply lookup_take_Some in He' as [He' Hk]. unfold flip in Hw'. cbn in Hw'. destruct (decide (k = i)) as [->|Hne].
  - rewrite list_lookup_insert_eq in He' by (by eapply lookup_lt_Some). rewrite list_lookup_alter_eq, Hw in Hw'. injection He' as <-. injection Hw' as <-.
    unfold entry_rel, ABUF_WVAX, ABUF_WVAL, set_wval in *. cbn. split_and!; [done|done|]. by rewrite wvax_get_lxor, Hv.
  - rewrite list_lookup_insert_ne in He' by done. rewrite list_lookup_alter_ne in Hw' by done.
    refine (Forall2_lookup_lr _ _ _ k _ _ HF _ Hw'). by apply lookup_take_Some.
Qed.

Lemma length_flip l j : length (flip l j) = length l.
Proof. apply length_alter. Qed.

Lemma flip_shape l j : shape <$> flip l j = shape <$> l.
Proof.
  apply list_eq. intros i. rewrite !list_lookup_fmap. unfold flip. destruct (decide (i = j.1)) as [->|].
  - rewrite list_lookup_alter_eq. by destruct (l !! j.1).
  - by rewrite list_lookup_alter_ne.
Qed.

Lemma flips_cons j js l : flips (j :: js) l = flips js (flip l j).
Proof. done. Qed.

Lemma flips_shape js : forall l, shape <$> flips js l = shape <$> l.
Proof. induction js as [|j js IH]; intros l; [done|]. by rewrite flips_cons, IH, flip_shape. Qed.

Lemma flips_lookup_ne js : forall l i, i ∉ js.*1 -> flips js l !! i = l !! i.
Proof.
  induction js as [|j js IH]; intros l i Hi; [done|]. cbn in Hi. apply not_elem_of_cons in Hi as [Hne Hi]. rewrite flips_cons, IH by done.
  unfold flip. by rewrite list_lookup_alter_ne.
Qed.

Lemma flips_lookup js : forall l i x w, NoDup js.*1 -> (i, x) ∈ js -> l !! i = Some w -> flips js l !! i = Some (flip_wr x w).
Proof.
  induction js as [|j js IH]; intros l i x w Hnd Hin Hw; [by apply elem_of_nil in Hin|]. cbn in Hnd. apply NoDup_cons in Hnd as [Hj Hnd]. rewrite flips_cons.
  apply elem_of_cons in Hin as [<-|Hin].
  - rewrite flips_lookup_ne by done. unfold flip. cbn. by rewrite list_lookup_alter_eq, Hw.
  - eapply IH; [done..|]. unfold flip. rewrite list_lookup_alter_ne; [done|]. intros Hi. apply Hj, list_elem_of_fmap. by exists (i, x).
Qed.

(** Flips outside the values leave the log as it was. *)
Lemma flips_invisible js : forall l, (forall i x w, (i, x) ∈ js -> l !! i = Some w -> ~ visible x w) -> flips js l = l.
Proof.
  induction js as [|[i x] js IH]; intros l Hno; [done|]. rewrite flips_cons. replace (flip l (i, x)) with l.
  { apply IH. intros. eapply Hno; [by right|done]. }
  apply list_eq. intros k. unfold flip. cbn. destruct (decide (k = i)) as [->|]; [|by rewrite list_lookup_alter_ne].
  rewrite list_lookup_alter_eq. destruct (l !! i) as [w|] eqn:E; [|done]. cbn. f_equal. unfold flip_wr.
  assert (wvax_get x (w_ty w) (w_addr w) = 0) as ->. { apply dec_stable. intros Hv. exact (Hno i x w ltac:(left) E Hv). }
  rewrite Z.lxor_0_r. by destruct w.
Qed.

(** A flip that touches the value is a mismatch with the memory that held it. *)
Lemma flip_mismatch m x w : load (w_size w) m (w_addr w) = w_val w -> visible x w -> mismatch m (flip_wr x w) = true.
Proof.
  intros Hl Hv. unfold mismatch, flip_wr. cbn [w_size w_ty w_addr w_val]. apply negb_true_iff, Z.eqb_neq.
  change (w_size (flip_wr x w)) with (w_size w) in *. unfold w_size in *. cbn. rewrite Hl. intros E. apply Hv.
  apply (f_equal (Z.lxor (w_val w))) in E. by rewrite Z.lxor_nilpotent, <- Z.lxor_assoc, Z.lxor_nilpotent, Z.lxor_0_l in E.
Qed.

Lemma injections_nodup kind rnd n : NoDup (injections kind rnd n).*1.
Proof.
  unfold injections. repeat case_match; try (apply NoDup_singleton || apply NoDup_nil_2).
  rewrite !filter_cons, filter_nil. repeat case_decide; cbn; repeat constructor; set_solver.
Qed.

(** One step of [abuf_corrupt_multiple]. *)
Lemma xor_entry_below a l i x : log_rel a l -> exists a',
  (if (i <? pushed a)%nat then xor_entry a i x else Ret a) = Ret a' /\ log_rel a' (flips (filter (fun j => (j.1 < length l)%nat) [(i, x)]) l) /\
  pushed a' = pushed a /\ poped a' = poped a.
Proof.
  intros Hr. pose proof (log_rel_length _ _ Hr) as Hl. rewrite filter_cons, filter_nil. cbn [fst]. case_decide as Hi.
  - rewrite (proj2 (Nat.ltb_lt _ _)) by lia. destruct (xor_entry_rel a l i x Hr Hi) as (a' & ? & ? & ? & ?). by exists a'.
  - rewrite (proj2 (Nat.ltb_ge _ _)) by lia. by exists a.
Qed.

Lemma flips_app js js' l : flips (js ++ js') l = flips js' (flips js l).
Proof. apply foldl_app. Qed.

Lemma length_flips js l : length (flips js l) = length l.
Proof. rewrite <- (length_fmap shape (flips js l)), flips_shape. apply length_fmap. Qed.

Lemma corrupt_multiple_rel a l : log_rel a l -> exists a', abuf_corrupt_multiple a = Ret a' /\ log_rel a' (flips (injections 3 0 (length l)) l) /\
  pushed a' = pushed a /\ poped a' = poped a.
Proof.
  intros Hr. pose proof (log_rel_length _ _ Hr) as Hl. unfold abuf_corrupt_multiple, injections. cbn [Z.eqb Pos.eqb]. rewrite Hl.
  destruct (Nat.ltb_spec (pushed a) 2) as [|Hge]; [by exists a|]. cbn [for_range].
  destruct (xor_entry_below a l 0 1 Hr) as (a1 & E1 & Hr1 & Hp1 & Hq1). destruct (xor_entry_below a1 _ 2 2 Hr1) as (a2 & E2 & Hr2 & Hp2 & Hq2).
  destruct (xor_entry_below a2 _ 4 4 Hr2) as (a3 & E3 & Hr3 & Hp3 & Hq3).
  exists a3. split_and!; [|clear E1 E2 E3|congruence|congruence].
  { etransitivity; [apply (f_equal (mbind _) E1)|]. rewrite bind_Ret_l. etransitivity; [apply (f_equal (mbind _) E2)|]. rewrite bind_Ret_l.
    etransitivity; [apply (f_equal (mbind _) E3)|]. by rewrite bind_Ret_l. }
  rewrite !length_flips, <- !flips_app, <- !filter_app in Hr3. by rewrite Hl in Hr3.
Qed.

(** The four corruptions, on a log with entries. *)
Lemma fault_inject_abuf_rel env now rnd f f' a l : log_rel a l -> poped a = 0%nat -> fault_should_inject env now f = (true, f') ->
  exists a' f'', fault_inject_abuf env now rnd f a = Ret (f'', a') /\ log_rel a' (flips (injections (fault_get_type env f').1 rnd (length l)) l) /\
    pushed a' = pushed a /\ poped a' = poped a /\ (l <> [] -> (fault_get_type env f').1 <> 5 -> g_fault_injected f'' = true).
Proof.
  intros Hr Hp Hdue. pose proof (log_rel_length _ _ Hr) as Hl. unfold fault_inject_abuf. rewrite Hdue. cbn [negb]. unfold abuf_size.
  rewrite Hp, Z.sub_0_r. destruct (Z.eqb_spec (Z.of_nat (pushed a)) 0) as [H0|Hne].
  { destruct l; [|cbn in Hl; lia]. exists a, f'. split_and!; try done.
    replace (flips _ []) with ([] : list wr); [done|]. symmetry. apply length_zero_iff_nil. by rewrite length_flips. }
  assert (Hpz : (pushed a =? 0)%nat = false) by (apply Nat.eqb_neq; lia).
  assert (Hx : forall i x, (i < length l)%nat -> exists a', xor_entry a i x = Ret a' /\ log_rel a' (flips [(i, x)] l) /\ pushed a' = pushed a /\ poped a' = poped a)
    by (intros i x; apply (xor_entry_rel a l i x Hr)).
  destruct (fault_get_type env f') as [k fk] eqn:Ek. cbn [fst]. unfold injections, abuf_corrupt_random, abuf_corrupt_last, abuf_corrupt_first. rewrite Hpz, Hl. rewrite Hl, Hp in Hx.
  destruct (Z.eqb_spec k 1) as [->|H1]; [destruct (Hx (rnd mod pushed a)%nat 0xDEADBEEF) as (a' & -> & ?); [apply Nat.mod_upper_bound; lia|]; rewrite bind_Ret_l; eexists _, _; split_and!; try tauto; done|].
  destruct (Z.eqb_spec k 2) as [->|H2]; [destruct (Hx (pushed a - 1)%nat 0xFF) as (a' & -> & ?); [lia|]; rewrite bind_Ret_l; eexists _, _; split_and!; try tauto; done|].
  destruct (Z.eqb_spec k 3) as [->|H3]; [destruct (corrupt_multiple_rel a l Hr) as (a' & -> & Hm); rewrite Hl, Hp in Hm; rewrite bind_Ret_l; eexists _, _; split_and!; try tauto; done|].
  destruct (Z.eqb_spec k 5) as [->|H5]; [exists a, fk; split_and!; done|].
  destruct (Hx 0%nat 1) as (a' & -> & ?); [lia|]. rewrite bind_Ret_l. eexists _, _. split_and!; try tauto; done.
Qed.

(** A mask whose lowest byte is not zero shows in every value that starts a word. *)
Lemma low_byte_visible x w : Z.land (w_addr w) 7 = 0 -> Z.land x 255 <> 0 -> visible x w.
Proof.
  intros Ha Hx Hz. apply Hx. unfold wvax_get, lane_shift, ABUF_PICKMASK in Hz. rewrite Ha, Z.shiftr_0_l, Z.mul_0_r, Z.shiftr_0_r in Hz.
  apply (f_equal (fun y => Z.land y 255)) in Hz. rewrite <- Z.land_assoc, Z.land_0_l in Hz. by destruct (w_ty w).
Qed.

Section Detection.
Context `{Build} {S W : Type} `{AllocatorLaws S}.
Context (crc32c : Z -> Z -> list Z -> Z).
Context (crc_run : Z -> nat -> Z -> list Z -> Z).
Context (env : fault_env).
Implicit Types (s : sei S W) (ops : list op) (f : faults).

(** C37.  Injected faults.  After two equal executions that write no byte twice (level 2),
    when an injection is due, the
    comparison answers 0 as soon as one of the flipped bits belongs to a value an
    execution wrote, and answers as without the injection when none does; it returns
    in both cases and leaves the memory as it is, and the fault is not injected
    again.  (A mask with bits in its lowest byte belongs to every value that starts
    a 64-bit word, by [low_byte_visible]; flips of narrower values elsewhere can be
    missed.) *)
Theorem injected_fault_detected now rnd f f1 f2 ops s s4 ok pr : SEI_DMR_REDUNDANCY = 2%nat -> idle s -> s_redundancy_level s = 2%nat ->
  all_disjoint (writes ops) -> two_executions crc32c crc_run ops ops s = Ret s4 ->
  ibuf_correct crc_run (s_mem s4) (s_ibuf s4) (s_proc s4) = Ret (ok, pr) ->
  fault_count_transaction f = Ret f1 -> fault_should_inject env now f1 = (true, f2) ->
  let kind := (fault_get_type env f2).1 in
  let js := injections kind rnd (length (writes ops)) in
  exists v f' s', sei_try_commit_fi crc_run env now rnd f s4 = Ret (v, f', s') /\ s_mem s' = s_mem s4 /\
    ((exists i x w, (i, x) ∈ js /\ writes ops !! i = Some w /\ visible x w) -> v = false) /\
    ((forall i x w, (i, x) ∈ js -> writes ops !! i = Some w -> ~ visible x w) -> exists s'', sei_try_commit crc_run s4 = Ret (v, s'')) /\
    (writes ops <> [] -> kind <> 5 -> g_fault_injected f' = true).
Proof.
  intros HN Hs Hlv Hd E4 Hin Ef1 Ef2 kind js. destruct (two_executions_control crc32c crc_run _ _ _ _ Hs Hlv E4) as [Hp Hcf].
  apply two_executions_inv in E4 as (s3 & a0 & a1 & Hm3 & Hw4 & Hwf4 & Hlv4 & Hm4 & Ha0 & Hr0 & Hpo0
    & Ha1 & Hr1 & Hpo1 & Hf0 & Hf1 & Hq0 & Hq1 & Hc0 & Hc1); [|done|done].
  set (l0 := norm <$> writes ops) in *. assert (Hl0 : length l0 = length (writes ops)) by apply length_fmap.
  destruct (fault_inject_abuf_rel env now rnd f1 f2 a0 l0 Hr0 Hpo0 Ef2) as (a0' & f' & Ei & Hr0' & _ & Hpo0' & Hinj). rewrite Hl0 in Hr0'. fold kind js in Hr0', Hinj.
  pose proof (sw_cow _ Hwf4) as Hlc. unfold SEI_DMR_MAX_REDUNDANCY in Hlc. set (s5 := with_cow s4 (<[0%nat := a0']> (s_cow s4))).
  assert (Hwf5 : sei_wf s5) by (destruct Hwf4; split; cbn; rewrite ?length_insert; done).
  destruct (sei_try_commit_spec crc_run s5 a0' a1 (flips js l0) (undo_log (writes ops) (s_mem s3)) ok pr HN Hwf5 Hlv4 Hp) as (v & cf & pr' & E & _ & Hv & _); try done.
  { cbn. apply list_lookup_insert_eq. lia. }
  { cbn. by rewrite list_lookup_insert_ne. }
  { by rewrite Hpo0'. }
  destruct (sei_try_commit_spec crc_run s4 a0 a1 _ _ ok pr HN Hwf4 Hlv4 Hp Ha0 Ha1 Hr0 Hr1 Hpo0 Hpo1 Hcf Hin) as (v0 & cf0 & pr0 & E0 & _ & Hv0 & _).
  rewrite flips_shape in Hv. cbn [s5 with_cow s_mem s_wts s_tbin] in Hv.
  exists v, f', (with_proc (with_cf s5 cf) pr'). split; [|split_and!; [done| | |]].
  - unfold sei_try_commit_fi. rewrite Hlv4, Hp. change (1 =? Z.of_nat 2 - 1) with true. rewrite c_assert_true, bind_Ret_l, Ef1, bind_Ret_l.
    rewrite rewind_cows_id; [|lia|intros [|[|i]] a Hi Ha; [congruence|congruence|lia]].
    rewrite bind_Ret_l, (proj2 (arr_get_Ret _ _ _) Ha0), bind_Ret_l, Ei, bind_Ret_l, arr_set_lt, bind_Ret_l by lia.
    fold s5. by rewrite E, bind_Ret_l.
  - intros (i & x & w & Hj & Hw & Hvis). destruct v; [exfalso|done]. destruct (proj1 Hv eq_refl) as (_ & _ & Hex & _).
    assert (Hd' : all_disjoint (flips js l0)).
    { apply (all_disjoint_shape l0); [by rewrite flips_shape|by apply all_disjoint_norm]. }
    assert (Hwl : l0 !! i = Some (norm w)) by (unfold l0; by rewrite list_lookup_fmap, Hw).
    pose proof (proj1 (excused_disjoint _ _ Hd') Hex i _ (flips_lookup js l0 i x _ (injections_nodup _ _ _) Hj Hwl)) as Hno.
    rewrite flip_mismatch in Hno; [done| |exact Hvis]. cbn. rewrite Hm4.
    apply (replay_norm_last (writes ops) (s_mem s3) i (norm w)); [by apply all_disjoint_separated|].
    apply all_disjoint_last; [by apply all_disjoint_norm|done].
  - intros Hno. rewrite (flips_invisible js l0) in Hv.
    + assert (v = v0) as ->; [|by eexists]. apply eq_bool_prop_intro. rewrite !Is_true_true. by rewrite Hv, Hv0.
    + intros i x w Hj Hw. unfold l0 in Hw. rewrite list_lookup_fmap in Hw. apply fmap_Some in Hw as (w' & Hw' & ->). exact (Hno i x w' Hj Hw').
  - intros Hne. apply Hinj. unfold l0. by destruct (writes ops).
Qed.
End Detection.

(** ** Witnesses *)

Definition demo_faults : fault_env := mk_fault_env None (Some 1) None.

(** The word at 104 starts a 64-bit word: flipping its lowest bit is seen. *)
Lemma injected_fault_detected_witness :
  let _ := debug_build 2 in
  let ops := [OWrite uint32_t 104 7] in
  exists (s s4 s' : sei libc (list Z)) f', sei_init ∅ demo_env_heap [] demo_proc = Ret s /\
    two_executions crc32cSarwate demo_crc ops ops s = Ret s4 /\
    sei_try_commit_fi demo_crc demo_faults 0 0 faults0 s4 = Ret (false, f', s') /\ g_fault_injected f' = true.
Proof.
  intros B ops.
  assert (Hrun : (s ← sei_init ∅ demo_env_heap ([] : list Z) demo_proc;
                  s4 ← two_executions crc32cSarwate demo_crc ops ops s;
                  '(ok, pr) ← ibuf_correct demo_crc (s_mem s4) (s_ibuf s4) (s_proc s4); Ret ok) = Ret true) by (vm_compute; reflexivity).
  apply bind_Ret in Hrun as (s & E & Hrun). apply bind_Ret in Hrun as (s4 & E4 & Hrun). apply bind_Ret in Hrun as ([ok pr] & Ein & _).
  destruct (sei_init_idle (∅ : mem) demo_env_heap ([] : list Z) demo_proc) as (s0 & E0 & Hidle & Hlv & Hm0);
    [unfold SEI_DMR_MAX_REDUNDANCY; cbn; lia|].
  rewrite E in E0. injection E0 as <-.
  destruct (injected_fault_detected (H:=B) crc32cSarwate demo_crc demo_faults 0 0 faults0 (mk_faults 0 false 0 1 0 (-1)) (mk_faults 0 false 0 1 1 (-1)) ops s s4 ok pr
    (eq_refl 2%nat) Hidle Hlv) as (v & f' & s' & Ev & _ & Hdet & _ & Hinj); [by intros [|i] [|j] ? ? Hij Hi Hj|exact E4|exact Ein|reflexivity|reflexivity|].
  exists s, s4, s', f'. split; [exact E|]. split; [exact E4|]. split.
  - rewrite Ev, Hdet; [done|]. exists 0%nat, 1, (mk_wr uint32_t 104 7). split; [left|]. split; [reflexivity|].
    apply low_byte_visible; done.
  - apply Hinj; done.
Defined.

(** The byte at 201 is the second of its word: the flipped bit is not part of it, the
    transaction passes although the fault counts as injected. *)
Lemma injected_fault_missed :
  let _ := debug_build 2 in
  let ops := [OWrite uint8_t 201 44] in
  exists (s s4 s' : sei libc (list Z)) f', sei_init ∅ demo_env_heap [] demo_proc = Ret s /\
    two_executions crc32cSarwate demo_crc ops ops s = Ret s4 /\
    sei_try_commit_fi demo_crc demo_faults 0 0 faults0 s4 = Ret (true, f', s') /\ g_fault_injected f' = true.
Proof.
  intros B ops.
  assert (Hrun : (s ← sei_init ∅ demo_env_heap ([] : list Z) demo_proc;
                  s4 ← two_executions crc32cSarwate demo_crc ops ops s;
                  '(v, f', s') ← sei_try_commit_fi demo_crc demo_faults 0 0 faults0 s4;
                  Ret (v, g_fault_injected f')) = Ret (true, true)) by (vm_compute; reflexivity).
  apply bind_Ret in Hrun as (s & E & Hrun). apply bind_Ret in Hrun as (s4 & E4 & Hrun). apply bind_Ret in Hrun as ([[v f'] s'] & Ev & Hv).
  injection Hv as -> Hf. exists s, s4, s', f'. done.
Qed.
