(* ===== verification/SeiTab.v ===== *)
(** * The driver on hash tables (src/mode_cow.c without COW_APPEND_ONLY)

    Without COW_APPEND_ONLY the write sets are the hash tables of src/cow.c, written
    through (COW_WT, undone at the switch) or written back (COW_WB, applied at the
    commit).  All other components are those of the default build: [t_drv] holds them,
    its append-only buffers are not used. *)

From S2P Require Export SeiDmr CowWt.

Record tsei (S W : Type) := mk_tsei { t_drv : sei S W; t_tabs : list cow }.
Arguments mk_tsei {S W}. Arguments t_drv {S W}. Arguments t_tabs {S W}.

Section Driver.
Context `{Build} `{CowBuild} {S W : Type} `{Allocator S}.
Context (crc32c : Z -> Z -> list Z -> Z).
Context (crc_run : Z -> nat -> Z -> list Z -> Z).
Context (call : Z -> list Z -> W -> W).
Implicit Types (ts : tsei S W) (ops : list op).

Definition with_drv ts (s : sei S W) : tsei S W := mk_tsei s (t_tabs ts).

(** [cow_init(0, COW_SIZE)] for every phase; [hp] is the heap argument. *)
Definition tab_init (hp : heap) (m : mem) (al : S) (w : W) (pr : proc) : outcome (tsei S W) :=
  s ← sei_init m al w pr;
  Ret (mk_tsei s (replicate SEI_DMR_MAX_REDUNDANCY (cow_init hp COW_SIZE))).

Definition tab_read (t : cty) ts (addr : Z) : outcome Z :=
  c ← arr_getZ (t_tabs ts) (s_p (t_drv ts)); cow_read t c (s_mem (t_drv ts)) addr.

Definition tab_write (t : cty) ts (addr value : Z) : outcome (tsei S W) :=
  let s := t_drv ts in
  c_assert ((0 <=? s_p s) && (s_p s <? Z.of_nat SEI_DMR_REDUNDANCY));;
  c ← arr_getZ (t_tabs ts) (s_p s);
  '(c, m) ← cow_write t c (s_mem s) addr value;
  tabs ← arr_setZ (t_tabs ts) (s_p s) c;
  Ret (mk_tsei (with_mem s m) tabs).

Definition tab_begin ts : outcome (tsei S W) := s ← sei_begin (t_drv ts); Ret (with_drv ts s).

Definition tab_switch ts : outcome (tsei S W) :=
  s ← switch_common crc_run (t_drv ts);
  if COW_WT then
    c ← arr_getZ (t_tabs ts) (s_p s - 1);
    '(c, m) ← cow_swap c (s_mem s);
    tabs ← arr_setZ (t_tabs ts) (s_p s - 1) c;
    Ret (mk_tsei (with_mem s m) tabs)
  else Ret (with_drv ts s).

(** [for (i = 1; i < level; i++) cow_apply_cmp(cow[0], cow[i])] *)
Definition apply_tabs (level : nat) (tabs : list cow) (m : mem) : outcome (list cow * mem) :=
  for_range (level - 1) 1 (fun i st =>
    let '(tabs, m) := st in
    c0 ← arr_get tabs 0;
    ci ← arr_get tabs i;
    '(c0, ci, m) ← cow_apply_cmp c0 ci m;
    tabs ← arr_set tabs 0 c0;
    tabs ← arr_set tabs i ci;
    Ret (tabs, m)) (tabs, m).

Definition tab_commit ts : outcome (tsei S W) :=
  let level := s_redundancy_level (t_drv ts) in
  let s := with_p (t_drv ts) (-1) in
  '(ok, cf) ← cf_gates level 0 (s_cf s);
  fail_ifn ok "control flow error";;
  '(tabs, m) ← apply_tabs level (t_tabs ts) (s_mem s);
  s ← commit_flush crc_run call None (with_mem (with_cf s cf) m);
  Ret (mk_tsei s tabs).

(** One call of the instrumented code. *)
Definition tab_op (o : op) ts : outcome (tsei S W) :=
  match o with
  | OWrite t addr value => tab_write t ts addr value
  | _ => s ← exec_op crc32c o (t_drv ts); Ret (with_drv ts s)
  end.

Fixpoint tab_ops ops ts : outcome (tsei S W) :=
  match ops with
  | [] => Ret ts
  | o :: ops' => ts ← tab_op o ts; tab_ops ops' ts
  end.

Definition tab_transaction ops0 ops1 ts : outcome (tsei S W) :=
  ts ← tab_begin ts; ts ← tab_ops ops0 ts; ts ← tab_switch ts; ts ← tab_ops ops1 ts; tab_commit ts.
End Driver.

(** ** The calls other than writes *)

Definition is_write (o : op) : bool := match o with OWrite _ _ _ => true | _ => false end.
Definition others (ops : list op) : list op := filter (fun o => is_write o = false) ops.

Lemma others_app ops1 ops2 : others (ops1 ++ ops2) = others ops1 ++ others ops2.
Proof. apply filter_app. Qed.

Lemma others_proj ops : writes (others ops) = [] /\ frees (others ops) = frees ops /\ calls (others ops) = calls ops /\ mallocs (others ops) = mallocs ops.
Proof.
  unfold others. induction ops as [|o ops (IH1 & IH2 & IH3 & IH4)]; [done|]. rewrite filter_cons.
  unfold writes, frees, calls, mallocs in *.
  destruct o; case_decide; try done; split_and!; cbn; first [assumption | f_equal; assumption].
Qed.

Section Frame.
Context `{Build} {S W : Type} `{Allocator S}.
Context (crc32c : Z -> Z -> list Z -> Z).
Implicit Types s : sei S W.

(** They neither read nor change the memory. *)
Lemma exec_op_mem o s s' m : is_write o = false -> exec_op crc32c o s = Ret s' ->
  s_mem s' = s_mem s /\ exec_op crc32c o (with_mem s m) = Ret (with_mem s' m).
Proof.
  intros Hw E. destruct o; try discriminate Hw; cbn [exec_op] in *.
  - unfold sei_malloc in *. cbn [with_mem s_talloc s_alloc]. apply bind_Ret in E as ([p s1] & E & [= <-]).
    apply bind_Ret in E as ([[p' t] al] & -> & [= <- <-]). done.
  - unfold sei_free in *. cbn [with_mem s_tbin s_p]. apply bind_Ret in E as (b & -> & [= <-]). done.
  - unfold sei_delay_call in *. cbn [with_mem s_wts s_p]. apply bind_Ret in E as (b & -> & [= <-]). done.
  - unfold sei_output_append in *. cbn [with_mem s_p]. case_match; [by injection E as <-|].
    apply bind_Ret in E as (b & Eb & E). apply bind_Ret in E as (b' & Eb' & E). unfold cur_obuf, set_cur_obuf in *. cbn [with_mem s_obufs s_obuf].
    apply bind_Ret in E as (os & Eos & [= <-]). by rewrite Eb, bind_Ret_l, Eb', bind_Ret_l, Eos, bind_Ret_l.
  - unfold sei_output_done in *. cbn [with_mem s_p]. case_match; [by injection E as <-|].
    apply bind_Ret in E as (b & Eb & E). apply bind_Ret in E as (b' & Eb' & E). unfold cur_obuf, set_cur_obuf in *. cbn [with_mem s_obufs s_obuf].
    apply bind_Ret in E as (os & Eos & [= <-]). by rewrite Eb, bind_Ret_l, Eb', bind_Ret_l, Eos, bind_Ret_l.
Qed.
End Frame.

(** ** One execution *)

Section Table.
Context `{Build} `{CowBuild}.
Implicit Types (c : cow) (m : mem) (Wd : gmap Z Z).

(** The table after the writes [ws] from memory [m0]: written through, the memory has
    the writes and the table the old words; written back, the other way round. *)
Definition table_state (hp : heap) (ws : list wr) m0 c m : Prop :=
  exists Wd, cow_rel c Wd /\ c_heap c = hp /\
    if COW_WT then m = replay ws m0 /\ overlay hp Wd m m0 else m = m0 /\ overlay hp Wd m (replay ws m0).

Lemma table_state_start hp m c : cow_rel c ∅ -> c_heap c = hp -> table_state hp [] m c m.
Proof. intros Hc Hh. exists ∅. split_and!; [done|done|]. destruct COW_WT; (split; [done|apply overlay_empty]). Qed.

Lemma table_state_write hp ws m0 c m t addr v c' m' : table_state hp ws m0 c m -> wr_ok hp (mk_wr t addr v) ->
  cow_write t c m addr v = Ret (c', m') -> table_state hp (ws ++ [mk_wr t addr v]) m0 c' m'.
Proof.
  intros (Wd & Hc & <- & Hm) [Ha Hv] E. cbn in Ha, Hv. destruct COW_WT eqn:Ewt; destruct Hm as [-> Ho].
  - destruct (cow_write_wt Ewt c Wd _ m0 t addr v Hc Ho Ha Hv) as (c1 & W1 & E1 & Hc1 & Hh1 & Ho1). rewrite E in E1. injection E1 as -> ->.
    exists W1. rewrite Ewt. split_and!; [done|done| |done]. by rewrite replay_app.
  - destruct (cow_write_ok c Wd m0 _ t addr v Ewt Hc Ho Ha Hv) as (c1 & W1 & E1 & Hc1 & Hh1 & Ho1). rewrite E in E1. injection E1 as -> ->.
    exists W1. rewrite Ewt. split_and!; [done|done|done|]. by rewrite replay_app.
Qed.

(** A commit changes the sizes only. *)
Lemma cow_apply_cmp_heap c1 c2 m c1' c2' m' : cow_apply_cmp c1 c2 m = Ret (c1', c2', m') -> c_heap c1' = c_heap c1 /\ c_heap c2' = c_heap c2.
Proof.
  intros E. unfold cow_apply_cmp in E.
  refine (for_range_invariant (fun _ (st : cow * cow * mem) => c_heap st.1.1 = c_heap c1 /\ c_heap st.1.2 = c_heap c2) _ _ _ _ _ _ _ E); [done|].
  intros i [[d1 d2] mm] [[d1' d2'] mm'] _ [Hh1 Hh2] Eb. cbn [fst snd] in *. apply bind_Ret in Eb as (n1 & _ & Eb). apply bind_Ret in Eb as (n2 & _ & Eb).
  apply bind_Ret in Eb as (u & _ & Eb). destruct (n1 =? 0)%nat; [by injection Eb as <- <- _|]. apply bind_Ret in Eb as (m2 & _ & Eb).
  apply bind_Ret in Eb as (d2'' & E2 & Eb). apply bind_Ret in Eb as (d1'' & E1 & Eb). injection Eb as <- <- _. unfold set_csize in *.
  apply bind_Ret in E1 as (z1 & _ & [= <-]). apply bind_Ret in E2 as (z2 & _ & [= <-]). done.
Qed.

(** The table of a finished execution: applied to the memory it gives the one the
    execution left. *)
Definition table_done (hp : heap) c m M : Prop := exists Wd, cow_rel c Wd /\ c_heap c = hp /\ overlay hp Wd m M.

Lemma table_swapped hp ws m0 c m c' m' : COW_WT = true -> table_state hp ws m0 c m -> cow_swap c m = Ret (c', m') ->
  m' ≈ m0 /\ table_done hp c' m' (replay ws m0).
Proof.
  intros Ewt (Wd & Hc & <- & Hm) E. rewrite Ewt in Hm. destruct Hm as [-> Ho].
  destruct (cow_swap_ok Ewt c Wd _ m0 Hc Ho) as (c1 & m1 & W1 & E1 & Hm1 & Hh1 & Hc1 & Ho1 & _). rewrite E in E1. injection E1 as -> ->.
  split; [done|]. by exists W1.
Qed.

Lemma table_committed hp c0 c1 m2 m3 M0 ws1 d0 d1 m' : table_done hp c0 m2 M0 -> table_state hp ws1 m2 c1 m3 ->
  cow_apply_cmp c0 c1 m3 = Ret (d0, d1, m') ->
  m' ≈ M0 /\ m' ≈ replay ws1 m2 /\ cow_rel d0 ∅ /\ cow_rel d1 ∅ /\ c_heap d0 = hp /\ c_heap d1 = hp.
Proof.
  intros (W0 & Hc0 & Hh0 & Ho0) (W1 & Hc1 & Hh1 & Hm) E. destruct (cow_apply_cmp_heap _ _ _ _ _ _ E) as [Hd0 Hd1].
  destruct COW_WT eqn:Ewt; destruct Hm as [-> Ho1].
  - destruct (cow_apply_cmp_wt Ewt _ _ _ _ _ _ _ _ Hc0 Hc1 E) as (-> & Hmat & ? & ?).
    split_and!; [by eapply (matches_mem_eq Ewt c0 c1 W0 W1)|done|done|done|congruence|congruence].
  - destruct (cow_apply_cmp_inv c0 c1 W0 W1 m2 M0 _ hp Ewt Hc0 Hc1 Hh0 Hh1 Ho0 Ho1 _ _ _ E) as (? & ? & ? & ?). split_and!; congruence || done.
Qed.
End Table.

Section Run.
Context `{Build} `{CowBuild} {S W : Type} `{AllocatorLaws S}.
Context (crc32c : Z -> Z -> list Z -> Z).
Context (crc_run : Z -> nat -> Z -> list Z -> Z).
Context (call : Z -> list Z -> W -> W).
Context (hp : heap).
Implicit Types (ts : tsei S W) (ops : list op).

(** [ts] is the state after executing [ops] in phase [p] from [ts0]: the components as
    in the default build, without writes and apart from the memory, and the table. *)
Record tab_phase ts0 (p : nat) ops ts : Prop := {
  tp_drv : phase_state (t_drv ts0) p (others ops) (with_mem (t_drv ts) (s_mem (t_drv ts0)));
  tp_tab : exists c, t_tabs ts = <[p := c]> (t_tabs ts0) /\ table_state hp (writes ops) (s_mem (t_drv ts0)) c (s_mem (t_drv ts));
  tp_lt : (p < length (t_tabs ts0))%nat;
}.

Lemma tab_phase_op ts0 p ops o ts ts' : tab_phase ts0 p ops ts -> Forall (wr_ok hp) (writes [o]) -> tab_op crc32c o ts = Ret ts' ->
  tab_phase ts0 p (ops ++ [o]) ts'.
Proof.
  intros [Hdrv (c & Htabs & Htab) Hlt] Hok E. destruct (is_write o) eqn:Ew.
  - destruct o; try discriminate Ew. cbn [tab_op] in E. unfold tab_write in E. rewrite (ps_p _ _ _ _ Hdrv : s_p (t_drv ts) = _) in E.
    apply bind_Ret in E as (u & _ & E). apply bind_Ret in E as (c1 & Ec & E). apply bind_Ret in E as ([c2 m2] & Ewr & E). apply bind_Ret in E as (tabs & Es & [= <-]).
    rewrite arr_getZ_nat in Ec. apply arr_get_Ret in Ec. rewrite Htabs, list_lookup_insert_eq in Ec by done. injection Ec as <-.
    rewrite arr_setZ_nat, arr_set_lt in Es by (by rewrite Htabs, length_insert). injection Es as <-. split; [| |done].
    + rewrite others_app. replace (others [OWrite t addr value]) with (@nil op) by done. rewrite app_nil_r. exact Hdrv.
    + exists c2. cbn. rewrite Htabs, list_insert_insert_eq. split; [done|]. unfold writes. rewrite omap_app.
      eapply table_state_write; [exact Htab| |exact Ewr]. by apply Forall_cons in Hok as [? _].
  - assert (E' : (s ← exec_op crc32c o (t_drv ts); Ret (with_drv ts s)) = Ret ts') by (by destruct o). clear E. apply bind_Ret in E' as (s1 & E & [= <-]).
    destruct (exec_op_mem crc32c o _ _ (s_mem (t_drv ts0)) Ew E) as [Hm E1]. split; [| |done].
    + rewrite others_app. replace (others [o]) with [o] by (destruct o; done). cbn. eapply phase_state_op; [exact Hdrv|exact E1].
    + exists c. cbn. rewrite Hm. split; [done|]. unfold writes. rewrite omap_app. replace (omap _ [o]) with (@nil wr) by (by destruct o). by rewrite app_nil_r.
Qed.

Lemma tab_phase_ops ts0 p ops' : forall ops ts ts', tab_phase ts0 p ops ts -> Forall (wr_ok hp) (writes ops') -> tab_ops crc32c ops' ts = Ret ts' ->
  tab_phase ts0 p (ops ++ ops') ts'.
Proof.
  induction ops' as [|o ops' IH]; intros ops ts ts' Hp Hok E; cbn [tab_ops] in E; [injection E as <-; by rewrite app_nil_r|].
  apply bind_Ret in E as (ts1 & E1 & E). change (o :: ops') with ([o] ++ ops') in Hok |- *. unfold writes in Hok. rewrite omap_app in Hok. apply Forall_app in Hok as [Ho Hok].
  rewrite app_assoc. eapply IH; [|exact Hok|exact E]. by eapply tab_phase_op.
Qed.

(** Between transactions. *)
Record tab_idle ts : Prop := {
  ti_drv : idle (t_drv ts);
  ti_len : length (t_tabs ts) = SEI_DMR_MAX_REDUNDANCY;
  ti_tab : forall i, (i < s_redundancy_level (t_drv ts))%nat -> exists c, t_tabs ts !! i = Some c /\ cow_rel c ∅ /\ c_heap c = hp;
}.

Lemma with_mem_id (s : sei S W) : with_mem s (s_mem s) = s.
Proof. by destruct s. Qed.

Lemma sei_wf_mem (s : sei S W) m : sei_wf (with_mem s m) <-> sei_wf s.
Proof. split; intros []; by split. Qed.

(** The start of an execution with an empty table. *)
Lemma tab_phase_start ts p a c : sei_wf (t_drv ts) -> s_p (t_drv ts) = Z.of_nat p -> (p < s_redundancy_level (t_drv ts))%nat -> ta_p (s_talloc (t_drv ts)) = p ->
  s_cow (t_drv ts) !! p = Some a -> log_rel a [] -> poped a = 0%nat -> t_tabs ts !! p = Some c -> cow_rel c ∅ -> c_heap c = hp -> tab_phase ts p [] ts.
Proof.
  intros. split.
  - rewrite with_mem_id. by eapply phase_state_start.
  - exists c. rewrite list_insert_id by done. split; [done|]. by apply table_state_start.
  - by eapply lookup_lt_Some.
Qed.

(** The switch after the first execution. *)
Lemma tab_switch_inv ts0 ops ts ts' : tab_phase ts0 0 ops ts -> (1 < s_redundancy_level (t_drv ts0))%nat -> tab_switch crc_run ts = Ret ts' ->
  exists c, s_mem (t_drv ts') ≈ s_mem (t_drv ts0) /\ t_tabs ts' = <[0%nat := c]> (t_tabs ts0) /\
    table_done hp c (s_mem (t_drv ts')) (replay (writes ops) (s_mem (t_drv ts0))) /\
    sei_wf (t_drv ts') /\ s_p (t_drv ts') = 1 /\ s_redundancy_level (t_drv ts') = s_redundancy_level (t_drv ts0) /\
    ta_p (s_talloc (t_drv ts')) = 1%nat /\ (forall q, count (s_talloc (t_drv ts')) q = count (s_talloc (t_drv ts)) q) /\
    s_tbin (t_drv ts') = s_tbin (t_drv ts) /\ s_wts (t_drv ts') = s_wts (t_drv ts) /\ s_world (t_drv ts') = s_world (t_drv ts) /\
    s_cow (t_drv ts') = s_cow (t_drv ts).
Proof.
  intros [Hdrv (c & Htabs & Htab) Hlt] Hlv E. unfold tab_switch in E. apply bind_Ret in E as (s1 & E1 & E).
  pose proof (proj1 (sei_wf_mem _ _) (ps_wf _ _ _ _ Hdrv)) as Hwf.
  pose proof (ps_level _ _ _ _ Hdrv : s_redundancy_level (t_drv ts) = _) as Hlv'.
  destruct (switch_common_inv crc_run 0 (t_drv ts) s1 Hwf (ps_p _ _ _ _ Hdrv) (ps_tp _ _ _ _ Hdrv)) as (Hwf1 & Hp1 & Hlv1 & Htp & Hts & Htb & Hwt & _ & Hw & Hm & Hcow);
    [lia|exact E1|]. rewrite Hlv' in Hlv1.
  assert (Hcnt : forall q, count (s_talloc s1) q = count (s_talloc (t_drv ts)) q) by (intros; unfold count; by rewrite Hts).
  destruct COW_WT eqn:Ewt.
  - rewrite Hp1, Hm in E. change (Z.of_nat (0 + 1) - 1) with (Z.of_nat 0) in E. apply bind_Ret in E as (c1 & Ec & E). apply bind_Ret in E as ([c2 m2] & Esw & E).
    apply bind_Ret in E as (tabs & Es & [= <-]). rewrite arr_getZ_nat in Ec. apply arr_get_Ret in Ec. rewrite Htabs, list_lookup_insert_eq in Ec by done. injection Ec as <-.
    rewrite arr_setZ_nat, arr_set_lt in Es by (by rewrite Htabs, length_insert). injection Es as <-.
    destruct (table_swapped hp _ _ _ _ _ _ Ewt Htab Esw) as [Hm2 Hdone]. exists c2. cbn. rewrite Htabs, list_insert_insert_eq.
    split_and!; try done. exact (proj2 (sei_wf_mem s1 m2) Hwf1).
  - injection E as <-. destruct Htab as (Wd & Hc & Hh & Htab). rewrite Ewt in Htab. destruct Htab as [Em Ho]. exists c. cbn. rewrite Hm, Em.
    rewrite Em in Ho. split_and!; try done. by exists Wd.
Qed.

(** The commit of two tables. *)
Lemma tab_commit_inv ts ts' c0 c1 m2 M0 ws1 : s_redundancy_level (t_drv ts) = 2%nat -> sei_wf (t_drv ts) -> t_tabs ts !! 0%nat = Some c0 -> t_tabs ts !! 1%nat = Some c1 ->
  (forall i, (i < 2)%nat -> exists a, s_cow (t_drv ts) !! i = Some a /\ log_rel a [] /\ poped a = 0%nat) ->
  table_done hp c0 m2 M0 -> table_state hp ws1 m2 c1 (s_mem (t_drv ts)) -> length (t_tabs ts) = SEI_DMR_MAX_REDUNDANCY ->
  tab_commit crc_run call ts = Ret ts' ->
  s_mem (t_drv ts') ≈ M0 /\ s_mem (t_drv ts') ≈ replay ws1 m2 /\ tab_idle ts' /\
  exists m, let s := t_drv ts in let s' := t_drv ts' in s_mem s' = m /\
    wts_agree (s_wts s) /\ tbin_agree (s_tbin s) /\ NoDup (freed (s_tbin s) 0) /\ count (s_talloc s) 1 = count (s_talloc s) 0 /\
    s_world s' = run_calls call (take (nth 0 (w_nitems (s_wts s)) 0%nat) (w_items (s_wts s))) (s_world s).
Proof.
  intros Hlv Hwf Hc0 Hc1 Hcows Hdone Hst Hlen E. unfold tab_commit in E. rewrite Hlv in E. apply bind_Ret in E as ([ok cf] & Ecf & E). apply bind_Ret in E as (u & _ & E).
  apply bind_Ret in E as ([tabs m] & Et & E). apply bind_Ret in E as (s1 & Ef & [= <-]). apply cf_gates_length in Ecf. cbn [with_p s_cf s_mem] in Ecf, Et.
  unfold apply_tabs in Et. cbn [Nat.sub for_range] in Et. apply bind_Ret in Et as ([tabs' m'] & Et & [= <- <-]).
  rewrite (proj2 (arr_get_Ret _ _ _) Hc0), bind_Ret_l, (proj2 (arr_get_Ret _ _ _) Hc1), bind_Ret_l in Et. apply bind_Ret in Et as ([[d0 d1] mm] & Ecmp & Et).
  destruct (table_committed hp _ _ _ _ _ _ _ _ _ Hdone Hst Ecmp) as (HM & Hr & Hd0 & Hd1 & Hh0 & Hh1).
  pose proof Hlen as Hl10. unfold SEI_DMR_MAX_REDUNDANCY in Hl10.
  rewrite arr_set_lt, bind_Ret_l, arr_set_lt, bind_Ret_l in Et by (rewrite ?length_insert; lia). injection Et as <- <-.
  destruct (commit_flush_inv crc_run call None (with_mem (with_cf (with_p (t_drv ts) (-1)) cf) mm) s1) as (Em & Hw & Hb & Hnd & _ & _ & Hcnt & Hworld & Hidle);
    [destruct Hwf; split; cbn; congruence|done|cbn; rewrite Hlv; exact Hcows|exact Ef|].
  cbn in Em, Hw, Hb, Hnd, Hcnt, Hworld. cbn [t_drv t_tabs]. rewrite Em. split_and!; [done|done| |exists mm; split_and!; try done; apply Hcnt; lia].
  assert (Hlv' : s_redundancy_level s1 = 2%nat).
  { clear -Ef Hlv. unfold commit_flush in Ef. apply bind_Ret in Ef as ([? ?] & _ & Ef). apply bind_Ret in Ef as ([? ?] & _ & Ef). apply bind_Ret in Ef as (? & _ & Ef).
    apply bind_Ret in Ef as (? & _ & Ef). apply bind_Ret in Ef as (? & Eo & Ef). apply cur_obuf_frame in Eo as [os ->].
    apply bind_Ret in Ef as (? & _ & Ef). apply bind_Ret in Ef as ([? ?] & _ & Ef). apply bind_Ret in Ef as (? & _ & [= <-]). exact Hlv. }
  split; cbn; [done|by rewrite !length_insert|]. rewrite Hlv'. intros [|[|i]] Hi; [| |lia].
  - exists d0. rewrite list_lookup_insert_ne, list_lookup_insert_eq by (done || lia). done.
  - exists d1. rewrite list_lookup_insert_eq by (rewrite length_insert; lia). done.
Qed.

(** The state the commit finds. *)
Lemma tab_executions_inv ops0 ops1 ts ts4 : tab_idle ts -> s_redundancy_level (t_drv ts) = 2%nat ->
  Forall (wr_ok hp) (writes ops0) -> Forall (wr_ok hp) (writes ops1) ->
  (ts ← tab_begin ts; ts ← tab_ops crc32c ops0 ts; ts ← tab_switch crc_run ts; tab_ops crc32c ops1 ts) = Ret ts4 ->
  exists m2 c0 c1, m2 ≈ s_mem (t_drv ts) /\ s_redundancy_level (t_drv ts4) = 2%nat /\ sei_wf (t_drv ts4) /\
    t_tabs ts4 !! 0%nat = Some c0 /\ t_tabs ts4 !! 1%nat = Some c1 /\
    (forall i, (i < 2)%nat -> exists a, s_cow (t_drv ts4) !! i = Some a /\ log_rel a [] /\ poped a = 0%nat) /\
    table_done hp c0 m2 (replay (writes ops0) (s_mem (t_drv ts))) /\ table_state hp (writes ops1) m2 c1 (s_mem (t_drv ts4)) /\
    length (t_tabs ts4) = SEI_DMR_MAX_REDUNDANCY /\ s_world (t_drv ts4) = s_world (t_drv ts) /\
    forall q, (q < 2)%nat -> freed (s_tbin (t_drv ts4)) q = (if (q =? 1)%nat then frees ops1 else frees ops0) /\
      queued (s_wts (t_drv ts4)) q = (if (q =? 1)%nat then calls ops1 else calls ops0) /\
      count (s_talloc (t_drv ts4)) q = (if (q =? 1)%nat then mallocs ops1 else mallocs ops0).
Proof.
  intros Hti Hlv Hok0 Hok1 E. pose proof (ti_drv _ Hti) as Hs. pose proof (id_wf _ Hs) as Hwf. pose proof (sw_dmr _ Hwf).
  apply bind_Ret in E as (ts1 & E1 & E). apply bind_Ret in E1 as (s1 & Eb & [= <-]). destruct (sei_begin_idle _ Hs) as (cf & Eb' & _ & _ & Hp0). rewrite Eb in Eb'.
  injection Eb' as ->. set (s1 := with_cf (with_p (t_drv ts) 0) cf) in *. apply bind_Ret in E as (ts2 & E2 & E). apply bind_Ret in E as (ts3 & E3 & E).
  destruct (id_cow _ Hs 0%nat ltac:(lia)) as (a0 & Ha0 & Hr0 & Hpo0). destruct (id_cow _ Hs 1%nat ltac:(lia)) as (a1 & Ha1 & Hr1 & Hpo1).
  destruct (ti_tab _ Hti 0%nat ltac:(lia)) as (c0 & Hc0 & Hrel0 & Hh0). destruct (ti_tab _ Hti 1%nat ltac:(lia)) as (c1 & Hc1 & Hrel1 & Hh1).
  assert (Hph0 : tab_phase (with_drv ts s1) 0 [] (with_drv ts s1)).
  { eapply (tab_phase_start _ 0 a0 c0); cbn; try done; [apply (ps_wf _ _ _ _ Hp0)|lia|apply (id_tp _ Hs)]. }
  apply (tab_phase_ops _ _ _ _ _ _ Hph0 Hok0) in E2. cbn [app] in E2.
  destruct (tab_switch_inv _ _ _ _ E2 ltac:(cbn; lia) E3) as (c0' & Hm3 & Ht3 & Hdone & Hwf3 & Hp3 & Hlv3 & Htp3 & Hcnt3 & Htb3 & Hwt3 & Hw3 & Hcow3).
  destruct E2 as [Hd2 _ _]. cbn [with_drv t_drv t_tabs] in *. destruct (ps_log _ _ _ _ Hd2) as (a0' & Hcow2 & Hpo0' & Hr0'). cbn in Hcow2.
  rewrite (proj1 (others_proj ops0)) in Hr0'. cbn in Hr0'. pose proof (lookup_lt_Some _ _ _ Ha0). pose proof (lookup_lt_Some _ _ _ Hc0).
  assert (Hph1 : tab_phase ts3 1 [] ts3).
  { eapply (tab_phase_start ts3 1 a1 c1); try done; [rewrite Hlv3; cbn; lia| |].
    - by rewrite Hcow3, Hcow2, list_lookup_insert_ne.
    - by rewrite Ht3, list_lookup_insert_ne. }
  rename E into E4. apply (tab_phase_ops _ _ _ _ _ _ Hph1 Hok1) in E4. cbn [app] in E4.
  destruct E4 as [Hd4 (c1' & Ht4 & Hst4) _]. destruct (ps_log _ _ _ _ Hd4) as (a1' & Hcow4 & Hpo1' & Hr1'). cbn in Hcow4.
  rewrite (proj1 (others_proj ops1)) in Hr1'. cbn in Hr1'. pose proof (lookup_lt_Some _ _ _ Hc1). pose proof (lookup_lt_Some _ _ _ Ha1).
  pose proof (proj1 (sei_wf_mem _ _) (ps_wf _ _ _ _ Hd4)) as Hwf4.
  assert (Hlv4 : s_redundancy_level (t_drv ts4) = 2%nat) by (rewrite (ps_level _ _ _ _ Hd4 : s_redundancy_level (t_drv ts4) = _), Hlv3; done).
  exists (s_mem (t_drv ts3)), c0', c1'. split; [done|]. split; [done|]. split; [done|]. split_and!.
  - rewrite Ht4, list_lookup_insert_ne, Ht3, list_lookup_insert_eq by (done || lia). done.
  - rewrite Ht4, list_lookup_insert_eq by (rewrite Ht3, length_insert; lia). done.
  - intros [|[|i]] Hi; [| |lia].
    + exists a0'. rewrite Hcow4, list_lookup_insert_ne, Hcow3, Hcow2, list_lookup_insert_eq by (done || lia). done.
    + exists a1'. rewrite Hcow4, list_lookup_insert_eq by (rewrite Hcow3, Hcow2, length_insert; lia). done.
  - done.
  - done.
  - by rewrite Ht4, Ht3, !length_insert, (ti_len _ Hti).
  - rewrite (ps_world _ _ _ _ Hd4 : s_world (t_drv ts4) = _), Hw3, (ps_world _ _ _ _ Hd2 : s_world (t_drv ts2) = _). done.
  - destruct (others_proj ops0) as (_ & Of0 & Oc0 & Om0). destruct (others_proj ops1) as (_ & Of1 & Oc1 & Om1).
    intros q Hq. pose proof (ps_freed _ _ _ _ Hd4 q) as F4. pose proof (ps_queued _ _ _ _ Hd4 q) as Q4. pose proof (ps_count _ _ _ _ Hd4 q) as C4.
    pose proof (ps_freed _ _ _ _ Hd2 q) as F2. pose proof (ps_queued _ _ _ _ Hd2 q) as Q2. pose proof (ps_count _ _ _ _ Hd2 q) as C2.
    cbn [with_mem s_tbin s_wts s_talloc] in *. rewrite Of1, Htb3, F2, Of0 in F4. rewrite Oc1, Hwt3, Q2, Oc0 in Q4. rewrite Om1, Hcnt3, C2, Om0 in C4.
    cbn [s1 with_cf with_p s_tbin s_wts s_talloc] in F4, Q4, C4. rewrite (id_freed _ Hs) in F4 by lia. rewrite (id_queued _ Hs) in Q4 by lia. rewrite (id_count _ Hs) in C4 by lia.
    destruct q as [|[|q]]; [| |lia]; repeat case_decide; try lia; cbn [Nat.eqb]; rewrite ?app_nil_l in *; split_and!; first [congruence | lia].
Qed.

(** C5.  Soundness of the driver on hash tables, written through or written back:
    whatever the two executions did, a transaction that returns has left the memory
    each execution alone would have left, with equal frees, calls and allocation
    counts, the calls executed once, and every table is empty again.  (Writes are
    aligned and in the address range of the tables, as these require: only the debug
    build refuses others; the executions may write an object any number of
    times and with any widths.) *)
Theorem tab_transaction_sound ops0 ops1 ts ts' : tab_idle ts -> s_redundancy_level (t_drv ts) = 2%nat ->
  Forall (wr_ok hp) (writes ops0) -> Forall (wr_ok hp) (writes ops1) ->
  tab_transaction crc32c crc_run call ops0 ops1 ts = Ret ts' ->
  s_mem (t_drv ts') ≈ replay (writes ops0) (s_mem (t_drv ts)) /\ s_mem (t_drv ts') ≈ replay (writes ops1) (s_mem (t_drv ts)) /\
  frees ops0 = frees ops1 /\ NoDup (frees ops0) /\ mallocs ops0 = mallocs ops1 /\ calls ops0 = calls ops1 /\
  (exists items, call_of 0 <$> items = calls ops0 /\ s_world (t_drv ts') = run_calls call items (s_world (t_drv ts))) /\
  tab_idle ts'.
Proof.
  intros Hti Hlv Hok0 Hok1 E. pose proof (sw_dmr _ (id_wf _ (ti_drv _ Hti))). unfold tab_transaction in E.
  apply bind_Ret in E as (ts1 & E1 & E). apply bind_Ret in E as (ts2 & E2 & E). apply bind_Ret in E as (ts3 & E3 & E). apply bind_Ret in E as (ts4 & E4 & E).
  destruct (tab_executions_inv ops0 ops1 ts ts4 Hti Hlv Hok0 Hok1) as (m2 & c0 & c1 & Hm2 & Hlv4 & Hwf4 & Hc0 & Hc1 & Hcows & Hdone & Hst & Hlen & Hw4 & Hrec);
    [by rewrite E1, bind_Ret_l, E2, bind_Ret_l, E3, bind_Ret_l|].
  destruct (tab_commit_inv ts4 ts' c0 c1 _ _ _ Hlv4 Hwf4 Hc0 Hc1 Hcows Hdone Hst Hlen E) as (HM0 & HM1 & Hidle & m & Em & [Hwag _] & [Hbag _] & Hnd & Hcnt & Hworld).
  destruct (Hrec 0%nat ltac:(lia)) as (F0 & Q0 & C0). destruct (Hrec 1%nat ltac:(lia)) as (F1 & Q1 & C1). cbn in F0, Q0, C0, F1, Q1, C1.
  split_and!; try done.
  - by rewrite HM1, Hm2.
  - rewrite <- F0, <- F1. symmetry. apply Hbag. rewrite (proj2 (sw_tbin _ Hwf4)). lia.
  - by rewrite <- F0.
  - congruence.
  - rewrite <- Q0, <- Q1. symmetry. apply Hwag. lia.
  - eexists. split; [by rewrite <- Q0|]. by rewrite Hworld, Hw4.
Qed.
End Run.

(** ** Start-up *)

Lemma tab_init_idle `{Build} `{CowBuild} {S W : Type} `{AllocatorLaws S} hp m (al : S) (w : W) pr : base_ok hp ->
  (2 <= SEI_DMR_REDUNDANCY <= SEI_DMR_MAX_REDUNDANCY)%nat ->
  exists ts, tab_init hp m al w pr = Ret ts /\ tab_idle hp ts /\ s_redundancy_level (t_drv ts) = SEI_DMR_REDUNDANCY /\ s_mem (t_drv ts) = m.
Proof.
  intros Hb Hd. destruct (sei_init_idle m al w pr Hd) as (s & E & Hs & Hlv & Hm). unfold tab_init. rewrite E, bind_Ret_l.
  eexists. split; [done|]. split_and!; [|done|done]. split; cbn [t_drv t_tabs]; [done|apply length_replicate|].
  intros i Hi. exists (cow_init hp COW_SIZE). rewrite lookup_replicate_2 by (pose proof (sw_level _ (id_wf _ Hs)); lia).
  split_and!; [done|apply cow_init_rel; [done|unfold COW_SIZE; lia]|done].
Qed.

(** ** More than two executions *)

Section Three.
Context `{Build} `{CowBuild}.
Implicit Types (c : cow) (m : mem).

(** An accepted comparison empties both tables, which had the same sizes. *)
Lemma cow_apply_cmp_sizes c1 c2 W1 W2 m d1 d2 m' : cow_rel c1 W1 -> cow_rel c2 W2 -> cow_apply_cmp c1 c2 m = Ret (d1, d2, m') ->
  cow_rel d1 ∅ /\ forall i, (i < COW_MAX)%nat -> csize c1 i = csize c2 i /\ csize d1 i = 0%nat.
Proof.
  intros Hc1 Hc2 E. pose proof (proj1 Hc1) as Hwf1. pose proof (proj1 Hc2) as Hwf2. unfold cow_apply_cmp in E.
  apply (for_range_invariant (fun i (st : cow * cow * mem) => zeroed c1 i st.1.1 /\ zeroed c2 i st.1.2 /\
    forall i', (i' < i)%nat -> csize c1 i' = csize c2 i')) in E.
  - cbn [fst snd] in E. destruct E as (Hz1 & _ & Hs). split; [exact (zeroed_all _ _ _ Hc1 Hz1)|].
    intros i Hi. split; [apply Hs; lia|]. by rewrite (ze_size _ _ _ Hz1), decide_True by lia.
  - cbn. split_and!; [apply zeroed_0|apply zeroed_0|lia].
  - clear E d1 d2 m'. intros i [[d1 d2] mm] [[d1' d2'] mm'] Hi (Hz1 & Hz2 & Hs) E. cbn [fst snd] in *.
    rewrite (arr_get_nth 0%nat (c_sizes d1)), bind_Ret_l in E by (rewrite (ze_len _ _ _ Hz1), (cw_sizes _ Hwf1); lia).
    rewrite (arr_get_nth 0%nat (c_sizes d2)), bind_Ret_l in E by (rewrite (ze_len _ _ _ Hz2), (cw_sizes _ Hwf2); lia).
    fold (csize d1 i) (csize d2 i) in E. rewrite (ze_size _ _ _ Hz1), (ze_size _ _ _ Hz2), !decide_False in E by lia.
    apply bind_Ret in E as (u & Hn & E). apply fail_ifn_Ret, Nat.eqb_eq in Hn.
    assert (Hs' : forall i', (i' < i + 1)%nat -> csize c1 i' = csize c2 i').
    { intros i' Hi'. destruct (decide (i' = i)) as [->|]; [done|]. apply Hs. lia. }
    destruct (Nat.eqb_spec (csize c1 i) 0) as [Hz|Hnz].
    + injection E as <- <- <-. split_and!; [by apply zeroed_skip|by apply zeroed_skip; congruence|done].
    + apply bind_Ret in E as (m2 & _ & E). apply bind_Ret in E as (d2'' & E2 & E). apply bind_Ret in E as (d1'' & E1 & E).
      injection E as <- <- <-. split_and!; [by eapply zeroed_step|by eapply zeroed_step|done].
Qed.

Context {S W : Type} `{Allocator S}.
Context (crc_run : Z -> nat -> Z -> list Z -> Z).
Context (call : Z -> list Z -> W -> W).

(** With three or more executions the commit cannot succeed once the third execution
    has written anything: the comparison with the second execution has already emptied
    the table of the first one. *)
Theorem tab_third_execution_rejected (ts ts' : tsei S W) c0 c1 c2 W0 W1 W2 : (3 <= s_redundancy_level (t_drv ts))%nat ->
  t_tabs ts !! 0%nat = Some c0 -> t_tabs ts !! 1%nat = Some c1 -> t_tabs ts !! 2%nat = Some c2 ->
  cow_rel c0 W0 -> cow_rel c1 W1 -> cow_rel c2 W2 -> W2 <> ∅ -> tab_commit crc_run call ts <> Ret ts'.
Proof.
  intros Hlv Hc0 Hc1 Hc2 Hr0 Hr1 Hr2 Hne E. unfold tab_commit in E. apply bind_Ret in E as ([ok cf] & _ & E). apply bind_Ret in E as (u & _ & E).
  apply bind_Ret in E as ([tabs m] & Et & _). unfold apply_tabs in Et. cbn [with_p s_mem] in Et.
  destruct (s_redundancy_level (t_drv ts)) as [|[|[|n]]]; [lia..|]. cbn [Nat.sub for_range Nat.add] in Et. apply bind_Ret in Et as ([tabs1 m1] & E1 & Et).
  rewrite (proj2 (arr_get_Ret _ _ _) Hc0), bind_Ret_l, (proj2 (arr_get_Ret _ _ _) Hc1), bind_Ret_l in E1. apply bind_Ret in E1 as ([[d0 d1] mm] & Ecmp & E1).
  destruct (cow_apply_cmp_sizes _ _ _ _ _ _ _ _ Hr0 Hr1 Ecmp) as [Hd0 Hz]. pose proof (lookup_lt_Some _ _ _ Hc0). pose proof (lookup_lt_Some _ _ _ Hc1).
  rewrite arr_set_lt, bind_Ret_l, arr_set_lt, bind_Ret_l in E1 by (rewrite ?length_insert; lia). injection E1 as <- <-.
  apply bind_Ret in Et as ([tabs2 m2] & E2 & _).
  set (l := <[1%nat := d1]> (<[0%nat := d0]> (t_tabs ts))) in E2.
  assert (Hl0 : l !! 0%nat = Some d0) by (unfold l; rewrite list_lookup_insert_ne by done; apply list_lookup_insert_eq; done).
  assert (Hl2 : l !! 2%nat = Some c2) by (unfold l; rewrite !list_lookup_insert_ne by done; done).
  rewrite (proj2 (arr_get_Ret _ _ _) Hl0), bind_Ret_l, (proj2 (arr_get_Ret _ _ _) Hl2), bind_Ret_l in E2. apply bind_Ret in E2 as ([[e0 e2] mm2] & Ecmp2 & _).
  destruct (cow_apply_cmp_sizes _ _ _ _ _ _ _ _ Hd0 Hr2 Ecmp2) as [_ Hz2]. apply Hne, map_empty. intros k. apply eq_None_not_Some. intros [w Hw].
  apply (proj2 Hr2) in Hw as [j [Hj _]]. destruct (Hz2 _ (HASH_lt k)) as [Hs _]. destruct (Hz _ (HASH_lt k)) as [_ Hs0]. lia.
Qed.
End Three.

(** ** Witnesses *)

Definition tab_demo_ops : list op := [OWrite uint32_t 100 7; OMalloc 24; OWrite uint8_t 103 9; OFree 16; OCall 5 [1; 2]; OWrite uint32_t 100 8].

Lemma tab_transaction_sound_witness :
  let _ := debug_build 2 in
  let _ := demo_wb in
  exists ts ts', tab_init no_heap ∅ demo_env_heap [] demo_proc = Ret ts /\
    tab_transaction crc32cSarwate demo_crc demo_call tab_demo_ops tab_demo_ops ts = Ret ts' /\
    s_mem (t_drv ts') ≈ replay (writes tab_demo_ops) (s_mem (t_drv ts)) /\ load 4 (s_mem (t_drv ts')) 100 = 8 /\ s_world (t_drv ts') = [5].
Proof.
  intros B C.
  assert (Hrun : (ts ← tab_init no_heap ∅ demo_env_heap [] demo_proc;
                  ts' ← tab_transaction crc32cSarwate demo_crc demo_call tab_demo_ops tab_demo_ops ts;
                  Ret (load 4 (s_mem (t_drv ts')) 100, s_world (t_drv ts'))) = Ret (8, [5])) by (vm_compute; reflexivity).
  apply bind_Ret in Hrun as (ts & E & Hrun). apply bind_Ret in Hrun as (ts' & E' & Hv). injection Hv as Hv1 Hv2.
  destruct (tab_init_idle no_heap (∅ : mem) demo_env_heap ([] : list Z) demo_proc) as (ts0 & E0 & Hidle & Hlv & _);
    [exact demo_base_ok|unfold SEI_DMR_MAX_REDUNDANCY; cbn; lia|].
  rewrite E in E0. injection E0 as <-.
  assert (Hok : Forall (wr_ok no_heap) (writes tab_demo_ops)).
  { unfold writes, tab_demo_ops. cbn. repeat (apply Forall_cons; split; [split; [reflexivity|split; [vm_compute; discriminate|vm_compute; reflexivity]]|]). apply Forall_nil_2. }
  destruct (tab_transaction_sound crc32cSarwate demo_crc demo_call no_heap tab_demo_ops tab_demo_ops ts ts' Hidle Hlv Hok Hok E') as (Hm & _).
  exists ts, ts'. split; [exact E|]. split; [exact E'|]. split; [exact Hm|]. split; [exact Hv1|exact Hv2].
Defined.

(** A handler that writes one word, executed three times without any fault. *)
Example tab_three_executions :
  let _ := debug_build 3 in
  let _ := demo_wb in
  let ops := [OWrite uint32_t 100 7] in
  (ts ← tab_init no_heap ∅ demo_env_heap ([] : list Z) demo_proc; ts ← tab_begin ts; ts ← tab_ops crc32cSarwate ops ts;
   ts ← tab_switch demo_crc ts; ts ← tab_ops crc32cSarwate ops ts; ts ← tab_switch demo_crc ts; ts ← tab_ops crc32cSarwate ops ts;
   tab_commit demo_crc demo_call ts) = Stop (SeiFail "cow sizes differ").
Proof. vm_compute. reflexivity. Qed.
