(* ===== verification/Blocks.v ===== *)
(** * Constructors and destructors: who owns which block

    The other files describe what the structures of the library hold; here are the
    blocks they live in.  A constructor is the sequence of its [malloc] calls and of
    the pointers it stores, a destructor the sequence of its [free] calls (src/abuf.c,
    src/cow.c, src/tbin.c, src/talloc.c, src/obuf.c, src/ibuf.c, src/stash.c,
    src/wts.c, src/heap.c and src/tbar.c); the contents written by the constructors are
    in the files of the components.

    An action threads the state of the allocator.  [tri P m Q] is a total triple over
    the set of live blocks: from a state in which the blocks [P] are live, besides any
    others, [m] returns and has replaced [P] by what [Q] says, without touching the
    others.  So a destructor that frees a block twice, or one it does not own, has no
    triple. *)

From S2P Require Import Prelude Alloc Cfc Obuf Tbin Cow Heap.

(** The structures allocated; their layout is the compiler's. *)
Inductive cstruct :=
  | sizeof_abuf_t | sizeof_abuf_entry_t | sizeof_cow_t | sizeof_cow_entry_t | sizeof_heap_t
  | sizeof_tbin_t | sizeof_tbin_item_t | sizeof_talloc_t | sizeof_obuf_t | sizeof_obuf_entry_t
  | sizeof_ibuf_t | sizeof_stash_t | sizeof_wts_t | sizeof_wts_item_t | sizeof_tbar_t
  | sizeof_tbar_item_t | sizeof_sei_t | sizeof_ptr.

(** [realloc] of the C library: the block keeps its place or moves. *)
Class Reallocator (S : Type) `{Allocator S} := al_realloc : S -> Z -> Z -> outcome (Z * S).
Class ReallocatorLaws (S : Type) `{Reallocator S} :=
  realloc_live : forall s p n, p ∈ al_live s -> exists q s', al_realloc s p n = Ret (q, s') /\
    q <> 0 /\ (q = p \/ q ∉ al_live s) /\ al_live s' = {[q]} ∪ (al_live s ∖ {[p]}).

(** The C library's allocator moves the block every time. *)
#[global] Instance libc_realloc : Reallocator libc := fun s p n =>
  '(q, s) ← al_malloc s n; s ← al_free s p; Ret (q, s).

#[global] Instance libc_realloc_laws : ReallocatorLaws libc.
Proof.
  intros s p n Hp. unfold al_realloc, libc_realloc.
  destruct (malloc_total s n) as (q & s1 & E1). rewrite E1, bind_Ret_l.
  destruct (malloc_fresh s n q s1 E1) as (Hq & Hf & Hl).
  destruct (free_live s1 p) as (s2 & E2 & Hl2); [rewrite Hl; set_solver|].
  rewrite E2, bind_Ret_l. exists q, s2. split_and!; [done..|by right|]. rewrite Hl2, Hl. set_solver.
Qed.

(** ** Actions *)

Definition act (S A : Type) : Type := S -> outcome (A * S).
#[global] Instance act_ret {S} : MRet (act S) := fun A a s => Ret (a, s).
#[global] Instance act_bind {S} : MBind (act S) := fun A B k m s => '(a, s) ← m s; k a s.

Lemma concat_single (l : list Z) : concat ((fun p => [p]) <$> l) = l.
Proof. induction l as [|p l IH]; [done|]. cbn. by f_equal. Qed.

(** Running a sequence. *)
Lemma act_run {S A B} (m : act S A) (k : A -> act S B) s a s' : m s = Ret (a, s') -> (m ≫= k) s = k a s'.
Proof. intros E. unfold mbind, act_bind. by rewrite E. Qed.
Lemma act_stop {S A B} (m : act S A) (k : A -> act S B) s e : m s = Stop e -> (m ≫= k) s = Stop e.
Proof. intros E. unfold mbind, act_bind. by rewrite E. Qed.

Section Actions.
Context {S : Type} `{AllocatorLaws S} `{!Reallocator S} `{!ReallocatorLaws S}.
Context `{Build}.

Definition malloc (n : Z) : act S Z := fun s => al_malloc s n.
Definition free (p : Z) : act S unit := fun s => s ← al_free s p; Ret (tt, s).
Definition realloc (p n : Z) : act S Z := fun s => al_realloc s p n.
Definition of_outcome {A} (o : outcome A) : act S A := fun s => a ← o; Ret (a, s).
(** [assert (p)] on a pointer. *)
Definition assert_ptr (p : Z) : act S unit := of_outcome (c_assert (negb (p =? 0))).

(** [for (i = 0; i < n; ++i) a[i] = m();] *)
Fixpoint times {A} (n : nat) (m : act S A) : act S (list A) :=
  match n with O => mret [] | Datatypes.S n' => x ← m; xs ← times n' m; mret (x :: xs) end.
(** [for (i = 0; i < n; ++i) m(a[i]);] *)
Fixpoint each {A} (m : A -> act S unit) (l : list A) : act S unit :=
  match l with [] => mret tt | x :: l' => m x ;; each m l' end.
(** Code under an [#ifdef]. *)
Definition when {A} (b : bool) (m : act S A) : act S (option A) :=
  if b then x ← m; mret (Some x) else mret None.
(** A member that an [#ifdef] leaves out, or that is guarded by [if (p)]. *)
Definition whenp {A} (m : A -> act S unit) (o : option A) : act S unit :=
  match o with Some x => m x | None => mret tt end.

(** ** Ownership *)

(** Exactly the blocks of the list are live. *)
Definition own (s : S) (l : list Z) : Prop := NoDup l /\ al_live s = list_to_set l.

Definition tri {A} (P : list Z) (m : act S A) (Q : A -> list Z -> Prop) : Prop :=
  forall s l, own s (P ++ l) -> exists a s' l', m s = Ret (a, s') /\ Q a l' /\ own s' (l' ++ l).

(** A constructor makes what the object owns; a destructor frees it. *)
Definition makes {A} (m : act S A) (fp : A -> list Z) (ok : A -> Prop) : Prop :=
  tri [] m (fun x l => l ≡ₚ fp x /\ ok x).
Definition frees (m : act S unit) (bs : list Z) : Prop := tri bs m (fun _ l => l = []).

#[global] Instance own_proper : Proper (eq ==> (≡ₚ) ==> iff) own.
Proof.
  intros s _ <- l l' Hl. unfold own. by rewrite Hl.
Qed.

#[global] Instance tri_proper {A} : Proper ((≡ₚ) ==> eq ==> eq ==> iff) (@tri A).
Proof. intros P P' HP m _ <- Q _ <-. unfold tri. by setoid_rewrite HP. Qed.

Lemma tri_weaken {A} P (m : act S A) (Q R : A -> list Z -> Prop) :
  tri P m Q -> (forall a l, Q a l -> R a l) -> tri P m R.
Proof. intros Hm HQ s l Hs. destruct (Hm s l Hs) as (a & s' & l' & E & Ha & Ho). exists a, s', l'. auto. Qed.

Lemma tri_ret {A} P (a : A) (Q : A -> list Z -> Prop) : Q a P -> tri P (mret a) Q.
Proof. intros HQ s l Hs. exists a, s, P. auto. Qed.

Lemma tri_bind {A B} P F L (m : act S A) (k : A -> act S B) Q R :
  tri P m Q -> L ≡ₚ P ++ F -> (forall a l, Q a l -> tri (l ++ F) (k a) R) -> tri L (m ≫= k) R.
Proof.
  intros Hm HL Hk s l Hs. rewrite HL, <- app_assoc in Hs. destruct (Hm s _ Hs) as (a & s1 & l1 & E1 & Ha & Hs1).
  rewrite app_assoc in Hs1. destruct (Hk a l1 Ha s1 l Hs1) as (b & s2 & l2 & E2 & Hb & Hs2).
  exists b, s2, l2. split; [|done]. unfold mbind, act_bind. rewrite E1. exact E2.
Qed.

(** The last action of a body. *)
Lemma tri_last {A} P F L (m : act S A) Q (R : A -> list Z -> Prop) :
  tri P m Q -> L ≡ₚ P ++ F -> (forall a l, Q a l -> R a (l ++ F)) -> tri L m R.
Proof.
  intros Hm HL HR s l Hs. rewrite HL, <- app_assoc in Hs. destruct (Hm s _ Hs) as (a & s1 & l1 & E1 & Ha & Hs1).
  exists a, s1, (l1 ++ F). rewrite <- app_assoc. auto.
Qed.

Lemma tri_malloc n : tri [] (malloc n) (fun p l => p <> 0 /\ l = [p]).
Proof.
  intros s l [Hn Hs]. destruct (malloc_total s n) as (p & s' & E).
  destruct (malloc_fresh s n p s' E) as (Hp & Hf & Hl). exists p, s', [p]. split_and!; [done..|].
  cbn in Hn, Hs |- *. split; [|by rewrite Hl, Hs]. constructor; [|done]. rewrite Hs in Hf. by rewrite elem_of_list_to_set in Hf.
Qed.

Lemma tri_free p : tri [p] (free p) (fun _ l => l = []).
Proof.
  intros s l [[Hp Hn]%NoDup_cons Hs]. cbn in Hs. destruct (free_live s p) as (s' & E & Hl); [set_solver|].
  exists tt, s', []. unfold free. rewrite E. split_and!; [done..|]. split; [done|]. rewrite Hl, Hs.
  apply set_eq. intros x. set_solver.
Qed.

Lemma tri_realloc p n : tri [p] (realloc p n) (fun q l => q <> 0 /\ l = [q]).
Proof.
  intros s l [[Hp Hn]%NoDup_cons Hs]. cbn in Hs. destruct (realloc_live s p n) as (q & s' & E & Hq & Hf & Hl); [set_solver|].
  exists q, s', [q]. split_and!; [done..|]. split.
  - constructor; [|done]. destruct Hf as [->|Hf]; [done|]. set_solver.
  - rewrite Hl, Hs. cbn. set_solver.
Qed.

Lemma tri_outcome {A} (a : A) P : tri P (of_outcome (Ret a)) (fun x l => x = a /\ l = P).
Proof. intros s l Hs. exists a, s, P. done. Qed.

Lemma tri_assert p P : p <> 0 -> tri P (assert_ptr p) (fun _ l => l = P).
Proof.
  intros Hp. unfold assert_ptr. rewrite (proj2 (Z.eqb_neq p 0) Hp). cbn [negb]. rewrite c_assert_true.
  eapply tri_weaken; [apply tri_outcome|]. by intros ? ? [_ ->].
Qed.

(** What a list of objects owns. *)
Lemma tri_times {A} (fp : A -> list Z) (ok : A -> Prop) (m : act S A) n :
  makes m fp ok ->
  makes (times n m) (fun xs => concat (fp <$> xs)) (fun xs => Forall ok xs /\ length xs = n).
Proof.
  intros Hm. induction n as [|n IH]; cbn [times]; [by apply tri_ret|].
  apply (tri_bind [] [] _ m _ _ _ Hm); [done|]. intros x l [Hlx Hx].
  apply (tri_bind [] (fp x) _ _ _ _ _ IH); [by rewrite app_nil_r, Hlx|]. intros xs l2 [Hl [Hxs Hn]].
  apply tri_ret. split; [|split; [by constructor|cbn; by rewrite Hn]]. rewrite Hl. cbn. apply Permutation_app_comm.
Qed.

Lemma tri_each {A} (fp : A -> list Z) (ok : A -> Prop) (m : A -> act S unit) xs :
  (forall x, ok x -> frees (m x) (fp x)) -> Forall ok xs ->
  frees (each m xs) (concat (fp <$> xs)).
Proof.
  intros Hm. induction 1 as [|x xs Hx Hxs IH]; cbn; [by apply tri_ret|].
  eapply tri_bind; [by apply Hm|done|]. by intros ? ? ->.
Qed.

Lemma tri_when {A} (fp : A -> list Z) (ok : A -> Prop) b (m : act S A) :
  makes m fp ok ->
  tri [] (when b m) (fun o l => l ≡ₚ default [] (fp <$> o) /\ (b = true <-> is_Some o) /\ (forall x, o = Some x -> ok x)).
Proof.
  intros Hm. unfold when. destruct b; [|apply tri_ret; split_and!; [done|split; [done|by intros []]|done]].
  apply (tri_bind [] [] _ m _ _ _ Hm); [done|]. intros x l [Hl Hx]. apply tri_ret. rewrite app_nil_r. cbn.
  split_and!; [done|split; [by eauto|done]|]. by intros y [= <-].
Qed.

Lemma tri_whenp {A} (fp : A -> list Z) (ok : A -> Prop) (m : A -> act S unit) o :
  (forall x, ok x -> frees (m x) (fp x)) -> (forall x, o = Some x -> ok x) ->
  frees (whenp m o) (default [] (fp <$> o)).
Proof. intros Hm Ho. destruct o as [x|]; cbn; [by apply Hm, Ho|by apply tri_ret]. Qed.

(** The same rules in front of a continuation. *)
Lemma tri_malloc_bind {A} L n (k : Z -> act S A) R :
  (forall p, p <> 0 -> tri (p :: L) (k p) R) -> tri L (malloc n ≫= k) R.
Proof. intros Hk. apply (tri_bind [] L _ _ _ _ _ (tri_malloc n)); [done|]. intros p l [Hp ->]. by apply Hk. Qed.

Lemma tri_free_bind {A} p F L (k : unit -> act S A) R :
  L ≡ₚ p :: F -> tri F (k tt) R -> tri L (free p ≫= k) R.
Proof. intros HL Hk. apply (tri_bind [p] F _ _ _ _ _ (tri_free p)); [done|]. by intros [] l ->. Qed.

Lemma tri_free_last p F L : L ≡ₚ p :: F -> tri L (free p) (fun _ l => l = F).
Proof. intros HL. apply (tri_last [p] F _ _ _ _ (tri_free p)); [done|]. by intros ? ? ->. Qed.

Lemma tri_assert_bind {A} p L (k : unit -> act S A) R : p <> 0 -> tri L (k tt) R -> tri L (assert_ptr p ≫= k) R.
Proof. intros Hp Hk. apply (tri_bind L [] _ _ _ _ _ (tri_assert p L Hp)); [by rewrite app_nil_r|]. intros [] l ->. by rewrite app_nil_r. Qed.

Lemma tri_outcome_bind {A B} (o : outcome A) a L (k : A -> act S B) R :
  o = Ret a -> tri L (k a) R -> tri L (of_outcome o ≫= k) R.
Proof.
  intros -> Hk. apply (tri_bind L [] _ _ _ _ _ (tri_outcome a L)); [by rewrite app_nil_r|].
  intros ? l [-> ->]. by rewrite app_nil_r.
Qed.

Lemma tri_ret_bind {A B} (a : A) L (k : A -> act S B) R : tri L (k a) R -> tri L (mret a ≫= k) R.
Proof. intros Hk s l Hs. exact (Hk s l Hs). Qed.

Lemma tri_realloc_bind {A} p n F L (k : Z -> act S A) R :
  L ≡ₚ p :: F -> (forall q, q <> 0 -> tri (q :: F) (k q) R) -> tri L (realloc p n ≫= k) R.
Proof. intros HL Hk. apply (tri_bind [p] F _ _ _ _ _ (tri_realloc p n)); [done|]. intros q l [Hq ->]. by apply Hk. Qed.

Lemma tri_makes_bind {A B} (m : act S A) fp ok L (k : A -> act S B) R :
  makes m fp ok -> (forall x, ok x -> tri (fp x ++ L) (k x) R) -> tri L (m ≫= k) R.
Proof. intros Hm Hk. apply (tri_bind [] L _ _ _ _ _ Hm); [done|]. intros x l [Hl Hx]. rewrite Hl. by apply Hk. Qed.

Lemma tri_frees_bind {B} (m : act S unit) bs F L (k : unit -> act S B) R :
  frees m bs -> L ≡ₚ bs ++ F -> tri F (k tt) R -> tri L (m ≫= k) R.
Proof. intros Hm HL Hk. apply (tri_bind bs F _ _ _ _ _ Hm HL). by intros [] l ->. Qed.

(** Freeing the blocks of a list. *)
Lemma tri_free_each ps F L (k : unit -> act S unit) R :
  L ≡ₚ ps ++ F -> tri F (k tt) R -> tri L (each free ps ≫= k) R.
Proof.
  intros HL Hk. eapply (tri_frees_bind _ ps F); [|done|done]. rewrite <- (concat_single ps) at 2. eapply (tri_each _ (fun _ => True)); [|by apply Forall_true]. intros x _. apply tri_free.
Qed.

End Actions.

(** One step of a constructor or destructor. *)
Ltac own_step :=
  lazymatch goal with
  | |- tri _ (malloc _ ≫= _) _ => apply tri_malloc_bind; intros ?p ?Hp
  | |- tri _ (assert_ptr _ ≫= _) _ => apply tri_assert_bind; [done|]
  | |- tri _ (mret _ ≫= _) _ => apply tri_ret_bind
  | |- tri _ (mret _) _ => apply tri_ret
  end.
Ltac own_steps := repeat own_step.

(** ** The objects: the block of the structure and the blocks it points to *)

Record abuf_obj := mk_abuf_obj { ab_self : Z; ab_buf : Z }.
Record cow_obj := mk_cow_obj { cw_self : Z; cw_table : list Z }.
Record heap_obj := mk_heap_obj { hp_self : Z; hp_free_list : Z }.
Record tbin_obj := mk_tbin_obj { tb_self : Z; tb_items : Z }.
Record obuf_obj := mk_obuf_obj { ob_self : Z; ob_entries : list Z }.
Record wts_obj := mk_wts_obj { wt_self : Z; wt_items : Z }.
Record tbar_obj := mk_tbar_obj { tr_self : Z; tr_items : Z; tr_global : option Z; tr_max : Z }.
(** A stash keeps pointers; what it holds is described by its first [st_c] items. *)
Record stash_obj (A : Type) := mk_stash_obj { sh_self : Z; sh_array : Z; sh_val : stash A }.
Arguments mk_stash_obj {A}.
Arguments sh_self {A}.
Arguments sh_array {A}.
Arguments sh_val {A}.

Section Objects.
Context {S : Type} `{AllocatorLaws S} `{!Reallocator S} `{!ReallocatorLaws S}.
Context `{Build} (sizeof : cstruct -> Z).

(** *** abuf *)

Definition abuf_init (max_size : Z) : act S abuf_obj :=
  abuf ← malloc (sizeof sizeof_abuf_t); assert_ptr abuf;;
  buf ← malloc (max_size * sizeof sizeof_abuf_entry_t); assert_ptr buf;;
  mret (mk_abuf_obj abuf buf).
Definition abuf_fini (a : abuf_obj) : act S unit := free (ab_buf a);; free (ab_self a).
(** The reallocation of the macro [ABUF_CHECK_SIZE]; [max_size] is the new capacity. *)
Definition abuf_grow (a : abuf_obj) (max_size : Z) : act S abuf_obj :=
  buf ← realloc (ab_buf a) (max_size * sizeof sizeof_abuf_entry_t);
  of_outcome (fail_ifn (negb (buf =? 0)) "no space left");;
  mret (mk_abuf_obj (ab_self a) buf).

(** *** cow *)

Definition cow_init (max_size : Z) : act S cow_obj :=
  cow ← malloc (sizeof sizeof_cow_t); assert_ptr cow;;
  table ← times COW_MAX (t ← malloc (max_size * sizeof sizeof_cow_entry_t); assert_ptr t;; mret t);
  mret (mk_cow_obj cow table).
Definition cow_fini (c : cow_obj) : act S unit := each free (cw_table c);; free (cw_self c).
(** The reallocation of the macro [COW_CHECK_SIZE(i)]. *)
Definition cow_grow (c : cow_obj) (i : nat) (max_size : Z) : act S cow_obj :=
  t ← of_outcome (arr_get (cw_table c) i);
  t ← realloc t (max_size * sizeof sizeof_cow_entry_t);
  table ← of_outcome (arr_set (cw_table c) i t);
  of_outcome (fail_ifn (negb (t =? 0)) "no space left");;
  mret (mk_cow_obj (cw_self c) table).

(** *** heap.  [posix_memalign] returns a block of its own like [malloc]. *)

Definition heap_init (size : Z) : act S heap_obj :=
  heap ← (if 0 <? size then
            of_outcome (c_assert (ALLOC_MAX_SIZE <? size));;
            malloc (sizeof sizeof_heap_t + size)
          else heap ← malloc (sizeof sizeof_heap_t); assert_ptr heap;; mret heap);
  free_list ← malloc (sizeof sizeof_ptr * NCLASS); assert_ptr free_list;;
  mret (mk_heap_obj heap free_list).
Definition heap_fini (h : heap_obj) : act S unit := free (hp_free_list h);; free (hp_self h).

(** *** tbin *)

Definition tbin_init (max_items : Z) : act S tbin_obj :=
  of_outcome (c_assert (0 <? max_items));;
  tbin ← malloc (sizeof sizeof_tbin_t); assert_ptr tbin;;
  items ← malloc (sizeof sizeof_tbin_item_t * max_items); assert_ptr items;;
  mret (mk_tbin_obj tbin items).
Definition tbin_fini (t : tbin_obj) : act S unit := assert_ptr (tb_self t);; free (tb_self t).

(** *** talloc and ibuf: one block each *)

Definition talloc_init : act S Z :=
  talloc ← malloc (sizeof sizeof_talloc_t); assert_ptr talloc;; mret talloc.
Definition talloc_fini (talloc : Z) : act S unit := assert_ptr talloc;; free talloc.

Definition ibuf_init : act S Z := malloc (sizeof sizeof_ibuf_t).
Definition ibuf_fini (ibuf : Z) : act S unit := free ibuf.

(** *** obuf.  The parameter [max_msgs] is not used. *)

Definition obuf_init (max_msgs : Z) : act S obuf_obj :=
  obuf ← malloc (sizeof sizeof_obuf_t);
  entries ← times SEI_DMR_REDUNDANCY (malloc (sizeof sizeof_obuf_entry_t * Z.of_nat MAX_MSGS));
  mret (mk_obuf_obj obuf entries).
Definition obuf_fini (o : obuf_obj) : act S unit := each free (ob_entries o);; free (ob_self o).

(** *** wts *)

Definition wts_init (max_items : Z) : act S wts_obj :=
  of_outcome (c_assert (0 <? max_items));;
  wts ← malloc (sizeof sizeof_wts_t); assert_ptr wts;;
  items ← malloc (sizeof sizeof_wts_item_t * max_items); assert_ptr items;;
  mret (mk_wts_obj wts items).
Definition wts_fini (w : wts_obj) : act S unit :=
  assert_ptr (wt_self w);; free (wt_items w);; free (wt_self w).

(** *** tbar *)

Definition tbar_init (max_threads : Z) (global : option Z) : act S tbar_obj :=
  tbar ← malloc (sizeof sizeof_tbar_t); assert_ptr tbar;;
  items ← malloc (sizeof sizeof_tbar_item_t * max_threads); assert_ptr items;;
  mret (mk_tbar_obj tbar items global max_threads).
Definition tbar_idup (orig : tbar_obj) : act S tbar_obj :=
  assert_ptr (tr_self orig);; of_outcome (c_assert (bool_decide (is_Some (tr_global orig))));;
  tbar ← malloc (sizeof sizeof_tbar_t); assert_ptr tbar;;
  items ← malloc (sizeof sizeof_tbar_item_t * tr_max orig); assert_ptr items;;
  mret (mk_tbar_obj tbar items (tr_global orig) (tr_max orig)).
Definition tbar_fini (t : tbar_obj) : act S unit :=
  assert_ptr (tr_self t);; assert_ptr (tr_items t);; free (tr_items t);; free (tr_self t).

(** *** stash *)

Section Stash.
Context {A : Type} (null : A).

Definition stash_init : act S (stash_obj A) :=
  stash ← malloc (sizeof sizeof_stash_t); assert_ptr stash;;
  array ← malloc (sizeof sizeof_ptr * Z.of_nat STASH_INITIAL_SIZE); assert_ptr array;;
  mret (mk_stash_obj stash array (Cfc.stash_init null)).
Definition stash_fini (st : stash_obj A) : act S unit :=
  assert_ptr (sh_self st);; assert_ptr (sh_array st);; free (sh_array st);; free (sh_self st).

Definition stash_extend (st : stash_obj A) : act S (stash_obj A) :=
  array ← realloc (sh_array st) (sizeof sizeof_ptr * Z.of_nat (st_max (sh_val st) * 2));
  of_outcome (fail_ifn (negb (array =? 0)) "cannot extend stash");;
  mret (mk_stash_obj (sh_self st) array (Cfc.stash_extend null (sh_val st))).
Definition stash_add (st : stash_obj A) (item : A) : act S (nat * stash_obj A) :=
  assert_ptr (sh_self st);;
  st ← (if (st_c (sh_val st) =? st_max (sh_val st))%nat then stash_extend st else mret st);
  array ← of_outcome (arr_set (st_array (sh_val st)) (st_c (sh_val st)) item);
  let c := st_c (sh_val st) in
  mret (c, mk_stash_obj (sh_self st) (sh_array st) (mk_stash array (c + 1)%nat (st_max (sh_val st)))).
Definition stash_get (st : stash_obj A) (handle : nat) : act S A :=
  assert_ptr (sh_self st);; of_outcome (Cfc.stash_get (sh_val st) handle).

(** The items added so far. *)
Definition stash_items (st : stash_obj A) : list A := take (st_c (sh_val st)) (st_array (sh_val st)).
(** [for (i = 0; i < stash_size(stash); ++i) m(stash_get(stash, i));] *)
Definition stash_each (m : A -> act S unit) (st : stash_obj A) : act S unit :=
  each (fun i => x ← stash_get st i; m x) (seq 0 (stash_size (sh_val st))).
End Stash.

(** ** What the objects own *)

Definition abuf_blocks (a : abuf_obj) : list Z := [ab_self a; ab_buf a].
Definition cow_blocks (c : cow_obj) : list Z := cw_self c :: cw_table c.
Definition heap_blocks (h : heap_obj) : list Z := [hp_self h; hp_free_list h].
Definition tbin_blocks (t : tbin_obj) : list Z := [tb_self t; tb_items t].
Definition obuf_blocks (o : obuf_obj) : list Z := ob_self o :: ob_entries o.
Definition wts_blocks (w : wts_obj) : list Z := [wt_self w; wt_items w].
Definition tbar_blocks (t : tbar_obj) : list Z := [tr_self t; tr_items t].
Definition stash_blocks {A} (st : stash_obj A) : list Z := [sh_self st; sh_array st].

(** Every live structure has a non-null pointer. *)
Definition nonnull {A} (self : A -> Z) (x : A) : Prop := self x <> 0.

Lemma abuf_init_own n : makes (abuf_init n) abuf_blocks (fun _ => True).
Proof. unfold abuf_init, makes. own_steps. split; [solve_Permutation|done]. Qed.
Lemma abuf_fini_own a : frees (abuf_fini a) (abuf_blocks a).
Proof. unfold abuf_fini. eapply tri_free_bind; [apply Permutation_swap|]. by apply tri_free_last. Qed.
Lemma abuf_grow_own a n : tri (abuf_blocks a) (abuf_grow a n) (fun a' l => l ≡ₚ abuf_blocks a').
Proof.
  unfold abuf_grow. eapply tri_realloc_bind; [apply Permutation_swap|]. intros q Hq.
  eapply tri_outcome_bind; [by rewrite (proj2 (Z.eqb_neq q 0) Hq)|]. own_steps. solve_Permutation.
Qed.

(** An array of blocks. *)
Lemma blocks_own n (m : act S Z) : makes m (fun p => [p]) (fun p => p <> 0) ->
  makes (times n m) id (fun ps => length ps = n).
Proof.
  intros Hm. eapply tri_weaken; [by apply tri_times|]. intros xs l [Hl [_ Hn]]. by rewrite concat_single in Hl.
Qed.

Lemma cow_init_own n : makes (cow_init n) cow_blocks (fun c => length (cw_table c) = COW_MAX).
Proof.
  unfold cow_init, makes. own_steps.
  eapply tri_makes_bind; [apply blocks_own; unfold makes; by own_steps|].
  intros table Hlen. own_steps. split; [|done]. unfold cow_blocks. cbn. solve_Permutation.
Qed.
Lemma cow_fini_own c : frees (cow_fini c) (cow_blocks c).
Proof.
  unfold cow_fini. eapply (tri_free_each _ [cw_self c]); [apply Permutation_cons_append|]. by apply tri_free_last.
Qed.
Lemma cow_grow_own c i n : (i < length (cw_table c))%nat ->
  tri (cow_blocks c) (cow_grow c i n) (fun c' l => l ≡ₚ cow_blocks c' /\ length (cw_table c') = length (cw_table c)).
Proof.
  intros Hi. destruct (lookup_lt_is_Some_2 _ _ Hi) as [t Ht]. unfold cow_grow.
  eapply tri_outcome_bind; [unfold arr_get; by rewrite Ht|].
  apply (tri_realloc_bind t _ (cw_self c :: take i (cw_table c) ++ drop (Datatypes.S i) (cw_table c))).
  { unfold cow_blocks. rewrite <- (take_drop_middle _ _ _ Ht) at 1. solve_Permutation. }
  intros q Hq. eapply tri_outcome_bind; [unfold arr_set; by rewrite decide_True|].
  eapply tri_outcome_bind; [by rewrite (proj2 (Z.eqb_neq q 0) Hq)|]. own_steps. unfold cow_blocks. cbn [cw_self cw_table].
  split; [|by rewrite length_insert]. rewrite insert_take_drop by done. solve_Permutation.
Qed.

Lemma heap_init_own size : size <= 0 \/ ALLOC_MAX_SIZE < size -> makes (heap_init size) heap_blocks (fun _ => True).
Proof.
  intros Hsz. unfold heap_init, makes.
  eapply (tri_bind [] [] _ _ _ (fun p l => p <> 0 /\ l = [p])); [|done|].
  - destruct (Z.ltb_spec 0 size); [|own_steps; done].
    eapply tri_outcome_bind; [rewrite (proj2 (Z.ltb_lt ALLOC_MAX_SIZE size)) by lia; by rewrite c_assert_true|]. apply tri_malloc.
  - intros p l [Hp ->]. own_steps. split; [solve_Permutation|done].
Qed.
Lemma heap_fini_own h : frees (heap_fini h) (heap_blocks h).
Proof. unfold heap_fini. eapply tri_free_bind; [apply Permutation_swap|]. by apply tri_free_last. Qed.

Lemma tbin_init_own n : 0 < n -> makes (tbin_init n) tbin_blocks (nonnull tb_self).
Proof.
  intros Hn. unfold tbin_init, makes. eapply tri_outcome_bind; [rewrite (proj2 (Z.ltb_lt 0 n)) by lia; by rewrite c_assert_true|].
  own_steps. split; [solve_Permutation|done].
Qed.
(** [tbin_fini] frees the structure, not the array of items. *)
Lemma tbin_fini_own t : nonnull tb_self t -> frees (tbin_fini t) [tb_self t].
Proof. intros Ht. unfold tbin_fini, frees. own_steps. by apply tri_free_last. Qed.

Lemma talloc_init_own : makes talloc_init (fun p => [p]) (fun p => p <> 0).
Proof. unfold talloc_init, makes. own_steps. done. Qed.
Lemma talloc_fini_own p : p <> 0 -> frees (talloc_fini p) [p].
Proof. intros Hp. unfold talloc_fini, frees. own_steps. by apply tri_free_last. Qed.

Lemma malloc_own n : makes (malloc n) (fun p => [p]) (fun p => p <> 0).
Proof. eapply tri_weaken; [apply tri_malloc|]. intros p l [Hp ->]. done. Qed.
Lemma ibuf_init_own : makes ibuf_init (fun p => [p]) (fun p => p <> 0).
Proof. apply malloc_own. Qed.
Lemma ibuf_fini_own p : frees (ibuf_fini p) [p].
Proof. by apply tri_free_last. Qed.

Lemma obuf_init_own n : makes (obuf_init n) obuf_blocks (fun _ => True).
Proof.
  unfold obuf_init, makes. own_steps. eapply tri_makes_bind; [apply blocks_own, malloc_own|].
  intros es _. own_steps. split; [|done]. unfold obuf_blocks. cbn. solve_Permutation.
Qed.
Lemma obuf_fini_own o : frees (obuf_fini o) (obuf_blocks o).
Proof.
  unfold obuf_fini. eapply (tri_free_each _ [ob_self o]); [apply Permutation_cons_append|]. by apply tri_free_last.
Qed.

Lemma wts_init_own n : 0 < n -> makes (wts_init n) wts_blocks (nonnull wt_self).
Proof.
  intros Hn. unfold wts_init, makes. eapply tri_outcome_bind; [rewrite (proj2 (Z.ltb_lt 0 n)) by lia; by rewrite c_assert_true|].
  own_steps. split; [solve_Permutation|done].
Qed.
Lemma wts_fini_own w : nonnull wt_self w -> frees (wts_fini w) (wts_blocks w).
Proof.
  intros Hw. unfold wts_fini, frees. own_steps. eapply tri_free_bind; [apply Permutation_swap|]. by apply tri_free_last.
Qed.

Definition tbar_ok (t : tbar_obj) : Prop := tr_self t <> 0 /\ tr_items t <> 0.
Lemma tbar_init_own n g : makes (tbar_init n g) tbar_blocks (fun t => tbar_ok t /\ tr_global t = g).
Proof. unfold tbar_init, makes. own_steps. split; [solve_Permutation|done]. Qed.
Lemma tbar_idup_own t g : tbar_ok t -> tr_global t = Some g ->
  makes (tbar_idup t) tbar_blocks (fun t' => tbar_ok t' /\ tr_global t' = Some g).
Proof.
  intros [Ht _] Hg. unfold tbar_idup, makes. own_steps.
  eapply tri_outcome_bind; [rewrite bool_decide_true by (rewrite Hg; eauto); by rewrite c_assert_true|].
  own_steps. split; [solve_Permutation|done].
Qed.
Lemma tbar_fini_own t : tbar_ok t -> frees (tbar_fini t) (tbar_blocks t).
Proof.
  intros [Ht Hi]. unfold tbar_fini, frees. own_steps. eapply tri_free_bind; [apply Permutation_swap|]. by apply tri_free_last.
Qed.

(** *** The stash *)

Section StashOwn.
Context {A : Type} (null : A).
Implicit Types st : stash_obj A.

Record stash_ok st : Prop := {
  so_self : sh_self st <> 0;
  so_array : sh_array st <> 0;
  so_wf : stash_wf (sh_val st);
}.

Lemma stash_init_own : makes (stash_init null) stash_blocks (fun st => stash_ok st /\ stash_items st = []).
Proof.
  unfold stash_init, makes. own_steps. split; [solve_Permutation|]. split; [|done]. split; [done..|]. apply stash_init_wf.
Qed.
Lemma stash_fini_own st : stash_ok st -> frees (stash_fini st) (stash_blocks st).
Proof.
  intros [Hs Ha _]. unfold stash_fini, frees. own_steps. eapply tri_free_bind; [apply Permutation_swap|]. by apply tri_free_last.
Qed.

(** What [stash_extend] keeps. *)
Lemma stash_room st : stash_ok st ->
  tri (stash_blocks st)
    (if (st_c (sh_val st) =? st_max (sh_val st))%nat then stash_extend null st else mret st)
    (fun st' l => l ≡ₚ stash_blocks st' /\ stash_ok st' /\ st_c (sh_val st') = st_c (sh_val st) /\
      (st_c (sh_val st') < st_max (sh_val st'))%nat /\ stash_items st' = stash_items st).
Proof.
  intros [Hs Ha [Hl Hc Hp]]. destruct (Nat.eqb_spec (st_c (sh_val st)) (st_max (sh_val st))) as [E|E].
  - unfold stash_extend. eapply tri_realloc_bind; [apply Permutation_swap|]. intros q Hq.
    eapply tri_outcome_bind; [by rewrite (proj2 (Z.eqb_neq q 0) Hq)|]. own_steps. cbn.
    split_and!; [solve_Permutation| |done|lia|].
    + split; [done..|]. split; cbn; rewrite ?length_app, ?length_replicate; lia.
    + unfold stash_items. cbn. by rewrite take_app_le by lia.
  - own_steps. split_and!; [done|by split|done|lia|done].
Qed.

Lemma stash_add_own st item : stash_ok st ->
  tri (stash_blocks st) (stash_add null st item) (fun r l => l ≡ₚ stash_blocks r.2 /\ stash_ok r.2 /\
    r.1 = length (stash_items st) /\ stash_items r.2 = stash_items st ++ [item]).
Proof.
  intros Hst. unfold stash_add. apply tri_assert_bind; [apply Hst|].
  apply (tri_bind (stash_blocks st) [] _ _ _ _ _ (stash_room st Hst)); [by rewrite app_nil_r|].
  intros st1 l (Hl & [Hs Ha [Hln Hc Hp]] & Hcc & Hlt & Hi). rewrite app_nil_r.
  eapply tri_outcome_bind; [unfold arr_set; by rewrite decide_True by lia|]. own_steps. cbn [fst snd].
  split_and!; [done| | |].
  - split; [done..|]. split; cbn; rewrite ?length_insert; lia.
  - rewrite <- Hi. unfold stash_items. rewrite length_take. lia.
  - rewrite <- Hi. unfold stash_items. cbn. rewrite Nat.add_1_r.
    rewrite (take_S_r _ _ item) by (apply list_lookup_insert_eq; lia). by rewrite take_insert_ge by lia.
Qed.

Lemma stash_get_own st h x P : stash_ok st -> stash_items st !! h = Some x ->
  tri P (stash_get st h) (fun y l => y = x /\ l = P).
Proof.
  intros Hst [Hx Hh]%lookup_take_Some. unfold stash_get. apply tri_assert_bind; [apply Hst|].
  rewrite stash_get_lt by done. unfold arr_get. rewrite Hx. apply tri_outcome.
Qed.

Lemma stash_size_items st : stash_ok st -> stash_size (sh_val st) = length (stash_items st).
Proof. intros [_ _ [Hl Hc _]]. unfold stash_size, stash_items. rewrite length_take. lia. Qed.

(** A destructor run over the handles of the stash frees what its items own. *)
Lemma stash_each_own st fp (ok : A -> Prop) (m : A -> act S unit) : stash_ok st ->
  (forall x, ok x -> frees (m x) (fp x)) -> Forall ok (stash_items st) ->
  frees (stash_each m st) (concat (fp <$> stash_items st)).
Proof.
  intros Hst Hm Hok. unfold stash_each. rewrite (stash_size_items st Hst).
  cut (forall k xs, drop k (stash_items st) = xs ->
    frees (each (fun i => x ← stash_get st i; m x) (seq k (length xs))) (concat (fp <$> xs))).
  { intros Hk. by apply (Hk 0%nat). }
  intros k xs. revert k. induction xs as [|x xs IH]; intros k Hk; cbn; [by apply tri_ret|].
  assert (Hx : stash_items st !! k = Some x) by (rewrite <- (Nat.add_0_r k), <- lookup_drop, Hk; done).
  assert (Hxs : drop (Datatypes.S k) (stash_items st) = xs).
  { rewrite <- (Nat.add_1_r k), <- drop_drop, Hk. done. }
  assert (Hokx : ok x) by (rewrite Forall_lookup in Hok; eauto).
  eapply tri_frees_bind; [|reflexivity|by apply IH].
  eapply (tri_bind (fp x) []); [by apply stash_get_own|by rewrite app_nil_r|]. intros y l [-> ->]. rewrite app_nil_r. by apply Hm.
Qed.
End StashOwn.

End Objects.
