(* ===== verification/Lifetime.v ===== *)
(** * From start to exit: the blocks of the library

    [sei_init], [sei_shift] and [sei_fini] (src/mode_cow.c), [__sei_init],
    [__sei_thread_init], [__sei_shift] and [__sei_fini] (src/tmi.c) over the
    constructors and destructors of Blocks.v, in every build: append-only or hashed
    write buffer, private heap, page protection, wrapped system calls, one thread or
    several, two-phase locking and traversal barriers.  The application allocates and
    frees blocks of its own in between, and a write buffer that is full moves.

    The destructor frees every block at most once and only blocks of the library, so it
    always returns; what it leaves behind is computed exactly.  The heap mode
    (src/mode_heap.c) has a constructor and a destructor of its own, at the end. *)

From S2P Require Import Prelude Alloc Cfc Sei Blocks.

(** The compile-time switches.  [SEI_2PL] and [SEI_TBAR] need [SEI_MT]. *)
Inductive threading_mode := SingleThread | MultiThread (SEI_2PL SEI_TBAR : bool).

Class Config := {
  COW_APPEND_ONLY : bool;
  COW_USEHEAP : bool;
  HEAP_PROTECT : bool;
  SEI_WRAP_SC : bool;
  threading : threading_mode;
}.

Definition HEAP_SIZE : Z := 1000 * (1024 * 1024) + 500 * (1024 * 1024).
Definition SEI_MAX_THREADS : nat := 16.

(** [cow_t] or [abuf_t]. *)
Inductive cowbuf := CowAbuf (a : abuf_obj) | CowTable (c : cow_obj).

Record sei_obj := mk_sei_obj {
  se_self : Z;
  se_cow : list cowbuf;
  se_wpages : option abuf_obj;
  se_heap : option heap_obj;
  se_tbin : tbin_obj;
  se_talloc : Z;
  se_obuf : obuf_obj;
  se_ibuf : Z;
  se_stash : stash_obj obuf_obj;
  se_wts : option wts_obj;
}.

(** [sei_thread_t]. *)
Record thread_obj := mk_thread_obj {
  th_sei : sei_obj;
  th_abuf : option abuf_obj;
  th_abuf_2pl : option abuf_obj;
  th_tbar : option tbar_obj;
  th_stash : option (stash_obj tbar_obj);
  th_abuf_sc : option abuf_obj;
}.

(** [__tbar] and [___sei_thread]; the length of the list is [__sei_thread_count]. *)
Record process := mk_process { pr_tbar : option tbar_obj; pr_threads : list thread_obj }.

Definition null_obuf : obuf_obj := mk_obuf_obj 0 [].
Definition null_tbar : tbar_obj := mk_tbar_obj 0 0 None 0.

Section Lifetime.
Context {S : Type} `{AllocatorLaws S} `{!Reallocator S} `{!ReallocatorLaws S}.
Context `{Build} `{Config} (sizeof : cstruct -> Z).

(** ** mode_cow.c *)

Definition cowbuf_init : act S cowbuf :=
  if COW_APPEND_ONLY then a ← abuf_init sizeof (Z.of_nat COW_SIZE); mret (CowAbuf a)
  else c ← cow_init sizeof (Z.of_nat COW_SIZE); mret (CowTable c).
Definition cowbuf_fini (c : cowbuf) : act S unit :=
  match c with CowAbuf a => abuf_fini a | CowTable c => cow_fini c end.

Definition sei_init : act S sei_obj :=
  sei ← malloc (sizeof sizeof_sei_t); assert_ptr sei;;
  cow ← times SEI_DMR_MAX_REDUNDANCY cowbuf_init;
  wpages ← when HEAP_PROTECT (abuf_init sizeof 100);
  heap ← when COW_USEHEAP (heap_init sizeof HEAP_SIZE);
  tbin ← tbin_init sizeof (Z.of_nat TBIN_SIZE);
  talloc ← talloc_init sizeof;
  obuf ← obuf_init sizeof OBUF_SIZE;
  ibuf ← ibuf_init sizeof;
  stash ← stash_init sizeof null_obuf;
  wts ← when SEI_WRAP_SC (wts_init sizeof (Z.of_nat SC_MAX_CALLS));
  mret (mk_sei_obj sei cow wpages heap tbin talloc obuf ibuf stash wts).

Definition sei_fini (s : sei_obj) : act S unit :=
  assert_ptr (se_self s);;
  each cowbuf_fini (se_cow s);;
  tbin_fini (se_tbin s);;
  talloc_fini (se_talloc s);;
  ibuf_fini (se_ibuf s);;
  (if negb (stash_size (sh_val (se_stash s)) =? 0)%nat then stash_each obuf_fini (se_stash s)
   else obuf_fini (se_obuf s));;
  whenp wts_fini (se_wts s);;
  whenp heap_fini (se_heap s);;
  whenp abuf_fini (se_wpages s).

Definition with_obuf_stash (s : sei_obj) (o : obuf_obj) (st : stash_obj obuf_obj) : sei_obj :=
  mk_sei_obj (se_self s) (se_cow s) (se_wpages s) (se_heap s) (se_tbin s) (se_talloc s) o (se_ibuf s) st (se_wts s).

(** [None] is the handle -1. *)
Definition sei_shift (s : sei_obj) (handle : option nat) : act S (nat * sei_obj) :=
  match handle with
  | None =>
      obuf ← (if negb (stash_size (sh_val (se_stash s)) =? 0)%nat then obuf_init sizeof OBUF_SIZE
              else mret (se_obuf s));
      r ← stash_add sizeof null_obuf (se_stash s) obuf;
      mret (r.1, with_obuf_stash s obuf r.2)
  | Some h =>
      obuf ← stash_get (se_stash s) h;
      mret (h, with_obuf_stash s obuf (se_stash s))
  end.

(** A write in the current execution [p] that finds the buffer full (bucket [i] of the
    hashed buffer) and makes it grow to [max_size] entries. *)
Definition with_cow (s : sei_obj) (c : list cowbuf) : sei_obj :=
  mk_sei_obj (se_self s) c (se_wpages s) (se_heap s) (se_tbin s) (se_talloc s) (se_obuf s) (se_ibuf s) (se_stash s) (se_wts s).
Definition cow_full (s : sei_obj) (p i : nat) (max_size : Z) : act S sei_obj :=
  c ← of_outcome (arr_get (se_cow s) p);
  c ← match c with
      | CowAbuf a => a ← abuf_grow sizeof a max_size; mret (CowAbuf a)
      | CowTable c => c ← cow_grow sizeof c i max_size; mret (CowTable c)
      end;
  l ← of_outcome (arr_set (se_cow s) p c);
  mret (with_cow s l).

(** ** tmi.c *)

Definition deref {A} (o : option A) : act S A :=
  of_outcome (match o with Some x => Ret x | None => Stop OutOfBounds end).

(** [__sei_init] (the constructor attribute). *)
Definition __sei_init : act S process :=
  match threading with
  | SingleThread =>
      sei ← sei_init; assert_ptr (se_self sei);;
      abuf_sc ← when SEI_WRAP_SC (abuf_init sizeof (Z.of_nat SC_MAX_CALLS));
      mret (mk_process None [mk_thread_obj sei None None None None abuf_sc])
  | MultiThread _ SEI_TBAR =>
      tbar ← when SEI_TBAR (tbar_init sizeof (Z.of_nat SEI_MAX_THREADS) None);
      mret (mk_process tbar [])
  end.

(** The new thread takes the next entry of [___sei_thread]; nothing checks that there
    is one. *)
Definition __sei_thread_init (pr : process) : act S (nat * process) :=
  match threading with
  | SingleThread => mret (0%nat, pr)
  | MultiThread SEI_2PL SEI_TBAR =>
      let me := length (pr_threads pr) in
      of_outcome (if decide (me < SEI_MAX_THREADS)%nat then Ret tt else Stop OutOfBounds);;
      sei ← sei_init; assert_ptr (se_self sei);;
      abuf ← abuf_init sizeof 100;
      abuf_2pl ← when SEI_2PL (abuf_init sizeof 100);
      tbar ← when SEI_TBAR (tbar_init sizeof (Z.of_nat SEI_MAX_THREADS) (tr_self <$> pr_tbar pr));
      stash ← when SEI_TBAR (stash_init sizeof null_tbar);
      abuf_sc ← when SEI_WRAP_SC (abuf_init sizeof (Z.of_nat SC_MAX_CALLS));
      mret (me, mk_process (pr_tbar pr)
        (pr_threads pr ++ [mk_thread_obj sei (Some abuf) abuf_2pl tbar stash abuf_sc]))
  end.

Definition with_sei (t : thread_obj) (s : sei_obj) : thread_obj :=
  mk_thread_obj s (th_abuf t) (th_abuf_2pl t) (th_tbar t) (th_stash t) (th_abuf_sc t).
Definition with_tbar_stash (t : thread_obj) (b : tbar_obj) (st : stash_obj tbar_obj) : thread_obj :=
  mk_thread_obj (th_sei t) (th_abuf t) (th_abuf_2pl t) (Some b) (Some st) (th_abuf_sc t).

(** The body of [__sei_shift] for the thread [t], with traversal barriers. *)
Definition shift_tbar (t : thread_obj) (handle : option nat) : act S (nat * thread_obj) :=
  st ← deref (th_stash t);
  match handle with
  | None =>
      b ← deref (th_tbar t);
      b ← (if negb (stash_size (sh_val st) =? 0)%nat then tbar_idup sizeof b else mret b);
      r ← sei_shift (th_sei t) handle;
      h ← stash_add sizeof null_tbar st b;
      mret (h.1, with_tbar_stash (with_sei t r.2) b h.2)
  | Some h =>
      r ← sei_shift (th_sei t) handle;
      b ← stash_get st h;
      assert_ptr (tr_self b);;
      mret (h, with_tbar_stash (with_sei t r.2) b st)
  end.
Definition shift_plain (t : thread_obj) (handle : option nat) : act S (nat * thread_obj) :=
  r ← sei_shift (th_sei t) handle; mret (r.1, with_sei t r.2).

(** What follows the initialisation of the thread. *)
Definition thread_shift (t : thread_obj) (handle : option nat) : act S (nat * thread_obj) :=
  match threading with MultiThread _ true => shift_tbar t handle | _ => shift_plain t handle end.

(** The first lines of [__sei_shift] and of the six [__sei_prepare] functions, where a
    thread the library does not know is initialised.  [me] is the thread's entry, [None]
    for a thread that has not called the library. *)
Definition attach (pr : process) (me : option nat) : act S (nat * process) :=
  match me with None => __sei_thread_init pr | Some i => mret (i, pr) end.

Definition __sei_shift (pr : process) (me : option nat) (handle : option nat)
  : act S (nat * process) :=
  i ← attach pr me;
  t ← of_outcome (arr_get (pr_threads i.2) i.1);
  r ← thread_shift t handle;
  mret (r.1, mk_process (pr_tbar i.2) (<[i.1 := r.2]> (pr_threads i.2))).

(** A record of lock results, of system calls or of written pages that finds its buffer
    full and makes it grow to [max_size] entries. *)
Inductive record_buf := LockResults | CallResults | WrittenPages.
Definition record_of (t : thread_obj) (b : record_buf) : option abuf_obj :=
  match b with LockResults => th_abuf t | CallResults => th_abuf_sc t | WrittenPages => se_wpages (th_sei t) end.
Definition with_record (t : thread_obj) (b : record_buf) (a : abuf_obj) : thread_obj :=
  let s := th_sei t in
  match b with
  | LockResults => mk_thread_obj s (Some a) (th_abuf_2pl t) (th_tbar t) (th_stash t) (th_abuf_sc t)
  | CallResults => mk_thread_obj s (th_abuf t) (th_abuf_2pl t) (th_tbar t) (th_stash t) (Some a)
  | WrittenPages => with_sei t (mk_sei_obj (se_self s) (se_cow s) (Some a) (se_heap s) (se_tbin s) (se_talloc s) (se_obuf s) (se_ibuf s) (se_stash s) (se_wts s))
  end.
Definition record_full (t : thread_obj) (b : record_buf) (max_size : Z) : act S thread_obj :=
  a ← deref (record_of t b); a ← abuf_grow sizeof a max_size; mret (with_record t b a).

Definition tbars_fini (t : thread_obj) : act S unit :=
  match th_stash t with
  | Some st => if negb (stash_size (sh_val st) =? 0)%nat then stash_each tbar_fini st
               else whenp tbar_fini (th_tbar t)
  | None => whenp tbar_fini (th_tbar t)
  end.

(** One round of the loop of [__sei_fini]. *)
Definition thread_fini (SEI_2PL SEI_TBAR : bool) (t : thread_obj) : act S unit :=
  assert_ptr (se_self (th_sei t));;
  whenp abuf_fini (th_abuf t);;
  (if SEI_2PL then whenp abuf_fini (th_abuf_2pl t) else mret tt);;
  (if SEI_TBAR then tbars_fini t else mret tt);;
  sei_fini (th_sei t).

(** [__sei_fini] (the destructor attribute). *)
Definition __sei_fini (pr : process) : act S unit :=
  match threading with
  | SingleThread =>
      t ← of_outcome (arr_get (pr_threads pr) 0);
      whenp abuf_fini (th_abuf_sc t);;
      assert_ptr (se_self (th_sei t));;
      sei_fini (th_sei t)
  | MultiThread SEI_2PL SEI_TBAR =>
      each (thread_fini SEI_2PL SEI_TBAR) (pr_threads pr);;
      (if SEI_TBAR then whenp tbar_fini (pr_tbar pr) else mret tt)
  end.

(** ** Ownership of a [sei_t] *)

Definition cowbuf_blocks (c : cowbuf) : list Z :=
  match c with CowAbuf a => abuf_blocks a | CowTable c => cow_blocks c end.
Definition opt_blocks {A} (fp : A -> list Z) (o : option A) : list Z := default [] (fp <$> o).

(** The output buffers: those of the stash, once there is one. *)
Definition sei_obufs (s : sei_obj) : list obuf_obj :=
  match stash_items (se_stash s) with [] => [se_obuf s] | l => l end.

(** What [sei_fini] frees, and what it leaves. *)
Definition sei_freed (s : sei_obj) : list Z :=
  concat (cowbuf_blocks <$> se_cow s) ++ [tb_self (se_tbin s); se_talloc s; se_ibuf s] ++
  concat (obuf_blocks <$> sei_obufs s) ++ opt_blocks wts_blocks (se_wts s) ++
  opt_blocks heap_blocks (se_heap s) ++ opt_blocks abuf_blocks (se_wpages s).
Definition sei_left (s : sei_obj) : list Z :=
  [se_self s; tb_items (se_tbin s); sh_self (se_stash s); sh_array (se_stash s)].
Definition sei_blocks (s : sei_obj) : list Z := sei_freed s ++ sei_left s.

(** The current output buffer is in the stash as soon as the stash is used. *)
Record sei_ok (s : sei_obj) : Prop := {
  sk_self : se_self s <> 0;
  sk_cow : Forall (fun c => match c with CowAbuf _ => True | CowTable c => length (cw_table c) = Cow.COW_MAX end) (se_cow s);
  sk_len : length (se_cow s) = SEI_DMR_MAX_REDUNDANCY;
  sk_tbin : nonnull tb_self (se_tbin s);
  sk_talloc : se_talloc s <> 0;
  sk_wts : forall w, se_wts s = Some w -> nonnull wt_self w;
  sk_stash : stash_ok (se_stash s);
  sk_obuf : stash_items (se_stash s) = [] \/ se_obuf s ∈ stash_items (se_stash s);
}.

Lemma cowbuf_init_own : makes cowbuf_init cowbuf_blocks
  (fun c => match c with CowAbuf _ => True | CowTable c => length (cw_table c) = Cow.COW_MAX end).
Proof.
  unfold cowbuf_init, makes. destruct COW_APPEND_ONLY.
  - eapply tri_makes_bind; [apply abuf_init_own|]. intros a _. apply tri_ret. by rewrite app_nil_r.
  - eapply tri_makes_bind; [apply cow_init_own|]. intros c Hc. apply tri_ret. by rewrite app_nil_r.
Qed.
Lemma cowbuf_fini_own c : frees (cowbuf_fini c) (cowbuf_blocks c).
Proof. destruct c; [apply abuf_fini_own|apply cow_fini_own]. Qed.

Lemma opt_own {A} (fp : A -> list Z) (ok : A -> Prop) b (m : act S A) : makes m fp ok ->
  makes (when b m) (opt_blocks fp) (fun o => (b = true <-> is_Some o) /\ forall x, o = Some x -> ok x).
Proof. apply tri_when. Qed.

Lemma sei_init_own : makes sei_init sei_blocks (fun s => sei_ok s /\ stash_items (se_stash s) = []).
Proof.
  unfold sei_init, makes. own_steps.
  eapply tri_makes_bind; [apply tri_times, cowbuf_init_own|]. intros cow [Hcow Hlen].
  eapply tri_makes_bind; [apply opt_own, abuf_init_own|]. intros wpages _.
  eapply tri_makes_bind; [apply opt_own, heap_init_own; unfold HEAP_SIZE, Heap.ALLOC_MAX_SIZE; lia|]. intros heap _.
  eapply tri_makes_bind; [apply tbin_init_own; change Tbin.TBIN_SIZE with (Z.to_nat 10000); lia|]. intros tbin Htbin.
  eapply tri_makes_bind; [apply talloc_init_own|]. intros talloc Htalloc.
  eapply tri_makes_bind; [apply obuf_init_own|]. intros obuf _.
  eapply tri_makes_bind; [apply ibuf_init_own|]. intros ibuf _.
  eapply tri_makes_bind; [apply stash_init_own|]. intros st [Hst Hitems].
  eapply tri_makes_bind; [apply opt_own, wts_init_own; unfold SC_MAX_CALLS; lia|]. intros wts [_ Hwts].
  apply tri_ret. split_and!; [|split; cbn; auto|done].
  unfold sei_blocks, sei_freed, sei_left, sei_obufs, tbin_blocks, stash_blocks. cbn [se_cow se_tbin se_talloc se_ibuf
    se_stash se_obuf se_wts se_heap se_wpages se_self]. rewrite Hitems. cbn [fmap list_fmap concat]. rewrite app_nil_r.
  solve_Permutation.
Qed.

(** Both branches of the output buffers. *)
Lemma obufs_fini_own s : sei_ok s ->
  frees (if negb (stash_size (sh_val (se_stash s)) =? 0)%nat then stash_each obuf_fini (se_stash s)
         else obuf_fini (se_obuf s)) (concat (obuf_blocks <$> sei_obufs s)).
Proof.
  intros [_ _ _ _ _ _ Hst _]. rewrite (stash_size_items _ Hst). unfold sei_obufs.
  destruct (stash_items (se_stash s)) as [|o l] eqn:Hi; cbn [length Nat.eqb negb].
  - cbn. rewrite app_nil_r. apply obuf_fini_own.
  - rewrite <- Hi. apply (stash_each_own _ _ (fun _ => True)); [done|intros x _; apply obuf_fini_own|by apply Forall_true].
Qed.

Lemma sei_fini_own s : sei_ok s -> frees (sei_fini s) (sei_freed s).
Proof.
  intros Hok. pose proof Hok as [Hself _ _ Htb Hta Hw _ _]. unfold sei_fini, frees. apply tri_assert_bind; [done|].
  unfold sei_freed.
  eapply tri_frees_bind; [eapply (tri_each cowbuf_blocks (fun _ => True)); [intros c _; apply cowbuf_fini_own|by apply Forall_true]|reflexivity|].
  eapply tri_frees_bind; [by apply tbin_fini_own|cbn [app]; reflexivity|].
  eapply tri_frees_bind; [by apply talloc_fini_own|cbn [app]; reflexivity|].
  eapply tri_frees_bind; [by apply ibuf_fini_own|cbn [app]; reflexivity|].
  eapply tri_frees_bind; [by apply obufs_fini_own|cbn [app]; reflexivity|].
  eapply tri_frees_bind; [by apply (tri_whenp _ _ _ _ wts_fini_own Hw)|cbn [app]; reflexivity|].
  eapply tri_frees_bind; [apply (tri_whenp heap_blocks (fun _ => True)); [intros; apply heap_fini_own|done]|cbn [app]; reflexivity|].
  apply (tri_whenp abuf_blocks (fun _ => True)); [intros; apply abuf_fini_own|done].
Qed.

(** The blocks outside the output buffers and the stash. *)
Definition sei_frame (s : sei_obj) : list Z :=
  concat (cowbuf_blocks <$> se_cow s) ++ [tb_self (se_tbin s); se_talloc s; se_ibuf s] ++
  opt_blocks wts_blocks (se_wts s) ++ opt_blocks heap_blocks (se_heap s) ++
  opt_blocks abuf_blocks (se_wpages s) ++ [se_self s; tb_items (se_tbin s)].
Lemma sei_blocks_frame s :
  sei_blocks s ≡ₚ concat (obuf_blocks <$> sei_obufs s) ++ stash_blocks (se_stash s) ++ sei_frame s.
Proof. unfold sei_blocks, sei_freed, sei_left, sei_frame, stash_blocks. solve_Permutation. Qed.

Definition in_handles {A} (st : stash_obj A) (handle : option nat) : Prop :=
  forall h, handle = Some h -> (h < length (stash_items st))%nat.

(** The contexts behind the handles before and after a shift, the current context [cur]
    after it and the handle [h] returned. *)
Definition shifted {A} (st st' : stash_obj A) (cur : A) (handle : option nat) (h : nat) : Prop :=
  match handle with
  | None => h = length (stash_items st) /\ stash_items st' = stash_items st ++ [cur]
  | Some k => h = k /\ stash_items st' = stash_items st /\ stash_items st !! k = Some cur
  end.

Lemma shifted_length {A} (st st' : stash_obj A) cur handle h : shifted st st' cur handle h ->
  length (stash_items st') = (length (stash_items st) + match handle with Some _ => 0 | None => 1 end)%nat.
Proof. destruct handle; [intros (_ & -> & _); lia|]. intros [_ ->]. by rewrite length_app. Qed.

Lemma sei_shift_own s handle : sei_ok s -> in_handles (se_stash s) handle ->
  tri (sei_blocks s) (sei_shift s handle)
    (fun r l => l ≡ₚ sei_blocks r.2 /\ sei_ok r.2 /\ shifted (se_stash s) (se_stash r.2) (se_obuf r.2) handle r.1 /\ se_self r.2 = se_self s).
Proof.
  intros Hok Hh. pose proof Hok as [Hself Hcow Hlen Htb Hta Hw Hst Hob]. unfold sei_shift. destruct handle as [h|].
  - destruct (lookup_lt_is_Some_2 _ _ (Hh h eq_refl)) as [o Ho].
    eapply (tri_bind (sei_blocks s) []); [by apply (stash_get_own _ _ o)|by rewrite app_nil_r|].
    intros ? l [-> ->]. rewrite app_nil_r. apply tri_ret. cbn [fst snd].
    assert (Hin : o ∈ stash_items (se_stash s)) by (by eapply list_elem_of_lookup_2).
    split_and!; [|split; cbn; auto|done|done].
    unfold sei_blocks, sei_freed, sei_obufs. cbn. by destruct (stash_items (se_stash s)); [by apply elem_of_nil in Hin|].
  - rewrite sei_blocks_frame.
    assert (Hnew : tri (concat (obuf_blocks <$> sei_obufs s))
      (if negb (stash_size (sh_val (se_stash s)) =? 0)%nat then obuf_init sizeof OBUF_SIZE else mret (se_obuf s))
      (fun o l => l ≡ₚ concat (obuf_blocks <$> (stash_items (se_stash s) ++ [o])))).
    { rewrite (stash_size_items _ Hst). unfold sei_obufs.
      destruct (stash_items (se_stash s)) as [|o l] eqn:Hi; cbn [length Nat.eqb negb]; [by apply tri_ret|].
      eapply tri_last; [apply obuf_init_own|cbn [app]; reflexivity|]. intros o' l' [Hl' _]. rewrite Hl', fmap_app, concat_app.
      cbn [fmap list_fmap concat]. rewrite app_nil_r. solve_Permutation. }
    eapply tri_bind; [exact Hnew|reflexivity|]. intros o l Hl.
    eapply (tri_bind (stash_blocks (se_stash s))); [by apply stash_add_own|rewrite Permutation_app_swap_app; reflexivity|].
    intros [h st'] l' (Hl' & Hst' & Hh' & Hi'). cbn [fst snd] in *. apply tri_ret. cbn [fst snd].
    assert (Hne : stash_items st' <> []) by (rewrite Hi'; by destruct (stash_items (se_stash s))).
    split_and!.
    + rewrite sei_blocks_frame, Hl, Hl'. unfold sei_obufs. cbn [with_obuf_stash se_stash se_obuf].
      rewrite <- Hi'. destruct (stash_items st'); [done|]. change (sei_frame (with_obuf_stash s o st')) with (sei_frame s). solve_Permutation.
    + split; cbn; auto. right. rewrite Hi'. set_solver.
    + by split.
    + done.
Qed.

Definition cow_index_ok (s : sei_obj) (p i : nat) : Prop := (p < SEI_DMR_MAX_REDUNDANCY /\ i < Cow.COW_MAX)%nat.

Lemma cow_full_own s p i n : sei_ok s -> cow_index_ok s p i ->
  tri (sei_blocks s) (cow_full s p i n)
    (fun s' l => l ≡ₚ sei_blocks s' /\ sei_ok s' /\ sei_left s' = sei_left s /\ se_stash s' = se_stash s).
Proof.
  intros Hok [Hp Hi]. pose proof Hok as [Hself Hcow Hlen Htb Hta Hw Hst Hob]. unfold cow_full.
  destruct (lookup_lt_is_Some_2 (se_cow s) p) as [c Hc]; [lia|].
  pose proof (proj1 (Forall_lookup _ _) Hcow p c Hc) as Hcok.
  eapply tri_outcome_bind; [unfold arr_get; by rewrite Hc|].
  eapply (tri_bind (cowbuf_blocks c) _ _ _ _ (fun c' l => l ≡ₚ cowbuf_blocks c' /\
    match c' with CowAbuf _ => True | CowTable c => length (cw_table c) = Cow.COW_MAX end)).
  - destruct c as [a|c].
    + eapply (tri_bind (abuf_blocks a) []); [apply abuf_grow_own|by rewrite app_nil_r|]. intros a' l Hl. apply tri_ret. by rewrite app_nil_r.
    + eapply (tri_bind (cow_blocks c) []); [apply cow_grow_own; lia|by rewrite app_nil_r|]. intros c' l [Hl Hc']. apply tri_ret.
      rewrite app_nil_r. split; [done|lia].
  - unfold sei_blocks, sei_freed. rewrite <- (take_drop_middle _ _ _ Hc) at 1. rewrite fmap_app, concat_app. cbn [fmap list_fmap concat].
    rewrite <- !app_assoc, Permutation_app_swap_app. reflexivity.
  - intros c' l [Hl Hc']. eapply tri_outcome_bind; [unfold arr_set; by rewrite decide_True by (rewrite Hlen; lia)|].
    apply tri_ret. split_and!; [|split; cbn; auto; [|by rewrite length_insert]|done|done].
    + unfold sei_blocks, sei_freed. cbn [with_cow se_cow]. rewrite insert_take_drop by (rewrite Hlen; lia). rewrite fmap_app, concat_app. cbn [fmap list_fmap concat].
      rewrite Hl. rewrite <- !app_assoc. by rewrite (Permutation_app_swap_app (cowbuf_blocks c')).
    + by apply Forall_insert.
Qed.

(** ** Ownership of a thread and of the process *)

Definition SEI_TBAR_on : bool := match threading with MultiThread _ b => b | SingleThread => false end.
Definition SEI_2PL_on : bool := match threading with MultiThread b _ => b | SingleThread => false end.

(** The traversal barriers of a thread: those of its stash, once there is one. *)
Definition thread_tbars (t : thread_obj) : list tbar_obj :=
  match stash_items <$> th_stash t with
  | Some (b :: l) => b :: l
  | _ => option_list (th_tbar t)
  end.

Definition thread_freed (t : thread_obj) : list Z :=
  match threading with
  | SingleThread => opt_blocks abuf_blocks (th_abuf_sc t) ++ sei_freed (th_sei t)
  | MultiThread _ _ =>
      opt_blocks abuf_blocks (th_abuf t) ++ opt_blocks abuf_blocks (th_abuf_2pl t) ++
      concat (tbar_blocks <$> thread_tbars t) ++ sei_freed (th_sei t)
  end.
Definition thread_left (t : thread_obj) : list Z :=
  match threading with
  | SingleThread => sei_left (th_sei t)
  | MultiThread _ _ =>
      sei_left (th_sei t) ++ opt_blocks stash_blocks (th_stash t) ++ opt_blocks abuf_blocks (th_abuf_sc t)
  end.
Definition thread_blocks (t : thread_obj) : list Z := thread_freed t ++ thread_left t.

Definition tbar_good (b : tbar_obj) : Prop := tbar_ok b /\ is_Some (tr_global b).

(** With barriers, the stash of a thread and the one of its [sei_t] have the same
    handles, and the current barrier is in the stash. *)
Record thread_ok (t : thread_obj) : Prop := {
  tk_sei : sei_ok (th_sei t);
  tk_2pl : SEI_2PL_on = false -> th_abuf_2pl t = None;
  tk_sc : SEI_WRAP_SC = true <-> is_Some (th_abuf_sc t);
  tk_tbar : SEI_TBAR_on = true <-> is_Some (th_tbar t);
  tk_stash : SEI_TBAR_on = true <-> is_Some (th_stash t);
  tk_good : forall b, th_tbar t = Some b -> tbar_good b;
  tk_items : forall st, th_stash t = Some st -> stash_ok st /\ Forall tbar_good (stash_items st) /\
    length (stash_items st) = length (stash_items (se_stash (th_sei t))) /\
    (stash_items st = [] \/ exists b, th_tbar t = Some b /\ b ∈ stash_items st);
  tk_abuf : threading = SingleThread -> th_abuf t = None;
}.

Definition proc_blocks (pr : process) : list Z :=
  opt_blocks tbar_blocks (pr_tbar pr) ++ concat (thread_blocks <$> pr_threads pr).
Definition proc_left (pr : process) : list Z := concat (thread_left <$> pr_threads pr).

Record proc_ok (pr : process) : Prop := {
  pk_threads : Forall thread_ok (pr_threads pr);
  pk_tbar : SEI_TBAR_on = true <-> is_Some (pr_tbar pr);
  pk_good : forall b, pr_tbar pr = Some b -> tbar_ok b;
  pk_single : threading = SingleThread -> length (pr_threads pr) = 1%nat;
}.

Lemma opt_iff_false {A} (b : bool) (o : option A) : (b = true <-> is_Some o) -> b = false -> o = None.
Proof. intros Hb ->. destruct o as [a|]; [|done]. discriminate (proj2 Hb (ex_intro _ a eq_refl)). Qed.

Lemma __sei_init_own : makes __sei_init proc_blocks (fun pr => proc_ok pr /\ (length (pr_threads pr) <= 1)%nat).
Proof.
  unfold __sei_init, makes. destruct threading as [|two_pl tb] eqn:Ht.
  - eapply tri_makes_bind; [apply sei_init_own|]. intros s [Hs _]. apply tri_assert_bind; [apply Hs|].
    eapply tri_makes_bind; [apply opt_own, abuf_init_own|]. intros sc [Hsc _]. apply tri_ret.
    assert (E : SEI_TBAR_on = false) by (unfold SEI_TBAR_on; by rewrite Ht).
    split_and!; [| |done].
    + unfold proc_blocks, thread_blocks, thread_freed, thread_left. rewrite Ht. cbn. unfold sei_blocks. rewrite !app_nil_r. solve_Permutation.
    + split; cbn; try done; [|by rewrite E; split; [|intros []]]. constructor; [|done].
      split; cbn; try done; rewrite E; by split; [|intros []].
  - eapply tri_makes_bind; [apply opt_own, tbar_init_own|]. intros b [Hb Hbok]. apply tri_ret.
    split_and!; [unfold proc_blocks; cbn; by rewrite !app_nil_r| |cbn; lia].
    split; cbn; [done| | |by rewrite Ht]; [unfold SEI_TBAR_on; by rewrite Ht|]. intros ? Hx. by apply Hbok.
Qed.

Lemma __sei_thread_init_own pr : proc_ok pr -> threading <> SingleThread -> (length (pr_threads pr) < SEI_MAX_THREADS)%nat ->
  tri (proc_blocks pr) (__sei_thread_init pr)
    (fun r l => l ≡ₚ proc_blocks r.2 /\ proc_ok r.2 /\ r.1 = length (pr_threads pr) /\
      pr_tbar r.2 = pr_tbar pr /\ exists t, pr_threads r.2 = pr_threads pr ++ [t] /\ stash_items (se_stash (th_sei t)) = []).
Proof.
  intros Hok Hmt Hlen. unfold __sei_thread_init. destruct threading as [|two_pl tb] eqn:Ht; [done|].
  assert (E : SEI_TBAR_on = tb) by (unfold SEI_TBAR_on; by rewrite Ht).
  eapply tri_outcome_bind; [by rewrite decide_True|].
  eapply tri_makes_bind; [apply sei_init_own|]. intros s [Hs Hi]. apply tri_assert_bind; [apply Hs|].
  eapply tri_makes_bind; [apply abuf_init_own|]. intros ab _.
  eapply tri_makes_bind; [apply opt_own, abuf_init_own|]. intros ab2 [Hab2 _].
  eapply tri_makes_bind; [apply opt_own, tbar_init_own|]. intros b [Hb Hbok].
  eapply tri_makes_bind; [apply opt_own, stash_init_own|]. intros st [Hst Hstok].
  eapply tri_makes_bind; [apply opt_own, abuf_init_own|]. intros sc [Hsc _]. apply tri_ret. cbn [fst snd].
  split_and!; [| |done|done|by eauto].
  - unfold proc_blocks. cbn [pr_tbar pr_threads]. rewrite fmap_app, concat_app. cbn [fmap list_fmap concat].
    unfold thread_blocks at 3, thread_freed, thread_left. rewrite Ht. cbn [th_sei th_abuf th_abuf_2pl th_tbar th_stash th_abuf_sc].
    assert (Et : concat (tbar_blocks <$> thread_tbars (mk_thread_obj s (Some ab) ab2 b st sc)) = opt_blocks tbar_blocks b).
    { unfold thread_tbars. cbn [th_stash th_tbar]. destruct st as [st|]; cbn; [rewrite (proj2 (Hstok st eq_refl))|];
        (destruct b; cbn; by rewrite ?app_nil_r). }
    rewrite Et. cbn [opt_blocks fmap option_fmap option_map default]. unfold sei_blocks. solve_Permutation.
  - destruct Hok as [Hts Htb Hg Hsi]. split; cbn; [|done|done|by rewrite Ht]. apply Forall_app. split; [done|]. constructor; [|done].
    split; cbn; try done.
    + unfold SEI_2PL_on. rewrite Ht. by apply opt_iff_false.
    + by rewrite E.
    + by rewrite E.
    + intros b' Hb'. destruct (Hbok b' Hb') as [Hb1 Hb2]. split; [done|]. rewrite Hb2, fmap_is_Some, <- Htb, E. apply Hb. eauto.
    + intros st' Hst'. destruct (Hstok st' Hst') as [Hs1 Hs2]. rewrite Hs2, Hi. split_and!; [done|constructor|done|by left].
    + by rewrite Ht.
Qed.

(** Besides its [sei_t], its barriers and its stash, a thread owns its buffers. *)
Definition thread_bufs (t : thread_obj) : list Z :=
  match threading with
  | SingleThread => opt_blocks abuf_blocks (th_abuf_sc t)
  | MultiThread _ _ => opt_blocks abuf_blocks (th_abuf t) ++ opt_blocks abuf_blocks (th_abuf_2pl t) ++ opt_blocks abuf_blocks (th_abuf_sc t)
  end.
Definition thread_bars (t : thread_obj) : list Z :=
  match threading with
  | SingleThread => []
  | MultiThread _ _ => concat (tbar_blocks <$> thread_tbars t) ++ opt_blocks stash_blocks (th_stash t)
  end.
Lemma thread_blocks_split t : thread_blocks t ≡ₚ sei_blocks (th_sei t) ++ thread_bars t ++ thread_bufs t.
Proof.
  unfold thread_blocks, thread_freed, thread_left, thread_bars, thread_bufs, sei_blocks.
  destruct threading; [rewrite app_nil_l|]; solve_Permutation.
Qed.

(** The output buffers and, where there are any, the barriers of a thread after a shift. *)
Definition thread_shifted (t t' : thread_obj) (handle : option nat) (h : nat) : Prop :=
  shifted (se_stash (th_sei t)) (se_stash (th_sei t')) (se_obuf (th_sei t')) handle h /\
  forall st, th_stash t = Some st -> exists st' b, th_stash t' = Some st' /\ th_tbar t' = Some b /\ shifted st st' b handle h.

(** The result of a shift of a thread. *)
Definition shift_post (t : thread_obj) (handle : option nat) (r : nat * thread_obj) (l : list Z) : Prop :=
  l ≡ₚ thread_blocks r.2 /\ thread_ok r.2 /\ thread_shifted t r.2 handle r.1.

Lemma shift_plain_own t handle : SEI_TBAR_on = false -> thread_ok t -> in_handles (se_stash (th_sei t)) handle ->
  tri (thread_blocks t) (shift_plain t handle) (shift_post t handle).
Proof.
  intros E [Hs Hpl Hsc Htb Hst Hg Hit Hab] Hh. unfold shift_plain.
  eapply tri_bind; [by apply sei_shift_own|apply thread_blocks_split|].
  intros [h s'] l (Hl & Hs' & Hsh & _). apply tri_ret. cbn [fst snd] in *. pose proof (opt_iff_false _ _ Hst E) as Hno. split_and!; [|split; cbn; auto|split; [done|]].
  - by rewrite thread_blocks_split, Hl.
  - intros st Hst'. congruence.
  - intros st Hst'. congruence.
Qed.

(** Going back to a handle. *)
Lemma shift_tbar_back t h : SEI_TBAR_on = true -> thread_ok t -> in_handles (se_stash (th_sei t)) (Some h) ->
  tri (thread_blocks t) (shift_tbar t (Some h)) (shift_post t (Some h)).
Proof.
  intros E [Hs Hpl Hsc Htb Hst Hg Hit Hab] Hh. destruct (proj1 Hst E) as [st Hst'].
  destruct (Hit st Hst') as (Hstok & Hgood & Hlen & Hcur).
  unfold shift_tbar, deref. rewrite Hst'. eapply tri_outcome_bind; [done|].
  eapply tri_bind; [by apply sei_shift_own|apply thread_blocks_split|].
  intros [h' s'] l (Hl & Hs' & Hsh & _). pose proof (shifted_length _ _ _ _ _ Hsh) as Hn. cbn [fst snd] in *. destruct Hsh as (-> & Hsh).
  destruct (lookup_lt_is_Some_2 (stash_items st) h) as [b' Hb']; [rewrite Hlen; by apply Hh|].
  pose proof (proj1 (Forall_lookup _ _) Hgood h b' Hb') as Hb'ok.
  eapply (tri_bind _ []); [by apply (stash_get_own st h b')|by rewrite app_nil_r|]. intros ? l' [-> ->]. rewrite app_nil_r.
  apply tri_assert_bind; [apply Hb'ok|]. apply tri_ret.
  assert (Hin : b' ∈ stash_items st) by (by eapply list_elem_of_lookup_2).
  split_and!; cbn [fst snd]; [|split; cbn; auto|split; [done|]].
  - rewrite thread_blocks_split, Hl. assert (Eb : thread_bars (with_tbar_stash (with_sei t s') b' st) = thread_bars t); [|by rewrite Eb].
    unfold thread_bars, thread_tbars. cbn [th_stash th_tbar with_tbar_stash with_sei]. rewrite Hst'. cbn.
    by destruct (stash_items st); [apply elem_of_nil in Hin|].
  - split; [by eauto|done].
  - split; [by eauto|done].
  - by intros ? [= <-].
  - intros ? [= <-]. split_and!; [done..|by rewrite Hlen, Hn, Nat.add_0_r|]. right. eauto.
  - intros st0 Hst0. rewrite Hst' in Hst0. injection Hst0 as <-. by exists st, b'.
Qed.

(** The barrier of a new handle: the current one the first time, then a copy. *)
Lemma new_tbar_own t b st : thread_ok t -> th_tbar t = Some b -> th_stash t = Some st ->
  tri (concat (tbar_blocks <$> thread_tbars t))
    (if negb (stash_size (sh_val st) =? 0)%nat then tbar_idup sizeof b else mret b)
    (fun b' l => l ≡ₚ concat (tbar_blocks <$> (stash_items st ++ [b'])) /\ tbar_good b').
Proof.
  intros [_ _ _ _ _ Hg Hit Hab] Hb Hst. destruct (Hit st Hst) as (Hstok & _). pose proof (Hg b Hb) as [Hbok [g Hbg]].
  rewrite (stash_size_items _ Hstok). unfold thread_tbars. rewrite Hst, Hb. cbn [fmap option_fmap option_map].
  destruct (stash_items st) as [|x l] eqn:Hi; cbn [length Nat.eqb negb]; [apply tri_ret; split; [done|by split; [|eauto]]|].
  eapply tri_last; [by apply tbar_idup_own|cbn [app]; reflexivity|]. intros b' l' [Hl' [Hb1 Hb2]].
  split; [|by split; [|eauto]]. rewrite Hl', fmap_app, concat_app. cbn [fmap list_fmap concat]. rewrite app_nil_r. solve_Permutation.
Qed.

Lemma shift_tbar_new t : SEI_TBAR_on = true -> thread_ok t -> tri (thread_blocks t) (shift_tbar t None) (shift_post t None).
Proof.
  intros E Hok. pose proof Hok as [Hs Hpl Hsc Htb Hst Hg Hit Hab].
  destruct (proj1 Htb E) as [b Hb], (proj1 Hst E) as [st Hst'].
  destruct (Hit st Hst') as (Hstok & Hgood & Hlen & Hcur).
  assert (Hmt : threading <> SingleThread) by (intros E'; unfold SEI_TBAR_on in E; by rewrite E' in E).
  unfold shift_tbar, deref. rewrite Hst', Hb. do 2 (eapply tri_outcome_bind; [done|]).
  assert (Hsplit : thread_blocks t ≡ₚ concat (tbar_blocks <$> thread_tbars t) ++ sei_blocks (th_sei t) ++ stash_blocks st ++ thread_bufs t).
  { rewrite thread_blocks_split. unfold thread_bars. rewrite Hst'. destruct threading; [done|]. cbn [opt_blocks fmap option_fmap option_map default]. solve_Permutation. }
  eapply tri_bind; [by apply (new_tbar_own t b st)|exact Hsplit|]. intros b' l [Hl Hb'].
  eapply (tri_bind (sei_blocks (th_sei t))); [apply sei_shift_own; [done|by intros ?]|rewrite Permutation_app_swap_app; reflexivity|].
  intros [h' s'] l1 (Hl1 & Hs' & Hsh & _). pose proof (shifted_length _ _ _ _ _ Hsh) as Hn. destruct Hsh as [Hh' Hsh]. cbn [fst snd] in *.
  eapply (tri_bind (stash_blocks st) (concat (tbar_blocks <$> stash_items st ++ [b']) ++ sei_blocks s' ++ thread_bufs t));
    [by apply stash_add_own|rewrite Hl, Hl1; solve_Permutation|].
  intros [h2 st2] l2 (Hl2 & Hst2 & Hh2 & Hi2). cbn [fst snd] in *. apply tri_ret.
  assert (Hne : stash_items st2 <> []) by (rewrite Hi2; by destruct (stash_items st)).
  split_and!; cbn [fst snd]; [|split; cbn; auto|split].
  - rewrite thread_blocks_split, Hl2. unfold thread_bars, thread_tbars. cbn [th_sei th_stash th_tbar with_tbar_stash with_sei fmap option_fmap option_map].
    rewrite <- Hi2. change (thread_bufs (with_tbar_stash (with_sei t s') b' st2)) with (thread_bufs t).
    destruct threading; [done|]. destruct (stash_items st2); [done|]. cbn [opt_blocks fmap option_fmap option_map default]. solve_Permutation.
  - split; [by eauto|done].
  - split; [by eauto|done].
  - by intros ? [= <-].
  - intros ? [= <-]. split_and!; [done|rewrite Hi2; apply Forall_app; split; [done|by constructor]| |].
    + rewrite Hi2, length_app, Hn, Hlen. done.
    + right. exists b'. rewrite Hi2. set_solver.
  - split; [cbn; lia|done].
  - intros st0 Hst0. rewrite Hst' in Hst0. injection Hst0 as <-. by exists st2, b'.
Qed.

Lemma thread_shift_own t handle : thread_ok t -> in_handles (se_stash (th_sei t)) handle ->
  tri (thread_blocks t) (thread_shift t handle) (shift_post t handle).
Proof.
  intros Hok Hh. unfold thread_shift. destruct threading as [|two_pl [|]] eqn:Ht.
  - apply shift_plain_own; [unfold SEI_TBAR_on; by rewrite Ht|done..].
  - destruct handle as [h|]; [apply shift_tbar_back|apply shift_tbar_new]; try done; unfold SEI_TBAR_on; by rewrite Ht.
  - apply shift_plain_own; [unfold SEI_TBAR_on; by rewrite Ht|done..].
Qed.

(** ** The process *)

(** The blocks of the process outside thread [i]. *)
Definition proc_frame (pr : process) (i : nat) : list Z :=
  opt_blocks tbar_blocks (pr_tbar pr) ++ concat (thread_blocks <$> take i (pr_threads pr)) ++
  concat (thread_blocks <$> drop (Datatypes.S i) (pr_threads pr)).

Lemma proc_blocks_thread pr i t : pr_threads pr !! i = Some t -> proc_blocks pr ≡ₚ thread_blocks t ++ proc_frame pr i.
Proof.
  intros Hi. unfold proc_blocks, proc_frame. rewrite <- (take_drop_middle _ _ _ Hi) at 1. rewrite fmap_app, concat_app. cbn [fmap list_fmap concat].
  solve_Permutation.
Qed.

Definition with_thread (pr : process) (i : nat) (t : thread_obj) : process :=
  mk_process (pr_tbar pr) (<[i := t]> (pr_threads pr)).

Lemma with_thread_own pr i t t' l : proc_ok pr -> pr_threads pr !! i = Some t -> thread_ok t' -> l ≡ₚ thread_blocks t' ->
  l ++ proc_frame pr i ≡ₚ proc_blocks (with_thread pr i t') /\ proc_ok (with_thread pr i t').
Proof.
  intros [Hts Htb Hg Hsi] Hi Ht' ->. pose proof (lookup_lt_Some _ _ _ Hi). split.
  - symmetry. unfold proc_blocks, proc_frame, with_thread. cbn [pr_tbar pr_threads]. rewrite insert_take_drop by done.
    rewrite fmap_app, concat_app. cbn [fmap list_fmap concat]. solve_Permutation.
  - split; cbn; auto; [by apply Forall_insert|]. by rewrite length_insert.
Qed.

(** The calls of [__sei_shift] that keep its contract: a new thread finds a free entry
    and asks for a new context, a thread the library knows asks for a new context or one of its own. *)
Definition may_shift (pr : process) (me handle : option nat) : Prop :=
  match me with
  | None => threading <> SingleThread /\ (length (pr_threads pr) < SEI_MAX_THREADS)%nat /\ handle = None
  | Some i => exists t, pr_threads pr !! i = Some t /\ in_handles (se_stash (th_sei t)) handle
  end.

(** What a shift does: the first one of a thread adds an entry with one context, the
    others change the contexts of the thread and no other thread. *)
Definition shift_result (pr : process) (me handle : option nat) (r : nat * process) : Prop :=
  match me with
  | None => r.1 = 0%nat /\ exists t', pr_threads r.2 = pr_threads pr ++ [t'] /\ stash_items (se_stash (th_sei t')) = [se_obuf (th_sei t')]
  | Some i => exists t t', pr_threads pr !! i = Some t /\ pr_threads r.2 = <[i := t']> (pr_threads pr) /\ thread_shifted t t' handle r.1
  end.

Lemma __sei_shift_own pr me handle : proc_ok pr -> may_shift pr me handle ->
  tri (proc_blocks pr) (__sei_shift pr me handle)
    (fun r l => l ≡ₚ proc_blocks r.2 /\ proc_ok r.2 /\ shift_result pr me handle r).
Proof.
  intros Hok Hmay. unfold __sei_shift, attach. destruct me as [i|].
  - destruct Hmay as (t & Hi & Hh). apply tri_ret_bind. cbn [fst snd].
    eapply tri_outcome_bind; [unfold arr_get; by rewrite Hi|].
    eapply tri_bind; [apply thread_shift_own; [by apply (proj1 (Forall_lookup _ _) (pk_threads _ Hok) i t)|done]|by apply proc_blocks_thread|].
    intros [h t'] l (Hl & Ht' & Hs). cbn [fst snd] in *. apply tri_ret. cbn [fst snd].
    destruct (with_thread_own pr i t t' l) as [Hb Hok']; [done..|]. split_and!; [done..|]. by exists t, t'.
  - destruct Hmay as (Hmt & Hlen & ->).
    eapply (tri_bind (proc_blocks pr) []); [by apply __sei_thread_init_own|by rewrite app_nil_r|].
    intros [i pr'] l (Hl & Hok' & Hi & Htb & t & Hts & Hst). cbn [fst snd] in *. rewrite app_nil_r, Hl. subst i.
    assert (Hi : pr_threads pr' !! length (pr_threads pr) = Some t) by (rewrite Hts; by apply list_lookup_middle).
    eapply tri_outcome_bind; [unfold arr_get; by rewrite Hi|].
    eapply tri_bind; [apply thread_shift_own; [by apply (proj1 (Forall_lookup _ _) (pk_threads _ Hok') (length (pr_threads pr)) t)|by intros ?]|by apply proc_blocks_thread|].
    intros [h t'] l' (Hl' & Ht' & Hs). cbn [fst snd] in *. apply tri_ret. cbn [fst snd].
    destruct (with_thread_own pr' (length (pr_threads pr)) t t' l') as [Hb Hok2]; [done..|]. split_and!; [done..|].
    destruct Hs as [[Hh Hit] _]. rewrite Hst in Hh, Hit. split; [done|]. exists t'. split; [|done].
    cbn. by rewrite Hts, insert_app_r_alt, Nat.sub_diag by done.
Qed.

(** *** At exit *)

Lemma tbars_fini_own t : thread_ok t -> frees (tbars_fini t) (concat (tbar_blocks <$> thread_tbars t)).
Proof.
  intros [_ _ _ _ _ Hg Hit Hab]. unfold tbars_fini, thread_tbars.
  assert (Hcur : frees (whenp tbar_fini (th_tbar t)) (concat (tbar_blocks <$> option_list (th_tbar t)))).
  { destruct (th_tbar t) as [b|]; cbn; [apply tbar_fini_own, Hg; done|by apply tri_ret]. }
  destruct (th_stash t) as [st|]; [|done]. destruct (Hit st eq_refl) as (Hst & Hgood & _). cbn [fmap option_fmap option_map].
  rewrite (stash_size_items _ Hst). destruct (stash_items st) as [|b l] eqn:Hi; [done|]. cbn [length Nat.eqb negb].
  rewrite <- Hi in *. apply (stash_each_own _ _ tbar_good); [done|intros x [Hx _]; by apply tbar_fini_own|done].
Qed.

Lemma abuf_opt_fini_own o : frees (whenp abuf_fini o) (opt_blocks abuf_blocks o).
Proof. apply (tri_whenp abuf_blocks (fun _ => True)); [intros; apply abuf_fini_own|done]. Qed.

Lemma thread_fini_own t two_pl tb : threading = MultiThread two_pl tb -> thread_ok t ->
  frees (thread_fini two_pl tb t) (thread_freed t).
Proof.
  intros Ht Hok. unfold thread_fini, thread_freed, frees. rewrite Ht. pose proof Hok as [Hs Hpl Hsc Htb Hst Hg Hit Hab].
  apply tri_assert_bind; [apply Hs|].
  eapply tri_frees_bind; [apply abuf_opt_fini_own|reflexivity|].
  eapply tri_frees_bind; [|reflexivity|].
  { unfold SEI_2PL_on in Hpl. rewrite Ht in Hpl. destruct two_pl; [apply abuf_opt_fini_own|]. rewrite Hpl by done. by apply tri_ret. }
  eapply tri_frees_bind; [|reflexivity|by apply sei_fini_own].
  destruct tb; [by apply tbars_fini_own|]. assert (E : SEI_TBAR_on = false) by (unfold SEI_TBAR_on; by rewrite Ht).
  unfold thread_tbars. rewrite (opt_iff_false _ _ Hst E), (opt_iff_false _ _ Htb E). by apply tri_ret.
Qed.

(** The blocks a process frees at exit. *)
Definition proc_freed (pr : process) : list Z :=
  opt_blocks tbar_blocks (pr_tbar pr) ++ concat (thread_freed <$> pr_threads pr).
Lemma proc_blocks_left pr : proc_blocks pr ≡ₚ proc_freed pr ++ proc_left pr.
Proof.
  unfold proc_blocks, proc_freed, proc_left. rewrite <- app_assoc. apply Permutation_app_head.
  induction (pr_threads pr) as [|t ts IH]; [done|]. cbn. rewrite IH. unfold thread_blocks. solve_Permutation.
Qed.

Lemma __sei_fini_own pr : proc_ok pr -> frees (__sei_fini pr) (proc_freed pr).
Proof.
  intros [Hts Htb Hg Hsi]. unfold __sei_fini, proc_freed, frees. destruct threading as [|two_pl tb] eqn:Ht.
  - assert (E : SEI_TBAR_on = false) by (unfold SEI_TBAR_on; by rewrite Ht). rewrite (opt_iff_false _ _ Htb E).
    specialize (Hsi eq_refl). destruct (pr_threads pr) as [|t [|]]; try done. cbn [opt_blocks fmap option_fmap option_map default list_fmap concat app].
    rewrite app_nil_r. eapply tri_outcome_bind; [done|]. apply Forall_cons in Hts as [Ht1 _]. unfold thread_freed. rewrite Ht.
    eapply tri_frees_bind; [apply abuf_opt_fini_own|reflexivity|]. apply tri_assert_bind; [apply Ht1|]. apply sei_fini_own, Ht1.
  - eapply tri_frees_bind; [eapply (tri_each thread_freed thread_ok); [intros t; by apply thread_fini_own|done]|apply Permutation_app_comm|].
    destruct tb; [by apply (tri_whenp _ _ _ _ tbar_fini_own Hg)|].
    assert (E : SEI_TBAR_on = false) by (unfold SEI_TBAR_on; by rewrite Ht). rewrite (opt_iff_false _ _ Htb E). by apply tri_ret.
Qed.

(** ** Runs of a process

    [alive pr s l]: the process has come to the state [pr], the allocator to [s], and
    the application has the blocks [l]. *)
Inductive alive : process -> S -> list Z -> Prop :=
  | alive_init s l pr s' : own s l -> __sei_init s = Ret (pr, s') -> alive pr s' l
  | alive_shift pr s l me handle h pr' s' : alive pr s l -> may_shift pr me handle ->
      __sei_shift pr me handle s = Ret ((h, pr'), s') -> alive pr' s' l
  | alive_prepare pr s l i pr' s' : alive pr s l -> threading <> SingleThread -> (length (pr_threads pr) < SEI_MAX_THREADS)%nat ->
      attach pr None s = Ret ((i, pr'), s') -> alive pr' s' l
  | alive_record pr s l i t b n t' s' : alive pr s l -> pr_threads pr !! i = Some t -> is_Some (record_of t b) ->
      record_full t b n s = Ret (t', s') -> alive (with_thread pr i t') s' l
  | alive_full pr s l i t p b n sei s' : alive pr s l -> pr_threads pr !! i = Some t -> cow_index_ok (th_sei t) p b ->
      cow_full (th_sei t) p b n s = Ret (sei, s') -> alive (with_thread pr i (with_sei t sei)) s' l
  | alive_malloc pr s l n q s' : alive pr s l -> al_malloc s n = Ret (q, s') -> alive pr s' (q :: l)
  | alive_free pr s l q l' s' : alive pr s l -> l ≡ₚ q :: l' -> al_free s q = Ret s' -> alive pr s' l'.

(** Running a triple. *)
Lemma tri_run {A} P (m : act S A) Q s l a s' : tri P m Q -> own s (P ++ l) -> m s = Ret (a, s') ->
  exists l', Q a l' /\ own s' (l' ++ l).
Proof. intros Hm Hs E. destruct (Hm s l Hs) as (a1 & s1 & l1 & E1 & HQ & Ho). rewrite E in E1. injection E1 as <- <-. eauto. Qed.

Lemma full_own pr i t p b n : proc_ok pr -> pr_threads pr !! i = Some t -> cow_index_ok (th_sei t) p b ->
  tri (proc_blocks pr) (cow_full (th_sei t) p b n)
    (fun sei l => l ≡ₚ proc_blocks (with_thread pr i (with_sei t sei)) /\ proc_ok (with_thread pr i (with_sei t sei))).
Proof.
  intros Hok Hi Hb. pose proof (proj1 (Forall_lookup _ _) (pk_threads _ Hok) i t Hi) as [Hs Hpl Hsc Htb Hst Hg Hit Hab].
  eapply tri_last; [by apply cow_full_own|rewrite (proc_blocks_thread _ _ _ Hi), (thread_blocks_split t), <- app_assoc; reflexivity|].
  intros sei l (Hl & Hs' & _ & Hst'). rewrite app_assoc. apply (with_thread_own pr i t); [done..|split; cbn; auto; by rewrite Hst'|].
  rewrite thread_blocks_split, Hl. done.
Qed.

(** The blocks of a thread besides those of one record. *)
Lemma record_blocks t b a : thread_ok t -> record_of t b = Some a ->
  exists F, thread_blocks t ≡ₚ abuf_blocks a ++ F /\ forall a', thread_blocks (with_record t b a') ≡ₚ abuf_blocks a' ++ F.
Proof.
  intros [_ _ _ _ _ _ _ Hab] Hr. destruct b; cbn in Hr.
  - exists (sei_blocks (th_sei t) ++ thread_bars t ++ opt_blocks abuf_blocks (th_abuf_2pl t) ++ opt_blocks abuf_blocks (th_abuf_sc t)).
    split; [|intros a']; rewrite thread_blocks_split; unfold thread_bufs, thread_bars, thread_tbars; cbn; rewrite ?Hr;
      (destruct threading; [by rewrite Hab in Hr|cbn; solve_Permutation]).
  - exists (sei_blocks (th_sei t) ++ thread_bars t ++ match threading with SingleThread => [] | _ => opt_blocks abuf_blocks (th_abuf t) ++ opt_blocks abuf_blocks (th_abuf_2pl t) end).
    split; [|intros a']; rewrite thread_blocks_split; unfold thread_bufs, thread_bars, thread_tbars; cbn; rewrite ?Hr;
      (destruct threading; cbn; solve_Permutation).
  - exists (concat (obuf_blocks <$> sei_obufs (th_sei t)) ++ stash_blocks (se_stash (th_sei t)) ++ concat (cowbuf_blocks <$> se_cow (th_sei t)) ++
      [tb_self (se_tbin (th_sei t)); se_talloc (th_sei t); se_ibuf (th_sei t)] ++ opt_blocks wts_blocks (se_wts (th_sei t)) ++
      opt_blocks heap_blocks (se_heap (th_sei t)) ++ [se_self (th_sei t); tb_items (se_tbin (th_sei t))] ++ thread_bars t ++ thread_bufs t).
    split; [|intros a']; rewrite thread_blocks_split, sei_blocks_frame; unfold thread_bufs, thread_bars, thread_tbars, sei_frame, sei_obufs; cbn; rewrite ?Hr;
      cbn; solve_Permutation.
Qed.

Lemma record_full_own pr i t b n : proc_ok pr -> pr_threads pr !! i = Some t -> is_Some (record_of t b) ->
  tri (proc_blocks pr) (record_full t b n) (fun t' l => l ≡ₚ proc_blocks (with_thread pr i t') /\ proc_ok (with_thread pr i t')).
Proof.
  intros Hok Hi [a Ha]. pose proof (proj1 (Forall_lookup _ _) (pk_threads _ Hok) i t Hi) as Ht.
  destruct (record_blocks t b a Ht Ha) as (F & HF & HF'). unfold record_full, deref. rewrite Ha. eapply tri_outcome_bind; [done|].
  eapply (tri_bind (abuf_blocks a)); [apply abuf_grow_own|rewrite (proc_blocks_thread _ _ _ Hi), HF, <- app_assoc; reflexivity|].
  intros a' l Hl. apply tri_ret. rewrite app_assoc. apply (with_thread_own pr i t); [done|done| |by rewrite HF', Hl].
  destruct Ht as [Hs Hpl Hsc Htb Hst Hg Hit Hab]. destruct b; split; cbn in *; auto.
  - intros E. by rewrite (Hab E) in Ha.
  - split; [eauto|]. intros _. apply Hsc. eauto.
  - destruct Hs as [S1 S2 S3 S4 S5 S6 S7 S8]. by split.
Qed.

Lemma alive_own pr s l : alive pr s l -> proc_ok pr /\ own s (proc_blocks pr ++ l).
Proof.
  induction 1 as [s l pr s' Hs E|pr s l me h h' pr' s' _ [Hok Ho] Hm E|pr s l i pr' s' _ [Hok Ho] Hmt Hlen E
    |pr s l i t b n t' s' _ [Hok Ho] Hi Hb E|pr s l i t p b n sei s' _ [Hok Ho] Hi Hb E
    |pr s l n q s' _ [Hok Ho] E|pr s l q l' s' _ [Hok Ho] Hl E].
  - destruct (tri_run _ _ _ s l _ _ __sei_init_own Hs E) as (l' & [Hl [Hok _]] & Ho). by rewrite Hl in Ho.
  - destruct (tri_run _ _ _ s l _ _ (__sei_shift_own pr me h Hok Hm) Ho E) as (l' & (Hl & Hok' & _) & Ho'). by rewrite Hl in Ho'.
  - destruct (tri_run _ _ _ s l _ _ (__sei_thread_init_own pr Hok Hmt Hlen) Ho E) as (l' & (Hl & Hok' & _) & Ho'). by rewrite Hl in Ho'.
  - destruct (tri_run _ _ _ s l _ _ (record_full_own pr i t b n Hok Hi Hb) Ho E) as (l' & (Hl & Hok') & Ho'). by rewrite Hl in Ho'.
  - destruct (tri_run _ _ _ s l _ _ (full_own pr i t p b n Hok Hi Hb) Ho E) as (l' & (Hl & Hok') & Ho'). by rewrite Hl in Ho'.
  - destruct (tri_run [] (malloc n) _ s _ q s' (tri_malloc n) Ho E) as (l' & [_ ->] & Ho'). split; [done|].
    rewrite <- Permutation_middle. exact Ho'.
  - split; [done|]. rewrite Hl, <- Permutation_middle in Ho.
    destruct (tri_run [q] (free q) _ s _ tt s' (tri_free q) Ho) as (l1 & -> & Ho'); [|done]. unfold free. by rewrite E.
Qed.

(** The number of blocks a thread leaves at exit. *)
Definition left_per_thread : nat :=
  match threading with
  | SingleThread => 4
  | MultiThread _ SEI_TBAR => 4 + (if SEI_TBAR then 2 else 0) + (if SEI_WRAP_SC then 2 else 0)
  end.

Lemma opt_blocks_length {A} (fp : A -> list Z) b (o : option A) n : (b = true <-> is_Some o) ->
  (forall x, length (fp x) = n) -> length (opt_blocks fp o) = (if b then n else 0)%nat.
Proof.
  intros Hb Hn. unfold opt_blocks. destruct o as [x|]; cbn.
  - by rewrite Hn, (proj2 Hb (ex_intro _ x eq_refl)).
  - destruct b; [|done]. by destruct (proj1 Hb eq_refl).
Qed.

Lemma thread_left_length t : thread_ok t -> length (thread_left t) = left_per_thread.
Proof.
  intros [_ _ Hsc _ Hst _ _ _]. unfold thread_left, left_per_thread. destruct threading as [|two_pl tb] eqn:Ht; [done|].
  rewrite !length_app, (opt_blocks_length stash_blocks SEI_TBAR_on _ 2 Hst), (opt_blocks_length abuf_blocks SEI_WRAP_SC _ 2 Hsc) by done.
  unfold SEI_TBAR_on. rewrite Ht. cbn. lia.
Qed.

(** C17.  At exit, after any run of the process (up to 16 threads that attach by a prepare
    function or by [__sei_shift], contexts that are created and exchanged, write buffers and
    records that grow, blocks the application allocates and frees), the destructor [__sei_fini] returns: it frees no
    block twice and none that is not the library's.  The blocks that remain are those of
    the application and, per thread, exactly four of the library's (the [sei_t], the items of the
    trash bin, the stash and its array), two more with traversal barriers (the
    thread's stash) and two more in multi-threaded builds with wrapped system calls
    (the buffer of return values). *)
Theorem exit_frees_once pr s l : alive pr s l ->
  exists s', __sei_fini pr s = Ret (tt, s') /\ own s' (proc_left pr ++ l) /\
    length (proc_left pr) = (length (pr_threads pr) * left_per_thread)%nat.
Proof.
  intros [Hok Ho]%alive_own. rewrite proc_blocks_left, <- app_assoc in Ho.
  destruct (__sei_fini_own pr Hok s _ Ho) as ([] & s' & ? & E & -> & Ho'). exists s'. split_and!; [done..|].
  unfold proc_left. destruct Hok as [Hts _ _ _]. induction Hts as [|t ts Ht Hts IH]; [done|]. cbn. by rewrite length_app, IH, thread_left_length.
Qed.

(** C18.  The constructor, [__sei_shift] and the attachment of a thread by the prepare
    functions return whenever they are called within their contract: a thread the library does not know starts (with a new context in [__sei_shift], without one in a prepare function) if one of
    the 16 entries is free, a known thread asks for a new context or for one of the
    handles it got.  Handles are handed out in order.  After the call the output buffer
    and the barrier of the returned handle are the current ones; the contexts behind the
    other handles and the other threads are as before. *)
Theorem shift_returns :
  (forall s l, own s l -> exists pr s', __sei_init s = Ret (pr, s') /\ alive pr s' l) /\
  (forall pr s l me handle, alive pr s l -> may_shift pr me handle ->
    exists h pr' s', __sei_shift pr me handle s = Ret ((h, pr'), s') /\ alive pr' s' l /\
      shift_result pr me handle (h, pr')) /\
  (forall pr s l, alive pr s l -> threading <> SingleThread -> (length (pr_threads pr) < SEI_MAX_THREADS)%nat ->
    exists pr' s' t, attach pr None s = Ret ((length (pr_threads pr), pr'), s') /\ alive pr' s' l /\
      pr_threads pr' = pr_threads pr ++ [t] /\ stash_items (se_stash (th_sei t)) = []).
Proof.
  split_and!.
  - intros s l Hs. destruct (__sei_init_own s l Hs) as (pr & s' & l' & E & _). exists pr, s'. split; [done|]. by apply (alive_init s).
  - intros pr s l me handle Ha Hm. destruct (alive_own _ _ _ Ha) as [Hok Ho].
    destruct (__sei_shift_own pr me handle Hok Hm s l Ho) as ([h pr'] & s' & l' & E & (_ & _ & Hr) & _).
    exists h, pr', s'. split_and!; [done|by eapply alive_shift|done].
  - intros pr s l Ha Hmt Hlen. destruct (alive_own _ _ _ Ha) as [Hok Ho].
    destruct (__sei_thread_init_own pr Hok Hmt Hlen s l Ho) as ([i pr'] & s' & l' & E & (_ & _ & Hi & _ & t & Hts & Hst) & _).
    cbn [fst snd] in *. subst i. exists pr', s', t. split_and!; [done|by eapply alive_prepare|done..].
Qed.

Lemma elem_of_blocks {A} (fp : A -> list Z) x l p : x ∈ l -> p ∈ fp x -> p ∈ concat (fp <$> l).
Proof. intros Hx Hp. induction Hx; cbn; rewrite elem_of_app; auto. Qed.

(** C16.  While the process runs (after the constructor: threads that attach, by a prepare
    function or by [__sei_shift], while one of the 16 entries is free; contexts that are
    created and exchanged; write buffers and records that grow; blocks the application
    allocates and frees) no thread has a dangling context: every output buffer of
    its stash and every traversal barrier of its stash is live, the current ones among
    them (before the first shift: the current ones), no two of them share a block, and the
    two stashes always have the same handles, which the two disabled assertions [handle == h] of [__sei_shift] were to check. *)
Theorem contexts_live pr s l i t : alive pr s l -> pr_threads pr !! i = Some t ->
  se_obuf (th_sei t) ∈ sei_obufs (th_sei t) /\
  (forall o p, o ∈ sei_obufs (th_sei t) -> p ∈ obuf_blocks o -> p ∈ al_live s) /\
  NoDup (concat (obuf_blocks <$> sei_obufs (th_sei t))) /\
  (forall st, th_stash t = Some st ->
    length (stash_items st) = length (stash_items (se_stash (th_sei t))) /\
    (exists b, th_tbar t = Some b /\ b ∈ thread_tbars t) /\
    (forall b p, b ∈ thread_tbars t -> p ∈ tbar_blocks b -> p ∈ al_live s) /\
    NoDup (concat (tbar_blocks <$> thread_tbars t))).
Proof.
  intros [Hok Ho]%alive_own Hi. destruct Ho as [Hnd Hlive].
  pose proof (proj1 (Forall_lookup _ _) (pk_threads _ Hok) i t Hi) as [Hs Hpl Hsc Htb Hst Hg Hit Hab].
  assert (Hin : forall p, p ∈ sei_blocks (th_sei t) ++ thread_bars t -> p ∈ al_live s).
  { intros p Hp. rewrite Hlive, elem_of_list_to_set, elem_of_app. left.
    rewrite (proc_blocks_thread _ _ _ Hi), elem_of_app, (thread_blocks_split t). left. rewrite app_assoc, elem_of_app. by left. }
  assert (Hnd' : NoDup (sei_blocks (th_sei t)) /\ NoDup (thread_bars t)).
  { rewrite (proc_blocks_thread _ _ _ Hi), (thread_blocks_split t), !NoDup_app in Hnd. tauto. }
  split_and!.
  - unfold sei_obufs. destruct (sk_obuf _ Hs) as [->|Hc]; [by left|]. by destruct (stash_items _); [apply elem_of_nil in Hc|].
  - intros o p Hoin Hp. apply Hin. rewrite sei_blocks_frame, !elem_of_app. do 2 left. by apply (elem_of_blocks _ o).
  - destruct Hnd' as [Hn _]. rewrite sei_blocks_frame, !NoDup_app in Hn. tauto.
  - intros st Hst'. destruct (Hit st Hst') as (Hstok & Hgood & Hlen & Hcur). pose proof (proj2 Hst (ex_intro _ st Hst')) as E.
    destruct (proj1 Htb E) as [b Hb]. split_and!; [done| | |].
    + exists b. split; [done|]. unfold thread_tbars. rewrite Hst'. cbn. destruct Hcur as [->|(b' & Hb' & Hc)]; [rewrite Hb; by left|].
      rewrite Hb in Hb'. injection Hb' as <-. by destruct (stash_items st); [apply elem_of_nil in Hc|].
    + intros b' p Hb' Hp. apply Hin. rewrite elem_of_app. right. unfold thread_bars, SEI_TBAR_on in *. destruct threading; [done|].
      rewrite elem_of_app. left. by apply (elem_of_blocks _ b').
    + destruct Hnd' as [_ Hn]. unfold thread_bars, SEI_TBAR_on in *. destruct threading; [done|]. rewrite NoDup_app in Hn. tauto.
Qed.

Lemma stash_get_stop s h x : NDEBUG = false -> sei_ok x -> (length (stash_items (se_stash x)) <= h)%nat ->
  sei_shift x (Some h) s = Stop AssertFailed.
Proof.
  intros Hd Hs Hh. rewrite <- (stash_size_items _ (sk_stash _ Hs)) in Hh. unfold sei_shift. apply act_stop. unfold stash_get.
  erewrite act_run. 2: { unfold assert_ptr, of_outcome. by rewrite (proj2 (Z.eqb_neq _ _) (so_self _ (sk_stash _ Hs))), c_assert_true. }
  unfold of_outcome, Cfc.stash_get, c_assert. unfold stash_size in Hh. by rewrite Hd, (proj2 (Nat.ltb_ge h _) Hh).
Qed.

(** Outside its contract, [__sei_shift] is not guarded: the seventeenth thread writes
    behind the array of threads, and a handle that the caller did not get stops a debug
    build at the assertion of [stash_get]. *)
Theorem shift_misuse pr s l : alive pr s l ->
  (threading <> SingleThread -> length (pr_threads pr) = SEI_MAX_THREADS ->
    forall handle, __sei_shift pr None handle s = Stop OutOfBounds) /\
  (NDEBUG = false -> forall i t h, pr_threads pr !! i = Some t -> (length (stash_items (se_stash (th_sei t))) <= h)%nat ->
    __sei_shift pr (Some i) (Some h) s = Stop AssertFailed).
Proof.
  intros [Hok Ho]%alive_own. split.
  - intros Hmt Hlen handle. unfold __sei_shift, attach, __sei_thread_init. destruct threading as [|two_pl tb]; [done|].
    apply act_stop, act_stop. unfold of_outcome. by rewrite decide_False by lia.
  - intros Hd i t h Hi Hh. pose proof (proj1 (Forall_lookup _ _) (pk_threads _ Hok) i t Hi) as [Hs Hpl Hsc Htb Hst Hg Hit Hab].
    assert (Hsei : sei_shift (th_sei t) (Some h) s = Stop AssertFailed) by (by apply stash_get_stop).
    unfold __sei_shift. erewrite act_run by done. erewrite act_run by (unfold of_outcome, arr_get; cbn [fst snd]; rewrite Hi; done).
    apply act_stop. cbn [fst snd]. unfold thread_shift, shift_plain, shift_tbar.
    assert (Hst' : forall two_pl, threading = MultiThread two_pl true -> is_Some (th_stash t)).
    { intros two_pl Ht. apply Hst. unfold SEI_TBAR_on. by rewrite Ht. }
    destruct threading as [|two_pl [|]]; [by apply act_stop| |by apply act_stop].
    destruct (Hst' two_pl eq_refl) as [st ->]. erewrite act_run by done. by apply act_stop.
Qed.

(** ** The heap mode (src/mode_heap.c) *)

Record hsei_obj := mk_hsei_obj { ho_self : Z; ho_heap : list heap_obj; ho_cow : list cow_obj }.
Definition HEAP_500MB : Z := 500 * (1024 * 1024).

(** [sei_init] and [sei_fini] of this mode. *)
Definition heap_sei_init : act S hsei_obj :=
  sei ← malloc (sizeof sizeof_sei_t); assert_ptr sei;;
  heap0 ← heap_init sizeof HEAP_500MB; heap1 ← heap_init sizeof HEAP_500MB;
  cow0 ← cow_init sizeof (Z.of_nat COW_SIZE); cow1 ← cow_init sizeof (Z.of_nat COW_SIZE);
  mret (mk_hsei_obj sei [heap0; heap1] [cow0; cow1]).
Definition heap_sei_fini (h : hsei_obj) : act S unit :=
  assert_ptr (ho_self h);;
  each cow_fini (ho_cow h);;
  each heap_fini (ho_heap h).

(** The structure itself is left. *)
Lemma heap_mode_leaves s l : own s l ->
  exists h s1 s2, heap_sei_init s = Ret (h, s1) /\ heap_sei_fini h s1 = Ret (tt, s2) /\ own s2 (ho_self h :: l).
Proof.
  assert (Hi : makes heap_sei_init (fun h => ho_self h :: concat (cow_blocks <$> ho_cow h) ++ concat (heap_blocks <$> ho_heap h)) (fun h => ho_self h <> 0)).
  { unfold heap_sei_init, makes. own_steps. do 2 (eapply tri_makes_bind; [apply heap_init_own; vm_compute; by right|]; intros ? _).
    do 2 (eapply tri_makes_bind; [apply cow_init_own|]; intros ? _). own_steps. split; [|done]. cbn. rewrite !app_nil_r. solve_Permutation. }
  assert (Hf : forall h, ho_self h <> 0 -> frees (heap_sei_fini h) (concat (cow_blocks <$> ho_cow h) ++ concat (heap_blocks <$> ho_heap h))).
  { intros h Hh. unfold heap_sei_fini, frees. apply tri_assert_bind; [done|].
    eapply tri_frees_bind; [apply (tri_each cow_blocks (fun _ => True)); [intros; apply cow_fini_own|by apply Forall_true]|reflexivity|].
    apply (tri_each heap_blocks (fun _ => True)); [intros; apply heap_fini_own|by apply Forall_true]. }
  intros Hs. destruct (Hi s l Hs) as (h & s1 & l1 & E1 & [Hl Hh] & Ho).
  destruct (Hf h Hh s1 (ho_self h :: l)) as ([] & s2 & l2 & E2 & -> & Ho2).
  - rewrite Hl in Ho. rewrite <- Permutation_middle. exact Ho.
  - by exists h, s1, s2.
Qed.

End Lifetime.

(** ** Witnesses *)

(** A multi-threaded build with barriers and wrapped system calls: one thread creates
    two contexts and goes back to the first. *)
Definition demo_config : Config :=
  {| COW_APPEND_ONLY := true; COW_USEHEAP := false; HEAP_PROTECT := false; SEI_WRAP_SC := true;
     threading := MultiThread false true |}.
Definition demo_sizeof (_ : cstruct) : Z := 64.

Section Demo.
#[local] Existing Instance demo_config.
#[local] Instance demo_build : Build := debug_build 2.

Definition demo_calls : list (option nat * option nat) := [(None, None); (Some 0, None); (Some 0, Some 0)]%nat.
Fixpoint demo_shifts (cs : list (option nat * option nat)) (pr : process) : act libc process :=
  match cs with
  | [] => mret pr
  | (me, h) :: cs => r ← __sei_shift demo_sizeof pr me h; demo_shifts cs r.2
  end.
(** A call is within the contract of [__sei_shift], as a check that computes. *)
Definition may_shift_dec (pr : process) (me handle : option nat) : bool :=
  match me with
  | None => (length (pr_threads pr) <? SEI_MAX_THREADS)%nat && match handle with None => true | _ => false end
  | Some i => match pr_threads pr !! i, handle with
              | Some t, Some h => (h <? length (stash_items (se_stash (th_sei t))))%nat
              | Some _, None => true
              | None, _ => false
              end
  end.
Lemma may_shift_dec_sound pr me handle : may_shift_dec pr me handle = true -> may_shift pr me handle.
Proof.
  unfold may_shift_dec, may_shift. destruct me as [i|].
  - destruct (pr_threads pr !! i) as [t|]; [|done]. intros Hh. exists t. split; [done|]. intros h ->. by apply Nat.ltb_lt.
  - intros [Hl Hh]%andb_prop. split_and!; [done|by apply Nat.ltb_lt|by destruct handle].
Qed.

Definition demo_state (n : nat) : process * libc :=
  match (pr ← __sei_init demo_sizeof; demo_shifts (take n demo_calls) pr) (mk_libc ∅) with Ret x => x | Stop _ => (mk_process None [], mk_libc ∅) end.

Lemma demo_alive : alive demo_sizeof (demo_state 3).1 (demo_state 3).2 [].
Proof.
  assert (H0 : alive demo_sizeof (demo_state 0).1 (demo_state 0).2 []).
  { eapply (alive_init _ (mk_libc ∅)); [|vm_compute; reflexivity]. split; [constructor|]. apply set_eq. intros x. cbn. rewrite dom_empty_L. set_solver. }
  assert (H1 : alive demo_sizeof (demo_state 1).1 (demo_state 1).2 []).
  { eapply (alive_shift _ _ _ _ None None 0%nat); [exact H0|apply may_shift_dec_sound; vm_compute; reflexivity|vm_compute; reflexivity]. }
  assert (H2 : alive demo_sizeof (demo_state 2).1 (demo_state 2).2 []).
  { eapply (alive_shift _ _ _ _ (Some 0%nat) None 1%nat); [exact H1|apply may_shift_dec_sound; vm_compute; reflexivity|vm_compute; reflexivity]. }
  eapply (alive_shift _ _ _ _ (Some 0%nat) (Some 0%nat) 0%nat); [exact H2|apply may_shift_dec_sound; vm_compute; reflexivity|vm_compute; reflexivity].
Qed.

(** A second thread, attached by one of the [__sei_prepare] functions: it has no handle. *)
Definition demo_two : process * libc :=
  match attach demo_sizeof (demo_state 3).1 None (demo_state 3).2 with Ret (r, s) => (r.2, s) | Stop _ => demo_state 0 end.
Lemma demo_two_alive : alive demo_sizeof demo_two.1 demo_two.2 [].
Proof. eapply (alive_prepare _ _ _ _ 1%nat); [exact demo_alive|done|vm_compute; lia|vm_compute; reflexivity]. Qed.

Lemma exit_frees_once_witness : exists s',
  __sei_fini demo_two.1 demo_two.2 = Ret (tt, s') /\ size (al_live demo_two.2) = 87%nat /\
  length (proc_left demo_two.1) = 16%nat.
Proof.
  destruct (exit_frees_once demo_sizeof demo_two.1 demo_two.2 [] demo_two_alive) as (s' & E & _ & Hl).
  exists s'. split_and!; [exact E|vm_compute; reflexivity|exact Hl].
Defined.

Lemma shift_returns_witness : exists h pr' s', __sei_shift demo_sizeof (demo_state 3).1 (Some 0%nat) None (demo_state 3).2 = Ret ((h, pr'), s') /\
  h = 2%nat /\ alive demo_sizeof pr' s' [].
Proof.
  destruct (proj1 (proj2 (shift_returns demo_sizeof)) _ _ _ (Some 0%nat) None demo_alive) as (h & pr' & s' & E & Ha & t & t' & Ht & _ & [[Hh _] _]).
  { apply may_shift_dec_sound. vm_compute. reflexivity. }
  exists h, pr', s'. split; [exact E|]. split; [|exact Ha].
  cbn [fst] in Hh. rewrite Hh. vm_compute in Ht. injection Ht as <-. reflexivity.
Defined.

Lemma contexts_live_witness : exists t, pr_threads (demo_state 3).1 !! 0%nat = Some t /\
  length (stash_items (se_stash (th_sei t))) = 2%nat /\ se_obuf (th_sei t) ∈ sei_obufs (th_sei t).
Proof.
  destruct (pr_threads (demo_state 3).1 !! 0%nat) as [t|] eqn:Ht; [|vm_compute in Ht; discriminate].
  exists t. split; [done|]. split; [vm_compute in Ht; injection Ht as <-; reflexivity|].
  apply (contexts_live demo_sizeof _ _ _ 0%nat t demo_alive Ht).
Defined.

Lemma shift_misuse_witness : __sei_shift demo_sizeof (demo_state 3).1 (Some 0%nat) (Some 2%nat) (demo_state 3).2 = Stop AssertFailed.
Proof.
  destruct (pr_threads (demo_state 3).1 !! 0%nat) as [t|] eqn:Ht; [|vm_compute in Ht; discriminate].
  apply (proj2 (shift_misuse demo_sizeof _ _ _ demo_alive)) with t; [reflexivity|exact Ht|].
  vm_compute in Ht. injection Ht as <-. vm_compute. lia.
Defined.
End Demo.
