(* ===== verification/Tbar.v ===== *)
(** * The traversal barrier (src/tbar.c)

    A grace-period detector.  Every thread has a counter in a shared array, odd
    while the thread is inside a traversal; a thread that leaves takes a snapshot
    of all counters, and its later calls of [tbar_check] answer 1 once every
    thread that was inside has left since.  The functions are modelled one by
    one, and the steps between which other threads may run are also given as a
    step relation: every access to the shared counters is one step (the build
    with atomic operations, sequentially consistent). *)

From S2P Require Export Prelude.

Record tbar_item := mk_item { it_count : Z; it_mark : Z }.

(** [struct tbar].  The pointer [global] is the same for all threads; the global
    object is passed along instead.  In it, [tr_me] is the number of threads. *)
Record tbar := mk_tbar {
  tr_me : Z;
  tr_threads : Z;
  tr_max_threads : Z;
  tr_items : list tbar_item;
}.

Section Tbar.
Context `{Build}.
Implicit Types (t g : tbar).

(** ** The functions *)

Definition with_items t (l : list tbar_item) : tbar :=
  mk_tbar (tr_me t) (tr_threads t) (tr_max_threads t) l.
Definition with_me t (n : Z) : tbar :=
  mk_tbar n (tr_threads t) (tr_max_threads t) (tr_items t).

(** [tbar_init(max_threads, NULL)]. *)
Definition tbar_init_global (max_threads : Z) : tbar :=
  mk_tbar 0 0 max_threads (replicate (Z.to_nat max_threads) (mk_item 0 0)).

(** [tbar_init(max_threads, global)]. *)
Definition tbar_init (max_threads : Z) g : tbar * tbar :=
  (mk_tbar (tr_me g) 0 max_threads (replicate (Z.to_nat max_threads) (mk_item 0 0)),
   with_me g (s32 (tr_me g + 1))).

(** [tbar_idup]: the items are copied. *)
Definition tbar_idup t : tbar := t.

(** [__atomic_fetch_add(&global->items[me].count, 1, ...)]. *)
Definition fetch_add g (me : Z) : outcome (Z * tbar) :=
  it ← arr_getZ (tr_items g) me;
  l ← arr_setZ (tr_items g) me (mk_item (u64 (it_count it + 1)) (it_mark it));
  Ret (it_count it, with_items g l).

Definition tbar_enter t g : outcome tbar :=
  '(c, g) ← fetch_add g (tr_me t);
  c_assert (c mod 2 =? 0);;
  Ret g.

(** [tbar_leave] up to the loop. *)
Definition leave_begin t g : outcome tbar :=
  '(c, g) ← fetch_add g (tr_me t);
  c_assert (c mod 2 =? 1);;
  Ret g.

(** The body of the loop: copy a counter, reset the mark. *)
Definition leave_item g (i : nat) t : outcome tbar :=
  it ← arr_get (tr_items g) i;
  l ← arr_set (tr_items t) i (mk_item (it_count it) 0);
  Ret (with_items t l).

Definition tbar_leave t g : outcome (tbar * tbar) :=
  g ← leave_begin t g;
  let m := tr_me g in
  t ← for_range (Z.to_nat m) 0 (leave_item g) t;
  Ret (t, g).

Definition mark_item t (i : nat) (it : tbar_item) : outcome tbar :=
  l ← arr_set (tr_items t) i (mk_item (it_count it) 1); Ret (with_items t l).

(** The body of the loop of [tbar_check]; [r] is the result so far.  The
    [int count] is converted back to 64 bits for the comparison. *)
Definition check_item g (i : nat) (st : tbar * bool) : outcome (tbar * bool) :=
  let '(t, r) := st in
  it ← arr_get (tr_items t) i;
  if negb (it_mark it =? 0) then Ret (t, r)
  else if it_count it mod 2 =? 0 then t ← mark_item t i it; Ret (t, r)
  else
    git ← arr_get (tr_items g) i;
    let count := s32 (it_count git) in
    if it_count it <? u64 count then t ← mark_item t i it; Ret (t, r)
    else Ret (t, false).

Definition tbar_check t g : outcome (tbar * bool) :=
  for_range (Z.to_nat (tr_me g)) 0 (check_item g) (t, true).

(** [__sei_bar] of src/tmi.c: is the barrier still closed? *)
Definition __sei_bar t g : outcome (tbar * bool) :=
  '(t, r) ← tbar_check t g; Ret (t, negb r).

(** ** Interleaved execution *)

(** Where the operation in progress on a barrier is: before the read of the
    number of threads and in the loop of [tbar_leave]; at the head and in the
    body of the loop of [tbar_check]. *)
Inductive pc :=
  | Idle
  | Left
  | Leaving (i m : nat)
  | Checking (i : nat) (r : bool)
  | Body (i : nat) (r : bool).

Record config := mk_config { c_global : tbar; c_bars : list (tbar * pc) }.

Inductive label :=
  | LInit (max_threads : Z)
  | LIdup (h : nat)
  | LEnter (h : nat)
  | LLeave (h : nat)
  | LCheck (h : nat)
  | LTau (h : nat)
  | LReturn (h : nat) (r : bool).

Definition set_bar (c : config) g (h : nat) t (p : pc) : config :=
  mk_config g (<[h := (t, p)]> (c_bars c)).

Inductive step : config -> label -> config -> Prop :=
  | step_init c max t g' : tbar_init max (c_global c) = (t, g') ->
      step c (LInit max) (mk_config g' (c_bars c ++ [(t, Idle)]))
  | step_idup c h t : c_bars c !! h = Some (t, Idle) ->
      step c (LIdup h) (mk_config (c_global c) (c_bars c ++ [(tbar_idup t, Idle)]))
  | step_enter c h t g' : c_bars c !! h = Some (t, Idle) -> tbar_enter t (c_global c) = Ret g' ->
      step c (LEnter h) (mk_config g' (c_bars c))
  | step_leave c h t g' : c_bars c !! h = Some (t, Idle) -> leave_begin t (c_global c) = Ret g' ->
      step c (LLeave h) (set_bar c g' h t Left)
  | step_threads c h t : c_bars c !! h = Some (t, Left) ->
      step c (LTau h) (set_bar c (c_global c) h t (Leaving 0 (Z.to_nat (tr_me (c_global c)))))
  | step_copy c h t t' i m : c_bars c !! h = Some (t, Leaving i m) -> (i < m)%nat ->
      leave_item (c_global c) i t = Ret t' ->
      step c (LTau h) (set_bar c (c_global c) h t' (Leaving (i + 1) m))
  | step_left c h t i m : c_bars c !! h = Some (t, Leaving i m) -> (m <= i)%nat ->
      step c (LTau h) (set_bar c (c_global c) h t Idle)
  | step_check c h t : c_bars c !! h = Some (t, Idle) ->
      step c (LCheck h) (set_bar c (c_global c) h t (Checking 0 true))
  | step_head c h t i r : c_bars c !! h = Some (t, Checking i r) -> Z.of_nat i < tr_me (c_global c) ->
      step c (LTau h) (set_bar c (c_global c) h t (Body i r))
  | step_body c h t t' i r r' : c_bars c !! h = Some (t, Body i r) ->
      check_item (c_global c) i (t, r) = Ret (t', r') ->
      step c (LTau h) (set_bar c (c_global c) h t' (Checking (i + 1) r'))
  | step_return c h t i r : c_bars c !! h = Some (t, Checking i r) -> tr_me (c_global c) <= Z.of_nat i ->
      step c (LReturn h r) (set_bar c (c_global c) h t Idle).

Inductive steps : config -> list label -> config -> Prop :=
  | steps_nil c : steps c [] c
  | steps_cons c l c' ls c'' : step c l c' -> steps c' ls c'' -> steps c (l :: ls) c''.

Definition start (max_threads : Z) : config := mk_config (tbar_init_global max_threads) [].

(** What makes a counter or the number of threads grow. *)
Definition move (l : label) : nat :=
  match l with LEnter _ | LLeave _ | LInit _ => 1 | _ => 0 end.
Definition moves (ls : list label) : nat := sum_list (move <$> ls).

(** The counter of thread [i]; odd while the thread is inside. *)
Definition counter (c : config) (i : nat) : Z := from_option it_count 0 (tr_items (c_global c) !! i).
Definition inside (c : config) (i : nat) : Prop := counter c i mod 2 = 1.

(** ** Reachable states *)

Record tbar_inv (n : nat) (c : config) : Prop := {
  ti_me : 0 <= tr_me (c_global c) <= Z.of_nat n;
  ti_bars : forall h t p, c_bars c !! h = Some (t, p) -> 0 <= tr_me t < tr_me (c_global c);
  ti_count : forall i, 0 <= counter c i <= Z.of_nat n;
  ti_new : forall i, tr_me (c_global c) <= Z.of_nat i -> counter c i = 0;
}.

Lemma fetch_add_Ret g me c g' : fetch_add g me = Ret (c, g') -> exists it,
  0 <= me /\ tr_items g !! Z.to_nat me = Some it /\ c = it_count it /\
  g' = with_items g (<[Z.to_nat me := mk_item (u64 (it_count it + 1)) (it_mark it)]> (tr_items g)).
Proof.
  unfold fetch_add, arr_getZ, arr_setZ. destruct (Z.ltb_spec me 0); [discriminate|]. intros E. inv_outcome.
  eexists. split_and!; done.
Qed.

(** The effect of [fetch_add] on the counters. *)
Lemma fetch_add_counter c bars me x g' : fetch_add (c_global c) me = Ret (x, g') ->
  0 <= me /\ tr_me g' = tr_me (c_global c) /\ x = counter c (Z.to_nat me) /\
  forall i, counter (mk_config g' bars) i = if decide (i = Z.to_nat me) then u64 (counter c i + 1) else counter c i.
Proof.
  intros (it & Hme & Hit & -> & ->)%fetch_add_Ret. unfold counter. cbn [c_global with_items tr_items tr_me].
  split_and!; [done|done|by rewrite Hit|]. intros i. case_decide as E.
  - subst i. rewrite list_lookup_insert_eq by (by eapply lookup_lt_Some). by rewrite Hit.
  - by rewrite list_lookup_insert_ne by done.
Qed.

Lemma tbar_enter_fetch t g g' : tbar_enter t g = Ret g' -> exists x, fetch_add g (tr_me t) = Ret (x, g').
Proof. unfold tbar_enter. intros E. inv_outcome. case_match. inv_outcome. eauto. Qed.
Lemma leave_begin_fetch t g g' : leave_begin t g = Ret g' -> exists x, fetch_add g (tr_me t) = Ret (x, g').
Proof. unfold leave_begin. intros E. inv_outcome. case_match. inv_outcome. eauto. Qed.

Lemma check_item_me g i t r t' r' : check_item g i (t, r) = Ret (t', r') -> tr_me t' = tr_me t.
Proof. unfold check_item, mark_item. intros E. repeat first [progress inv_outcome | case_match | progress simplify_eq]; done. Qed.
Lemma leave_item_me g i t t' : leave_item g i t = Ret t' -> tr_me t' = tr_me t.
Proof. unfold leave_item. intros E. inv_outcome. done. Qed.

Definition grows (c c' : config) : Prop :=
  tr_me (c_global c) <= tr_me (c_global c') /\ forall i, counter c i <= counter c' i.

(** Steps that only change one barrier. *)
Lemma inv_local n c h t p t' p' : tbar_inv n c -> c_bars c !! h = Some (t, p) -> tr_me t' = tr_me t ->
  tbar_inv n (set_bar c (c_global c) h t' p') /\ grows c (set_bar c (c_global c) h t' p').
Proof.
  intros Hi Hh Hme. split; [|split; done]. destruct Hi as [H1 H2 H3 H4]. split; try done.
  intros h0 t0 p0. cbn [c_bars set_bar]. intros [(<- & [= <- <-] & _)|[_ E]]%list_lookup_insert_Some; [|by eapply H2].
  rewrite Hme. by eapply H2.
Qed.

(** Steps that increment a counter. *)
Lemma inv_fetch n c h t p x g' bars : tbar_inv n c -> (Z.of_nat n + 1 < 2^31) ->
  c_bars c !! h = Some (t, p) -> fetch_add (c_global c) (tr_me t) = Ret (x, g') ->
  (bars = c_bars c \/ exists p', bars = <[h := (t, p')]> (c_bars c)) ->
  tbar_inv (n + 1) (mk_config g' bars) /\ grows c (mk_config g' bars).
Proof.
  intros [H1 H2 H3 H4] Hn Hh Hf Hb. apply (fetch_add_counter c bars) in Hf as (Hme & Hg & _ & Hc).
  assert (Hc' : forall i, counter c i <= counter (mk_config g' bars) i <= Z.of_nat n + 1).
  { intros i. rewrite Hc. specialize (H3 i). case_decide; [rewrite u64_small by lia|]; lia. }
  split; [|split; [cbn; lia|intros; apply Hc']]. split; cbn [c_global c_bars]; rewrite ?Hg.
  - lia.
  - intros h0 t0 p0 E. destruct Hb as [->|[p' ->]]; [by eapply H2|].
    apply list_lookup_insert_Some in E as [(<- & [= <- <-] & _)|[_ E]]; by eapply H2.
  - intros i. specialize (Hc' i). specialize (H3 i). lia.
  - intros i Hi. rewrite Hc. case_decide; [|by apply H4]. specialize (H2 _ _ _ Hh). subst i. lia.
Qed.

Lemma step_inv n c l c' : tbar_inv n c -> Z.of_nat (n + move l) < 2^31 -> step c l c' ->
  tbar_inv (n + move l) c' /\ grows c c'.
Proof.
  intros Hi Hn Hs. inversion Hs; subst; cbn [move] in *; rewrite ?Nat.add_0_r in *;
    try (eapply inv_local; eauto using leave_item_me, check_item_me; done).
  - match goal with X : tbar_init _ _ = _ |- _ => injection X as <- <- end.
    destruct Hi as [H1 H2 H3 H4]. unfold s32. rewrite Z.mod_small by lia.
    split; [split|split]; cbn [c_global c_bars with_me tr_me]; try lia.
    + intros h0 t0 p0 [E|[? E]]%lookup_app_Some; [specialize (H2 _ _ _ E); lia|].
      apply list_lookup_singleton_Some in E as [_ [= <- <-]]. cbn. lia.
    + intros i. specialize (H3 i). change (0 <= counter c i <= Z.of_nat (n + 1)). lia.
    + intros i Hi. apply (H4 i). lia.
    + done.
  - split; [|split; done]. destruct Hi as [H1 H2 H3 H4]. split; try done. cbn [c_bars].
    intros h0 t0 p0 [E|[? E]]%lookup_app_Some; [by eapply H2|].
    apply list_lookup_singleton_Some in E as [_ [= <- <-]]. by eapply H2.
  - match goal with X : tbar_enter _ _ = _ |- _ => apply tbar_enter_fetch in X as [x Hf] end.
    eapply inv_fetch; eauto. lia.
  - match goal with X : leave_begin _ _ = _ |- _ => apply leave_begin_fetch in X as [x Hf] end.
    eapply inv_fetch; eauto. lia.
Qed.

Lemma moves_cons l ls : moves (l :: ls) = (move l + moves ls)%nat.
Proof. done. Qed.
Lemma moves_app l k : moves (l ++ k) = (moves l + moves k)%nat.
Proof. induction l as [|x l IH]; [done|]. cbn [app]. rewrite !moves_cons. lia. Qed.

Lemma steps_inv c ls c' n : steps c ls c' -> tbar_inv n c -> Z.of_nat (n + moves ls) < 2^31 ->
  tbar_inv (n + moves ls) c'.
Proof.
  intros Hs. revert n. induction Hs as [|c l c1 ls c' Hs Hss IH]; intros n Hi Hn.
  - by rewrite Nat.add_0_r.
  - rewrite moves_cons in *. destruct (step_inv n c l c1 Hi ltac:(lia) Hs) as [Hi1 _].
    rewrite Nat.add_assoc. apply IH; [done|lia].
Qed.

Lemma start_inv max : tbar_inv 0 (start max).
Proof.
  assert (Hc : forall i, counter (start max) i = 0).
  { intros i. unfold counter. cbn. destruct (_ !! i) eqn:E; [|done]. by apply lookup_replicate in E as [-> _]. }
  split; intros; rewrite ?Hc; done.
Qed.

(** ** The snapshot of one barrier *)

Section Snapshot.
Context (c1 : config).

(** The snapshot of thread [j] is not older than [c1], and a mark is right. *)
Definition covered (c : config) t (j : nat) : Prop := exists it, tr_items t !! j = Some it /\
  counter c1 j <= it_count it <= counter c j /\ (it_mark it <> 0 -> inside c1 j -> counter c1 j < counter c j).
Definition marked t (j : nat) : Prop := exists it, tr_items t !! j = Some it /\ it_mark it <> 0.

Definition threads : Z := tr_me (c_global c1).

Definition covers (c : config) t (p : pc) : Prop :=
  match p with
  | Left => True
  | Leaving i m => threads <= Z.of_nat m /\ forall j, (j < i)%nat -> Z.of_nat j < threads -> covered c t j
  | Idle => forall j, Z.of_nat j < threads -> covered c t j
  | Checking i r | Body i r => (forall j, Z.of_nat j < threads -> covered c t j) /\
      (r = true -> forall j, (j < i)%nat -> Z.of_nat j < threads -> marked t j)
  end.

Lemma covered_grows c c' t j : grows c c' -> covered c t j -> covered c' t j.
Proof.
  intros [_ Hg] (it & E & Hc & Hm). exists it. specialize (Hg j). split_and!; [done|lia|lia|].
  intros Hk Hi. specialize (Hm Hk Hi). lia.
Qed.

Lemma covers_grows c c' t p : grows c c' -> covers c t p -> covers c' t p.
Proof. destruct p; cbn; intuition eauto using covered_grows. Qed.

(** The loop of [tbar_leave]. *)
Lemma leave_item_covers c i t t' : grows c1 c -> leave_item (c_global c) i t = Ret t' ->
  (forall j, (j < i)%nat -> Z.of_nat j < threads -> covered c t j) ->
  forall j, (j < i + 1)%nat -> Z.of_nat j < threads -> covered c t' j.
Proof.
  intros [_ Hg] E Hc j Hj Ht. unfold leave_item in E. inv_outcome. unfold covered. cbn [with_items tr_items].
  match goal with X : tr_items (c_global c) !! i = Some ?x |- _ => rename X into Hi, x into it end.
  destruct (decide (i = j)) as [<-|Hne].
  - rewrite list_lookup_insert_eq by done. eexists. split; [done|]. cbn [it_count it_mark]. specialize (Hg i).
    assert (Ec : counter c i = it_count it) by (unfold counter; by rewrite Hi). split; [lia|done].
  - rewrite list_lookup_insert_ne by done. apply Hc; [lia|done].
Qed.

Lemma mark_item_Ret t i it t' : tr_items t !! i = Some it -> mark_item t i it = Ret t' ->
  t' = with_items t (<[i := mk_item (it_count it) 1]> (tr_items t)).
Proof. unfold mark_item. intros _ E. inv_outcome. done. Qed.

Lemma mark_item_marked t i it t' j : tr_items t !! i = Some it -> mark_item t i it = Ret t' ->
  (j = i \/ marked t j) -> marked t' j.
Proof.
  intros Hi E Hj. rewrite (mark_item_Ret _ _ _ _ Hi E). unfold marked. cbn [with_items tr_items].
  destruct (decide (i = j)) as [<-|Hne].
  - rewrite list_lookup_insert_eq by (by eapply lookup_lt_Some). by eexists.
  - rewrite list_lookup_insert_ne by done. by destruct Hj as [->|Hj].
Qed.

Lemma mark_item_covered c t i it t' j : tr_items t !! i = Some it -> mark_item t i it = Ret t' ->
  (inside c1 i -> counter c1 i < counter c i) -> covered c t j -> covered c t' j.
Proof.
  intros Hi E Hp (it' & Hj & Hc & Hm). rewrite (mark_item_Ret _ _ _ _ Hi E). unfold covered. cbn [with_items tr_items].
  destruct (decide (i = j)) as [<-|Hne].
  - rewrite list_lookup_insert_eq by (by eapply lookup_lt_Some). rewrite Hi in Hj. injection Hj as ->.
    eexists. split; [done|]. split; [done|]. intros _. done.
  - rewrite list_lookup_insert_ne by done. by exists it'.
Qed.

(** Setting a mark is right: the snapshot is even, or the counter has moved. *)
Lemma mark_right c t i it : covered c t i -> tr_items t !! i = Some it -> counter c i < 2^31 -> 0 <= it_count it ->
  it_count it mod 2 = 0 \/ it_count it < u64 (s32 (counter c i)) -> inside c1 i -> counter c1 i < counter c i.
Proof.
  intros (it' & Hi & Hc & _) Hi' Hb H0 Hor Hin. rewrite Hi in Hi'. injection Hi' as ->. unfold inside in Hin.
  destruct Hor as [Hev|Hlt].
  - assert (counter c1 i <> it_count it) by congruence. lia.
  - unfold s32 in Hlt. rewrite Z.mod_small, u64_small in Hlt by lia. lia.
Qed.

(** One round of [tbar_check]. *)
Lemma check_item_covers c n i t r t' r' : tbar_inv n c -> Z.of_nat n < 2^31 -> grows c1 c ->
  (forall j, 0 <= counter c1 j) ->
  check_item (c_global c) i (t, r) = Ret (t', r') ->
  (forall j, Z.of_nat j < threads -> covered c t j) ->
  (r = true -> forall j, (j < i)%nat -> Z.of_nat j < threads -> marked t j) ->
  (forall j, Z.of_nat j < threads -> covered c t' j) /\
  (r' = true -> forall j, (j < i + 1)%nat -> Z.of_nat j < threads -> marked t' j).
Proof.
  intros Hinv Hn Hg H0 E Hc Hm. pose proof (ti_count _ _ Hinv i) as Hbound. unfold check_item in E. inv_outcome.
  match goal with X : tr_items t !! i = Some ?x |- _ => rename X into Hi, x into it end.
  destruct (Z.eqb_spec (it_mark it) 0) as [Hm0|Hm0]; cbn [negb] in *.
  2: { inv_outcome. simplify_eq. split; [done|]. intros Hr j Hj Ht. destruct (decide (j = i)) as [->|]; [by exists it|].
       apply Hm; [done|lia|done]. }
  assert (Hmark : forall t'', mark_item t i it = Ret t'' ->
    it_count it mod 2 = 0 \/ it_count it < u64 (s32 (counter c i)) ->
    (forall j, Z.of_nat j < threads -> covered c t'' j) /\
    (r = true -> forall j, (j < i + 1)%nat -> Z.of_nat j < threads -> marked t'' j)).
  { intros t'' Em Hor. split.
    - intros j Ht. destruct (decide (j = i)) as [->|].
      + eapply mark_item_covered; try done; [|by apply Hc]. intros Hin.
        eapply mark_right; try done; [by apply Hc|lia|]. destruct (Hc i Ht) as (it' & Hi' & ? & _). specialize (H0 i).
        rewrite Hi in Hi'. injection Hi' as ->. lia.
      + pose proof (Hc j Ht) as Hcj. rewrite (mark_item_Ret _ _ _ _ Hi Em). destruct Hcj as (it' & ? & ?).
        exists it'. cbn [with_items tr_items]. by rewrite list_lookup_insert_ne by done.
    - intros Hr j Hj Ht. eapply mark_item_marked; try done. destruct (decide (j = i)); [by left|right].
      apply Hm; [done|lia|done]. }
  destruct (Z.eqb_spec (it_count it mod 2) 0) as [Hev|Hev].
  - inv_outcome. simplify_eq. apply Hmark; [done|by left].
  - inv_outcome. match goal with X : tr_items (c_global c) !! i = Some ?x |- _ => rename X into Hgi, x into git end.
    assert (Ec : counter c i = it_count git) by (unfold counter; by rewrite Hgi). rewrite <- Ec in *.
    destruct (Z.ltb_spec (it_count it) (u64 (s32 (counter c i)))).
    + inv_outcome. simplify_eq. apply Hmark; [done|by right].
    + inv_outcome. simplify_eq. done.
Qed.

(** A barrier whose state changes from [(t, p)] to [(t', p')]. *)
Lemma covers_self c g' h t p t' p' : c_bars c !! h = Some (t, p) -> covers (set_bar c g' h t' p') t' p' ->
  exists t'' p'', c_bars (set_bar c g' h t' p') !! h = Some (t'', p'') /\ covers (set_bar c g' h t' p') t'' p''.
Proof. intros Hh Hc. exists t', p'. split; [|done]. apply list_lookup_insert_eq. by eapply lookup_lt_Some. Qed.

Lemma covers_step n c l c' h t p : tbar_inv n c -> Z.of_nat (n + move l) < 2^31 -> grows c1 c ->
  (forall j, 0 <= counter c1 j) -> step c l c' -> c_bars c !! h = Some (t, p) -> covers c t p ->
  exists t' p', c_bars c' !! h = Some (t', p') /\ covers c' t' p'.
Proof.
  intros Hinv Hn Hg H0 Hs Hh Hc. destruct (step_inv n c l c' Hinv Hn Hs) as [_ Hgr].
  assert (Hsame : c_bars c' !! h = c_bars c !! h -> exists t' p', c_bars c' !! h = Some (t', p') /\ covers c' t' p').
  { intros E. exists t, p. rewrite E. eauto using covers_grows. }
  inversion Hs; subst;
    try (apply Hsame; apply lookup_app_l; by eapply lookup_lt_Some);
    try (apply Hsame; reflexivity);
    (match goal with |- context [set_bar c _ ?k _ _] =>
       destruct (decide (k = h)) as [->|Hne]; [|apply Hsame; by apply list_lookup_insert_ne] end);
    (match goal with X : c_bars c !! h = Some _ |- _ => rewrite Hh in X; injection X as -> -> end);
    eapply covers_self; try eassumption; try (eapply covers_grows; [exact Hgr|]); cbn [covers] in *.
  - done.
  - destruct Hg as [Hme _]. pose proof (ti_me _ _ Hinv). unfold threads. split; [lia|]. intros; lia.
  - destruct Hc as [Hm Hc]. split; [done|]. by eapply leave_item_covers.
  - destruct Hc as [Hm Hc]. intros j Hj. apply Hc; [lia|done].
  - split; [done|]. intros; lia.
  - destruct Hc as [Hc Hm]. rewrite Nat.add_0_r in Hn. by eapply check_item_covers.
  - by destruct Hc.
Qed.

Lemma grows_trans a b c : grows a b -> grows b c -> grows a c.
Proof. intros [? H1] [? H2]. split; [lia|]. intros i. specialize (H1 i). specialize (H2 i). lia. Qed.

Lemma covers_steps c ls c' n h t p : steps c ls c' -> tbar_inv n c -> Z.of_nat (n + moves ls) < 2^31 -> grows c1 c ->
  (forall j, 0 <= counter c1 j) -> c_bars c !! h = Some (t, p) -> covers c t p ->
  grows c1 c' /\ exists t' p', c_bars c' !! h = Some (t', p') /\ covers c' t' p'.
Proof.
  intros Hs. revert n t p. induction Hs as [|c l c2 ls c' Hs Hss IH]; intros n t p Hinv Hn Hg H0 Hh Hc; [eauto|].
  rewrite moves_cons in Hn. destruct (step_inv n c l c2 Hinv ltac:(lia) Hs) as [Hi2 Hg2].
  destruct (covers_step n c l c2 h t p Hinv ltac:(lia) Hg H0 Hs Hh Hc) as (t2 & p2 & Hh2 & Hc2).
  eapply (IH (n + move l)%nat); eauto using grows_trans. lia.
Qed.

End Snapshot.

Lemma leave_pc c h c' : step c (LLeave h) c' -> exists t, c_bars c' !! h = Some (t, Left).
Proof.
  inversion 1; subst. eexists. apply list_lookup_insert_eq. by eapply lookup_lt_Some.
Qed.

(** C15.  Grace period.  When [tbar_check] answers 1 to a thread that left at some
    point, every thread that was inside at that point has left since, whatever
    the other threads do in between and during the calls (as long as fewer than
    2^31 traversals began or ended and threads started, together). *)
Theorem tbar_grace_period max ls1 c0 h c1 ls2 c2 c3 :
  steps (start max) ls1 c0 -> step c0 (LLeave h) c1 -> steps c1 ls2 c2 -> step c2 (LReturn h true) c3 ->
  Z.of_nat (moves ls1 + 1 + moves ls2) < 2^31 ->
  forall i, inside c1 i -> counter c1 i < counter c3 i.
Proof.
  intros H1 Hl H2 Hr Hn i Hin.
  pose proof (steps_inv _ _ _ 0 H1 (start_inv max) ltac:(cbn [Nat.add]; lia)) as Hi0. cbn [Nat.add] in Hi0.
  destruct (step_inv (moves ls1) c0 (LLeave h) c1 Hi0 ltac:(cbn [move]; lia) Hl) as [Hi1 _]. cbn [move] in Hi1.
  destruct (leave_pc _ _ _ Hl) as [t Ht].
  destruct (covers_steps c1 c1 ls2 c2 (moves ls1 + 1) h t Left H2 Hi1 Hn) as ([Hme _] & t' & p' & Hh & Hc);
    [done|intros j; apply (ti_count _ _ Hi1)|done|done|].
  inversion Hr; subst. match goal with X : c_bars c2 !! h = _ |- _ => rewrite Hh in X; injection X as -> -> end.
  destruct Hc as [Hc Hm]. change (counter c1 i < counter c2 i).
  destruct (decide (Z.of_nat i < threads c1)) as [Hi|Hi].
  - unfold threads in Hi. destruct (Hm eq_refl i ltac:(lia) Hi) as (it & E & Hmk).
    destruct (Hc i Hi) as (it' & E' & _ & Hp). rewrite E in E'. injection E' as <-. by apply Hp.
  - exfalso. unfold inside in Hin. rewrite (ti_new _ _ Hi1) in Hin by (unfold threads in Hi; lia). done.
Qed.

(** ** The functions run without interruption *)

(** They are runs of the step relation in which no other thread moves. *)
Lemma steps_app a ls b ls' c : steps a ls b -> steps b ls' c -> steps a (ls ++ ls') c.
Proof. induction 1; intros; [done|]. cbn [app]. econstructor; eauto. Qed.

Lemma set_bar_twice c h t p t' p' : set_bar (set_bar c (c_global c) h t p) (c_global c) h t' p' = set_bar c (c_global c) h t' p'.
Proof. unfold set_bar. cbn [c_bars]. by rewrite list_insert_insert_eq. Qed.

Lemma set_bar_lookup c h t0 p0 t p : c_bars c !! h = Some (t0, p0) ->
  c_bars (set_bar c (c_global c) h t p) !! h = Some (t, p).
Proof. intros E. apply list_lookup_insert_eq. by eapply lookup_lt_Some. Qed.

Lemma leave_loop_runs c h t0 p0 n i t t' : c_bars c !! h = Some (t0, p0) ->
  for_range n i (leave_item (c_global c)) t = Ret t' ->
  exists ls, steps (set_bar c (c_global c) h t (Leaving i (i + n))) ls (set_bar c (c_global c) h t' (Leaving (i + n) (i + n))).
Proof.
  intros Hh. revert i t. induction n as [|n IH]; intros i t E; cbn [for_range] in E.
  { inv_outcome. rewrite Nat.add_0_r. exists []. constructor. }
  inv_outcome. match goal with X : leave_item _ i t = Ret ?x |- _ => rename X into Ei, x into t1 end.
  match goal with X : for_range n _ _ _ = _ |- _ => apply IH in X as [ls Hls] end.
  replace (i + Datatypes.S n)%nat with (i + 1 + n)%nat by lia.
  exists (LTau h :: ls). eapply steps_cons; [|exact Hls]. rewrite <- (set_bar_twice c h t (Leaving i (i + 1 + n)) t1).
  apply (step_copy (set_bar c (c_global c) h t (Leaving i (i + 1 + n))) h t t1 i (i + 1 + n)); [by eapply set_bar_lookup|lia|done].
Qed.

Lemma tbar_leave_runs c h t t' g' : c_bars c !! h = Some (t, Idle) -> tbar_leave t (c_global c) = Ret (t', g') ->
  exists ls, steps c (LLeave h :: ls) (set_bar c g' h t' Idle).
Proof.
  intros Hh E. unfold tbar_leave in E. inv_outcome. simplify_eq.
  match goal with X : leave_begin _ _ = _ |- _ => rename X into El end.
  pose (c1 := set_bar c g' h t Left).
  assert (H1 : c_bars c1 !! h = Some (t, Left)) by (apply list_lookup_insert_eq; by eapply lookup_lt_Some).
  match goal with X : for_range _ _ _ _ = _ |- _ => apply (leave_loop_runs c1 h t Left) in X as [ls Hls]; [|done] end.
  exists (LTau h :: ls ++ [LTau h]). eapply steps_cons; [by eapply step_leave|]. eapply steps_cons; [by eapply (step_threads c1)|].
  eapply steps_app; [exact Hls|]. eapply steps_cons; [|].
  - eapply step_left; [by eapply set_bar_lookup|lia].
  - unfold c1, set_bar. cbn [c_bars c_global]. rewrite !list_insert_insert_eq. constructor.
Qed.

Lemma check_loop_runs c h t0 p0 n i t r t' r' : c_bars c !! h = Some (t0, p0) ->
  Z.of_nat (i + n) = tr_me (c_global c) -> for_range n i (check_item (c_global c)) (t, r) = Ret (t', r') ->
  exists ls, steps (set_bar c (c_global c) h t (Checking i r)) ls (set_bar c (c_global c) h t' (Checking (i + n) r')).
Proof.
  intros Hh. revert i t r. induction n as [|n IH]; intros i t r Hm E; cbn [for_range] in E.
  { inv_outcome. simplify_eq. rewrite Nat.add_0_r. exists []. constructor. }
  inv_outcome. match goal with X : check_item _ i (t, r) = Ret ?x |- _ => destruct x as [t1 r1]; rename X into Ei end.
  match goal with X : for_range n _ _ _ = _ |- _ => apply IH in X as [ls Hls]; [|lia] end.
  replace (i + Datatypes.S n)%nat with (i + 1 + n)%nat in * by lia.
  exists (LTau h :: LTau h :: ls). eapply steps_cons; [|eapply steps_cons; [|exact Hls]].
  - eapply step_head; [by eapply set_bar_lookup|]. cbn [set_bar c_global]. lia.
  - cbn [set_bar c_global]. rewrite set_bar_twice. rewrite <- (set_bar_twice c h t (Body i r) t1).
    eapply (step_body (set_bar c (c_global c) h t (Body i r))); [by eapply set_bar_lookup|done].
Qed.

Lemma tbar_check_runs c h t t' r : c_bars c !! h = Some (t, Idle) -> 0 <= tr_me (c_global c) ->
  tbar_check t (c_global c) = Ret (t', r) ->
  exists ls, steps c (LCheck h :: ls ++ [LReturn h r]) (set_bar c (c_global c) h t' Idle).
Proof.
  intros Hh H0 E. apply (check_loop_runs c h t Idle) in E as [ls Hls]; [|done|lia].
  exists ls. eapply steps_cons; [by eapply step_check|]. eapply steps_app; [exact Hls|].
  eapply steps_cons; [|]; [eapply step_return; [by eapply set_bar_lookup|]; cbn [set_bar c_global]; lia|].
  cbn [set_bar c_global]. rewrite set_bar_twice. constructor.
Qed.

(** What [tbar_check] finds out about one thread. *)
Definition gone (it git : tbar_item) : bool :=
  negb (it_mark it =? 0) || (it_count it mod 2 =? 0) || (it_count it <? u64 (s32 (it_count git))).

Lemma check_item_spec g i t r it git : tr_items t !! i = Some it -> tr_items g !! i = Some git ->
  exists t', check_item g i (t, r) = Ret (t', r && gone it git) /\ length (tr_items t') = length (tr_items t) /\
    forall j, j <> i -> tr_items t' !! j = tr_items t !! j.
Proof.
  intros Ht Hg. assert (Hl := lookup_lt_Some _ _ _ Ht). unfold check_item, gone, mark_item. rewrite (proj2 (arr_get_Ret _ _ _) Ht).
  cbn [mbind outcome_bind].
  assert (Hset : exists l, arr_set (tr_items t) i (mk_item (it_count it) 1) = Ret l /\ length l = length (tr_items t) /\
    forall j, j <> i -> l !! j = tr_items t !! j).
  { unfold arr_set. rewrite decide_True by done. eexists. split; [done|]. rewrite length_insert. split; [done|].
    intros j Hj. by apply list_lookup_insert_ne. }
  destruct Hset as (l & El & Hll & Hlj).
  destruct (Z.eqb_spec (it_mark it) 0); cbn [negb orb]; [|rewrite andb_true_r; eauto].
  destruct (Z.eqb_spec (it_count it mod 2) 0); cbn [orb].
  { rewrite El, andb_true_r. cbn [mbind outcome_bind]. eauto. }
  rewrite (proj2 (arr_get_Ret _ _ _) Hg). cbn [mbind outcome_bind].
  destruct (Z.ltb_spec (it_count it) (u64 (s32 (it_count git)))).
  - rewrite El, andb_true_r. cbn [mbind outcome_bind]. eauto.
  - rewrite andb_false_r. eauto.
Qed.

Lemma check_loop_spec g n lo t r :
  (lo + n <= length (tr_items t))%nat -> (lo + n <= length (tr_items g))%nat ->
  exists t' r', for_range n lo (check_item g) (t, r) = Ret (t', r') /\
    (r' = true <-> r = true /\ forall i it git, (lo <= i < lo + n)%nat -> tr_items t !! i = Some it ->
                     tr_items g !! i = Some git -> gone it git = true).
Proof.
  revert lo t r. induction n as [|n IH]; intros lo t r Ht Hg; cbn [for_range].
  { exists t, r. split; [done|]. split; [|by intros [? _]]. intros ->. split; [done|]. intros; lia. }
  destruct (lookup_lt_is_Some_2 (tr_items t) lo ltac:(lia)) as [it Hit].
  destruct (lookup_lt_is_Some_2 (tr_items g) lo ltac:(lia)) as [git Hgit].
  destruct (check_item_spec g lo t r it git Hit Hgit) as (t1 & -> & Hl1 & Hj1). rewrite bind_Ret_l.
  destruct (IH (lo + 1)%nat t1 (r && gone it git)) as (t' & r' & -> & Hr'); [lia|lia|].
  exists t', r'. split; [done|]. rewrite Hr', andb_true_iff. split.
  - intros [[Hr Hgo] Hall]. split; [done|]. intros i it' git' Hi Hit' Hgit'.
    destruct (decide (i = lo)) as [->|]; [by simplify_eq|]. eapply Hall; [|by rewrite Hj1 by done|done]. lia.
  - intros [Hr Hall]. split; [split; [done|]; apply (Hall lo); [lia|done..]|].
    intros i it' git' Hi Hit' Hgit'. rewrite Hj1 in Hit' by lia. apply (Hall i); [lia|done..].
Qed.

(** [tbar_check] always answers, and it answers 1 exactly when every thread
    was found gone before, was outside in the snapshot, or has moved on since. *)
Theorem tbar_check_exact t g : 0 <= tr_me g -> (Z.to_nat (tr_me g) <= length (tr_items t))%nat ->
  (Z.to_nat (tr_me g) <= length (tr_items g))%nat -> Forall (fun it => 0 <= it_count it < 2^31) (tr_items g) ->
  exists t' r, tbar_check t g = Ret (t', r) /\
    (r = true <-> forall i it git, Z.of_nat i < tr_me g -> tr_items t !! i = Some it -> tr_items g !! i = Some git ->
       it_mark it <> 0 \/ it_count it mod 2 = 0 \/ it_count it < it_count git).
Proof.
  intros H0 Ht Hg Hb. destruct (check_loop_spec g (Z.to_nat (tr_me g)) 0 t true Ht Hg) as (t' & r & E & Hr).
  exists t', r. split; [done|]. rewrite Hr. clear E Hr.
  assert (Hgone : forall i it git, tr_items g !! i = Some git ->
    gone it git = true <-> it_mark it <> 0 \/ it_count it mod 2 = 0 \/ it_count it < it_count git).
  { intros i it git Hi. eapply Forall_lookup_1 in Hb; [|done]. cbn beta in Hb. unfold gone, s32. rewrite (Z.mod_small (it_count git + 2^31)), u64_small by lia.
    rewrite !orb_true_iff, negb_true_iff, Z.eqb_neq, Z.eqb_eq, Z.ltb_lt. replace (it_count git + 2^31 - 2^31) with (it_count git) by lia. tauto. }
  split.
  - intros [_ Hall] i it git Hi Hit Hgit. apply (Hgone i); [done|]. apply (Hall i); [lia|done..].
  - intros Hall. split; [done|]. intros i it git Hi Hit Hgit. apply (Hgone i); [done|]. apply (Hall i); [lia|done..].
Qed.

(** The counter is compared as an [int]: once a counter has reached 2^31 the
    comparison succeeds although the thread is still inside the traversal of the
    snapshot, and the answer is 1. *)
Theorem tbar_check_truncates (c : Z) : 2^31 <= c < 2^32 -> c mod 2 = 1 ->
  let items := [mk_item 2 0; mk_item c 0] in
  exists t', tbar_check (mk_tbar 0 0 2 items) (mk_tbar 2 0 2 items) = Ret (t', true).
Proof.
  intros Hc Ho items. destruct (check_loop_spec (mk_tbar 2 0 2 items) 2 0 (mk_tbar 0 0 2 items) true) as (t' & r & E & Hr);
    [done|done|]. exists t'. unfold tbar_check. cbn [tr_me] in *. change (Z.to_nat 2) with 2%nat. rewrite E. f_equal. f_equal.
  apply Hr. split; [done|]. intros [|[|i]] it git Hi Hit Hgit; [| |lia]; cbn in Hit, Hgit; simplify_eq; unfold gone; cbn [it_mark it_count]; [done|].
  rewrite (proj2 (Z.ltb_lt _ _)); [by rewrite !orb_true_r|]. unfold s32, u64.
  replace ((c + 2^31) mod 2^32) with (c + 2^31 - 2^32); [|apply (Z.mod_unique _ _ 1); lia].
  replace ((c + 2^31 - 2^32 - 2^31) mod 2^64) with (c - 2^32 + 2^64); [lia|apply (Z.mod_unique _ _ (-1)); lia].
Qed.

(** A debug build stops a thread that enters a second time without leaving, as the
    mini traversals of src/tmi.c do. *)
Lemma tbar_enter_twice t g g' : NDEBUG = false -> tbar_enter t g = Ret g' -> tbar_enter t g' = Stop AssertFailed.
Proof.
  intros Hd E. unfold tbar_enter in E. apply bind_Ret in E as ([c g1] & E1 & E). apply bind_Ret in E as (u & Ea & [= <-]).
  apply fetch_add_Ret in E1 as (it & Hme & Hit & -> & ->). unfold c_assert in Ea. rewrite Hd in Ea. cbn [orb] in Ea.
  destruct (Z.eqb_spec (it_count it mod 2) 0) as [Hc|]; [|done]. unfold tbar_enter, fetch_add, arr_getZ, arr_setZ. cbn [tr_items with_items].
  destruct (Z.ltb_spec (tr_me t) 0); [lia|]. pose proof (lookup_lt_Some _ _ _ Hit). unfold arr_get, arr_set.
  rewrite list_lookup_insert_eq by done. rewrite bind_Ret_l, decide_True by (by rewrite length_insert). rewrite !bind_Ret_l. cbn [it_count].
  unfold c_assert. rewrite Hd. cbn [orb].
  assert (Hodd : u64 (it_count it + 1) mod 2 = 1).
  { unfold u64. rewrite Z.mod_mod_divide by (by exists (2^63)). rewrite Z.add_mod, Hc by lia. done. }
  by rewrite Hodd.
Qed.

End Tbar.

(** ** Witnesses *)

Section Witness.
#[local] Instance demo_build : Build := debug_build 2.

Definition demo_bar (me a b mark : Z) : tbar := mk_tbar me 0 2 [mk_item a mark; mk_item b mark].
Definition demo_c0 : config := mk_config (demo_bar 2 1 1 0) [(demo_bar 0 0 0 0, Idle); (demo_bar 1 0 0 0, Idle)].
Definition demo_c1 : config := mk_config (demo_bar 2 2 1 0) [(demo_bar 0 0 0 0, Left); (demo_bar 1 0 0 0, Idle)].
Definition demo_c2 : config := mk_config (demo_bar 2 2 2 0) [(demo_bar 0 2 1 1, Checking 2 true); (demo_bar 1 0 0 0, Left)].
Definition demo_c3 : config := mk_config (demo_bar 2 2 2 0) [(demo_bar 0 2 1 1, Idle); (demo_bar 1 0 0 0, Left)].

Ltac run_step c := eapply steps_cons; [eapply c; solve [reflexivity | cbn; lia]|]; vm_compute.

Lemma demo_enter : steps (start 2) [LInit 2; LInit 2; LEnter 0; LEnter 1] demo_c0.
Proof. run_step step_init. run_step step_init. run_step step_enter. run_step step_enter. constructor. Qed.

Lemma demo_check : steps demo_c1 [LTau 0; LTau 0; LTau 0; LTau 0; LLeave 1; LCheck 0; LTau 0; LTau 0; LTau 0; LTau 0] demo_c2.
Proof.
  run_step step_threads. do 2 run_step step_copy. run_step step_left. run_step step_leave. run_step step_check.
  do 2 (run_step step_head; run_step step_body). constructor.
Qed.

(** Two threads enter; the first leaves while the second is inside, and is told 1
    after the second has left. *)
Lemma tbar_grace_period_witness : inside demo_c1 1 /\ counter demo_c1 1 < counter demo_c3 1.
Proof.
  split; [reflexivity|].
  apply (@tbar_grace_period demo_build 2 _ demo_c0 0 demo_c1 _ demo_c2 demo_c3 demo_enter
           (@step_leave demo_build demo_c0 0 (demo_bar 0 0 0 0) (demo_bar 2 2 1 0) eq_refl eq_refl) demo_check
           (@step_return demo_build demo_c2 0 (demo_bar 0 2 1 1) 2 true eq_refl ltac:(cbn; lia))); reflexivity.
Defined.

Lemma tbar_check_exact_witness : exists t' r, tbar_check (demo_bar 0 2 1 0) (demo_bar 2 2 1 0) = Ret (t', r) /\ r <> true.
Proof.
  destruct (tbar_check_exact (demo_bar 0 2 1 0) (demo_bar 2 2 1 0) ltac:(cbn; lia) ltac:(cbn; lia) ltac:(cbn; lia)
    ltac:(repeat constructor; cbn; lia)) as (t' & r & E & Hr).
  exists t', r. split; [exact E|]. intros Ht. destruct (proj1 Hr Ht 1%nat (mk_item 1 0) (mk_item 1 0)) as [H1|[H1|H1]];
    [cbn; lia|reflexivity|reflexivity|contradiction|discriminate|cbn in H1; lia].
Defined.

Lemma tbar_check_truncates_witness :
  exists t', tbar_check (demo_bar 0 2 (2^31 + 1) 0) (demo_bar 2 2 (2^31 + 1) 0) = Ret (t', true).
Proof. apply (tbar_check_truncates (2^31 + 1)); [lia|reflexivity]. Defined.

End Witness.
