(* ===== verification/Tmi.v ===== *)
(** * The transactional memory interface (src/tmi.c)

    What the instrumented program calls: the read and write barriers with the
    ranges excluded from them, the bulk operations of file TmiCopy, allocation,
    the wrappers of system calls and of mutexes, and the control of a
    transaction, which re-executes the handler by jumping back to its start.
    Default build: two-phase locking (SEI_2PL, so SEI_MT), wrapped system calls
    (SEI_WRAP_SC), write-through append-only buffers.  The thread exists: the
    branches for a thread without a sei object call the system directly. *)

From S2P Require Export Sei TmiCopy.

Definition SEI_MAX_IGNORE : nat := 1000.

(** The calls that are wrapped. *)
Inductive syscall := SYS_socket | SYS_connect | SYS_bind | SYS_close | SYS_send | SYS_sendto
  | SYS_lock | SYS_trylock | SYS_unlock.

(** [sei_thread_t] with the globals of the file.  [t_saved_affinity] holds
    [saved_affinity] when [affinity_saved] is set. *)
Record tmi (S W : Type) := mk_tmi {
  t_sei : sei S W;
  t_high : Z;
  t_abuf : abuf;
  t_abuf_sc : abuf;
  t_ignore_addr_s : list Z;
  t_ignore_addr_e : list Z;
  t_ignore_num : Z;
  t_ignore_allf : bool;
  t_write_disable : bool;
  t_phase0_core : Z;
  t_saved_affinity : option Z;
}.
Arguments mk_tmi {S W}.
Arguments t_sei {S W}.
Arguments t_high {S W}.
Arguments t_abuf {S W}.
Arguments t_abuf_sc {S W}.
Arguments t_ignore_addr_s {S W}.
Arguments t_ignore_addr_e {S W}.
Arguments t_ignore_num {S W}.
Arguments t_ignore_allf {S W}.
Arguments t_write_disable {S W}.
Arguments t_phase0_core {S W}.
Arguments t_saved_affinity {S W}.

Section Setters.
Context {S W : Type}.
Implicit Types t : tmi S W.

Definition tw_sei t (v : sei S W) := mk_tmi v (t_high t) (t_abuf t) (t_abuf_sc t) (t_ignore_addr_s t) (t_ignore_addr_e t)
  (t_ignore_num t) (t_ignore_allf t) (t_write_disable t) (t_phase0_core t) (t_saved_affinity t).
Definition tw_high t v := mk_tmi (t_sei t) v (t_abuf t) (t_abuf_sc t) (t_ignore_addr_s t) (t_ignore_addr_e t)
  (t_ignore_num t) (t_ignore_allf t) (t_write_disable t) (t_phase0_core t) (t_saved_affinity t).
Definition tw_abuf t v := mk_tmi (t_sei t) (t_high t) v (t_abuf_sc t) (t_ignore_addr_s t) (t_ignore_addr_e t)
  (t_ignore_num t) (t_ignore_allf t) (t_write_disable t) (t_phase0_core t) (t_saved_affinity t).
Definition tw_abuf_sc t v := mk_tmi (t_sei t) (t_high t) (t_abuf t) v (t_ignore_addr_s t) (t_ignore_addr_e t)
  (t_ignore_num t) (t_ignore_allf t) (t_write_disable t) (t_phase0_core t) (t_saved_affinity t).
Definition tw_ignore t vs ve n := mk_tmi (t_sei t) (t_high t) (t_abuf t) (t_abuf_sc t) vs ve
  n (t_ignore_allf t) (t_write_disable t) (t_phase0_core t) (t_saved_affinity t).
Definition tw_allf t v := mk_tmi (t_sei t) (t_high t) (t_abuf t) (t_abuf_sc t) (t_ignore_addr_s t) (t_ignore_addr_e t)
  (t_ignore_num t) v (t_write_disable t) (t_phase0_core t) (t_saved_affinity t).
Definition tw_disable t v := mk_tmi (t_sei t) (t_high t) (t_abuf t) (t_abuf_sc t) (t_ignore_addr_s t) (t_ignore_addr_e t)
  (t_ignore_num t) (t_ignore_allf t) v (t_phase0_core t) (t_saved_affinity t).
Definition tw_core t v := mk_tmi (t_sei t) (t_high t) (t_abuf t) (t_abuf_sc t) (t_ignore_addr_s t) (t_ignore_addr_e t)
  (t_ignore_num t) (t_ignore_allf t) (t_write_disable t) v (t_saved_affinity t).
Definition tw_affinity t v := mk_tmi (t_sei t) (t_high t) (t_abuf t) (t_abuf_sc t) (t_ignore_addr_s t) (t_ignore_addr_e t)
  (t_ignore_num t) (t_ignore_allf t) (t_write_disable t) (t_phase0_core t) v.

End Setters.

Section Tmi.
Context `{Build} {S W : Type} `{Allocator S}.
Context (crc32c : Z -> Z -> list Z -> Z).
Context (crc_run : Z -> nat -> Z -> list Z -> Z) (SEI_CRC_REDUNDANCY : nat).
Context (setaffinity : Z -> Z -> Z * Z) (getaffinity : Z -> Z * Z).
Context (call : Z -> list Z -> W -> W).
Context (isolation : option bool).
(** SEI_CPU_ISOLATION_MIGRATE_PHASES, COW_APPEND_ONLY *)
Context (migrate_phases append_only : bool).
(** The wrapped functions of the system, and the addresses of the functions that
    perform the delayed ones. *)
Context (sys : syscall -> list Z -> W -> Z * W).
Context (wts_close wts_send wts_sendto : Z).
(** The stack pointer. *)
Context (sp : Z).

Implicit Types t : tmi S W.

Abbreviation getp t := (sei_getp (t_sei t)).

(** [__sei_thread_init] *)
Definition __sei_thread_init (m : mem) (al : S) (w : W) (pr : proc) : outcome (tmi S W) :=
  s ← sei_init m al w pr;
  Ret (mk_tmi s 0 (abuf_init 100) (abuf_init SC_MAX_CALLS) (replicate SEI_MAX_IGNORE 0) (replicate SEI_MAX_IGNORE 0)
         0 false false (-1) None).

(** ** Addresses that are not part of the transaction *)

Definition IN_STACK t (x : Z) : bool := (sp <=? x) && (x <? t_high t).

Definition __sei_ignore t (v : bool) : tmi S W := tw_disable t v.
Definition __sei_ignore_all t (v : bool) : tmi S W := tw_allf t v.

(** Is the range one of the first [n]? *)
Fixpoint ignore_known (n i : nat) (ls le : list Z) (first last : Z) : outcome bool :=
  match n with
  | O => Ret false
  | Datatypes.S n' =>
      a ← arr_get ls i; b ← arr_get le i;
      if (a =? first) && (b =? last) then Ret true else ignore_known n' (i + 1) ls le first last
  end.

Definition __sei_ignore_addr t (first last : Z) : outcome (tmi S W) :=
  if getp t =? -1 then Ret t
  else
    known ← ignore_known (Z.to_nat (t_ignore_num t)) 0 (t_ignore_addr_s t) (t_ignore_addr_e t) first last;
    if known : bool then Ret t
    else
      ls ← arr_setZ (t_ignore_addr_s t) (t_ignore_num t) first;
      le ← arr_setZ (t_ignore_addr_e t) (t_ignore_num t) last;
      let n := u32 (t_ignore_num t + 1) in
      c_assert (n <=? Z.of_nat SEI_MAX_IGNORE);;
      Ret (tw_ignore t ls le n).

(** Does one of the first [n] ranges contain [ptr]? *)
Fixpoint ignore_in (n i : nat) (ls le : list Z) (ptr : Z) : outcome bool :=
  match n with
  | O => Ret false
  | Datatypes.S n' =>
      a ← arr_get ls i; b ← arr_get le i;
      if (a <=? ptr) && (ptr <=? b) then Ret true else ignore_in n' (i + 1) ls le ptr
  end.

Definition ignore_addr t (ptr : Z) : outcome bool :=
  if t_write_disable t || IN_STACK t ptr then Ret true
  else ignore_in (Z.to_nat (t_ignore_num t)) 0 (t_ignore_addr_s t) (t_ignore_addr_e t) ptr.

(** ** Barriers *)

Definition poke t (m : mem) : tmi S W := tw_sei t (with_mem (t_sei t) m).

#[export] Instance tmi_barriers : Barriers (tmi S W) := {|
  b_mem := fun t => s_mem (t_sei t);
  b_poke := poke;
  b_write := fun ty t a v => s ← sei_write ty (t_sei t) a v; Ret (tw_sei t s);
|}.

(** [_ITM_RU1] ... [_ITM_RU8] (write-through: the memory is current) and
    [_ITM_WU1] ... [_ITM_WU8]. *)
Definition _ITM_R (ty : cty) t (addr : Z) : Z := load (sizeof ty) (b_mem t) addr.

Definition _ITM_W (ty : cty) t (addr value : Z) : outcome (tmi S W) :=
  ign ← ignore_addr t addr;
  if ign : bool then Ret (poke t (store (sizeof ty) (b_mem t) addr value))
  else b_write ty t addr value.

(** 128-bit vectors are pairs of words. *)
Definition _ITM_WM128 t (a : Z) (v : Z * Z) : outcome (tmi S W) :=
  t ← _ITM_W uint64_t t a v.1; _ITM_W uint64_t t (u64 (a + 8)) v.2.
Definition _ITM_RM128 t (a : Z) : Z * Z := (_ITM_R uint64_t t a, _ITM_R uint64_t t (u64 (a + 8))).
Definition _ITM_RM64 t (a : Z) : Z := _ITM_R uint64_t t a.
Definition _ITM_WM64 t (a v : Z) : outcome (tmi S W) := _ITM_W uint64_t t a v.
Definition _ITM_RD t (a : Z) : Z := _ITM_R uint64_t t a.
Definition _ITM_RfWM64 := _ITM_RM64.
Definition _ITM_WaRM128 := _ITM_WM128.
Definition _ITM_WaWM128 := _ITM_WM128.
Definition _ITM_WaWM64 := _ITM_WM64.

(** [_ITM_changeTransactionMode] *)
Definition _ITM_changeTransactionMode t (flag : Z) : outcome (tmi S W) := c_assert false;; Ret t.

Definition _ITM_memcpyRtWt (fuel : nat) t (dst src size : Z) : option (outcome (tmi S W)) :=
  ign ⇐ lift (ignore_addr t dst); memcpyRtWt append_only fuel ign t dst src size.
Definition _ITM_memmoveRtWt := _ITM_memcpyRtWt.
Definition _ITM_memsetW (fuel : nat) t (s c n : Z) : option (outcome (tmi S W)) :=
  ign ⇐ lift (ignore_addr t s); memsetW fuel ign t s c n.
(** The clones the compiler calls in atomic blocks: [_ZGTt6memcpy], [_ZGTt6memset]. *)
Definition _ZGTt6memcpy := _ITM_memcpyRtWt.
Definition _ZGTt6memset := _ITM_memsetW.

(** ** Allocation *)

Definition _ITM_malloc t (size : Z) : outcome (Z * tmi S W) :=
  if t_ignore_allf t then
    '(r, al) ← al_malloc (s_alloc (t_sei t)) size;
    t ← __sei_ignore_addr (tw_sei t (with_alloc (t_sei t) al)) r (u64 (r + size));
    Ret (r, t)
  else '(r, s) ← sei_malloc (t_sei t) size; Ret (r, tw_sei t s).

(** Does one of the first [n] ranges start at [ptr]? *)
Fixpoint ignore_starts (n i : nat) (ls : list Z) (ptr : Z) : outcome bool :=
  match n with
  | O => Ret false
  | Datatypes.S n' => a ← arr_get ls i; if ptr =? a then Ret true else ignore_starts n' (i + 1) ls ptr
  end.

Definition _ITM_free t (ptr : Z) : outcome (tmi S W) :=
  starts ← ignore_starts (Z.to_nat (t_ignore_num t)) 0 (t_ignore_addr_s t) ptr;
  if starts : bool then al ← al_free (s_alloc (t_sei t)) ptr; Ret (tw_sei t (with_alloc (t_sei t) al))
  else s ← sei_free (t_sei t) ptr; Ret (tw_sei t s).

(** The product wraps around, and the block is not cleared. *)
Definition _ITM_calloc t (nmemb size : Z) : outcome (Z * tmi S W) :=
  '(r, s) ← sei_malloc (t_sei t) (u64 (nmemb * size)); Ret (r, tw_sei t s).

(** [_ZGTt7realloc]: the new size is copied. *)
Definition realloc (fuel : nat) t (ptr size : Z) : option (outcome (Z * tmi S W)) :=
  '(p, t) ⇐ lift (_ITM_malloc t size);
  t ⇐ (if negb (p =? 0) && negb (ptr =? 0) then _ITM_memcpyRtWt fuel t p ptr size else Some (Ret t));
  t ⇐ (if negb (ptr =? 0) then lift (_ITM_free t ptr) else Some (Ret t));
  Some (Ret (p, t)).

(** ** System calls *)

Definition sys_call t (c : syscall) (args : list Z) : Z * tmi S W :=
  let '(r, w) := sys c args (s_world (t_sei t)) in (r, tw_sei t (with_world (t_sei t) w)).

(** [socket], [connect] and [bind]: phase 0 calls and records the result under
    [key], phase 1 returns the record. *)
Definition replayed_call t (c : syscall) (args : list Z) (key : Z) : outcome (Z * tmi S W) :=
  if getp t =? 0 then
    let '(r, t) := sys_call t c args in
    a ← abuf_push_ty uint32_t (t_abuf_sc t) key r; Ret (r, tw_abuf_sc t a)
  else if getp t =? 1 then
    '(r, a) ← abuf_pop_ty uint32_t (t_abuf_sc t) key; Ret (s32 r, tw_abuf_sc t a)
  else Ret (sys_call t c args).

Definition socket t (domain type protocol : Z) := replayed_call t SYS_socket [domain; type; protocol] (u64 domain).
Definition connect t (sock addr length : Z) := replayed_call t SYS_connect [sock; addr; length] (u64 sock).
Definition bind t (sockfd addr addrlen : Z) := replayed_call t SYS_bind [sockfd; addr; addrlen] addr.

(** [close], [send] and [sendto] are delayed in phases 0 and 1. *)
Definition delayed_call t (fp : Z) (args : list Z) : outcome (tmi S W) :=
  w ← wts_add (s_wts (t_sei t)) (getp t) fp args; Ret (tw_sei t (with_wts (t_sei t) w)).

Definition close t (fd : Z) : outcome (Z * tmi S W) :=
  if (getp t =? 0) || (getp t =? 1) then t ← delayed_call t wts_close [u64 fd; 0]; Ret (0, t)
  else Ret (sys_call t SYS_close [fd]).

Definition send t (sock buffer size flags : Z) : outcome (Z * tmi S W) :=
  if (getp t =? 0) || (getp t =? 1) then
    t ← delayed_call t wts_send [u64 sock; buffer; size; u64 flags; size]; Ret (s32 size, t)
  else let '(r, t) := sys_call t SYS_send [sock; buffer; size; flags] in Ret (s32 r, t).

Definition sendto t (sock buffer size flags dest_addr addrlen : Z) : outcome (Z * tmi S W) :=
  if (getp t =? 0) || (getp t =? 1) then
    t ← delayed_call t wts_sendto
          (if IN_STACK t dest_addr
           then [u64 sock; buffer; size; u64 flags; dest_addr; addrlen; size; 1;
                 load 8 (b_mem t) dest_addr; load 8 (b_mem t) (u64 (dest_addr + 8))]
           else [u64 sock; buffer; size; u64 flags; dest_addr; addrlen; size; 0]);
    Ret (s32 size, t)
  else let '(r, t) := sys_call t SYS_sendto [sock; buffer; size; flags; dest_addr; addrlen] in Ret (s32 r, t).

(** ** Mutexes *)

(** [pthread_mutex_lock] and [pthread_mutex_trylock] *)
Definition mutex_acquire (c : syscall) t (lock : Z) : outcome (Z * tmi S W) :=
  if getp t =? 0 then
    let '(r, t) := sys_call t c [lock] in
    a ← abuf_push_ty uint64_t (t_abuf t) lock r; Ret (r, tw_abuf t a)
  else if 0 <? getp t then
    '(r, a) ← abuf_pop_ty uint64_t (t_abuf t) lock; Ret (s32 r, tw_abuf t a)
  else Ret (sys_call t c [lock]).

Definition pthread_mutex_lock := mutex_acquire SYS_lock.
Definition pthread_mutex_trylock := mutex_acquire SYS_trylock.

Definition pthread_mutex_unlock t (lock : Z) : outcome (Z * tmi S W) :=
  if 0 <=? getp t then Ret (0, t) else Ret (sys_call t SYS_unlock [lock]).

(** The loop of the commit that releases the locks; [n] entries are left.  The
    C code passes the address of an [int] where [abuf_pop] stores 64 bits; [r]
    gets the low 32. *)
Fixpoint late_unlock (n : nat) t : outcome (tmi S W) :=
  match n with
  | O => Ret t
  | Datatypes.S n' =>
      '(v, l, a) ← abuf_pop (t_abuf t);
      let t := tw_abuf t a in
      t ← (if s32 v =? 0 then
             let '(r, t) := sys_call t SYS_unlock [l] in
             c_assert (r =? 0);; Ret t
           else Ret t);
      late_unlock n' t
  end.

(** ** Control of a transaction *)

Definition __sei_begin t (rbp : Z) : outcome (tmi S W) :=
  let t := tw_high t rbp in
  s ← sei_begin (t_sei t); Ret (tw_sei t s).

Abbreviation machine_of t := (pr_machine (s_proc (t_sei t))).
Definition with_machine t (m : machine) : tmi S W :=
  tw_sei t (with_proc (t_sei t) (mk_proc m (pr_time (s_proc (t_sei t))))).

(** Do the phases run on different cores? *)
Definition core_migration t : bool :=
  migrate_phases || (match isolation with Some _ => sei_get_core_migration (t_sei t) | None => false end).

(** [cpu_isolation_save_affinity] *)
Definition cpu_isolation_save_affinity t : option Z :=
  let '(ret, mask) := getaffinity (cpu (machine_of t)) in if ret =? 0 then Some mask else None.

(** Not the last phase: switch to the next one. *)
Definition next_phase t : outcome (tmi S W) :=
  let current_phase := getp t in
  let migrate := core_migration t && (current_phase =? 0) in
  let t := if migrate then
             let t := if negb migrate_phases && negb (bool_decide (is_Some (t_saved_affinity t)))
                      then tw_affinity t (cpu_isolation_save_affinity t) else t in
             tw_core t (cpu (machine_of t))
           else t in
  s ← sei_switch crc_run (t_sei t);
  let t := tw_sei t s in
  let t := tw_abuf t (abuf_rewind (t_abuf t)) in
  if migrate then
    let t := tw_sei t (sei_setp (t_sei t) (-1)) in
    '(_, m) ← cpu_isolation_migrate_excluding_core setaffinity (machine_of t) (t_phase0_core t);
    let t := with_machine t m in
    Ret (tw_sei t (sei_setp (t_sei t) (current_phase + 1)))
  else Ret t.

(** A failed comparison in the recovery build: blacklist, migrate, roll back. *)
Definition recover_commit t : outcome (tmi S W) :=
  let current_core := cpu (machine_of t) in
  let t := tw_sei t (sei_setp (t_sei t) (-1)) in
  let blacklist_both_cores := core_migration t in
  m ← (if blacklist_both_cores then
         let st := cpu_isolation_blacklist_core (iso (machine_of t)) (t_phase0_core t) in
         Ret (mk_machine (cpu_isolation_blacklist_core st current_core) (cpu (machine_of t)))
       else '(_, m) ← cpu_isolation_blacklist_current (machine_of t); Ret m);
  '(_, m) ← cpu_isolation_migrate_current_thread setaffinity m;
  let t := with_machine t m in
  s ← sei_rollback (t_sei t);
  let t := tw_sei t s in
  let t := tw_abuf_sc t (abuf_clean (t_abuf_sc t)) in
  let t := tw_abuf t (abuf_clean (t_abuf t)) in
  Ret (if blacklist_both_cores then tw_core t (-1) else t).

(** What follows a successful commit. *)
Definition after_commit t : outcome (tmi S W) :=
  t ← match isolation, t_saved_affinity t with
      | Some _, Some saved =>
          if negb migrate_phases then
            let '(r, m) := cpu_isolation_restore_affinity setaffinity (machine_of t) saved in
            let t := with_machine t m in
            t ← (if negb (r =? 0) then
                   '(_, m) ← cpu_isolation_migrate_current_thread setaffinity (machine_of t); Ret (with_machine t m)
                 else Ret t);
            Ret (tw_affinity t None)
          else Ret t
      | _, _ => Ret t
      end;
  c_assert (getp t =? -1);;
  let t := tw_abuf t (abuf_rewind (t_abuf t)) in
  t ← late_unlock (Z.to_nat (abuf_size (t_abuf t))) t;
  let t := tw_abuf t (abuf_clean (t_abuf t)) in
  Ret (tw_abuf_sc t (abuf_clean (t_abuf_sc t))).

(** [__sei_commit].  [Some v]: the code jumps back to the start of the handler,
    where [_ITM_beginTransaction] returns [v]; [None]: it returns. *)
Definition __sei_commit t : outcome (option Z * tmi S W) :=
  let t := tw_disable (tw_ignore t (t_ignore_addr_s t) (t_ignore_addr_e t) 0) false in
  let current_phase := getp t in
  let redundancy_level := Z.of_nat (sei_get_redundancy (t_sei t)) in
  if current_phase <? redundancy_level - 1 then
    t ← next_phase t; Ret (Some 1, t)
  else
    c_assert (current_phase =? redundancy_level - 1);;
    match isolation with
    | Some _ =>
        '(ok, s) ← sei_try_commit crc_run (t_sei t);
        let t := tw_sei t s in
        if ok : bool then
          s ← sei_commit crc_run call isolation (t_sei t);
          t ← after_commit (tw_sei t s); Ret (None, t)
        else t ← recover_commit t; Ret (Some 0, t)
    | None =>
        s ← sei_commit crc_run call isolation (t_sei t);
        t ← after_commit (tw_sei t s); Ret (None, t)
    end.

(** The atomic block the compiler generates: [_ITM_beginTransaction], the body,
    [_ITM_commitTransaction]; a jump back restarts the body. *)
Fixpoint tx_loop (fuel : nat) (body : tmi S W -> outcome (tmi S W)) t : option (outcome (tmi S W)) :=
  match fuel with
  | O => None
  | Datatypes.S fuel' =>
      t ⇐ lift (body t);
      '(k, t) ⇐ lift (__sei_commit t);
      match k with
      | None => Some (Ret t)
      | Some _ => tx_loop fuel' body t
      end
  end.

Definition atomic_block (fuel : nat) (rbp : Z) (body : tmi S W -> outcome (tmi S W)) t : option (outcome (tmi S W)) :=
  t ⇐ lift (__sei_begin t rbp); tx_loop fuel body t.

(** ** Preparing a transaction, output *)

Definition clear_ignore t : tmi S W :=
  tw_ignore t (replicate SEI_MAX_IGNORE 0) (replicate SEI_MAX_IGNORE 0) 0.

(** The settings made before the message is checked. *)
Definition set_level t (level : nat) : outcome (tmi S W) :=
  s ← sei_set_redundancy (t_sei t) level; Ret (tw_sei t s).
Definition set_migration t (b : bool) : outcome (tmi S W) :=
  s ← sei_set_core_migration (t_sei t) b; Ret (tw_sei t s).

Definition prepare (fuel : nat) t (ptr size crc : Z) (ro : bool) : option (outcome (bool * tmi S W)) :=
  '(ok, s) ⇐ sei_prepare crc_run SEI_CRC_REDUNDANCY setaffinity isolation fuel (t_sei t) ptr size crc ro;
  Some (Ret (ok, tw_sei t s)).
Definition prepare_nm (fuel : nat) t : option (outcome (tmi S W)) :=
  s ⇐ sei_prepare_nm crc_run SEI_CRC_REDUNDANCY setaffinity isolation fuel (t_sei t);
  Some (Ret (tw_sei t s)).

Definition __sei_prepare (fuel : nat) t (ptr size crc : Z) (ro : bool) : option (outcome (bool * tmi S W)) :=
  t ⇐ lift (set_level t SEI_DMR_REDUNDANCY);
  t ⇐ lift (set_migration t false);
  prepare fuel t ptr size crc ro.

Definition __sei_prepare_nm (fuel : nat) t : option (outcome (tmi S W)) :=
  t ⇐ lift (set_level t SEI_DMR_REDUNDANCY);
  t ⇐ lift (set_migration t false);
  prepare_nm fuel (clear_ignore t).

Definition __sei_prepare_n (fuel : nat) t (ptr size crc : Z) (ro : bool) (redundancy_level : nat) :=
  t ⇐ lift (set_level t redundancy_level);
  prepare fuel t ptr size crc ro.

Definition __sei_prepare_nm_n (fuel : nat) t (redundancy_level : nat) :=
  t ⇐ lift (set_level t redundancy_level);
  prepare_nm fuel (clear_ignore t).

Definition __sei_prepare_core (fuel : nat) t (ptr size crc : Z) (ro : bool) :=
  t ⇐ lift (set_migration t true);
  t ⇐ lift (set_level t 2);
  prepare fuel t ptr size crc ro.

Definition __sei_prepare_nm_core (fuel : nat) t :=
  t ⇐ lift (set_migration t true);
  t ⇐ lift (set_level t 2);
  prepare_nm fuel (clear_ignore t).

Definition __sei_output_append t (ptr : Z) (size : Z) : outcome (tmi S W) :=
  s ← sei_output_append crc32c (t_sei t) ptr (read_block (b_mem t) ptr size); Ret (tw_sei t s).
Definition __sei_output_done t : outcome (tmi S W) :=
  s ← sei_output_done (t_sei t); Ret (tw_sei t s).
Definition __sei_output_next t : outcome (Z * tmi S W) :=
  '(crc, s) ← sei_output_next (t_sei t); Ret (crc, tw_sei t s).

(** Allocation by the application: outside a traversal, and inside. *)
Definition __sei_malloc t (size : Z) : outcome (Z * tmi S W) :=
  c_assert (getp t =? -1);;
  '(ptr, s) ← sei_malloc2 (t_sei t) size; Ret (ptr, tw_sei t s).
Definition tanger_txnal_sei_thread_malloc t (size : Z) : outcome (Z * tmi S W) :=
  c_assert (negb (getp t =? -1));;
  '(ptr, s) ← sei_malloc (t_sei t) size; Ret (ptr, tw_sei t s).
Definition __sei_other t (ptr : Z) : outcome (Z * tmi S W) :=
  let p := getp t in
  let s := sei_setp (t_sei t) 0 in
  r ← sei_other s ptr;
  Ret (r, tw_sei t (sei_setp s p)).

(** Without SEI_TBAR. *)
Definition __sei_shift t (handle : option nat) : outcome (nat * tmi S W) :=
  '(h, s) ← sei_shift (t_sei t) handle; Ret (h, tw_sei t s).

End Tmi.
