(* ===== verification/TmiLocks.v ===== *)
(** * Mutexes and system calls across executions

    The first execution of a handler calls the system and records the results;
    the others read the record.  Unlocks are postponed to the commit, which
    releases what was acquired (two-phase locking). *)

From S2P Require Export Tmi.

Inductive mutex_op :=
  | Lock (l : Z)
  | Trylock (l : Z)
  | Unlock (l : Z).

Lemma s32_u64 r : - 2^31 <= r < 2^31 -> s32 (u64 r) = r.
Proof.
  intros Hr. unfold s32, u64. destruct (decide (0 <= r)).
  - rewrite (Z.mod_small r), Z.mod_small by lia. lia.
  - replace (r mod 2^64) with (r + 2^64) by (apply (Z.mod_unique _ _ (-1)); lia).
    replace (r + 2^64 + 2^31) with (r + 2^31 + 2^32 * 2^32) by lia. rewrite Z_mod_plus_full, Z.mod_small by lia. lia.
Qed.

Lemma s32_u32 r : - 2^31 <= r < 2^31 -> s32 (u32 r) = r.
Proof.
  intros Hr. unfold s32, u32. rewrite Z.add_mod_idemp_l, Z.mod_small by lia. lia.
Qed.

Section Locks.
Context `{Build} {S W : Type} `{Allocator S}.
Context (sys : syscall -> list Z -> W -> Z * W).
(** The system functions return an [int]. *)
Context (sys_int : forall c args w, - 2^31 <= (sys c args w).1 < 2^31).
Implicit Types (t : tmi S W) (ops : list mutex_op) (w : W).

Abbreviation world t := (s_world (t_sei t)).
Abbreviation phase t := (sei_getp (t_sei t)).

Definition exec_mutex (o : mutex_op) t : outcome (Z * tmi S W) :=
  match o with
  | Lock l => pthread_mutex_lock sys t l
  | Trylock l => pthread_mutex_trylock sys t l
  | Unlock l => pthread_mutex_unlock sys t l
  end.

(** The calls of an execution and their results. *)
Fixpoint exec_mutexes ops t : outcome (list Z * tmi S W) :=
  match ops with
  | [] => Ret ([], t)
  | o :: ops' => '(r, t) ← exec_mutex o t; '(rs, t) ← exec_mutexes ops' t; Ret (r :: rs, t)
  end.

Definition acquire (o : mutex_op) : option (syscall * Z) :=
  match o with Lock l => Some (SYS_lock, l) | Trylock l => Some (SYS_trylock, l) | Unlock _ => None end.

(** What the system does when the operations of one execution are performed
    with the unlocks postponed: results, locks tried with their results, world. *)
Fixpoint locking ops w : list Z * list (Z * Z) * W :=
  match ops with
  | [] => ([], [], w)
  | o :: ops' =>
      match acquire o with
      | Some (c, l) =>
          let '(r, w) := sys c [l] w in
          let '(rs, tried, w) := locking ops' w in (r :: rs, (l, r) :: tried, w)
      | None => let '(rs, tried, w) := locking ops' w in (0 :: rs, tried, w)
      end
  end.

Definition unlock_all (ls : list Z) w : W := foldl (fun w l => (sys SYS_unlock [l] w).2) w ls.

(** The record of the locks tried. *)
Definition lock_log (tried : list (Z * Z)) : list wr := (fun '(l, r) => mk_wr uint64_t l (u64 r)) <$> tried.

Lemma exec_mutex_acquire o c l t : acquire o = Some (c, l) -> exec_mutex o t = mutex_acquire sys c t l.
Proof. destruct o; cbn; intros E; by simplify_eq. Qed.

(** ** The first execution *)

Lemma acquire_phase0 c l t log : phase t = 0 -> log_rel (t_abuf t) log -> let '(r, w) := sys c [l] (world t) in
  exists a, mutex_acquire sys c t l = Ret (r, tw_abuf (tw_sei t (with_world (t_sei t) w)) a) /\
    log_rel a (log ++ lock_log [(l, r)]) /\ poped a = poped (t_abuf t).
Proof.
  intros Hp Hl. unfold mutex_acquire, sys_call. rewrite Hp. destruct (sys c [l] (world t)) as [r w].
  destruct (abuf_push_rel uint64_t (t_abuf t) log l r Hl) as (a & E & Ha & _ & Hpo). exists a.
  cbn [Z.eqb]. cbn [t_abuf tw_sei]. rewrite E, bind_Ret_l. done.
Qed.

Lemma exec_phase0 ops : forall t log, phase t = 0 -> log_rel (t_abuf t) log ->
  let '(rs, tried, w) := locking ops (world t) in
  exists t', exec_mutexes ops t = Ret (rs, t') /\ world t' = w /\ phase t' = 0 /\
    log_rel (t_abuf t') (log ++ lock_log tried) /\ poped (t_abuf t') = poped (t_abuf t).
Proof.
  induction ops as [|o ops IH]; intros t log Hp Hl; cbn [locking exec_mutexes].
  { exists t. cbn [lock_log fmap list_fmap]. rewrite app_nil_r. done. }
  destruct (acquire o) as [[c l]|] eqn:Eo.
  - rewrite (exec_mutex_acquire _ _ _ _ Eo). pose proof (acquire_phase0 c l t log Hp Hl) as Ha.
    destruct (sys c [l] (world t)) as [r w]. destruct Ha as (a & -> & Ha & Hpo). rewrite bind_Ret_l.
    set (t1 := tw_abuf _ a). specialize (IH t1 _ Hp Ha). change (world t1) with w in IH.
    destruct (locking ops w) as [[rs tried] w']. destruct IH as (t' & -> & Hw & Hp' & Hl' & Hpo'). rewrite bind_Ret_l.
    exists t'. split_and!; [done|done|done| |by rewrite Hpo', <- Hpo].
    rewrite <- app_assoc in Hl'. exact Hl'.
  - destruct o as [| |l]; try discriminate. cbn [exec_mutex]. unfold pthread_mutex_unlock. rewrite Hp. cbn [Z.leb Z.compare].
    rewrite bind_Ret_l. specialize (IH t log Hp Hl).
    destruct (locking ops (world t)) as [[rs tried] w']. destruct IH as (t' & -> & Hrest). rewrite bind_Ret_l. by exists t'.
Qed.

(** ** The other executions *)

Lemma acquire_later c l r t log : 0 < phase t -> log_rel (t_abuf t) log -> - 2^31 <= r < 2^31 ->
  log !! poped (t_abuf t) = Some (mk_wr uint64_t l (u64 r)) ->
  mutex_acquire sys c t l = Ret (r, tw_abuf t (set_poped (poped (t_abuf t) + 1) (t_abuf t))).
Proof.
  intros Hp Hl Hr Hw. unfold mutex_acquire. rewrite (proj2 (Z.eqb_neq _ 0)), (proj2 (Z.ltb_lt _ _) Hp) by lia.
  rewrite (abuf_pop_ty_rel _ _ _ Hl Hw), bind_Ret_l. cbn [w_val]. by rewrite s32_u64.
Qed.

Lemma pop_log_rel a log (e : wr) : log_rel a log -> log !! poped a = Some e -> log_rel (set_poped (poped a + 1) a) log.
Proof.
  intros Hl Hw. apply set_poped_rel; [|done]. pose proof (lookup_lt_Some _ _ _ Hw). rewrite (log_rel_length _ _ Hl) in *. lia.
Qed.

Lemma drop_cons {A} (l : list A) n x l' : drop n l = x :: l' -> l !! n = Some x /\ drop (n + 1) l = l'.
Proof.
  intros E. split.
  - by rewrite <- (Nat.add_0_r n), <- lookup_drop, E.
  - rewrite <- drop_drop, E. done.
Qed.

Lemma exec_later ops : forall t log rest w, 0 < phase t -> log_rel (t_abuf t) log ->
  let '(rs, tried, _) := locking ops w in
  drop (poped (t_abuf t)) log = lock_log tried ++ rest ->
  exec_mutexes ops t = Ret (rs, tw_abuf t (set_poped (poped (t_abuf t) + length tried) (t_abuf t))).
Proof.
  induction ops as [|o ops IH]; intros t log rest w Hp Hl; cbn [locking exec_mutexes].
  { intros _. cbn [length]. rewrite Nat.add_0_r. by destruct t as [? ? []]. }
  destruct (acquire o) as [[c l]|] eqn:Eo.
  - rewrite (exec_mutex_acquire _ _ _ _ Eo). pose proof (sys_int c [l] w) as Hr. destruct (sys c [l] w) as [r w1].
    set (t1 := tw_abuf t (set_poped (poped (t_abuf t) + 1) (t_abuf t))). specialize (IH t1 log rest w1 Hp).
    destruct (locking ops w1) as [[rs tried] w']. intros [Hw Hd]%drop_cons.
    rewrite (acquire_later c l r t log Hp Hl Hr Hw), bind_Ret_l. fold t1. rewrite IH; [|by eapply pop_log_rel|done].
    rewrite bind_Ret_l. subst t1. cbn [t_abuf tw_abuf poped set_poped]. cbn [length].
    by rewrite <- Nat.add_assoc.
  - destruct o as [| |l]; try discriminate. cbn [exec_mutex]. unfold pthread_mutex_unlock. rewrite (proj2 (Z.leb_le 0 _)) by lia.
    rewrite bind_Ret_l. specialize (IH t log rest w Hp Hl). destruct (locking ops w) as [[rs tried] w']. intros Hd.
    by rewrite IH, bind_Ret_l.
Qed.

(** ** The commit *)

Lemma late_unlock_spec tried : forall t log, log_rel (t_abuf t) log -> drop (poped (t_abuf t)) log = lock_log tried ->
  (NDEBUG = true \/ forall l w, (sys SYS_unlock [l] w).1 = 0) -> Forall (fun '(_, r) => - 2^31 <= r < 2^31) tried ->
  exists t', late_unlock sys (length tried) t = Ret t' /\ phase t' = phase t /\ s_mem (t_sei t') = s_mem (t_sei t) /\
    world t' = unlock_all (filter (fun lr => lr.2 = 0) tried).*1 (world t).
Proof.
  induction tried as [|[l r] tried IH]; intros t log Hl Hd Hok Hr; cbn [late_unlock length]; [by exists t|].
  apply Forall_cons in Hr as [Hr1 Hr]. apply drop_cons in Hd as [Hw Hd].
  rewrite (abuf_pop_rel _ _ _ Hl Hw) by done. rewrite bind_Ret_l. cbn [w_val w_addr]. rewrite s32_u64 by done.
  set (t1 := tw_abuf t (set_poped (poped (t_abuf t) + 1) (t_abuf t))).
  pose proof (pop_log_rel _ _ _ Hl Hw) as Hl1. rewrite filter_cons. cbn [snd]. destruct (Z.eqb_spec r 0) as [->|Hne].
  - rewrite decide_True by done. unfold sys_call. destruct (sys SYS_unlock [l] (world t1)) as [r w] eqn:Es.
    assert (Hc : c_assert (r =? 0) = Ret tt).
    { destruct Hok as [Hn|Hok]; [unfold c_assert; by rewrite Hn|]. specialize (Hok l (world t1)). rewrite Es in Hok. cbn in Hok.
      subst r. apply c_assert_true. }
    rewrite Hc, !bind_Ret_l. destruct (IH (tw_sei t1 (with_world (t_sei t1) w)) log Hl1 Hd Hok Hr) as (t' & -> & Hp' & Hm' & Hw').
    exists t'. split_and!; [done|done|done|]. rewrite Hw'. cbn [t_sei tw_sei s_world with_world]. unfold unlock_all. cbn [foldl fmap list_fmap fst].
    change (world t1) with (world t) in Es. by rewrite Es.
  - rewrite decide_False by done. rewrite bind_Ret_l. destruct (IH t1 log Hl1 Hd Hok Hr) as (t' & -> & Hrest). by exists t'.
Qed.

Lemma locking_int ops w : let '(_, tried, _) := locking ops w in Forall (fun '(_, r) => - 2^31 <= r < 2^31) tried.
Proof.
  revert w. induction ops as [|o ops IH]; intros w; cbn [locking]; [done|]. destruct (acquire o) as [[c l]|].
  - pose proof (sys_int c [l] w) as Hr. destruct (sys c [l] w) as [r w1]. specialize (IH w1).
    destruct (locking ops w1) as [[rs tried] w']. by constructor.
  - specialize (IH w). by destruct (locking ops w) as [[rs tried] w'].
Qed.

(** C14.  Two-phase locking.  The first execution performs the lock calls of the
    handler and none of its unlocks; every other execution, from the rewound
    record, sees the same results and does not touch the locks; the commit
    releases each lock that was acquired, once, in order, and no other. *)
Theorem two_phase_locking ops t : phase t = 0 -> log_rel (t_abuf t) [] -> poped (t_abuf t) = 0%nat ->
  (NDEBUG = true \/ forall l w, (sys SYS_unlock [l] w).1 = 0) ->
  let '(rs, tried, w') := locking ops (world t) in
  exists t0, exec_mutexes ops t = Ret (rs, t0) /\ world t0 = w' /\
    (forall t1, t_abuf t1 = abuf_rewind (t_abuf t0) -> 0 < phase t1 ->
       exists t2, exec_mutexes ops t1 = Ret (rs, t2) /\ t_sei t2 = t_sei t1 /\
         abuf_rewind (t_abuf t2) = abuf_rewind (t_abuf t0)) /\
    (forall t3, t_abuf t3 = abuf_rewind (t_abuf t0) ->
       exists t4, late_unlock sys (Z.to_nat (abuf_size (t_abuf t3))) t3 = Ret t4 /\
         world t4 = unlock_all (filter (fun lr => lr.2 = 0) tried).*1 (world t3)).
Proof using sys_int.
  intros Hp Hl Hpo Hok. pose proof (exec_phase0 ops t [] Hp Hl) as Hex. pose proof (locking_int ops (world t)) as Hint.
  pose proof (fun t1 log rest => exec_later ops t1 log rest (world t)) as Hlater.
  destruct (locking ops (world t)) as [[rs tried] w']. destruct Hex as (t0 & E & Hw & Hp0 & Hl0 & Hpo0). cbn [app] in Hl0.
  assert (Hrw : log_rel (abuf_rewind (t_abuf t0)) (lock_log tried)) by (apply set_poped_rel; [lia|done]).
  exists t0. split_and!; [done|done| |].
  - intros t1 E1 Hp1. eexists. split; [apply (Hlater t1 (lock_log tried) []); [done|by rewrite E1|]|split; [done|]].
    + rewrite E1, app_nil_r. done.
    + cbn [t_abuf tw_abuf]. by rewrite E1.
  - intros t3 E3. replace (Z.to_nat (abuf_size (t_abuf t3))) with (length tried).
    + destruct (late_unlock_spec tried t3 (lock_log tried)) as (t4 & E4 & _ & _ & Hw4); rewrite ?E3; try done. by exists t4.
    + rewrite E3. unfold abuf_size. cbn [abuf_rewind set_poped pushed poped]. rewrite <- (log_rel_length _ _ Hl0).
      unfold lock_log. rewrite length_fmap. lia.
Qed.

End Locks.

(** ** System calls *)

Section Calls.
Context `{Build} {S W : Type} `{Allocator S}.
Context (sys : syscall -> list Z -> W -> Z * W).
Context (sys_int : forall c args w, - 2^31 <= (sys c args w).1 < 2^31).
Implicit Types (t : tmi S W) (w : W).

Abbreviation world t := (s_world (t_sei t)).
Abbreviation phase t := (sei_getp (t_sei t)).

(** A wrapped call: [socket], [connect] or [bind] with its arguments. *)
Inductive wrapped_call :=
  | WSocket (domain type protocol : Z)
  | WConnect (sock addr length : Z)
  | WBind (sockfd addr addrlen : Z).

Implicit Types cs : list wrapped_call.

Definition exec_call (c : wrapped_call) t : outcome (Z * tmi S W) :=
  match c with
  | WSocket domain type protocol => socket sys t domain type protocol
  | WConnect sock addr length => connect sys t sock addr length
  | WBind sockfd addr addrlen => bind sys t sockfd addr addrlen
  end.

Fixpoint exec_calls cs t : outcome (list Z * tmi S W) :=
  match cs with
  | [] => Ret ([], t)
  | c :: cs' => '(r, t) ← exec_call c t; '(rs, t) ← exec_calls cs' t; Ret (r :: rs, t)
  end.

(** The system function, its arguments and the key of the record. *)
Definition call_parts (c : wrapped_call) : syscall * list Z * Z :=
  match c with
  | WSocket domain type protocol => (SYS_socket, [domain; type; protocol], u64 domain)
  | WConnect sock addr length => (SYS_connect, [sock; addr; length], u64 sock)
  | WBind sockfd addr addrlen => (SYS_bind, [sockfd; addr; addrlen], addr)
  end.

Lemma exec_call_replayed c t : exec_call c t = let '(sc, args, key) := call_parts c in replayed_call sys t sc args key.
Proof. by destruct c. Qed.

(** The calls made for real: results and world. *)
Fixpoint real_calls cs w : list Z * W :=
  match cs with
  | [] => ([], w)
  | c :: cs' => let '(sc, args, _) := call_parts c in
                let '(r, w) := sys sc args w in let '(rs, w) := real_calls cs' w in (r :: rs, w)
  end.

Fixpoint call_log cs (rs : list Z) : list wr :=
  match cs, rs with
  | c :: cs', r :: rs' => mk_wr uint32_t (call_parts c).2 (u32 r) :: call_log cs' rs'
  | _, _ => []
  end.

Lemma exec_calls_first cs : forall t log, phase t = 0 -> log_rel (t_abuf_sc t) log ->
  exists t', exec_calls cs t = Ret ((real_calls cs (world t)).1, t') /\ world t' = (real_calls cs (world t)).2 /\
    log_rel (t_abuf_sc t') (log ++ call_log cs (real_calls cs (world t)).1) /\ poped (t_abuf_sc t') = poped (t_abuf_sc t).
Proof.
  induction cs as [|c cs IH]; intros t log Hp Hl; cbn [exec_calls real_calls call_log fst snd].
  { exists t. by rewrite app_nil_r. }
  rewrite exec_call_replayed. destruct (call_parts c) as [[sc args] key] eqn:Ec. unfold replayed_call, sys_call. rewrite Hp. cbn [Z.eqb].
  destruct (sys sc args (world t)) as [r w]. cbn [t_abuf_sc tw_sei].
  destruct (abuf_push_rel uint32_t (t_abuf_sc t) log key r Hl) as (a & -> & Ha & _ & Hpo). rewrite !bind_Ret_l.
  set (t1 := tw_abuf_sc _ a). destruct (IH t1 _ Hp Ha) as (t' & -> & Hw & Hl' & Hpo'). rewrite bind_Ret_l.
  change (world t1) with w in *. destruct (real_calls cs w) as [rs w']. cbn [fst snd call_log] in *.
  exists t'. split_and!; [done|done| |by rewrite Hpo', <- Hpo]. rewrite <- app_assoc in Hl'. exact Hl'.
Qed.

Lemma exec_calls_second cs : forall t log rest w, phase t = 1 -> log_rel (t_abuf_sc t) log ->
  drop (poped (t_abuf_sc t)) log = call_log cs (real_calls cs w).1 ++ rest ->
  exists t', exec_calls cs t = Ret ((real_calls cs w).1, t') /\ t_sei t' = t_sei t.
Proof.
  induction cs as [|c cs IH]; intros t log rest w Hp Hl Hd; cbn [exec_calls real_calls call_log fst] in *; [by exists t|].
  rewrite exec_call_replayed. destruct (call_parts c) as [[sc args] key] eqn:Ec. pose proof (sys_int sc args w) as Hr.
  destruct (sys sc args w) as [r w1]. specialize (IH (tw_abuf_sc t (set_poped (poped (t_abuf_sc t) + 1) (t_abuf_sc t))) log rest w1 Hp).
  destruct (real_calls cs w1) as [rs w']. cbn [fst call_log] in *.  apply drop_cons in Hd as [Hw Hd].
  unfold replayed_call. rewrite Hp. cbn [Z.eqb]. rewrite (abuf_pop_ty_rel _ _ _ Hl Hw), !bind_Ret_l. cbn [w_val].
  rewrite s32_u32 by done. cbn [Pos.eqb]. rewrite bind_Ret_l. destruct IH as (t' & -> & Hs); [by eapply pop_log_rel|done|]. rewrite bind_Ret_l. by exists t'.
Qed.

Lemma exec_calls_other cs : forall t, phase t <> 0 -> phase t <> 1 ->
  exists t', exec_calls cs t = Ret ((real_calls cs (world t)).1, t') /\ world t' = (real_calls cs (world t)).2.
Proof.
  induction cs as [|c cs IH]; intros t H0' H1'; cbn [exec_calls real_calls fst snd]; [by exists t|].
  rewrite exec_call_replayed. destruct (call_parts c) as [[sc args] key]. unfold replayed_call, sys_call.
  rewrite (proj2 (Z.eqb_neq _ 0)), (proj2 (Z.eqb_neq _ 1)) by done. destruct (sys sc args (world t)) as [r w]. rewrite bind_Ret_l.
  set (t1 := tw_sei _ _). destruct (IH t1 H0' H1') as (t' & -> & Hw). change (world t1) with w in *. rewrite bind_Ret_l.
  destruct (real_calls cs w) as [rs w']. by exists t'.
Qed.

(** Replayed system calls.  The first execution makes the calls; the second
    returns the same results without calling the system.  In every other phase,
    so also from the third execution on, the calls are made again. *)
Theorem calls_replayed cs t : phase t = 0 -> log_rel (t_abuf_sc t) [] -> poped (t_abuf_sc t) = 0%nat ->
  let '(rs, w') := real_calls cs (world t) in
  exists t0, exec_calls cs t = Ret (rs, t0) /\ world t0 = w' /\
    (forall t1, t_abuf_sc t1 = t_abuf_sc t0 -> phase t1 = 1 ->
       exists t2, exec_calls cs t1 = Ret (rs, t2) /\ t_sei t2 = t_sei t1) /\
    (forall t1, phase t1 = 2 -> exists t2, exec_calls cs t1 = Ret ((real_calls cs (world t1)).1, t2) /\
       world t2 = (real_calls cs (world t1)).2).
Proof using sys_int.
  intros Hp Hl Hpo. destruct (exec_calls_first cs t [] Hp Hl) as (t0 & E & Hw & Hl0 & Hpo0).
  pose proof (fun t1 log rest => exec_calls_second cs t1 log rest (world t)) as Hsecond.
  destruct (real_calls cs (world t)) as [rs w']. cbn [fst snd app] in *. exists t0. split_and!; [done|done| |].
  - intros t1 E1 Hp1. apply (Hsecond t1 (call_log cs rs) []); [done|by rewrite E1|].
    rewrite E1, Hpo0, Hpo, app_nil_r. done.
  - intros t1 Hp1. apply exec_calls_other; rewrite Hp1; discriminate.
Qed.

End Calls.

(** ** Witnesses *)

(** A system that logs the calls; acquiring lock 2 fails. *)
Definition demo_sys (c : syscall) (args : list Z) (w : list Z) : Z * list Z :=
  match c, args with
  | SYS_unlock, [l] => (0, w ++ [-l])
  | _, [l] => (if l =? 2 then 16 else 0, w ++ [l])
  | _, _ => (7, w ++ args)
  end.

Lemma demo_sys_int c args w : - 2^31 <= (demo_sys c args w).1 < 2^31.
Proof. destruct c, args as [|x [|y l]]; cbn; try lia; destruct (x =? 2); cbn; lia. Qed.

(** A thread in its first execution. *)
Definition demo_thread `{Build} : outcome (tmi libc (list Z)) :=
  t ← __sei_thread_init ∅ demo_heap ([] : list Z) demo_proc; __sei_begin t 0.

Lemma two_phase_locking_witness :
  let _ := debug_build 2 in
  exists t t0 rs, demo_thread = Ret t /\ exec_mutexes demo_sys [Lock 1; Trylock 2; Unlock 1; Lock 3] t = Ret (rs, t0) /\
    rs = [0; 16; 0; 0] /\
    exists t4, late_unlock demo_sys (Z.to_nat (abuf_size (abuf_rewind (t_abuf t0)))) (tw_abuf t0 (abuf_rewind (t_abuf t0))) = Ret t4 /\
      s_world (t_sei t4) = [1; 2; 3; -1; -3].
Proof.
  intros B.
  assert (Hrun : (t ← demo_thread; Ret (sei_getp (t_sei t), t_abuf t, s_world (t_sei t))) = Ret (0, abuf_init 100, []))
    by (vm_compute; reflexivity).
  apply bind_Ret in Hrun as (t & E & Ht). injection Ht as Hp Ha Hw.
  pose proof (two_phase_locking demo_sys demo_sys_int [Lock 1; Trylock 2; Unlock 1; Lock 3] t Hp
    ltac:(rewrite Ha; apply abuf_init_rel; lia) ltac:(rewrite Ha; reflexivity) ltac:(right; reflexivity)) as Hlock.
  rewrite Hw in Hlock. destruct Hlock as (t0 & E0 & Hw0 & _ & Hun).
  destruct (Hun (tw_abuf t0 (abuf_rewind (t_abuf t0))) eq_refl) as (t4 & E4 & Hw4).
  exists t, t0, [0; 16; 0; 0]. split; [exact E|]. split; [exact E0|]. split; [reflexivity|].
  exists t4. split; [exact E4|]. rewrite Hw4. change (s_world (t_sei (tw_abuf t0 (abuf_rewind (t_abuf t0))))) with (s_world (t_sei t0)).
  rewrite Hw0. reflexivity.
Defined.

Lemma calls_replayed_witness :
  let _ := debug_build 2 in
  exists t t0, demo_thread = Ret t /\ exec_calls demo_sys [WSocket 2 1 0; WBind 7 4096 16] t = Ret ([7; 7], t0) /\
    s_world (t_sei t0) = [2; 1; 0; 7; 4096; 16] /\
    exists t2, exec_calls demo_sys [WSocket 2 1 0; WBind 7 4096 16] (tw_sei t0 (sei_setp (t_sei t0) 1)) = Ret ([7; 7], t2) /\
      s_world (t_sei t2) = s_world (t_sei t0).
Proof.
  intros B.
  assert (Hrun : (t ← demo_thread; Ret (sei_getp (t_sei t), t_abuf_sc t, s_world (t_sei t))) = Ret (0, abuf_init SC_MAX_CALLS, []))
    by (vm_compute; reflexivity).
  apply bind_Ret in Hrun as (t & E & Ht). injection Ht as Hp Ha Hw.
  pose proof (calls_replayed demo_sys demo_sys_int [WSocket 2 1 0; WBind 7 4096 16] t Hp
    ltac:(rewrite Ha; apply abuf_init_rel; unfold SC_MAX_CALLS; lia) ltac:(rewrite Ha; reflexivity)) as Hrep.
  rewrite Hw in Hrep. destruct Hrep as (t0 & E0 & Hw0 & Hsec & _).
  destruct (Hsec (tw_sei t0 (sei_setp (t_sei t0) 1)) eq_refl eq_refl) as (t2 & E2 & Hs2).
  exists t, t0. split; [exact E|]. split; [exact E0|]. split; [exact Hw0|].
  exists t2. split; [exact E2|]. rewrite Hs2. reflexivity.
Defined.
