(* ===== verification/TmiDelay.v ===== *)
(** * The delayed system calls of src/tmi.c

    [close], [send] and [sendto] in a transaction only queue a function and its
    arguments; the commit runs the functions [wts_close], [wts_send] and [wts_sendto]
    on the recorded arguments.  Here are these functions, and what comes out at the
    end: the system sees the calls the handler made.

    The system's own functions are parameters.  The destination of [sendto] is a
    pointer, either to the caller's structure or into the recorded arguments.  After a
    failed assertion the process has stopped: the world of the queue is the outcome of
    the calls so far. *)

From S2P Require Export TmiLocks.

(** A pointer to a socket address: an address of the program, or the arguments from
    the eighth on. *)
Inductive sockaddr := At (a : Z) | Recorded (words : list Z).

Section Delayed.
Context `{Build} {W : Type}.
Context (__close : Z -> W -> Z * W) (__send : Z -> Z -> Z -> Z -> W -> Z * W).
Context (__sendto : Z -> Z -> Z -> Z -> sockaddr -> Z -> W -> Z * W).

(** ** The functions behind the queue *)

Definition wts_close (args : list Z) (w : W) : outcome (Z * W) :=
  a0 ← arr_get args 0;
  let '(r, w) := __close (s32 a0) w in
  Ret (s32 r, w).

(** The result is an [int], compared with an [uint64_t]. *)
Definition wts_send (args : list Z) (w : W) : outcome (Z * W) :=
  a0 ← arr_get args 0; a1 ← arr_get args 1; a2 ← arr_get args 2; a3 ← arr_get args 3;
  let '(r, w) := __send (s32 a0) a1 a2 (s32 a3) w in
  let res := s32 r in
  a4 ← arr_get args 4;
  c_assert (u64 res =? a4);;
  Ret (res, w).

Definition wts_sendto (args : list Z) (w : W) : outcome (Z * W) :=
  a7 ← arr_get args 7;
  a0 ← arr_get args 0; a1 ← arr_get args 1; a2 ← arr_get args 2; a3 ← arr_get args 3; a5 ← arr_get args 5;
  '(r, w) ← (if a7 =? 0 then a4 ← arr_get args 4; Ret (__sendto (s32 a0) a1 a2 (s32 a3) (At a4) (u32 a5) w)
             else Ret (__sendto (s32 a0) a1 a2 (s32 a3) (Recorded (drop 8 args)) (u32 a5) w));
  let res := s32 r in
  a6 ← arr_get args 6;
  c_assert (u64 res =? a6);;
  Ret (res, w).

(** The addresses of the three functions. *)
Context (a_close a_send a_sendto : Z).

(** Calling a function of the queue. *)
Definition callback (f : Z) (args : list Z) (w : outcome W) : outcome W :=
  w ← w;
  '(_, w) ← (if f =? a_close then wts_close args w
             else if f =? a_send then wts_send args w
             else if f =? a_sendto then wts_sendto args w else Stop Aborted);
  Ret w.

(** ** Requests *)

Inductive request :=
  | Close (fd : Z)
  | Send (sock buffer size flags : Z)
  | Sendto (sock buffer size flags dest_addr addrlen : Z).

(** A request as it is queued: with the destination if that is on the stack. *)
Inductive noted :=
  | NClose (fd : Z)
  | NSend (sock buffer size flags : Z)
  | NSendto (sock buffer size flags dest_addr addrlen : Z) (copy : option (Z * Z)).

Definition encode (n : noted) : Z * list Z :=
  match n with
  | NClose fd => (a_close, [u64 fd; 0])
  | NSend sock buffer size flags => (a_send, [u64 sock; buffer; size; u64 flags; size])
  | NSendto sock buffer size flags dest_addr addrlen None => (a_sendto, [u64 sock; buffer; size; u64 flags; dest_addr; addrlen; size; 0])
  | NSendto sock buffer size flags dest_addr addrlen (Some (a1, a2)) =>
      (a_sendto, [u64 sock; buffer; size; u64 flags; dest_addr; addrlen; size; 1; a1; a2])
  end.

(** The call itself; in the debug build it must send everything. *)
Definition perform (w : outcome W) (n : noted) : outcome W :=
  w ← w;
  match n with
  | NClose fd => Ret (__close fd w).2
  | NSend sock buffer size flags =>
      let '(r, w) := __send sock buffer size flags w in c_assert (u64 (s32 r) =? size);; Ret w
  | NSendto sock buffer size flags dest_addr addrlen copy =>
      let dest := match copy with None => At dest_addr | Some (a1, a2) => Recorded [a1; a2] end in
      let '(r, w) := __sendto sock buffer size flags dest addrlen w in c_assert (u64 (s32 r) =? size);; Ret w
  end.

Definition is_int (x : Z) : Prop := - 2^31 <= x < 2^31.

Definition noted_ok (n : noted) : Prop :=
  match n with
  | NClose fd => is_int fd
  | NSend sock _ _ flags => is_int sock /\ is_int flags
  | NSendto sock _ _ flags _ addrlen copy => is_int sock /\ is_int flags /\ 0 <= addrlen < 2^32 /\ (copy = None \/ addrlen <= 16)
  end.

(** A call that sends less than requested stops the process in the debug build; in the
    release build nobody learns of it, the handler was told that all was sent. *)
Lemma short_send sock buffer size flags w : u64 (s32 (__send sock buffer size flags w).1) <> size ->
  perform (Ret w) (NSend sock buffer size flags) = if NDEBUG then Ret (__send sock buffer size flags w).2 else Stop AssertFailed.
Proof.
  intros Hs. unfold perform. rewrite bind_Ret_l. destruct (__send sock buffer size flags w) as [r w']. cbn [fst snd] in *.
  rewrite (proj2 (Z.eqb_neq _ _)) by done. unfold c_assert. by destruct NDEBUG.
Qed.

(** [sendto] reads as many bytes of the address as it is told. *)
Hypothesis sendto_reads : forall sock buffer size flags ws ws' addrlen w, addrlen <= 16 -> take 2 ws = take 2 ws' ->
  __sendto sock buffer size flags (Recorded ws) addrlen w = __sendto sock buffer size flags (Recorded ws') addrlen w.
Hypothesis (Hf1 : a_close <> a_send) (Hf2 : a_close <> a_sendto) (Hf3 : a_send <> a_sendto).

Lemma arr_get_0 (x : Z) l : arr_get (x :: l) 0 = Ret x.
Proof. reflexivity. Qed.

Lemma arr_get_S (x : Z) l i : arr_get (x :: l) (S i) = arr_get l i.
Proof. reflexivity. Qed.

(** The function makes the recorded call, whatever is behind the arguments. *)
Lemma callback_encode n rest w : noted_ok n -> callback (encode n).1 ((encode n).2 ++ rest) w = perform w n.
Proof using All.
  intros Hn. destruct w as [w|e]; [|done]. unfold callback, perform. rewrite !bind_Ret_l. destruct n as [fd|sock buffer size flags|sock buffer size flags dest addrlen [[a1 a2]|]]; cbn [encode fst snd app].
  - rewrite Z.eqb_refl. unfold wts_close. rewrite ?arr_get_S, ?arr_get_0, !bind_Ret_l, (s32_u64 fd) by done. by destruct (__close fd w).
  - rewrite (proj2 (Z.eqb_neq a_send a_close)), Z.eqb_refl by done. destruct Hn as [? ?]. unfold wts_send. rewrite ?arr_get_S, ?arr_get_0, !bind_Ret_l, (s32_u64 sock), (s32_u64 flags) by done.
    destruct (__send sock buffer size flags w) as [r w']. rewrite bind_Ret_l. by destruct (c_assert _) as [[]|].
  - rewrite !(proj2 (Z.eqb_neq a_sendto _)), Z.eqb_refl by done. destruct Hn as (? & ? & ? & Hl). destruct Hl as [Hl|Hl]; [done|]. unfold wts_sendto. rewrite ?arr_get_S, ?arr_get_0, !bind_Ret_l, (s32_u64 sock), (s32_u64 flags), (u32_small addrlen) by done.
    cbn [Z.eqb drop]. rewrite bind_Ret_l, (sendto_reads _ _ _ _ (a1 :: a2 :: rest) [a1; a2]) by done.
    destruct (__sendto _ _ _ _ _ _ w) as [r w']. rewrite bind_Ret_l. by destruct (c_assert _) as [[]|].
  - rewrite !(proj2 (Z.eqb_neq a_sendto _)), Z.eqb_refl by done. destruct Hn as (? & ? & ? & _). unfold wts_sendto. rewrite ?arr_get_S, ?arr_get_0, !bind_Ret_l, (s32_u64 sock), (s32_u64 flags), (u32_small addrlen) by done.
    cbn [Z.eqb]. rewrite !bind_Ret_l. destruct (__sendto _ _ _ _ _ _ w) as [r w']. rewrite bind_Ret_l. by destruct (c_assert _) as [[]|].
Qed.

(** Running the queue. *)
Lemma run_calls_encode items ns : forall w, call_of 0 <$> items = encode <$> ns -> Forall noted_ok ns -> run_calls callback items w = foldl perform w ns.
Proof using All.
  revert ns. induction items as [|it items IH]; intros [|n ns] w E Hn; try done. injection E as Ec0 Es. apply Forall_cons in Hn as [Hn Hns].
  unfold run_calls. cbn [foldl]. assert (Ec : callback (nth 0 (w_func it) 0) (nth 0 (w_args it) []) w = perform w n).
  { rewrite <- (callback_encode n (drop (nth 0 (w_anum it) 0%nat) (nth 0 (w_args it) []))) by done. rewrite <- Ec0. cbn [call_of fst snd]. by rewrite take_drop. }
  rewrite Ec. by apply IH.
Qed.

(** ** Requests of a handler *)

Section Handler.
Context {S : Type} (sys : syscall -> list Z -> outcome W -> Z * outcome W) (sp : Z).
Context (Hn1 : a_close <> 0) (Hn2 : a_send <> 0) (Hn3 : a_sendto <> 0).
Abbreviation tmi := (tmi S (outcome W)).
Implicit Types t : tmi.

Definition make t (r : request) : outcome (Z * tmi) :=
  match r with
  | Close fd => close sys a_close t fd
  | Send sock buffer size flags => send sys a_send t sock buffer size flags
  | Sendto sock buffer size flags dest_addr addrlen => sendto sys a_sendto sp t sock buffer size flags dest_addr addrlen
  end.

Fixpoint make_all (rs : list request) t : outcome (list Z * tmi) :=
  match rs with
  | [] => Ret ([], t)
  | r :: rs' => '(v, t) ← make t r; '(vs, t) ← make_all rs' t; Ret (v :: vs, t)
  end.

(** What a request becomes in a state, and what the handler is told. *)
Definition note t (r : request) : noted :=
  match r with
  | Close fd => NClose fd
  | Send sock buffer size flags => NSend sock buffer size flags
  | Sendto sock buffer size flags dest_addr addrlen =>
      let m := s_mem (t_sei t) in
      NSendto sock buffer size flags dest_addr addrlen (if IN_STACK sp t dest_addr then Some (load 8 m dest_addr, load 8 m (u64 (dest_addr + 8))) else None)
  end.

Definition told (r : request) : Z :=
  match r with Close _ => 0 | Send _ _ size _ => s32 size | Sendto _ _ size _ _ _ => s32 size end.

Lemma make_delays t (p : nat) r : sei_getp (t_sei t) = Z.of_nat p -> (p < 2)%nat ->
  make t r = (w ← wts_add (s_wts (t_sei t)) (Z.of_nat p) (encode (note t r)).1 (encode (note t r)).2; Ret (told r, tw_sei t (with_wts (t_sei t) w))).
Proof.
  intros Hp Hlt. assert (Hor : (Z.of_nat p =? 0) || (Z.of_nat p =? 1) = true) by (destruct p as [|[|p]]; [done|done|lia]).
  destruct r as [fd|sock buffer size flags|sock buffer size flags dest addrlen]; cbn [make]; unfold close, send, sendto, delayed_call; rewrite Hp, Hor; cbn [note told].
  - cbn [encode fst snd]. by destruct (wts_add _ _ _ _).
  - cbn [encode fst snd]. by destruct (wts_add _ _ _ _).
  - destruct (IN_STACK sp t dest); cbn [encode fst snd]; by destruct (wts_add _ _ _ _).
Qed.

Lemma encode_fits n : (encode n).1 <> 0 /\ (length (encode n).2 <= WTS_MAX_ARG)%nat.
Proof using Hn1 Hn2 Hn3. destruct n as [| |? ? ? ? ? ? [[? ?]|]]; (split; [done|]); cbn; unfold WTS_MAX_ARG; lia. Qed.

(** An execution queues what it requests and changes nothing else. *)
Lemma make_all_ok rs : forall t (p : nat), sei_getp (t_sei t) = Z.of_nat p -> (p < 2)%nat -> (2 <= SEI_DMR_REDUNDANCY)%nat -> wts_wf (s_wts (t_sei t)) ->
  (length (queued (s_wts (t_sei t)) p) + length rs + 1 <= w_max_items (s_wts (t_sei t)))%nat ->
  exists w, make_all rs t = Ret (told <$> rs, tw_sei t (with_wts (t_sei t) w)) /\ wts_wf w /\ w_max_items w = w_max_items (s_wts (t_sei t)) /\
    queued w p = queued (s_wts (t_sei t)) p ++ (encode <$> (note t <$> rs)) /\ forall q, q <> p -> queued w q = queued (s_wts (t_sei t)) q.
Proof using All.
  induction rs as [|r rs IH]; intros t p Hp Hlt Hlv Hwf Hroom; cbn [make_all length] in *.
  { exists (s_wts (t_sei t)). rewrite app_nil_r. split_and!; try done. by destruct t as [[] ? ? ? ? ? ? ? ? ? ?]. }
  destruct (encode_fits (note t r)) as [Hfp Hla]. rewrite (make_delays t p r Hp Hlt). pose proof (queued_length (s_wts (t_sei t)) p Hwf) as Hql.
  destruct (wts_add_spec (s_wts (t_sei t)) p (encode (note t r)).1 (encode (note t r)).2 Hwf ltac:(lia) Hfp Hla ltac:(lia)) as (w & -> & Hwf' & Hmax & Hq & Hoth).
  rewrite !bind_Ret_l. set (t1 := tw_sei t (with_wts (t_sei t) w)). assert (Ew : s_wts (t_sei t1) = w) by done.
  destruct (IH t1 p) as (w' & -> & Hwf2 & Hmax2 & Hq2 & Hoth2); [done|done|done|by rewrite Ew| |].
  { rewrite Ew, Hmax, Hq, length_app. cbn [length]. lia. }
  exists w'. rewrite bind_Ret_l. split_and!; [done|done|by rewrite Hmax2, Ew| |].
  - rewrite Hq2, Ew, Hq. destruct (encode (note t r)) as [fp args] eqn:Ee. cbn [fmap list_fmap fst snd]. rewrite <- app_assoc. cbn [app]. by rewrite <- Ee.
  - intros q Hne. by rewrite Hoth2, Ew, Hoth.
Qed.

(** C26.  Delayed system calls are the calls the handler made.  When the first execution
    requests [rs0] and the second [rs1] (closing, sending, with destinations on the
    stack or elsewhere), both are told what a call that succeeds returns and nothing
    reaches the system before the commit.  The commit then makes the calls of the first
    execution, each once and in order, with the sockets, buffers, sizes, flags and
    destinations of the requests, a destination on the stack with the contents it had at
    the request, if both executions requested the same; otherwise it stops the process
    and no call is made.  In the debug build a call that sends less than requested stops
    the process, and the later calls are not made.  (The queues are empty before and have
    room; sockets and flags are ints; a destination on the stack has at most 16 bytes, as
    many as are recorded.) *)
Theorem delayed_calls_performed t0 rs0 rs1 w : SEI_DMR_REDUNDANCY = 2%nat -> sei_getp (t_sei t0) = 0 -> wts_wf (s_wts (t_sei t0)) ->
  (forall p, (p < 2)%nat -> queued (s_wts (t_sei t0)) p = []) ->
  (length rs0 + 1 <= w_max_items (s_wts (t_sei t0)))%nat -> (length rs1 + 1 <= w_max_items (s_wts (t_sei t0)))%nat ->
  Forall noted_ok (note t0 <$> rs0) ->
  exists q, make_all rs0 t0 = Ret (told <$> rs0, tw_sei t0 (with_wts (t_sei t0) q)) /\
  forall t1, sei_getp (t_sei t1) = 1 -> s_wts (t_sei t1) = q ->
  exists q', make_all rs1 t1 = Ret (told <$> rs1, tw_sei t1 (with_wts (t_sei t1) q')) /\
    let calls0 := encode <$> (note t0 <$> rs0) in let calls1 := encode <$> (note t1 <$> rs1) in
    (calls0 = calls1 -> exists q2, wts_flush callback q' (Ret w) = Ret (q2, foldl perform (Ret w) (note t0 <$> rs0)) /\ forall p, (p < 2)%nat -> queued q2 p = []) /\
    (calls0 <> calls1 -> wts_flush callback q' (Ret w) = Stop (SeiFail "N-way system call mismatch")).
Proof using All.
  intros Hlv Hp0 Hwf Hemp Hr0 Hr1 Hok. pose proof (Hemp 0%nat ltac:(lia)) as E0. pose proof (Hemp 1%nat ltac:(lia)) as E1.
  destruct (make_all_ok rs0 t0 0 Hp0 ltac:(lia) ltac:(lia) Hwf) as (q & Em & Hwq & Hmq & Hq0 & Hq1); [rewrite E0; cbn; lia|]. exists q. split; [exact Em|]. intros t1 Hp1 Hs1.
  rewrite E0 in Hq0. specialize (Hq1 1%nat ltac:(lia)). rewrite E1 in Hq1.
  destruct (make_all_ok rs1 t1 1 Hp1 ltac:(lia) ltac:(lia) ltac:(by rewrite Hs1)) as (q' & Em' & Hwq' & _ & Hq1' & Hq0'); [rewrite Hs1, Hq1, Hmq; cbn; lia|].
  rewrite Hs1 in Hq1', Hq0'. rewrite Hq1 in Hq1'. specialize (Hq0' 0%nat ltac:(lia)). rewrite Hq0 in Hq0'. cbn [app] in Hq0', Hq1'.
  exists q'. split; [exact Em'|]. cbv zeta. destruct (wts_flush_spec callback q' (Ret w) Hwq' ltac:(lia)) as [Hsame Hdiff].
  assert (Hag : wts_agree q' <-> encode <$> (note t0 <$> rs0) = encode <$> (note t1 <$> rs1)).
  { unfold wts_agree. rewrite Hlv. split.
    - intros [Ha _]. specialize (Ha 1%nat ltac:(lia)). by rewrite Hq1', Hq0' in Ha.
    - intros Eq. split.
      + intros [|[|p]] Hp; [done|by rewrite Hq1', Hq0'|lia].
      + intros c Hc. rewrite Hq0' in Hc. apply list_elem_of_fmap in Hc as (n & -> & _). apply encode_fits. }
  split; intros Hc; [|by apply Hdiff; rewrite Hag].
  destruct (Hsame (proj2 Hag Hc)) as (q2 & -> & _ & Hq2). exists q2. split; [|by rewrite Hlv in Hq2]. f_equal. f_equal. by apply run_calls_encode.
Qed.
End Handler.
End Delayed.

(** ** Example *)

Definition log_close (fd : Z) (w : list Z) : Z * list Z := (0, w ++ [1; fd]).
Definition log_send (sock buffer size flags : Z) (w : list Z) : Z * list Z := (size, w ++ [2; sock; buffer; size]).
Definition log_sendto (sock buffer size flags : Z) (dest : sockaddr) (addrlen : Z) (w : list Z) : Z * list Z :=
  (size, w ++ [3; sock; buffer; size] ++ match dest with At a => [a] | Recorded ws => take 2 ws end).

Definition delay_thread `{Build} : outcome (tmi libc (outcome (list Z))) :=
  t ← __sei_thread_init (store 8 (store 8 ∅ 6000 77) 6008 88) demo_heap (Ret [] : outcome (list Z)) demo_proc; __sei_begin t 8192.

Definition delay_requests : list request := [Send 5 100 20 0; Sendto 6 100 4 0 6000 16; Sendto 6 100 4 0 9000 16; Close 5].

(** Two sends, one with its destination on the stack, and a close. *)
Lemma delayed_calls_performed_witness :
  let B := debug_build 2 in let sys := fun _ _ w => (0, w) in
  exists t0 q, delay_thread = Ret t0 /\ make_all 1 2 3 sys 4096 delay_requests t0 = Ret ([20; 4; 4; 0], tw_sei t0 (with_wts (t_sei t0) q)) /\
  exists q', make_all 1 2 3 sys 4096 delay_requests (tw_sei t0 (sei_setp (with_wts (t_sei t0) q) 1)) = Ret ([20; 4; 4; 0], tw_sei t0 (sei_setp (with_wts (t_sei t0) q') 1)) /\
  exists q2, wts_flush (callback log_close log_send log_sendto 1 2 3) q' (Ret []) = Ret (q2, Ret [2; 5; 100; 20; 3; 6; 100; 4; 77; 88; 3; 6; 100; 4; 9000; 1; 5]).
Proof.
  intros B sys.
  assert (Hrun : (t ← delay_thread; Ret (sei_getp (t_sei t), t_high t, s_mem (t_sei t), s_wts (t_sei t))) =
    (w ← wts_init 100; Ret (0, 8192, store 8 (store 8 ∅ 6000 77) 6008 88, w))) by (vm_compute; reflexivity).
  destruct (wts_init_ok 100) as (w0 & Ei & Hwf & Hmax & Hq); [lia|]. rewrite Ei, bind_Ret_l in Hrun. apply bind_Ret in Hrun as (t0 & Et & Ht). injection Ht as Hp Hh Hm Hw.
  assert (Hnote : forall t : tmi libc (outcome (list Z)), t_high t = 8192 -> s_mem (t_sei t) = store 8 (store 8 ∅ 6000 77) 6008 88 ->
    note 4096 t <$> delay_requests = [NSend 5 100 20 0; NSendto 6 100 4 0 6000 16 (Some (77, 88)); NSendto 6 100 4 0 9000 16 None; NClose 5]).
  { intros t Ht Hmt. unfold delay_requests. cbn [fmap list_fmap note]. unfold IN_STACK. rewrite Ht, Hmt. by vm_compute. }
  pose proof (Hnote t0 Hh Hm) as Hn0.
  assert (Hreads : forall sock buffer size flags ws ws' addrlen w, addrlen <= 16 -> take 2 ws = take 2 ws' ->
    log_sendto sock buffer size flags (Recorded ws) addrlen w = log_sendto sock buffer size flags (Recorded ws') addrlen w) by (intros * _ E; unfold log_sendto; by rewrite E).
  destruct (delayed_calls_performed (H:=B) log_close log_send log_sendto 1 2 3 Hreads ltac:(lia) ltac:(lia) ltac:(lia) sys 4096 ltac:(lia) ltac:(lia) ltac:(lia)
    t0 delay_requests delay_requests []) as (q & Em & Hsec); [done|done|by rewrite Hw|intros p _; by rewrite Hw|by rewrite Hw, Hmax; cbn; lia..| |].
  { rewrite Hn0. repeat constructor; cbn; try lia; by right. }
  exists t0, q. split; [exact Et|]. split; [exact Em|].
  destruct (Hsec (tw_sei t0 (sei_setp (with_wts (t_sei t0) q) 1)) eq_refl eq_refl) as (q' & Em' & Hsame & _). exists q'. split; [exact Em'|].
  rewrite (Hnote (tw_sei t0 (sei_setp (with_wts (t_sei t0) q) 1)) Hh Hm), Hn0 in Hsame. destruct (Hsame eq_refl) as (q2 & Ef & _). exists q2. rewrite Ef. by vm_compute.
Defined.
