(* ===== verification/TmiSegv.v ===== *)
(** * Recovery from a segmentation fault (src/protect.c)

    With SEI_SIGSEGV_RECOVERY a fault inside a transaction is treated as a
    processor error: the handler of the signal blacklists the core, migrates the
    thread, rolls the transaction back and jumps to its start.  Unlike the rollback
    after a failed comparison this one may happen in the first execution, where the
    log holds the overwritten values. *)

From S2P Require Export Tmi SeiRollback TmiLocks.

Section Segv.
Context `{Build} {S W : Type} `{AllocatorLaws S}.
Context (crc32c : Z -> Z -> list Z -> Z).
Context (setaffinity : Z -> Z -> Z * Z) `{!OsAffinity setaffinity}.
Implicit Types (s : sei S W) (t : tmi S W).

Abbreviation machine_of t := (pr_machine (s_proc (t_sei t))).

(** [protect_handler]: the value the transaction starts again with.  Outside a
    transaction the signal is raised again and ends the process. *)
Definition protect_handler t : outcome (Z * tmi S W) :=
  if sei_getp (t_sei t) <? 0 then Stop Aborted
  else
    let t := tw_sei t (sei_setp (t_sei t) (-1)) in
    '(_, m) ← cpu_isolation_blacklist_current (machine_of t);
    '(_, m) ← cpu_isolation_migrate_current_thread setaffinity m;
    let t := with_machine t m in
    s ← sei_rollback (t_sei t);
    Ret (0, tw_sei t s).

(** What the handler does to the machine. *)
Lemma handler_moves m m1 m2 c1 c2 : iso_wf (iso m) -> is_core (iso m) (cpu m) ->
  cpu_isolation_blacklist_current m = Ret (c1, m1) -> cpu_isolation_migrate_current_thread setaffinity m1 = Ret (c2, m2) ->
  usable (iso m2) (cpu m2) /\ cpu m2 <> cpu m /\ (forall c, usable (iso m2) c <-> usable (iso m) c /\ c <> cpu m).
Proof.
  intros Hwf Hcore E1 E2. unfold cpu_isolation_blacklist_current in E1. rewrite (proj2 (Z.ltb_ge (cpu m) 0)) in E1 by apply Hcore.
  apply bind_Ret in E1 as (? & _ & [= <- <-]).
  destruct (add_to_blacklist_spec (iso m) (cpu m) Hwf Hcore) as (Hwf1 & _ & Hu1).
  destruct (migrate_current_thread_Ret setaffinity (mk_machine (add_to_blacklist (iso m) (cpu m)) (cpu m)) c2 m2 Hwf1 E2) as (Hc2 & Hcpu & _ & _ & Hu2). cbn [iso] in *.
  assert (Hall : forall c, usable (iso m2) c <-> usable (iso m) c /\ c <> cpu m) by (intros c; by rewrite Hu2, Hu1).
  rewrite Hcpu. split_and!; [by apply Hu2|by apply Hu1 in Hc2 as [_ ?]|done].
Qed.

(** C38.  A fault during the first execution of a handler, anywhere between two of its
    operations, is undone: the memory is that of the start of the transaction, the
    next execution is the first one again and runs on a core that is not
    blacklisted, the faulty core is no longer used, and no other core was given up.
    (Stated for writes that share no byte and executions without allocations,
    whose blocks are not restored.)  The records of taken locks and of wrapped
    calls are not cleared, as they are after a failed comparison. *)
Theorem segv_undoes_first_execution ops s s1 t k t' : idle s -> sei_begin s = Ret s1 -> exec_ops crc32c ops s1 = Ret (t_sei t) ->
  mallocs ops = 0%nat -> all_disjoint (writes ops) -> iso_wf (iso (machine_of t)) -> is_core (iso (machine_of t)) (cpu (machine_of t)) ->
  protect_handler t = Ret (k, t') ->
  k = 0 /\ s_mem (t_sei t') ≈ s_mem s /\ sei_getp (t_sei t') = 0 /\
  usable (iso (machine_of t')) (cpu (machine_of t')) /\ cpu (machine_of t') <> cpu (machine_of t) /\
  (forall c, usable (iso (machine_of t')) c <-> usable (iso (machine_of t)) c /\ c <> cpu (machine_of t)) /\
  t_abuf t' = t_abuf t /\ t_abuf_sc t' = t_abuf_sc t.
Proof.
  intros Hs Eb Ex Hm Hd Hwf Hcore E. destruct (sei_begin_idle s Hs) as (cf & Eb' & _ & _ & Hps). rewrite Eb in Eb'. injection Eb' as ->.
  apply (phase_state_ops crc32c _ _ _ _ _ _ Hps) in Ex. cbn [app] in Ex. destruct (ps_log _ _ _ _ Ex) as (a & Ha & _ & Hlog).
  unfold protect_handler in E. unfold sei_getp in E at 1. rewrite (ps_p _ _ _ _ Ex) in E. cbn [Z.of_nat Z.ltb Z.compare] in E.
  apply bind_Ret in E as ([c1 m1] & E1 & E). apply bind_Ret in E as ([c2 m2] & E2 & E). apply bind_Ret in E as (s2 & E3 & [= <- <-]).
  destruct (handler_moves _ m1 m2 c1 c2 Hwf Hcore E1 E2) as (Hu & Hne & Hall).
  set (s3 := t_sei (with_machine (tw_sei t (sei_setp (t_sei t) (-1))) m2)) in *.
  assert (Ha0 : s_cow s3 !! 0%nat = Some a).
  { cbn. rewrite Ha. apply list_lookup_insert_eq. cbn. rewrite (sw_cow _ (id_wf _ Hs)). unfold SEI_DMR_MAX_REDUNDANCY. lia. }
  assert (Hc0 : count (s_talloc s3) 0 = 0%nat).
  { cbn. rewrite (ps_count _ _ _ _ Ex), decide_True by done. cbn. pose proof (sw_level _ (id_wf _ Hs)). rewrite (id_count _ Hs), Hm by lia. done. }
  destruct (sei_rollback_mem s3 _ a _ Ha0 Hlog Hc0 E3) as (Hmem & Hp & Hproc).
  cbn [t_sei tw_sei]. rewrite Hproc. cbn [with_machine tw_sei t_sei with_proc s_proc pr_machine]. split_and!; try done.
  rewrite Hmem. cbn. rewrite (ps_mem _ _ _ _ Ex). cbn. by apply replay_undo_disjoint.
Qed.
End Segv.

(** A write of 7 by the first execution on core 0 of two, then a fault. *)
Lemma segv_undoes_first_execution_witness :
  let _ := debug_build 2 in
  let ops := [OWrite uint32_t 100 7] in
  exists (t t' : tmi libc (list Z)), load 4 (s_mem (t_sei t)) 100 = 7 /\ protect_handler demo_os t = Ret (0, t') /\ load 4 (s_mem (t_sei t')) 100 = 0 /\
    s_mem (t_sei t') ≈ (∅ : mem) /\ usable (iso (pr_machine (s_proc (t_sei t')))) (cpu (pr_machine (s_proc (t_sei t')))).
Proof.
  intros B ops.
  assert (Hrun : (s ← sei_init ∅ demo_env_heap ([] : list Z) demo_proc; s1 ← sei_begin s; s2 ← exec_ops crc32cSarwate ops s1;
                  t0 ← demo_thread; let t := tw_sei t0 s2 in
                  '(k, t') ← protect_handler demo_os t;
                  Ret (load 4 (s_mem (t_sei t)) 100, load 4 (s_mem (t_sei t')) 100, s_proc s2)) = Ret (7, 0, demo_proc)) by (vm_compute; reflexivity).
  apply bind_Ret in Hrun as (s & E & Hrun). apply bind_Ret in Hrun as (s1 & E1 & Hrun). apply bind_Ret in Hrun as (s2 & E2 & Hrun).
  apply bind_Ret in Hrun as (t0 & E3 & Hrun). cbv zeta in Hrun. apply bind_Ret in Hrun as ([k t'] & E4 & Hv). injection Hv as Hv1 Hv2 Hpr.
  destruct (sei_init_idle (∅ : mem) demo_env_heap ([] : list Z) demo_proc) as (s0 & E0 & Hidle & _ & Hm0);
    [unfold SEI_DMR_MAX_REDUNDANCY; cbn; lia|].
  rewrite E in E0. injection E0 as <-.
  destruct (segv_undoes_first_execution crc32cSarwate demo_os (OsAffinity0 := demo_os_ok) ops s s1 (tw_sei t0 s2) k t' Hidle E1 E2 eq_refl)
    as (-> & Hmem & _ & Hu & _); [intros [|i] [|j] ? ? Hij Hi Hj; done|cbn; rewrite Hpr; apply demo_proc_wf|cbn; rewrite Hpr; cbv; done|exact E4|].
  exists (tw_sei t0 s2), t'. rewrite Hm0 in Hmem. split; [exact Hv1|]. split; [exact E4|]. split; [exact Hv2|]. split; [exact Hmem|exact Hu].
Defined.
