(* ===== verification/TmiControl.v ===== *)
(** * The control of a transaction

    The atomic block of the compiler runs the handler once per phase: every
    commit but the last jumps back to the start of the handler.  The theorems
    follow the default build (no core isolation). *)

From S2P Require Export SeiComplete Tmi.

Section Control.
Context `{Build} {S W : Type} `{AllocatorLaws S}.
Context (crc32c : Z -> Z -> list Z -> Z).
Context (crc_run : Z -> nat -> Z -> list Z -> Z).
Context (setaffinity : Z -> Z -> Z * Z) (getaffinity : Z -> Z * Z).
Context (call : Z -> list Z -> W -> W).
Context (sys : syscall -> list Z -> W -> Z * W).
Implicit Types (t : tmi S W) (s : sei S W).

Abbreviation getp t := (sei_getp (t_sei t)).
Abbreviation level t := (s_redundancy_level (t_sei t)).
Abbreviation sei_commit_tmi := (__sei_commit crc_run setaffinity getaffinity call None false sys).
Abbreviation next := (next_phase crc_run setaffinity getaffinity None false).
Abbreviation after := (after_commit setaffinity None false sys).
Abbreviation block := (atomic_block crc_run setaffinity getaffinity call None false sys).

(** What every commit resets first. *)
Definition reset_ignore t : tmi S W := tw_disable (tw_ignore t (t_ignore_addr_s t) (t_ignore_addr_e t) 0) false.

(** A body that stays in its phase. *)
Definition keeps_phase (body : tmi S W -> outcome (tmi S W)) : Prop :=
  forall t t', body t = Ret t' -> getp t' = getp t /\ level t' = level t.

(** The body, [n] times followed by a switch to the next phase, and once more. *)
Fixpoint phases (n : nat) (body : tmi S W -> outcome (tmi S W)) t : outcome (tmi S W) :=
  match n with
  | O => body t
  | Datatypes.S n' => t ← body t; t ← next (reset_ignore t); phases n' body t
  end.

(** The end of the last phase. *)
Definition finish t : outcome (tmi S W) :=
  let t := reset_ignore t in
  s ← sei_commit crc_run call None (t_sei t); after (tw_sei t s).

Lemma sei_switch_phase s s' : sei_switch crc_run s = Ret s' ->
  s_p s' = s_p s + 1 /\ s_redundancy_level s' = s_redundancy_level s.
Proof.
  unfold sei_switch, set_cur_obuf. intros E. inv_outcome. destruct (ibuf_switch _ _ _ _) as [ib pr]. inv_outcome.
  case_match. inv_outcome. done.
Qed.

Lemma next_phase_phase t t' : next t = Ret t' -> getp t' = getp t + 1 /\ level t' = level t.
Proof.
  unfold next_phase, core_migration. cbn [orb andb]. intros E. inv_outcome.
  match goal with X : sei_switch _ _ = Ret _ |- _ => apply sei_switch_phase in X end. done.
Qed.

Lemma tx_loop_phases body : keeps_phase body -> forall (n fuel : nat) t,
  getp t + Z.of_nat n + 1 = Z.of_nat (level t) -> (n < fuel)%nat ->
  tx_loop crc_run setaffinity getaffinity call None false sys fuel body t = Some (t ← phases n body t; finish t).
Proof.
  intros Hb. induction n as [|n IH]; intros fuel t Hp Hf; (destruct fuel as [|fuel]; [lia|]); cbn [tx_loop phases];
    (destruct (body t) as [t1|e] eqn:E1; [|done]); cbn [lift fbind]; rewrite bind_Ret_l;
    (destruct (Hb _ _ E1) as [Hp1 Hl1]); unfold __sei_commit; change (getp (tw_disable _ false)) with (getp t1);
    change (sei_get_redundancy (t_sei (tw_disable _ false))) with (level t1); rewrite Hp1, Hl1; fold (reset_ignore t1).
  - rewrite (proj2 (Z.ltb_ge _ _)), (proj2 (Z.eqb_eq _ _)), c_assert_true, bind_Ret_l by lia. unfold finish.
    destruct (sei_commit _ _ _ _) as [s|e]; [|done]. rewrite !bind_Ret_l. by destruct (after _).
  - rewrite (proj2 (Z.ltb_lt _ _)) by lia. destruct (next (reset_ignore t1)) as [t2|e] eqn:E2; [|done]. rewrite !bind_Ret_l.
    cbn [fbind]. apply next_phase_phase in E2 as [Hp2 Hl2]. apply IH; [|lia].
    rewrite Hp2, Hl2. change (getp (reset_ignore t1)) with (getp t1). change (level (reset_ignore t1)) with (level t1). lia.
Qed.

Lemma begin_phase t rbp t' : getp t = -1 -> __sei_begin t rbp = Ret t' -> getp t' = 0 /\ level t' = level t.
Proof.
  unfold __sei_begin, sei_begin, sei_getp. cbn [t_sei tw_high]. intros -> E. inv_outcome. cbn [Z.eqb Pos.eqb] in *.
  inv_outcome. done.
Qed.

(** An atomic block executes the handler exactly as many times as the
    redundancy level, with a switch of phase in between, commits after the last
    execution and ends. *)
Theorem atomic_block_runs fuel rbp body t : keeps_phase body -> getp t = -1 -> (1 <= level t <= fuel)%nat ->
  block fuel rbp body t = Some (t0 ← __sei_begin t rbp; t1 ← phases (level t - 1) body t0; finish t1).
Proof.
  intros Hb Hp Hl. unfold atomic_block. destruct (__sei_begin t rbp) as [t0|e] eqn:E; [|done]. cbn [lift fbind]. rewrite bind_Ret_l.
  apply begin_phase in E as [Hp0 Hl0]; [|done]. apply tx_loop_phases; [done|rewrite Hp0, Hl0; lia|lia].
Qed.

(** ** Handlers *)

(** The body of an atomic block that executes a handler. *)
Definition handler_body (h : handler) t : outcome (tmi S W) :=
  '(_, s) ← run crc32c h (t_sei t); Ret (tw_sei t s).

Lemma exec_ops_keeps ops : forall s s', exec_ops crc32c ops s = Ret s' ->
  s_p s' = s_p s /\ s_redundancy_level s' = s_redundancy_level s.
Proof.
  assert (Hob : forall s o s', set_cur_obuf s o = Ret s' -> s_p s' = s_p s /\ s_redundancy_level s' = s_redundancy_level s).
  { intros s o s' (os & ->)%cur_obuf_frame. done. }
  assert (Hop : forall o s s', exec_op crc32c o s = Ret s' -> s_p s' = s_p s /\ s_redundancy_level s' = s_redundancy_level s).
  { intros [t a v|n|p|f args|p data|] s s'; cbn [exec_op]; unfold sei_write, sei_malloc, sei_free, sei_delay_call, sei_output_append, sei_output_done;
      intros E; repeat first [progress inv_outcome | case_match]; try done; by eapply Hob. }
  induction ops as [|o ops IH]; intros s s' E; cbn [exec_ops] in E; inv_outcome; [done|].
  match goal with X : exec_op _ o s = Ret ?x |- _ => destruct (Hop _ _ _ X) as [E1 E2]; rename x into s1 end.
  destruct (IH s1 s') as [-> ->]; done.
Qed.

Lemma run_keeps h s ops s' : run crc32c h s = Ret (ops, s') ->
  s_p s' = s_p s /\ s_redundancy_level s' = s_redundancy_level s.
Proof. intros E%run_exec_ops. by eapply exec_ops_keeps. Qed.

Lemma handler_body_keeps h : keeps_phase (handler_body h).
Proof.
  intros t t' E. unfold handler_body in E. apply bind_Ret in E as ([ops s] & E & [= <-]). by apply run_keeps in E.
Qed.

Lemma after_idle t : s_p (t_sei t) = -1 -> log_rel (t_abuf t) [] -> exists t', after t = Ret t' /\ t_sei t' = t_sei t /\
  log_rel (t_abuf t') [].
Proof.
  intros Hp Hl. unfold after_commit. rewrite bind_Ret_l. unfold sei_getp. rewrite Hp, Z.eqb_refl, c_assert_true, bind_Ret_l.
  pose proof (log_rel_length _ _ Hl) as Hlen. cbn [length] in Hlen.
  replace (Z.to_nat (abuf_size _)) with 0%nat by (unfold abuf_size; cbn; lia). cbn [late_unlock]. rewrite bind_Ret_l. eexists. split; [done|]. split; [done|]. cbn. destruct Hl as [Hwf _]. apply (abuf_clean_rel _ Hwf).
Qed.

(** Blocks allocated between transactions are the application's: the library does not
    record them, so it is as ready as before; inside a transaction a debug build stops. *)
Lemma thread_malloc_idle t size : (s_p (t_sei t) = -1 -> idle (t_sei t) -> in_sync (t_sei t) ->
    exists ptr t', __sei_malloc t size = Ret (ptr, t') /\ (ptr ∉ al_live (s_alloc (t_sei t))) /\
      al_live (s_alloc (t_sei t')) = {[ptr]} ∪ al_live (s_alloc (t_sei t)) /\ s_talloc (t_sei t') = s_talloc (t_sei t) /\
      idle (t_sei t') /\ in_sync (t_sei t')) /\
  (NDEBUG = false -> s_p (t_sei t) <> -1 -> __sei_malloc t size = Stop AssertFailed).
Proof.
  split.
  - intros Hp [Hwf ? ? ? ? ? ?] Hs. unfold __sei_malloc, sei_malloc2, sei_getp. rewrite Hp, Z.eqb_refl, c_assert_true, bind_Ret_l.
    destruct (malloc_total (s_alloc (t_sei t)) size) as (ptr & al & E). rewrite E, !bind_Ret_l.
    destruct (malloc_fresh _ _ _ _ E) as (_ & Hf & Hl). exists ptr. eexists. split; [done|]. cbn. split_and!; try done.
    split; try done. destruct Hwf. by split.
  - intros Hd Hp. unfold __sei_malloc, c_assert, sei_getp. by rewrite Hd, (proj2 (Z.eqb_neq _ _) Hp).
Qed.

(** C7.  No false alarms, through the interface of the compiler.  An atomic block
    around a handler whose first execution ends, with at most 8000 writes that do not
    partially overlap, frees of distinct live non-null blocks and delayed calls of
    non-null functions, and whose input message (if any) still has its checksum
    afterwards or may be modified, checked by a healthy core, executes the handler twice and commits: the result is the memory
    of one execution, with its frees and its calls done once, and the library is
    ready for the next transaction. *)
Theorem atomic_block_commits h t rbp fuel ops s1 :
  let s := t_sei t in
  idle s -> s_redundancy_level s = 2%nat -> SEI_DMR_REDUNDANCY = 2%nat -> in_sync s -> log_rel (t_abuf t) [] ->
  (2 <= fuel)%nat -> (s0 ← sei_begin s; run crc32c h s0) = Ret (ops, s1) ->
  separated (writes ops) -> (length (writes ops) <= ABUF_MAX_CONFLICTS)%nat ->
  NoDup (frees ops) -> (forall q, q ∈ frees ops -> q <> 0 /\ q ∈ al_live (s_alloc s1)) ->
  (forall c, c ∈ calls ops -> c.1 <> 0) -> input_ok crc32c crc_run s (s_mem s1) ->
  exists t', block fuel rbp (handler_body h) t = Some (Ret t') /\ s_mem (t_sei t') ≈ s_mem s1 /\
    al_live (s_alloc (t_sei t')) = al_live (s_alloc s1) ∖ list_to_set (frees ops) /\
    (exists items, call_of 0 <$> items = calls ops /\ s_world (t_sei t') = run_calls call items (s_world s)) /\
    idle (t_sei t') /\ in_sync (t_sei t') /\ log_rel (t_abuf t') [].
Proof.
  intros s Hs Hlv HN Hsync Hab Hf E Hsep Hmax Hnd Hfr Hca Hin.
  destruct (handler_commits crc32c crc_run call h s ops s1 Hs Hlv HN Hsync E Hsep Hmax Hnd Hfr Hca Hin)
    as (s' & Ht & Hm & Hal & Hw & Hidle & Hsync').
  unfold handler_transaction in Ht.
  apply bind_Ret in Ht as (s0 & E0 & Ht). apply bind_Ret in Ht as ([ops1 s2] & E1 & Ht). apply bind_Ret in Ht as (s3 & E2 & Ht).
  apply bind_Ret in Ht as ([ops2 s4] & E3 & Ht). apply bind_Ret in Ht as (s5 & E4 & [= -> ->]).
  assert (Eb : __sei_begin t rbp = Ret (tw_sei (tw_high t rbp) s0)).
  { unfold __sei_begin. change (t_sei (tw_high t rbp)) with s. by rewrite E0. }
  destruct (begin_phase _ _ _ (id_p _ Hs) Eb) as [Hp0 Hl0]. fold s in Hl0. unfold atomic_block. rewrite Eb. cbn [lift fbind].
  rewrite (tx_loop_phases _ (handler_body_keeps h) 1) by (rewrite ?Hp0, ?Hl0; lia). cbn [phases]. unfold handler_body.
  cbn [t_sei tw_sei]. rewrite E1, !bind_Ret_l. unfold next_phase, core_migration. cbn [orb andb].
  change (t_sei (reset_ignore _)) with s2. rewrite E2, !bind_Ret_l. cbn [t_sei tw_sei tw_abuf]. rewrite E3, !bind_Ret_l.
  unfold finish. change (t_sei (reset_ignore _)) with s4. rewrite E4, !bind_Ret_l.
  match goal with |- context [after ?x] => destruct (after_idle x) as (t' & -> & Hst & Hlog) end.
  - exact (id_p _ Hidle).
  - cbn. apply set_poped_rel; [lia|done].
  - exists t'. rewrite Hst. split_and!; done.
Qed.

End Control.

(** ** Witnesses *)

Lemma atomic_block_runs_witness :
  let _ := debug_build 3 in
  exists t, __sei_thread_init ∅ demo_env_heap ([] : list Z) demo_proc = Ret t /\
    atomic_block demo_crc (fun c _ => (0, c)) (fun _ => (0, 1)) demo_call None false (fun _ _ w => (0, w)) 3 0 Ret t =
    Some (t0 ← __sei_begin t 0;
          t1 ← phases demo_crc (fun c _ => (0, c)) (fun _ => (0, 1)) 2 Ret t0;
          finish demo_crc (fun c _ => (0, c)) demo_call (fun _ _ w => (0, w)) t1).
Proof.
  intros B.
  assert (Hrun : (t ← __sei_thread_init ∅ demo_env_heap ([] : list Z) demo_proc;
      Ret (sei_getp (t_sei t), s_redundancy_level (t_sei t))) = Ret (-1, 3%nat)) by (vm_compute; reflexivity).
  apply bind_Ret in Hrun as (t & E & Ht). injection Ht as Hp Hl. exists t. split; [exact E|].
  rewrite (atomic_block_runs demo_crc (fun c _ => (0, c)) (fun _ => (0, 1)) demo_call (fun _ _ w => (0, w)) 3 0 Ret t);
    [rewrite Hl; reflexivity|intros t0 t1 Et; injection Et as <-; split; reflexivity|exact Hp|rewrite Hl; lia].
Defined.

Lemma atomic_block_commits_witness :
  let _ := debug_build 2 in
  exists t t', __sei_thread_init (store 4 ∅ 100 41) demo_env_heap ([] : list Z) demo_proc = Ret t /\
    atomic_block demo_crc (fun c _ => (0, c)) (fun _ => (0, 1)) demo_call None false (fun _ _ w => (0, w)) 2 0
      (handler_body crc32cSarwate demo_handler) t = Some (Ret t') /\
    load 4 (s_mem (t_sei t')) 100 = 42 /\ in_sync (t_sei t').
Proof.
  intros B.
  assert (Hrun : (t ← __sei_thread_init (store 4 ∅ 100 41) demo_env_heap ([] : list Z) demo_proc;
      let s := t_sei t in
      '(ops, s1) ← (s0 ← sei_begin s; run crc32cSarwate demo_handler s0);
      Ret (t_abuf t, ops, load 4 (s_mem s1) 100, bool_decide (16 ∈ al_live (s_alloc s1)),
           (ib_mode (s_ibuf s), ib_ptr (s_ibuf s), ib_size (s_ibuf s), ib_crc (s_ibuf s)))) =
    Ret (abuf_init 100, [OWrite uint32_t 100 42; OMalloc 8; OWrite uint64_t 32 42; OFree 16; OCall 5 [41; 32];
          OAppend 100 [42; 0; 0; 0]; ODone], 42, true, (READ_ONLY, 0, 0, crc_init)))
    by (vm_compute; reflexivity).
  apply bind_Ret in Hrun as (t & E & Hrun). apply bind_Ret in Hrun as ([ops s1] & E1 & Hv).
  injection Hv as Hab Hops Hl Hal Hm Hp Hsz Hc. apply bool_decide_eq_true in Hal.
  assert (Es : sei_init (store 4 ∅ 100 41) demo_env_heap ([] : list Z) demo_proc = Ret (t_sei t)).
  { unfold __sei_thread_init in E. apply bind_Ret in E as (s & Es & Et). injection Et as <-. exact Es. }
  destruct (sei_init_idle (store 4 ∅ 100 41) demo_env_heap ([] : list Z) demo_proc) as (s0 & E0 & Hidle & Hlv & _);
    [unfold SEI_DMR_MAX_REDUNDANCY; cbn; lia|].
  rewrite Es in E0. injection E0 as <-.
  assert (HN : @SEI_DMR_REDUNDANCY B = 2%nat) by reflexivity.
  pose proof (sei_init_in_sync _ _ _ _ _ HN Es) as Hsync.
  destruct (atomic_block_commits crc32cSarwate demo_crc (fun c _ => (0, c)) (fun _ => (0, 1)) demo_call (fun _ _ w => (0, w))
    demo_handler t 0 2 ops s1 Hidle Hlv HN Hsync) as (t' & Et & Hmem & _ & _ & _ & Hsync' & _).
  - rewrite Hab. apply abuf_init_rel. lia.
  - lia.
  - exact E1.
  - rewrite Hops. intros i j w1 w2 Hi Hj. vm_compute in Hi, Hj.
    destruct i as [|[|i]]; try discriminate Hi; destruct j as [|[|j]]; try discriminate Hj;
      injection Hi as <-; injection Hj as <-; first [left; split; reflexivity | right; unfold disjoint_range; cbn; lia].
  - rewrite Hops. apply Nat.leb_le. vm_compute. reflexivity.
  - rewrite Hops. cbn. apply NoDup_singleton.
  - rewrite Hops. cbn. intros q ->%list_elem_of_singleton. split; [lia|exact Hal].
  - rewrite Hops. cbn. intros c ->%list_elem_of_singleton. cbn. lia.
  - unfold input_ok. rewrite Hm, Hp, Hsz, Hc. left. repeat split.
  - exists t, t'. split; [exact E|]. split; [exact Et|]. split; [|exact Hsync'].
    rewrite <- Hl. exact (load_proper _ _ _ Hmem _ _ eq_refl).
Defined.
