(* ===== verification/TmiBulk.v ===== *)
(** * Bulk operations on the two write sets

    The interface of file TmiCopy is implemented by the driver with append-only
    buffers (file Tmi) and by the hash table in write-through mode.  For the
    table, whose writes must be aligned, the copies of a handler are total, and
    the switch to the next phase undoes them.  In both builds they leave what the plain
    build (file TmiMock) leaves. *)

From S2P Require Export CowWt Tmi TmiMock.

(** ** The driver *)

#[global] Instance tmi_barrier_laws `{Build} {S W} `{Allocator S} : BarrierLaws (tmi S W).
Proof.
  split; [|done]. intros ty t a v t' E. cbn [b_write tmi_barriers] in E. unfold sei_write, log_write in E.
  repeat first [progress inv_outcome | case_match]. done.
Qed.

(** ** The hash table *)

Section Table.
Context `{Build} `{CowBuild}.
Context (Hwt : COW_WT = true).
Implicit Types (c : cow) (m : mem).

#[local] Instance cow_barriers : Barriers (cow * mem) := {|
  b_mem := snd;
  b_poke := fun st m => (st.1, m);
  b_write := fun ty st a v => cow_write ty st.1 st.2 a v;
|}.

#[local] Instance cow_barrier_laws : BarrierLaws (cow * mem).
Proof using Hwt.
  split; [|done]. intros ty [c m] a v [c' m'] E. cbn [b_write cow_barriers fst snd b_mem] in *. unfold cow_write in E. rewrite Hwt in E.
  repeat first [progress inv_outcome | case_match]; done.
Qed.

Lemma write_all_cow_writes ws : forall c m, write_all ws (c, m) = cow_writes ws c m.
Proof.
  induction ws as [|w ws IH]; intros c m; cbn [write_all cow_writes b_write cow_barriers fst snd]; [done|].
  destruct (cow_write _ _ _ _ _) as [[c' m']|e]; [|done]. rewrite !bind_Ret_l. apply IH.
Qed.

(** Aligned writes inside the address range of the table succeed and are undone
    by the swap. *)
Lemma writes_swapped hp n ws m : base_ok hp -> (0 < n)%nat -> Forall (wr_ok hp) ws ->
  exists c, write_all ws (cow_init hp n, m) = Ret (c, replay ws m) /\
    exists c' m', cow_swap c (replay ws m) = Ret (c', m') /\ m' ≈ m.
Proof using Hwt.
  intros Hb Hn Hws. rewrite write_all_cow_writes.
  destruct (cow_writes_wt Hwt ws (cow_init hp n) ∅ m m (cow_init_rel hp n Hb Hn) (overlay_empty _ _) Hws) as (c & W & E & Hc & Hh & Ho).
  rewrite <- Hh in Ho. destruct (cow_swap_ok Hwt c W (replay ws m) m Hc Ho) as (c' & m' & W' & Es & Hm & _). eauto 10.
Qed.

Lemma range_wr_ok hp lo hi ws : base hp <= lo -> hi <= 2^64 ->
  (forall w, w ∈ ws -> aligned (w_ty w) (w_addr w) /\ lo <= w_addr w /\ w_addr w + Z.of_nat (w_size w) <= hi) ->
  Forall (wr_ok hp) ws.
Proof.
  intros Hb Hhi Hw. apply Forall_forall. intros w (Ha & Hlo & Hup)%Hw. split; [done|]. unfold valid_addr.
  pose proof (sizeof_pos (w_ty w)). lia.
Qed.

(** A copy of any length and alignment through the word table never meets
    the assertion on unaligned accesses, leaves the memory of the C library's
    [memcpy], and is undone by the swap at the end of the phase. *)
Theorem table_copy_undone hp n fuel m dst src size : base_ok hp -> (0 < n)%nat -> base hp <= dst -> 0 <= src ->
  dst + size <= 2^64 -> src + size <= 2^64 -> 1 <= size < 2^32 -> dst + size <= src \/ src + size <= dst -> size < Z.of_nat fuel ->
  exists c m1, memcpyRtWt false fuel false (cow_init hp n, m) dst src size = Some (Ret (c, m1)) /\
    m1 ≈ memcpy (Z.to_nat size) m dst src /\
    exists c' m2, cow_swap c m1 = Ret (c', m2) /\ m2 ≈ m.
Proof using Hwt.
  intros Hb Hn Hd Hs Hd' Hs' Hsz Hdis Hf. pose proof (bo_nonneg _ Hb).
  destruct (memcpyRtWt_tiling false fuel (cow_init hp n, m) dst src size) as (ws & E & _ & Hws & Hm); [lia..|].
  destruct (writes_swapped hp n ws m Hb Hn) as (c & Ew & Hswap); [apply (range_wr_ok hp dst (dst + size)); [done|lia|exact Hws]|].
  exists c, (replay ws m). split; [by rewrite E, Ew|]. split; [exact Hm|exact Hswap].
Qed.

(** The same for filling. *)
Lemma table_fill_undone hp n fuel m s ch len : base_ok hp -> (0 < n)%nat -> base hp <= s -> 0 <= len -> s + len < 2^64 ->
  len < Z.of_nat fuel -> ch mod 256 < 128 ->
  exists c m1, memsetW fuel false (cow_init hp n, m) s ch len = Some (Ret (c, m1)) /\
    m1 ≈ memset (Z.to_nat len) m s ch /\
    exists c' m2, cow_swap c m1 = Ret (c', m2) /\ m2 ≈ m.
Proof using Hwt.
  intros Hb Hn Hs Hl Hs' Hf Hc. pose proof (bo_nonneg _ Hb).
  destruct (memsetW_tiling s ch len ltac:(lia) Hl Hs' fuel (cow_init hp n, m) Hf Hc) as (ws & E & _ & Hws & Hm).
  destruct (writes_swapped hp n ws m Hb Hn) as (c & Ew & Hswap); [eapply (range_wr_ok hp s (s + len)); [done|lia|done]|].
  exists c, (replay ws m). split; [by rewrite E, Ew|]. split; [exact Hm|exact Hswap].
Qed.

End Table.

(** ** The plain build

    The bulk operations of a handler leave what those of src/tmi_mock.c leave, whether
    they go through the buffers or, for addresses to ignore, past them. *)

Section Plain.
Context {T : Type} `{BarrierLaws T} {S W : Type}.
Implicit Types (st : T) (k : mock S W).

Lemma copy_like_plain append_only fuel ign st st' k dst src size :
  0 <= dst -> 0 <= src -> dst + size <= 2^64 -> src + size <= 2^64 -> 1 <= size < 2^32 ->
  dst + size <= src \/ src + size <= dst -> size < Z.of_nat fuel -> b_mem st = k_mem k ->
  memcpyRtWt append_only fuel ign st dst src size = Some (Ret st') ->
  b_mem st' ≈ k_mem (mock_memcpyRtWt k dst src size).2.
Proof.
  intros Hd Hs Hd' Hs' Hsz Hdis Hf Hm E. cbn. rewrite <- Hm. destruct ign.
  - cbn in E. injection E as <-. by rewrite b_poke_mem.
  - destruct (memcpyRtWt_tiling append_only fuel st dst src size) as (ws & E' & _ & _ & Hw); [done..|].
    rewrite E in E'. injection E' as E'. by rewrite (write_all_mem ws st st').
Qed.

Lemma fill_like_plain fuel ign st st' k s c n : 0 <= s -> 0 <= n -> s + n < 2^64 -> n < Z.of_nat fuel ->
  (ign = true \/ c mod 256 < 128) -> b_mem st = k_mem k ->
  memsetW fuel ign st s c n = Some (Ret st') -> b_mem st' ≈ k_mem (mock_memsetW k s c n).2.
Proof.
  intros Hs Hn Hsn Hf Hc Hm E. cbn. rewrite <- Hm. destruct ign.
  - cbn in E. injection E as <-. by rewrite b_poke_mem.
  - destruct Hc as [|Hc]; [done|]. destruct (memsetW_tiling s c n Hs Hn Hsn fuel st Hf Hc) as (ws & E' & _ & _ & Hw).
    rewrite E in E'. injection E' as E'. by rewrite (write_all_mem ws st st').
Qed.

(** [_ITM_memmoveRtWt] copies forwards: moving two bytes up by one spreads the first
    one, the plain build moves both. *)
Lemma memmove_overlap_differs append_only fuel st st' k src : 0 <= src -> src + 3 <= 2^64 -> b_mem st = k_mem k ->
  memmoveRtWt append_only (Datatypes.S (Datatypes.S fuel)) false st (src + 1) src 2 = Some (Ret st') ->
  mget (b_mem st') (src + 2) = mget (b_mem st) src /\
  mget (k_mem (mock_memmoveRtWt k (src + 1) src 2).2) (src + 2) = mget (b_mem st) (src + 1).
Proof.
  intros Hs Hs3 Hm E. split.
  - unfold memmoveRtWt, memcpyRtWt in E. cbn [negb Z.leb] in E. rewrite andb_false_r in E. cbn [copy_do] in E. unfold copy_one in E.
    rewrite !Z.add_0_r, !u64_small in E by lia.
    destruct (b_write uint8_t st (src + 1) _) as [st1|] eqn:E1; [|done]. cbn [lift fbind] in E.
    change (u32 (0 + 1)) with 1 in E. cbn [Z.ltb Z.compare Pos.compare Pos.compare_cont] in E. rewrite !u64_small in E by lia.
    destruct (b_write uint8_t st1 (src + 1 + 1) _) as [st2|] eqn:E2; [|done]. cbn in E. injection E as <-.
    rewrite (b_write_mem _ _ _ _ _ E2), (b_write_mem _ _ _ _ _ E1). cbn [sizeof].
    rewrite mget_store_in by (unfold in_range; lia). replace (src + 2 - (src + 1 + 1)) with 0 by lia. rewrite Z.pow_0_r, Z.div_1_r.
    rewrite load_store_same. unfold wrap. rewrite Zmod_mod. cbn. pose proof (mget_bound (b_mem st) src). rewrite !Z.mod_small; lia.
  - cbn. rewrite <- Hm. unfold memmove. change (Z.to_nat 2) with 2%nat. cbn [copy_from]. rewrite !mget_store by done.
    unfold in_range. rewrite decide_True by lia. replace (src + 2 - (src + 1 + 1)) with 0 by lia.
    rewrite Z.pow_0_r, Z.div_1_r. apply Z.mod_small, mget_bound.
Qed.
End Plain.

Lemma table_copy_undone_witness :
  let _ := debug_build 2 in let _ := demo_wt in
  exists c m1, @memcpyRtWt (cow * mem) cow_barriers false 100 false (cow_init no_heap 4, memset 30 ∅ 1000 7) 13 1001 25 = Some (Ret (c, m1)) /\
    m1 ≈ memcpy 25 (memset 30 ∅ 1000 7) 13 1001.
Proof.
  intros B C.
  destruct (table_copy_undone (eq_refl : @COW_WT C = true) no_heap 4 100 (memset 30 ∅ 1000 7) 13 1001 25) as (c & m1 & E & Hm & _);
    [split; cbn; [lia|reflexivity|discriminate]|lia|cbn; lia|lia|lia|lia|lia|lia|lia|].
  exists c, m1. split; [exact E|exact Hm].
Defined.
