(* ===== verification/TmiMtl.v ===== *)
(** * Mini traversals (src/tmi.c, builds with SEI_MTL2)

    In these builds a handler may lock and unlock mutexes.  Every such call ends the
    transaction: the piece of the handler before it is committed (after its second
    execution), the mutex function is called once, outside of any transaction, and the
    rest of the handler is a new transaction that starts from a copy of the stack.

    A handler is a program in pieces: [seg l] is the code from the local state [l] up to
    the next call of a mutex function or the end.  [L] is what the stack holds, so that
    the copy of the stack is a value of [L]. *)

From S2P Require Export TmiControl TmiMock.

(** Where a piece of the handler stops; [k] is the local state when the call returned. *)
Inductive stop_at (L : Type) :=
  | Finish
  | Mutex (c : syscall) (lock : Z) (k : Z -> L).
Arguments Finish {L}.
Arguments Mutex {L}.

Definition SEI_MAX_STACKSZ : Z := 4096 * 10.

(** [sei_thread_t]: [m_ctx] is the point [ctx] returns to, [m_stack] the copy of the
    stack. *)
Record mtl_thread (S W L : Type) := mk_mtl {
  m_tmi : tmi S W;
  m_ctx : L;
  m_mtl : bool;
  m_rbp : Z;
  m_size : Z;
  m_stack : L;
}.
Arguments mk_mtl {S W L}.
Arguments m_tmi {S W L}.
Arguments m_ctx {S W L}.
Arguments m_mtl {S W L}.
Arguments m_rbp {S W L}.
Arguments m_size {S W L}.
Arguments m_stack {S W L}.

Section Mtl.
Context `{Build} {S W L : Type} `{Allocator S}.
Context (crc32c : Z -> Z -> list Z -> Z).
Context (crc_run : Z -> nat -> Z -> list Z -> Z) (SEI_CRC_REDUNDANCY : nat).
Context (setaffinity : Z -> Z -> Z * Z).
Context (call : Z -> list Z -> W -> W).
(** [__pthread_mutex_lock], [__pthread_mutex_trylock], [__pthread_mutex_unlock] *)
Context (sys : syscall -> list Z -> W -> Z * W).
(** The handler; the stack pointer and the frame pointer in [__sei_mtl]. *)
Context (seg : L -> prog (stop_at L)) (getsp getbp : L -> Z).
Implicit Types m : mtl_thread S W L.

Definition mw_tmi m t : mtl_thread S W L := mk_mtl t (m_ctx m) (m_mtl m) (m_rbp m) (m_size m) (m_stack m).
Definition mw_ctx m l : mtl_thread S W L := mk_mtl (m_tmi m) l (m_mtl m) (m_rbp m) (m_size m) (m_stack m).
Definition mw_mtl m b rbp : mtl_thread S W L := mk_mtl (m_tmi m) (m_ctx m) b rbp (m_size m) (m_stack m).
Definition mw_stack m sz l : mtl_thread S W L := mk_mtl (m_tmi m) (m_ctx m) (m_mtl m) (m_rbp m) sz l.
Definition mw_sei m s : mtl_thread S W L := mw_tmi m (tw_sei (m_tmi m) s).

Abbreviation phase m := (sei_getp (t_sei (m_tmi m))).

(** [_ITM_beginTransaction] called at the local state [l]. *)
Definition mtl_begin m (rbp : Z) (l : L) : outcome (mtl_thread S W L) :=
  t ← __sei_begin (m_tmi m) rbp; Ret (mw_ctx (mw_tmi m t) l).

(** [__sei_commit(force)].  [Some l]: the code jumps back, with the stack as it was in
    the local state [l]. *)
Definition mtl_commit (force : bool) m : outcome (option L * mtl_thread S W L) :=
  if phase m =? 0 then
    s ← sei_switch crc_run (t_sei (m_tmi m));
    Ret (Some (if m_mtl m then m_stack m else m_ctx m), mw_sei m s)
  else
    s ← sei_commit crc_run call None (t_sei (m_tmi m));
    let m := mw_sei m s in
    c_assert (abuf_size (t_abuf (m_tmi m)) =? 0);;
    let m := mw_tmi m (tw_abuf (m_tmi m) (abuf_clean (t_abuf (m_tmi m)))) in
    Ret (None, if force then m else mw_mtl m false (m_rbp m)).

(** [__sei_mtl]: copy the stack, forget the message, begin a transaction. *)
Definition __sei_mtl (l : L) m : option (outcome (mtl_thread S W L)) :=
  let m := if negb (m_mtl m) then mw_mtl m true (t_high (m_tmi m)) else m in
  let size := u64 (m_rbp m - getsp l + 8) in
  m ⇐ lift (c_assert (size <? SEI_MAX_STACKSZ);; Ret (mw_stack m size l));
  s ⇐ sei_prepare_nm crc_run SEI_CRC_REDUNDANCY setaffinity None 1 (t_sei (m_tmi m));
  lift (mtl_begin (mw_sei m s) (getbp l) l).

(** The real function. *)
Definition real_mutex (c : syscall) (lock : Z) m : Z * mtl_thread S W L :=
  let '(r, w) := sys c [lock] (s_world (t_sei (m_tmi m))) in (r, mw_sei m (with_world (t_sei (m_tmi m)) w)).

(** [pthread_mutex_lock], [pthread_mutex_trylock] and [pthread_mutex_unlock], with the
    local state in which the handler goes on. *)
Definition mtl_mutex (c : syscall) (lock : Z) (k : Z -> L) m : option (outcome (L * mtl_thread S W L)) :=
  if (phase m =? 0) || (phase m =? 1) then
    '(j, m) ⇐ lift (mtl_commit true m);
    match j with
    | Some l => Some (Ret (l, m))
    | None =>
        let '(r, m) := real_mutex c lock m in
        m ⇐ __sei_mtl (k r) m; Some (Ret (k r, m))
    end
  else let '(r, m) := real_mutex c lock m in Some (Ret (k r, m)).

(** What happens where a piece stops; [go] runs the handler on. *)
Definition mtl_stop (go : L -> mtl_thread S W L -> option (outcome (mtl_thread S W L))) (e : stop_at L) m
  : option (outcome (mtl_thread S W L)) :=
  match e with
  | Finish =>
      '(j, m) ⇐ lift (mtl_commit false m);
      match j with Some l => go l m | None => Some (Ret m) end
  | Mutex c lock k => '(l, m) ⇐ mtl_mutex c lock k m; go l m
  end.

(** The handler from the local state [l] to its end. *)
Fixpoint mtl_loop (fuel : nat) (l : L) m : option (outcome (mtl_thread S W L)) :=
  match fuel with
  | O => None
  | Datatypes.S fuel' =>
      '(_, e, s) ⇐ lift (exec crc32c (seg l) (t_sei (m_tmi m)));
      mtl_stop (mtl_loop fuel') e (mw_sei m s)
  end.

(** The atomic block. *)
Definition mtl_block (fuel : nat) (rbp : Z) (l : L) m : option (outcome (mtl_thread S W L)) :=
  m ⇐ lift (mtl_begin m rbp l); mtl_loop fuel l m.

(** The same handler in the plain build, with the operations of its pieces. *)
Fixpoint plain_loop (fuel : nat) (l : L) (k : mock S W) : option (outcome (list (list op) * mock S W)) :=
  match fuel with
  | O => None
  | Datatypes.S fuel' =>
      '(ops, e, k) ⇐ lift (mock_exec call (seg l) k);
      match e with
      | Finish => Some (Ret ([ops], k))
      | Mutex c lock g =>
          let '(r, w) := sys c [lock] (k_world k) in
          '(segs, k) ⇐ plain_loop fuel' (g r) (mk_mock (k_mem k) (k_al k) w);
          Some (Ret (ops :: segs, k))
      end
  end.
End Mtl.

Section MtlProps.
Context `{Build} {S W L : Type} `{AllocatorLaws S}.
Context (crc32c : Z -> Z -> list Z -> Z).
Context (crc_run : Z -> nat -> Z -> list Z -> Z) (SEI_CRC_REDUNDANCY : nat).
Context (setaffinity : Z -> Z -> Z * Z).
Context (call : Z -> list Z -> W -> W).
Context (sys : syscall -> list Z -> W -> Z * W).
Context (seg : L -> prog (stop_at L)) (getsp getbp : L -> Z).
Implicit Types (m : mtl_thread S W L) (s : sei S W) (k : mock S W).

(** ** What a transaction keeps *)

Record same_caps s s' : Prop := {
  sc_level : s_redundancy_level s' = s_redundancy_level s;
  sc_tbin : tb_max_items (s_tbin s') = tb_max_items (s_tbin s);
  sc_wts : w_max_items (s_wts s') = w_max_items (s_wts s);
  sc_checked : ib_checked (s_ibuf s') = ib_checked (s_ibuf s);
}.

Lemma same_caps_trans s1 s2 s3 : same_caps s1 s2 -> same_caps s2 s3 -> same_caps s1 s3.
Proof. intros [] []. split; congruence. Qed.

Lemma exec_ops_ibuf ops : forall s s', exec_ops crc32c ops s = Ret s' -> s_ibuf s' = s_ibuf s.
Proof.
  induction ops as [|o ops IH]; intros s s' E; cbn [exec_ops] in E; [by simplify_eq|].
  apply bind_Ret in E as (s1 & E1 & E2). rewrite (IH _ _ E2). clear IH E2.
  destruct o; cbn [exec_op] in E1; unfold sei_write, sei_malloc, sei_free, sei_delay_call, sei_output_append, sei_output_done in E1;
    repeat first [progress inv_outcome | case_match]; try done;
    match goal with X : set_cur_obuf _ _ = _ |- _ => apply cur_obuf_frame in X as [os ->] end; done.
Qed.

Lemma exec_caps {R} (h : prog R) s ops r s' : exec crc32c h s = Ret (ops, r, s') -> same_caps s s' /\ s_p s' = s_p s.
Proof.
  intros E%exec_exec_ops. destruct (exec_ops_max _ _ _ _ E), (exec_ops_keeps _ _ _ _ E). split; [|done].
  split; [done..|]. by rewrite (exec_ops_ibuf _ _ _ E).
Qed.

Lemma switch_caps s s' : sei_switch crc_run s = Ret s' -> same_caps s s' /\ s_p s' = s_p s + 1.
Proof.
  intros E. destruct (sei_switch_phase _ _ _ E) as [Hp Hl]. split; [|done]. unfold sei_switch in E.
  apply bind_Ret in E as (u & _ & E). apply bind_Ret in E as (t & _ & E). apply bind_Ret in E as (o & _ & E).
  apply bind_Ret in E as (s1 & Eo & E). apply cur_obuf_frame in Eo as [os ->]. cbn in E.
  unfold ibuf_switch in E. destruct (ib_mode (s_ibuf s)); [|destruct (run_crc _ _ _ _ _) as [c pr]];
    apply bind_Ret in E as (a & _ & E); apply bind_Ret in E as ([a' m'] & _ & E); apply bind_Ret in E as (cow & _ & [= <-]); by split.
Qed.

Lemma commit_caps s s' : sei_commit crc_run call None s = Ret s' -> same_caps s s'.
Proof.
  intros E. unfold sei_commit in E. apply bind_Ret in E as (s1 & E1 & E). apply bind_Ret in E1 as ([ok cf] & _ & E1).
  apply bind_Ret in E1 as (u & _ & E1). apply bind_Ret in E1 as (cow & _ & [= <-]).
  apply bind_Ret in E as (cow1 & _ & E). apply bind_Ret in E as ([wt world] & Ew & E). cbn in E, Ew.
  apply bind_Ret in E as ([tb al] & Et & E). cbn in Et. apply bind_Ret in E as (t & _ & E). apply bind_Ret in E as (o & _ & E).
  apply bind_Ret in E as (s2 & Eo & E). apply cur_obuf_frame in Eo as [os ->]. apply bind_Ret in E as (u1 & _ & E).
  apply bind_Ret in E as ([ok' pr] & _ & E). apply bind_Ret in E as (u2 & _ & [= <-]). split; cbn; try done.
  - unfold tbin_flush in Et. repeat first [progress inv_outcome | case_match | progress simplify_eq]. done.
  - unfold wts_flush in Ew. repeat first [progress inv_outcome | case_match | progress simplify_eq]. done.
Qed.

(** ** The plain build depends on the memory only through its contents *)

Record like k k1 : Prop := { lk_mem : k_mem k ≈ k_mem k1; lk_al : k_al k = k_al k1; lk_world : k_world k = k_world k1 }.

Lemma mock_exec_like {R} (h : prog R) : forall k k1 ops r k', like k k1 -> mock_exec call h k = Ret (ops, r, k') ->
  exists k1', mock_exec call h k1 = Ret (ops, r, k1') /\ like k' k1'.
Proof.
  induction h as [r0|t a f IH|t a v h IH|n f IH|p h IH|fp args h IH|p n h IH|h IH]; intros k k1 ops r k' Hk E; cbn [mock_exec] in *; try discriminate.
  - injection E as <- <- <-. eauto.
  - replace (mock_R t k1 a) with (mock_R t k a) by (exact (load_proper _ _ _ (lk_mem _ _ Hk) _ _ eq_refl)). eauto.
  - apply bind_Ret in E as ([[ops1 r1] k2] & E & [= <- <- <-]).
    destruct (IH (mock_W t k a v) (mock_W t k1 a v) _ _ _ ltac:(destruct Hk as [Hm Ha Hw]; split; cbn; [by rewrite Hm|done..]) E) as (k3 & -> & Hk3). eauto.
  - apply bind_Ret in E as ([ptr k0] & Em & E). apply bind_Ret in E as ([[ops1 r1] k2] & E & [= <- <- <-]).
    unfold mock_malloc in *. rewrite <- (lk_al _ _ Hk). apply bind_Ret in Em as ([p0 al] & -> & [= <- <-]). rewrite !bind_Ret_l.
    destruct (IH p0 (mk_mock (k_mem k) al (k_world k)) (mk_mock (k_mem k1) al (k_world k1)) _ _ _ ltac:(destruct Hk; split; cbn; done) E) as (k3 & -> & Hk3). eauto.
  - apply bind_Ret in E as (k0 & Em & E). apply bind_Ret in E as ([[ops1 r1] k2] & E & [= <- <- <-]).
    unfold mock_free in *. rewrite <- (lk_al _ _ Hk). apply bind_Ret in Em as (al & -> & [= <-]). rewrite !bind_Ret_l.
    destruct (IH (mk_mock (k_mem k) al (k_world k)) (mk_mock (k_mem k1) al (k_world k1)) _ _ _ ltac:(destruct Hk; split; cbn; done) E) as (k3 & -> & Hk3). eauto.
  - apply bind_Ret in E as ([[ops1 r1] k2] & E & [= <- <- <-]).
    destruct (IH (mk_mock (k_mem k) (k_al k) (call fp args (k_world k))) (mk_mock (k_mem k1) (k_al k1) (call fp args (k_world k1))) _ _ _ ltac:(destruct Hk; split; cbn; congruence) E) as (k3 & -> & Hk3). eauto.
Qed.

(** ** One piece of the handler *)

(** No recorded call of a mutex function. *)
Definition empty_log (a : abuf) : Prop := log_rel a [] /\ poped a = 0%nat.

(** Where a jump goes. *)
Definition restart m : L := if m_mtl m then m_stack m else m_ctx m.
(** The thread after the commit of a piece. *)
Definition committed m s : mtl_thread S W L :=
  mw_tmi m (tw_abuf (tw_sei (m_tmi m) s) (abuf_clean (t_abuf (m_tmi m)))).

Abbreviation loop := (mtl_loop crc32c crc_run SEI_CRC_REDUNDANCY setaffinity call sys seg getsp getbp).
Abbreviation enter := (__sei_mtl crc_run SEI_CRC_REDUNDANCY setaffinity getsp getbp).
Abbreviation mcommit := (mtl_commit crc_run call).

Abbreviation stop := (mtl_stop crc_run SEI_CRC_REDUNDANCY setaffinity call sys getsp getbp).

Lemma mtl_loop_exec fuel l m ops e s : exec crc32c (seg l) (t_sei (m_tmi m)) = Ret (ops, e, s) ->
  loop (Datatypes.S fuel) l m = stop (loop fuel) e (mw_sei m s).
Proof. intros E. cbn [mtl_loop]. by rewrite E. Qed.

Lemma mtl_commit_first force m s : s_p (t_sei (m_tmi m)) = 0 -> sei_switch crc_run (t_sei (m_tmi m)) = Ret s ->
  mcommit force m = Ret (Some (restart m), mw_sei m s).
Proof. intros Hp E. unfold mtl_commit, sei_getp. rewrite Hp. cbn [Z.eqb]. by rewrite E. Qed.

Lemma mtl_commit_second force m s : s_p (t_sei (m_tmi m)) = 1 -> sei_commit crc_run call None (t_sei (m_tmi m)) = Ret s ->
  empty_log (t_abuf (m_tmi m)) ->
  mcommit force m = Ret (None, if force then committed m s else mw_mtl (committed m s) false (m_rbp m)).
Proof.
  intros Hp E [Hl Hpo]. unfold mtl_commit, sei_getp. rewrite Hp. cbn [Z.eqb Pos.eqb]. rewrite E, bind_Ret_l. cbn [m_tmi mw_sei mw_tmi t_abuf tw_sei].
  pose proof (log_rel_length _ _ Hl) as Hlen. cbn in Hlen.
  assert (Hz : (abuf_size (t_abuf (m_tmi m)) =? 0) = true) by (apply Z.eqb_eq; unfold abuf_size; lia).
  rewrite Hz, c_assert_true, bind_Ret_l. by destruct force.
Qed.

Lemma mtl_piece fuel l m s ops e s' : idle s -> s_redundancy_level s = 2%nat -> sei_begin s = Ret (t_sei (m_tmi m)) ->
  restart m = l -> empty_log (t_abuf (m_tmi m)) -> prog_transaction crc32c crc_run call (seg l) s = Ret (ops, e, s') ->
  loop (Datatypes.S (Datatypes.S fuel)) l m =
    match e with
    | Finish => Some (Ret (mw_mtl (committed m s') false (m_rbp m)))
    | Mutex c lock k => let '(r, m') := real_mutex sys c lock (committed m s') in
                        m' ⇐ enter (k r) m'; loop fuel (k r) m'
    end.
Proof.
  intros Hs Hlv Eb Hr Hl Et. unfold prog_transaction in Et. rewrite Eb, bind_Ret_l in Et.
  apply bind_Ret in Et as ([[ops0 e0] s1] & E1 & Et). apply bind_Ret in Et as (s3 & E2 & Et).
  apply bind_Ret in Et as ([[ops1 e1] s4] & E3 & Et). apply bind_Ret in Et as (s5 & E4 & [= <- <- <-]).
  destruct (exec_caps _ _ _ _ _ E1) as [_ Hp1]. destruct (switch_caps _ _ E2) as [_ Hp3]. destruct (exec_caps _ _ _ _ _ E3) as [_ Hp4].
  destruct (sei_begin_idle s Hs) as (cf & Eb' & _). rewrite Eb in Eb'. injection Eb' as Eb'.
  rewrite Eb' in Hp1. cbn in Hp1. rewrite Hp1 in Hp3. rewrite Hp3 in Hp4. cbn in Hp4.
  set (m1 := mw_sei m s1). assert (Hc : forall force, mcommit force m1 = Ret (Some l, mw_sei m1 s3)).
  { intros force. rewrite <- Hr. change (restart m) with (restart m1). by apply mtl_commit_first. }
  rewrite (mtl_loop_exec _ _ _ _ _ _ E1). fold m1.
  assert (Hj : stop (loop (Datatypes.S fuel)) e0 m1 = loop (Datatypes.S fuel) l (mw_sei m1 s3)).
  { unfold mtl_stop. destruct e0 as [|c lock k]; [by rewrite Hc|]. unfold mtl_mutex, sei_getp. cbn [m1 m_tmi mw_sei mw_tmi t_sei tw_sei]. rewrite Hp1. cbn [Z.eqb orb].
    fold m1. by rewrite Hc. }
  rewrite Hj, (mtl_loop_exec fuel l (mw_sei m1 s3) _ _ _ E3). unfold mtl_stop.
  set (m2 := mw_sei (mw_sei m1 s3) s4).
  assert (Hc2 : forall force, mcommit force m2 = Ret (None, if force then committed m s5 else mw_mtl (committed m s5) false (m_rbp m))).
  { intros force. by rewrite (mtl_commit_second force m2 s5). }
  destruct e1 as [|c lock k]; [by rewrite Hc2|].
  unfold mtl_mutex, sei_getp. cbn [m2 m1 m_tmi mw_sei mw_tmi t_sei tw_sei]. rewrite Hp4. cbn [Z.eqb Pos.eqb orb]. fold m2. rewrite Hc2. cbn [lift fbind].
  destruct (real_mutex sys c lock (committed m s5)) as [r m3]. by destruct (enter (k r) m3) as [[m4|]|].
Qed.

(** ** The whole handler *)

(** Between two transactions. *)
Record ready s : Prop := {
  rd_idle : idle s;
  rd_level : s_redundancy_level s = 2%nat;
  rd_sync : in_sync s;
  rd_checked : ib_checked (s_ibuf s) = 0;
}.
Definition mock_of s : mock S W := mk_mock (s_mem s) (s_alloc s) (s_world s).

(** Neither the message nor the world matters. *)
Lemma ready_ext s s' : ready s -> s_p s' = s_p s -> s_redundancy_level s' = s_redundancy_level s -> s_cow s' = s_cow s -> s_cf s' = s_cf s ->
  s_tbin s' = s_tbin s -> s_talloc s' = s_talloc s -> s_wts s' = s_wts s -> s_obufs s' = s_obufs s -> s_obuf s' = s_obuf s ->
  ib_checked (s_ibuf s') = 0 -> ready s'.
Proof.
  intros [[Hwf Hp Htp Hcow Hfr Hq Hc] Hl Hsy Hch] Ep El Ec Ecf Eb Et Ew Eos Eo Hc'. split; [|congruence| |done].
  - split; rewrite ?Ep, ?El, ?Ec, ?Eb, ?Et, ?Ew; try done. destruct Hwf. split; rewrite ?El, ?Ec, ?Ecf, ?Eb, ?Et, ?Ew; done.
  - unfold in_sync, cur_obuf. rewrite Eos, Eo. exact Hsy.
Qed.

Lemma fits_caps s s' ops : same_caps s s' -> fits s ops -> fits s' ops.
Proof. intros [El Et Ew _] []. split; try done; congruence. Qed.

(** [sei_prepare_nm]: no message. *)
Definition no_message s : sei S W :=
  with_proc (with_ibuf s (mk_ibuf 0 0 crc_init (ib_tcrc (s_ibuf s)) READ_ONLY (ib_checked (s_ibuf s)))) (s_proc s).
Lemma prepare_nm_message s : ib_checked (s_ibuf s) = 0 ->
  sei_prepare_nm crc_run SEI_CRC_REDUNDANCY setaffinity None 1 s = Some (Ret (no_message s)).
Proof.
  intros Hc. unfold sei_prepare_nm, ibuf_prepare. rewrite Hc, (Z.eqb_refl 0), c_assert_true. cbn [ib_ptr ib_size ib_crc ib_mode].
  rewrite (Z.eqb_refl 0), (Z.eqb_refl crc_init), bool_decide_true, !c_assert_true by done. unfold no_message. by rewrite Hc.
Qed.

(** [__sei_mtl] after the call of a mutex function. *)
Lemma enter_ready l m s w rbp : ready s -> t_sei (m_tmi m) = with_world s w ->
  (if m_mtl m then m_rbp m else t_high (m_tmi m)) = rbp -> u64 (rbp - getsp l + 8) < SEI_MAX_STACKSZ ->
  exists m' s', enter l m = Some (Ret m') /\ ready s' /\ sei_begin s' = Ret (t_sei (m_tmi m')) /\ same_caps s s' /\
    mock_of s' = mk_mock (s_mem s) (s_alloc s) w /\ (forall mm, input_ok crc32c crc_run s' mm) /\
    t_abuf (m_tmi m') = t_abuf (m_tmi m) /\ m_mtl m' = true /\ m_rbp m' = rbp /\ restart m' = l.
Proof.
  intros Hr Es Hrbp Hsz. unfold __sei_mtl.
  set (m1 := if negb (m_mtl m) then mw_mtl m true (t_high (m_tmi m)) else m).
  assert (E1 : m_tmi m1 = m_tmi m /\ m_mtl m1 = true /\ m_rbp m1 = rbp).
  { unfold m1. destruct (m_mtl m) eqn:Em; cbn in *; by rewrite ?Em. }
  destruct E1 as (Et1 & Em1 & Er1). rewrite Er1, (proj2 (Z.ltb_lt _ _) Hsz), c_assert_true, bind_Ret_l. cbn [lift fbind].
  cbn [mw_stack m_tmi]. rewrite Et1, Es, prepare_nm_message by (cbn; apply Hr). cbn [fbind].
  set (s' := no_message (with_world s w)). assert (Hr' : ready s') by (eapply ready_ext; [exact Hr|..]; try done; apply Hr).
  destruct (sei_begin_idle s' (rd_idle _ Hr')) as (cf & Eb & _).
  unfold mtl_begin, __sei_begin. cbn [tw_high t_sei m_tmi mw_sei mw_tmi mw_stack tw_sei]. rewrite Eb, !bind_Ret_l. cbn [lift].
  eexists _, s'. split; [done|]. cbn. split_and!; try done.
  - intros mm. left. done.
  - by rewrite Et1.
  - unfold restart. cbn. by rewrite Em1.
Qed.

Context (Hcall : forall f args rest w, call f (args ++ rest) w = call f args w).
Context (HN : SEI_DMR_REDUNDANCY = 2%nat).

(** The thread at the start of a piece of the handler. *)
Record begun (rbp : Z) (l : L) m s : Prop := {
  bg_ready : ready s;
  bg_begin : sei_begin s = Ret (t_sei (m_tmi m));
  bg_restart : restart m = l;
  bg_abuf : empty_log (t_abuf (m_tmi m));
  bg_rbp : (if m_mtl m then m_rbp m else t_high (m_tmi m)) = rbp;
}.

(** The committed piece: the state is that of the plain build. *)
Lemma piece_like l s k ops e k1 : ready s -> like k (mock_of s) -> mock_exec call (seg l) k = Ret (ops, e, k1) -> fits s ops ->
  (forall ops e k1, mock_exec call (seg l) (mock_of s) = Ret (ops, e, k1) -> input_ok crc32c crc_run s (k_mem k1)) ->
  exists s', prog_transaction crc32c crc_run call (seg l) s = Ret (ops, e, s') /\ like k1 (mock_of s') /\ ready s' /\ same_caps s s'.
Proof using All.
  intros [Hs Hlv Hsy Hch] Hk E Hfit Hin. destruct (mock_exec_like _ _ _ _ _ _ Hk E) as (k1' & E' & [Hm Ha Hw]).
  destruct (mock_commits crc32c crc_run call Hcall (seg l) s ops e k1' Hs Hlv HN Hsy E' Hfit (Hin _ _ _ E')) as (s' & Et & Hm' & Ha' & Hw' & Hs' & Hsy').
  assert (Hcaps : same_caps s s').
  { pose proof Et as Et'. unfold prog_transaction in Et'. apply bind_Ret in Et' as (s0 & Eb & Et').
    apply bind_Ret in Et' as ([[ops0 e0] s1] & E1 & Et'). apply bind_Ret in Et' as (s3 & E2 & Et').
    apply bind_Ret in Et' as ([[ops1 e1] s4] & E3 & Et'). apply bind_Ret in Et' as (s5 & E4 & [= <- <- <-]).
    destruct (sei_begin_idle s Hs) as (cf & Eb' & _). rewrite Eb in Eb'. injection Eb' as ->.
    eapply same_caps_trans; [|by apply commit_caps]. eapply same_caps_trans; [|by eapply exec_caps]. eapply same_caps_trans; [|by apply switch_caps].
    destruct (exec_caps _ _ _ _ _ E1) as [[] _]. by split. }
  exists s'. split_and!; [done| | |done].
  - split; cbn; [by rewrite Hm, Hm'|congruence|congruence].
  - split; [done|by rewrite (sc_level _ _ Hcaps)|done|by rewrite (sc_checked _ _ Hcaps)].
Qed.

Lemma committed_empty m s : empty_log (t_abuf (m_tmi m)) -> empty_log (t_abuf (m_tmi (committed m s))).
Proof. intros [[Hwf _] _]. split; [by apply abuf_clean_rel|done]. Qed.

Lemma mtl_run rbp (Hstack : forall l, u64 (rbp - getsp l + 8) < SEI_MAX_STACKSZ) n : forall l m s k segs k' fuel,
  plain_loop call sys seg n l k = Some (Ret (segs, k')) -> like k (mock_of s) -> begun rbp l m s -> Forall (fits s) segs ->
  (forall ops e k1, mock_exec call (seg l) (mock_of s) = Ret (ops, e, k1) -> input_ok crc32c crc_run s (k_mem k1)) ->
  (2 * n <= fuel)%nat ->
  exists m', loop fuel l m = Some (Ret m') /\ like k' (mock_of (t_sei (m_tmi m'))) /\ ready (t_sei (m_tmi m')) /\
    empty_log (t_abuf (m_tmi m')) /\ m_mtl m' = false.
Proof using All.
  induction n as [|n IH]; intros l m s k segs k' fuel E Hk [Hr Hb Hre Hab Hrbp] Hfit Hin Hf; cbn [plain_loop] in E; [discriminate|].
  destruct fuel as [|[|fuel]]; [lia..|].
  destruct (mock_exec call (seg l) k) as [[[ops e] k1]|] eqn:E1; [|discriminate]. cbn [lift fbind] in E.
  assert (Hops : fits s ops).
  { destruct e as [|c lock g]; [injection E as <- <-; by apply Forall_cons in Hfit as [? _]|].
    destruct (sys c [lock] (k_world k1)) as [r w]. destruct (plain_loop _ _ _ n _ _) as [[[segs1 k2]|]|]; [|discriminate..].
    injection E as <- <-. by apply Forall_cons in Hfit as [? _]. }
  destruct (piece_like l s k ops e k1 Hr Hk E1 Hops Hin) as (s' & Et & Hk' & Hr' & Hcaps).
  rewrite (mtl_piece fuel l m s ops e s' (rd_idle _ Hr) (rd_level _ Hr) Hb Hre Hab Et).
  destruct e as [|c lock g].
  - injection E as <- <-. eexists. split; [done|]. cbn. split_and!; [done|done|by apply (committed_empty m s')|done].
  - unfold real_mutex. cbn [committed m_tmi mw_tmi t_sei tw_abuf tw_sei]. rewrite <- (lk_world _ _ Hk' : k_world k1 = s_world s').
    destruct (sys c [lock] (k_world k1)) as [r w].
    match goal with |- context [enter (g r) ?x] => destruct (enter_ready (g r) x s' w rbp Hr' eq_refl) as (m3 & s3 & -> & Hr3 & Hb3 & Hc3 & Hmk & Hin3 & Hab3 & Hm3 & Hrb3 & Hre3) end.
    { exact Hrbp. } { apply Hstack. } cbn [fbind].
    destruct (plain_loop call sys seg n (g r) (mk_mock (k_mem k1) (k_al k1) w)) as [[[segs1 k2]|]|] eqn:E2; [|discriminate..]. cbn [fbind] in E. injection E as <- <-.
    apply (IH (g r) m3 s3 _ segs1 k2 fuel E2).
    + rewrite Hmk. destruct Hk'. by split.
    + split; [done..| |by rewrite Hm3]. rewrite Hab3. by apply (committed_empty m s').
    + apply Forall_cons in Hfit as [_ Hfit]. eapply Forall_impl; [exact Hfit|]. intros x. apply fits_caps. by eapply same_caps_trans.
    + intros ? ? ? _. apply Hin3.
    + lia.
Qed.

End MtlProps.

(** ** Witness: a handler that locks and unlocks *)

(** The program counter and a local variable.  The handler counts in one word, locks,
    adds what it read to another word, unlocks and makes a call. *)
Definition demo_seg (l : Z * Z) : prog (stop_at (Z * Z)) :=
  match l.1 with
  | 0 => HRead uint32_t 100 (fun n => HWrite uint32_t 100 (n + 1) (HEnd (Mutex SYS_lock 500 (fun r => (1, n + r)))))
  | 1 => HRead uint32_t 104 (fun v => HWrite uint32_t 104 (v + l.2) (HEnd (Mutex SYS_unlock 500 (fun r => (2, l.2)))))
  | _ => HCall 5 [l.2] (HEnd Finish)
  end.
Definition demo_mutex (c : syscall) (args : list Z) (w : list Z) : Z * list Z :=
  (0, match c with SYS_lock => 1 | SYS_unlock => 2 | _ => 3 end :: w).

Definition demo_pieces : list (list op) :=
  [[OWrite uint32_t 100 42]; [OWrite uint32_t 104 41]; [OCall 5 [41]]].

Lemma demo_fits (B : Build) {S W} (s : sei S W) : tb_max_items (s_tbin s) = TBIN_SIZE -> w_max_items (s_wts s) = SC_MAX_CALLS -> Forall (fits s) demo_pieces.
Proof.
  intros Ht Hw. change TBIN_SIZE with (Z.to_nat 10000) in Ht. unfold SC_MAX_CALLS in Hw. unfold demo_pieces.
  assert (Hta : (0 < TALLOC_MAX_ALLOCS)%nat) by (change TALLOC_MAX_ALLOCS with (Z.to_nat 20000); lia).
  assert (Hab : (1 <= ABUF_MAX_CONFLICTS)%nat) by (apply Nat.leb_le; vm_compute; reflexivity).
  assert (Hsep : forall w, separated [w]) by (intros w [|i] [|j] w1 w2; try discriminate; intros [= <-] [= <-]; left; done).
  rewrite !Forall_cons. split_and!; [split|split|split|constructor]; cbn; rewrite ?Ht, ?Hw; try done; try lia; try apply Hsep.
  all: try (intros p Hp; by apply elem_of_nil in Hp). all: try by constructor.
  apply Forall_singleton. split; cbn; [done|unfold WTS_MAX_ARG; lia].
Qed.

