(* ===== verification/LibcString.v ===== *)
(** * String and memory functions (src/libc/string)

    The OpenBSD routines src/support.c includes so that the compiler can
    instrument them: [strlen], [strcmp], [strncmp], [strchr], [memchr],
    [memcmp], [memset], [strcpy], [strncpy], [strdup], [strndup] and
    [memmove_bsd], over the byte memory.  A loop that ends at a byte takes fuel;
    one that counts down its [size_t] argument recurses on it.  [char] is
    signed, as on the platform of the library. *)

From S2P Require Export TmiCopy Alloc.

(** A [char] as the [int] it is promoted to. *)
Definition schar (b : Z) : Z := if b <? 128 then b else b - 256.

Fixpoint strlen_loop (fuel : nat) (m : mem) (s : Z) : option Z :=
  match fuel with
  | O => None
  | S fuel' => if mget m s =? 0 then Some s else strlen_loop fuel' m (s + 1)
  end.
Definition strlen (fuel : nat) (m : mem) (str : Z) : option Z :=
  s ← strlen_loop fuel m str; Some (s - str).

Fixpoint strcmp (fuel : nat) (m : mem) (s1 s2 : Z) : option Z :=
  match fuel with
  | O => None
  | S fuel' =>
      if schar (mget m s1) =? schar (mget m s2)
      then if schar (mget m s1) =? 0 then Some 0 else strcmp fuel' m (s1 + 1) (s2 + 1)
      else Some (mget m s1 - mget m s2)
  end.

Fixpoint strncmp (n : nat) (m : mem) (s1 s2 : Z) : Z :=
  match n with
  | O => 0
  | S n' =>
      if negb (schar (mget m s1) =? schar (mget m s2)) then mget m s1 - mget m s2
      else if schar (mget m s1) =? 0 then 0
      else strncmp n' m (s1 + 1) (s2 + 1)
  end.

(** [strchr]: the promoted [char] is compared with the [int] argument; the
    result is the address, 0 for NULL. *)
Fixpoint strchr (fuel : nat) (m : mem) (p ch : Z) : option Z :=
  match fuel with
  | O => None
  | S fuel' =>
      if schar (mget m p) =? ch then Some p
      else if schar (mget m p) =? 0 then Some 0
      else strchr fuel' m (p + 1) ch
  end.

Fixpoint memchr (n : nat) (m : mem) (p c : Z) : Z :=
  match n with
  | O => 0
  | S n' => if mget m p =? c mod 256 then p else memchr n' m (p + 1) c
  end.

Fixpoint memcmp (n : nat) (m : mem) (p1 p2 : Z) : Z :=
  match n with
  | O => 0
  | S n' => if negb (mget m p1 =? mget m p2) then mget m p1 - mget m p2
            else memcmp n' m (p1 + 1) (p2 + 1)
  end.

(** [for (; ( *dest = *src) != 0; ++src, ++dest);] *)
Fixpoint strcpy (fuel : nat) (m : mem) (dest src : Z) : option mem :=
  match fuel with
  | O => None
  | S fuel' =>
      let c := mget m src in
      let m := store 1 m dest c in
      if schar c =? 0 then Some m else strcpy fuel' m (dest + 1) (src + 1)
  end.

(** The inner loop of [strncpy] writes [n - 1] zeros when [n] bytes are left. *)
Fixpoint strncpy (n : nat) (m : mem) (d s : Z) : mem :=
  match n with
  | O => m
  | S n' =>
      let c := mget m s in
      let m := store 1 m d c in
      if schar c =? 0 then memset n' m (d + 1) 0 else strncpy n' m (d + 1) (s + 1)
  end.

Section Dup.
Context {S : Type} `{Allocator S}.

(** [strdup] and the [strndup] of src/support.c; [malloc] is the allocator's. *)
Definition strdup (fuel : nat) (m : mem) (al : S) (str : Z) : option (outcome (Z * mem * S)) :=
  len ← strlen fuel m str;
  let siz := u64 (len + 1) in
  '(copy, al) ⇐ lift (al_malloc al siz);
  if copy =? 0 then Some (Ret (0, m, al))
  else Some (Ret (copy, memcpy (Z.to_nat siz) m copy str, al)).

Definition strndup (m : mem) (al : S) (s n : Z) : outcome (Z * mem * S) :=
  '(ptr, al) ← al_malloc al (u64 (n + 1));
  let m := strncpy (Z.to_nat n) m ptr s in
  Ret (ptr, store 1 m (ptr + n) 0, al).
End Dup.

(** ** memmove_bsd *)

(** The bodies of the loops: [t] copies of [w] bytes, upwards and downwards. *)
Fixpoint copy_up (w : nat) (t : nat) (m : mem) (dst src : Z) : mem * Z * Z :=
  match t with
  | O => (m, dst, src)
  | S t' => copy_up w t' (store w m dst (load w m src)) (dst + Z.of_nat w) (src + Z.of_nat w)
  end.
Fixpoint copy_down (w : nat) (t : nat) (m : mem) (dst src : Z) : mem * Z * Z :=
  match t with
  | O => (m, dst, src)
  | S t' =>
      let dst := dst - Z.of_nat w in let src := src - Z.of_nat w in
      copy_down w t' (store w m dst (load w m src)) dst src
  end.

Definition wsize : Z := 8.
Definition wmask : Z := wsize - 1.

(** [TLOOP] tests the counter first; [TLOOP1] counts down to 0 from [t > 0] and
    wraps around from 0. *)
Definition TLOOP (loop : nat -> mem -> Z -> Z -> mem * Z * Z) (t : Z) '(m, dst, src) : mem * Z * Z :=
  loop (Z.to_nat t) m dst src.
Definition TLOOP1 (loop : nat -> mem -> Z -> Z -> mem * Z * Z) (t : Z) '(m, dst, src) : mem * Z * Z :=
  loop (Z.to_nat (if t =? 0 then 2^64 else t)) m dst src.

(** [memmove_bsd (dest, src_param, n)].  The variable [n] is decremented by the
    aligning loops; what follows uses [length], which is not. *)
Definition memmove_bsd (m : mem) (dest src_param n : Z) : mem :=
  let dst := dest in let src := src_param in let length := n in
  if (length =? 0) || (dst =? src) then m
  else if dst <? src then
    let t := src in
    let st :=
      if negb (Z.land (Z.lor t dst) wmask =? 0)
      then let t := if negb (Z.land (Z.lxor t dst) wmask =? 0) || (length <? wsize) then n
                    else wsize - Z.land t wmask in
           TLOOP1 (copy_up 1) t (m, dst, src)
      else (m, dst, src) in
    let st := TLOOP (copy_up 8) (length / wsize) st in
    let st := TLOOP (copy_up 1) (Z.land length wmask) st in
    st.1.1
  else
    let src := src + n in let dst := dst + n in
    let t := src in
    let st :=
      if negb (Z.land (Z.lor t dst) wmask =? 0)
      then let t := if negb (Z.land (Z.lxor t dst) wmask =? 0) || (length <=? wsize) then n
                    else Z.land t wmask in
           TLOOP1 (copy_down 1) t (m, dst, src)
      else (m, dst, src) in
    let st := TLOOP (copy_down 8) (length / wsize) st in
    let st := TLOOP (copy_down 1) (Z.land length wmask) st in
    st.1.1.

(** ** Strings in memory *)

(** The bytes of [s] are at [p], none of them 0, and a 0 follows. *)
Fixpoint cstr (m : mem) (p : Z) (s : list Z) : Prop :=
  match s with
  | [] => mget m p = 0
  | c :: s' => mget m p = c /\ c <> 0 /\ cstr m (p + 1) s'
  end.

#[global] Instance cstr_dec m p s : Decision (cstr m p s).
Proof. revert p. induction s as [|c s IH]; intros p; cbn; apply _. Defined.

(** Lexicographic order of byte strings. *)
Inductive lex_lt : list Z -> list Z -> Prop :=
  | lex_nil c t : lex_lt [] (c :: t)
  | lex_here a b s t : a < b -> lex_lt (a :: s) (b :: t)
  | lex_next a s t : lex_lt s t -> lex_lt (a :: s) (a :: t).

Lemma schar_byte_eq m a b : (schar (mget m a) =? schar (mget m b)) = (mget m a =? mget m b).
Proof.
  pose proof (mget_bound m a). pose proof (mget_bound m b). unfold schar.
  destruct (Z.ltb_spec (mget m a) 128), (Z.ltb_spec (mget m b) 128);
    match goal with |- (?x =? ?y) = _ => destruct (Z.eqb_spec x y), (Z.eqb_spec (mget m a) (mget m b)) end; lia || done.
Qed.

Lemma schar_zero m a : (schar (mget m a) =? 0) = (mget m a =? 0).
Proof.
  pose proof (mget_bound m a). unfold schar. destruct (Z.ltb_spec (mget m a) 128); [done|].
  destruct (Z.eqb_spec (mget m a - 256) 0), (Z.eqb_spec (mget m a) 0); lia || done.
Qed.

(** The bytes of a string and of its terminator. *)
Lemma cstr_lookup m p s (i : nat) : cstr m p s -> (i <= length s)%nat -> mget m (p + Z.of_nat i) = nth i s 0.
Proof.
  revert p i. induction s as [|c s IH]; intros p i Hs Hi; cbn in Hs, Hi.
  - replace i with 0%nat by lia. by rewrite Z.add_0_r.
  - destruct Hs as (Hc & _ & Hs), i as [|i]; [by rewrite Z.add_0_r|].
    replace (p + Z.of_nat (Datatypes.S i)) with (p + 1 + Z.of_nat i) by lia. apply IH; [done|lia].
Qed.

Lemma cstr_ext m m' p s : (forall a, p <= a <= p + Z.of_nat (length s) -> mget m' a = mget m a) -> cstr m p s -> cstr m' p s.
Proof.
  revert p. induction s as [|c s IH]; intros p Hm Hs; cbn in *; [by rewrite Hm by lia|].
  destruct Hs as (? & ? & ?). split_and!; [by rewrite Hm by lia|done|]. apply IH; [|done]. intros; apply Hm; lia.
Qed.

Lemma cstr_inj m p s t : cstr m p s -> cstr m p t -> s = t.
Proof.
  revert p t. induction s as [|c s IH]; intros p [|d t] Hs Ht; cbn in *; [done|naive_solver lia..|].
  destruct Hs as (<- & _ & Hs), Ht as (<- & _ & Ht). f_equal. by eapply IH.
Qed.

Lemma strlen_correct m p s fuel : cstr m p s -> (length s < fuel)%nat -> strlen fuel m p = Some (Z.of_nat (length s)).
Proof.
  intros Hs Hf. assert (E : strlen_loop fuel m p = Some (p + Z.of_nat (length s))).
  2: { unfold strlen. rewrite E. cbn. f_equal. lia. }
  revert fuel p Hs Hf. induction s as [|c s IH]; intros [|fuel] p Hs Hf; cbn in *; try lia.
  - rewrite Hs. cbn. f_equal. lia.
  - destruct Hs as (Hc & Hz & Hs). rewrite (proj2 (Z.eqb_neq _ _)), IH by (lia || done). f_equal. lia.
Qed.

(** ** Comparison *)

(** Difference of the first bytes that differ, the terminator included. *)
Fixpoint str_diff (s t : list Z) : Z :=
  match s, t with
  | [], [] => 0
  | [], c :: _ => - c
  | c :: _, [] => c
  | a :: s', b :: t' => if a =? b then str_diff s' t' else a - b
  end.

Definition bytes_pos (s : list Z) : Prop := Forall (fun c => 0 < c) s.

Lemma cstr_pos m p s : cstr m p s -> bytes_pos s.
Proof.
  revert p. induction s as [|c s IH]; intros p Hs; [constructor|]. destruct Hs as (<- & Hz & Hs).
  constructor; [|by eapply IH]. pose proof (mget_bound m p). lia.
Qed.

Lemma str_diff_zero s t : bytes_pos s -> bytes_pos t -> str_diff s t = 0 <-> s = t.
Proof.
  revert t. induction s as [|a s IH]; intros [|b t] Hs Ht; cbn;
    repeat match goal with X : bytes_pos (_ :: _) |- _ => apply Forall_cons in X as [? ?] end.
  1-3: split; intros; (done || lia).
  destruct (Z.eqb_spec a b) as [->|Hab]; [rewrite IH by done; naive_solver|].
  split; intros; [lia|]. by simplify_eq.
Qed.

Lemma str_diff_neg s t : bytes_pos s -> bytes_pos t -> str_diff s t < 0 <-> lex_lt s t.
Proof.
  revert t. induction s as [|a s IH]; intros [|b t] Hs Ht; cbn;
    repeat match goal with X : bytes_pos (_ :: _) |- _ => apply Forall_cons in X as [? ?] end.
  - split; [lia|]. by inversion 1.
  - split; [constructor|lia].
  - split; [lia|]. by inversion 1.
  - destruct (Z.eqb_spec a b) as [->|Hab].
    + rewrite IH by done. split; [by constructor|]. inversion 1; [lia|done].
    + split; [intros; apply lex_here; lia|]. inversion 1; lia.
Qed.

Lemma str_diff_opp s t : str_diff t s = - str_diff s t.
Proof.
  revert t. induction s as [|a s IH]; intros [|b t]; cbn; try lia.
  rewrite (Z.eqb_sym b a). destruct (Z.eqb_spec a b); [apply IH|lia].
Qed.

(** One step of [strcmp] and [strncmp] on strings. *)
Ltac cmp_step :=
  cbn in *; rewrite ?schar_byte_eq, ?schar_zero;
  repeat match goal with X : _ /\ _ |- _ => destruct X end; subst;
  repeat match goal with |- context [?x =? ?y] => destruct (Z.eqb_spec x y) end; cbn [negb].

Lemma strcmp_correct m p q s t fuel : cstr m p s -> cstr m q t -> (length s < fuel)%nat ->
  strcmp fuel m p q = Some (str_diff s t).
Proof.
  revert p q t fuel. induction s as [|a s IH]; intros p q [|b t] [|fuel] Hs Ht Hf; cbn [length] in Hf; try lia; cmp_step;
    try (f_equal; lia); try lia; congruence || (apply IH; [done|done|lia]).
Qed.

Lemma strncmp_correct m p q s t n : cstr m p s -> cstr m q t ->
  strncmp n m p q = str_diff (take n s) (take n t).
Proof.
  revert p q s t. induction n as [|n IH]; intros p q [|a s] [|b t] Hs Ht; try done; cmp_step; try lia; try congruence.
  by apply IH.
Qed.

(** [strcmp] ends on two strings and its result is zero exactly when they are
    equal, negative exactly when the first is lexicographically smaller and
    positive exactly when it is larger; [strncmp] gives the same verdict on the
    prefixes of at most [n] bytes. *)
Theorem strcmp_order m p q s t fuel n : cstr m p s -> cstr m q t -> (length s < fuel)%nat ->
  exists r, strcmp fuel m p q = Some r /\
    (r = 0 <-> s = t) /\ (r < 0 <-> lex_lt s t) /\ (0 < r <-> lex_lt t s) /\
    (strncmp n m p q = 0 <-> take n s = take n t) /\
    (strncmp n m p q < 0 <-> lex_lt (take n s) (take n t)) /\
    (0 < strncmp n m p q <-> lex_lt (take n t) (take n s)).
Proof.
  intros Hs Ht Hf. pose proof (cstr_pos _ _ _ Hs) as Ps. pose proof (cstr_pos _ _ _ Ht) as Pt.
  pose proof (Forall_take _ n _ Ps) as Ps'. pose proof (Forall_take _ n _ Pt) as Pt'.
  exists (str_diff s t). rewrite (strncmp_correct _ _ _ s t) by done. split; [by apply strcmp_correct|].
  rewrite <- !str_diff_zero, <- !str_diff_neg by done. rewrite (str_diff_opp s t), (str_diff_opp (take n s)). intuition lia.
Qed.

(** Two strings placed in an empty memory. *)
Fixpoint put_bytes (m : mem) (p : Z) (s : list Z) : mem :=
  match s with [] => m | c :: s' => put_bytes (<[p := c]> m) (p + 1) s' end.

Lemma strcmp_order_witness :
  let m := put_bytes (put_bytes ∅ 100 [97; 98; 99; 0]) 200 [97; 98; 200; 0] in
  exists r, strcmp 10 m 100 200 = Some r /\ (r < 0 <-> lex_lt [97; 98; 99] [97; 98; 200]) /\
    (strncmp 2 m 100 200 = 0 <-> take 2 [97; 98; 99] = take 2 [97; 98; 200]).
Proof.
  set (m := put_bytes _ _ _).
  destruct (strcmp_order m 100 200 [97; 98; 99] [97; 98; 200] 10 2) as (r & E & _ & H1 & _ & H2 & _);
    [vm_compute; by split_and! | vm_compute; by split_and! | cbn; lia |].
  exists r. auto.
Defined.

(** [memcmp] compares the first bytes that differ. *)
Lemma memcmp_correct n m p q :
  (memcmp n m p q = 0 <-> forall i, 0 <= i < Z.of_nat n -> mget m (p + i) = mget m (q + i)) /\
  (memcmp n m p q <> 0 -> exists i, 0 <= i < Z.of_nat n /\ memcmp n m p q = mget m (p + i) - mget m (q + i) /\
     forall j, 0 <= j < i -> mget m (p + j) = mget m (q + j)).
Proof.
  revert p q. induction n as [|n IH]; intros p q; cbn [memcmp].
  { split; [|lia]. split; [lia|done]. }
  destruct (Z.eqb_spec (mget m p) (mget m q)) as [E|E]; cbn [negb].
  - destruct (IH (p + 1) (q + 1)) as [IH0 IH1]. split.
    + rewrite IH0. split; intros Hall i Hi.
      * destruct (decide (i = 0)) as [->|]; [by rewrite !Z.add_0_r|].
        replace (p + i) with (p + 1 + (i - 1)) by lia. replace (q + i) with (q + 1 + (i - 1)) by lia. apply Hall. lia.
      * rewrite <- !Z.add_assoc. apply Hall. lia.
    + intros Hne. destruct (IH1 Hne) as (i & Hi & Hv & Hj). exists (i + 1).
      replace (p + (i + 1)) with (p + 1 + i) by lia. replace (q + (i + 1)) with (q + 1 + i) by lia. split_and!; [lia|lia|done|].
      intros j ?. destruct (decide (j = 0)) as [->|]; [by rewrite !Z.add_0_r|].
      replace (p + j) with (p + 1 + (j - 1)) by lia. replace (q + j) with (q + 1 + (j - 1)) by lia. apply Hj. lia.
  - split.
    + split; [lia|]. intros Hall. specialize (Hall 0 ltac:(lia)). rewrite !Z.add_0_r in Hall. done.
    + intros _. exists 0. rewrite !Z.add_0_r. split_and!; lia || done.
Qed.

(** ** Searching *)

(** First occurrence of the byte [c] in [s], or the end of the string. *)
Lemma strchr_correct m p s ch fuel : cstr m p s -> (length s < fuel)%nat -> 0 < p ->
  exists r, strchr fuel m p ch = Some r /\
    (r = 0 -> ch <> 0 /\ Forall (fun c => schar c <> ch) s) /\
    (r <> 0 -> exists i, r = p + Z.of_nat i /\ (i <= length s)%nat /\ schar (nth i s 0) = ch /\
       Forall (fun c => schar c <> ch) (take i s)).
Proof.
  revert p fuel. induction s as [|c s IH]; intros p [|fuel] Hs Hf Hp; cbn in Hs, Hf; try lia; cbn [strchr].
  - rewrite Hs. change (schar 0) with 0. destruct (Z.eqb_spec 0 ch) as [<-|Hch].
    + exists p. split_and!; [done|lia|]. intros _. exists 0%nat. split_and!; [lia|cbn; lia|done|constructor].
    + exists 0. split_and!; [done| |done]. intros _. split; [by apply not_eq_sym|constructor].
  - destruct Hs as (Hc & Hz & Hs). rewrite schar_zero, (proj2 (Z.eqb_neq (mget m p) 0)) by congruence. rewrite Hc.
    destruct (Z.eqb_spec (schar c) ch) as [Hch|Hch].
    + exists p. split_and!; [done|lia|]. intros _. exists 0%nat. split_and!; [lia|lia|done|constructor].
    + destruct (IH (p + 1) fuel) as (r & E & H0 & H1); [done|lia|lia|]. exists r. split_and!; [done| |].
      * intros Hr. destruct (H0 Hr) as [? ?]. split; [done|]. by constructor.
      * intros Hr. destruct (H1 Hr) as (i & -> & Hi & Hn & Ht). exists (Datatypes.S i). cbn. split_and!; [lia|lia|done|by constructor].
Qed.

(** A byte from 128 on is never found under its value as an unsigned [char],
    the value [memchr] finds it under. *)
Theorem strchr_misses_high_bytes m p s ch fuel : cstr m p s -> (length s < fuel)%nat -> 0 < p -> 128 <= ch ->
  strchr fuel m p ch = Some 0.
Proof.
  intros Hs Hf Hp Hch. destruct (strchr_correct m p s ch fuel Hs Hf Hp) as (r & -> & _ & H1). f_equal.
  destruct (decide (r = 0)) as [|Hr]; [done|]. destruct (H1 Hr) as (i & _ & Hi & Hc & _). exfalso.
  rewrite <- (cstr_lookup m p s i Hs Hi) in Hc. pose proof (mget_bound m (p + Z.of_nat i)). unfold schar in Hc.
  case_match eqn:E; [apply Z.ltb_lt in E|apply Z.ltb_ge in E]; lia.
Qed.

Lemma strchr_misses_high_bytes_witness :
  strchr 5 (put_bytes ∅ 100 [97; 200; 0]) 100 200 = Some 0 /\ memchr 3 (put_bytes ∅ 100 [97; 200; 0]) 100 200 = 101.
Proof.
  split; [|reflexivity].
  apply (strchr_misses_high_bytes _ 100 [97; 200]); [vm_compute; by split_and! | cbn; lia | lia | lia].
Defined.

Lemma memchr_correct n m p c : 0 < p ->
  (memchr n m p c = 0 -> forall i, 0 <= i < Z.of_nat n -> mget m (p + i) <> c mod 256) /\
  (memchr n m p c <> 0 -> p <= memchr n m p c < p + Z.of_nat n /\ mget m (memchr n m p c) = c mod 256 /\
     forall a, p <= a < memchr n m p c -> mget m a <> c mod 256).
Proof.
  revert p. induction n as [|n IH]; intros p Hp; cbn [memchr]; [split; [lia|done]|].
  destruct (Z.eqb_spec (mget m p) (c mod 256)) as [E|E].
  - split; [lia|]. intros _. split_and!; [lia|lia|done|lia].
  - destruct (IH (p + 1) ltac:(lia)) as [IH0 IH1]. split.
    + intros Hz i Hi. destruct (decide (i = 0)) as [->|]; [by rewrite Z.add_0_r|].
      replace (p + i) with (p + 1 + (i - 1)) by lia. apply IH0; [done|lia].
    + intros Hz. destruct (IH1 Hz) as (? & ? & Ha). split_and!; [lia|lia|done|].
      intros a ?. destruct (decide (a = p)) as [->|]; [done|]. apply Ha. lia.
Qed.

(** ** Copying strings *)

Lemma mget_store_byte m a v b : mget (store 1 m a v) b = if decide (b = a) then v mod 256 else mget m b.
Proof.
  rewrite mget_store. unfold in_range. repeat case_decide; try lia; try done. subst. by rewrite Z.sub_diag, Z.pow_0_r, Z.div_1_r.
Qed.

(** [strncpy] writes exactly [n] bytes: those of the string, cut off at [n], and
    zeros behind them. *)
Lemma strncpy_correct n m d p s : cstr m p s -> d + Z.of_nat n <= p \/ p + Z.of_nat (length s) < d ->
  forall b, mget (strncpy n m d p) b =
    if decide (d <= b < d + Z.of_nat n) then nth (Z.to_nat (b - d)) s 0 else mget m b.
Proof.
  revert m d p s. induction n as [|n IH]; intros m d p s Hs Hd b; cbn [strncpy]; [case_decide; [lia|done]|].
  rewrite schar_zero. pose proof (mget_bound m p) as Hb. destruct s as [|c s]; cbn [cstr length] in Hs, Hd.
  - rewrite Hs, Z.eqb_refl, mget_memset, mget_store_byte. repeat case_decide; try lia; try done;
      by destruct (Z.to_nat (b - d)) as [|[|]].
  - destruct Hs as (Hc & Hz & Hs). rewrite (proj2 (Z.eqb_neq (mget m p) 0)) by lia.
    rewrite (IH _ _ _ s), mget_store_byte; [| |lia].
    2: { eapply cstr_ext; [|exact Hs]. intros a Ha. rewrite mget_store_byte, decide_False by lia. done. }
    repeat case_decide; try lia; try done.
    + by replace (Z.to_nat (b - d)) with (Datatypes.S (Z.to_nat (b - (d + 1)))) by lia.
    + subst. rewrite Z.sub_diag, Z.mod_small by lia. done.
Qed.

Lemma strcpy_correct fuel m d p s : cstr m p s -> (length s < fuel)%nat ->
  d + Z.of_nat (length s) < p \/ p + Z.of_nat (length s) < d ->
  exists m', strcpy fuel m d p = Some m' /\
    forall b, mget m' b = if decide (d <= b <= d + Z.of_nat (length s)) then nth (Z.to_nat (b - d)) s 0 else mget m b.
Proof.
  revert m d p s. induction fuel as [|fuel IH]; intros m d p s Hs Hf Hd; [lia|]. cbn [strcpy].
  rewrite schar_zero. pose proof (mget_bound m p) as Hb. destruct s as [|c s]; cbn [cstr length] in Hs, Hf, Hd.
  - rewrite Hs. eexists. split; [done|]. intros b. rewrite mget_store_byte. cbn [length].
    repeat case_decide; try lia; try done. subst. by rewrite Z.sub_diag.
  - destruct Hs as (Hc & Hz & Hs). rewrite (proj2 (Z.eqb_neq (mget m p) 0)) by lia.
    destruct (IH (store 1 m d (mget m p)) (d + 1) (p + 1) s) as (m' & -> & Hm'); [|lia|lia|].
    { eapply cstr_ext; [|exact Hs]. intros a Ha. rewrite mget_store_byte, decide_False by lia. done. }
    exists m'. split; [done|]. intros b. rewrite Hm', mget_store_byte. cbn [length]. repeat case_decide; try lia; try done.
    + by replace (Z.to_nat (b - d)) with (Datatypes.S (Z.to_nat (b - (d + 1)))) by lia.
    + subst. rewrite Z.sub_diag, Z.mod_small by lia. done.
Qed.

(** A string whose bytes are known at an address. *)
Lemma cstr_intro m p s : bytes_pos s -> (forall i, (i <= length s)%nat -> mget m (p + Z.of_nat i) = nth i s 0) -> cstr m p s.
Proof.
  revert p. induction s as [|c s IH]; intros p Hpos Hm; cbn.
  - specialize (Hm 0%nat ltac:(cbn; lia)). by rewrite Z.add_0_r in Hm.
  - apply Forall_cons in Hpos as [? ?]. split_and!; [|lia|].
    + specialize (Hm 0%nat ltac:(cbn; lia)). by rewrite Z.add_0_r in Hm.
    + apply IH; [done|]. intros i Hi. specialize (Hm (Datatypes.S i) ltac:(cbn; lia)).
      by replace (p + 1 + Z.of_nat i) with (p + Z.of_nat (Datatypes.S i)) by lia.
Qed.

Lemma nth_take (s : list Z) i n : nth i (take n s) 0 = if decide (i < n)%nat then nth i s 0 else 0.
Proof.
  rewrite !nth_lookup. case_decide; [by rewrite lookup_take_lt|]. by rewrite lookup_take_ge by lia.
Qed.

(** [strdup] and [strndup] leave a copy of the string, the latter of its first [n]
    bytes and always terminated, in the block they got, and change nothing
    outside of it. *)
Theorem strdup_copies {S} `{Allocator S} m (al : S) p s fuel copy al' : cstr m p s -> (length s < fuel)%nat ->
  Z.of_nat (length s) + 1 < 2^64 -> al_malloc al (Z.of_nat (length s) + 1) = Ret (copy, al') -> copy <> 0 ->
  copy + Z.of_nat (length s) < p \/ p + Z.of_nat (length s) < copy ->
  exists m', strdup fuel m al p = Some (Ret (copy, m', al')) /\ cstr m' copy s /\
    forall b, ~ in_range b copy (length s + 1) -> mget m' b = mget m b.
Proof.
  intros Hs Hf Hlen Hal Hc Hd. unfold strdup. rewrite (strlen_correct m p s) by done. cbn [mbind option_bind].
  unfold u64. rewrite Z.mod_small, Hal by lia. cbn [lift fbind]. rewrite (proj2 (Z.eqb_neq _ _)) by done.
  eexists. split; [done|]. set (n := Z.to_nat (Z.of_nat (length s) + 1)). split.
  - apply cstr_intro; [by eapply cstr_pos|]. intros i Hi. rewrite mget_memcpy, decide_True by lia.
    rewrite <- (cstr_lookup m p s) by done. f_equal. lia.
  - intros b Hb. rewrite mget_memcpy, decide_False; [done|unfold in_range in Hb; lia|lia].
Qed.

Theorem strndup_copies {S} `{Allocator S} m (al : S) p s (n : nat) ptr al' : cstr m p s ->
  Z.of_nat n + 1 < 2^64 -> al_malloc al (Z.of_nat n + 1) = Ret (ptr, al') ->
  ptr + Z.of_nat n < p \/ p + Z.of_nat (length s) < ptr ->
  exists m', strndup m al p (Z.of_nat n) = Ret (ptr, m', al') /\ cstr m' ptr (take n s) /\
    forall b, ~ in_range b ptr (n + 1) -> mget m' b = mget m b.
Proof.
  intros Hs Hn Hal Hd. unfold strndup. unfold u64. rewrite Z.mod_small, Hal by lia. rewrite bind_Ret_l, Nat2Z.id.
  eexists. split; [done|]. split.
  - apply cstr_intro; [by apply Forall_take; eapply cstr_pos|]. intros i Hi. rewrite length_take in Hi.
    rewrite mget_store_byte, (strncpy_correct n m ptr p s) by (done || lia). rewrite nth_take.
    repeat case_decide; try lia; try done. f_equal. lia.
  - intros b Hb. unfold in_range in Hb. rewrite mget_store_byte, (strncpy_correct n m ptr p s) by (done || lia).
    by rewrite !decide_False by lia.
Qed.

Lemma strdup_copies_witness :
  let m := put_bytes ∅ 1000 [104; 105; 0] in
  exists m', strdup 9 m (mk_libc ∅) 1000 = Some (Ret (16, m', mk_libc {[16 := 3]})) /\ cstr m' 16 [104; 105].
Proof.
  set (m := put_bytes _ _ _).
  destruct (strdup_copies m (mk_libc ∅) 1000 [104; 105] 9 16 (mk_libc {[16 := 3]})) as (m' & E & Hc & _);
    [vm_compute; by split_and! | cbn; lia | cbn; lia | reflexivity | lia | cbn; lia |].
  exists m'. auto.
Defined.

Lemma strndup_copies_witness :
  let m := put_bytes ∅ 1000 [104; 105; 0] in
  exists m', strndup m (mk_libc ∅) 1000 1 = Ret (16, m', mk_libc {[16 := 2]}) /\ cstr m' 16 [104].
Proof.
  set (m := put_bytes _ _ _).
  destruct (strndup_copies m (mk_libc ∅) 1000 [104; 105] 1 16 (mk_libc {[16 := 2]})) as (m' & E & Hc & _);
    [vm_compute; by split_and! | cbn; lia | reflexivity | cbn; lia |].
  exists m'. auto.
Defined.

(** ** What memmove_bsd does *)

(** The memory in which the bytes of [lo, hi) come from [d] bytes above. *)
Definition moved (m : mem) (lo hi d : Z) (m' : mem) : Prop :=
  forall b, mget m' b = if decide (lo <= b < hi) then mget m (b + d) else mget m b.

Lemma store_load_moved w m dst src : moved m dst (dst + Z.of_nat w) (src - dst) (store w m dst (load w m src)).
Proof.
  intros b. rewrite mget_store. unfold in_range. repeat case_decide; try done.
  replace (b - dst) with (b + (src - dst) - src) by lia. apply load_byte. unfold in_range. lia.
Qed.

(** Upward copies compose when the source is above the target, downward copies
    when it is below. *)
Lemma moved_up m m1 m2 lo mid hi d : 0 < d -> lo <= mid -> mid <= hi -> moved m lo mid d m1 -> moved m1 mid hi d m2 -> moved m lo hi d m2.
Proof. intros Hd ? ? H1 H2 b. rewrite H2, !H1. repeat case_decide; lia || done. Qed.

Lemma moved_down m m1 m2 lo mid hi d : d < 0 -> lo <= mid -> mid <= hi -> moved m mid hi d m1 -> moved m1 lo mid d m2 -> moved m lo hi d m2.
Proof. intros Hd ? ? H1 H2 b. rewrite H2, !H1. repeat case_decide; lia || done. Qed.

Lemma moved_nil m a d : moved m a a d m.
Proof. intros b. case_decide; [lia|done]. Qed.

Lemma copy_up_moved w t m dst src : dst < src ->
  exists m', copy_up w t m dst src = (m', dst + Z.of_nat (t * w), src + Z.of_nat (t * w)) /\
    moved m dst (dst + Z.of_nat (t * w)) (src - dst) m'.
Proof.
  revert m dst src. induction t as [|t IH]; intros m dst src Hd; cbn [copy_up].
  - exists m. cbn. rewrite !Z.add_0_r. split; [done|apply moved_nil].
  - destruct (IH (store w m dst (load w m src)) (dst + Z.of_nat w) (src + Z.of_nat w)) as (m' & -> & Hm'); [lia|].
    exists m'. split; [f_equal; [f_equal|]; lia|]. eapply (moved_up _ _ _ _ (dst + Z.of_nat w)); [lia..|apply store_load_moved|].
    replace (dst + Z.of_nat (Datatypes.S t * w)) with (dst + Z.of_nat w + Z.of_nat (t * w)) by lia.
    replace (src - dst) with (src + Z.of_nat w - (dst + Z.of_nat w)) by lia. exact Hm'.
Qed.

Lemma copy_down_moved w t m dst src : src < dst ->
  exists m', copy_down w t m dst src = (m', dst - Z.of_nat (t * w), src - Z.of_nat (t * w)) /\
    moved m (dst - Z.of_nat (t * w)) dst (src - dst) m'.
Proof.
  revert m dst src. induction t as [|t IH]; intros m dst src Hd; cbn [copy_down].
  - exists m. cbn. rewrite !Z.sub_0_r. split; [done|apply moved_nil].
  - set (dst' := dst - Z.of_nat w). set (src' := src - Z.of_nat w).
    destruct (IH (store w m dst' (load w m src')) dst' src') as (m' & -> & Hm'); [lia|].
    exists m'. split; [f_equal; [f_equal|]; lia|]. replace (src - dst) with (src' - dst') by lia.
    eapply (moved_down _ _ _ _ dst'); [lia..| |].
    + replace dst with (dst' + Z.of_nat w) by lia. apply store_load_moved.
    + replace (dst - Z.of_nat (Datatypes.S t * w)) with (dst' - Z.of_nat (t * w)) by lia. exact Hm'.
Qed.

(** [TLOOP1] runs its body [t] times for a positive [t], like [TLOOP]. *)
Lemma TLOOP1_pos loop t st : 0 < t -> TLOOP1 loop t st = TLOOP loop t st.
Proof. intros Ht. destruct st as [[m dst] src]. unfold TLOOP1, TLOOP. by rewrite (proj2 (Z.eqb_neq _ _)) by lia. Qed.

Lemma land_wmask x : Z.land x wmask = x mod 8.
Proof. change wmask with (Z.ones 3). by apply Z.land_ones. Qed.

Lemma lor_wmask x y : (Z.land (Z.lor x y) wmask =? 0) = (x mod 8 =? 0) && (y mod 8 =? 0).
Proof.
  rewrite Z.land_lor_distr_l, !land_wmask. apply eq_true_iff_eq.
  rewrite andb_true_iff, !Z.eqb_eq. apply Z.lor_eq_0_iff.
Qed.

Lemma lxor_wmask x y : (Z.land (Z.lxor x y) wmask =? 0) = (x mod 8 =? y mod 8).
Proof.
  assert (E : Z.land (Z.lxor x y) wmask = Z.lxor (Z.land x wmask) (Z.land y wmask)).
  { apply Z.bits_inj'. intros i _. rewrite !Z.land_spec, !Z.lxor_spec, !Z.land_spec.
    by destruct (Z.testbit x i), (Z.testbit y i), (Z.testbit wmask i). }
  apply eq_true_iff_eq. rewrite !Z.eqb_eq, E, <- !land_wmask. apply Z.lxor_eq_0_iff.
Qed.

(** The bytes copied by the aligning loop; [x] and [y] are the ends of the two
    operands the copy starts from. *)
Definition aligning (x y n shift : Z) (short : bool) : Z :=
  if (x mod 8 =? 0) && (y mod 8 =? 0) then 0
  else if negb (x mod 8 =? y mod 8) || short then n else shift.

(** The loops behind the aligning one copy [n] bytes. *)
Lemma words_bytes n : 0 <= n -> Z.of_nat (Z.to_nat (n / wsize) * 8) + Z.of_nat (Z.to_nat (n mod 8) * 1) = n.
Proof. intros Hn. unfold wsize. pose proof (Z.div_mod n 8 ltac:(lia)). pose proof (Z.mod_pos_bound n 8 ltac:(lia)). pose proof (Z.div_pos n 8 Hn ltac:(lia)). lia. Qed.

Lemma main_up m dst src n : 0 <= n -> dst < src ->
  moved m dst (dst + n) (src - dst) (TLOOP (copy_up 1) (Z.land n wmask) (TLOOP (copy_up 8) (n / wsize) (m, dst, src))).1.1.
Proof.
  intros Hn Hd. pose proof (words_bytes n Hn) as Hsum. rewrite land_wmask. unfold TLOOP.
  destruct (copy_up_moved 8 (Z.to_nat (n / wsize)) m dst src Hd) as (m1 & -> & H1). set (k := Z.of_nat (_ * 8)) in *.
  destruct (copy_up_moved 1 (Z.to_nat (n mod 8)) m1 (dst + k) (src + k) ltac:(lia)) as (m2 & -> & H2). cbn [fst].
  eapply (moved_up _ _ _ _ (dst + k)); [lia..|exact H1|].
  replace (src - dst) with (src + k - (dst + k)) by lia. replace (dst + n) with (dst + k + Z.of_nat (Z.to_nat (n mod 8) * 1)) by lia. exact H2.
Qed.

Lemma main_down m dst src n : 0 <= n -> src < dst ->
  moved m (dst - n) dst (src - dst) (TLOOP (copy_down 1) (Z.land n wmask) (TLOOP (copy_down 8) (n / wsize) (m, dst, src))).1.1.
Proof.
  intros Hn Hd. pose proof (words_bytes n Hn) as Hsum. rewrite land_wmask. unfold TLOOP.
  destruct (copy_down_moved 8 (Z.to_nat (n / wsize)) m dst src Hd) as (m1 & -> & H1). set (k := Z.of_nat (_ * 8)) in *.
  destruct (copy_down_moved 1 (Z.to_nat (n mod 8)) m1 (dst - k) (src - k) ltac:(lia)) as (m2 & -> & H2). cbn [fst].
  eapply (moved_down _ _ _ _ (dst - k)); [lia..|exact H1|].
  replace (src - dst) with (src - k - (dst - k)) by lia. replace (dst - n) with (dst - k - Z.of_nat (Z.to_nat (n mod 8) * 1)) by lia. exact H2.
Qed.

(** The aligning loop, in the form both directions use it. *)
Lemma aligning_run loop x y n shift short st : 0 < n -> (x mod 8 <> 0 -> 0 < shift) ->
  (if negb (Z.land (Z.lor x y) wmask =? 0)
   then TLOOP1 loop (if negb (Z.land (Z.lxor x y) wmask =? 0) || short then n else shift) st
   else TLOOP loop 0 st) = TLOOP loop (aligning x y n shift short) st /\ 0 <= aligning x y n shift short.
Proof.
  intros Hn Hs. rewrite lor_wmask, lxor_wmask. unfold aligning.
  destruct ((x mod 8 =? 0) && (y mod 8 =? 0)) eqn:E; cbn [negb]; [done|].
  destruct (negb (x mod 8 =? y mod 8) || short) eqn:E2; [rewrite TLOOP1_pos by done; split; [done|lia]|].
  apply orb_false_iff in E2 as [E2%negb_false_iff%Z.eqb_eq _]. rewrite <- E2, andb_diag in E. apply Z.eqb_neq in E.
  specialize (Hs E). rewrite TLOOP1_pos by lia. split; [done|lia].
Qed.

(** What [memmove_bsd] does, in every branch: it copies the [n] bytes of the
    source, also when the operands overlap, and beyond them as many bytes as the
    aligning loop copied, because the loops that follow it start again from the
    full length: none when both operands are aligned, [n] when their low bits
    differ or there is less than a word, up to seven otherwise. *)
Theorem memmove_bsd_exact m dst src n : 0 <= n ->
  let over := if dst <? src then aligning src dst n (8 - src mod 8) (n <? 8)
              else aligning (src + n) (dst + n) n ((src + n) mod 8) (n <=? 8) in
  moved m (if dst <? src then dst else dst - over) (if dst <? src then dst + n + over else dst + n) (src - dst)
    (memmove_bsd m dst src n).
Proof.
  intros Hn over. unfold memmove_bsd. destruct (Z.eqb_spec n 0) as [->|Hn0]; cbn [orb].
  { replace over with 0 by (subst over; unfold aligning; cbn; rewrite !orb_true_r; by repeat case_match).
    rewrite Z.sub_0_r, !Z.add_0_r. destruct (dst <? src); apply moved_nil. }
  destruct (Z.eqb_spec dst src) as [->|Hds]; [intros b; rewrite Z.sub_diag, Z.add_0_r; by case_decide|].
  destruct (Z.ltb_spec dst src) as [Hlt|Hge]; subst over.
  - pose proof (Z.mod_pos_bound src 8 ltac:(lia)). rewrite (land_wmask src).
    destruct (aligning_run (copy_up 1) src dst n (8 - src mod 8) (n <? 8) (m, dst, src)) as [E H0]; [lia|lia|].
    change (TLOOP (copy_up 1) 0 (m, dst, src)) with (m, dst, src) in E. change wsize with 8 in *. rewrite E.
    set (t := aligning _ _ _ _ _) in *. unfold TLOOP at 3.
    destruct (copy_up_moved 1 (Z.to_nat t) m dst src Hlt) as (m1 & -> & H1). rewrite Nat.mul_1_r, Z2Nat.id in * by done.
    eapply (moved_up _ _ _ _ (dst + t)); [lia..|exact H1|].
    pose proof (main_up m1 (dst + t) (src + t) n Hn ltac:(lia)) as H2. change wsize with 8 in H2.
    replace (src - dst) with (src + t - (dst + t)) by lia. by replace (dst + n + t) with (dst + t + n) by lia.
  - pose proof (Z.mod_pos_bound (src + n) 8 ltac:(lia)). rewrite (land_wmask (src + n)).
    destruct (aligning_run (copy_down 1) (src + n) (dst + n) n ((src + n) mod 8) (n <=? 8) (m, dst + n, src + n)) as [E H0]; [lia|lia|].
    change (TLOOP (copy_down 1) 0 (m, dst + n, src + n)) with (m, dst + n, src + n) in E. change wsize with 8 in *. rewrite E.
    set (t := aligning _ _ _ _ _) in *. unfold TLOOP at 3.
    destruct (copy_down_moved 1 (Z.to_nat t) m (dst + n) (src + n) ltac:(lia)) as (m1 & -> & H1). rewrite Nat.mul_1_r, Z2Nat.id in * by done.
    replace (src - dst) with (src + n - (dst + n)) by lia.
    eapply (moved_down _ _ _ _ (dst + n - t)); [lia..|exact H1|].
    pose proof (main_down m1 (dst + n - t) (src + n - t) n Hn ltac:(lia)) as H2. change wsize with 8 in H2.
    replace (src + n - (dst + n)) with (src + n - t - (dst + n - t)) by lia. by replace (dst - t) with (dst + n - t - n) by lia.
Qed.

(** Three bytes moved down by one byte: the three bytes behind them move too. *)
Lemma memmove_bsd_exact_witness : let m := put_bytes ∅ 16 [1; 2; 3; 4; 5; 6; 7; 8] in
  moved m 16 22 1 (memmove_bsd m 16 17 3) /\ map (mget (memmove_bsd m 16 17 3)) [16; 17; 18; 19; 20; 21; 22; 23] = [2; 3; 4; 5; 6; 7; 7; 8].
Proof. set (m := put_bytes _ _ _). split; [|reflexivity]. exact (memmove_bsd_exact m 16 17 3 ltac:(lia)). Defined.
