(* ===== verification/LibcStrtol.v ===== *)
(** * Conversion of strings to integers (src/libc/stdlib)

    [strtol], [strtoll], [strtoul], [strtoull], [atoi] and [atol] of the OpenBSD
    C library.  [long] and [long long] have 64 bits; signed arithmetic that
    overflows stops with [UndefinedArith].  The routines differ in the check of
    the base, which only [strtol] has, and in the handling of the sign.  The
    character classes are those of the C locale, where a negative [int] belongs
    to none. *)

From S2P Require Export LibcString.

Definition LONG_MAX : Z := 2^63 - 1.
Definition LONG_MIN : Z := - 2^63.
Definition ULONG_MAX : Z := 2^64 - 1.
Definition EINVAL : Z := 22.
Definition ERANGE : Z := 34.

Definition isspace (c : Z) : bool := (c =? 32) || ((9 <=? c) && (c <=? 13)).
Definition isdigit (c : Z) : bool := (48 <=? c) && (c <=? 57).
Definition isupper (c : Z) : bool := (65 <=? c) && (c <=? 90).
Definition islower (c : Z) : bool := (97 <=? c) && (c <=? 122).
Definition isalpha (c : Z) : bool := isupper c || islower c.

(** [do c = ( unsigned char) *s++; while (isspace(c));] *)
Fixpoint skip_space (fuel : nat) (m : mem) (s : Z) : option (Z * Z) :=
  match fuel with
  | O => None
  | S fuel' => let c := mget m s in if isspace c then skip_space fuel' m (s + 1) else Some (c, s + 1)
  end.

(** White space, sign and prefix: the sign, the first character of the number,
    the address behind it and the base. *)
Definition number_start (fuel : nat) (m : mem) (nptr base : Z) : option (bool * Z * Z * Z) :=
  '(c, s) ← skip_space fuel m nptr;
  let '(neg, c, s) :=
    if c =? 45 then (true, schar (mget m s), s + 1)
    else if c =? 43 then (false, schar (mget m s), s + 1) else (false, c, s) in
  let '(c, s, base) :=
    if ((base =? 0) || (base =? 16)) && (c =? 48) && ((mget m s =? 120) || (mget m s =? 88))
    then (schar (mget m (s + 1)), s + 2, 16) else (c, s, base) in
  let base := if base =? 0 then if c =? 48 then 8 else 10 else base in
  Some (neg, c, s, base).

(** The value of a digit or letter. *)
Definition digit_val (c : Z) : option Z :=
  if isdigit c then Some (c - 48)
  else if isalpha c then Some (c - (if isupper c then 55 else 87))
  else None.

(** Signed arithmetic on [long]. *)
Definition long_arith (x : Z) : outcome Z :=
  if (LONG_MIN <=? x) && (x <=? LONG_MAX) then Ret x else Stop UndefinedArith.

(** [cutoff] and [cutlim] of the signed routines. *)
Definition signed_cutoff (neg : bool) (base : Z) : outcome (Z * Z) :=
  let cutoff := if neg then LONG_MIN else LONG_MAX in
  let cutlim := Z.rem cutoff base in
  cutoff ← long_arith (Z.quot cutoff base);
  Ret (if neg then
         let '(cutlim, cutoff) := if 0 <? cutlim then (cutlim - base, cutoff + 1) else (cutlim, cutoff) in
         (cutoff, - cutlim)
       else (cutoff, cutlim)).

Definition signed_over (neg : bool) (acc cutoff cutlim c : Z) : bool :=
  if neg then (acc <? cutoff) || ((acc =? cutoff) && (cutlim <? c))
  else (cutoff <? acc) || ((acc =? cutoff) && (cutlim <? c)).

Definition signed_next (neg : bool) (acc base c : Z) : outcome Z :=
  acc ← long_arith (acc * base); long_arith (if neg then acc - c else acc + c).

(** The conversion loop of the signed routines: value, [any], the address behind
    the character that ended it, and [errno]. *)
Fixpoint signed_loop (fuel : nat) (m : mem) (neg : bool) (base cutoff cutlim : Z) (c s acc any errno : Z)
  : option (outcome (Z * Z * Z * Z)) :=
  match fuel with
  | O => None
  | S fuel' =>
      let continue acc any errno :=
        signed_loop fuel' m neg base cutoff cutlim (mget m s) (s + 1) acc any errno in
      match digit_val c with
      | None => Some (Ret (acc, any, s, errno))
      | Some c =>
          if base <=? c then Some (Ret (acc, any, s, errno))
          else if any <? 0 then continue acc any errno
          else if signed_over neg acc cutoff cutlim c
          then continue (if neg then LONG_MIN else LONG_MAX) (-1) ERANGE
          else acc ⇐ lift (signed_next neg acc base c); continue acc 1 errno
      end
  end.

(** [if (endptr != 0) *endptr = ...] *)
Definition set_endptr (m : mem) (endptr v : Z) : mem := if endptr =? 0 then m else store 8 m endptr v.

(** Result, memory and [errno]. *)
Definition strtoll (fuel : nat) (m : mem) (errno nptr endptr base : Z) : option (outcome (Z * mem * Z)) :=
  '(neg, c, s, base) ← number_start fuel m nptr base;
  '(cutoff, cutlim) ⇐ lift (signed_cutoff neg base);
  '(acc, any, s, errno) ⇐ signed_loop fuel m neg base cutoff cutlim c s 0 0 errno;
  Some (Ret (acc, set_endptr m endptr (if any =? 0 then nptr else s - 1), errno)).

Definition strtol (fuel : nat) (m : mem) (errno nptr endptr base : Z) : option (outcome (Z * mem * Z)) :=
  if negb (base =? 0) && ((base <? 2) || (36 <? base))
  then Some (Ret (0, set_endptr m endptr nptr, EINVAL))
  else strtoll fuel m errno nptr endptr base.

(** The unsigned routines compute modulo [2^64]. *)
Fixpoint unsigned_loop (fuel : nat) (m : mem) (base cutoff cutlim : Z) (c s acc any errno : Z)
  : option (Z * Z * Z * Z) :=
  match fuel with
  | O => None
  | S fuel' =>
      let continue acc any errno := unsigned_loop fuel' m base cutoff cutlim (mget m s) (s + 1) acc any errno in
      match digit_val c with
      | None => Some (acc, any, s, errno)
      | Some c =>
          if base <=? c then Some (acc, any, s, errno)
          else if any <? 0 then continue acc any errno
          else if (cutoff <? acc) || ((acc =? cutoff) && (cutlim <? c)) then continue ULONG_MAX (-1) ERANGE
          else continue (u64 (u64 (acc * u64 base) + c)) 1 errno
      end
  end.

Definition strtoul (fuel : nat) (m : mem) (errno nptr endptr base : Z) : option (Z * mem * Z) :=
  '(neg, c, s, base) ← number_start fuel m nptr base;
  let cutoff := ULONG_MAX / u64 base in
  let cutlim := s32 (ULONG_MAX mod u64 base) in
  '(acc, any, s, errno) ← unsigned_loop fuel m base cutoff cutlim c s 0 0 errno;
  let acc := if neg && (0 <? any) then u64 (- acc) else acc in
  Some (acc, set_endptr m endptr (if any =? 0 then nptr else s - 1), errno).

Definition strtoull := strtoul.

Definition atol (fuel : nat) (m : mem) (errno nptr : Z) : option (outcome (Z * mem * Z)) :=
  strtol fuel m errno nptr 0 10.
Definition atoi (fuel : nat) (m : mem) (errno nptr : Z) : option (outcome (Z * mem * Z)) :=
  '(v, m, errno) ⇐ strtol fuel m errno nptr 0 10; Some (Ret (s32 v, m, errno)).

(** ** Numerals *)

(** The value of a list of digits, most significant first, after [v]. *)
Definition numeral (b : Z) (ds : list Z) (v : Z) : Z := fold_left (fun a d => a * b + d) ds v.

(** The character of a digit. *)
Definition digit_char (d : Z) : Z := if d <? 10 then 48 + d else 87 + d.

(** The bytes of [l] are at [s]. *)
Fixpoint bytes_at (m : mem) (s : Z) (l : list Z) : Prop :=
  match l with [] => True | c :: l' => mget m s = c /\ bytes_at m (s + 1) l' end.

Lemma numeral_ge b ds v : 1 <= b -> 0 <= v -> Forall (fun d => 0 <= d) ds -> v <= numeral b ds v.
Proof.
  intros Hb. revert v. unfold numeral. induction ds as [|d ds IH]; intros v Hv Hd; cbn; [lia|].
  apply Forall_cons in Hd as [? ?]. transitivity (v * b + d); [nia|]. apply IH; [nia|done].
Qed.

Lemma digit_val_schar m a : digit_val (schar (mget m a)) = digit_val (mget m a).
Proof.
  pose proof (mget_bound m a). unfold schar. destruct (Z.ltb_spec (mget m a) 128) as [|Hge]; [done|].
  unfold digit_val, isdigit, isalpha, isupper, islower.
  repeat match goal with |- context [?x <=? ?y] => destruct (Z.leb_spec x y); try lia end; done.
Qed.

Lemma digit_val_range c d : digit_val c = Some d -> 0 <= d < 36 /\ 48 <= c < 123.
Proof.
  unfold digit_val, isdigit, isalpha, isupper, islower. intros E.
  repeat match type of E with context [?x <=? ?y] => destruct (Z.leb_spec x y) end; cbn in E; try discriminate; injection E as <-; lia.
Qed.

Lemma digit_val_char d : 0 <= d < 36 -> digit_val (digit_char d) = Some d.
Proof.
  intros Hd. assert (Hall : forallb (fun k => bool_decide (digit_val (digit_char (Z.of_nat k)) = Some (Z.of_nat k))) (seq 0 36) = true)
    by (vm_compute; reflexivity).
  rewrite forallb_forall in Hall. specialize (Hall (Z.to_nat d) ltac:(apply in_seq; lia)).
  apply bool_decide_eq_true in Hall. by rewrite Z2Nat.id in Hall by lia.
Qed.

(** Characters that are digits of base [b], with their values. *)
Definition digits_of (b : Z) (cs ds : list Z) : Prop :=
  Forall2 (fun c d => digit_val c = Some d /\ d < b) cs ds.

(** A character that ends a number in base [b]. *)
Definition ends_number (b c : Z) : Prop := match digit_val c with Some d => b <= d | None => True end.

Lemma digits_of_nonneg b cs ds : digits_of b cs ds -> Forall (fun d => 0 <= d) ds.
Proof. induction 1 as [|c d cs ds [E _] _ IH]; constructor; [|done]. apply digit_val_range in E. lia. Qed.

(** ** The signed loop *)

(** Largest magnitude of a number with the given sign, and the sign. *)
Definition mag_max (neg : bool) : Z := if neg then 2^63 else 2^63 - 1.
Definition sgn (neg : bool) : Z := if neg then -1 else 1.

Lemma signed_cutoff_spec neg base : 2 <= base ->
  signed_cutoff neg base = Ret (sgn neg * (mag_max neg / base), mag_max neg mod base).
Proof.
  intros Hb. unfold signed_cutoff, long_arith, sgn, mag_max. destruct neg.
  - replace (Z.quot LONG_MIN base) with (- (2^63 / base)) by (unfold LONG_MIN; rewrite Z.quot_opp_l, Z.quot_div_nonneg by lia; done).
    replace (Z.rem LONG_MIN base) with (- (2^63 mod base)) by (unfold LONG_MIN; rewrite Z.rem_opp_l, Z.rem_mod_nonneg by lia; done).
    pose proof (Z.mod_pos_bound (2^63) base ltac:(lia)). pose proof (Z.div_pos (2^63) base ltac:(lia) ltac:(lia)).
    pose proof (Z.div_le_upper_bound (2^63) base (2^63) ltac:(lia) ltac:(nia)).
    rewrite (proj2 (Z.leb_le _ _)), (proj2 (Z.leb_le _ _)) by (unfold LONG_MIN, LONG_MAX; lia). cbn [andb]. rewrite bind_Ret_l.
    rewrite (proj2 (Z.ltb_ge _ _)) by lia. f_equal. f_equal; lia.
  - rewrite Z.quot_div_nonneg, Z.rem_mod_nonneg by (unfold LONG_MAX; lia).
    pose proof (Z.div_pos LONG_MAX base ltac:(unfold LONG_MAX; lia) ltac:(lia)).
    pose proof (Z.div_le_upper_bound LONG_MAX base LONG_MAX ltac:(lia) ltac:(unfold LONG_MAX; nia)).
    rewrite (proj2 (Z.leb_le _ _)), (proj2 (Z.leb_le _ _)) by (unfold LONG_MIN in *; lia). cbn [andb]. rewrite bind_Ret_l.
    unfold LONG_MAX. f_equal. f_equal; lia.
Qed.

(** The comparison with [cutoff] and [cutlim] decides whether the next value is
    out of range, without computing it. *)
Lemma cutoff_decides M base v d : 2 <= base -> 0 <= M -> 0 <= v -> 0 <= d < base ->
  ((M / base <? v) || ((v =? M / base) && (M mod base <? d))) = (M <? v * base + d).
Proof.
  intros Hb HM Hv Hd. pose proof (Z.div_mod M base ltac:(lia)). pose proof (Z.mod_pos_bound M base ltac:(lia)).
  apply eq_true_iff_eq. rewrite orb_true_iff, andb_true_iff, !Z.ltb_lt, Z.eqb_eq. split.
  - intros [?|[? ?]]; nia.
  - intros Hlt. destruct (Z.lt_trichotomy (M / base) v) as [?|[?|?]]; [by left|right; split; nia|nia].
Qed.

Lemma signed_over_spec neg base v d : 2 <= base -> 0 <= v -> 0 <= d < base ->
  signed_over neg (sgn neg * v) (sgn neg * (mag_max neg / base)) (mag_max neg mod base) d = (mag_max neg <? v * base + d).
Proof.
  intros Hb Hv Hd. rewrite <- cutoff_decides by (done || destruct neg; cbn; lia). unfold signed_over, sgn. set (q := _ / base). set (r := _ mod base).
  destruct neg; cbn [sgn];
    repeat match goal with |- context [?x <? ?y] => destruct (Z.ltb_spec x y) | |- context [?x =? ?y] => destruct (Z.eqb_spec x y) end; lia || done.
Qed.

Lemma signed_next_spec neg base v d : 2 <= base -> 0 <= v -> 0 <= d -> v * base + d <= mag_max neg ->
  signed_next neg (sgn neg * v) base d = Ret (sgn neg * (v * base + d)).
Proof.
  intros Hb Hv Hd HM. assert (0 <= v * base) by nia. unfold signed_next, long_arith.
  rewrite !(proj2 (Z.leb_le _ _)) by (unfold LONG_MIN, LONG_MAX, sgn, mag_max in *; destruct neg; lia). cbn [andb]. rewrite bind_Ret_l.
  rewrite !(proj2 (Z.leb_le _ _)) by (unfold LONG_MIN, LONG_MAX, sgn, mag_max in *; destruct neg; lia). cbn [andb].
  f_equal. unfold sgn. destruct neg; lia.
Qed.

(** What is left to the loop: the characters [cs] of the digits [ds] and the
    character [t] that ends the number; [c] is the current character, as a
    [char] or as an [unsigned char]. *)
Definition pending (m : mem) (b c s : Z) (cs : list Z) (t : Z) : Prop :=
  match cs ++ [t] with
  | [] => True
  | x :: l => mget m (s - 1) = x /\ (c = x \/ c = schar x) /\ bytes_at m s l
  end /\ ends_number b t.

Lemma pending_digit m b c s x cs t : pending m b c s (x :: cs) t -> digit_val c = digit_val x /\ pending m b (mget m s) (s + 1) cs t.
Proof.
  intros [(Hx & Hc & Hl) He]. split; [destruct Hc as [->| ->]; [done|]; rewrite <- Hx; apply digit_val_schar|].
  split; [|done]. destruct (cs ++ [t]) as [|y l]; [done|]. destruct Hl as [Hy Hl].
  replace (s + 1 - 1) with s by lia. auto.
Qed.

Lemma pending_end m b c s t : pending m b c s [] t -> ends_number b c.
Proof.
  intros [(Hx & Hc & _) He]. destruct Hc as [->| ->]; [done|]. unfold ends_number in *. by rewrite <- Hx, digit_val_schar, Hx.
Qed.

(** After an overflow the loop only skips the remaining digits. *)
Lemma signed_loop_skip neg b cutoff cutlim m cs ds t fuel c s acc errno : digits_of b cs ds -> pending m b c s cs t -> (length cs < fuel)%nat ->
  signed_loop fuel m neg b cutoff cutlim c s acc (-1) errno = Some (Ret (acc, -1, s + Z.of_nat (length cs), errno)).
Proof.
  intros Hd. revert fuel c s. induction Hd as [|x d cs ds [Ed Hlt] Hd IH]; intros [|fuel] c s Hp Hf; cbn [length] in *; try lia; cbn [signed_loop].
  - rewrite Z.add_0_r. apply pending_end in Hp. unfold ends_number in Hp. destruct (digit_val c); [|done]. by rewrite (proj2 (Z.leb_le _ _)) by done.
  - destruct (pending_digit _ _ _ _ _ _ _ Hp) as [E Hp']. rewrite E, Ed, (proj2 (Z.leb_gt _ _)) by done. cbn [Z.ltb Z.compare].
    rewrite IH by (done || lia). by replace (s + 1 + Z.of_nat (length cs)) with (s + Z.of_nat (S (length cs))) by lia.
Qed.

(** The loop from the value [v] on: it ends at the character that ends the number,
    with the value of the digits or the limit, and no arithmetic overflows. *)
Lemma signed_loop_spec neg b m cs ds t fuel c s v any errno : 2 <= b -> digits_of b cs ds -> pending m b c s cs t -> (length cs < fuel)%nat ->
  0 <= v <= mag_max neg -> 0 <= any ->
  let r := numeral b ds v in
  signed_loop fuel m neg b (sgn neg * (mag_max neg / b)) (mag_max neg mod b) c s (sgn neg * v) any errno =
  Some (Ret (if r <=? mag_max neg then (sgn neg * r, if decide (cs = []) then any else 1, s + Z.of_nat (length cs), errno)
             else (sgn neg * mag_max neg, -1, s + Z.of_nat (length cs), ERANGE))).
Proof.
  intros Hb Hd. revert fuel c s v any. induction Hd as [|x d cs ds [Ed Hlt] Hd IH]; intros [|fuel] c s v any Hp Hf Hv Ha r; cbn [length] in *; try lia; cbn [signed_loop].
  - subst r. cbn [numeral fold_left]. rewrite (proj2 (Z.leb_le _ _)), Z.add_0_r by lia. rewrite decide_True by done.
    apply pending_end in Hp. unfold ends_number in Hp. destruct (digit_val c); [|done]. by rewrite (proj2 (Z.leb_le _ _)) by done.
  - destruct (pending_digit _ _ _ _ _ _ _ Hp) as [E Hp']. rewrite E, Ed, (proj2 (Z.leb_gt _ _)) by done. rewrite (proj2 (Z.ltb_ge any 0)) by done.
    pose proof (digit_val_range _ _ Ed) as [Hd0 _]. rewrite signed_over_spec by lia. rewrite (decide_False (P := x :: cs = [])) by done.
    subst r. change (numeral b (d :: ds) v) with (numeral b ds (v * b + d)).
    destruct (Z.ltb_spec (mag_max neg) (v * b + d)) as [Hov|Hok].
    + pose proof (numeral_ge b ds (v * b + d) ltac:(lia) ltac:(nia) (digits_of_nonneg _ _ _ Hd)).
      rewrite (proj2 (Z.leb_gt _ _)), (signed_loop_skip _ _ _ _ _ cs ds t) by (done || lia).
      replace (s + 1 + Z.of_nat (length cs)) with (s + Z.of_nat (S (length cs))) by lia. by destruct neg.
    + rewrite signed_next_spec by lia. cbn [lift fbind]. rewrite IH by (done || lia || nia).
      replace (s + 1 + Z.of_nat (length cs)) with (s + Z.of_nat (S (length cs))) by lia.
      case_match; [|done]. by case_decide.
Qed.

(** ** The text of a number *)

Inductive sign_text : bool -> list Z -> Prop :=
  | sign_none : sign_text false []
  | sign_plus : sign_text false [43]
  | sign_minus : sign_text true [45].

(** Prefix and base: [b0] is the argument, [b] the base of the digits, [l] what
    follows the prefix. *)
Inductive prefix_text (b0 : Z) : Z -> list Z -> list Z -> Prop :=
  | prefix_hex x l : b0 = 0 \/ b0 = 16 -> x = 120 \/ x = 88 -> prefix_text b0 16 [48; x] l
  | prefix_none x l : ~ ((b0 = 0 \/ b0 = 16) /\ x = 48 /\ (head l = Some 120 \/ head l = Some 88)) ->
      prefix_text b0 (if b0 =? 0 then if x =? 48 then 8 else 10 else b0) [] (x :: l).

(** The text at [p]: white space [sp], a sign, a prefix, the characters [cs] of
    the digits [ds] in base [b], and a character that ends the number. *)
Inductive number_text (m : mem) (p b0 b : Z) (neg : bool) (ds : list Z) (before cs : list Z) : Prop :=
  | number_text_intro sp sg pre t :
      before = sp ++ sg ++ pre -> bytes_at m p (before ++ cs ++ [t]) ->
      Forall (fun c => isspace c = true) sp -> sign_text neg sg -> prefix_text b0 b pre (cs ++ [t]) ->
      digits_of b cs ds -> ends_number b t ->
      (sg = [] -> pre = [] -> cs = [] -> isspace t = false /\ t <> 43 /\ t <> 45) ->
      number_text m p b0 b neg ds before cs.

Lemma bytes_at_app m s l1 l2 : bytes_at m s (l1 ++ l2) <-> bytes_at m s l1 /\ bytes_at m (s + Z.of_nat (length l1)) l2.
Proof.
  revert s. induction l1 as [|c l1 IH]; intros s; cbn [app bytes_at length]; [rewrite Z.add_0_r; naive_solver|].
  rewrite IH. replace (s + 1 + Z.of_nat (length l1)) with (s + Z.of_nat (S (length l1))) by lia. naive_solver.
Qed.

Lemma skip_space_spec m s sp x fuel : bytes_at m s (sp ++ [x]) -> Forall (fun c => isspace c = true) sp -> isspace x = false ->
  (length sp < fuel)%nat -> skip_space fuel m s = Some (x, s + Z.of_nat (length sp) + 1).
Proof.
  intros Hb Hsp Hx. revert s fuel Hb. induction Hsp as [|c sp Hc Hsp IH]; intros s [|fuel] Hb Hf; cbn [length] in *; try lia; cbn [skip_space app] in *;
    destruct Hb as [-> Hb].
  - by rewrite Hx, Z.add_0_r.
  - rewrite Hc, IH by (done || lia). do 2 f_equal. lia.
Qed.

(** [c] is the character [x] at [s - 1], read as a [char] or an [unsigned char]. *)
Definition current (m : mem) (c s x : Z) : Prop := mget m (s - 1) = x /\ (c = x \/ c = schar x).

Lemma current_ascii m c s x k : current m c s x -> 0 <= k < 128 -> (c =? k) = (x =? k).
Proof.
  intros [Hx Hc] Hk. pose proof (mget_bound m (s - 1)). unfold schar in Hc.
  destruct Hc as [->|Hc]; [done|]. destruct (Z.ltb_spec x 128); subst c; [done|].
  by rewrite !(proj2 (Z.eqb_neq _ _)) by lia.
Qed.

(** The first part of the text up to the sign. *)
Lemma sign_spec m p sp sg x l neg fuel : bytes_at m p (sp ++ sg ++ x :: l) -> Forall (fun c => isspace c = true) sp -> sign_text neg sg ->
  (sg = [] -> isspace x = false /\ x <> 43 /\ x <> 45) -> (length sp < fuel)%nat ->
  exists c s, skip_space fuel m p = Some (c, s) /\ exists c', let s' := p + Z.of_nat (length (sp ++ sg)) + 1 in
    (if c =? 45 then (true, schar (mget m s), s + 1) else if c =? 43 then (false, schar (mget m s), s + 1) else (false, c, s)) = (neg, c', s') /\
    current m c' s' x /\ bytes_at m s' l.
Proof.
  intros Hb Hsp Hsg Hplain Hf. rewrite length_app.
  destruct Hsg; cbn [app length] in *; rewrite bytes_at_app in Hb; destruct Hb as [Hb1 Hb2]; cbn [bytes_at] in Hb2;
    repeat match goal with X : _ /\ _ |- _ => destruct X end.
  - destruct Hplain as (Hx & H43 & H45); [done|]. exists x, (p + Z.of_nat (length sp) + 1).
    split; [apply skip_space_spec; [apply bytes_at_app; cbn; auto|done..]|]. exists x.
    rewrite !(proj2 (Z.eqb_neq _ _)), Nat.add_0_r by done. split_and!; [done| |done]. split; [|by left].
    by replace (p + Z.of_nat (length sp) + 1 - 1) with (p + Z.of_nat (length sp)) by lia.
  - exists 43, (p + Z.of_nat (length sp) + 1). split; [apply skip_space_spec; [apply bytes_at_app; cbn; auto|done..]|]. cbn [Z.eqb Pos.eqb].
    eexists. replace (p + Z.of_nat (length sp + 1)) with (p + Z.of_nat (length sp) + 1) by lia. split_and!; [done| |done].
    rewrite H0. split; [|by right]. by replace (p + Z.of_nat (length sp) + 1 + 1 - 1) with (p + Z.of_nat (length sp) + 1) by lia.
  - exists 45, (p + Z.of_nat (length sp) + 1). split; [apply skip_space_spec; [apply bytes_at_app; cbn; auto|done..]|]. cbn [Z.eqb Pos.eqb].
    eexists. replace (p + Z.of_nat (length sp + 1)) with (p + Z.of_nat (length sp) + 1) by lia. split_and!; [done| |done].
    rewrite H0. split; [|by right]. by replace (p + Z.of_nat (length sp) + 1 + 1 - 1) with (p + Z.of_nat (length sp) + 1) by lia.
Qed.

(** A digit is neither white space nor a sign. *)
Lemma digit_plain c d : digit_val c = Some d -> isspace c = false /\ c <> 43 /\ c <> 45.
Proof.
  intros [_ Hc]%digit_val_range. split; [|lia]. unfold isspace.
  rewrite (proj2 (Z.eqb_neq c 32)), (proj2 (Z.leb_gt c 13)) by lia. by rewrite andb_false_r.
Qed.

(** The first character behind white space when there is no sign. *)
Lemma first_plain b0 b pre cs ds t x l : prefix_text b0 b pre (cs ++ [t]) -> digits_of b cs ds -> pre ++ cs ++ [t] = x :: l ->
  (pre = [] -> cs = [] -> isspace t = false /\ t <> 43 /\ t <> 45) -> isspace x = false /\ x <> 43 /\ x <> 45.
Proof.
  intros Hpre Hd E Hplain. destruct pre as [|c pre]; cbn in E.
  - destruct Hd as [|c d cs ds [Ed _] Hd]; cbn in E; injection E as <- _; [by apply Hplain|]. by eapply digit_plain.
  - injection E as <- _. inversion Hpre; subst. split; [done|lia].
Qed.

Lemma number_start_spec m p b0 b neg ds before cs fuel : number_text m p b0 b neg ds before cs -> 2 <= b -> (length before < fuel)%nat ->
  exists c t, number_start fuel m p b0 = Some (neg, c, p + Z.of_nat (length before) + 1, b) /\
    pending m b c (p + Z.of_nat (length before) + 1) cs t.
Proof.
  intros [sp sg pre t -> Hb Hsp Hsg Hpre Hd Hend Hplain] Hb2 Hf. rewrite !length_app in Hf.
  destruct (pre ++ cs ++ [t]) as [|x l] eqn:El; [by destruct pre, cs|].
  rewrite <- !app_assoc, El in Hb.
  destruct (sign_spec m p sp sg x l neg fuel) as (c & s & Esk & c' & Esg & Hcur & Hl); [done..| |lia|].
  { intros Hn. eapply first_plain; [done..|]. auto. }
  unfold number_start. rewrite Esk. cbn [mbind option_bind]. rewrite Esg. pose proof (current_ascii _ _ _ _ 48 Hcur ltac:(lia)) as E48. rewrite E48.
  rewrite app_assoc, (length_app (sp ++ sg)). set (s' := p + Z.of_nat (length (sp ++ sg)) + 1) in *.
  remember (cs ++ [t]) as L eqn:EL. clear Hb Hplain.
  destruct Hpre as [y L Hb0 Hy|y l' Hno]; cbn [app] in El.
  - injection El as <- <-. destruct Hl as [-> Hl]. rewrite Z.eqb_refl.
    replace ((b0 =? 0) || (b0 =? 16)) with true by (destruct Hb0 as [->| ->]; done).
    replace ((y =? 120) || (y =? 88)) with true by (destruct Hy as [->| ->]; done). cbn [andb].
    exists (schar (mget m (s' + 1))), t. cbn [length].
    replace (p + Z.of_nat (length (sp ++ sg) + 2) + 1) with (s' + 2) by lia. split; [done|]. split; [|done].
    destruct L as [|z l2]; [by destruct cs|]. destruct Hl as [<- Hl].
    replace (s' + 2 - 1) with (s' + 1) by lia. rewrite <- EL. split_and!; [done|by right|]. by replace (s' + 2) with (s' + 1 + 1) by lia.
  - cbn [length]. rewrite Nat.add_0_r. change (p + Z.of_nat (length (sp ++ sg)) + 1) with s'. injection El as -> ->.
    exists c', t. destruct Hcur as [Hx Hc]. split; [|split; [by rewrite <- EL|done]].
    replace (((b0 =? 0) || (b0 =? 16)) && (x =? 48) && ((mget m s' =? 120) || (mget m s' =? 88))) with false; [by rewrite E48|].
    symmetry. apply not_true_iff_false. rewrite !andb_true_iff, !orb_true_iff, !Z.eqb_eq. intros [[? H48] Hm]. apply Hno.
    destruct l as [|z l]; [|destruct Hl as [Hz _]; rewrite Hz in Hm; cbn [head]; destruct Hm as [->| ->]; auto].
    exfalso. destruct cs as [|? cs]; [|by destruct cs]. injection EL as <-. unfold ends_number in Hend.
    replace (digit_val x) with (Some 0) in Hend by (by rewrite H48). lia.
Qed.

(** ** The results *)

Definition number_value (neg : bool) (b : Z) (ds : list Z) : Z := sgn neg * numeral b ds 0.

(** [z] cut off at the limits of [long]. *)
Definition clamp (z : Z) : Z := Z.max LONG_MIN (Z.min z LONG_MAX).

Lemma strtoll_run m p b0 b neg ds before cs fuel errno endptr : number_text m p b0 b neg ds before cs -> 2 <= b ->
  (length before + length cs < fuel)%nat ->
  let v := number_value neg b ds in
  strtoll fuel m errno p endptr b0 = Some (Ret (clamp v,
    set_endptr m endptr (if decide (cs = []) then p else p + Z.of_nat (length before + length cs)),
    if decide (LONG_MIN <= v <= LONG_MAX) then errno else ERANGE)).
Proof.
  intros Ht Hb Hf v. unfold strtoll.
  destruct (number_start_spec m p b0 b neg ds before cs fuel Ht Hb ltac:(lia)) as (c & t & -> & Hp). cbn [mbind option_bind].
  destruct Ht as [sp sg pre t' _ _ _ _ _ Hd _ _]. rewrite signed_cutoff_spec by done. cbn [lift fbind].
  replace 0 with (sgn neg * 0) at 1 by lia. rewrite (signed_loop_spec neg b m cs ds t) by (done || (destruct neg; cbn; lia) || lia).
  pose proof (numeral_ge b ds 0 ltac:(lia) ltac:(lia) (digits_of_nonneg _ _ _ Hd)) as Hge.
  subst v. unfold number_value, clamp, LONG_MIN, LONG_MAX. set (r := numeral b ds 0) in *. cbn [fbind].
  replace (p + Z.of_nat (length before) + 1 + Z.of_nat (length cs)) with (p + Z.of_nat (length before + length cs) + 1) by lia.
  destruct (Z.leb_spec r (mag_max neg)) as [Hle|Hgt]; cbn [fbind]; rewrite Z.add_simpl_r.
  - rewrite (decide_True (P := _ <= _ <= _)) by (destruct neg; cbn in *; lia).
    replace (Z.max (- 2^63) (Z.min (sgn neg * r) (2^63 - 1))) with (sgn neg * r) by (destruct neg; cbn in *; lia).
    by case_decide; subst.
  - rewrite (decide_False (P := _ <= _ <= _)) by (destruct neg; cbn in *; lia).
    replace (Z.max (- 2^63) (Z.min (sgn neg * r) (2^63 - 1))) with (sgn neg * mag_max neg) by (destruct neg; cbn in *; lia).
    rewrite decide_False; [done|]. intros ->. inversion Hd; subst. cbn in r. destruct neg; cbn in *; lia.
Qed.


Lemma strtol_base_ok fuel m errno p endptr b0 : b0 = 0 \/ 2 <= b0 <= 36 ->
  strtol fuel m errno p endptr b0 = strtoll fuel m errno p endptr b0.
Proof.
  intros Hb0. unfold strtol. replace (negb (b0 =? 0) && ((b0 <? 2) || (36 <? b0))) with false; [done|]. symmetry.
  destruct Hb0 as [->|Hb0]; [done|]. by rewrite (proj2 (Z.ltb_ge b0 2)), (proj2 (Z.ltb_ge 36 b0)), andb_false_r by lia.
Qed.

(** C32.  [strtol] on the text of a number, for every base, sign, prefix and number of
    digits: it returns the value cut off at the limits of [long], sets [errno] to
    ERANGE exactly when it was cut off, and [*endptr] to the end of the digits, or
    to the start of the text when there are none; no signed arithmetic overflows. *)
Theorem strtol_reads m p b0 b neg ds before cs fuel errno endptr : number_text m p b0 b neg ds before cs ->
  2 <= b -> b0 = 0 \/ 2 <= b0 <= 36 -> (length before + length cs < fuel)%nat ->
  let v := number_value neg b ds in
  strtol fuel m errno p endptr b0 = Some (Ret (clamp v,
    set_endptr m endptr (if decide (cs = []) then p else p + Z.of_nat (length before + length cs)),
    if decide (LONG_MIN <= v <= LONG_MAX) then errno else ERANGE)).
Proof.
  intros Ht Hb Hb0 Hf. rewrite strtol_base_ok by done. by apply strtoll_run.
Qed.

(** The text [ -0x1fz], read with base 0. *)
Lemma strtol_reads_witness : let m := put_bytes ∅ 100 [32; 45; 48; 120; 49; 102; 122] in
  strtol 20 m 0 100 0 0 = Some (Ret (clamp (number_value true 16 [1; 15]), m, 0)) /\ number_value true 16 [1; 15] = -31.
Proof.
  intros m. split; [|reflexivity].
  rewrite (strtol_reads m 100 0 16 true [1; 15] [32; 45; 48; 120] [49; 102]); [reflexivity| |lia|by left|cbn; lia].
  apply (number_text_intro _ _ _ _ _ _ _ _ [32] [45] [48; 120] 122); [done|vm_compute; by split_and!|by repeat constructor|constructor| | |by vm_compute|done].
  - apply prefix_hex; auto.
  - by repeat constructor.
Defined.

(** Every other base is refused, by [strtol] only: [strtoll] divides by it. *)
Theorem strtol_checks_base fuel m errno p endptr base : base <> 0 -> base < 2 \/ 36 < base ->
  strtol fuel m errno p endptr base = Some (Ret (0, set_endptr m endptr p, EINVAL)).
Proof.
  intros H0 Hb. unfold strtol. rewrite (proj2 (Z.eqb_neq base 0)) by done. cbn [negb andb].
  replace ((base <? 2) || (36 <? base)) with true; [done|]. symmetry. rewrite orb_true_iff, !Z.ltb_lt. lia.
Qed.

Theorem strtoll_base_unchecked fuel m errno p endptr : mget m p = 45 ->
  strtoll (S fuel) m errno p endptr (-1) = Some (Stop UndefinedArith).
Proof. intros Hp. unfold strtoll, number_start. cbn [skip_space]. by rewrite Hp. Qed.

(** ** Printing *)

(** The digits of [v], most significant first. *)
Fixpoint digits (fuel : nat) (b v : Z) : list Z :=
  match fuel with
  | O => []
  | S fuel' => if v <? b then [v] else digits fuel' b (v / b) ++ [v mod b]
  end.

Definition print (b z : Z) : list Z :=
  (if z <? 0 then [45] else []) ++ map digit_char (digits (S (Z.to_nat (Z.log2 (Z.abs z)))) b (Z.abs z)).

Lemma digits_spec fuel b v : 2 <= b -> 0 <= v -> v < 2 ^ Z.of_nat fuel ->
  numeral b (digits fuel b v) 0 = v /\ Forall (fun d => 0 <= d < b) (digits fuel b v) /\ (fuel <> O -> digits fuel b v <> []).
Proof.
  intros Hb. revert v. induction fuel as [|fuel IH]; intros v Hv Hlt; cbn [digits].
  { cbn in *. split_and!; [lia|constructor|done]. }
  destruct (Z.ltb_spec v b) as [Hs|Hs].
  - split_and!; [cbn; lia|repeat constructor; lia|done].
  - pose proof (Z.mod_pos_bound v b ltac:(lia)). pose proof (Z.div_mod v b ltac:(lia)). pose proof (Z.div_pos v b Hv ltac:(lia)).
    destruct (IH (v / b)) as (E & Hd & _); [lia| |].
    { apply Z.div_lt_upper_bound; [lia|]. rewrite Nat2Z.inj_succ, Z.pow_succ_r in Hlt by lia. nia. }
    split_and!.
    + unfold numeral in *. rewrite fold_left_app, E. cbn. lia.
    + apply Forall_app. split; [done|]. by apply Forall_singleton.
    + intros _ Hnil. by apply app_eq_nil in Hnil as [_ ?].
Qed.

Lemma digits_of_map b ds : b <= 36 -> Forall (fun d => 0 <= d < b) ds -> digits_of b (map digit_char ds) ds.
Proof. intros Hb. induction 1; constructor; [|done]. split; [apply digit_val_char|]; lia. Qed.

Lemma digit_char_sep d : 0 <= d < 16 -> digit_char d <> 120 /\ digit_char d <> 88.
Proof. intros Hd. unfold digit_char. destruct (Z.ltb_spec d 10); lia. Qed.

(** A printed number is the text of that number. *)
Lemma print_text m p b z t : 2 <= b <= 36 -> bytes_at m p (print b z ++ [t]) -> ends_number b t -> (b = 16 -> t <> 120 /\ t <> 88) ->
  exists ds before cs, number_text m p b b (z <? 0) ds before cs /\ before ++ cs = print b z /\ cs <> [] /\ number_value (z <? 0) b ds = z.
Proof.
  intros Hb Hm Ht Hx. unfold print in *. set (f := S (Z.to_nat (Z.log2 (Z.abs z)))) in *.
  destruct (digits_spec f b (Z.abs z)) as (E & Hd & Hne); [lia|lia| |].
  { subst f. rewrite Nat2Z.inj_succ, Z2Nat.id by apply Z.log2_nonneg. destruct (decide (z = 0)) as [->|]; [done|].
    apply Z.log2_spec. lia. }
  set (ds := digits f b (Z.abs z)) in *. specialize (Hne ltac:(done)). exists ds, (if z <? 0 then [45] else []), (map digit_char ds).
  assert (Hv : number_value (z <? 0) b ds = z).
  { unfold number_value. rewrite E. destruct (Z.ltb_spec z 0); cbn [sgn]; lia. }
  assert (Hcs : map digit_char ds <> []) by (by destruct ds). split_and!; [|done..].
  apply (number_text_intro _ _ _ _ _ _ _ _ [] (if z <? 0 then [45] else []) [] t); try done.
  - by rewrite app_nil_r.
  - by rewrite app_assoc.
  - destruct (z <? 0); constructor.
  - destruct ds as [|d ds']; [done|]. cbn [map app]. replace b with (if b =? 0 then if digit_char d =? 48 then 8 else 10 else b) at 2
      by (by rewrite (proj2 (Z.eqb_neq b 0)) by lia).
    constructor. intros ([?| ->] & _ & Hh); [lia|]. destruct ds' as [|d' ds']; cbn in Hh; [naive_solver|].
    apply Forall_cons in Hd as [_ Hd]. apply Forall_cons in Hd as [Hd' _]. apply digit_char_sep in Hd'. naive_solver.
  - apply digits_of_map; [lia|done].
Qed.

(** What is printed in a base from 2 to 36 is read back: [strtol] returns every
    [long] unchanged and leaves [errno] alone, with [*endptr] behind the last
    digit; a number out of range gives the limit and ERANGE. *)
Theorem strtol_round_trip m p b z t fuel errno endptr : 2 <= b <= 36 -> bytes_at m p (print b z ++ [t]) -> ends_number b t ->
  (b = 16 -> t <> 120 /\ t <> 88) -> (length (print b z) < fuel)%nat ->
  strtol fuel m errno p endptr b = Some (Ret (clamp z, set_endptr m endptr (p + Z.of_nat (length (print b z))),
    if decide (LONG_MIN <= z <= LONG_MAX) then errno else ERANGE)).
Proof.
  intros Hb Hm Ht Hx Hf. destruct (print_text m p b z t Hb Hm Ht Hx) as (ds & before & cs & Htext & El & Hne & Hv).
  rewrite <- El, length_app in *. rewrite strtol_base_ok by (right; lia).
  rewrite (strtoll_run m p b b (z <? 0) ds before cs) by (done || lia). by rewrite Hv, (decide_False (P := cs = [])) by done.
Qed.

(** The largest [long] and the number behind it, in base 10. *)
Lemma strtol_round_trip_witness :
  (let m := put_bytes ∅ 100 (print 10 LONG_MAX ++ [0]) in strtol 30 m 0 100 8 10 = Some (Ret (LONG_MAX, store 8 m 8 119, 0))) /\
  (let m := put_bytes ∅ 100 (print 10 (LONG_MIN - 1) ++ [0]) in strtol 30 m 0 100 8 10 = Some (Ret (LONG_MIN, store 8 m 8 120, ERANGE))).
Proof.
  split; intros m.
  - rewrite (strtol_round_trip m 100 10 LONG_MAX 0); [reflexivity|lia|vm_compute; by split_and!|by vm_compute|lia|vm_compute; lia].
  - rewrite (strtol_round_trip m 100 10 (LONG_MIN - 1) 0); [reflexivity|lia|vm_compute; by split_and!|by vm_compute|lia|vm_compute; lia].
Defined.

(** ** The unsigned routines *)

Lemma unsigned_loop_skip b cutoff cutlim m cs ds t fuel c s acc errno : digits_of b cs ds -> pending m b c s cs t -> (length cs < fuel)%nat ->
  unsigned_loop fuel m b cutoff cutlim c s acc (-1) errno = Some (acc, -1, s + Z.of_nat (length cs), errno).
Proof.
  intros Hd. revert fuel c s. induction Hd as [|x d cs ds [Ed Hlt] Hd IH]; intros [|fuel] c s Hp Hf; cbn [length] in *; try lia; cbn [unsigned_loop].
  - rewrite Z.add_0_r. apply pending_end in Hp. unfold ends_number in Hp. destruct (digit_val c); [|done]. by rewrite (proj2 (Z.leb_le _ _)) by done.
  - destruct (pending_digit _ _ _ _ _ _ _ Hp) as [E Hp']. rewrite E, Ed, (proj2 (Z.leb_gt _ _)) by done. cbn [Z.ltb Z.compare].
    rewrite IH by (done || lia). by replace (s + 1 + Z.of_nat (length cs)) with (s + Z.of_nat (S (length cs))) by lia.
Qed.

Lemma unsigned_loop_spec b m cs ds t fuel c s v any errno : 2 <= b < 2^31 -> digits_of b cs ds -> pending m b c s cs t -> (length cs < fuel)%nat ->
  0 <= v <= ULONG_MAX -> 0 <= any ->
  let r := numeral b ds v in
  unsigned_loop fuel m b (ULONG_MAX / b) (ULONG_MAX mod b) c s v any errno =
  Some (if r <=? ULONG_MAX then (r, if decide (cs = []) then any else 1, s + Z.of_nat (length cs), errno)
        else (ULONG_MAX, -1, s + Z.of_nat (length cs), ERANGE)).
Proof.
  intros Hb Hd. revert fuel c s v any. induction Hd as [|x d cs ds [Ed Hlt] Hd IH]; intros [|fuel] c s v any Hp Hf Hv Ha r; cbn [length] in *; try lia; cbn [unsigned_loop].
  - subst r. cbn [numeral fold_left]. rewrite (proj2 (Z.leb_le _ _)), Z.add_0_r by lia. rewrite decide_True by done.
    apply pending_end in Hp. unfold ends_number in Hp. destruct (digit_val c); [|done]. by rewrite (proj2 (Z.leb_le _ _)) by done.
  - destruct (pending_digit _ _ _ _ _ _ _ Hp) as [E Hp']. rewrite E, Ed, (proj2 (Z.leb_gt _ _)) by done. rewrite (proj2 (Z.ltb_ge any 0)) by done.
    pose proof (digit_val_range _ _ Ed) as [Hd0 _]. rewrite cutoff_decides by (unfold ULONG_MAX; lia). rewrite (decide_False (P := x :: cs = [])) by done.
    subst r. change (numeral b (d :: ds) v) with (numeral b ds (v * b + d)).
    replace (s + Z.of_nat (S (length cs))) with (s + 1 + Z.of_nat (length cs)) by lia.
    destruct (Z.ltb_spec ULONG_MAX (v * b + d)) as [Hov|Hok].
    + pose proof (numeral_ge b ds (v * b + d) ltac:(lia) ltac:(nia) (digits_of_nonneg _ _ _ Hd)).
      by rewrite (proj2 (Z.leb_gt _ _)), (unsigned_loop_skip _ _ _ _ cs ds t) by (done || lia).
    + assert (0 <= v * b) by nia. assert (E64 : forall y, 0 <= y <= ULONG_MAX -> u64 y = y) by (intros; unfold u64, ULONG_MAX in *; apply Z.mod_small; lia).
      rewrite (E64 b), (E64 (v * b)), (E64 (v * b + d)), IH by (done || lia || (unfold ULONG_MAX; lia)). case_match; [|done]. by case_decide.
Qed.

(** [strtoul] and [strtoull] on the text of a number: the value, negated modulo
    [2^64] behind a minus sign, or the largest value and ERANGE. *)
Theorem strtoul_reads m p b0 b neg ds before cs fuel errno endptr : number_text m p b0 b neg ds before cs -> 2 <= b < 2^31 ->
  (length before + length cs < fuel)%nat ->
  let r := numeral b ds 0 in
  strtoul fuel m errno p endptr b0 = Some (
    (if r <=? ULONG_MAX then u64 (number_value neg b ds) else ULONG_MAX),
    set_endptr m endptr (if decide (cs = []) then p else p + Z.of_nat (length before + length cs)),
    if r <=? ULONG_MAX then errno else ERANGE).
Proof.
  intros Ht Hb Hf r. unfold strtoul.
  destruct (number_start_spec m p b0 b neg ds before cs fuel Ht ltac:(lia) ltac:(lia)) as (c & t & -> & Hp). cbn [mbind option_bind].
  destruct Ht as [sp sg pre t' _ _ _ _ _ Hd _ _].
  replace (u64 b) with b by (unfold u64; rewrite Z.mod_small; lia).
  replace (s32 (ULONG_MAX mod b)) with (ULONG_MAX mod b)
    by (pose proof (Z.mod_pos_bound ULONG_MAX b ltac:(lia)); unfold s32; rewrite (Z.mod_small (_ + _)); lia).
  rewrite (unsigned_loop_spec b m cs ds t) by (done || lia || (unfold ULONG_MAX; lia)).
  pose proof (numeral_ge b ds 0 ltac:(lia) ltac:(lia) (digits_of_nonneg _ _ _ Hd)) as Hge. fold r in Hge |- *. unfold number_value. fold r.
  replace (p + Z.of_nat (length before) + 1 + Z.of_nat (length cs)) with (p + Z.of_nat (length before + length cs) + 1) by lia.
  assert (Hu : u64 (1 * r) = r \/ ULONG_MAX < r).
  { destruct (Z.le_gt_cases r ULONG_MAX); [left|by right]. unfold u64, ULONG_MAX in *. rewrite Z.mod_small; lia. }
  destruct (Z.leb_spec r ULONG_MAX) as [Hle|Hgt]; cbn [mbind option_bind]; rewrite Z.add_simpl_r.
  - destruct Hu as [Hu|?]; [|lia]. case_decide as Hcs; cbn [Z.eqb Z.ltb Z.compare].
    + subst. inversion Hd; subst. cbn in r. subst r. by destruct neg.
    + destruct neg; cbn [andb sgn]; [by replace (- r) with (-1 * r) by lia|by rewrite Hu].
  - rewrite decide_False; [by destruct neg|]. intros ->. inversion Hd; subst. cbn in r. unfold ULONG_MAX in *. lia.
Qed.

(** ** atoi *)

(** [atoi] and [atol] read what was printed; [atoi] keeps the low 32 bits of a
    [long], so that it is right exactly on the values of an [int]. *)
Theorem atoi_reads m p z fuel errno : bytes_at m p (print 10 z ++ [0]) -> (length (print 10 z) < fuel)%nat -> LONG_MIN <= z <= LONG_MAX ->
  atol fuel m errno p = Some (Ret (z, m, errno)) /\ atoi fuel m errno p = Some (Ret (s32 z, m, errno)) /\
  (s32 z = z <-> - 2^31 <= z < 2^31).
Proof.
  intros Hm Hf Hz. destruct (print_text m p 10 z 0 ltac:(lia) Hm I ltac:(lia)) as (ds & before & cs & Htext & El & Hne & Hv).
  rewrite <- El, length_app in Hf. assert (E : strtol fuel m errno p 0 10 = Some (Ret (z, m, errno))).
  { rewrite strtol_base_ok by (right; lia). rewrite (strtoll_run m p 10 10 (z <? 0) ds before cs) by (done || lia).
    rewrite Hv, (decide_True (P := LONG_MIN <= z <= LONG_MAX)) by done. unfold clamp. by replace (Z.max _ _) with z by lia. }
  unfold atol, atoi. rewrite E. split_and!; [done|done|]. unfold s32. pose proof (Z.mod_pos_bound (z + 2^31) (2^32) ltac:(lia)).
  split; [lia|]. intros. rewrite Z.mod_small by lia. lia.
Qed.

Lemma strtoul_reads_witness : let m := put_bytes ∅ 100 [45; 49; 0] in
  strtoul 9 m 0 100 0 10 = Some (ULONG_MAX, m, 0).
Proof.
  intros m. rewrite (strtoul_reads m 100 10 10 true [1] [45] [49]); [reflexivity| |lia|cbn; lia].
  apply (number_text_intro _ _ _ _ _ _ _ _ [] [45] [] 0); [done|vm_compute; by split_and!|done|constructor| |by repeat constructor|done|done].
  apply (prefix_none 10 49 [0]). lia.
Defined.

Lemma atoi_reads_witness : let m := put_bytes ∅ 100 (print 10 (2^32 - 5) ++ [0]) in
  atoi 20 m 0 100 = Some (Ret (-5, m, 0)) /\ atol 20 m 0 100 = Some (Ret (2^32 - 5, m, 0)).
Proof.
  intros m. destruct (atoi_reads m 100 (2^32 - 5) 20 0) as (E1 & E2 & _); [vm_compute; by split_and!|vm_compute; lia|unfold LONG_MIN, LONG_MAX; lia|].
  split; [exact E2|exact E1].
Defined.
