(* ===== verification/Hashtable.v ===== *)
(** * The hash table of the example store (examples/ukv/hashtable)

    Separate chaining with a prime number of buckets that grows when the load
    limit is exceeded.  The entries are records at addresses, linked by their
    [next] pointers; a table is the array of the first pointers.  The functions
    [hashfn] and [eqfn], which the program supplies, and the allocator are
    classes.  A dangling pointer stops with [OutOfBounds].  The loops over chains
    take fuel. *)

From S2P Require Export Alloc.

(** What the table asks of its client: the two functions on keys. *)
Class Keys := {
  hashfn : Z -> option Z;
  eqfn : Z -> Z -> option Z;
}.

Record entry := mk_entry { e_k : Z; e_v : Z; e_h : Z; e_next : Z }.
Definition entry_set_next (e : entry) (n : Z) : entry := mk_entry (e_k e) (e_v e) (e_h e) n.
Definition set_v (e : entry) (v : Z) : entry := mk_entry (e_k e) v (e_h e) (e_next e).

(** [struct hashtable], with its own address [self] and the address [tab] of the
    array; the function pointers are stored by the code and never read. *)
Record hashtable := mk_ht {
  self : Z; tab : Z;
  tablelength : Z; table : list Z; entrycount : Z; loadlimit : Z; primeindex : nat;
}.
Definition with_table (h : hashtable) (t : list Z) : hashtable :=
  mk_ht (self h) (tab h) (tablelength h) t (entrycount h) (loadlimit h) (primeindex h).
Definition with_entrycount (h : hashtable) (n : Z) : hashtable :=
  mk_ht (self h) (tab h) (tablelength h) (table h) n (loadlimit h) (primeindex h).

Definition primes : list Z := [
  53; 97; 193; 389;
  769; 1543; 3079; 6151;
  12289; 24593; 49157; 98317;
  196613; 393241; 786433; 1572869;
  3145739; 6291469; 12582917; 25165843;
  50331653; 100663319; 201326611; 402653189;
  805306457; 1610612741 ].
Definition prime_table_length : nat := length primes.

(** [n] rounded to [bits] significant bits, to nearest, ties to even. *)
Definition round_bits (bits n : Z) : Z :=
  let e := Z.log2 n + 1 - bits in
  if e <=? 0 then n
  else
    let q := Z.shiftr n e in
    let r := n - Z.shiftl q e in
    let half := Z.shiftl 1 (e - 1) in
    Z.shiftl (if (half <? r) || ((r =? half) && Z.odd q) then q + 1 else q) e.

(** [(unsigned int)(size * max_load_factor + 0.999999)]: the product is a [float]
    ([max_load_factor] is 10905190 / 2^24, the [float] nearest to 0.65), the sum a
    [double] (0.999999 is 9007190247541737 / 2^53). *)
Definition load_limit (size : Z) : Z :=
  let product := round_bits 24 (round_bits 24 size * 10905190) in
  Z.shiftr (round_bits 53 (Z.shiftl product 29 + 9007190247541737)) 53.

(** [for (pindex=0; ...) if (primes[pindex] > minsize) { size = ...; break; }] *)
Fixpoint find_prime (ps : list Z) (pindex : nat) (minsize : Z) : Z * nat :=
  match ps with
  | [] => (53, pindex)
  | p :: ps' => if minsize <? p then (p, pindex) else find_prime ps' (pindex + 1)%nat minsize
  end.

Definition indexFor (tablelength hashvalue : Z) : Z := hashvalue mod tablelength.

(** The supplementary hash, on 32 bits. *)
Definition mix (i : Z) : Z :=
  let i := u32 (i + u32 (Z.lnot (u32 (Z.shiftl i 9)))) in
  let i := Z.lxor i (Z.lor (Z.shiftr i 14) (u32 (Z.shiftl i 18))) in
  let i := u32 (i + u32 (Z.shiftl i 4)) in
  Z.lxor i (Z.lor (Z.shiftr i 10) (u32 (Z.shiftl i 22))).

Section Ops.
Context {S : Type} `{Allocator S} `{Keys} (al_realloc : S -> Z -> Z -> outcome (Z * S)).
Implicit Types (al : S) (E : gmap Z entry) (h : hashtable).

Definition sizeof_hashtable : Z := 48.
Definition sizeof_entry : Z := 32.
Definition sizeof_pointer : Z := 8.

Definition create_hashtable al (minsize : Z) : outcome (option hashtable * S) :=
  if 2^30 <? minsize then Ret (None, al)
  else
    let '(size, pindex) := find_prime primes 0 minsize in
    '(p, al) ← al_malloc al sizeof_hashtable;
    if p =? 0 then Ret (None, al)
    else
      '(t, al) ← al_malloc al (sizeof_pointer * size);
      if t =? 0 then al ← al_free al p; Ret (None, al)
      else Ret (Some (mk_ht p t size (replicate (Z.to_nat size) 0) 0 (load_limit size) pindex), al).

Definition hash (k : Z) : option Z :=
  i ← hashfn k; Some (mix i).

Definition deref E (a : Z) : outcome entry :=
  match E !! a with Some e => Ret e | None => Stop OutOfBounds end.

(** [while (NULL != (e = h->table[i])) ...]: the entries of a bucket move to the
    front of their new buckets. *)
Fixpoint expand_row (fuel : nat) (newsize i : Z) E (t newtable : list Z)
  : option (outcome (gmap Z entry * list Z * list Z)) :=
  match fuel with
  | O => None
  | Datatypes.S fuel' =>
      e ⇐ lift (arr_getZ t i);
      if e =? 0 then Some (Ret (E, t, newtable))
      else
        en ⇐ lift (deref E e);
        t ⇐ lift (arr_setZ t i (e_next en));
        let index := indexFor newsize (e_h en) in
        first ⇐ lift (arr_getZ newtable index);
        let E := <[e := entry_set_next en first]> E in
        newtable ⇐ lift (arr_setZ newtable index e);
        expand_row fuel' newsize i E t newtable
  end.

Fixpoint expand_rows (fuel n : nat) (newsize i : Z) E (t newtable : list Z)
  : option (outcome (gmap Z entry * list Z * list Z)) :=
  match n with
  | O => Some (Ret (E, t, newtable))
  | Datatypes.S n' =>
      '(E, t, newtable) ⇐ expand_row fuel newsize i E t newtable;
      expand_rows fuel n' newsize (i + 1) E t newtable
  end.

(** When [malloc] fails the table is reallocated ("plan B") and [memset] is called
    with [newtable\[tablelength\]], an uninitialised element, as the address. *)
Definition hashtable_expand (fuel : nat) al E h : option (outcome (Z * hashtable * gmap Z entry * S)) :=
  if decide (primeindex h = (prime_table_length - 1)%nat) then Some (Ret (0, h, E, al))
  else
    newsize ⇐ lift (arr_get primes (primeindex h + 1));
    '(nt, al) ⇐ lift (al_malloc al (sizeof_pointer * newsize));
    if negb (nt =? 0) then
      '(E, _, newtable) ⇐ expand_rows fuel (Z.to_nat (tablelength h)) newsize 0 E (table h) (replicate (Z.to_nat newsize) 0);
      al ⇐ lift (al_free al (tab h));
      Some (Ret (-1, mk_ht (self h) nt newsize newtable (entrycount h) (load_limit newsize) (primeindex h + 1), E, al))
    else
      '(nt, al) ⇐ lift (al_realloc al (tab h) (newsize * sizeof_pointer));
      if nt =? 0 then Some (Ret (0, h, E, al)) else Some (Stop OutOfBounds).

Definition hashtable_count h : Z := entrycount h.

(** The second part of [hashtable_insert]: the entry at [e] becomes the first of its
    bucket. *)
Definition insert_entry al E h (e k v : Z) : option (outcome (Z * hashtable * gmap Z entry * S)) :=
  hv ← hash k;
  let index := indexFor (tablelength h) hv in
  first ⇐ lift (arr_getZ (table h) index);
  let E := <[e := mk_entry k v hv first]> E in
  t ⇐ lift (arr_setZ (table h) index e);
  Some (Ret (-1, with_table h t, E, al)).

Definition hashtable_insert (fuel : nat) al E h (k v : Z) : option (outcome (Z * hashtable * gmap Z entry * S)) :=
  let h := with_entrycount h (u32 (entrycount h + 1)) in
  '(h, E, al) ⇐ (if loadlimit h <? entrycount h
                 then '(_, h, E, al) ⇐ hashtable_expand fuel al E h; Some (Ret (h, E, al))
                 else Some (Ret (h, E, al)));
  '(e, al) ⇐ lift (al_malloc al sizeof_entry);
  if e =? 0 then Some (Ret (0, with_entrycount h (u32 (entrycount h - 1)), E, al))
  else insert_entry al E h e k v.

(** The walk along a chain: the address of the entry of the key, or 0. *)
Fixpoint search_chain (fuel : nat) E (hashvalue k e : Z) : option (outcome Z) :=
  match fuel with
  | O => None
  | Datatypes.S fuel' =>
      if e =? 0 then Some (Ret 0)
      else
        en ⇐ lift (deref E e);
        b ← (if hashvalue =? e_h en then eqfn k (e_k en) else Some 0);
        if negb (b =? 0) then Some (Ret e) else search_chain fuel' E hashvalue k (e_next en)
  end.

Definition hashtable_search (fuel : nat) E h (k : Z) : option (outcome Z) :=
  hashvalue ← hash k;
  e ⇐ lift (arr_getZ (table h) (indexFor (tablelength h) hashvalue));
  e ⇐ search_chain fuel E hashvalue k e;
  if e =? 0 then Some (Ret 0) else en ⇐ lift (deref E e); Some (Ret (e_v en)).

(** [struct entry **pE]: the address of an element of the table or of the [next]
    field of an entry. *)
Inductive link := TableSlot (i : Z) | NextSlot (a : Z).

Definition write_slot E h (s : link) (p : Z) : outcome (gmap Z entry * hashtable) :=
  match s with
  | TableSlot i => t ← arr_setZ (table h) i p; Ret (E, with_table h t)
  | NextSlot a => e ← deref E a; Ret (<[a := entry_set_next e p]> E, h)
  end.

Fixpoint remove_chain (fuel : nat) al E h (hashvalue k : Z) (pE : link) (e : Z)
  : option (outcome (Z * hashtable * gmap Z entry * S)) :=
  match fuel with
  | O => None
  | Datatypes.S fuel' =>
      if e =? 0 then Some (Ret (0, h, E, al))
      else
        en ⇐ lift (deref E e);
        b ← (if hashvalue =? e_h en then eqfn k (e_k en) else Some 0);
        if negb (b =? 0) then
          '(E, h) ⇐ lift (write_slot E h pE (e_next en));
          let h := with_entrycount h (u32 (entrycount h - 1)) in
          let v := e_v en in
          al ⇐ lift (al_free al (e_k en));
          al ⇐ lift (al_free al e);
          Some (Ret (v, h, delete e E, al))
        else remove_chain fuel' al E h hashvalue k (NextSlot e) (e_next en)
  end.

Definition hashtable_remove (fuel : nat) al E h (k : Z) : option (outcome (Z * hashtable * gmap Z entry * S)) :=
  hashvalue ← hash k;
  let index := indexFor (tablelength h) hashvalue in
  e ⇐ lift (arr_getZ (table h) index);
  remove_chain fuel al E h hashvalue k (TableSlot index) e.

(** hashtable_utility.c *)
Definition hashtable_change (fuel : nat) al E h (k v : Z) : option (outcome (Z * gmap Z entry * S)) :=
  hashvalue ← hash k;
  e ⇐ lift (arr_getZ (table h) (indexFor (tablelength h) hashvalue));
  e ⇐ search_chain fuel E hashvalue k e;
  if e =? 0 then Some (Ret (0, E, al))
  else en ⇐ lift (deref E e);
       al ⇐ lift (al_free al (e_v en));
       Some (Ret (-1, <[e := set_v en v]> E, al)).

Fixpoint destroy_chain (fuel : nat) (free_values : bool) al E (e : Z) : option (outcome S) :=
  match fuel with
  | O => None
  | Datatypes.S fuel' =>
      if e =? 0 then Some (Ret al)
      else
        en ⇐ lift (deref E e);
        al ⇐ lift (al_free al (e_k en));
        al ⇐ lift (if free_values then al_free al (e_v en) else Ret al);
        al ⇐ lift (al_free al e);
        destroy_chain fuel' free_values al E (e_next en)
  end.

Fixpoint destroy_rows (fuel : nat) (free_values : bool) al E (t : list Z) : option (outcome S) :=
  match t with
  | [] => Some (Ret al)
  | e :: t' => al ⇐ destroy_chain fuel free_values al E e; destroy_rows fuel free_values al E t'
  end.

Definition hashtable_destroy (fuel : nat) al E h (free_values : bool) : option (outcome S) :=
  al ⇐ destroy_rows fuel free_values al E (table h);
  al ⇐ lift (al_free al (tab h));
  lift (al_free al (self h)).
End Ops.
