(* ===== verification/HashtableProps.v ===== *)
(** * The hash table implements a map

    The table represents a finite map from keys to values, provided its client
    inserts no key twice.  [KeyLaws] is what the client's functions [hashfn] and
    [eqfn] promise; the theorems say what every operation does to the map, that it
    frees exactly what it removes, and that the load stays below the limit. *)

From S2P Require Export Hashtable.

Class KeyLaws (Key : Type) `{Keys} := {
  denotes : Z -> Key -> Prop;          (* the key a pointer stands for *)
  khash : Key -> Z;
  denotes_hash : forall k s, denotes k s -> hashfn k = Some (khash s);
  denotes_eq : forall k1 k2 s1 s2, denotes k1 s1 -> denotes k2 s2 ->
    exists r, eqfn k1 k2 = Some r /\ (r <> 0 <-> s1 = s2);
}.

(** Updating one row of a list of lists. *)
Lemma concat_insert_perm {A} (rows : list (list A)) i l l' : rows !! i = Some l -> concat (<[i := l']> rows) ++ l ≡ₚ concat rows ++ l'.
Proof.
  revert i. induction rows as [|r rows IH]; intros [|i] Hi; cbn in *; [done..| |].
  - injection Hi as ->. rewrite (Permutation_app_comm l' _), (Permutation_app_comm l _), <- !app_assoc. by rewrite (Permutation_app_comm l l').
  - by rewrite <- !app_assoc, IH.
Qed.

Lemma concat_cons_perm {A} (rows : list (list A)) i x l : rows !! i = Some l -> concat (<[i := x :: l]> rows) ≡ₚ x :: concat rows.
Proof.
  intros Hi. apply (Permutation_app_inv_r l). rewrite (concat_insert_perm _ _ _ _ Hi). by rewrite <- Permutation_middle.
Qed.

Lemma app_cons_perm {A} (pre l : list A) x : pre ++ x :: l ≡ₚ x :: pre ++ l.
Proof. symmetry. apply Permutation_middle. Qed.

Lemma concat_remove_perm {A} (rows : list (list A)) i pre x l : rows !! i = Some (pre ++ x :: l) ->
  x :: concat (<[i := pre ++ l]> rows) ≡ₚ concat rows.
Proof.
  intros Hi. apply (Permutation_app_inv_r (pre ++ l)). rewrite <- (concat_insert_perm _ _ _ (pre ++ l) Hi), app_cons_perm. cbn. by rewrite Permutation_middle.
Qed.

Lemma concat_tail_perm {A} (rows : list (list A)) i x l : rows !! i = Some (x :: l) -> x :: concat (<[i := l]> rows) ≡ₚ concat rows.
Proof. apply (concat_remove_perm rows i []). Qed.

Lemma concat_elem {A} (rows : list (list A)) i l x : rows !! i = Some l -> x ∈ l -> x ∈ concat rows.
Proof. intros Hi Hx. apply list_elem_of_In, in_concat. exists l. split; apply list_elem_of_In; [by eapply list_elem_of_lookup_2|done]. Qed.

Lemma row_length {A} (rows : list (list A)) i l : rows !! i = Some l -> (length l <= length (concat rows))%nat.
Proof.
  intros Hi. pose proof (Permutation_length (concat_insert_perm rows i l [] Hi)) as E. rewrite !length_app in E. cbn in E. lia.
Qed.

Lemma concat_replicate_nil {A} n : concat (replicate n ([] : list A)) = [].
Proof. induction n; done. Qed.

(** ** Ownership of blocks

    The blocks of [l] are live and distinct; [R] is the rest of the live blocks. *)
Section Ownership.
Context {S : Type} `{AllocatorLaws S}.
Implicit Types (al : S) (R : gset Z) (l : list Z).

Record holds al R l : Prop := {
  h_nodup : NoDup l;
  h_live : al_live al = list_to_set l ∪ R;
  h_rest : forall x, x ∈ l -> x ∉ R;
}.

Lemma holds_perm al R l l' : l ≡ₚ l' -> holds al R l -> holds al R l'.
Proof. intros Hp [Hn Hl Hr]. split; [by rewrite <- Hp|by rewrite <- Hp|]. intros x Hx. apply Hr. by rewrite Hp. Qed.

#[global] Instance holds_proper al R : Proper (Permutation ==> iff) (holds al R).
Proof. intros l l' Hp. split; by apply holds_perm. Qed.

Lemma holds_malloc al R l n : holds al R l -> exists p al', al_malloc al n = Ret (p, al') /\ p <> 0 /\ holds al' R (p :: l).
Proof.
  intros [Hn Hl Hr]. destruct (malloc_total al n) as (p & al' & E). exists p, al'. split; [done|].
  destruct (malloc_fresh _ _ _ _ E) as (? & Hp & Hl'). split; [done|]. rewrite Hl in Hp, Hl'.
  split; [constructor; [set_solver|done]|rewrite Hl'; set_solver|set_solver].
Qed.

Lemma holds_free al R p l : holds al R (p :: l) -> exists al', al_free al p = Ret al' /\ holds al' R l.
Proof.
  intros [Hn Hl Hr]. apply NoDup_cons in Hn as [Hp Hn]. destruct (free_live al p) as (al' & E & Hl'); [rewrite Hl; set_solver|].
  exists al'. split; [done|]. split; [done|rewrite Hl', Hl; cbn; set_solver|set_solver].
Qed.

(** A block of the rest is taken over, a block is given back to the rest. *)
Lemma holds_take al R x l : holds al R l -> x ∈ R -> holds al (R ∖ {[x]}) (x :: l).
Proof.
  intros [Hn Hl Hr] Hx. split; [constructor; [set_solver|done]| |set_solver].
  rewrite Hl. cbn. rewrite (union_difference_singleton_L x R) at 1 by done. set_solver.
Qed.

Lemma holds_give al R x l : holds al R (x :: l) -> holds al ({[x]} ∪ R) l.
Proof. intros [Hn Hl Hr]. apply NoDup_cons in Hn as [Hp Hn]. split; [done|rewrite Hl; cbn; set_solver|set_solver]. Qed.
End Ownership.

Section Props.
Context {S : Type} `{AllocatorLaws S} {Key : Type} `{Countable Key} `{KeyLaws Key}.
Context (al_realloc : S -> Z -> Z -> outcome (Z * S)).
Implicit Types (al : S) (E : gmap Z entry) (h : hashtable) (M : gmap Key Z).

(** An entry of the table: its address, key pointer, key and value. *)
Record item := mk_item { it_a : Z; it_k : Z; it_s : Key; it_v : Z }.
Implicit Types (l : list item) (rows : list (list item)).

Definition keyhash (s : Key) : Z := mix (khash s).
Definition item_entry (it : item) (n : Z) : entry := mk_entry (it_k it) (it_v it) (keyhash (it_s it)) n.

(** The entries of [l] are linked from [p]. *)
Fixpoint linked E (p : Z) l : Prop :=
  match l with
  | [] => p = 0
  | it :: l' => p = it_a it /\ p <> 0 /\ denotes (it_k it) (it_s it) /\
      exists n, E !! p = Some (item_entry it n) /\ linked E n l'
  end.

Lemma hash_denotes k s : denotes k s -> hash k = Some (keyhash s).
Proof. intros Hk. unfold hash. by rewrite (denotes_hash k s Hk). Qed.

Lemma linked_ext E E' p l : (forall it, it ∈ l -> E' !! it_a it = E !! it_a it) -> linked E p l -> linked E' p l.
Proof.
  revert p. induction l as [|it l IH]; intros p HE Hc; [done|]. destruct Hc as (-> & ? & ? & n & Hn & Hc).
  cbn. split_and!; [done..|]. exists n. split; [rewrite HE by left; done|]. apply IH; [|done]. intros; apply HE; by right.
Qed.

Lemma linked_frame E p l a e : linked E p l -> a ∉ (it_a <$> l) -> linked (<[a := e]> E) p l.
Proof.
  intros Hc Ha. eapply linked_ext; [|exact Hc]. intros it Hit. apply lookup_insert_ne. intros ->. apply Ha. by apply list_elem_of_fmap_2.
Qed.

Lemma linked_frame_delete E p l a : linked E p l -> a ∉ (it_a <$> l) -> linked (delete a E) p l.
Proof.
  intros Hc Ha. eapply linked_ext; [|exact Hc]. intros it Hit. apply lookup_delete_ne. intros ->. apply Ha. by apply list_elem_of_fmap_2.
Qed.

(** A table whose buckets hold the items of [rows], each in the bucket of its hash. *)
Record buckets E (t : list Z) (len : Z) rows : Prop := {
  bk_chains : Forall2 (linked E) t rows;
  bk_len : Z.of_nat (length rows) = len;
  bk_index : forall i l it, rows !! i = Some l -> it ∈ l -> indexFor len (keyhash (it_s it)) = Z.of_nat i;
}.

Lemma chains_frame E (t : list Z) rows a e : Forall2 (linked E) t rows -> a ∉ (it_a <$> concat rows) -> Forall2 (linked (<[a := e]> E)) t rows.
Proof.
  induction 1 as [|p l t rows Hc Hcs IH]; intros Ha; constructor; cbn in Ha; rewrite fmap_app, elem_of_app in Ha.
  - apply linked_frame; naive_solver.
  - apply IH. naive_solver.
Qed.

(** ** Searching *)

(** The test of a chain element: the stored hash first, then the keys. *)
Lemma key_test k s it : denotes k s -> denotes (it_k it) (it_s it) ->
  exists b, (if keyhash s =? keyhash (it_s it) then eqfn k (it_k it) else Some 0) = Some b /\ (b <> 0 <-> s = it_s it).
Proof.
  intros Hk Hit. destruct (denotes_eq k (it_k it) s (it_s it) Hk Hit) as (r & Hr & Heq).
  destruct (Z.eqb_spec (keyhash s) (keyhash (it_s it))) as [_|Hne]; [by exists r|]. exists 0. split; [done|]. split; [done|]. by intros ->.
Qed.

Lemma search_chain_spec fuel E p l k s : linked E p l -> denotes k s -> (length l < fuel)%nat ->
  exists e, search_chain fuel E (keyhash s) k p = Some (Ret e) /\
    ((e = 0 /\ s ∉ (it_s <$> l)) \/
     exists it n, it ∈ l /\ it_s it = s /\ e = it_a it /\ e <> 0 /\ E !! e = Some (item_entry it n)).
Proof.
  revert p fuel. induction l as [|it l IH]; intros p [|fuel] Hc Hk Hf; cbn [length] in Hf; try lia; cbn [linked] in Hc; cbn [search_chain].
  - subst p. exists 0. split; [done|]. left. split; [done|]. by intros ?%elem_of_nil.
  - destruct Hc as (-> & Hp & Hit & n & Hn & Hc). rewrite (proj2 (Z.eqb_neq (it_a it) 0)) by done. unfold deref. rewrite Hn. cbn [lift fbind].
    cbn [item_entry e_h e_k e_next]. destruct (key_test k s it Hk Hit) as (b & -> & Hb). cbn [mbind option_bind]. destruct (Z.eqb_spec b 0) as [->|Hb0]; cbn [negb].
    + destruct (IH n fuel Hc Hk ltac:(lia)) as (e & -> & He). exists e. split; [done|]. destruct He as [[-> He]|(it' & n' & ? & ?)].
      * left. split; [done|]. cbn. apply not_elem_of_cons. split; [tauto|done].
      * right. exists it', n'. split; [by right|done].
    + exists (it_a it). split; [done|]. right. exists it, n. split_and!; [by left|symmetry; tauto|done..].
Qed.

Lemma arr_getZ_lookup {A} (t : list A) (i : Z) x : 0 <= i -> t !! Z.to_nat i = Some x -> arr_getZ t i = Ret x.
Proof. intros Hi Hx. unfold arr_getZ. rewrite (proj2 (Z.ltb_ge i 0)) by done. by apply arr_get_Ret. Qed.

Lemma arr_setZ_lt {A} (t : list A) (i : Z) x : 0 <= i -> (Z.to_nat i < length t)%nat -> arr_setZ t i x = Ret (<[Z.to_nat i := x]> t).
Proof. intros Hi Hx. unfold arr_setZ. rewrite (proj2 (Z.ltb_ge i 0)) by done. by apply arr_set_lt. Qed.

(** The bucket of a key. *)
Lemma bucket_get E t len rows s : buckets E t len rows -> 0 < len ->
  let i := indexFor len (keyhash s) in
  0 <= i /\ (Z.to_nat i < length t)%nat /\ exists p l, t !! Z.to_nat i = Some p /\ rows !! Z.to_nat i = Some l /\ linked E p l.
Proof.
  intros [Hc Hl Hi] Hlen i. pose proof (Z.mod_pos_bound (keyhash s) len Hlen) as Hb. fold (indexFor len (keyhash s)) in Hb. fold i in Hb.
  pose proof (Forall2_length _ _ _ Hc) as Hlt. split_and!; [lia|lia|].
  destruct (lookup_lt_is_Some_2 t (Z.to_nat i) ltac:(lia)) as [p Hp].
  destruct (Forall2_lookup_l _ _ _ _ _ Hc Hp) as (l & Hrow & Hch). by exists p, l.
Qed.

(** A key is only in its own bucket. *)
Lemma bucket_only E t len rows s l : buckets E t len rows -> 0 < len ->
  rows !! Z.to_nat (indexFor len (keyhash s)) = Some l -> s ∉ (it_s <$> l) -> s ∉ (it_s <$> concat rows).
Proof.
  intros [Hc Hl Hi] Hlen Hrow Hs (it & -> & Hin)%list_elem_of_fmap.
  apply list_elem_of_In, in_concat in Hin as (l' & Hl' & Hit). apply list_elem_of_In in Hl', Hit.
  apply list_elem_of_lookup in Hl' as [j Hj]. rewrite (Hi j l' it Hj Hit), Nat2Z.id, Hj in Hrow. injection Hrow as ->.
  apply Hs. by apply list_elem_of_fmap_2.
Qed.

(** The map of a list of items. *)
Definition to_map l : gmap Key Z := list_to_map ((fun it => (it_s it, it_v it)) <$> l).

Lemma fmap_keys l : ((fun it => (it_s it, it_v it)) <$> l).*1 = it_s <$> l.
Proof. by rewrite <- list_fmap_compose. Qed.

Lemma to_map_None l s : to_map l !! s = None <-> s ∉ (it_s <$> l).
Proof. unfold to_map. rewrite <- fmap_keys. symmetry. apply not_elem_of_list_to_map. Qed.

Lemma to_map_Some l it : NoDup (it_s <$> l) -> it ∈ l -> to_map l !! it_s it = Some (it_v it).
Proof.
  intros Hnd Hit. apply elem_of_list_to_map; [by rewrite fmap_keys|]. by apply (list_elem_of_fmap_2 (fun it => (it_s it, it_v it))).
Qed.

Lemma to_map_perm l l' : NoDup (it_s <$> l) -> l ≡ₚ l' -> to_map l = to_map l'.
Proof. intros Hnd Hp. apply list_to_map_proper; [by rewrite fmap_keys|]. by rewrite Hp. Qed.

(** ** Growing the table *)

(** Moving the first entry of a chain to the front of another bucket. *)
Lemma buckets_push E nt len rn it n j : buckets E nt len rn -> 0 < len -> indexFor len (keyhash (it_s it)) = j ->
  it_a it ∉ (it_a <$> concat rn) -> it_a it <> 0 -> denotes (it_k it) (it_s it) -> nt !! Z.to_nat j = Some n ->
  exists l, rn !! Z.to_nat j = Some l /\
    buckets (<[it_a it := item_entry it n]> E) (<[Z.to_nat j := it_a it]> nt) len (<[Z.to_nat j := it :: l]> rn).
Proof.
  intros [Hc Hl Hi] Hlen Hj Hnot Hnz Hd Hn. destruct (Forall2_lookup_l _ _ _ _ _ Hc Hn) as (l & Hrow & Hch). exists l. split; [done|].
  pose proof (Z.mod_pos_bound (keyhash (it_s it)) len Hlen) as Hb. unfold indexFor in Hj.
  split; [|by rewrite length_insert|].
  - apply Forall2_insert; [by apply chains_frame|]. cbn. split_and!; [done..|]. exists n. split; [by rewrite lookup_insert_eq|].
    apply linked_frame; [done|]. intros (x & Ex & Hx)%list_elem_of_fmap. apply Hnot. rewrite Ex. apply list_elem_of_fmap_2. by eapply concat_elem.
  - intros i l' it' Hi' Hit'. destruct (decide (i = Z.to_nat j)) as [->|Hne].
    + rewrite list_lookup_insert_eq in Hi' by (by eapply lookup_lt_Some). injection Hi' as <-.
      apply elem_of_cons in Hit' as [->|Hit']; [unfold indexFor; lia|by eapply Hi].
    + rewrite list_lookup_insert_ne in Hi' by done. by eapply Hi.
Qed.

(** The state of the expansion: old rows [ro] and new rows [rn]. *)
Record moving E (t : list Z) (ro : list (list item)) (nt : list Z) newsize (rn : list (list item)) : Prop := {
  mv_old : Forall2 (linked E) t ro;
  mv_new : buckets E nt newsize rn;
  mv_nodup : NoDup (it_a <$> concat ro ++ concat rn);
}.

Lemma expand_step E t ro nt newsize rn i it l : moving E t ro nt newsize rn -> 0 < newsize -> ro !! i = Some (it :: l) ->
  exists n first, t !! i = Some (it_a it) /\ it_a it <> 0 /\ E !! it_a it = Some (item_entry it n) /\
    let j := indexFor newsize (keyhash (it_s it)) in
    0 <= j /\ nt !! Z.to_nat j = Some first /\
    exists rn', moving (<[it_a it := item_entry it first]> E) (<[i := n]> t) (<[i := l]> ro) (<[Z.to_nat j := it_a it]> nt) newsize rn' /\
      concat (<[i := l]> ro) ++ concat rn' ≡ₚ concat ro ++ concat rn.
Proof.
  intros [Ho Hn Hnd] Hlen Hrow. destruct (Forall2_lookup_r _ _ _ _ _ Ho Hrow) as (p & Hp & Hch).
  destruct Hch as (-> & Hnz & Hd & n & HE & Hch).
  destruct (bucket_get E nt newsize rn (it_s it) Hn Hlen) as (Hj0 & Hjl & first & lj & Hfirst & Hrj & Hcj).
  exists n, first. do 3 (split; [done|]). intros j. fold j in Hj0, Hjl, Hfirst, Hrj. do 2 (split; [done|]).
  pose proof (concat_tail_perm ro i it l Hrow) as Hperm.
  rewrite <- Hperm in Hnd. cbn in Hnd. apply NoDup_cons in Hnd as [Hnot Hnd]. rewrite fmap_app, elem_of_app in Hnot.
  destruct (buckets_push E nt newsize rn it first j) as (l2 & Hl2 & Hb2); [done|done|done|tauto|done..|].
  assert (Hperm2 : concat (<[i := l]> ro) ++ concat (<[Z.to_nat j := it :: l2]> rn) ≡ₚ concat ro ++ concat rn).
  { rewrite (concat_cons_perm rn _ it l2 Hl2), <- Permutation_middle. by rewrite <- Hperm. }
  exists (<[Z.to_nat j := it :: l2]> rn). split; [|done]. split; [|done|].
  - apply chains_frame; [|tauto]. by apply Forall2_insert.
  - rewrite Hperm2, <- Hperm. cbn. apply NoDup_cons. split; [|done]. by rewrite fmap_app, elem_of_app.
Qed.

Lemma expand_row_spec newsize i : 0 < newsize -> 0 <= i -> forall l fuel E t ro nt rn, moving E t ro nt newsize rn ->
  ro !! Z.to_nat i = Some l -> (length l < fuel)%nat ->
  exists E' t' nt' rn', expand_row fuel newsize i E t nt = Some (Ret (E', t', nt')) /\
    moving E' t' (<[Z.to_nat i := []]> ro) nt' newsize rn' /\
    concat (<[Z.to_nat i := []]> ro) ++ concat rn' ≡ₚ concat ro ++ concat rn.
Proof.
  intros Hlen Hi. induction l as [|it l IH]; intros [|fuel] E t ro nt rn Hm Hrow Hf; cbn [length] in Hf; try lia; cbn [expand_row].
  - destruct (Forall2_lookup_r _ _ _ _ _ (mv_old _ _ _ _ _ _ Hm) Hrow) as (p & Hp & Hch). cbn in Hch. subst p.
    rewrite (arr_getZ_lookup _ _ _ Hi Hp). cbn [lift fbind]. exists E, t, nt, rn. rewrite list_insert_id by done. done.
  - destruct (expand_step E t ro nt newsize rn _ it l Hm Hlen Hrow) as (n & first & Ht & Hnz & HE & Hj & Hfirst & rn' & Hm' & Hperm).
    rewrite (arr_getZ_lookup _ _ _ Hi Ht). cbn [lift fbind]. rewrite (proj2 (Z.eqb_neq _ _)) by done.
    unfold deref. rewrite HE. cbn [lift fbind]. rewrite arr_setZ_lt by (done || by eapply lookup_lt_Some). cbn [lift fbind item_entry e_h e_next].
    rewrite (arr_getZ_lookup _ _ _ Hj Hfirst). cbn [lift fbind]. rewrite arr_setZ_lt by (done || by eapply lookup_lt_Some). cbn [lift fbind].
    change (entry_set_next _ first) with (item_entry it first).
    destruct (IH fuel _ _ _ _ rn' Hm') as (E' & t' & nt' & rn2 & -> & Hm2 & Hp2); [by apply list_lookup_insert_eq; eapply lookup_lt_Some|lia|].
    exists E', t', nt', rn2. rewrite list_insert_insert_eq in Hm2, Hp2. split_and!; [done..|]. by rewrite Hp2.
Qed.

Lemma expand_rows_spec newsize fuel : 0 < newsize -> forall n i E t ro nt rn, moving E t ro nt newsize rn -> 0 <= i ->
  (Z.to_nat i + n = length ro)%nat -> (forall j, (j < Z.to_nat i)%nat -> ro !! j = Some []) -> (length (concat ro) < fuel)%nat ->
  exists E' t' nt' rn', expand_rows fuel n newsize i E t nt = Some (Ret (E', t', nt')) /\
    buckets E' nt' newsize rn' /\ concat rn' ≡ₚ concat ro ++ concat rn.
Proof.
  intros Hlen. induction n as [|n IH]; intros i E t ro nt rn Hm Hi Hn Hdone Hf; cbn [expand_rows].
  - exists E, t, nt, rn. split_and!; [done|apply Hm|]. replace (concat ro) with ([] : list item); [done|].
    symmetry. apply concat_nil_Forall, Forall_forall. intros r Hr. apply list_elem_of_lookup in Hr as [j Hj].
    pose proof (lookup_lt_Some _ _ _ Hj). rewrite Hdone in Hj by lia. by injection Hj.
  - destruct (lookup_lt_is_Some_2 ro (Z.to_nat i) ltac:(lia)) as [l Hl]. pose proof (row_length _ _ _ Hl) as Hll.
    destruct (expand_row_spec newsize i Hlen Hi l fuel E t ro nt rn Hm Hl ltac:(lia)) as (E1 & t1 & nt1 & rn1 & -> & Hm1 & Hp1). cbn [fbind].
    destruct (IH (i + 1) E1 t1 _ nt1 rn1 Hm1) as (E2 & t2 & nt2 & rn2 & -> & Hb2 & Hp2); [lia|rewrite length_insert; lia| | |].
    + intros j Hj. destruct (decide (j = Z.to_nat i)) as [->|]; [apply list_lookup_insert_eq; lia|].
      rewrite list_lookup_insert_ne by done. apply Hdone. lia.
    + pose proof (Permutation_length (concat_insert_perm ro _ l [] Hl)) as El. rewrite !length_app in El. cbn in El. lia.
    + exists E2, t2, nt2, rn2. split_and!; [done..|]. by rewrite Hp2, Hp1.
Qed.

(** ** The table represents a map *)

Definition item_blocks (it : item) : list Z := [it_a it; it_k it; it_v it].
Definition owned h l : list Z := self h :: tab h :: (l ≫= item_blocks).

Record table_ok E h rows : Prop := {
  ok_buckets : buckets E (table h) (tablelength h) rows;
  ok_prime : primes !! primeindex h = Some (tablelength h);
  ok_limit : loadlimit h = load_limit (tablelength h);
  ok_keys : NoDup (it_s <$> concat rows);
}.

(** The map [M], in blocks of its own; the other live blocks are [R].  The load
    is below the limit unless the table has reached its largest size. *)
Record represents al E h M (R : gset Z) : Prop := {
  rep_rows : exists rows, table_ok E h rows /\ holds al R (owned h (concat rows)) /\
    M = to_map (concat rows) /\ entrycount h = Z.of_nat (length (concat rows));
  rep_load : primeindex h = (prime_table_length - 1)%nat \/ entrycount h <= loadlimit h;
}.

Lemma owned_addrs h l : NoDup (owned h l) -> NoDup (it_a <$> l).
Proof.
  intros (_ & (_ & Hn)%NoDup_cons)%NoDup_cons. induction l as [|it l IH]; cbn in *; [constructor|].
  apply NoDup_cons in Hn as [Hit Hn]. do 2 apply NoDup_cons in Hn as [_ Hn]. constructor; [|by apply IH].
  intros (x & Ex & Hx)%list_elem_of_fmap. apply Hit. do 2 right. apply list_elem_of_bind. exists x. split; [|done]. rewrite Ex. by left.
Qed.

Lemma owned_perm h l l' : l ≡ₚ l' -> owned h l ≡ₚ owned h l'.
Proof. intros Hp. unfold owned. by rewrite Hp. Qed.

Lemma owned_cons h it l : owned h (it :: l) ≡ₚ it_v it :: it_k it :: it_a it :: owned h l.
Proof.
  unfold owned. rewrite bind_cons.
  apply (Permutation_app_tail (l ≫= item_blocks) (l := [self h; tab h; it_a it; it_k it; it_v it]) (l' := [it_v it; it_k it; it_a it; self h; tab h])).
  rewrite (Permutation_app_comm [self h; tab h] [it_a it; it_k it; it_v it]).
  apply (Permutation_app_tail [self h; tab h] (Permutation_rev [it_a it; it_k it; it_v it])).
Qed.

Lemma primes_pos i p : primes !! i = Some p -> 0 < p.
Proof. intros Hp. apply list_elem_of_lookup_2 in Hp. revert p Hp. apply Forall_forall. repeat constructor. Qed.

Lemma empty_buckets E n : 0 < n -> buckets E (replicate (Z.to_nat n) 0) n (replicate (Z.to_nat n) []).
Proof.
  intros Hn. split; [|rewrite length_replicate; lia|].
  - apply Forall2_replicate. done.
  - intros i l it Hi Hit. apply lookup_replicate in Hi as [-> _]. by apply elem_of_nil in Hit.
Qed.


(** Every expansion raises the load limit. *)
Lemma limits_grow i p q : primes !! i = Some p -> primes !! (i + 1)%nat = Some q -> load_limit p < load_limit q.
Proof.
  intros Hp Hq. assert (Hall : forallb (fun i => load_limit (nth i primes 0) <? load_limit (nth (i + 1) primes 0)) (seq 0 25) = true)
    by (vm_compute; reflexivity).
  rewrite forallb_forall in Hall. pose proof (lookup_lt_Some _ _ _ Hq) as Hlt. change (length primes) with 26%nat in Hlt.
  specialize (Hall i ltac:(apply in_seq; lia)). rewrite !nth_lookup, Hp, Hq in Hall. by apply Z.ltb_lt.
Qed.

Lemma hashtable_expand_spec fuel al E h R rows : table_ok E h rows -> holds al R (owned h (concat rows)) -> (length (concat rows) < fuel)%nat ->
  exists r h' E' al' rows', hashtable_expand al_realloc fuel al E h = Some (Ret (r, h', E', al')) /\
    table_ok E' h' rows' /\ holds al' R (owned h' (concat rows')) /\ concat rows' ≡ₚ concat rows /\
    entrycount h' = entrycount h /\
    (primeindex h' = (prime_table_length - 1)%nat \/ primeindex h <> (prime_table_length - 1)%nat /\ loadlimit h < loadlimit h').
Proof.
  intros [Hb Hpr Hlim Hkeys] Hh Hf. unfold hashtable_expand. case_decide as Hmax.
  { exists 0, h, E, al, rows. split_and!; try done. by left. }
  assert (Hlt : (primeindex h + 1 < 26)%nat).
  { pose proof (lookup_lt_Some _ _ _ Hpr) as Hlt. change (length primes) with 26%nat in Hlt. unfold prime_table_length in Hmax. cbn in Hmax. lia. }
  destruct (arr_get_lt primes (primeindex h + 1) Hlt) as (newsize & Hnew & ->). cbn [lift fbind].
  pose proof (primes_pos _ _ Hnew) as Hpos. pose proof (primes_pos _ _ Hpr) as Hpos0.
  destruct (holds_malloc al R _ (sizeof_pointer * newsize) Hh) as (nt & al1 & -> & Hnt & Hh1). cbn [lift fbind].
  rewrite (proj2 (Z.eqb_neq nt 0)) by done. cbn [negb].
  destruct (expand_rows_spec newsize fuel Hpos (Z.to_nat (tablelength h)) 0 E (table h) rows (replicate (Z.to_nat newsize) 0) (replicate (Z.to_nat newsize) []))
    as (E' & t' & newtable & rows' & -> & Hb' & Hp'); [|lia| |intros; lia|done|].
  - split; [apply Hb|by apply empty_buckets|]. rewrite concat_replicate_nil, app_nil_r. eapply owned_addrs, h_nodup, Hh.
  - rewrite <- (bk_len _ _ _ _ Hb), Nat2Z.id. done.
  - cbn [fbind]. rewrite concat_replicate_nil, app_nil_r in Hp'.
    destruct (holds_free al1 R (tab h) (self h :: nt :: (concat rows ≫= item_blocks))) as (al2 & -> & Hh2).
    { eapply holds_perm; [|exact Hh1]. exact (Permutation_app_tail _ (Permutation_rev [nt; self h; tab h])). }
    cbn [lift fbind]. do 4 eexists. exists rows'. split; [done|]. split; [|split_and!; [|done|done|]].
    + split; [done|done|done|]. cbn. by rewrite Hp'.
    + unfold owned. cbn [self tab]. by rewrite Hp'.
    + right. split; [done|]. cbn [loadlimit]. rewrite Hlim. by eapply limits_grow.
Qed.

(** ** The operations on the map *)

Lemma to_map_size l : NoDup (it_s <$> l) -> size (to_map l) = length l.
Proof. intros Hn. unfold to_map. rewrite map_size_list_to_map by (by rewrite fmap_keys). apply length_fmap. Qed.

Lemma represents_size al E h M R : represents al E h M R -> entrycount h = Z.of_nat (size M).
Proof. intros [(rows & Hok & _ & -> & ->) _]. by rewrite to_map_size by apply Hok. Qed.

Lemma hashtable_search_spec fuel al E h M R k s : represents al E h M R -> denotes k s -> (size M < fuel)%nat ->
  hashtable_search fuel E h k = Some (Ret (default 0 (M !! s))).
Proof.
  intros [(rows & [Hb Hpr Hlim Hkeys] & Hh & -> & Hc) _] Hk Hf. rewrite to_map_size in Hf by done. unfold hashtable_search. rewrite (hash_denotes k s Hk).
  cbn [mbind option_bind]. pose proof (primes_pos _ _ Hpr) as Hpos.
  destruct (bucket_get E (table h) (tablelength h) rows s Hb Hpos) as (Hi & Hil & p & l & Hp & Hl & Hch).
  rewrite (arr_getZ_lookup _ _ _ Hi Hp). cbn [lift fbind].
  destruct (search_chain_spec fuel E p l k s Hch Hk) as (e & -> & He); [pose proof (row_length _ _ _ Hl); lia|]. cbn [fbind].
  destruct He as [[-> Hs]|(it & n & Hit & <- & -> & Hnz & HE)].
  - rewrite (proj2 (to_map_None (concat rows) s)); [done|]. by eapply bucket_only.
  - rewrite (proj2 (Z.eqb_neq _ _)) by done. unfold deref. rewrite HE. cbn [lift fbind item_entry e_v].
    rewrite (to_map_Some _ it); [done|done|]. by eapply concat_elem.
Qed.

Lemma to_map_cons it l : to_map (it :: l) = <[it_s it := it_v it]> (to_map l).
Proof. done. Qed.

(** The entry of a new key goes to the front of its bucket. *)
Lemma insert_entry_spec al E h R rows k v s : table_ok E h rows -> holds al R (owned h (concat rows)) -> denotes k s ->
  s ∉ (it_s <$> concat rows) -> k ∈ R -> v ∈ R -> k <> v ->
  exists e al' h' E' rows', al_malloc al sizeof_entry = Ret (e, al') /\ e <> 0 /\
    insert_entry al' E h e k v = Some (Ret (-1, h', E', al')) /\
    table_ok E' h' rows' /\ holds al' (R ∖ {[k; v]}) (owned h' (concat rows')) /\
    concat rows' ≡ₚ mk_item e k s v :: concat rows /\
    entrycount h' = entrycount h /\ loadlimit h' = loadlimit h /\ primeindex h' = primeindex h.
Proof.
  intros [Hb Hpr Hlim Hkeys] Hh Hk Hs HkR HvR Hkv. pose proof (primes_pos _ _ Hpr) as Hpos.
  destruct (holds_malloc al R _ sizeof_entry Hh) as (e & al' & Emal & He & Hh1).
  set (it := mk_item e k s v). set (j := indexFor (tablelength h) (keyhash s)).
  destruct (bucket_get E (table h) (tablelength h) rows s Hb Hpos) as (Hi & Hil & p & l0 & Hp & Hl & Hch). fold j in Hi, Hil, Hp, Hl.
  destruct (buckets_push E (table h) (tablelength h) rows it p j) as (l & Hl' & Hb'); [done|done|done| |done|done|done|].
  { intros (x & Ex & Hx)%list_elem_of_fmap. pose proof (h_nodup _ _ _ Hh1) as Hnd. apply NoDup_cons in Hnd as [Hnot _]. apply Hnot.
    do 2 right. apply list_elem_of_bind. exists x. split; [cbn in Ex; rewrite Ex; by left|done]. }
  assert (Hperm := concat_cons_perm rows _ it l Hl').
  eexists e, al', _, _, (<[Z.to_nat j := it :: l]> rows). do 2 (split; [done|]).
  unfold insert_entry. rewrite (hash_denotes k s Hk). cbn [mbind option_bind]. fold j. rewrite (arr_getZ_lookup _ _ _ Hi Hp). cbn [lift fbind].
  rewrite arr_setZ_lt by done. cbn [lift fbind]. split; [done|]. split; [split; [exact Hb'|done|done|]|split_and!; [|done..]].
  - rewrite Hperm. cbn. by constructor.
  - rewrite (owned_perm _ _ _ Hperm), owned_cons. cbn [it_v it_k it_a]. replace (R ∖ {[k; v]}) with (R ∖ {[k]} ∖ {[v]}) by set_solver.
    apply holds_take; [by apply holds_take|]. set_solver.
Qed.

Lemma table_ok_count E h rows n : table_ok E h rows -> table_ok E (with_entrycount h n) rows.
Proof. by intros []. Qed.

Lemma hashtable_insert_spec fuel al E h M R k v s : represents al E h M R -> denotes k s -> M !! s = None ->
  k ∈ R -> v ∈ R -> k <> v -> (size M < fuel)%nat -> Z.of_nat (size M) + 1 < 2^32 ->
  exists h' E' al', hashtable_insert al_realloc fuel al E h k v = Some (Ret (-1, h', E', al')) /\
    represents al' E' h' (<[s := v]> M) (R ∖ {[k; v]}).
Proof.
  intros [(rows & Hok & Hh & -> & Hc) Hload] Hk Hs HkR HvR Hkv Hf Hmax. rewrite to_map_size in Hf, Hmax by apply Hok.
  unfold hashtable_insert. rewrite u32_small by lia. set (h1 := with_entrycount h (entrycount h + 1)).
  assert (Hgrow : exists h2 E2 al2 rows2,
    (if loadlimit h1 <? entrycount h1 then '(_, h, E, al) ⇐ hashtable_expand al_realloc fuel al E h1; Some (Ret (h, E, al)) else Some (Ret (h1, E, al)))
      = Some (Ret (h2, E2, al2)) /\
    table_ok E2 h2 rows2 /\ holds al2 R (owned h2 (concat rows2)) /\ concat rows2 ≡ₚ concat rows /\ entrycount h2 = entrycount h + 1 /\
    (primeindex h2 = (prime_table_length - 1)%nat \/ entrycount h2 <= loadlimit h2)).
  { pose proof (table_ok_count E h rows (entrycount h + 1) Hok) as Hok1. fold h1 in Hok1. destruct (Z.ltb_spec (loadlimit h1) (entrycount h1)) as [Hgt|Hle].
    - destruct (hashtable_expand_spec fuel al E h1 R rows Hok1 Hh Hf) as (r & h2 & E2 & al2 & rows2 & -> & Hok2 & Hh2 & Hp & Hn & Hl).
      exists h2, E2, al2, rows2. cbn [fbind]. split_and!; try done. destruct Hl as [?|[Hne Hl]]; [by left|]. unfold h1 in *. cbn in Hl, Hn, Hne.
      destruct Hload as [?|?]; [done|right; lia].
    - exists h1, E, al, rows. split_and!; try done. by right. }
  destruct Hgrow as (h2 & E2 & al2 & rows2 & -> & Hok2 & Hh2 & Hp & Hn & Hl). cbn [fbind].
  destruct (insert_entry_spec al2 E2 h2 R rows2 k v s) as (e & al3 & h3 & E3 & rows3 & -> & He & Hins & Hok3 & Hh3 & Hp3 & Hn3 & Hl3 & Hpi3); try done.
  { rewrite Hp. by apply to_map_None. }
  cbn [lift fbind]. rewrite (proj2 (Z.eqb_neq e 0)), Hins by done. exists h3, E3, al3. split; [done|]. split.
  - exists rows3. split_and!; [done|done| |].
    + rewrite (to_map_perm _ _ (ok_keys _ _ _ Hok3) Hp3), to_map_cons. cbn. f_equal. symmetry. apply to_map_perm; [apply Hok2|done].
    + rewrite Hn3, Hn, Hc, Hp3. cbn. rewrite Hp. lia.
  - rewrite Hpi3, Hn3, Hl3. done.
Qed.

(** The client may free any block that is not the table's. *)
Lemma represents_free al E h M R x : represents al E h M R -> x ∈ R -> exists al', al_free al x = Ret al' /\ represents al' E h M (R ∖ {[x]}).
Proof.
  intros [(rows & Hok & Hh & ? & ?) Hload] Hx. destruct (holds_free _ _ _ _ (holds_take _ _ _ _ Hh Hx)) as (al' & -> & Hh').
  exists al'. split; [done|]. split; [|done]. by exists rows.
Qed.

(** ** Removing *)

(** The link that leads to what follows [pre] in bucket [i]. *)
Definition slot_of (i : Z) (pre : list item) : link :=
  match last pre with None => TableSlot i | Some b => NextSlot (it_a b) end.

Lemma slot_of_snoc i pre b : slot_of i (pre ++ [b]) = NextSlot (it_a b).
Proof. unfold slot_of. by rewrite last_snoc. Qed.

Lemma linked_lookup E p pre it l : linked E p (pre ++ it :: l) -> exists n, it_a it <> 0 /\ denotes (it_k it) (it_s it) /\
  E !! it_a it = Some (item_entry it n) /\ linked E n l.
Proof.
  revert p. induction pre as [|b pre IH]; intros p Hc; cbn in Hc; destruct Hc as (-> & ? & ? & n & ? & Hc); [by exists n|by eapply IH].
Qed.

(** Taking an entry out of a chain by redirecting the link to it. *)
Lemma linked_unlink E p pre b it l n : linked E p (pre ++ b :: it :: l) -> NoDup (it_a <$> pre ++ b :: it :: l) ->
  E !! it_a it = Some (item_entry it n) -> linked (<[it_a b := item_entry b n]> E) p (pre ++ b :: l).
Proof.
  revert p. induction pre as [|c pre IH]; intros p Hc Hnd Hn; cbn in Hc, Hnd; destruct Hc as (-> & Hz & Hd & m & Hm & Hc); apply NoDup_cons in Hnd as [Hnot Hnd].
  - destruct Hc as (-> & _ & _ & n' & Hn' & Hc). rewrite Hn in Hn'. injection Hn' as <-. cbn. split_and!; [done..|].
    exists n. split; [by rewrite lookup_insert_eq|]. apply linked_frame; [done|]. set_solver.
  - cbn. split_and!; [done..|]. exists m. split; [|by apply IH]. rewrite lookup_insert_ne; [done|]. intros Eb. apply Hnot.
    rewrite <- Eb. apply list_elem_of_fmap_2. set_solver.
Qed.

Lemma remove_chain_walk i k s E h : denotes k s -> forall l pre p fuel al, linked E p l -> (length l < fuel)%nat ->
  ((s ∉ (it_s <$> l)) /\ remove_chain fuel al E h (keyhash s) k (slot_of i pre) p = Some (Ret (0, h, E, al))) \/
  exists l1 it l2 n, l = l1 ++ it :: l2 /\ it_s it = s /\ E !! it_a it = Some (item_entry it n) /\ linked E n l2 /\
    remove_chain fuel al E h (keyhash s) k (slot_of i pre) p =
      ('(E, h) ⇐ lift (write_slot E h (slot_of i (pre ++ l1)) n);
       al ⇐ lift (al_free al (it_k it)); al ⇐ lift (al_free al (it_a it));
       Some (Ret (it_v it, with_entrycount h (u32 (entrycount h - 1)), delete (it_a it) E, al))).
Proof.
  intros Hk. induction l as [|it l IH]; intros pre p [|fuel] al Hc Hf; cbn [length] in Hf; try lia; cbn [linked] in Hc; cbn [remove_chain].
  - subst p. left. split; [|done]. by intros ?%elem_of_nil.
  - destruct Hc as (-> & Hp & Hit & n & Hn & Hc). rewrite (proj2 (Z.eqb_neq (it_a it) 0)) by done. unfold deref. rewrite Hn. cbn [lift fbind].
    cbn [item_entry e_h e_k e_next e_v]. destruct (key_test k s it Hk Hit) as (b & -> & Hb). cbn [mbind option_bind].
    destruct (Z.eqb_spec b 0) as [->|Hb0]; cbn [negb].
    + rewrite <- (slot_of_snoc i pre it). destruct (IH (pre ++ [it]) n fuel al Hc ltac:(lia)) as [[Hs ->]|(l1 & it' & l2 & n' & -> & ? & ? & ? & ->)].
      * left. split; [|done]. cbn. apply not_elem_of_cons. split; [tauto|done].
      * right. exists (it :: l1), it', l2, n'. rewrite <- app_assoc. done.
    + right. exists [], it, l, n. rewrite app_nil_r. split_and!; [done|symmetry; tauto|done..].
Qed.

Lemma chains_insert_frame E (t : list Z) rows i p l a e l' : Forall2 (linked E) t rows -> t !! i = Some p -> rows !! i = Some l ->
  a ∉ (it_a <$> concat (<[i := []]> rows)) -> linked (<[a := e]> E) p l' -> Forall2 (linked (<[a := e]> E)) t (<[i := l']> rows).
Proof.
  intros Hc Hp Hl Ha Hl'. rewrite <- (list_insert_id t i p Hp), <- (list_insert_insert_eq t i p 0), <- (list_insert_insert_eq rows i l' []).
  apply Forall2_insert; [|done]. apply chains_frame; [|done]. by apply Forall2_insert.
Qed.

Lemma chains_delete E (t : list Z) rows a : Forall2 (linked E) t rows -> a ∉ (it_a <$> concat rows) -> Forall2 (linked (delete a E)) t rows.
Proof.
  induction 1 as [|p l t rows Hc Hcs IH]; intros Ha; constructor; cbn in Ha; rewrite fmap_app, elem_of_app in Ha.
  - apply linked_frame_delete; naive_solver.
  - apply IH. naive_solver.
Qed.

(** The write through [pE] takes the entry out of its bucket. *)
Lemma write_slot_unlink E h rows i pre it l n : buckets E (table h) (tablelength h) rows -> NoDup (it_a <$> concat rows) -> 0 <= i ->
  rows !! Z.to_nat i = Some (pre ++ it :: l) -> E !! it_a it = Some (item_entry it n) -> linked E n l ->
  exists E1 t1, write_slot E h (slot_of i pre) n = Ret (E1, with_table h t1) /\
    buckets (delete (it_a it) E1) t1 (tablelength h) (<[Z.to_nat i := pre ++ l]> rows) /\
    it :: concat (<[Z.to_nat i := pre ++ l]> rows) ≡ₚ concat rows.
Proof.
  intros [Hc Hl Hx] Hnd Hi Hrow Hn Hcl. set (rows' := <[Z.to_nat i := pre ++ l]> rows).
  assert (Hperm : it :: concat rows' ≡ₚ concat rows) by (by apply concat_remove_perm).
  assert (Hnot : it_a it ∉ (it_a <$> concat rows')). { rewrite <- Hperm in Hnd. cbn in Hnd. by apply NoDup_cons in Hnd as [? _]. }
  destruct (Forall2_lookup_r _ _ _ _ _ Hc Hrow) as (p & Hp & Hch).
  assert (Hw : exists E1 t1, write_slot E h (slot_of i pre) n = Ret (E1, with_table h t1) /\ Forall2 (linked E1) t1 rows').
  { destruct pre as [|b pre _] using rev_ind.
    - exists E, (<[Z.to_nat i := n]> (table h)). cbn [slot_of last write_slot]. rewrite arr_setZ_lt by (done || by eapply lookup_lt_Some).
      split; [done|]. by apply Forall2_insert.
    - rewrite <- app_assoc in Hrow, Hch. cbn [app] in Hrow, Hch. rewrite slot_of_snoc. cbn [write_slot].
      destruct (linked_lookup E p pre b (it :: l) Hch) as (m & _ & _ & Hb & _). unfold deref. rewrite Hb. rewrite bind_Ret_l.
      exists (<[it_a b := item_entry b n]> E), (table h). split; [by destruct h|]. unfold rows'. rewrite <- app_assoc. cbn [app].
      assert (Hnd' : NoDup (it_a <$> concat (<[Z.to_nat i := []]> rows) ++ (pre ++ b :: it :: l))).
      { rewrite (concat_insert_perm rows _ _ [] Hrow), app_nil_r. done. }
      rewrite fmap_app in Hnd'. apply NoDup_app in Hnd' as (_ & Hdis & Hndr).
      eapply chains_insert_frame; [done..| |by eapply linked_unlink].
      intros Hb'. apply (Hdis _ Hb'). apply list_elem_of_fmap_2. set_solver. }
  destruct Hw as (E1 & t1 & Hw & Hc1). exists E1, t1. split_and!; [done| |done]. split; [by apply chains_delete|unfold rows'; by rewrite length_insert|].
  intros j l' it' Hj Hit'. destruct (decide (j = Z.to_nat i)) as [->|Hne].
  - unfold rows' in Hj. rewrite list_lookup_insert_eq in Hj by (by eapply lookup_lt_Some). injection Hj as <-.
    apply (Hx _ _ it' Hrow). set_solver.
  - unfold rows' in Hj. rewrite list_lookup_insert_ne in Hj by done. by eapply Hx.
Qed.

Lemma hashtable_remove_spec fuel al E h M R k s : represents al E h M R -> denotes k s -> (size M < fuel)%nat -> Z.of_nat (size M) < 2^32 ->
  match M !! s with
  | None => hashtable_remove fuel al E h k = Some (Ret (0, h, E, al))
  | Some v => exists h' E' al', hashtable_remove fuel al E h k = Some (Ret (v, h', E', al')) /\ represents al' E' h' (delete s M) ({[v]} ∪ R) /\ v ∉ R
  end.
Proof.
  intros [(rows & [Hb Hpr Hlim Hkeys] & Hh & -> & Hc) Hload] Hk Hf Hmax. rewrite to_map_size in Hf, Hmax by done.
  pose proof (primes_pos _ _ Hpr) as Hpos. unfold hashtable_remove. rewrite (hash_denotes k s Hk). cbn [mbind option_bind].
  destruct (bucket_get E (table h) (tablelength h) rows s Hb Hpos) as (Hi & Hil & p & l & Hp & Hl & Hch). set (i := indexFor _ _) in *.
  rewrite (arr_getZ_lookup _ _ _ Hi Hp). cbn [lift fbind]. change (TableSlot i) with (slot_of i []).
  destruct (remove_chain_walk i k s E h Hk l [] p fuel al Hch) as [[Hs Hrun]|(l1 & it & l2 & n & -> & Hits & HE & Hn & ->)].
  { pose proof (row_length _ _ _ Hl). lia. }
  { rewrite (proj2 (to_map_None (concat rows) s)); [exact Hrun|]. by eapply bucket_only. }
  assert (Hitin : it ∈ concat rows) by (eapply concat_elem; [exact Hl|set_solver]).
  rewrite <- Hits, (to_map_Some _ it Hkeys Hitin). cbn [app].
  destruct (write_slot_unlink E h rows i l1 it l2 n) as (E1 & t1 & -> & Hb1 & Hperm); [done|by eapply owned_addrs, h_nodup|done..|].
  cbn [lift fbind]. rewrite <- (owned_perm _ _ _ Hperm), owned_cons in Hh. assert (HvR : it_v it ∉ R) by (apply (h_rest _ _ _ Hh); by left). apply holds_give in Hh.
  destruct (holds_free _ _ _ _ Hh) as (al1 & -> & Hh1). cbn [lift fbind]. destruct (holds_free _ _ _ _ Hh1) as (al2 & -> & Hh2). cbn [lift fbind].
  pose proof (Permutation_length Hperm) as Hlen. cbn in Hlen. do 3 eexists. split; [done|]. cbn [entrycount with_table with_entrycount].
  rewrite u32_small by lia. split; [|done]. split; [|destruct Hload; [by left|right; cbn; lia]]. eexists. split_and!; [split; [exact Hb1|done|done|]|exact Hh2| |cbn; lia].
  - rewrite <- Hperm in Hkeys. cbn in Hkeys. by apply NoDup_cons in Hkeys as [_ ?].
  - rewrite (to_map_perm _ _ Hkeys (Permutation_sym Hperm)), to_map_cons, delete_insert_id; [done|].
    rewrite <- Hperm in Hkeys. cbn in Hkeys. apply NoDup_cons in Hkeys as [? _]. by apply to_map_None.
Qed.

(** ** Changing a value, creating and destroying *)

Lemma linked_update E p pre it l n v : linked E p (pre ++ it :: l) -> NoDup (it_a <$> pre ++ it :: l) -> E !! it_a it = Some (item_entry it n) ->
  let it' := mk_item (it_a it) (it_k it) (it_s it) v in
  linked (<[it_a it := item_entry it' n]> E) p (pre ++ it' :: l).
Proof.
  intros Hc Hnd Hn it'. revert p Hc. induction pre as [|c pre IH]; intros p Hc; cbn in Hc, Hnd; destruct Hc as (-> & Hz & Hd & m & Hm & Hc); apply NoDup_cons in Hnd as [Hnot Hnd].
  - rewrite Hn in Hm. injection Hm as <-. cbn. split_and!; [done..|]. exists n. split; [by rewrite lookup_insert_eq|]. by apply linked_frame.
  - cbn. split_and!; [done..|]. exists m. split; [|by apply IH]. rewrite lookup_insert_ne; [done|]. intros Eb. apply Hnot.
    rewrite <- Eb. apply list_elem_of_fmap_2. set_solver.
Qed.

Lemma row_disjoint rows i l : NoDup (it_a <$> concat rows) -> rows !! i = Some l ->
  NoDup (it_a <$> l) /\ forall it, it ∈ l -> it_a it ∉ (it_a <$> concat (<[i := []]> rows)).
Proof.
  intros Hnd Hl. assert (Hnd' : NoDup (it_a <$> concat (<[i := []]> rows) ++ l)) by (by rewrite (concat_insert_perm rows _ _ [] Hl), app_nil_r).
  rewrite fmap_app in Hnd'. apply NoDup_app in Hnd' as (_ & Hdis & Hndr). split; [done|]. intros it Hit Hin. apply (Hdis _ Hin). by apply list_elem_of_fmap_2.
Qed.

Lemma hashtable_change_spec fuel al E h M R k s v v0 : represents al E h M R -> denotes k s -> (size M < fuel)%nat -> M !! s = Some v0 -> v ∈ R ->
  exists E' al', hashtable_change fuel al E h k v = Some (Ret (-1, E', al')) /\ represents al' E' h (<[s := v]> M) (R ∖ {[v]}).
Proof.
  intros [(rows & [Hb Hpr Hlim Hkeys] & Hh & -> & Hc) Hload] Hk Hf HM Hv. rewrite to_map_size in Hf by done.
  pose proof (primes_pos _ _ Hpr) as Hpos. unfold hashtable_change. rewrite (hash_denotes k s Hk). cbn [mbind option_bind].
  destruct (bucket_get E (table h) (tablelength h) rows s Hb Hpos) as (Hi & Hil & p & l & Hp & Hl & Hch). set (i := indexFor _ _) in *.
  rewrite (arr_getZ_lookup _ _ _ Hi Hp). cbn [lift fbind].
  destruct (search_chain_spec fuel E p l k s Hch Hk) as (e & -> & [[-> Hs]|(it & n & Hit & <- & -> & Hnz & HE)]); [pose proof (row_length _ _ _ Hl); lia| |].
  { rewrite (proj2 (to_map_None (concat rows) s)) in HM; [done|]. by eapply bucket_only. }
  cbn [fbind]. rewrite (proj2 (Z.eqb_neq _ _)) by done. unfold deref. rewrite HE. cbn [lift fbind item_entry e_v].
  apply list_elem_of_split in Hit as (l1 & l2 & ->). set (it' := mk_item (it_a it) (it_k it) (it_s it) v).
  destruct (row_disjoint rows _ _ (owned_addrs _ _ (h_nodup _ _ _ Hh)) Hl) as [Hndr Hdis].
  set (rows' := <[Z.to_nat i := l1 ++ it' :: l2]> rows). set (rest := concat (<[Z.to_nat i := l1 ++ l2]> rows)).
  assert (Hp0 : concat rows ≡ₚ it :: rest) by (symmetry; by apply concat_remove_perm).
  assert (Hp1 : concat rows' ≡ₚ it' :: rest).
  { unfold rest. unfold rows'. rewrite <- (list_insert_insert_eq rows _ (l1 ++ it' :: l2) (l1 ++ l2)).
    pose proof (concat_insert_perm (<[Z.to_nat i := l1 ++ l2]> rows) (Z.to_nat i) (l1 ++ l2) (l1 ++ it' :: l2)) as Hq.
    apply (Permutation_app_inv_r (l1 ++ l2)). rewrite Hq by (apply list_lookup_insert_eq; by eapply lookup_lt_Some). by rewrite app_cons_perm, app_cons_perm. }
  rewrite (owned_perm _ _ _ Hp0), owned_cons in Hh. destruct (holds_free _ _ _ _ Hh) as (al1 & -> & Hh1). cbn [lift fbind].
  change (set_v _ v) with (item_entry it' n). do 2 eexists. split; [done|]. split; [|done]. exists rows'. split_and!.
  - split; [split; [|unfold rows'; rewrite length_insert; apply Hb|]|done|done|].
    + eapply chains_insert_frame; [apply Hb|done..|apply Hdis; set_solver|]. by apply linked_update.
    + intros j l' it2 Hj Hit2. destruct (decide (j = Z.to_nat i)) as [->|Hne]; unfold rows' in Hj.
      * rewrite list_lookup_insert_eq in Hj by (by eapply lookup_lt_Some). injection Hj as <-.
        apply elem_of_app in Hit2 as [Hit2|[->|Hit2]%elem_of_cons]; [|change (it_s it') with (it_s it)|]; eapply (bk_index _ _ _ _ Hb); try done; set_solver.
      * rewrite list_lookup_insert_ne in Hj by done. by eapply (bk_index _ _ _ _ Hb).
    + rewrite Hp1. rewrite Hp0 in Hkeys. done.
  - rewrite (owned_perm _ _ _ Hp1), owned_cons. by apply holds_take.
  - rewrite (to_map_perm _ _ Hkeys Hp0). rewrite Hp0 in Hkeys. rewrite (to_map_perm (concat rows') (it' :: rest)) by (done || by rewrite Hp1).
    rewrite !to_map_cons. cbn. by rewrite insert_insert_eq.
  - rewrite Hc, (Permutation_length Hp0), (Permutation_length Hp1). done.
Qed.

Lemma find_prime_spec ps n minsize : Exists (fun p => minsize < p) ps ->
  exists i p, find_prime ps n minsize = (p, (n + i)%nat) /\ ps !! i = Some p /\ minsize < p.
Proof.
  intros He. revert n. induction ps as [|q ps IH]; intros n; [by inversion He|]. cbn [find_prime]. destruct (Z.ltb_spec minsize q).
  - exists 0%nat, q. rewrite Nat.add_0_r. done.
  - destruct (IH ltac:(inversion He; [lia|done]) (n + 1)%nat) as (i & p & -> & ? & ?). exists (Datatypes.S i), p. split; [f_equal; lia|done].
Qed.

Lemma create_hashtable_spec al E minsize : minsize <= 2^30 ->
  exists h al', create_hashtable al minsize = Ret (Some h, al') /\ minsize < tablelength h /\ represents al' E h ∅ (al_live al).
Proof.
  intros Hm. unfold create_hashtable. rewrite (proj2 (Z.ltb_ge (2^30) minsize)) by lia.
  destruct (find_prime_spec primes 0 minsize) as (i & size & -> & Hi & Hlt).
  { apply Exists_exists. exists 1610612741. split; [by apply (list_elem_of_lookup_2 _ 25)|lia]. }
  pose proof (primes_pos _ _ Hi) as Hpos.
  assert (Hh0 : holds al (al_live al) []) by (split; [constructor|set_solver|set_solver]).
  destruct (holds_malloc al _ _ sizeof_hashtable Hh0) as (p & al1 & -> & Hp & Hh1). rewrite bind_Ret_l, (proj2 (Z.eqb_neq p 0)) by done.
  destruct (holds_malloc al1 _ _ (sizeof_pointer * size) Hh1) as (t & al2 & -> & Ht & Hh2). rewrite bind_Ret_l, (proj2 (Z.eqb_neq t 0)) by done.
  do 2 eexists. split; [done|]. split; [done|]. split.
  - exists (replicate (Z.to_nat size) []). rewrite concat_replicate_nil. split_and!; [|eapply holds_perm; [|exact Hh2]; apply Permutation_swap|done|done].
    split; [by apply empty_buckets|done|done|]. rewrite concat_replicate_nil. constructor.
  - right. cbn [entrycount loadlimit]. assert (Hall : Forall (fun p => 0 <= load_limit p) primes) by (repeat constructor; by vm_compute).
    exact (Forall_lookup_1 _ _ _ _ Hall Hi).
Qed.

(** The values that are not freed. *)
Definition kept (free_values : bool) l : gset Z := if free_values then ∅ else list_to_set (it_v <$> l).

Lemma destroy_chain_spec fv E l : forall p fuel al R X, linked E p l -> (length l < fuel)%nat -> holds al R ((l ≫= item_blocks) ++ X) ->
  exists al', destroy_chain fuel fv al E p = Some (Ret al') /\ holds al' (kept fv l ∪ R) X.
Proof.
  induction l as [|it l IH]; intros p [|fuel] al R X Hc Hf Hh; cbn [length] in Hf; try lia; cbn [linked] in Hc; cbn [destroy_chain].
  - subst p. exists al. split; [done|]. replace (kept fv [] ∪ R) with R by (unfold kept; destruct fv; set_solver). done.
  - destruct Hc as (-> & Hp & Hit & n & Hn & Hc). rewrite (proj2 (Z.eqb_neq (it_a it) 0)) by done. unfold deref. rewrite Hn. cbn [lift fbind].
    cbn [item_entry e_k e_v e_next]. rewrite bind_cons, <- app_assoc in Hh. set (Y := (l ≫= item_blocks) ++ X) in *.
    change (item_blocks it ++ Y) with ([it_a it; it_k it; it_v it] ++ Y) in Hh.
    rewrite (Permutation_app_comm [it_a it] [it_k it; it_v it] : [it_a it; it_k it; it_v it] ≡ₚ [it_k it; it_v it; it_a it]) in Hh.
    destruct (holds_free _ _ _ _ Hh) as (al1 & -> & Hh1). cbn [lift fbind].
    assert (Hv : exists al2, (if fv then al_free al1 (it_v it) else Ret al1) = Ret al2 /\ holds al2 (kept fv [it] ∪ R) (it_a it :: Y)).
    { destruct fv; cbn [kept].
      - destruct (holds_free _ _ _ _ Hh1) as (al2 & -> & Hh2). exists al2. split; [done|]. by rewrite union_empty_l_L.
      - exists al1. split; [done|]. apply holds_give in Hh1. cbn. by rewrite union_empty_r_L. }
    destruct Hv as (al2 & -> & Hh2). cbn [lift fbind]. destruct (holds_free _ _ _ _ Hh2) as (al3 & -> & Hh3). cbn [lift fbind].
    destruct (IH n fuel al3 _ X Hc ltac:(lia) Hh3) as (al4 & -> & Hh4). exists al4. split; [done|].
    replace (kept fv (it :: l) ∪ R) with (kept fv l ∪ (kept fv [it] ∪ R)); [done|]. unfold kept. destruct fv; cbn; set_solver.
Qed.

Lemma destroy_rows_spec fv E fuel (t : list Z) rows : Forall2 (linked E) t rows -> (length (concat rows) < fuel)%nat ->
  forall al R X, holds al R ((concat rows ≫= item_blocks) ++ X) ->
  exists al', destroy_rows fuel fv al E t = Some (Ret al') /\ holds al' (kept fv (concat rows) ∪ R) X.
Proof.
  induction 1 as [|p l t rows Hc Hcs IH]; intros Hf al R X Hh; cbn [destroy_rows concat] in *.
  - exists al. split; [done|]. replace (kept fv [] ∪ R) with R by (unfold kept; destruct fv; set_solver). done.
  - rewrite length_app in Hf. rewrite bind_app, <- app_assoc in Hh.
    destruct (destroy_chain_spec fv E l p fuel al R _ Hc ltac:(lia) Hh) as (al1 & -> & Hh1). cbn [fbind].
    destruct (IH ltac:(lia) al1 _ X Hh1) as (al2 & -> & Hh2). exists al2. split; [done|].
    replace (kept fv (l ++ concat rows) ∪ R) with (kept fv (concat rows) ∪ (kept fv l ∪ R)); [done|]. unfold kept. destruct fv; [set_solver|].
    rewrite fmap_app, list_to_set_app_L. set_solver.
Qed.

(** Destroying frees every block of the table once, and no other; the values stay
    when [free_values] is not set. *)
Lemma hashtable_destroy_spec fuel fv al E h M R : represents al E h M R -> (size M < fuel)%nat ->
  exists al', hashtable_destroy fuel al E h fv = Some (Ret al') /\
    al_live al' = (if fv then ∅ else map_img (SA := gset Z) M) ∪ R.
Proof.
  intros [(rows & [Hb Hpr Hlim Hkeys] & Hh & -> & Hc) _] Hf. rewrite to_map_size in Hf by done. unfold hashtable_destroy.
  unfold owned in Hh. rewrite (Permutation_app_comm [self h; tab h] (concat rows ≫= item_blocks) : self h :: tab h :: _ ≡ₚ _) in Hh.
  destruct (destroy_rows_spec fv E fuel _ rows (bk_chains _ _ _ _ Hb) Hf al R _ Hh) as (al1 & -> & Hh1). cbn [fbind].
  rewrite Permutation_swap in Hh1. destruct (holds_free _ _ _ _ Hh1) as (al2 & -> & Hh2). cbn [lift fbind].
  destruct (holds_free _ _ _ _ Hh2) as (al3 & -> & Hh3). exists al3. split; [done|]. rewrite (h_live _ _ _ Hh3). cbn [list_to_set].
  rewrite union_empty_l_L. f_equal. destruct fv; cbn [kept]; [done|]. apply set_eq. intros x. rewrite elem_of_list_to_set, elem_of_map_img. split.
  - intros (it & -> & Hit)%list_elem_of_fmap. exists (it_s it). by apply to_map_Some.
  - intros (s & Hs%elem_of_list_to_map_2). apply list_elem_of_fmap in Hs as (it & [= -> ->] & Hit). by apply list_elem_of_fmap_2.
Qed.
(** C29.  The table implements a map, for every operation and table size: searching
    returns the value of the key or 0; inserting a new key, growing the table when
    the load limit is exceeded, changing a value and removing a key update the
    represented map; the key, the value and the entry are owned by the table in
    between, and the load stays below the limit until the largest size. *)
Theorem hashtable_refines_map fuel al E h M R k s : represents al E h M R -> denotes k s -> (size M < fuel)%nat -> Z.of_nat (size M) + 1 < 2^32 ->
  hashtable_search fuel E h k = Some (Ret (default 0 (M !! s))) /\ hashtable_count h = Z.of_nat (size M) /\
  match M !! s with
  | None =>
      (forall v, k ∈ R -> v ∈ R -> k <> v -> exists h' E' al', hashtable_insert al_realloc fuel al E h k v = Some (Ret (-1, h', E', al')) /\
         represents al' E' h' (<[s := v]> M) (R ∖ {[k; v]})) /\
      hashtable_remove fuel al E h k = Some (Ret (0, h, E, al))
  | Some v0 =>
      (forall v, v ∈ R -> exists E' al', hashtable_change fuel al E h k v = Some (Ret (-1, E', al')) /\
         represents al' E' h (<[s := v]> M) (R ∖ {[v]})) /\
      exists h' E' al', hashtable_remove fuel al E h k = Some (Ret (v0, h', E', al')) /\
         represents al' E' h' (delete s M) ({[v0]} ∪ R)
  end.
Proof.
  intros Hrep Hk Hf Hmax. split; [by eapply hashtable_search_spec|]. split; [by eapply represents_size|].
  pose proof (hashtable_remove_spec fuel al E h M R k s Hrep Hk Hf ltac:(lia)) as Hrem. destruct (M !! s) as [v0|] eqn:HM.
  - destruct Hrem as (h' & E' & al' & ? & ? & _). split; [|by exists h', E', al']. intros v Hv. by eapply hashtable_change_spec.
  - split; [|done]. intros v HkR HvR Hkv. by apply hashtable_insert_spec.
Qed.

(** When the new table cannot be allocated and the old one is reallocated in its
    place, the code goes on to clear the block at the address read from an
    uninitialised element. *)
Theorem hashtable_expand_plan_b fuel al E h newsize al1 nt al2 : primeindex h <> (prime_table_length - 1)%nat ->
  primes !! (primeindex h + 1)%nat = Some newsize -> al_malloc al (sizeof_pointer * newsize) = Ret (0, al1) ->
  al_realloc al1 (tab h) (newsize * sizeof_pointer) = Ret (nt, al2) -> nt <> 0 ->
  hashtable_expand al_realloc fuel al E h = Some (Stop OutOfBounds).
Proof.
  intros Hp Hn Hm Hr Hnt. unfold hashtable_expand. rewrite decide_False by done. rewrite (proj2 (arr_get_Ret _ _ _) Hn). cbn [lift fbind].
  rewrite Hm. cbn [lift fbind Z.eqb negb]. rewrite Hr. cbn [lift fbind]. by rewrite (proj2 (Z.eqb_neq nt 0)).
Qed.
End Props.

(** Keys that are their own hash, compared as numbers. *)
Definition number_keys : Keys := {| hashfn k := Some k; eqfn k1 k2 := Some (if k1 =? k2 then 1 else 0) |}.

#[global] Instance number_key_laws : @KeyLaws Z number_keys.
Proof.
  refine {| denotes (k s : Z) := k = s; khash (s : Z) := s |}.
  - intros k s ->. done.
  - intros k1 k2 s1 s2 -> ->. eexists. split; [done|]. destruct (Z.eqb_spec s1 s2); split; done || lia.
Defined.

(** A key inserted into a new table. *)
Lemma hashtable_refines_map_witness :
  let al := mk_libc {[16 := 8; 32 := 8]} in
  exists h al1, @create_hashtable libc _ al 16 = Ret (Some h, al1) /\
  exists h' E' al', @hashtable_insert libc _ number_keys (fun al _ _ => Ret (0, al)) 5 al1 ∅ h 16 32 = Some (Ret (-1, h', E', al')) /\
    @represents libc _ Z _ _ number_keys number_key_laws al' E' h' {[16 := 32]} ∅.
Proof.
  intros al. destruct (@create_hashtable_spec libc _ _ Z _ _ number_keys number_key_laws (fun al _ _ => Ret (0, al)) al ∅ 16 ltac:(lia)) as (h & al1 & Ec & _ & Hrep).
  exists h, al1. split; [exact Ec|].
  destruct (@hashtable_refines_map libc _ _ Z _ _ number_keys number_key_laws (fun al _ _ => Ret (0, al)) 5 al1 ∅ h ∅ (al_live al) 16 16 Hrep eq_refl
    ltac:(rewrite map_size_empty; lia) ltac:(rewrite map_size_empty; lia)) as (_ & _ & Hins & _).
  destruct (Hins 32 ltac:(by vm_compute) ltac:(by vm_compute) ltac:(lia)) as (h' & E' & al' & Ei & Hrep'). exists h', E', al'. split; [exact Ei|].
  exact Hrep'.
Defined.

(** ** Keys that stay what they are

    The table does not depend on the functions on keys and on the memory behind them
    as long as every stored key still stands for the same string. *)
Section Transport.
Context {S : Type} `{AllocatorLaws S} {Key : Type} `{Countable Key} (K1 K2 : Keys) (L1 : @KeyLaws Key K1) (L2 : @KeyLaws Key K2).
Context (Hhash : forall s, @khash _ _ L1 s = @khash _ _ L2 s).
Implicit Types (al : S) (E : gmap Z entry) (h : hashtable) (M : gmap Key Z).

Lemma linked_transport E l : forall p, @linked Key K1 L1 E p l -> (forall it, it ∈ l -> @denotes _ _ L1 (it_k it) (it_s it) -> @denotes _ _ L2 (it_k it) (it_s it)) ->
  @linked Key K2 L2 E p l.
Proof using Hhash.
  induction l as [|it l IH]; intros p Hl Hd; [done|]. destruct Hl as (-> & Hp & Hit & n & HE & Hl). cbn. split_and!; [done|done|apply Hd; [by left|done]|].
  exists n. split; [|apply IH; [done|intros; apply Hd; [by right|done]]]. rewrite HE. unfold item_entry, keyhash. by rewrite Hhash.
Qed.

Lemma represents_transport al E h M R : @represents S _ Key _ _ K1 L1 al E h M R ->
  (forall k s, @denotes _ _ L1 k s -> k ∈ al_live al -> k ∉ R -> k <> tab h -> @denotes _ _ L2 k s) -> @represents S _ Key _ _ K2 L2 al E h M R.
Proof using Hhash.
  intros [(rows & [[Hch Hlen Hidx] Hpr Hlim Hnd] & Hh & HM & Hc) Hload] Hd. split; [|done]. exists rows. split_and!; [|done|done|done].
  assert (Hit : forall it, it ∈ concat rows -> it_k it ∈ al_live al /\ (it_k it ∉ R) /\ it_k it <> tab h).
  { intros it Hit. assert (Hin : it_k it ∈ concat rows ≫= item_blocks) by (apply list_elem_of_bind; exists it; split; [right; left|done]).
    destruct Hh as [Hn Hl Hr]. split_and!.
    - rewrite Hl. apply elem_of_union_l, elem_of_list_to_set. by do 2 right.
    - apply Hr. by do 2 right.
    - intros Heq. apply NoDup_cons in Hn as [_ Hn]. apply NoDup_cons in Hn as [Hn _]. apply Hn. by rewrite <- Heq. }
  split; [|done|done|done]. split; [|done|].
  - apply Forall2_same_length_lookup. split; [by eapply Forall2_length|]. intros i p l Hp Hl. apply linked_transport.
    + by eapply Forall2_lookup_lr.
    + intros it Hit' Hdn. destruct (Hit it) as (? & ? & ?); [by eapply concat_elem|]. by apply Hd.
  - intros i l it Hl Hin. unfold keyhash. rewrite <- Hhash. by apply (Hidx i l it).
Qed.
End Transport.

Section Blocks.
Context {S : Type} `{AllocatorLaws S} {Key : Type} `{Countable Key} `{KeyLaws Key}.
Implicit Types (al : S) (E : gmap Z entry) (h : hashtable) (M : gmap Key Z).

(** The client may allocate. *)
Lemma represents_malloc al E h M R n p al' : represents al E h M R -> al_malloc al n = Ret (p, al') -> represents al' E h M ({[p]} ∪ R).
Proof.
  intros [(rows & Hok & Hh & ? & ?) Hload] Em. split; [|done]. exists rows. split_and!; try done. destruct (holds_malloc _ _ _ n Hh) as (p' & al1 & E1 & _ & Hh1).
  rewrite Em in E1. injection E1 as <- <-. by apply holds_give.
Qed.

(** A stored value is a block of the table. *)
Lemma represents_value al E h M R s v : represents al E h M R -> M !! s = Some v -> v ∈ al_live al /\ (v ∉ R) /\ v <> tab h.
Proof.
  intros [(rows & Hok & [Hn Hl Hr] & -> & ?) _] Hs. apply elem_of_list_to_map_2, list_elem_of_fmap in Hs as (it & [= -> ->] & Hit).
  assert (Hin : it_v it ∈ concat rows ≫= item_blocks) by (apply list_elem_of_bind; exists it; split; [do 2 right; left|done]). split_and!.
  - rewrite Hl. apply elem_of_union_l, elem_of_list_to_set. by do 2 right.
  - apply Hr. by do 2 right.
  - intros Heq. apply NoDup_cons in Hn as [_ Hn]. apply NoDup_cons in Hn as [Hn _]. apply Hn. by rewrite <- Heq.
Qed.

Lemma represents_tab al E h M R : represents al E h M R -> tab h ∈ al_live al.
Proof. intros [(rows & Hok & [Hn Hl Hr] & -> & ?) _]. rewrite Hl. apply elem_of_union_l, elem_of_list_to_set. by right; left. Qed.

Lemma represents_rest al E h M R q : represents al E h M R -> q ∈ R -> q ∈ al_live al /\ q <> tab h.
Proof.
  intros [(rows & Hok & [Hn Hl Hr] & -> & ?) _] Hq. split; [rewrite Hl; set_solver|]. intros ->. apply (Hr (tab h)); [|done]. by right; left.
Qed.
End Blocks.
