(* ===== verification/HashtableItr.v ===== *)
(** * Iterators over the hash table (examples/ukv/hashtable/hashtable_itr.c)

    An iterator is at an entry of the table, with the entry before it in the chain.
    The theorem is about a client that walks over the whole table and removes
    entries as it goes: it sees every pair of the map once, and the table then
    holds the pairs that were not removed. *)

From S2P Require Export HashtableProps.

(** [struct hashtable_itr]: [h] is an argument of the operations, [i_self] the
    iterator's own address. *)
Record hashtable_itr := mk_itr { i_self : Z; i_e : Z; i_parent : Z; i_index : Z }.

Section Itr.
Context {S : Type} `{Allocator S} `{Keys}.
Implicit Types (al : S) (E : gmap Z entry) (h : hashtable) (itr : hashtable_itr).

Definition sizeof_itr : Z := 32.

(** The first of [n] buckets from [j] that is not empty, with its first entry. *)
Fixpoint next_bucket (n : nat) (t : list Z) (j : Z) : outcome (option (Z * Z)) :=
  match n with
  | O => Ret None
  | Datatypes.S n' =>
      next ← arr_getZ t j;
      if next =? 0 then next_bucket n' t (j + 1) else Ret (Some (j, next))
  end.

Definition hashtable_iterator al h : outcome (option hashtable_itr * S) :=
  '(p, al) ← al_malloc al sizeof_itr;
  if p =? 0 then Ret (None, al)
  else
    let itr := mk_itr p 0 0 (tablelength h) in
    if entrycount h =? 0 then Ret (Some itr, al)
    else
      r ← next_bucket (Z.to_nat (tablelength h)) (table h) 0;
      Ret (Some (match r with Some (i, e) => mk_itr p e 0 i | None => itr end), al).

Definition hashtable_iterator_key E itr : outcome Z := en ← deref E (i_e itr); Ret (e_k en).
Definition hashtable_iterator_value E itr : outcome Z := en ← deref E (i_e itr); Ret (e_v en).

Definition hashtable_iterator_advance E h itr : outcome (Z * hashtable_itr) :=
  if i_e itr =? 0 then Ret (0, itr)
  else
    en ← deref E (i_e itr);
    let next := e_next en in
    if negb (next =? 0) then Ret (-1, mk_itr (i_self itr) next (i_e itr) (i_index itr))
    else
      let j := u32 (i_index itr + 1) in
      if tablelength h <=? j then Ret (0, mk_itr (i_self itr) 0 0 j)
      else
        r ← next_bucket (Z.to_nat (tablelength h - j)) (table h) j;
        match r with
        | None => Ret (0, mk_itr (i_self itr) 0 0 (tablelength h))
        | Some (j, next) => Ret (-1, mk_itr (i_self itr) next 0 j)
        end.

Definition hashtable_iterator_remove al E h itr : outcome (Z * hashtable_itr * hashtable * gmap Z entry * S) :=
  en ← deref E (i_e itr);
  '(E, h) ← write_slot E h (if i_parent itr =? 0 then TableSlot (i_index itr) else NextSlot (i_parent itr)) (e_next en);
  let remember_e := i_e itr in
  let h := with_entrycount h (u32 (entrycount h - 1)) in
  al ← al_free al (e_k en);
  let remember_parent := i_parent itr in
  '(ret, itr) ← hashtable_iterator_advance E h itr;
  let itr := if i_parent itr =? remember_e then mk_itr (i_self itr) (i_e itr) remember_parent (i_index itr) else itr in
  al ← al_free al remember_e;
  Ret (ret, itr, h, delete remember_e E, al).

(** The walk of [hashtable_iterator_search]: the entry found and the one before it. *)
Fixpoint itr_search_chain (fuel : nat) E (hashvalue k parent e : Z) : option (outcome (option (Z * Z))) :=
  match fuel with
  | O => None
  | Datatypes.S fuel' =>
      if e =? 0 then Some (Ret None)
      else
        en ⇐ lift (deref E e);
        b ← (if hashvalue =? e_h en then eqfn k (e_k en) else Some 0);
        if negb (b =? 0) then Some (Ret (Some (e, parent))) else itr_search_chain fuel' E hashvalue k e (e_next en)
  end.

Definition hashtable_iterator_search (fuel : nat) E h itr (k : Z) : option (outcome (Z * hashtable_itr)) :=
  hashvalue ← hash k;
  let index := indexFor (tablelength h) hashvalue in
  e ⇐ lift (arr_getZ (table h) index);
  r ⇐ itr_search_chain fuel E hashvalue k 0 e;
  Some (Ret (match r with
             | Some (e, parent) => (-1, mk_itr (i_self itr) e parent index)
             | None => (0, itr)
             end)).

(** A client: [do { ... } while (advanced)], removing the pairs that it does not
    keep.  It returns the pairs it has seen. *)
Fixpoint sweep (fuel : nat) (keep : Z -> Z -> bool) al E h itr : option (outcome (list (Z * Z) * hashtable_itr * hashtable * gmap Z entry * S)) :=
  match fuel with
  | O => None
  | Datatypes.S fuel' =>
      k ⇐ lift (hashtable_iterator_key E itr);
      v ⇐ lift (hashtable_iterator_value E itr);
      '(ret, itr, h, E, al) ⇐ lift (if keep k v
                                    then '(ret, itr) ← hashtable_iterator_advance E h itr; Ret (ret, itr, h, E, al)
                                    else hashtable_iterator_remove al E h itr);
      if ret =? 0 then Some (Ret ([(k, v)], itr, h, E, al))
      else
        '(vis, itr, h, E, al) ⇐ sweep fuel' keep al E h itr;
        Some (Ret ((k, v) :: vis, itr, h, E, al))
  end.
End Itr.

(** ** Positions *)

Section Props.
Context {S : Type} `{AllocatorLaws S} {Key : Type} `{Countable Key} `{KeyLaws Key}.
Implicit Types (al : S) (E : gmap Z entry) (h : hashtable) (M : gmap Key Z) (itr : hashtable_itr) (rows : list (list (item (Key:=Key)))).

(** The iterator is at the first of the remaining items [rem], past the end when there
    are none. *)
Definition at_pos rows itr (rem : list item) : Prop :=
  match rem with
  | [] => i_e itr = 0
  | it :: _ => exists i pre post, rows !! i = Some (pre ++ it :: post) /\ rem = it :: post ++ concat (drop (i + 1) rows) /\
      i_index itr = Z.of_nat i /\ i_e itr = it_a it /\ i_parent itr = default 0 (it_a <$> last pre)
  end.

Lemma next_bucket_spec E t rows : Forall2 (linked E) t rows -> forall n j, (j + n = length rows)%nat ->
  exists r, next_bucket n t (Z.of_nat j) = Ret r /\
    match r with
    | None => concat (drop j rows) = []
    | Some (i, e) => exists i' it post, i = Z.of_nat i' /\ rows !! i' = Some (it :: post) /\ e = it_a it /\ e <> 0 /\
        concat (drop j rows) = it :: post ++ concat (drop (i' + 1) rows)
    end.
Proof.
  intros Hc. induction n as [|n IH]; intros j Hj; cbn [next_bucket].
  - exists None. split; [done|]. by rewrite drop_ge by lia.
  - destruct (lookup_lt_is_Some_2 rows j ltac:(lia)) as [l Hl]. destruct (Forall2_lookup_r _ _ _ _ _ Hc Hl) as (p & Hp & Hch).
    rewrite (arr_getZ_lookup t (Z.of_nat j) p) by (lia || by rewrite Nat2Z.id). rewrite bind_Ret_l.
    rewrite (drop_S rows l j Hl). cbn [concat]. destruct l as [|it post]; cbn in Hch.
    + subst p. destruct (IH (Datatypes.S j) ltac:(lia)) as (r & Er & Hr). exists r. cbn [Z.eqb]. rewrite Z.add_1_r, <- Nat2Z.inj_succ. by split.
    + destruct Hch as (-> & Hz & _). rewrite (proj2 (Z.eqb_neq _ 0)) by done. eexists. split; [done|]. exists j, it, post. rewrite Nat.add_1_r. split_and!; done.
Qed.

(** Advancing from entry [it] of bucket [i]: to the next entry of the chain, or to the
    first one of the next bucket that has any.  The chain may already have lost [it]. *)
Lemma advance_step E E0 E' h rows itr i it n post : E !! it_a it = Some (item_entry it n) -> it_a it <> 0 -> linked E0 n post ->
  Forall2 (linked E') (table h) rows -> Z.of_nat (length rows) = tablelength h -> tablelength h < 2^32 -> (i < length rows)%nat ->
  i_e itr = it_a it -> i_index itr = Z.of_nat i ->
  exists ret itr', hashtable_iterator_advance E h itr = Ret (ret, itr') /\ i_self itr' = i_self itr /\
    ret = (if decide (post ++ concat (drop (i + 1) rows) = []) then 0 else -1) /\
    match post with
    | it' :: _ => itr' = mk_itr (i_self itr) (it_a it') (it_a it) (Z.of_nat i) /\ it_a it' <> 0
    | [] => at_pos rows itr' (concat (drop (i + 1) rows)) /\ i_parent itr' = 0
    end.
Proof.
  intros HE Hnz Hn Hc Hlen Hmax Hi He Hidx. unfold hashtable_iterator_advance. rewrite He, Hidx, (proj2 (Z.eqb_neq _ 0)) by done.
  unfold deref. rewrite HE, bind_Ret_l. cbn [item_entry e_next]. destruct post as [|it' post]; cbn in Hn.
  - subst n. cbn [Z.eqb negb app]. rewrite u32_small by lia. destruct (Z.leb_spec (tablelength h) (Z.of_nat i + 1)) as [Hle|Hgt].
    + do 2 eexists. split; [done|]. split; [done|]. rewrite drop_ge by lia. by cbn.
    + replace (Z.of_nat i + 1) with (Z.of_nat (i + 1)) by lia.
      destruct (next_bucket_spec E' (table h) rows Hc (Z.to_nat (tablelength h - Z.of_nat (i + 1))) (i + 1) ltac:(lia)) as (r & -> & Hr). rewrite bind_Ret_l.
      destruct r as [[j e]|].
      * destruct Hr as (i' & it' & post & -> & Hl & -> & Hz & Hrem). do 2 eexists. split; [done|]. rewrite Hrem. split_and!; [done|done| |done].
        by exists i', [], post.
      * do 2 eexists. split; [done|]. by rewrite Hr.
  - destruct Hn as (-> & Hz & _). rewrite (proj2 (Z.eqb_neq _ 0)) by done. cbn [negb]. do 2 eexists. split; [done|]. by cbn.
Qed.

(** The table with its blocks, by rows. *)
Record rows_ok al E h (R : gset Z) rows : Prop := {
  ro_table : table_ok E h rows;
  ro_holds : holds al R (owned h (concat rows));
  ro_count : entrycount h = Z.of_nat (length (concat rows)) /\ entrycount h < 2^32;
  ro_load : primeindex h = (prime_table_length - 1)%nat \/ entrycount h <= loadlimit h;
}.

Lemma tablelength_max E h rows : table_ok E h rows -> tablelength h < 2^32.
Proof.
  intros [_ Hpr _ _]. assert (Hall : Forall (fun p => p < 2^32) primes) by (by repeat constructor). exact (Forall_lookup_1 _ _ _ _ Hall Hpr).
Qed.

Lemma rows_ok_represents al E h R rows : rows_ok al E h R rows -> represents al E h (to_map (concat rows)) R.
Proof. intros [Ht Hh [Hc _] Hl]. split; [|done]. by exists rows. Qed.

(** The entry the iterator is at. *)
Lemma at_pos_entry al E h R rows itr it rem : rows_ok al E h R rows -> at_pos rows itr (it :: rem) ->
  exists i pre post n, rows !! i = Some (pre ++ it :: post) /\ rem = post ++ concat (drop (i + 1) rows) /\ (i < length rows)%nat /\
    i_index itr = Z.of_nat i /\ i_e itr = it_a it /\ i_parent itr = default 0 (it_a <$> last pre) /\
    it_a it <> 0 /\ denotes (it_k it) (it_s it) /\ E !! it_a it = Some (item_entry it n) /\ linked E n post.
Proof.
  intros [[[Hc _ _] _ _ _] _ _ _] (i & pre & post & Hl & [= ->] & Hi & He & Hp). destruct (Forall2_lookup_r _ _ _ _ _ Hc Hl) as (p & _ & Hch).
  destruct (linked_lookup _ _ _ _ _ Hch) as (n & ? & ? & ? & ?). exists i, pre, post, n. split_and!; try done. by eapply lookup_lt_Some.
Qed.

Lemma advance_spec al E h R rows itr it rem : rows_ok al E h R rows -> at_pos rows itr (it :: rem) ->
  exists itr', hashtable_iterator_advance E h itr = Ret (if decide (rem = []) then 0 else -1, itr') /\ i_self itr' = i_self itr /\ at_pos rows itr' rem.
Proof.
  intros Hok Hpos. destruct (at_pos_entry _ _ _ _ _ _ _ _ Hok Hpos) as (i & pre & post & n & Hl & -> & Hi & Hidx & He & Hpar & Hz & Hd & HE & Hn).
  pose proof (ro_table _ _ _ _ _ Hok) as Ht. pose proof (ok_buckets _ _ _ Ht) as [Hc Hlen _].
  destruct (advance_step E E E h rows itr i it n post HE Hz Hn Hc Hlen (tablelength_max _ _ _ Ht) Hi He Hidx) as (ret & itr' & -> & Hs & -> & Hp).
  exists itr'. split_and!; [done|done|]. destruct post as [|it' post]; [by destruct Hp|]. destruct Hp as [-> _].
  exists i, (pre ++ [it]), post. rewrite <- app_assoc, last_snoc. by cbn.
Qed.

Lemma write_slot_other E h s n E1 h1 a : write_slot E h s n = Ret (E1, h1) -> s <> NextSlot a -> E1 !! a = E !! a.
Proof.
  destruct s as [i|b]; cbn; intros Ew Hs.
  - apply bind_Ret in Ew as (t & _ & [= <- _]). done.
  - apply bind_Ret in Ew as (e & _ & [= <- _]). apply lookup_insert_ne. congruence.
Qed.

(** The link the code writes is the one that leads to the entry. *)
Lemma itr_slot E h rows i pre it post itr : Forall2 (linked E) (table h) rows -> rows !! i = Some (pre ++ it :: post) -> NoDup (it_a <$> concat rows) ->
  i_index itr = Z.of_nat i -> i_parent itr = default 0 (it_a <$> last pre) ->
  (if i_parent itr =? 0 then TableSlot (i_index itr) else NextSlot (i_parent itr)) = slot_of (Z.of_nat i) pre /\ slot_of (Z.of_nat i) pre <> NextSlot (it_a it).
Proof.
  intros Hc Hl Hnd -> ->. destruct pre as [|b pre _] using rev_ind; [done|]. rewrite last_snoc, slot_of_snoc. cbn.
  destruct (Forall2_lookup_r _ _ _ _ _ Hc Hl) as (p & _ & Hch). rewrite <- app_assoc in Hch, Hl. cbn [app] in Hch, Hl.
  destruct (linked_lookup _ _ _ _ _ Hch) as (m & Hz & _). rewrite (proj2 (Z.eqb_neq _ 0)) by done. split; [done|]. intros [= Eb].
  destruct (row_disjoint rows _ _ Hnd Hl) as [Hndr _]. rewrite fmap_app in Hndr. apply NoDup_app in Hndr as (_ & _ & Hndr). cbn in Hndr.
  apply NoDup_cons in Hndr as [Hnot _]. rewrite Eb in Hnot. apply Hnot. by left.
Qed.

Lemma remove_spec al E h R rows itr it rem : rows_ok al E h R rows -> at_pos rows itr (it :: rem) ->
  exists itr' h' E' al' rows', hashtable_iterator_remove al E h itr = Ret (if decide (rem = []) then 0 else -1, itr', h', E', al') /\ i_self itr' = i_self itr /\
    rows_ok al' E' h' ({[it_v it]} ∪ R) rows' /\ at_pos rows' itr' rem /\ it :: concat rows' ≡ₚ concat rows.
Proof.
  intros Hok Hpos. destruct (at_pos_entry _ _ _ _ _ _ _ _ Hok Hpos) as (i & pre & post & n & Hl & -> & Hi & Hidx & He & Hpar & Hz & Hd & HE & Hn).
  destruct Hok as [Ht Hh [Hcnt Hcmax] Hload]. pose proof (tablelength_max _ _ _ Ht) as Hmax. destruct Ht as [Hb Hpr Hlim Hkeys].
  pose proof (owned_addrs _ _ (h_nodup _ _ _ Hh)) as Hnd. unfold hashtable_iterator_remove. rewrite He. unfold deref at 1. rewrite HE, bind_Ret_l. cbn [item_entry e_next e_k].
  destruct (itr_slot E h rows i pre it post itr (bk_chains _ _ _ _ Hb) Hl Hnd Hidx Hpar) as [-> Hslot].
  destruct (write_slot_unlink E h rows (Z.of_nat i) pre it post n Hb Hnd ltac:(lia) ltac:(by rewrite Nat2Z.id) HE Hn) as (E1 & t1 & Ew & Hb1 & Hperm).
  rewrite Ew, bind_Ret_l. rewrite Nat2Z.id in Hb1, Hperm. set (rows' := <[i := pre ++ post]> rows) in *. set (h1 := with_entrycount _ _).
  rewrite <- (owned_perm _ _ _ Hperm), owned_cons in Hh. apply holds_give in Hh. destruct (holds_free _ _ _ _ Hh) as (al1 & -> & Hh1). rewrite bind_Ret_l.
  assert (HE1 : E1 !! it_a it = Some (item_entry it n)) by (by rewrite (write_slot_other _ _ _ _ _ _ _ Ew Hslot)).
  destruct (advance_step E1 E (delete (it_a it) E1) h1 rows' itr i it n post HE1 Hz Hn (bk_chains _ _ _ _ Hb1) (bk_len _ _ _ _ Hb1) Hmax
    ltac:(unfold rows'; by rewrite length_insert) He Hidx) as (ret & itr' & -> & Hs & -> & Hp). rewrite bind_Ret_l.
  destruct (holds_free _ _ _ _ Hh1) as (al2 & -> & Hh2). rewrite bind_Ret_l.
  assert (Hdrop : drop (i + 1) rows' = drop (i + 1) rows) by (unfold rows'; apply drop_insert_lt; lia). rewrite Hdrop in *.
  pose proof (Permutation_length Hperm) as Hlen. cbn in Hlen.
  do 4 eexists. exists rows'. split; [done|]. split; [by destruct (_ =? _)|]. split_and!; [split| |done].
  - split; [exact Hb1|done|done|]. rewrite <- Hperm in Hkeys. cbn in Hkeys. by apply NoDup_cons in Hkeys as [_ ?].
  - exact Hh2.
  - cbn [h1 with_entrycount with_table entrycount]. rewrite u32_small by lia. lia.
  - cbn [h1 with_entrycount with_table entrycount primeindex loadlimit]. rewrite u32_small by lia. destruct Hload; [by left|right; lia].
  - destruct post as [|it' post]; cbn [app].
    + destruct Hp as [Hp Hp0]. rewrite Hp0, (proj2 (Z.eqb_neq 0 (it_a it))) by done. exact Hp.
    + destruct Hp as [-> _]. cbn [i_parent i_self i_e i_index]. rewrite Z.eqb_refl. exists i, pre, post. rewrite Hdrop. unfold rows'.
      rewrite list_lookup_insert_eq by done. by cbn.
Qed.

(** ** Searching *)

Lemma itr_search_chain_spec k s E : denotes k s -> forall l pre p fuel, linked E p l -> (length l < fuel)%nat ->
  ((s ∉ (it_s <$> l)) /\ itr_search_chain fuel E (keyhash s) k (default 0 (it_a <$> last pre)) p = Some (Ret None)) \/
  exists l1 it l2, l = l1 ++ it :: l2 /\ it_s it = s /\
    itr_search_chain fuel E (keyhash s) k (default 0 (it_a <$> last pre)) p = Some (Ret (Some (it_a it, default 0 (it_a <$> last (pre ++ l1))))).
Proof.
  intros Hk. induction l as [|it l IH]; intros pre p [|fuel] Hc Hf; cbn [length] in Hf; try lia; cbn [linked] in Hc; cbn [itr_search_chain].
  - subst p. left. split; [|done]. by intros ?%elem_of_nil.
  - destruct Hc as (-> & Hp & Hit & n & Hn & Hc). rewrite (proj2 (Z.eqb_neq (it_a it) 0)) by done. unfold deref. rewrite Hn. cbn [lift fbind].
    cbn [item_entry e_h e_k e_next]. destruct (key_test k s it Hk Hit) as (b & -> & Hb). cbn [mbind option_bind]. destruct (Z.eqb_spec b 0) as [->|Hb0]; cbn [negb].
    + specialize (IH (pre ++ [it]) n fuel Hc ltac:(lia)). rewrite last_snoc in IH. cbn [fmap option_fmap option_map default from_option id] in IH. destruct IH as [[Hs ->]|(l1 & it' & l2 & -> & ? & ->)].
      * left. split; [|done]. cbn. apply not_elem_of_cons. split; [tauto|done].
      * right. exists (it :: l1), it', l2. rewrite <- app_assoc. done.
    + right. exists [], it, l. rewrite app_nil_r. split_and!; [done|symmetry; tauto|done].
Qed.

Lemma represents_rows al E h M R : represents al E h M R -> Z.of_nat (size M) < 2^32 -> exists rows, rows_ok al E h R rows /\ M = to_map (concat rows).
Proof.
  intros [(rows & Hok & Hh & -> & Hc) Hload] Hmax. rewrite to_map_size in Hmax by apply Hok. exists rows. split; [|done]. split; [done|done|lia|done].
Qed.

(** Searching puts the iterator at the entry of the key, where it can be read and
    removed; without such an entry the iterator stays as it is. *)
Theorem iterator_search_correct fuel al E h M R itr k s : represents al E h M R -> denotes k s -> (size M < fuel)%nat -> Z.of_nat (size M) < 2^32 ->
  match M !! s with
  | None => hashtable_iterator_search fuel E h itr k = Some (Ret (0, itr))
  | Some v => exists itr', hashtable_iterator_search fuel E h itr k = Some (Ret (-1, itr')) /\ hashtable_iterator_value E itr' = Ret v /\
      exists ret itr2 h' E' al', hashtable_iterator_remove al E h itr' = Ret (ret, itr2, h', E', al') /\ represents al' E' h' (delete s M) ({[v]} ∪ R)
  end.
Proof.
  intros Hrep Hk Hf Hmax. destruct (represents_rows _ _ _ _ _ Hrep Hmax) as (rows & Hok & ->). pose proof (ro_table _ _ _ _ _ Hok) as [Hb Hpr Hlim Hkeys].
  rewrite to_map_size in Hf by done. pose proof (primes_pos _ _ Hpr) as Hpos. unfold hashtable_iterator_search. rewrite (hash_denotes k s Hk). cbn [mbind option_bind].
  destruct (bucket_get E (table h) (tablelength h) rows s Hb Hpos) as (Hi & Hil & p & l & Hp & Hl & Hch). set (i := indexFor _ _) in *.
  rewrite (arr_getZ_lookup _ _ _ Hi Hp). cbn [lift fbind].
  pose proof (itr_search_chain_spec k s E Hk l [] p fuel Hch ltac:(pose proof (row_length _ _ _ Hl); lia)) as Hsearch. cbn [last fmap option_fmap option_map default from_option id] in Hsearch.
  destruct Hsearch as [[Hs ->]|(l1 & it & l2 & -> & <- & ->)].
  { rewrite (proj2 (to_map_None (concat rows) s)); [done|]. by eapply bucket_only. }
  cbn [fbind app]. rewrite (to_map_Some _ it Hkeys) by (eapply concat_elem; [exact Hl|set_solver]). eexists. split; [done|].
  assert (Hpo : at_pos rows (mk_itr (i_self itr) (it_a it) (default 0 (it_a <$> last l1)) i) (it :: l2 ++ concat (drop (Z.to_nat i + 1) rows))).
  { exists (Z.to_nat i), l1, l2. cbn. split_and!; [done|done|lia|done|done]. }
  split.
  - destruct (at_pos_entry _ _ _ _ _ _ _ _ Hok Hpo) as (? & ? & ? & n & _ & _ & _ & _ & He & _ & _ & _ & HE & _).
    unfold hashtable_iterator_value, deref. by rewrite He, HE.
  - destruct (remove_spec _ _ _ _ _ _ _ _ Hok Hpo) as (itr2 & h' & E' & al' & rows' & -> & _ & Hok' & _ & Hperm). do 5 eexists. split; [done|].
    pose proof (rows_ok_represents _ _ _ _ _ Hok') as Hrep'. rewrite (to_map_perm _ _ Hkeys (Permutation_sym Hperm)), to_map_cons, delete_insert_id; [done|].
    rewrite <- Hperm in Hkeys. cbn in Hkeys. apply NoDup_cons in Hkeys as [? _]. by apply to_map_None.
Qed.

(** ** A walk over the table *)

Section Sweep.
Context (keep : Z -> Z -> bool) (keepS : Key -> Z -> bool) (Hkeep : forall k s v, denotes k s -> keep k v = keepS s v).

Definition kept_item (it : item) : bool := keepS (it_s it) (it_v it).
Definition seen (it : item (Key:=Key)) : Z * Z := (it_k it, it_v it).
Definition kept_items (l : list item) : list item := filter (fun it => kept_item it = true) l.
Definition dropped_items (l : list item) : list item := filter (fun it => kept_item it = false) l.

Lemma dropped_cons it l : dropped_items (it :: l) = (if kept_item it then [] else [it]) ++ dropped_items l.
Proof. unfold dropped_items. rewrite filter_cons. by destruct (kept_item it); case_decide. Qed.

Lemma kept_cons it l : kept_items (it :: l) = (if kept_item it then [it] else []) ++ kept_items l.
Proof. unfold kept_items. rewrite filter_cons. by destruct (kept_item it); case_decide. Qed.

(** One round, at [it]. *)
Lemma sweep_round al E h R rows itr it rem : rows_ok al E h R rows -> at_pos rows itr (it :: rem) ->
  denotes (it_k it) (it_s it) /\ hashtable_iterator_key E itr = Ret (it_k it) /\ hashtable_iterator_value E itr = Ret (it_v it) /\
  exists itr' h' E' al' rows',
    (if keep (it_k it) (it_v it) then '(ret, itr) ← hashtable_iterator_advance E h itr; Ret (ret, itr, h, E, al)
     else hashtable_iterator_remove al E h itr) = Ret (if decide (rem = []) then 0 else -1, itr', h', E', al') /\ i_self itr' = i_self itr /\
    rows_ok al' E' h' ((if kept_item it then ∅ else {[it_v it]}) ∪ R) rows' /\ at_pos rows' itr' rem /\
    (if kept_item it then [] else [it]) ++ concat rows' ≡ₚ concat rows.
Proof using All.
  intros Hok Hpos. destruct (at_pos_entry _ _ _ _ _ _ _ _ Hok Hpos) as (i & pre & post & n & _ & _ & _ & _ & He & _ & Hz & Hd & HE & _).
  split_and!; [done|unfold hashtable_iterator_key, deref; by rewrite He, HE|unfold hashtable_iterator_value, deref; by rewrite He, HE|].
  rewrite (Hkeep _ _ _ Hd). change (keepS (it_s it) (it_v it)) with (kept_item it). destruct (kept_item it).
  - destruct (advance_spec _ _ _ _ _ _ _ _ Hok Hpos) as (itr' & -> & Hs & Hp). rewrite bind_Ret_l. exists itr', h, E, al, rows. rewrite union_empty_l_L. done.
  - destruct (remove_spec _ _ _ _ _ _ _ _ Hok Hpos) as (itr' & h' & E' & al' & rows' & -> & Hs & Hok' & Hp & Hperm). by exists itr', h', E', al', rows'.
Qed.

Lemma sweep_spec : forall rem it fuel al E h R rows itr D, rows_ok al E h R rows -> at_pos rows itr (it :: rem) -> (length rem < fuel)%nat ->
  concat rows ≡ₚ D ++ it :: rem ->
  exists itr' h' E' al' rows', sweep fuel keep al E h itr = Some (Ret (seen <$> it :: rem, itr', h', E', al')) /\ i_self itr' = i_self itr /\
    Forall (fun it => denotes (it_k it) (it_s it)) (it :: rem) /\
    rows_ok al' E' h' (list_to_set (it_v <$> dropped_items (it :: rem)) ∪ R) rows' /\ concat rows' ≡ₚ D ++ kept_items (it :: rem).
Proof using All.
  induction rem as [|it2 rem IH]; intros it [|fuel] al E h R rows itr D Hok Hpos Hf HD; cbn [length] in Hf; try lia; cbn [sweep];
    destruct (sweep_round _ _ _ _ _ _ _ _ Hok Hpos) as (Hd & -> & -> & itr1 & h1 & E1 & al1 & rows1 & Er & Hs & Hok1 & Hp1 & Hperm);
    cbn [lift fbind]; rewrite Er; cbn [lift fbind]; first [rewrite decide_True by done | rewrite decide_False by done]; cbn [Z.eqb].
  - exists itr1, h1, E1, al1, rows1. rewrite dropped_cons, kept_cons. split_and!; [done|done|by constructor| |].
    + by destruct (kept_item it); cbn in *; rewrite ?union_empty_r_L.
    + rewrite HD in Hperm. destruct (kept_item it); cbn [app] in *; [done|]. apply (Permutation_cons_inv (a := it)). rewrite Hperm, app_nil_r. symmetry. apply Permutation_cons_append.
  - destruct (IH it2 fuel al1 E1 h1 _ rows1 itr1 (D ++ (if kept_item it then [it] else [])) Hok1 Hp1 ltac:(lia)) as (itr2 & h2 & E2 & al2 & rows2 & -> & Hs2 & Hd2 & Hok2 & Hp2).
    { rewrite HD in Hperm. destruct (kept_item it); cbn [app] in *; [by rewrite <- app_assoc|]. apply (Permutation_cons_inv (a := it)). rewrite Hperm, app_nil_r. symmetry. apply Permutation_middle. }
    cbn [fbind]. exists itr2, h2, E2, al2, rows2. split_and!; [done|by rewrite Hs2|by constructor| |].
    + rewrite dropped_cons, fmap_app, list_to_set_app_L. destruct (kept_item it); cbn in *; [by rewrite union_empty_l_L in Hok2 |- *|].
      by replace ({[it_v it]} ∪ ∅ ∪ list_to_set (it_v <$> dropped_items (it2 :: rem)) ∪ R) with (list_to_set (it_v <$> dropped_items (it2 :: rem)) ∪ ({[it_v it]} ∪ R)) by set_solver.
    + rewrite kept_cons. by rewrite Hp2, <- app_assoc.
Qed.

Lemma to_map_kept l : NoDup (it_s <$> l) -> to_map (kept_items l) = filter (fun sv => keepS sv.1 sv.2 = true) (to_map l).
Proof.
  induction l as [|it l IH]; intros Hnd; [symmetry; apply map_filter_empty|]. cbn in Hnd. apply NoDup_cons in Hnd as [Hnot Hnd].
  pose proof (proj2 (to_map_None l (it_s it)) Hnot) as Hn. rewrite kept_cons, to_map_cons, map_filter_insert. unfold kept_item.
  destruct (keepS (it_s it) (it_v it)) eqn:Ek; cbn [app fst snd]; case_decide as Hc; cbn in Hc; try congruence.
  - by rewrite to_map_cons, IH.
  - rewrite IH by done. rewrite delete_id; [done|]. done.
Qed.

Lemma values_dropped l : NoDup (it_s <$> l) -> list_to_set (it_v <$> dropped_items l) = map_img (SA := gset Z) (filter (fun sv => keepS sv.1 sv.2 = false) (to_map l)).
Proof.
  intros Hnd. apply set_eq. intros x. rewrite elem_of_list_to_set, elem_of_map_img. split.
  - intros (it & -> & [Hk Hit]%list_elem_of_filter)%list_elem_of_fmap. exists (it_s it). apply map_lookup_filter_Some. split; [by apply to_map_Some|done].
  - intros (s & [Hs%elem_of_list_to_map_2 Hk]%map_lookup_filter_Some). apply list_elem_of_fmap in Hs as (it & [= -> ->] & Hit).
    apply list_elem_of_fmap_2, list_elem_of_filter. by split.
Qed.

Lemma to_map_list l : NoDup (it_s <$> l) -> map_to_list (to_map l : gmap Key Z) ≡ₚ (fun it => (it_s it, it_v it)) <$> l.
Proof. intros Hnd. apply map_to_list_to_map. by rewrite fmap_keys. Qed.

Lemma zip_items (l : list (item (Key:=Key))) : zip (it_s <$> l) (seen <$> l).*2 = (fun it => (it_s it, it_v it)) <$> l.
Proof. induction l as [|it l IH]; cbn; [done|]. by rewrite <- IH. Qed.

(** A new iterator is at the first entry. *)
Lemma iterator_spec al E h M R : represents al E h M R -> Z.of_nat (size M) < 2^32 ->
  exists itr al' rows, hashtable_iterator al h = Ret (Some itr, al') /\ (i_self itr ∉ al_live al) /\ rows_ok al' E h ({[i_self itr]} ∪ R) rows /\ M = to_map (concat rows) /\
    at_pos rows itr (concat rows).
Proof.
  intros [(rows & Hok & Hh & -> & Hc) Hload] Hmax. rewrite to_map_size in Hmax by apply Hok. unfold hashtable_iterator.
  destruct (malloc_total al sizeof_itr) as (p & al1 & Em). destruct (malloc_fresh _ _ _ _ Em) as (Hp & Hnew & _).
  destruct (holds_malloc al R _ sizeof_itr Hh) as (p' & al' & Em' & _ & Hh1). rewrite Em in Em'. injection Em' as <- <-. rewrite Em, bind_Ret_l, (proj2 (Z.eqb_neq p 0)) by done.
  assert (Hrows : rows_ok al1 E h ({[p]} ∪ R) rows) by (split; [done|by apply holds_give|lia|done]). destruct (Z.eqb_spec (entrycount h) 0) as [Hz|Hz].
  - exists (mk_itr p 0 0 (tablelength h)), al1, rows. assert (concat rows = []) as -> by (apply length_zero_iff_nil; lia). by split_and!.
  - pose proof (ok_buckets _ _ _ Hok) as [Hch Hlen _].
    destruct (next_bucket_spec E (table h) rows Hch (Z.to_nat (tablelength h)) 0 ltac:(lia)) as (r & Er & Hr). change (Z.of_nat 0) with 0 in Er. rewrite Er, bind_Ret_l.
    rewrite drop_0 in Hr. destruct r as [[j e]|]; [|rewrite Hr in Hc; cbn in Hc; lia]. destruct Hr as (i & it & post & -> & Hl & -> & _ & Hrem).
    exists (mk_itr p (it_a it) 0 (Z.of_nat i)), al1, rows. split_and!; [done|done|done|done|]. rewrite Hrem. by exists i, [], post.
Qed.

(** C30.  A walk with an iterator, from a new one to the end of the table, removing
    the pairs that are not to be kept.  It sees every pair of the map exactly once
    (the pairs removed on the way and the moves to other buckets do not disturb it),
    and then the table holds the pairs that were kept; the entries and keys of the
    others have been freed, and their values and the iterator belong to the client.
    On an empty table the iterator is at its end. *)
Theorem iterator_sweep_correct fuel al E h M R : represents al E h M R -> (size M <= fuel)%nat -> Z.of_nat (size M) < 2^32 ->
  exists itr al1, hashtable_iterator al h = Ret (Some itr, al1) /\ (i_self itr ∉ al_live al) /\
    if decide (M = ∅) then hashtable_iterator_advance E h itr = Ret (0, itr)
    else exists vis itr' h' E' al' ks, sweep fuel keep al1 E h itr = Some (Ret (vis, itr', h', E', al')) /\
      Forall2 denotes vis.*1 ks /\ zip ks vis.*2 ≡ₚ map_to_list M /\
      represents al' E' h' (filter (fun sv => keepS sv.1 sv.2 = true) M)
        (map_img (SA := gset Z) (filter (fun sv => keepS sv.1 sv.2 = false) M) ∪ ({[i_self itr]} ∪ R)).
Proof using All.
  intros Hrep Hf Hmax. destruct (iterator_spec _ _ _ _ _ Hrep Hmax) as (itr & al1 & rows & Ei & Hnew & Hok & -> & Hpos).
  pose proof (ok_keys _ _ _ (ro_table _ _ _ _ _ Hok)) as Hnd. rewrite to_map_size in Hf by done. exists itr, al1. split_and!; [done|done|].
  destruct (concat rows) as [|it rem] eqn:Erows.
  { rewrite decide_True by done. unfold hashtable_iterator_advance. by rewrite Hpos. }
  rewrite decide_False by (rewrite to_map_cons; apply insert_non_empty).
  destruct (sweep_spec rem it fuel al1 E h _ rows itr [] Hok Hpos) as (itr' & h' & E' & al' & rows' & Esw & _ & Hd & Hok' & Hperm); [cbn in Hf; lia|by rewrite Erows|].
  exists (seen <$> it :: rem), itr', h', E', al', (it_s <$> it :: rem). split_and!; [done| | |].
  - rewrite <- list_fmap_compose. apply Forall2_fmap, Forall_Forall2_diag. exact Hd.
  - rewrite to_map_list by done. by rewrite zip_items.
  - rewrite <- to_map_kept, <- values_dropped by done. cbn [app] in Hperm. rewrite <- (to_map_perm (concat rows')); [by apply rows_ok_represents|apply Hok'|done].
Qed.
End Sweep.
End Props.

(** A table with the pairs (16, 32) and (48, 64), of which the first is kept. *)
Lemma iterator_sweep_correct_witness :
  let al := mk_libc {[16 := 8; 32 := 8; 48 := 8; 64 := 8]} in
  exists h E al1 itr al2 vis itr' h' E' al', @hashtable_iterator libc _ al1 h = Ret (Some itr, al2) /\ hashtable_count h = 2 /\
    @sweep libc _ 2 (fun k _ => k =? 16) al2 E h itr = Some (Ret (vis, itr', h', E', al')) /\ vis ≡ₚ [(16, 32); (48, 64)] /\
    @represents libc _ Z _ _ number_keys number_key_laws al' E' h' {[16 := 32]} {[64; i_self itr]}.
Proof.
  intros al. pose (rl := fun (al : libc) (_ _ : Z) => Ret (0, al)).
  destruct (@create_hashtable_spec libc _ _ Z _ _ number_keys number_key_laws rl al ∅ 16 ltac:(lia)) as (h0 & al0 & _ & _ & Hrep0).
  destruct (@hashtable_insert_spec libc _ _ Z _ _ number_keys number_key_laws rl 5 al0 ∅ h0 ∅ _ 16 32 16 Hrep0 eq_refl) as (h1 & E1 & al1 & _ & Hrep1);
    [done|by vm_compute|by vm_compute|done|rewrite map_size_empty; lia..|].
  destruct (@hashtable_insert_spec libc _ _ Z _ _ number_keys number_key_laws rl 5 al1 E1 h1 _ _ 48 64 48 Hrep1 eq_refl) as (h & E & al2 & _ & Hrep);
    [done|by vm_compute|by vm_compute|done|vm_compute; lia|by vm_compute|].
  set (M := <[48 := 64]> (<[16 := 32]> ∅)) in *.
  destruct (@iterator_sweep_correct libc _ _ Z _ _ number_keys number_key_laws (fun k _ => k =? 16) (fun s _ => s =? 16) ltac:(by intros k s v ->) 2 al2 E h M _ Hrep)
    as (itr & al3 & Ei & _ & Hsw); [vm_compute; lia|by vm_compute|].
  rewrite decide_False in Hsw by (apply insert_non_empty). destruct Hsw as (vis & itr' & h' & E' & al' & ks & Es & Hd & Hperm & Hrep').
  exists h, E, al2, itr, al3, vis, itr', h', E', al'. split_and!; [exact Ei|by apply (@represents_size libc _ Z _ _ number_keys number_key_laws) in Hrep|exact Es| |].
  - assert (ks = vis.*1) as -> by (clear -Hd; induction Hd as [|k s l l' Hk _ IH]; [done|by rewrite Hk, IH]). rewrite zip_fst_snd in Hperm. rewrite Hperm. vm_compute. apply Permutation_swap.
  - replace ({[64; i_self itr]} : gset Z) with (map_img (SA := gset Z) (filter (fun sv : Z * Z => (sv.1 =? 16) = false) M) ∪ ({[i_self itr]} ∪ (al_live al ∖ {[16; 32]} ∖ {[48; 64]}))); [exact Hrep'|].
    replace (al_live al ∖ {[16; 32]} ∖ {[48; 64]}) with (∅ : gset Z) by (by vm_compute). replace (map_img _) with ({[64]} : gset Z) by (by vm_compute). set_solver.
Defined.
