(* ===== verification/Ukv.v ===== *)
(** * The example key-value store (examples/ukv/ukv.c)

    Keys are C strings, hashed by [hashfn] and compared with [strcmp]; the table of
    file Hashtable does the rest.  The theorem is about whole sessions: created,
    used by any sequence of requests and destroyed, the store answers like a map
    from strings to values and has freed what it was given. *)

From S2P Require Export HashtableProps LibcString.

(** [while ((c = *k++)) hash = ((hash << 5) + hash) + c;] *)
Fixpoint hashfn_loop (fuel : nat) (m : mem) (k hash : Z) : option Z :=
  match fuel with
  | O => None
  | S fuel' =>
      let c := schar (mget m k) in
      if c =? 0 then Some hash
      else hashfn_loop fuel' m (k + 1) (u64 (u64 (u64 (Z.shiftl hash 5) + hash) + c))
  end.
Definition ukv_hashfn (fuel : nat) (m : mem) (k : Z) : option Z :=
  hash ← hashfn_loop fuel m k 5381; Some (u32 hash).

Definition ukv_eqfn (fuel : nat) (m : mem) (k1 k2 : Z) : option Z :=
  r ← strcmp fuel m k1 k2; Some (if r =? 0 then 1 else 0).

(** The functions the table is linked with. *)
Definition ukv_keys (fuel : nat) (m : mem) : Keys := {|
  hashfn := ukv_hashfn fuel m; eqfn := ukv_eqfn fuel m;
|}.

(** [struct ukv], with its own address. *)
Record ukv := mk_ukv { u_self : Z; u_h : hashtable }.

Section Store.
Context `{Build} {S : Type} `{Allocator S} (al_realloc : S -> Z -> Z -> outcome (Z * S)) (fuel : nat) (m : mem).
Implicit Types (al : S) (E : gmap Z entry) (u : ukv).
#[local] Instance keys : Keys := ukv_keys fuel m.

Definition ukv_init al : outcome (ukv * S) :=
  '(p, al) ← al_malloc al 8;
  c_assert (negb (p =? 0));;
  '(h, al) ← create_hashtable al 16;
  c_assert (bool_decide (is_Some h));;
  match h with Some h => Ret (mk_ukv p h, al) | None => Stop OutOfBounds end.

Definition ukv_fini al E u : option (outcome S) :=
  al ⇐ hashtable_destroy fuel al E (u_h u) true;
  lift (al_free al (u_self u)).

Definition ukv_get E u (key : Z) : option (outcome Z) :=
  _ ⇐ lift (c_assert (negb (u_self u =? 0)));
  _ ⇐ lift (c_assert (negb (key =? 0)));
  hashtable_search fuel E (u_h u) key.

Definition ukv_set al E u (key value : Z) : option (outcome (Z * ukv * gmap Z entry * S)) :=
  _ ⇐ lift (c_assert (negb (u_self u =? 0)));
  _ ⇐ lift (c_assert (negb (key =? 0)));
  _ ⇐ lift (c_assert (negb (value =? 0)));
  v ⇐ hashtable_search fuel E (u_h u) key;
  if negb (v =? 0) then
    al ⇐ lift (al_free al key);
    al ⇐ lift (al_free al value);
    Some (Ret (v, u, E, al))
  else
    '(r, h, E, al) ⇐ hashtable_insert al_realloc fuel al E (u_h u) key value;
    _ ⇐ lift (c_assert (negb (r =? 0)));
    Some (Ret (0, mk_ukv (u_self u) h, E, al)).

Definition ukv_del al E u (key : Z) : option (outcome (ukv * gmap Z entry * S)) :=
  _ ⇐ lift (c_assert (negb (u_self u =? 0)));
  _ ⇐ lift (c_assert (negb (key =? 0)));
  '(v, h, E, al) ⇐ hashtable_remove fuel al E (u_h u) key;
  al ⇐ lift (if negb (v =? 0) then al_free al v else Ret al);
  Some (Ret (mk_ukv (u_self u) h, E, al)).

(** A session: the requests in order, with the answer to each (0 for [ukv_del]). *)
Inductive request := Get (key : Z) | Set_ (key value : Z) | Del (key : Z).

Definition ukv_request al E u (r : request) : option (outcome (Z * ukv * gmap Z entry * S)) :=
  match r with
  | Get key => v ⇐ ukv_get E u key; Some (Ret (v, u, E, al))
  | Set_ key value => ukv_set al E u key value
  | Del key => '(u, E, al) ⇐ ukv_del al E u key; Some (Ret (0, u, E, al))
  end.

Fixpoint ukv_run al E u (rs : list request) : option (outcome (list Z * ukv * gmap Z entry * S)) :=
  match rs with
  | [] => Some (Ret ([], u, E, al))
  | r :: rs' =>
      '(v, u, E, al) ⇐ ukv_request al E u r;
      '(vs, u, E, al) ⇐ ukv_run al E u rs';
      Some (Ret (v :: vs, u, E, al))
  end.

Definition session al (rs : list request) : option (outcome (list Z * S)) :=
  '(u, al) ⇐ lift (ukv_init al);
  '(vs, u, E, al) ⇐ ukv_run al ∅ u rs;
  al ⇐ ukv_fini al E u;
  Some (Ret (vs, al)).
End Store.

(** ** The store as a map *)

(** The bytes of the string at [k]. *)
Fixpoint c_string (fuel : nat) (m : mem) (k : Z) : list Z :=
  match fuel with
  | O => []
  | S fuel' => if mget m k =? 0 then [] else mget m k :: c_string fuel' m (k + 1)
  end.

Section Spec.
Context (fuel : nat) (m : mem).
Implicit Types (M : gmap (list Z) Z) (R : gset Z).

Definition map_request M (r : request) : Z * gmap (list Z) Z :=
  match r with
  | Get key => (default 0 (M !! c_string fuel m key), M)
  | Set_ key value =>
      match M !! c_string fuel m key with
      | Some v => (v, M)
      | None => (0, <[c_string fuel m key := value]> M)
      end
  | Del key => (0, delete (c_string fuel m key) M)
  end.

Fixpoint map_run M (rs : list request) : list Z :=
  match rs with
  | [] => []
  | r :: rs' => (map_request M r).1 :: map_run (map_request M r).2 rs'
  end.

(** A key is the address of a string; the arguments of [ukv_set] are blocks of the
    client, which the store takes over. *)
Definition is_key (k : Z) : Prop := k <> 0 /\ cstr m k (c_string fuel m k) /\ (length (c_string fuel m k) < fuel)%nat.

Definition request_ok R (r : request) : Prop :=
  match r with
  | Get key | Del key => is_key key
  | Set_ key value => is_key key /\ value <> 0 /\ key ∈ R /\ value ∈ R /\ key <> value
  end.

Definition handed_over R (r : request) : gset Z :=
  match r with Set_ key value => R ∖ {[key; value]} | _ => R end.

Fixpoint requests_ok R (rs : list request) : Prop :=
  match rs with [] => True | r :: rs' => request_ok R r /\ requests_ok (handed_over R r) rs' end.
End Spec.

(** ** The functions on keys keep what the table asks of them *)

Definition string_hash (s : list Z) : Z :=
  u32 (fold_left (fun hash c => u64 (u64 (u64 (Z.shiftl hash 5) + hash) + schar c)) s 5381).

Lemma hashfn_loop_spec m k s fuel h : cstr m k s -> (length s < fuel)%nat ->
  hashfn_loop fuel m k h = Some (fold_left (fun hash c => u64 (u64 (u64 (Z.shiftl hash 5) + hash) + schar c)) s h).
Proof.
  revert k fuel h. induction s as [|c s IH]; intros k [|fuel] h Hs Hf; cbn [length] in Hf; try lia; cbn [hashfn_loop cstr] in *; rewrite schar_zero.
  - by rewrite Hs.
  - destruct Hs as (<- & Hz & Hs). rewrite (proj2 (Z.eqb_neq _ _)) by done. apply IH; [done|lia].
Qed.

(** A key pointer stands for the string at its address; [good] is what a client
    wants to know of the keys it has stored. *)
#[global] Instance ukv_key_laws fuel m (good : Z -> list Z -> Prop) : @KeyLaws (list Z) (ukv_keys fuel m).
Proof.
  refine {| denotes k s := cstr m k s /\ (length s < fuel)%nat /\ good k s; khash := string_hash |}.
  - intros k s (Hs & Hf & _). cbn. unfold ukv_hashfn. by rewrite (hashfn_loop_spec m k s) by done.
  - intros k1 k2 s1 s2 (H1 & Hf1 & _) (H2 & Hf2 & _). cbn. unfold ukv_eqfn. rewrite (strcmp_correct m k1 k2 s1 s2) by done. cbn [mbind option_bind].
    eexists. split; [done|]. rewrite <- (str_diff_zero s1 s2) by (by eapply cstr_pos). destruct (Z.eqb_spec (str_diff s1 s2) 0); split; done || lia.
Defined.

Section Sessions.
Context `{Build} {S : Type} `{AllocatorLaws S} (al_realloc : S -> Z -> Z -> outcome (Z * S)) (fuel : nat) (m : mem).
Context (good : Z -> list Z -> Prop).
Implicit Types (al : S) (E : gmap Z entry) (u : ukv) (M : gmap (list Z) Z) (R : gset Z).
Abbreviation rep := (@represents S _ (list Z) _ _ (ukv_keys fuel m) (ukv_key_laws fuel m good)).

Record store_ok al E u M R : Prop := {
  st_table : rep al E (u_h u) M ({[u_self u]} ∪ R);
  st_self : (u_self u ∉ R) /\ u_self u <> 0;
  st_values : map_Forall (fun _ v => v <> 0) M;
}.

Lemma assert_nonzero x : x <> 0 -> c_assert (negb (x =? 0)) = Ret tt.
Proof. intros Hx. rewrite (proj2 (Z.eqb_neq x 0)) by done. apply c_assert_true. Qed.

Lemma ukv_get_spec al E u M R k : store_ok al E u M R -> is_key fuel m k -> good k (c_string fuel m k) -> (size M < fuel)%nat ->
  ukv_get fuel m E u k = Some (Ret (default 0 (M !! c_string fuel m k))).
Proof.
  intros [Hrep [_ Hself] _] (Hk & Hs & Hl) Hg Hf. unfold ukv_get. rewrite !assert_nonzero by done. cbn [lift fbind].
  exact (hashtable_search_spec fuel al E _ M _ k (c_string fuel m k) Hrep (conj Hs (conj Hl Hg)) Hf).
Qed.

Lemma ukv_set_spec al E u M R k v : store_ok al E u M R -> request_ok fuel m R (Set_ k v) -> good k (c_string fuel m k) -> (size M < fuel)%nat -> Z.of_nat (size M) + 1 < 2^32 ->
  exists u' E' al', ukv_set al_realloc fuel m al E u k v = Some (Ret ((map_request fuel m M (Set_ k v)).1, u', E', al')) /\
    store_ok al' E' u' (map_request fuel m M (Set_ k v)).2 (R ∖ {[k; v]}).
Proof.
  intros [Hrep [HselfR Hself] Hvals] ((Hk & Hs & Hl) & Hv & HkR & HvR & Hkv) Hg Hf Hmax. unfold ukv_set, keys. rewrite !assert_nonzero by done. cbn [lift fbind].
  rewrite (hashtable_search_spec fuel al E _ M _ k (c_string fuel m k) Hrep (conj Hs (conj Hl Hg)) Hf). cbn [fbind map_request].
  destruct (M !! c_string fuel m k) as [v0|] eqn:HM; cbn [from_option id fst snd].
  - rewrite (proj2 (Z.eqb_neq v0 0)) by (exact (Hvals _ _ HM)). cbn [negb].
    destruct (represents_free _ _ _ _ _ k Hrep) as (al1 & -> & Hrep1); [set_solver|]. cbn [lift fbind].
    destruct (represents_free _ _ _ _ _ v Hrep1) as (al2 & -> & Hrep2); [set_solver|]. cbn [lift fbind].
    do 3 eexists. split; [done|]. split; [|set_solver|done].
    by replace ({[u_self u]} ∪ R ∖ {[k; v]}) with (({[u_self u]} ∪ R) ∖ {[k]} ∖ {[v]}) by set_solver.
  - cbn [Z.eqb negb]. destruct (hashtable_insert_spec al_realloc fuel al E (u_h u) M _ k v (c_string fuel m k) Hrep (conj Hs (conj Hl Hg)) HM)
      as (h' & E' & al' & -> & Hrep'); [set_solver|set_solver|done|done|done|]. cbn [fbind].
    rewrite (assert_nonzero (-1)) by done. cbn [lift fbind]. do 3 eexists. split; [done|]. split; cbn [u_self u_h].
    + by replace ({[u_self u]} ∪ R ∖ {[k; v]}) with (({[u_self u]} ∪ R) ∖ {[k; v]}) by set_solver.
    + set_solver.
    + by apply map_Forall_insert_2.
Qed.

Lemma ukv_del_spec al E u M R k : store_ok al E u M R -> is_key fuel m k -> good k (c_string fuel m k) -> (size M < fuel)%nat -> Z.of_nat (size M) + 1 < 2^32 ->
  exists u' E' al', ukv_del fuel m al E u k = Some (Ret (u', E', al')) /\ store_ok al' E' u' (delete (c_string fuel m k) M) R.
Proof.
  intros [Hrep [HselfR Hself] Hvals] (Hk & Hs & Hl) Hg Hf Hmax. unfold ukv_del, keys. rewrite !assert_nonzero by done. cbn [lift fbind].
  pose proof (hashtable_remove_spec al_realloc fuel al E (u_h u) M _ k (c_string fuel m k) Hrep (conj Hs (conj Hl Hg)) Hf ltac:(lia)) as Hrem.
  destruct (M !! c_string fuel m k) as [v|] eqn:HM.
  - destruct Hrem as (h' & E' & al1 & -> & Hrep1 & Hnot). cbn [fbind]. rewrite (proj2 (Z.eqb_neq v 0)) by (exact (Hvals _ _ HM)). cbn [negb].
    destruct (represents_free _ _ _ _ _ v Hrep1) as (al2 & -> & Hrep2); [set_solver|]. cbn [lift fbind].
    do 3 eexists. split; [done|]. split; cbn [u_self u_h]; [|done|by apply map_Forall_delete].
    by replace ({[u_self u]} ∪ R) with (({[v]} ∪ ({[u_self u]} ∪ R)) ∖ {[v]}) by set_solver.
  - rewrite Hrem. cbn [fbind Z.eqb negb lift]. do 3 eexists. split; [done|]. rewrite delete_id by done. by destruct u.
Qed.

Lemma ukv_request_spec al E u M R r : (forall k s, good k s) -> store_ok al E u M R -> request_ok fuel m R r -> (size M < fuel)%nat -> Z.of_nat (size M) + 1 < 2^32 ->
  exists u' E' al', ukv_request al_realloc fuel m al E u r = Some (Ret ((map_request fuel m M r).1, u', E', al')) /\
    store_ok al' E' u' (map_request fuel m M r).2 (handed_over R r) /\ (size (map_request fuel m M r).2 <= size M + 1)%nat.
Proof.
  intros Hg Hst Hr Hf Hmax. destruct r as [k|k v|k]; cbn [ukv_request handed_over].
  - rewrite (ukv_get_spec al E u M R k) by done. cbn [fbind]. do 3 eexists. split_and!; [done|done|cbn; lia].
  - destruct (ukv_set_spec al E u M R k v Hst Hr (Hg _ _) Hf Hmax) as (u' & E' & al' & -> & Hst'). do 3 eexists. split_and!; [done|done|].
    cbn [map_request]. destruct (M !! c_string fuel m k) eqn:HM; cbn [snd]; [lia|]. rewrite map_size_insert_None by done. lia.
  - destruct (ukv_del_spec al E u M R k Hst Hr (Hg _ _) Hf Hmax) as (u' & E' & al' & -> & Hst'). cbn [fbind]. do 3 eexists. split_and!; [done|done|].
    cbn [map_request snd]. pose proof (map_subseteq_size _ _ (delete_subseteq M (c_string fuel m k))). lia.
Qed.

Lemma ukv_run_spec rs : (forall k s, good k s) -> forall al E u M R, store_ok al E u M R -> requests_ok fuel m R rs -> (size M + length rs < fuel)%nat ->
  Z.of_nat (size M + length rs) + 1 < 2^32 ->
  exists u' E' al' M', ukv_run al_realloc fuel m al E u rs = Some (Ret (map_run fuel m M rs, u', E', al')) /\
    store_ok al' E' u' M' (fold_left handed_over rs R) /\ (size M' < fuel)%nat.
Proof.
  intros Hg. induction rs as [|r rs IH]; intros al E u M R Hst Hok Hf Hmax; cbn [length] in *; cbn [ukv_run map_run fold_left].
  { exists u, E, al, M. split_and!; [done|done|lia]. }
  destruct Hok as [Hr Hok]. destruct (ukv_request_spec al E u M R r Hg Hst Hr) as (u1 & E1 & al1 & -> & Hst1 & Hs1); [lia|lia|]. cbn [fbind].
  destruct (IH al1 E1 u1 _ _ Hst1 Hok ltac:(lia) ltac:(lia)) as (u2 & E2 & al2 & M2 & -> & Hst2 & Hs2). cbn [fbind].
  exists u2, E2, al2, M2. done.
Qed.

Lemma ukv_init_spec al : exists u al', ukv_init al = Ret (u, al') /\ store_ok al' ∅ u ∅ (al_live al).
Proof.
  unfold ukv_init. destruct (malloc_total al 8) as (p & al1 & Em). destruct (malloc_fresh _ _ _ _ Em) as (Hp & Hfresh & Hlive). rewrite Em, bind_Ret_l.
  rewrite assert_nonzero, bind_Ret_l by done.
  destruct (create_hashtable_spec (H2 := ukv_keys fuel m) (H3 := ukv_key_laws fuel m good) (Key := list Z) al_realloc al1 ∅ 16 ltac:(lia)) as (h & al2 & -> & _ & Hrep). rewrite bind_Ret_l.
  rewrite bool_decide_true, c_assert_true, bind_Ret_l by done. do 2 eexists. split; [done|]. split; cbn [u_self u_h]; [|done|done].
  by rewrite <- Hlive.
Qed.

End Sessions.

Section Session.
Context `{Build} {S : Type} `{AllocatorLaws S} (al_realloc : S -> Z -> Z -> outcome (Z * S)) (fuel : nat) (m : mem).

(** A whole session of the store.  Created, given any sequence of requests and
    destroyed, in a memory where the keys are strings and the arguments of
    [ukv_set] blocks of the client, the store returns to every request what a map
    from strings to values returns ([ukv_set] keeps the value a key has, and
    returns it), never frees a block twice or a block that is not live, and leaves
    exactly those of the client's blocks live that were not handed over to it. *)
Theorem ukv_session_correct (al : S) rs : requests_ok fuel m (al_live al) rs -> (length rs < fuel)%nat -> Z.of_nat (length rs) + 1 < 2^32 ->
  exists al', session al_realloc fuel m al rs = Some (Ret (map_run fuel m ∅ rs, al')) /\
    al_live al' = fold_left handed_over rs (al_live al).
Proof.
  intros Hok Hf Hmax. unfold session. destruct (ukv_init_spec al_realloc fuel m (fun _ _ => True) al) as (u & al1 & -> & Hst). cbn [lift fbind].
  destruct (ukv_run_spec al_realloc fuel m (fun _ _ => True) rs (fun _ _ => I) al1 ∅ u ∅ _ Hst Hok) as (u2 & E2 & al2 & M2 & -> & [Hrep [Hself _] _] & Hs2); [rewrite map_size_empty; lia..|]. cbn [fbind].
  unfold ukv_fini, keys. destruct (hashtable_destroy_spec al_realloc fuel true al2 E2 (u_h u2) M2 _ Hrep Hs2) as (al3 & -> & Hlive). cbn [fbind].
  destruct (free_live al3 (u_self u2)) as (al4 & -> & Hl4); [set_solver|]. cbn [lift fbind]. exists al4. split; [done|]. rewrite Hl4, Hlive. set_solver.
Qed.
End Session.

(** Two keys, one set twice, one deleted, over the allocator of the C library:
    blocks 16 ("k") and 32 (its value), 48 ("k" again) and 64, 80 ("q") stays with
    the client. *)
Lemma ukv_session_correct_witness :
  let B := debug_build 2 in
  let m := put_bytes (put_bytes (put_bytes ∅ 16 [107; 0]) 48 [107; 0]) 80 [113; 0] in
  let al := mk_libc {[16 := 2; 32 := 4; 48 := 2; 64 := 4; 80 := 2]} in
  let rs := [Set_ 16 32; Get 80; Get 48; Set_ 48 64; Del 16; Get 80] in
  exists al', session (fun al _ _ => Ret (0, al)) 20 m al rs = Some (Ret ([0; 0; 32; 32; 0; 0], al')) /\ al_live al' = {[80]}.
Proof.
  intros B m al rs. destruct (ukv_session_correct (fun al _ _ => Ret (0, al)) 20 m al rs) as (al' & E & Hl);
    [vm_compute; split_and!; (done || lia)|cbn; lia|cbn; lia|].
  exists al'. split; [exact E|]. rewrite Hl. by vm_compute.
Defined.
