(* ===== verification/UkvNet.v ===== *)
(** * The text protocol of the key-value store (examples/ukv/ukv_net.c)

    [ukv_recv] parses a request, executes it and builds the reply in fresh blocks.
    The theorem says that it answers every message as a map from strings to strings
    would, whatever the message: [net_step] is that map. *)

From S2P Require Export Ukv.

(** ** The code *)

Section Recv.
Context `{Build} {S : Type} `{Allocator S} (al_realloc : S -> Z -> Z -> outcome (Z * S)) (fuel : nat).
Implicit Types (al : S) (E : gmap Z entry) (u : ukv) (m : mem).

(** [while ( *p != stop && *p != 0) ++p;] *)
Fixpoint scan (f : nat) m (p stop : Z) : option Z :=
  match f with
  | O => None
  | Datatypes.S f' => if (mget m p =? stop) || (mget m p =? 0) then Some p else scan f' m (p + 1) stop
  end.

(** [strdup] of a string literal, whose bytes are not part of the modelled memory. *)
Definition strdup_lit m al (s : list Z) : outcome (Z * mem * S) :=
  '(p, al) ← al_malloc al (Z.of_nat (length s) + 1);
  if p =? 0 then Ret (0, m, al) else Ret (p, put_bytes m p (s ++ [0]), al).

Definition error_text : list Z := [37; 101; 114; 114; 111; 114; 13; 10].  (* "%error\r\n" *)
Definition ok_text : list Z := [33; 13; 10].                              (* "!\r\n" *)

(** The reply to a request that found [r], 0 for nothing. *)
Definition answer m al (r : Z) : option (outcome (Z * mem * S)) :=
  n ← (if negb (r =? 0) then strlen fuel m r else Some 0);
  let rsize := if negb (r =? 0) then s32 (u64 (3 + n)) else 3 in
  '(s, al) ⇐ lift (al_malloc al (u64 (rsize + 1)));
  let m := store 1 m s 33 in
  m ← (if negb (r =? 0) then strcpy fuel m (s + 1) r else Some m);
  let m := store 1 m (s + (rsize - 2)) 13 in
  let m := store 1 m (s + (rsize - 1)) 10 in
  let m := store 1 m (s + rsize) 0 in
  Some (Ret (s, m, al)).

(** The key of a "-" or "?" request: from [k] to the carriage return; [None] when
    there is none or the key is empty. *)
Definition scan_key m (k stop : Z) : option (option Z) :=
  ke ← scan fuel m k stop;
  Some (if mget m ke =? 0 then None else if ke - k <=? 0 then None else Some ke).

Definition error_reply m al E u : option (outcome (Z * mem * ukv * gmap Z entry * S)) :=
  '(r, m, al) ⇐ lift (strdup_lit m al error_text); Some (Ret (r, m, u, E, al)).

(** [ukv_recv]: the address of the reply, 0 for the request to terminate.  The two
    copies that are the arguments of [ukv_set] are made from left to right. *)
Definition ukv_recv m al E u (msg : Z) : option (outcome (Z * mem * ukv * gmap Z entry * S)) :=
  let cmd := mget m msg in
  if cmd =? 43 then (* '+' *)
    let k := msg + 1 in
    ke ← scan_key m k 44;
    match ke with
    | None => error_reply m al E u
    | Some ke =>
        let v := ke + 1 in
        ve ← scan_key m v 13;
        match ve with
        | None => error_reply m al E u
        | Some ve =>
            '(key, m, al) ⇐ lift (strndup m al k (ke - k));
            '(value, m, al) ⇐ lift (strndup m al v (ve - v));
            '(r, u, E, al) ⇐ ukv_set al_realloc fuel m al E u key value;
            '(s, m, al) ⇐ answer m al r;
            Some (Ret (s, m, u, E, al))
        end
    end
  else if cmd =? 45 then (* '-' *)
    let k := msg + 1 in
    ke ← scan_key m k 13;
    match ke with
    | None => error_reply m al E u
    | Some ke =>
        '(key, m, al) ⇐ lift (strndup m al k (ke - k));
        '(u, E, al) ⇐ ukv_del fuel m al E u key;
        al ⇐ lift (al_free al key);
        '(r, m, al) ⇐ lift (strdup_lit m al ok_text);
        Some (Ret (r, m, u, E, al))
    end
  else if cmd =? 63 then (* '?' *)
    let k := msg + 1 in
    ke ← scan_key m k 13;
    match ke with
    | None => error_reply m al E u
    | Some ke =>
        '(key, m, al) ⇐ lift (strndup m al k (ke - k));
        r ⇐ ukv_get fuel m E u key;
        al ⇐ lift (al_free al key);
        '(s, m, al) ⇐ answer m al r;
        Some (Ret (s, m, u, E, al))
    end
  else if cmd =? 37 then Some (Ret (0, m, u, E, al)) (* '%' *)
  else error_reply m al E u.

Definition ukv_done al (reply : Z) : outcome S := al_free al reply.
End Recv.

(** ** The protocol on strings *)

(** The part before the first [c]. *)
Fixpoint before_char (c : Z) (s : list Z) : option (list Z) :=
  match s with
  | [] => None
  | x :: s' => if x =? c then Some [] else (fun p => x :: p) <$> before_char c s'
  end.

(** A field is what comes before its terminator; it is not empty. *)
Definition field (c : Z) (s : list Z) : option (list Z) :=
  match before_char c s with Some (x :: p) => Some (x :: p) | _ => None end.

Implicit Types V : gmap (list Z) (list Z).

Definition reply_text (v : option (list Z)) : list Z := 33 :: default [] v ++ [13; 10].

(** The reply to message [s], [None] for none, and the new contents. *)
Definition net_step V (s : list Z) : option (list Z) * gmap (list Z) (list Z) :=
  match s with
  | cmd :: s' =>
      if cmd =? 43 then
        match field 44 s' with
        | None => (Some error_text, V)
        | Some k =>
            match field 13 (drop (length k + 1) s') with
            | None => (Some error_text, V)
            | Some v => match V !! k with Some old => (Some (reply_text (Some old)), V) | None => (Some (reply_text None), <[k := v]> V) end
            end
        end
      else if cmd =? 45 then
        match field 13 s' with None => (Some error_text, V) | Some k => (Some (reply_text None), delete k V) end
      else if cmd =? 63 then
        match field 13 s' with None => (Some error_text, V) | Some k => (Some (reply_text (V !! k)), V) end
      else if cmd =? 37 then (None, V)
      else (Some error_text, V)
  | [] => (Some error_text, V)
  end.

(** ** Scanning *)

Lemma before_char_split c s b : before_char c s = Some b -> exists rest, s = b ++ c :: rest.
Proof.
  revert b. induction s as [|x s IH]; intros b E; cbn in E; [done|]. destruct (Z.eqb_spec x c) as [->|].
  - injection E as <-. by exists s.
  - apply fmap_Some in E as (b' & E & ->). destruct (IH b' E) as [rest ->]. by exists rest.
Qed.

Lemma field_split c s f : field c s = Some f -> f <> [] /\ exists rest, s = f ++ c :: rest.
Proof.
  unfold field. destruct (before_char c s) as [[|x b]|] eqn:E; try done. intros [= <-]. split; [done|]. by apply before_char_split.
Qed.

Lemma field_bounds c s f : field c s = Some f -> (0 < length f < length s)%nat /\ take (length f) s = f.
Proof.
  intros (Hne & rest & ->)%field_split. rewrite length_app, take_app_length. cbn. split; [|done]. destruct f; [done|cbn; lia].
Qed.

Lemma cstr_drop m p s n : cstr m p s -> (n <= length s)%nat -> cstr m (p + Z.of_nat n) (drop n s).
Proof.
  revert p s. induction n as [|n IH]; intros p s Hs Hn; [by rewrite Z.add_0_r|]. destruct s as [|c s]; [cbn in Hn; lia|].
  destruct Hs as (_ & _ & Hs). cbn [length drop] in *. replace (p + Z.of_nat (S n)) with (p + 1 + Z.of_nat n) by lia. apply IH; [done|lia].
Qed.

Lemma scan_spec m s stop f : forall p, cstr m p s -> (length s < f)%nat -> stop <> 0 ->
  exists e, scan f m p stop = Some e /\
    match before_char stop s with Some b => e = p + Z.of_nat (length b) /\ mget m e = stop | None => mget m e = 0 end.
Proof.
  revert f. induction s as [|c s IH]; intros [|f] p Hs Hf Hstop; cbn [length] in Hf; try lia; cbn [scan before_char].
  - cbn in Hs. rewrite Hs, Z.eqb_refl, orb_true_r. by exists p.
  - destruct Hs as (Hc & Hz & Hs). rewrite Hc, (proj2 (Z.eqb_neq c 0)), orb_false_r by done. destruct (Z.eqb_spec c stop) as [->|Hne].
    + exists p. cbn. split; [done|]. lia.
    + destruct (IH f (p + 1) Hs ltac:(lia) Hstop) as (e & -> & He). exists e. split; [done|]. destruct (before_char stop s) as [b|]; cbn; [|done].
      cbn [length]. destruct He as [-> ?]. split; [lia|done].
Qed.

Lemma scan_key_spec fuel m k s stop : cstr m k s -> (length s < fuel)%nat -> stop <> 0 ->
  scan_key fuel m k stop = Some ((fun f : list Z => k + Z.of_nat (length f)) <$> field stop s).
Proof.
  intros Hs Hf Hstop. unfold scan_key, field. destruct (scan_spec m s stop fuel k Hs Hf Hstop) as (e & -> & He). cbn [mbind option_bind].
  destruct (before_char stop s) as [[|x b]|]; [| |by rewrite He].
  - destruct He as [-> ->]. rewrite (proj2 (Z.eqb_neq stop 0)) by done. cbn. by rewrite Z.add_0_r, Z.sub_diag.
  - destruct He as [-> ->]. rewrite (proj2 (Z.eqb_neq stop 0)) by done. cbn [length]. by rewrite (proj2 (Z.leb_gt _ _)) by lia.
Qed.

Lemma c_string_cstr fuel m k s : cstr m k s -> (length s < fuel)%nat -> c_string fuel m k = s.
Proof.
  revert fuel k. induction s as [|c s IH]; intros [|fuel] k Hs Hf; cbn [length] in Hf; try lia; cbn in *; [by rewrite Hs|].
  destruct Hs as (-> & Hz & Hs). rewrite (proj2 (Z.eqb_neq c 0)) by done. by rewrite IH by (done || lia).
Qed.

(** ** Building strings *)

Lemma mget_put_bytes s : forall m p b, Forall (fun c => 0 <= c < 256) s ->
  mget (put_bytes m p s) b = if decide (p <= b < p + Z.of_nat (length s)) then nth (Z.to_nat (b - p)) s 0 else mget m b.
Proof.
  induction s as [|c s IH]; intros m p b Hs; cbn [put_bytes length]; [case_decide; [lia|done]|]. apply Forall_cons in Hs as [Hc Hs]. rewrite IH by done.
  destruct (decide (b = p)) as [->|Hne].
  - rewrite decide_False, decide_True by lia. rewrite Z.sub_diag. cbn. unfold mget. rewrite lookup_insert_eq. cbn. by rewrite ?Z.mod_small.
  - assert (Hm : mget (<[p := c]> m) b = mget m b) by (unfold mget; by rewrite lookup_insert_ne). rewrite Hm. repeat case_decide; try lia; try done.
    by replace (Z.to_nat (b - p)) with (S (Z.to_nat (b - (p + 1)))) by lia.
Qed.

Definition bytes (s : list Z) : Prop := Forall (fun c => 0 < c < 256) s.

Lemma put_string m p s : bytes s -> cstr (put_bytes m p (s ++ [0])) p s /\
  forall b, ~ (p <= b < p + (Z.of_nat (length s) + 1)) -> mget (put_bytes m p (s ++ [0])) b = mget m b.
Proof.
  intros Hs. assert (Hall : Forall (fun c => 0 <= c < 256) (s ++ [0])).
  { apply Forall_app. split; [|by repeat constructor]. eapply Forall_impl; [exact Hs|]. cbn. lia. }
  split.
  - apply cstr_intro; [eapply Forall_impl; [exact Hs|]; cbn; lia|]. intros i Hi. rewrite mget_put_bytes by done. rewrite length_app. cbn [length].
    rewrite decide_True by lia. replace (Z.to_nat _) with i by lia. destruct (decide (i < length s)%nat) as [Hlt|Hge].
    + by rewrite app_nth1.
    + rewrite app_nth2 by lia. rewrite (nth_overflow s) by lia. by replace (i - length s)%nat with 0%nat by lia.
  - intros b Hb. rewrite mget_put_bytes by done. rewrite length_app. cbn [length]. by rewrite decide_False by lia.
Qed.

(** ** Blocks *)

Section Blocks.
Context {S : Type} `{AllocatorLaws S, !AllocatorSizes S}.
Implicit Types (al : S) (m : mem) (s : list Z) (R : gset Z).

Definition sized al (k : Z) s : Prop := Z.of_nat (length s) < al_size al k.

(** The string [s] at [a] and its end lie in the live block [q]. *)
Definition inside al (q a : Z) s : Prop := q ∈ al_live al /\ q <= a /\ a + Z.of_nat (length s) < q + al_size al q.

(** The live blocks of [R] keep their size and their contents. *)
Definition keeps R al m al' m' : Prop := forall q, q ∈ R -> q ∈ al_live al ->
  q ∈ al_live al' /\ al_size al' q = al_size al q /\ forall x, q <= x < q + al_size al q -> mget m' x = mget m x.

Lemma keeps_refl R al m : keeps R al m al m.
Proof. by intros q. Qed.

Lemma keeps_trans R al1 m1 al2 m2 al3 m3 : keeps R al1 m1 al2 m2 -> keeps R al2 m2 al3 m3 -> keeps R al1 m1 al3 m3.
Proof.
  intros H1' H2' q Hq Hl. destruct (H1' q Hq Hl) as (Hl2 & Hs2 & Hm2). destruct (H2' q Hq Hl2) as (Hl3 & Hs3 & Hm3). rewrite Hs2 in Hs3, Hm3.
  split_and!; [done|done|]. intros x Hx. by rewrite Hm3, Hm2.
Qed.

Lemma keeps_subset R R' al m al' m' : R' ⊆ R -> keeps R al m al' m' -> keeps R' al m al' m'.
Proof. intros Hsub Hk q Hq. apply Hk. set_solver. Qed.

Lemma keeps_string R al m al' m' q a s : keeps R al m al' m' -> q ∈ R -> inside al q a s -> cstr m a s -> inside al' q a s /\ cstr m' a s.
Proof.
  intros Hk Hq (Hl & Hqa & Hin) Hs. destruct (Hk q Hq Hl) as (Hl' & Hsz & Hm). split; [split_and!; [done|done|lia]|].
  eapply cstr_ext; [|exact Hs]. intros x Hx. apply Hm. lia.
Qed.

(** What is written in a new block changes no other block. *)
Lemma fresh_keeps al n p al' m m' : al_malloc al n = Ret (p, al') -> (forall x, ~ (p <= x < p + n) -> mget m' x = mget m x) ->
  keeps (al_live al) al m al' m'.
Proof.
  intros Em Hfr q _ Hq. destruct (malloc_size _ _ _ _ Em) as [_ Hsz]. destruct (Hsz q Hq) as [Hsq Hdis].
  destruct (malloc_fresh _ _ _ _ Em) as (_ & _ & Hl). split_and!; [rewrite Hl; set_solver|done|]. intros x Hx. apply Hfr. lia.
Qed.

(** ... and does not overlap it. *)
Lemma fresh_apart al n p al' q a s : al_malloc al n = Ret (p, al') -> inside al q a s -> p + n <= a \/ a + Z.of_nat (length s) < p.
Proof.
  intros Em (Hq & Hqa & Hin). destruct (malloc_size _ _ _ _ Em) as [_ Hsz]. destruct (Hsz q Hq) as [_ Hdis]. lia.
Qed.

Lemma free_keeps R al x al' m : al_free al x = Ret al' -> R ⊆ al_live al' -> keeps R al m al' m.
Proof. intros Ef HR q Hq Hl. destruct (free_size _ _ _ Ef q ltac:(set_solver)) as [_ Hsz]. split_and!; [set_solver|done|done]. Qed.

(** *** The copies of the protocol *)

(** [p] is a new block that holds [s], and nothing else is written. *)
Definition fresh_string al m (p : Z) s al' m' : Prop :=
  p <> 0 /\ (p ∉ al_live al) /\ al_malloc al (Z.of_nat (length s) + 1) = Ret (p, al') /\ cstr m' p s /\
  forall x, ~ (p <= x < p + (Z.of_nat (length s) + 1)) -> mget m' x = mget m x.

Lemma strdup_lit_spec m al s : bytes s -> exists p m' al', strdup_lit m al s = Ret (p, m', al') /\ fresh_string al m p s al' m'.
Proof.
  intros Hs. unfold strdup_lit. destruct (malloc_total al (Z.of_nat (length s) + 1)) as (p & al' & Em). destruct (malloc_fresh _ _ _ _ Em) as (Hp & Hn & _).
  rewrite Em, bind_Ret_l, (proj2 (Z.eqb_neq p 0)) by done. destruct (put_string m p s Hs) as [Hc Hfr]. by exists p, (put_bytes m p (s ++ [0])), al'.
Qed.

Lemma strndup_spec m al q a s n : inside al q a s -> cstr m a s -> (n <= length s)%nat -> Z.of_nat (length s) + 1 < 2^64 ->
  exists p m' al', strndup m al a (Z.of_nat n) = Ret (p, m', al') /\ fresh_string al m p (take n s) al' m'.
Proof.
  intros Hi Hs Hn Hlen. destruct (malloc_total al (Z.of_nat n + 1)) as (p & al' & Em). destruct (malloc_fresh _ _ _ _ Em) as (Hp & Hnew & _).
  pose proof (fresh_apart _ _ _ _ _ _ _ Em Hi) as Hd.
  destruct (strndup_copies m al a s n p al' Hs ltac:(lia) Em ltac:(lia)) as (m' & E & Hc & Hfr). exists p, m', al'.
  split; [done|]. unfold fresh_string. rewrite length_take_le by done. split_and!; try done. intros x Hx. apply Hfr. unfold in_range. lia.
Qed.

(** The reply to a request. *)
Lemma answer_spec fuel m al r v : match v with None => r = 0 | Some t => r <> 0 /\ inside al r r t /\ cstr m r t /\ (length t < fuel)%nat /\ Z.of_nat (length t) + 4 < 2^31 end ->
  exists p m' al', answer fuel m al r = Some (Ret (p, m', al')) /\ fresh_string al m p (reply_text v) al' m'.
Proof.
  intros Hv. set (n := match v with Some t => length t | None => 0%nat end). assert (Hlen : length (reply_text v) = (n + 3)%nat).
  { unfold reply_text, n. destruct v; cbn [default length]; rewrite ?length_app; cbn; lia. }
  destruct (malloc_total al (Z.of_nat n + 4)) as (p & al' & Em). destruct (malloc_fresh _ _ _ _ Em) as (Hp & Hnew & _).
  assert (Hn : Z.of_nat n + 4 < 2^31) by (unfold n; destruct v; [apply Hv|lia]).
  assert (Hcopy : exists m1, (if negb (r =? 0) then strcpy fuel (store 1 m p 33) (p + 1) r else Some (store 1 m p 33)) = Some m1 /\ mget m1 p = 33 /\
            (forall b, p + 1 <= b < p + 1 + Z.of_nat n -> mget m1 b = nth (Z.to_nat (b - (p + 1))) (default [] v) 0) /\
            forall b, b < p \/ p + 1 + Z.of_nat n < b -> mget m1 b = mget m b).
  { unfold n in *. destruct v as [t|]; [destruct Hv as (Hr & Hi & Hc & Hf & _)|rewrite Hv]; cbn [negb Z.eqb default].
    - rewrite (proj2 (Z.eqb_neq r 0)) by done. pose proof (fresh_apart _ _ _ _ _ _ _ Em Hi).
      destruct (strcpy_correct fuel (store 1 m p 33) (p + 1) r t) as (m1 & -> & Hm1); [|done|lia|].
      { eapply cstr_ext; [|exact Hc]. intros a Ha. rewrite mget_store_byte, decide_False by lia. done. }
      exists m1. split; [done|]. split_and!; intros; rewrite Hm1, ?mget_store_byte; repeat case_decide; (done || lia).
    - eexists. split; [done|]. split_and!; intros; rewrite ?mget_store_byte; repeat case_decide; (done || lia). }
  destruct Hcopy as (m1 & Ecopy & Hb0 & Hb1 & Hout).
  assert (Esize : (if negb (r =? 0) then strlen fuel m r else Some 0) = Some (Z.of_nat n) /\ (if negb (r =? 0) then s32 (u64 (3 + Z.of_nat n)) else 3) = Z.of_nat n + 3).
  { unfold n in *. destruct v as [t|]; [destruct Hv as (Hr & Hi & Hc & Hf & _)|by rewrite Hv]. rewrite (proj2 (Z.eqb_neq r 0)) by done. cbn [negb].
    split; [by apply strlen_correct|]. unfold s32, u64. rewrite (Z.mod_small _ (2^64)), Z.mod_small by lia. lia. }
  destruct Esize as [Elen Ers]. unfold answer. rewrite Elen. cbn [mbind option_bind]. rewrite Ers. unfold u64. rewrite Z.mod_small by lia.
  replace (Z.of_nat n + 3 + 1) with (Z.of_nat n + 4) by lia. rewrite Em. cbn [lift fbind]. rewrite Ecopy. cbn [mbind option_bind].
  eexists p, _, al'. split; [done|]. split; [done|]. split; [done|]. rewrite Hlen. replace (Z.of_nat (n + 3) + 1) with (Z.of_nat n + 4) by lia. split; [done|]. split.
  - apply cstr_intro.
    { unfold reply_text. apply Forall_cons. split; [lia|]. apply Forall_app. split; [|by repeat constructor]. destruct v; [by eapply cstr_pos, Hv|by constructor]. }
    intros i Hi. rewrite Hlen in Hi. rewrite !mget_store_byte. unfold reply_text. destruct i as [|i]; cbn [nth].
    { rewrite Z.add_0_r. repeat case_decide; (done || lia). }
    assert (Hd : length (default [] v) = n) by (unfold n; by destruct v). destruct (decide (i < n)%nat) as [Hlt|Hge].
    + repeat case_decide; try lia. rewrite Hb1, app_nth1 by lia. f_equal. lia.
    + rewrite app_nth2, Hd by lia. destruct (decide (i = n)) as [->|]; [|destruct (decide (i = n + 1)%nat) as [->|]; [|replace i with (n + 2)%nat by lia]];
        repeat case_decide; try lia; first [replace (_ - _)%nat with 0%nat by lia; done | replace (_ - _)%nat with 1%nat by lia; done | replace (_ - _)%nat with 2%nat by lia; done].
  - intros x Hx. rewrite !mget_store_byte, !decide_False by lia. apply Hout. lia.
Qed.
End Blocks.

(** ** What the table does to the sizes of other blocks *)

Lemma fbind_Ret {A B} (x : option (outcome A)) (f : A -> option (outcome B)) b : fbind x f = Some (Ret b) -> exists a, x = Some (Ret a) /\ f a = Some (Ret b).
Proof. destruct x as [[a|]|]; cbn; try done. intros E. by exists a. Qed.

Section Sizes.
Context {S : Type} `{AllocatorLaws S, !AllocatorSizes S} `{Keys} (al_realloc : S -> Z -> Z -> outcome (Z * S)).
Implicit Types (al : S) (E : gmap Z entry) (h : hashtable).

(** Block [q] is live and has the size it had. *)
Definition same_size al al' (q : Z) : Prop := q ∈ al_live al' /\ al_size al' q = al_size al q.

Lemma same_size_malloc al n p al' q : al_malloc al n = Ret (p, al') -> q ∈ al_live al -> same_size al al' q.
Proof.
  intros Em Hq. destruct (malloc_size _ _ _ _ Em) as [_ Hsz]. destruct (malloc_fresh _ _ _ _ Em) as (_ & _ & Hl). split; [rewrite Hl; set_solver|]. by apply Hsz.
Qed.

Lemma same_size_free al x al' q : al_free al x = Ret al' -> x ∈ al_live al -> q ∈ al_live al -> q <> x -> same_size al al' q.
Proof.
  intros Ef Hx Hq Hne. destruct (free_live al x Hx) as (al1 & E1 & Hl). rewrite Ef in E1. injection E1 as <-.
  assert (Hq' : q ∈ al_live al') by (rewrite Hl; set_solver). split; [done|]. by apply (free_size _ _ _ Ef).
Qed.

Lemma same_size_trans al1 al2 al3 q : same_size al1 al2 q -> same_size al2 al3 q -> same_size al1 al3 q.
Proof. intros [? E1] [? E2]. split; [done|]. by rewrite E2. Qed.

Lemma hashtable_insert_sizes fuel al E h k v r h' E' al' q : hashtable_insert al_realloc fuel al E h k v = Some (Ret (r, h', E', al')) ->
  tab h ∈ al_live al -> q ∈ al_live al -> q <> tab h -> same_size al al' q.
Proof.
  intros Ei Ht Hq Hne. unfold hashtable_insert in Ei. cbv zeta in Ei. apply fbind_Ret in Ei as ([[h1 E1] al1] & Eg & Ei).
  assert (Hs1 : same_size al al1 q).
  { destruct (_ <? _); [|injection Eg as _ _ <-; by split]. apply fbind_Ret in Eg as ([[[x h2] E2] al2] & Ex & [= _ _ <-]). unfold hashtable_expand in Ex.
    case_decide; [injection Ex as _ _ _ <-; by split|]. apply fbind_Ret in Ex as (ns & _ & Ex). apply fbind_Ret in Ex as ([nt al3] & Em & Ex). injection Em as Em.
    destruct (malloc_fresh _ _ _ _ Em) as (Hp & Hnew & Hl). rewrite (proj2 (Z.eqb_neq nt 0)) in Ex by done. cbn [negb] in Ex.
    apply fbind_Ret in Ex as ([[E4 ?] ?] & _ & Ex). apply fbind_Ret in Ex as (al4 & Ef & [= _ _ _ <-]). injection Ef as Ef.
    eapply same_size_trans; [by eapply same_size_malloc|]. eapply same_size_free; [exact Ef| | |done]; rewrite Hl; set_solver. }
  apply fbind_Ret in Ei as ([e al2] & Em & Ei). injection Em as Em. eapply same_size_trans; [exact Hs1|].
  assert (al' = al2) as ->; [|eapply same_size_malloc; [exact Em|apply Hs1]]. destruct (e =? 0); [by injection Ei as _ _ _ <-|].
  unfold insert_entry in Ei. destruct (hash k); [|done]. cbn [mbind option_bind] in Ei. apply fbind_Ret in Ei as (? & _ & Ei). apply fbind_Ret in Ei as (? & _ & [= _ _ _ <-]). done.
Qed.

(** Only live blocks remain live when blocks are freed. *)
Definition shrinks al al' : Prop := forall q, q ∈ al_live al' -> q ∈ al_live al /\ al_size al' q = al_size al q.

Lemma shrinks_refl al : shrinks al al.
Proof. done. Qed.

Lemma shrinks_free al x al' : al_free al x = Ret al' -> shrinks al al'.
Proof. intros Ef q. by apply free_size with x. Qed.

Lemma shrinks_trans al1 al2 al3 : shrinks al1 al2 -> shrinks al2 al3 -> shrinks al1 al3.
Proof. intros H1' H2' q Hq. destruct (H2' q Hq) as [Hq' ->]. by apply H1'. Qed.

Lemma remove_chain_shrinks fuel al E h hv k : forall pE e v h' E' al', remove_chain fuel al E h hv k pE e = Some (Ret (v, h', E', al')) -> shrinks al al'.
Proof.
  induction fuel as [|fuel IH]; intros pE e v h' E' al' Er; cbn [remove_chain] in Er; [done|]. destruct (e =? 0); [injection Er as _ _ _ <-; apply shrinks_refl|].
  apply fbind_Ret in Er as (en & _ & Er). destruct (if hv =? e_h en then eqfn k (e_k en) else Some 0) as [b|]; [|done]. cbn [mbind option_bind] in Er.
  destruct (negb (b =? 0)); [|by eapply IH]. apply fbind_Ret in Er as ([E1 h1] & _ & Er). apply fbind_Ret in Er as (al1 & Ef1 & Er). injection Ef1 as Ef1.
  apply fbind_Ret in Er as (al2 & Ef2 & [= _ _ _ <-]). injection Ef2 as Ef2. eapply shrinks_trans; by eapply shrinks_free.
Qed.

Lemma hashtable_remove_shrinks fuel al E h k v h' E' al' : hashtable_remove fuel al E h k = Some (Ret (v, h', E', al')) -> shrinks al al'.
Proof.
  intros Er. unfold hashtable_remove in Er. destruct (hash k); [|done]. cbn [mbind option_bind] in Er. apply fbind_Ret in Er as (e & _ & Er).
  by eapply remove_chain_shrinks.
Qed.
End Sizes.

(** ** The store holds a map of strings *)

Section Net.
Context `{Build} {S : Type} `{AllocatorLaws S, !AllocatorSizes S} (al_realloc : S -> Z -> Z -> outcome (Z * S)) (fuel lim : nat).
Context (Hlim : (lim <= fuel)%nat /\ Z.of_nat lim + 4 < 2^31).
Implicit Types (al : S) (E : gmap Z entry) (u : ukv) (m : mem) (s : list Z) (R : gset Z).

(** Keys and values are strings in blocks of the store, [R] are the other live blocks
    of the client. *)
Definition net_ok al E u m V R : Prop := exists P, store_ok fuel m (sized al) al E u P R /\ dom P = dom V /\
  forall s p, P !! s = Some p -> exists v, V !! s = Some v /\ cstr m p v /\ (length v < lim)%nat /\ sized al p v.

Lemma net_size al E u m V R P : store_ok fuel m (sized al) al E u P R -> dom P = dom V -> size P = size V.
Proof. intros _ Hd. by rewrite <- !size_dom, Hd. Qed.

(** The store under another memory and allocator state, when its strings are kept. *)
Lemma store_transport al al' E u m m' good good' P R R' :
  @represents S _ (list Z) _ _ (ukv_keys fuel m) (ukv_key_laws fuel m good) al' E (u_h u) P ({[u_self u]} ∪ R') ->
  (forall k s, cstr m k s -> good k s -> k ∈ al_live al' -> k ∉ ({[u_self u]} ∪ R') -> k <> tab (u_h u) -> cstr m' k s /\ good' k s) ->
  (u_self u ∉ R') -> store_ok fuel m good al E u P R -> store_ok fuel m' good' al' E u P R'.
Proof.
  intros Hrep Htr Hself [_ [_ Hs0] Hvals]. split; [|done|done].
  eapply (represents_transport (ukv_keys fuel m) (ukv_keys fuel m') (ukv_key_laws fuel m good) (ukv_key_laws fuel m' good')); [done|exact Hrep|].
  intros k s (Hc & Hf & Hg) Hl HR Ht. by destruct (Htr k s Hc Hg Hl HR Ht).
Qed.

(** ... and only the knowledge about the keys changes. *)
Lemma store_good al E u m good good' P R : store_ok fuel m good al E u P R ->
  (forall k s, good k s -> k ∈ al_live al -> k <> tab (u_h u) -> good' k s) -> store_ok fuel m good' al E u P R.
Proof.
  intros Hst Hg. eapply (store_transport al al); [exact (st_table _ _ _ _ _ _ _ _ Hst)| |apply (st_self _ _ _ _ _ _ _ _ Hst)|exact Hst].
  intros k s Hc Hk Hl _ Ht. split; [done|]. by apply Hg.
Qed.

Lemma store_self al E u m good P R : store_ok fuel m good al E u P R -> u_self u ∈ al_live al.
Proof. intros [Hrep _ _]. apply (represents_rest _ _ _ _ _ _ Hrep). set_solver. Qed.

(** The client's allocations. *)
Lemma net_alloc al E u m V R n p al' m' : net_ok al E u m V R -> al_malloc al n = Ret (p, al') -> (forall x, ~ (p <= x < p + n) -> mget m' x = mget m x) ->
  net_ok al' E u m' V ({[p]} ∪ R).
Proof.
  intros (P & Hst & Hdom & HV) Em Hfr. pose proof (fresh_keeps _ _ _ _ _ _ Em Hfr) as Hk. destruct (malloc_fresh _ _ _ _ Em) as (_ & Hnew & Hl).
  assert (Hkept : forall q s, q ∈ al_live al -> cstr m q s -> sized al q s -> cstr m' q s /\ sized al' q s).
  { intros q s Hq Hc Hz. destruct (keeps_string _ _ _ _ _ q q s Hk Hq) as [(_ & _ & Hz') Hc']; [|done|by split; [|unfold sized; lia]]. unfold sized in Hz. split_and!; [done|lia|lia]. }
  exists P. split_and!; [|done|].
  - eapply (store_transport al al'); [| | |exact Hst].
    + destruct Hst as [Hrep _ _]. replace ({[u_self u]} ∪ ({[p]} ∪ R)) with ({[p]} ∪ ({[u_self u]} ∪ R)) by set_solver. by eapply represents_malloc.
    + intros k s Hc Hg Hlk HR _. apply Hkept; [|done|done]. rewrite Hl in Hlk. set_solver.
    + pose proof (store_self _ _ _ _ _ _ _ Hst). destruct Hst as [_ [? _] _]. set_solver.
  - intros s q Hq. destruct (HV s q Hq) as (v & Hv & Hc & Hlen & Hz). exists v. split; [done|].
    destruct (represents_value _ _ _ _ _ _ _ (st_table _ _ _ _ _ _ _ _ Hst) Hq) as (Hql & _). destruct (Hkept q v Hql Hc Hz). done.
Qed.

(** The client frees a block of its own. *)
Lemma net_free al E u m V R x : net_ok al E u m V R -> x ∈ R -> exists al', al_free al x = Ret al' /\ net_ok al' E u m V (R ∖ {[x]}) /\ al_live al' = al_live al ∖ {[x]}.
Proof.
  intros (P & Hst & Hdom & HV) Hx. destruct Hst as [Hrep [Hself Hs0] Hvals] eqn:Est. pose proof (store_self _ _ _ _ _ _ _ Hst) as Hsl.
  destruct (represents_rest _ _ _ _ _ x Hrep ltac:(set_solver)) as [Hxl _]. destruct (free_live al x Hxl) as (al' & Ef & Hl).
  destruct (represents_free _ _ _ _ _ x Hrep ltac:(set_solver)) as (al1 & Ef1 & Hrep1). rewrite Ef in Ef1. injection Ef1 as <-. exists al'. split_and!; [done| |done].
  assert (Hsz : forall q s, q ∈ al_live al' -> sized al q s -> sized al' q s) by (intros q s Hq; unfold sized; by rewrite (proj2 (free_size _ _ _ Ef q Hq))).
  exists P. split_and!; [|done|].
  - eapply (store_transport al al'); [| | |exact Hst].
    + by replace ({[u_self u]} ∪ R ∖ {[x]}) with (({[u_self u]} ∪ R) ∖ {[x]}) by set_solver.
    + intros k s Hc Hg Hlk _ _. split; [done|]. by apply Hsz.
    + set_solver.
  - intros s q Hq. destruct (HV s q Hq) as (v & Hv & Hc & Hlen & Hz). exists v. split_and!; try done. apply Hsz; [|done].
    destruct (represents_value _ _ _ _ _ _ _ Hrep Hq) as (Hql & HqR & _). rewrite Hl. set_solver.
Qed.

(** What a lookup finds. *)
Definition found al m (r : Z) (v : option (list Z)) : Prop :=
  match v with None => r = 0 | Some t => r <> 0 /\ inside al r r t /\ cstr m r t /\ (length t < fuel)%nat /\ Z.of_nat (length t) + 4 < 2^31 end.

Lemma net_found al E u m V R P s : store_ok fuel m (sized al) al E u P R -> dom P = dom V ->
  (forall s p, P !! s = Some p -> exists v, V !! s = Some v /\ cstr m p v /\ (length v < lim)%nat /\ sized al p v) ->
  found al m (default 0 (P !! s)) (V !! s).
Proof using All.
  intros Hst Hdom HV. destruct (P !! s) as [p|] eqn:Ep; cbn.
  - destruct (HV s p Ep) as (v & -> & Hc & Hlen & Hz). destruct Hlim. destruct (represents_value _ _ _ _ _ _ _ (st_table _ _ _ _ _ _ _ _ Hst) Ep) as (Hpl & _).
    split_and!; [exact (st_values _ _ _ _ _ _ _ _ Hst s p Ep)| |done|lia|lia]. unfold sized in Hz. split_and!; [done|lia|lia].
  - apply not_elem_of_dom in Ep. rewrite Hdom in Ep. apply not_elem_of_dom in Ep. by rewrite Ep.
Qed.

Lemma net_get al E u m V R k s : net_ok al E u m V R -> k <> 0 -> cstr m k s -> (length s < lim)%nat -> sized al k s -> (size V < fuel)%nat ->
  exists r, ukv_get fuel m E u k = Some (Ret r) /\ found al m r (V !! s) /\ (V !! s = None \/ (r ∉ R)).
Proof using All.
  intros (P & Hst & Hdom & HV) Hk Hc Hlen Hz Hsz. destruct Hlim as [Hl _]. pose proof (net_size _ _ _ _ _ _ _ Hst Hdom) as HPV.
  assert (Hs : c_string fuel m k = s) by (apply c_string_cstr; [done|lia]). assert (Hkey : is_key fuel m k) by (unfold is_key; rewrite Hs; split_and!; [done|done|lia]).
  eexists. split; [eapply ukv_get_spec; [exact Hst|exact Hkey|by rewrite Hs|lia]|]. rewrite Hs.
  split; [by eapply net_found|]. destruct (P !! s) as [p|] eqn:Ep; cbn; [right|left].
  - destruct (represents_value _ _ _ _ _ _ _ (st_table _ _ _ _ _ _ _ _ Hst) Ep) as (_ & HpR & _). set_solver.
  - apply not_elem_of_dom in Ep. rewrite Hdom in Ep. by apply not_elem_of_dom.
Qed.

Lemma ukv_set_sizes al E u m k v r u' E' al' q : ukv_set al_realloc fuel m al E u k v = Some (Ret (r, u', E', al')) ->
  tab (u_h u) ∈ al_live al -> q ∈ al_live al -> q ∈ al_live al' -> q <> tab (u_h u) -> al_size al' q = al_size al q.
Proof.
  intros Es Ht Hq Hq' Hne. unfold ukv_set in Es. do 3 apply fbind_Ret in Es as (? & _ & Es). apply fbind_Ret in Es as (v0 & _ & Es).
  destruct (negb (v0 =? 0)).
  - apply fbind_Ret in Es as (al1 & E1 & Es). apply fbind_Ret in Es as (al2 & E2 & [= _ _ _ <-]). injection E1 as E1. injection E2 as E2.
    apply (shrinks_trans _ _ _ (shrinks_free _ _ _ E1) (shrinks_free _ _ _ E2) q Hq').
  - apply fbind_Ret in Es as ([[[r1 h1] E1] al1] & Ei & Es). apply fbind_Ret in Es as (? & _ & [= _ _ _ <-]).
    by eapply (hashtable_insert_sizes (H1 := keys fuel m) al_realloc).
Qed.

Lemma net_set al E u m V R k v s w : net_ok al E u m V R -> k ∈ R -> v ∈ R -> k <> v -> k <> 0 -> v <> 0 -> cstr m k s -> cstr m v w ->
  (length s < lim)%nat -> (length w < lim)%nat -> sized al k s -> sized al v w -> (size V < fuel)%nat -> Z.of_nat (size V) + 1 < 2^32 ->
  exists r u' E' al', ukv_set al_realloc fuel m al E u k v = Some (Ret (r, u', E', al')) /\
    net_ok al' E' u' m (match V !! s with Some _ => V | None => <[s := w]> V end) (R ∖ {[k; v]}) /\ found al' m r (V !! s) /\ keeps (R ∖ {[k; v]}) al m al' m.
Proof using All.
  intros (P & Hst & Hdom & HV) HkR HvR Hkv Hk Hv Hck Hcv Hlk Hlv Hzk Hzv Hsz Hmax. destruct Hlim as [Hl _]. pose proof (net_size _ _ _ _ _ _ _ Hst Hdom) as HPV.
  assert (Hs : c_string fuel m k = s) by (apply c_string_cstr; [done|lia]). pose proof (st_table _ _ _ _ _ _ _ _ Hst) as Hrep.
  pose proof (represents_rest _ _ _ _ _ k Hrep ltac:(set_solver)) as [Hkl Hkt]. pose proof (represents_tab _ _ _ _ _ Hrep) as Htab.
  assert (Hst0 : store_ok fuel m (fun k s => sized al k s /\ k ∈ al_live al /\ k <> tab (u_h u)) al E u P R) by (eapply store_good; [exact Hst|done]).
  assert (Hreq : request_ok fuel m R (Set_ k v)) by (unfold request_ok, is_key; rewrite Hs; split_and!; (done || lia)).
  destruct (ukv_set_spec al_realloc fuel m _ al E u P R k v Hst0 Hreq) as (u' & E' & al' & Eset & Hst'); [by rewrite Hs|lia|lia|].
  cbn [map_request] in Eset, Hst'. rewrite Hs in Eset, Hst'.
  assert (Hsame : forall q, q ∈ al_live al -> q ∈ al_live al' -> q <> tab (u_h u) -> al_size al' q = al_size al q) by (intros q ? ? ?; by eapply ukv_set_sizes).
  pose proof (st_table _ _ _ _ _ _ _ _ Hst') as Hrep'.
  assert (Hnew : store_ok fuel m (sized al') al' E' u' (match P !! s with Some v0 => (v0, P) | None => (0, <[s := v]> P) end).2 (R ∖ {[k; v]})).
  { eapply store_good; [exact Hst'|]. intros k' s' (Hz & Hl' & Ht') Hl'' _. unfold sized. rewrite Hsame by done. done. }
  assert (Hok : dom (match P !! s with Some v0 => (v0, P) | None => (0, <[s := v]> P) end).2 = dom (match V !! s with Some _ => V | None => <[s := w]> V end) /\
    forall s' p, (match P !! s with Some v0 => (v0, P) | None => (0, <[s := v]> P) end).2 !! s' = Some p ->
      exists t, (match V !! s with Some _ => V | None => <[s := w]> V end) !! s' = Some t /\ cstr m p t /\ (length t < lim)%nat /\ sized al' p t).
  { assert (Hval : forall s' p t, (match P !! s with Some v0 => (v0, P) | None => (0, <[s := v]> P) end).2 !! s' = Some p -> p ∈ al_live al -> p <> tab (u_h u) -> sized al p t -> sized al' p t).
    { intros s' p t Hp Hpl Hpt Hz. unfold sized. rewrite Hsame; [done|done| |done]. by apply (represents_value _ _ _ _ _ _ _ Hrep' Hp). }
    assert (Hold : forall s' p, P !! s' = Some p -> (match P !! s with Some v0 => (v0, P) | None => (0, <[s := v]> P) end).2 !! s' = Some p ->
       exists t, V !! s' = Some t /\ cstr m p t /\ (length t < lim)%nat /\ sized al' p t).
    { intros s' p Hp Hp'. destruct (HV s' p Hp) as (t & ? & ? & ? & ?). exists t. split_and!; try done.
      destruct (represents_value _ _ _ _ _ _ _ Hrep Hp) as (? & _ & ?). by eapply Hval. }
    destruct (P !! s) as [v0|] eqn:EP; cbn [snd] in *.
    - destruct (HV s v0 EP) as (t0 & -> & _). split; [done|]. intros s' p Hp. by apply Hold.
    - assert (V !! s = None) as ->; [|split; [by rewrite !dom_insert_L, Hdom|]]. { apply not_elem_of_dom. rewrite <- Hdom. by apply not_elem_of_dom. }
      intros s' p Hp. destruct (decide (s' = s)) as [->|Hne].
      + rewrite (lookup_insert_eq P s v) in Hp. injection Hp as <-. exists w. rewrite (lookup_insert_eq V s w). split_and!; try done. pose proof (represents_rest _ _ _ _ _ v Hrep ltac:(set_solver)) as [? ?].
        eapply (Hval s); [apply (lookup_insert_eq P)|done..].
      + pose proof Hp as Hp0. rewrite (lookup_insert_ne P) in Hp0 by done. rewrite (lookup_insert_ne V) by done. by apply Hold. }
  exists (match P !! s with Some v0 => (v0, P) | None => (0, <[s := v]> P) end).1, u', E', al'. destruct Hok as [Hdom' HV']. split_and!; [done|by eexists| |].
  - pose proof (net_found al' E' u' m _ _ _ s Hnew Hdom' HV') as Hf. destruct (P !! s) as [v0|] eqn:EP; cbn [fst snd] in *.
    + rewrite EP in Hf. destruct (HV s v0 EP) as (t0 & EV & _). rewrite EV in Hf. cbn in Hf. rewrite EV in Hf. by rewrite EV.
    + assert (V !! s = None) as ->; [|done]. apply not_elem_of_dom. rewrite <- Hdom. by apply not_elem_of_dom.
  - intros q Hq Hql. destruct (represents_rest _ _ _ _ _ q Hrep ltac:(set_solver)) as [_ Hqt].
    destruct (represents_rest _ _ _ _ _ q Hrep' ltac:(set_solver)) as [Hql' _]. split_and!; [done|by apply Hsame|done].
Qed.

Lemma net_del al E u m V R k s : net_ok al E u m V R -> k <> 0 -> cstr m k s -> (length s < lim)%nat -> sized al k s ->
  (size V < fuel)%nat -> Z.of_nat (size V) + 1 < 2^32 ->
  exists u' E' al', ukv_del fuel m al E u k = Some (Ret (u', E', al')) /\ net_ok al' E' u' m (delete s V) R /\ keeps R al m al' m.
Proof using All.
  intros (P & Hst & Hdom & HV) Hk Hck Hlk Hzk Hsz Hmax. destruct Hlim as [Hl _]. pose proof (net_size _ _ _ _ _ _ _ Hst Hdom) as HPV.
  assert (Hs : c_string fuel m k = s) by (apply c_string_cstr; [done|lia]).
  destruct (ukv_del_spec al_realloc fuel m (sized al) al E u P R k Hst) as (u' & E' & al' & Ed & Hst'); [unfold is_key; rewrite Hs; split_and!; (done || lia)|by rewrite Hs|lia|lia|].
  rewrite Hs in Hst'. exists u', E', al'. split; [done|].
  assert (Hsh : shrinks al al').
  { unfold ukv_del in Ed. do 2 apply fbind_Ret in Ed as (? & _ & Ed). apply fbind_Ret in Ed as ([[[v h] E1] al1] & Er & Ed). apply fbind_Ret in Ed as (al2 & Ef & [= _ _ <-]).
    eapply shrinks_trans; [by eapply hashtable_remove_shrinks|]. injection Ef as Ef. destruct (negb (v =? 0)); [by eapply shrinks_free|]. by injection Ef as <-. }
  pose proof (st_table _ _ _ _ _ _ _ _ Hst') as Hrep'. split.
  - exists (delete s P). split_and!; [|by rewrite !dom_delete_L, Hdom|].
    + eapply store_good; [exact Hst'|]. intros k' s' Hz Hl' _. unfold sized. by rewrite (proj2 (Hsh k' Hl')).
    + intros s' p Hp. destruct (represents_value _ _ _ _ _ _ _ Hrep' Hp) as (Hpl & _). apply lookup_delete_Some in Hp as [Hne Hp].
      destruct (HV s' p Hp) as (t & ? & ? & ? & Hz). exists t. rewrite lookup_delete_ne by done. split_and!; try done. unfold sized. by rewrite (proj2 (Hsh p Hpl)).
  - intros q Hq Hql. destruct (represents_rest _ _ _ _ _ q Hrep' ltac:(set_solver)) as [Hql' _]. split_and!; [done|apply (Hsh q Hql')|done].
Qed.

(** ** Requests *)

Lemma net_rest al E u m V R : net_ok al E u m V R -> R ⊆ al_live al.
Proof. intros (P & [Hrep _ _] & _) x Hx. apply (represents_rest _ _ _ _ _ x Hrep). set_solver. Qed.

Lemma net_fresh al E u m V R p s al' m' : net_ok al E u m V R -> fresh_string al m p s al' m' ->
  net_ok al' E u m' V ({[p]} ∪ R) /\ (p ∉ R) /\ keeps R al m al' m' /\ inside al' p p s /\ sized al' p s.
Proof.
  intros Hok (Hp & Hnew & Em & Hc & Hfr). pose proof (net_rest _ _ _ _ _ _ Hok) as HR. destruct (malloc_size _ _ _ _ Em) as [Hsz _].
  destruct (malloc_fresh _ _ _ _ Em) as (_ & _ & Hl). split_and!.
  - by eapply net_alloc.
  - set_solver.
  - eapply keeps_subset; [exact HR|]. by eapply fresh_keeps.
  - unfold inside. rewrite Hsz, Hl. split_and!; [set_solver|lia|lia].
  - unfold sized. rewrite Hsz. lia.
Qed.

(** The reply [r] is a new block with the text [t], the store holds [V'] and the
    client's strings are as before. *)
Definition replied al m V' R (t : list Z) (r : Z) m' u' E' al' : Prop :=
  r <> 0 /\ (r ∉ R) /\ cstr m' r t /\ net_ok al' E' u' m' V' ({[r]} ∪ R) /\ keeps R al m al' m'.

Lemma replied_fresh al m al1 m1 E u V R t r al' m' : net_ok al1 E u m1 V R -> keeps R al m al1 m1 -> fresh_string al1 m1 r t al' m' ->
  replied al m V R t r m' u E al'.
Proof.
  intros Hok Hk Hf. destruct (net_fresh _ _ _ _ _ _ _ _ _ _ Hok Hf) as (Hok' & HrR & Hk' & _). destruct Hf as (Hr & _ & _ & Hc & _).
  split_and!; try done. by eapply keeps_trans.
Qed.

Lemma error_reply_spec al E u m V R : net_ok al E u m V R ->
  exists r m' u' E' al', error_reply m al E u = Some (Ret (r, m', u', E', al')) /\ replied al m V R error_text r m' u' E' al'.
Proof.
  intros Hok. unfold error_reply. destruct (strdup_lit_spec m al error_text) as (r & m' & al' & -> & Hf); [by repeat constructor|].
  cbn [lift fbind]. exists r, m', u, E, al'. split; [done|]. eapply replied_fresh; [exact Hok|apply keeps_refl|exact Hf].
Qed.

(** The copy of the first [n] characters of a client's string. *)
Lemma net_strndup al E u m V R b a s n : net_ok al E u m V R -> b ∈ R -> inside al b a s -> cstr m a s -> (length s < lim)%nat -> (n <= length s)%nat ->
  exists p m' al', strndup m al a (Z.of_nat n) = Ret (p, m', al') /\ p <> 0 /\ net_ok al' E u m' V ({[p]} ∪ R) /\ (p ∉ R) /\ keeps R al m al' m' /\
    inside al' p p (take n s) /\ sized al' p (take n s) /\ cstr m' p (take n s) /\ (length (take n s) < lim)%nat.
Proof using All.
  intros Hok Hb Hi Hs Hlen Hn. destruct (strndup_spec m al b a s n Hi Hs Hn ltac:(lia)) as (p & m' & al' & E1 & Hf).
  destruct (net_fresh _ _ _ _ _ _ _ _ _ _ Hok Hf) as (? & ? & ? & ? & ?). exists p, m', al'. destruct Hf as (? & _ & _ & ? & _).
  split_and!; try done. rewrite length_take_le by done. lia.
Qed.

Lemma inside_drop al q a s n : inside al q a s -> (n <= length s)%nat -> inside al q (a + Z.of_nat n) (drop n s).
Proof. intros (? & ? & ?) Hn. unfold inside. rewrite length_drop. split_and!; [done|lia|lia]. Qed.

(** The key of a deletion or a lookup: copied, and freed when it has been used. *)
Lemma net_free_key al E u m V R p : net_ok al E u m V ({[p]} ∪ R) -> (p ∉ R) ->
  exists al', al_free al p = Ret al' /\ net_ok al' E u m V R /\ al_live al' = al_live al ∖ {[p]} /\ keeps R al m al' m.
Proof.
  intros Hok HpR. destruct (net_free _ _ _ _ _ _ p Hok ltac:(set_solver)) as (al' & Ef & Hok' & Hl). exists al'.
  replace (({[p]} ∪ R) ∖ {[p]}) with R in Hok' by set_solver. split_and!; try done. eapply free_keeps; [exact Ef|]. by eapply net_rest.
Qed.

Lemma recv_set al E u m V R b k s : net_ok al E u m V R -> b ∈ R -> inside al b k s -> cstr m k s -> (length s < lim)%nat ->
  (size V < fuel)%nat -> Z.of_nat (size V) + 1 < 2^32 -> mget m (k - 1) = 43 ->
  exists r m' u' E' al' t, ukv_recv al_realloc fuel m al E u (k - 1) = Some (Ret (r, m', u', E', al')) /\
    (net_step V (43 :: s)).1 = Some t /\ replied al m (net_step V (43 :: s)).2 R t r m' u' E' al'.
Proof using All.
  intros Hok Hb Hi Hs Hlen Hsz Hmax Hcmd. pose proof Hlim as [Hl _]. unfold ukv_recv. rewrite Hcmd. cbn [Z.eqb Pos.eqb net_step]. rewrite Z.sub_add.
  rewrite (scan_key_spec _ _ _ s) by (done || lia). cbn [mbind option_bind].
  assert (Herr : exists r m' u' E' al' t, error_reply m al E u = Some (Ret (r, m', u', E', al')) /\ Some error_text = Some t /\ replied al m V R t r m' u' E' al').
  { destruct (error_reply_spec _ _ _ _ _ _ Hok) as (r & m' & u' & E' & al' & ? & ?). by exists r, m', u', E', al', error_text. }
  destruct (field 44 s) as [key|] eqn:Ek; cbn [fmap option_fmap option_map]; [|exact Herr].
  destruct (field_bounds _ _ _ Ek) as [Hk Htk]. assert (Hv0 : k + Z.of_nat (length key) + 1 = k + Z.of_nat (length key + 1)) by lia. rewrite Hv0.
  pose proof (cstr_drop _ _ _ (length key + 1) Hs ltac:(lia)) as Hs1. pose proof (inside_drop _ _ _ _ (length key + 1) Hi ltac:(lia)) as Hi1.
  assert (Hlen1 : (length (drop (length key + 1) s) < lim)%nat) by (rewrite length_drop; lia). set (s1 := drop _ s) in *.
  rewrite (scan_key_spec _ _ _ s1) by (done || lia). cbn [mbind option_bind].
  destruct (field 13 s1) as [val|] eqn:Ev; cbn [fmap option_fmap option_map]; [|exact Herr]. destruct (field_bounds _ _ _ Ev) as [Hv Htv].
  rewrite Z.add_simpl_l. replace (k + Z.of_nat (length key + 1) + Z.of_nat (length val) - _) with (Z.of_nat (length val)) by lia.
  destruct (net_strndup _ _ _ _ _ _ _ _ _ (length key) Hok Hb Hi Hs Hlen ltac:(lia)) as (kp & m1 & al1 & -> & Hk0 & Hok1 & HkR & Hk1 & Hik & Hzk & Hck & Hlk).
  cbn [lift fbind]. destruct (keeps_string _ _ _ _ _ b _ _ Hk1 Hb Hi1 Hs1) as [Hi2 Hs2].
  destruct (net_strndup _ _ _ _ _ _ _ _ _ (length val) Hok1 (elem_of_union_r _ _ _ Hb) Hi2 Hs2 Hlen1 ltac:(lia)) as (vp & m2 & al2 & -> & Hv0' & Hok2 & HvR & Hk2 & Hiv & Hzv & Hcv & Hlv).
  cbn [lift fbind]. destruct (keeps_string _ _ _ _ _ kp kp _ Hk2 (elem_of_union_l _ _ _ (proj2 (elem_of_singleton kp kp) eq_refl)) Hik Hck) as [Hik2 Hck2]. rewrite Htk, Htv in *.
  destruct (net_set _ _ _ _ _ _ kp vp key val Hok2) as (r & u' & E' & al3 & -> & Hok3 & Hf & Hk3); try done; [set_solver|set_solver|set_solver|destruct Hik2; unfold sized; lia|].
  cbn [fbind]. replace (({[vp]} ∪ ({[kp]} ∪ R)) ∖ {[kp; vp]}) with R in Hok3, Hk3 by set_solver.
  destruct (answer_spec fuel m2 al3 r (V !! key) Hf) as (p & m4 & al4 & -> & Hfr). cbn [fbind].
  exists p, m4, u', E', al4, (reply_text (V !! key)). split; [done|].
  assert (Hkk : keeps R al m al3 m2). { eapply keeps_trans; [exact Hk1|]. eapply keeps_trans; [|exact Hk3]. eapply keeps_subset; [|exact Hk2]. set_solver. }
  destruct (V !! key) eqn:EV; cbn [fst snd]; (split; [done|]); by eapply replied_fresh.
Qed.

Lemma recv_del al E u m V R b k s : net_ok al E u m V R -> b ∈ R -> inside al b k s -> cstr m k s -> (length s < lim)%nat ->
  (size V < fuel)%nat -> Z.of_nat (size V) + 1 < 2^32 -> mget m (k - 1) = 45 ->
  exists r m' u' E' al' t, ukv_recv al_realloc fuel m al E u (k - 1) = Some (Ret (r, m', u', E', al')) /\
    (net_step V (45 :: s)).1 = Some t /\ replied al m (net_step V (45 :: s)).2 R t r m' u' E' al'.
Proof using All.
  intros Hok Hb Hi Hs Hlen Hsz Hmax Hcmd. pose proof Hlim as [Hl _]. unfold ukv_recv. rewrite Hcmd. cbn [Z.eqb Pos.eqb net_step]. rewrite Z.sub_add.
  rewrite (scan_key_spec _ _ _ s) by (done || lia). cbn [mbind option_bind].
  destruct (field 13 s) as [key|] eqn:Ek; cbn [fmap option_fmap option_map].
  2:{ destruct (error_reply_spec _ _ _ _ _ _ Hok) as (r & m' & u' & E' & al' & ? & ?). by exists r, m', u', E', al', error_text. }
  destruct (field_bounds _ _ _ Ek) as [Hk Htk]. rewrite Z.add_simpl_l.
  destruct (net_strndup _ _ _ _ _ _ _ _ _ (length key) Hok Hb Hi Hs Hlen ltac:(lia)) as (kp & m1 & al1 & -> & Hk0 & Hok1 & HkR & Hk1 & Hik & Hzk & Hck & Hlk).
  cbn [lift fbind]. rewrite Htk in *. destruct (net_del _ _ _ _ _ _ kp key Hok1) as (u' & E' & al2 & -> & Hok2 & Hk2); try done. cbn [fbind].
  destruct (net_free_key _ _ _ _ _ _ _ Hok2 HkR) as (al3 & -> & Hok3 & _ & Hk3). cbn [lift fbind].
  destruct (strdup_lit_spec m1 al3 ok_text) as (r & m4 & al4 & -> & Hf); [by repeat constructor|]. cbn [lift fbind].
  exists r, m4, u', E', al4, ok_text. split; [done|]. split; [done|]. eapply replied_fresh; [exact Hok3| |exact Hf].
  eapply keeps_trans; [exact Hk1|]. eapply keeps_trans; [|exact Hk3]. eapply keeps_subset; [|exact Hk2]. set_solver.
Qed.

Lemma recv_get al E u m V R b k s : net_ok al E u m V R -> b ∈ R -> inside al b k s -> cstr m k s -> (length s < lim)%nat ->
  (size V < fuel)%nat -> mget m (k - 1) = 63 ->
  exists r m' u' E' al' t, ukv_recv al_realloc fuel m al E u (k - 1) = Some (Ret (r, m', u', E', al')) /\
    (net_step V (63 :: s)).1 = Some t /\ replied al m (net_step V (63 :: s)).2 R t r m' u' E' al'.
Proof using All.
  intros Hok Hb Hi Hs Hlen Hsz Hcmd. pose proof Hlim as [Hl _]. unfold ukv_recv. rewrite Hcmd. cbn [Z.eqb Pos.eqb net_step]. rewrite Z.sub_add.
  rewrite (scan_key_spec _ _ _ s) by (done || lia). cbn [mbind option_bind].
  destruct (field 13 s) as [key|] eqn:Ek; cbn [fmap option_fmap option_map].
  2:{ destruct (error_reply_spec _ _ _ _ _ _ Hok) as (r & m' & u' & E' & al' & ? & ?). by exists r, m', u', E', al', error_text. }
  destruct (field_bounds _ _ _ Ek) as [Hk Htk]. rewrite Z.add_simpl_l.
  destruct (net_strndup _ _ _ _ _ _ _ _ _ (length key) Hok Hb Hi Hs Hlen ltac:(lia)) as (kp & m1 & al1 & -> & Hk0 & Hok1 & HkR & Hk1 & Hik & Hzk & Hck & Hlk).
  cbn [lift fbind]. rewrite Htk in *. destruct (net_get _ _ _ _ _ _ kp key Hok1) as (r & -> & Hf & HrR); try done. cbn [fbind].
  destruct (net_free_key _ _ _ _ _ _ _ Hok1 HkR) as (al2 & Ef & Hok2 & Hl2 & Hk2). rewrite Ef. cbn [lift fbind].
  assert (Hf2 : found al2 m1 r (V !! key)).
  { destruct (V !! key) as [t|]; [|exact Hf]. destruct HrR as [?|HrR]; [done|]. destruct Hf as (Hr0 & (Hrl & Hr1 & Hr2) & Hrest).
    assert (Hl' : r ∈ al_live al2) by (rewrite Hl2; set_solver). split; [done|]. split; [|exact Hrest]. split_and!; [done|done|]. by rewrite (proj2 (free_size _ _ _ Ef r Hl')). }
  destruct (answer_spec fuel m1 al2 r (V !! key) Hf2) as (p & m4 & al4 & -> & Hfr). cbn [fbind].
  exists p, m4, u, E, al4, (reply_text (V !! key)). split; [done|]. split; [done|]. eapply replied_fresh; [exact Hok2| |exact Hfr].
  by eapply keeps_trans.
Qed.

Lemma ukv_recv_spec al E u m V R b msg s :
  net_ok al E u m V R -> b ∈ R -> inside al b msg s -> cstr m msg s -> (length s < lim)%nat -> (size V < fuel)%nat -> Z.of_nat (size V) + 1 < 2^32 ->
  exists r m' u' E' al', ukv_recv al_realloc fuel m al E u msg = Some (Ret (r, m', u', E', al')) /\
    match (net_step V s).1 with
    | None => r = 0 /\ net_ok al' E' u' m' (net_step V s).2 R /\ keeps R al m al' m'
    | Some t => replied al m (net_step V s).2 R t r m' u' E' al'
    end.
Proof using All.
  intros Hok Hb Hi Hs Hlen Hsz Hmax. destruct s as [|cmd s].
  { cbn in Hs. unfold ukv_recv. rewrite Hs. cbn. by apply error_reply_spec. }
  assert (Hi1 : inside al b (msg + 1) s) by exact (inside_drop _ _ _ _ 1 Hi ltac:(cbn; lia)). destruct Hs as (Hcmd & _ & Hs). cbn [length] in Hlen.
  assert (Hc : mget m (msg + 1 - 1) = cmd) by (by rewrite Z.add_simpl_r).
  assert (Hnext : (exists r m' u' E' al' t, ukv_recv al_realloc fuel m al E u (msg + 1 - 1) = Some (Ret (r, m', u', E', al')) /\
      (net_step V (cmd :: s)).1 = Some t /\ replied al m (net_step V (cmd :: s)).2 R t r m' u' E' al') ->
    exists r m' u' E' al', ukv_recv al_realloc fuel m al E u msg = Some (Ret (r, m', u', E', al')) /\
      match (net_step V (cmd :: s)).1 with None => r = 0 /\ net_ok al' E' u' m' (net_step V (cmd :: s)).2 R /\ keeps R al m al' m' | Some t => replied al m (net_step V (cmd :: s)).2 R t r m' u' E' al' end).
  { intros (r & m' & u' & E' & al' & t & E1 & E2 & Hr). rewrite Z.add_simpl_r in E1. rewrite E2. by exists r, m', u', E', al'. }
  destruct (decide (cmd = 43)) as [->|H43]; [apply Hnext; eapply recv_set; (done || lia)|].
  destruct (decide (cmd = 45)) as [->|H45]; [apply Hnext; eapply recv_del; (done || lia)|].
  destruct (decide (cmd = 63)) as [->|H63]; [apply Hnext; eapply recv_get; (done || lia)|].
  unfold ukv_recv. rewrite Hcmd. cbn [net_step]. rewrite !(proj2 (Z.eqb_neq cmd _)) by done.
  destruct (cmd =? 37); [|by apply error_reply_spec]. by exists 0, m, u, E, al.
Qed.

(** The protocol refines a map of strings.  When the store holds the map [V], a
    message of fewer than [lim] characters in a block of the caller gets the reply
    [net_step] gives ("!" and the value found, "!" alone, or "%error" for a message
    without a terminated, non-empty key or value), in a new block that the caller
    owns, or none for "%"; the store then holds the map [net_step] leaves, the copies
    made of the message are all freed or owned by the store, and no block of the
    caller has changed. *)
Theorem ukv_recv_correct al E u m V R b msg s :
  net_ok al E u m V R -> b ∈ R -> inside al b msg s -> cstr m msg s -> (length s < lim)%nat -> (size V < fuel)%nat -> Z.of_nat (size V) + 1 < 2^32 ->
  exists r m' u' E' al', ukv_recv al_realloc fuel m al E u msg = Some (Ret (r, m', u', E', al')) /\
    match (net_step V s).1 with
    | None => r = 0 /\ net_ok al' E' u' m' (net_step V s).2 R /\ keeps R al m al' m'
    | Some t => replied al m (net_step V s).2 R t r m' u' E' al'
    end.
Proof using All. apply ukv_recv_spec. Qed.
End Net.

(** A new store is sent "+a,bc\r\n", which is in block 1000 of its client. *)
Lemma ukv_recv_correct_witness :
  let B := debug_build 2 in
  let m := put_bytes ∅ 1000 [43; 97; 44; 98; 99; 13; 10; 0] in
  exists u al r m' u' E' al', ukv_init (mk_libc {[1000 := 50]}) = Ret (u, al) /\
    ukv_recv (fun al _ _ => Ret (0, al)) 60 m al ∅ u 1000 = Some (Ret (r, m', u', E', al')) /\ cstr m' r ok_text /\
    net_ok 60 20 al' E' u' m' {[ [97] := [98; 99] ]} {[r; 1000]}.
Proof.
  intros B m. destruct (ukv_init_spec (H:=B) (fun al _ _ => Ret (0, al)) 60 m (fun _ _ => False) (mk_libc {[1000 := 50]})) as (u & al & Ei & Hst).
  assert (Hok : net_ok 60 20 al ∅ u m ∅ {[1000]}).
  { exists ∅. split_and!; [|done|]. { by eapply store_good; [exact Hst|]. } intros s p Hp. by rewrite lookup_empty in Hp. }
  assert (Hin : inside al 1000 1000 [43; 97; 44; 98; 99; 13; 10]).
  { vm_compute in Ei. injection Ei as <- <-. unfold inside. refine (bool_decide_eq_true_1 _ _). by vm_compute. }
  destruct (ukv_recv_correct (H:=B) (fun al _ _ => Ret (0, al)) 60 20 ltac:(lia) al ∅ u m ∅ {[1000]} 1000 1000 _ Hok ltac:(set_solver) Hin)
    as (r & m' & u' & E' & al' & Er & _ & _ & Hc & Hok' & _); [vm_compute; split_and!; done|cbn; lia|by rewrite map_size_empty; lia..|].
  exists u, al, r, m', u', E', al'. split_and!; [exact Ei|exact Er|exact Hc|exact Hok'].
Defined.
