(* ===== verification/UkvServer.v ===== *)
(** * The server of the key-value store (examples/ukv/ukv_server.c)

    The server is a state machine: it accepts connections, receives messages,
    executes each in an atomic block and answers.  A message carries its checksum in
    its first four bytes, and so does the answer.  What the library does for the
    server (checking the checksum of the input, computing the one of the output) is
    an interface with an instance on the input and output buffers; the atomic blocks
    have the effect of one execution.  The results of the blocking system calls are
    the input of the model; what is printed is left out.

    The theorem: whatever the clients send, the server's answers are those of a map
    of strings with the checksums the clients expect, messages with a wrong checksum
    change nothing, and after the request to terminate every block is free. *)

From S2P Require Export UkvNet Channel.

(** ** The interface to the library *)

Class Messages (L : Type) := {
  begin_nm : L -> outcome L;                                     (* __begin_nm *)
  begin_check : L -> mem -> Z -> Z -> Z -> outcome (bool * L);   (* the test of __begin *)
  block_end : L -> mem -> option (Z * list Z) -> outcome L;      (* __output_append and __output_done, if the block has output; __end *)
  crc_pop : L -> outcome (Z * L);                                (* __crc_pop *)
}.

(** [crc] is the checksum the two sides compute; [n] counts the messages sent so far,
    [q] holds the checksums that have not been fetched yet, and [b] is the input of
    the block that is open, if any: its address and size, and its bytes. *)
Class MessagesLaws (L : Type) `{Messages L} (crc : list Z -> Z) := {
  msg_ok : L -> nat -> list Z -> option (Z * Z * list Z) -> Prop;
  crc_range : forall data, Crc.bytes data -> 0 <= crc data < 2^32;
  begin_nm_ok : forall l n, msg_ok l n [] None -> exists l', begin_nm l = Ret l' /\ msg_ok l' n [] (Some (0, 0, []));
  begin_check_ok : forall l n m ptr size c, msg_ok l n [] None -> ptr <> 0 -> let data := read_block m ptr size in
    exists l', begin_check l m ptr size c = Ret (crc data =? c, l') /\ msg_ok l' n [] (if crc data =? c then Some (ptr, size, data) else None);
  block_end_ok : forall l n m ptr size, msg_ok l n [] (Some (ptr, size, read_block m ptr size)) ->
    exists l', block_end l m None = Ret l' /\ msg_ok l' n [] None;
  block_output_ok : forall l n m ptr size addr data, msg_ok l n [] (Some (ptr, size, read_block m ptr size)) ->
    Z.of_nat n + 1 < INT_MAX -> Crc.bytes data -> data <> [] -> Z.of_nat (length data) < 2^64 ->
    exists l', block_end l m (Some (addr, data)) = Ret l' /\ msg_ok l' (n + 1) [crc data] None;
  crc_pop_ok : forall l n c q, msg_ok l n (c :: q) None -> exists l', crc_pop l = Ret (c, l') /\ msg_ok l' n q None;
}.

(** ** The code *)

Inductive server_state := INIT | ACCT | RECV | PROC | SEND | FINI | CORR.

Definition BUFSIZE : Z := 1024.
Definition EXIT_FAILURE : Z := 1.

(** The results of the calls of a round that depend on the outside world: the socket
    of [socket] or [accept], the value of [recvfrom] and the bytes it stores, and the
    values of [setsockopt], [bind] and [listen]. *)
Record result := mk_result { sock : Z; read : Z; received : list Z; setup : Z * Z * Z }.

Inductive output := Sendto (fd : Z) (data : list Z) | Close (fd : Z).

(** The local variables of [main], the memory, and what the server talks to. *)
Record server (S L : Type) := mk_server {
  v_state : server_state;
  v_fd : Z; v_cfd : Z;
  v_msg : Z; v_msg_len : Z; v_crc : Z; v_r : Z;
  v_ukv : ukv;
  v_mem : mem; v_al : S; v_E : gmap Z entry; v_lib : L;
}.
Arguments mk_server {S L}.
Arguments v_state {S L}.
Arguments v_fd {S L}.
Arguments v_cfd {S L}.
Arguments v_msg {S L}.
Arguments v_msg_len {S L}.
Arguments v_crc {S L}.
Arguments v_r {S L}.
Arguments v_ukv {S L}.
Arguments v_mem {S L}.
Arguments v_al {S L}.
Arguments v_E {S L}.
Arguments v_lib {S L}.

(** [memcpy] of a [uint32_t]. *)
Definition word_bytes (w : Z) : list Z := (fun i => Z.land (Z.shiftr w (8 * i)) 255) <$> [0; 1; 2; 3].

Definition s64 (z : Z) : Z := (z + 2^63) mod 2^64 - 2^63.

Section Server.
Context `{Build} {S L : Type} `{Allocator S} `{Messages L} (al_realloc : S -> Z -> Z -> outcome (Z * S)) (fuel : nat).
(** The address of [char buffer\[BUFSIZE+1\]]. *)
Context (buffer : Z).
Abbreviation server := (server S L).
Implicit Types v : server.

Definition goto v st : server :=
  mk_server st (v_fd v) (v_cfd v) (v_msg v) (v_msg_len v) (v_crc v) (v_r v) (v_ukv v) (v_mem v) (v_al v) (v_E v) (v_lib v).
Definition set_len v len : server :=
  mk_server (v_state v) (v_fd v) (v_cfd v) (v_msg v) len (v_crc v) (v_r v) (v_ukv v) (v_mem v) (v_al v) (v_E v) (v_lib v).
Definition set_store v u m al E l : server :=
  mk_server (v_state v) (v_fd v) (v_cfd v) (v_msg v) (v_msg_len v) (v_crc v) (v_r v) u m al E l.

(** A case of the [switch]: the outputs, and the server or the exit status with the
    blocks that are left. *)
Abbreviation case := (option (outcome (list output * (server + Z * S)))).
Definition quit v : case := Some (Ret ([], inr (EXIT_FAILURE, v_al v))).

Definition case_INIT (r : result) v : case :=
  let '(setsockopt, bind, listen) := setup r in
  if sock r <? 0 then quit v
  else if setsockopt <? 0 then quit v
  else if bind <? 0 then quit v
  else if listen <? 0 then quit v
  else
    l ⇐ lift (begin_nm (v_lib v));
    '(u, al) ⇐ lift (ukv_init (v_al v));
    l ⇐ lift (block_end l (v_mem v) None);
    Some (Ret ([], inl (mk_server ACCT (sock r) (v_cfd v) (v_msg v) (v_msg_len v) (v_crc v) (v_r v) u (v_mem v) al (v_E v) l))).

Definition case_ACCT (r : result) v : case :=
  if sock r <? 0 then Some (Ret ([], inl v))
  else Some (Ret ([], inl (mk_server RECV (v_fd v) (sock r) (v_msg v) (v_msg_len v) (v_crc v) (v_r v) (v_ukv v) (v_mem v) (v_al v) (v_E v) (v_lib v)))).

(** [msg_len] is a [ssize_t]: [read - sizeof(crc)] is computed as a [size_t]. *)
Definition case_RECV (r : result) v : case :=
  let read := read r in
  if read <=? 0 then Some (Ret ([Close (v_cfd v)], inl (goto v ACCT)))
  else
    let m := put_bytes (v_mem v) buffer (received r) in
    let m := store 1 m (buffer + read) 0 in
    let crc := load 4 m buffer in
    let msg := buffer + 4 in
    let msg_len := s64 (u64 (read - 4)) in
    Some (Ret ([], inl (mk_server PROC (v_fd v) (v_cfd v) msg msg_len crc (v_r v) (v_ukv v) m (v_al v) (v_E v) (v_lib v)))).

Definition case_PROC v : case :=
  '(ok, l) ⇐ lift (begin_check (v_lib v) (v_mem v) (v_msg v) (u64 (v_msg_len v)) (v_crc v));
  if ok : bool then
    '(r, m, u, E, al) ⇐ ukv_recv al_realloc fuel (v_mem v) (v_al v) (v_E v) (v_ukv v) (v_msg v);
    let v := mk_server (v_state v) (v_fd v) (v_cfd v) (v_msg v) (v_msg_len v) (v_crc v) r u m al E l in
    if r =? 0 then
      l ⇐ lift (block_end l m None);
      Some (Ret ([], inl (goto (set_store v u m al E l) FINI)))
    else
      n ← strlen fuel m r;
      l ⇐ lift (block_end l m (Some (r, read_block m r n)));
      Some (Ret ([], inl (goto (set_store v u m al E l) SEND)))
  else
    let v := mk_server (v_state v) (v_fd v) (v_cfd v) (v_msg v) (v_msg_len v) (v_crc v) 0 (v_ukv v) (v_mem v) (v_al v) (v_E v) l in
    Some (Ret ([], inl (goto v CORR))).

(** The answer on the wire: the checksum and the text, without its end. *)
Definition response (m : mem) (ocrc r n : Z) : list Z := word_bytes ocrc ++ read_block m r n.

Definition case_SEND v : case :=
  '(ocrc, l) ⇐ lift (crc_pop (v_lib v));
  n ← strlen fuel (v_mem v) (v_r v);
  l ⇐ lift (begin_nm l);
  al ⇐ lift (ukv_done (v_al v) (v_r v));
  l ⇐ lift (block_end l (v_mem v) None);
  Some (Ret ([Sendto (v_cfd v) (response (v_mem v) ocrc (v_r v) n)], inl (goto (set_store (set_len v (s64 (u64 (4 + n)))) (v_ukv v) (v_mem v) al (v_E v) l) RECV))).

Definition case_CORR v : case :=
  l ⇐ lift (begin_nm (v_lib v));
  '(reply, m, al) ⇐ lift (strdup_lit (v_mem v) (v_al v) error_text);
  if reply =? 0 then Some (Ret ([], inr (EXIT_FAILURE, al)))
  else
    n ← strlen fuel m reply;
    l ⇐ lift (block_end l m (Some (reply, read_block m reply n)));
    '(ocrc, l) ⇐ lift (crc_pop l);
    al ⇐ lift (al_free al reply);
    Some (Ret ([Sendto (v_cfd v) (response m ocrc reply n)], inl (goto (set_store (set_len v (s64 (u64 (4 + n)))) (v_ukv v) m al (v_E v) l) RECV))).

Definition case_FINI v : case :=
  l ⇐ lift (begin_nm (v_lib v));
  al ⇐ ukv_fini fuel (v_al v) (v_E v) (v_ukv v);
  _ ⇐ lift (block_end l (v_mem v) None);
  Some (Ret ([Close (v_fd v)], inr (0, al))).

(** One round of [while(1) switch(state)]. *)
Definition round (r : result) v : case :=
  match v_state v with
  | INIT => case_INIT r v
  | ACCT => case_ACCT r v
  | RECV => case_RECV r v
  | PROC => case_PROC v
  | SEND => case_SEND v
  | CORR => case_CORR v
  | FINI => case_FINI v
  end.

(** The states whose case waits for the outside world. *)
Definition waits (st : server_state) : bool :=
  match st with INIT | ACCT | RECV => true | PROC | SEND | FINI | CORR => false end.

(** The loop, until the process exits or waits for a call that does not return. *)
Fixpoint serve (steps : nat) (rs : list result) v : case :=
  match steps with
  | O => None
  | Datatypes.S steps' =>
      match (if waits (v_state v) then rs else mk_result 0 0 [] (0, 0, 0) :: rs) with
      | [] => Some (Ret ([], inl v))
      | r :: rs' =>
          '(outs, w) ⇐ round r v;
          match w with
          | inr e => Some (Ret (outs, inr e))
          | inl v' => '(outs', w') ⇐ serve steps' rs' v'; Some (Ret (outs ++ outs', w'))
          end
      end
  end.
End Server.

(** ** What the server promises *)

(** The text of a message, up to its first null character. *)
Fixpoint c_text (data : list Z) : list Z :=
  match data with
  | [] => []
  | c :: data' => if c =? 0 then [] else c :: c_text data'
  end.

Section Spec.
Context (crc : list Z -> Z).
Implicit Types V : gmap (list Z) (list Z).

(** What goes over the wire for text [t]. *)
Definition frame_of (t : list Z) : list Z := word_bytes (crc t) ++ t.

(** The answer to a received message. *)
Definition message_step V (data : list Z) : option (list Z) * gmap (list Z) (list Z) :=
  if crc (drop 4 data) =? Crc.le (take 4 data) then net_step V (c_text (drop 4 data)) else (Some error_text, V).

(** The server as its clients see it: the connection, if any, and the map; [None] when
    it has terminated. *)
Fixpoint spec_serve (fd : Z) (rs : list result) (conn : option Z) V : list output * option (gmap (list Z) (list Z)) :=
  match rs with
  | [] => ([], Some V)
  | r :: rs' =>
      match conn with
      | None => spec_serve fd rs' (if sock r <? 0 then None else Some (sock r)) V
      | Some cfd =>
          if read r <=? 0 then let '(outs, w) := spec_serve fd rs' None V in (Close cfd :: outs, w)
          else
            match message_step V (received r) with
            | (None, _) => ([Close fd], None)
            | (Some t, V') => let '(outs, w) := spec_serve fd rs' (Some cfd) V' in (Sendto cfd (frame_of t) :: outs, w)
            end
      end
  end.
End Spec.

(** ** Blocks stay apart *)

Section Apart.
Context {S : Type} `{AllocatorLaws S, !AllocatorSizes S}.
Implicit Types al : S.

(** No two live blocks overlap. *)
Definition apart al : Prop := forall p q, p ∈ al_live al -> q ∈ al_live al -> p <> q -> p + al_size al p <= q \/ q + al_size al q <= p.

(** A sequence of allocations and frees. *)
Inductive al_steps : S -> S -> Prop :=
  | al_steps_refl al : al_steps al al
  | al_steps_malloc al1 n p al2 al3 : al_malloc al1 n = Ret (p, al2) -> al_steps al2 al3 -> al_steps al1 al3
  | al_steps_free al1 p al2 al3 : al_free al1 p = Ret al2 -> al_steps al2 al3 -> al_steps al1 al3.

Lemma al_steps_trans al1 al2 al3 : al_steps al1 al2 -> al_steps al2 al3 -> al_steps al1 al3.
Proof. induction 1 as [|al1 n p al2 al4 Em _ IH|al1 p al2 al4 Ef _ IH]; intros; [done|eapply al_steps_malloc; eauto|eapply al_steps_free; eauto]. Qed.

Lemma al_steps_malloc1 al n p al' : al_malloc al n = Ret (p, al') -> al_steps al al'.
Proof. intros E. eapply al_steps_malloc; [exact E|apply al_steps_refl]. Qed.

Lemma al_steps_free1 al p al' : al_free al p = Ret al' -> al_steps al al'.
Proof. intros E. eapply al_steps_free; [exact E|apply al_steps_refl]. Qed.

Lemma apart_malloc al n p al' : apart al -> al_malloc al n = Ret (p, al') -> apart al'.
Proof.
  intros Ha E x y Hx Hy Hne. destruct (malloc_size _ _ _ _ E) as [Hp Hq]. destruct (malloc_fresh _ _ _ _ E) as (_ & _ & Hl).
  rewrite Hl in Hx, Hy. apply elem_of_union in Hx, Hy. rewrite !elem_of_singleton in Hx, Hy.
  destruct Hx as [->|Hx], Hy as [->|Hy]; [done|destruct (Hq y Hy) as [-> ?]; lia|destruct (Hq x Hx) as [-> ?]; lia|].
  destruct (Hq x Hx) as [-> _], (Hq y Hy) as [-> _]. by apply Ha.
Qed.

Lemma apart_free al p al' : apart al -> al_free al p = Ret al' -> apart al'.
Proof.
  intros Ha E x y Hx Hy Hne. destruct (free_size _ _ _ E x Hx) as [? ->]. destruct (free_size _ _ _ E y Hy) as [? ->]. by apply Ha.
Qed.

Lemma apart_steps al al' : al_steps al al' -> apart al -> apart al'.
Proof. induction 1; intros; [done|eauto using apart_malloc|eauto using apart_free]. Qed.

Lemma strdup_lit_steps m al t r m' al' : strdup_lit m al t = Ret (r, m', al') -> al_steps al al'.
Proof.
  intros E. apply bind_Ret in E as ([p al1] & Em & E). apply al_steps_malloc1 in Em. destruct (p =? 0); by injection E as _ _ <-.
Qed.

Lemma strndup_steps m al a n r m' al' : strndup m al a n = Ret (r, m', al') -> al_steps al al'.
Proof. intros E. apply bind_Ret in E as ([p al1] & Em & [= _ _ <-]). by apply al_steps_malloc1 in Em. Qed.

Lemma answer_steps fuel m al r s m' al' : answer fuel m al r = Some (Ret (s, m', al')) -> al_steps al al'.
Proof.
  intros E. unfold answer in E. destruct (if negb (r =? 0) then strlen fuel m r else Some 0) as [n|]; [|done]. cbn [mbind option_bind] in E. cbv zeta in E.
  apply fbind_Ret in E as ([p al1] & Em & E). injection Em as Em. apply al_steps_malloc1 in Em.
  destruct (if negb (r =? 0) then strcpy _ _ _ _ else _) as [m1|]; [|done]. cbn [mbind option_bind] in E. by injection E as _ _ <-.
Qed.

Section Table.
Context `{Keys} (al_realloc : S -> Z -> Z -> outcome (Z * S)).

Lemma remove_chain_steps fuel al E h hv k : forall pE e v h' E' al', remove_chain fuel al E h hv k pE e = Some (Ret (v, h', E', al')) -> al_steps al al'.
Proof.
  induction fuel as [|fuel IH]; intros pE e v h' E' al' Er; cbn [remove_chain] in Er; [done|]. destruct (e =? 0); [injection Er as _ _ _ <-; apply al_steps_refl|].
  apply fbind_Ret in Er as (en & _ & Er). destruct (if hv =? e_h en then eqfn k (e_k en) else Some 0) as [b|]; [|done]. cbn [mbind option_bind] in Er.
  destruct (negb (b =? 0)); [|by eapply IH]. apply fbind_Ret in Er as ([E1 h1] & _ & Er). apply fbind_Ret in Er as (al1 & Ef1 & Er). injection Ef1 as Ef1.
  apply fbind_Ret in Er as (al2 & Ef2 & [= _ _ _ <-]). injection Ef2 as Ef2. eapply al_steps_free; [exact Ef1|by eapply al_steps_free1].
Qed.

Lemma hashtable_remove_steps fuel al E h k v h' E' al' : hashtable_remove fuel al E h k = Some (Ret (v, h', E', al')) -> al_steps al al'.
Proof.
  intros Er. unfold hashtable_remove in Er. destruct (hash k); [|done]. cbn [mbind option_bind] in Er. apply fbind_Ret in Er as (e & _ & Er). by eapply remove_chain_steps.
Qed.

Lemma hashtable_insert_steps fuel al E h k v r h' E' al' : hashtable_insert al_realloc fuel al E h k v = Some (Ret (r, h', E', al')) -> al_steps al al'.
Proof.
  intros Ei. unfold hashtable_insert in Ei. cbv zeta in Ei. apply fbind_Ret in Ei as ([[h1 E1] al1] & Eg & Ei).
  assert (Hs1 : al_steps al al1).
  { destruct (_ <? _); [|injection Eg as _ _ <-; apply al_steps_refl]. apply fbind_Ret in Eg as ([[[x h2] E2] al2] & Ex & [= _ _ <-]). unfold hashtable_expand in Ex.
    case_decide; [injection Ex as _ _ _ <-; apply al_steps_refl|]. apply fbind_Ret in Ex as (ns & _ & Ex). apply fbind_Ret in Ex as ([nt al3] & Em & Ex). injection Em as Em.
    destruct (malloc_fresh _ _ _ _ Em) as (Hp & _). rewrite (proj2 (Z.eqb_neq nt 0)) in Ex by done. cbn [negb] in Ex.
    apply fbind_Ret in Ex as ([[E4 ?] ?] & _ & Ex). apply fbind_Ret in Ex as (al4 & Ef & [= _ _ _ <-]). injection Ef as Ef.
    eapply al_steps_malloc; [exact Em|by eapply al_steps_free1]. }
  apply fbind_Ret in Ei as ([e al2] & Em & Ei). injection Em as Em. eapply al_steps_trans; [exact Hs1|]. eapply al_steps_malloc1.
  destruct (e =? 0); [injection Ei as _ _ _ <-; exact Em|]. unfold insert_entry in Ei. destruct (hash k); [|done]. cbn [mbind option_bind] in Ei.
  apply fbind_Ret in Ei as (? & _ & Ei). apply fbind_Ret in Ei as (? & _ & [= _ _ _ <-]). exact Em.
Qed.
End Table.

Lemma ukv_init_steps `{Build} al u al' : ukv_init al = Ret (u, al') -> al_steps al al' /\ forall q, q ∈ al_live al -> al_size al' q = al_size al q.
Proof.
  intros Ei. apply bind_Ret in Ei as ([p al1] & Em1 & Ei). apply bind_Ret in Ei as (? & _ & Ei). apply bind_Ret in Ei as ([h al4] & Ec & Ei).
  apply bind_Ret in Ei as (? & _ & Ei). assert (al' = al4) as -> by (destruct h; congruence). unfold create_hashtable in Ec.
  rewrite (proj2 (Z.ltb_ge (2^30) 16)) in Ec by lia. destruct (find_prime primes 0 16) as [size pindex].
  apply bind_Ret in Ec as ([p2 al2] & Em2 & Ec). destruct (malloc_fresh _ _ _ _ Em2) as (Hp2 & _ & Hl2). rewrite (proj2 (Z.eqb_neq p2 0)) in Ec by done.
  apply bind_Ret in Ec as ([t al3] & Em3 & Ec). destruct (malloc_fresh _ _ _ _ Em3) as (Ht & _). rewrite (proj2 (Z.eqb_neq t 0)) in Ec by done. injection Ec as _ <-.
  split; [eauto using al_steps_malloc, al_steps_refl|]. intros q Hq. destruct (malloc_fresh _ _ _ _ Em1) as (_ & _ & Hl1).
  destruct (malloc_size _ _ _ _ Em1) as [_ H1']. destruct (malloc_size _ _ _ _ Em2) as [_ H2']. destruct (malloc_size _ _ _ _ Em3) as [_ H3'].
  destruct (H1' q Hq) as [<- _]. assert (Hq1 : q ∈ al_live al1) by (rewrite Hl1; set_solver). destruct (H2' q Hq1) as [<- _].
  assert (Hq2 : q ∈ al_live al2) by (rewrite Hl2; set_solver). by destruct (H3' q Hq2) as [<- _].
Qed.

Section Store.
Context `{Build} (al_realloc : S -> Z -> Z -> outcome (Z * S)) (fuel : nat).

Lemma ukv_set_steps m al E u k v r u' E' al' : ukv_set al_realloc fuel m al E u k v = Some (Ret (r, u', E', al')) -> al_steps al al'.
Proof.
  intros Es. unfold ukv_set in Es. do 3 apply fbind_Ret in Es as (? & _ & Es). apply fbind_Ret in Es as (v0 & _ & Es). destruct (negb (v0 =? 0)).
  - apply fbind_Ret in Es as (al1 & E1 & Es). apply fbind_Ret in Es as (al2 & E2 & [= _ _ _ <-]). injection E1 as E1. injection E2 as E2.
    eapply al_steps_free; [exact E1|by eapply al_steps_free1].
  - apply fbind_Ret in Es as ([[[r1 h1] E1] al1] & Ei & Es). apply fbind_Ret in Es as (? & _ & [= _ _ _ <-]). by eapply (hashtable_insert_steps (H1 := keys fuel m) al_realloc).
Qed.

Lemma ukv_del_steps m al E u k u' E' al' : ukv_del fuel m al E u k = Some (Ret (u', E', al')) -> al_steps al al'.
Proof.
  intros Ed. unfold ukv_del in Ed. do 2 apply fbind_Ret in Ed as (? & _ & Ed). apply fbind_Ret in Ed as ([[[v h] E1] al1] & Er & Ed). apply fbind_Ret in Ed as (al2 & Ef & [= _ _ <-]).
  eapply al_steps_trans; [by eapply hashtable_remove_steps|]. injection Ef as Ef. destruct (negb (v =? 0)); [by eapply al_steps_free1|]. injection Ef as <-. apply al_steps_refl.
Qed.

Lemma ukv_recv_steps m al E u msg r m' u' E' al' : ukv_recv al_realloc fuel m al E u msg = Some (Ret (r, m', u', E', al')) -> al_steps al al'.
Proof.
  assert (Herr : forall r m' u' E' al', error_reply m al E u = Some (Ret (r, m', u', E', al')) -> al_steps al al').
  { intros. unfold error_reply in *. match goal with X : _ = Some _ |- _ => apply fbind_Ret in X as ([[? ?] ?] & Es & [= _ _ _ _ <-]) end. injection Es as Es. by eapply strdup_lit_steps. }
  intros Er. unfold ukv_recv in Er. cbv zeta in Er. destruct (mget m msg =? 43); [|destruct (mget m msg =? 45); [|destruct (mget m msg =? 63); [|destruct (mget m msg =? 37)]]].
  - destruct (scan_key fuel m (msg + 1) 44) as [[ke|]|]; cbn [mbind option_bind] in Er; [|by eapply Herr|done].
    destruct (scan_key fuel m (ke + 1) 13) as [[ve|]|]; cbn [mbind option_bind] in Er; [|by eapply Herr|done].
    apply fbind_Ret in Er as ([[k m1] al1] & E1 & Er). injection E1 as E1. apply fbind_Ret in Er as ([[v m2] al2] & E2 & Er). injection E2 as E2.
    apply fbind_Ret in Er as ([[[x u3] E3] al3] & Es & Er). apply fbind_Ret in Er as ([[s m4] al4] & Ea & [= _ _ _ _ <-]).
    eapply al_steps_trans; [by eapply strndup_steps|]. eapply al_steps_trans; [by eapply strndup_steps|]. eapply al_steps_trans; [by eapply ukv_set_steps|by eapply answer_steps].
  - destruct (scan_key fuel m (msg + 1) 13) as [[ke|]|]; cbn [mbind option_bind] in Er; [|by eapply Herr|done].
    apply fbind_Ret in Er as ([[k m1] al1] & E1 & Er). injection E1 as E1. apply fbind_Ret in Er as ([[u2 E2] al2] & Ed & Er).
    apply fbind_Ret in Er as (al3 & Ef & Er). injection Ef as Ef. apply fbind_Ret in Er as ([[s m4] al4] & Ea & [= _ _ _ _ <-]). injection Ea as Ea.
    eapply al_steps_trans; [by eapply strndup_steps|]. eapply al_steps_trans; [by eapply ukv_del_steps|]. eapply al_steps_free; [exact Ef|by eapply strdup_lit_steps].
  - destruct (scan_key fuel m (msg + 1) 13) as [[ke|]|]; cbn [mbind option_bind] in Er; [|by eapply Herr|done].
    apply fbind_Ret in Er as ([[k m1] al1] & E1 & Er). injection E1 as E1. apply fbind_Ret in Er as (x & _ & Er).
    apply fbind_Ret in Er as (al3 & Ef & Er). injection Ef as Ef. apply fbind_Ret in Er as ([[s m4] al4] & Ea & [= _ _ _ _ <-]).
    eapply al_steps_trans; [by eapply strndup_steps|]. eapply al_steps_free; [exact Ef|by eapply answer_steps].
  - injection Er as _ _ _ _ <-. apply al_steps_refl.
  - by eapply Herr.
Qed.
End Store.
End Apart.

(** ** The loop *)

Lemma cstr_bytes m p t : cstr m p t -> Crc.bytes t /\ read_block m p (Z.of_nat (length t)) = t.
Proof.
  intros Hc. assert (Hb : forall t p, cstr m p t -> Crc.bytes t /\ mget m <$> seqZ p (Z.of_nat (length t)) = t); [|by apply Hb].
  clear. intros t. induction t as [|c t IH]; intros p Hc; [by split; [constructor|]|]. destruct Hc as (Hm & Hz & Hc). destruct (IH _ Hc) as [Hb Er].
  cbn [length]. rewrite Nat2Z.inj_succ, seqZ_cons by lia. rewrite Z.pred_succ. cbn. split; [constructor; [rewrite <- Hm; apply mget_bound|done]|].
  rewrite Hm, <- Z.add_1_r, Er. done.
Qed.

(** A text in memory ends at its first null character. *)
Lemma cstr_text m p data : Crc.bytes data -> (forall i, (i <= length data)%nat -> mget m (p + Z.of_nat i) = nth i data 0) ->
  cstr m p (c_text data).
Proof.
  revert p. induction data as [|c data IH]; intros p Hb Hm; cbn [c_text].
  - cbn. rewrite <- (Z.add_0_r p). apply (Hm 0%nat). cbn; lia.
  - apply Forall_cons in Hb as [Hc Hb]. pose proof (Hm 0%nat ltac:(cbn; lia)) as H0. rewrite Z.add_0_r in H0. cbn in H0. destruct (Z.eqb_spec c 0) as [->|Hne]; [done|].
    cbn. split_and!; [done|done|]. apply IH; [done|]. intros i Hi. rewrite <- Z.add_assoc. replace (1 + Z.of_nat i) with (Z.of_nat (Datatypes.S i)) by lia. apply (Hm (Datatypes.S i)). cbn; lia.
Qed.

Lemma length_c_text data : (length (c_text data) <= length data)%nat.
Proof. induction data as [|c data IH]; cbn; [lia|]. destruct (c =? 0); cbn; lia. Qed.

Lemma load_le n m a data : (forall i, (i < n)%nat -> mget m (a + Z.of_nat i) = nth i data 0) -> (n <= length data)%nat -> load n m a = Crc.le (take n data).
Proof.
  revert a data. induction n as [|n IH]; intros a data Hm Hn; [done|]. destruct data as [|c data]; [cbn in Hn; lia|]. cbn [load take Crc.le foldr].
  pose proof (Hm 0%nat ltac:(lia)) as H0. rewrite Z.add_0_r in H0. rewrite H0. cbn [nth]. f_equal. f_equal. apply IH; [|cbn in Hn; lia].
  intros i Hi. rewrite <- Z.add_assoc. replace (1 + Z.of_nat i) with (Z.of_nat (Datatypes.S i)) by lia. by rewrite Hm by lia.
Qed.

Lemma read_block_eq m p data : (forall i, (i < length data)%nat -> mget m (p + Z.of_nat i) = nth i data 0) ->
  read_block m p (Z.of_nat (length data)) = data.
Proof.
  revert p. induction data as [|c data IH]; intros p Hm; [done|]. unfold read_block. cbn [length]. rewrite Nat2Z.inj_succ, seqZ_cons by lia. cbn [fmap list_fmap].
  pose proof (Hm 0%nat ltac:(cbn; lia)) as H0. rewrite Z.add_0_r in H0. f_equal; [exact H0|]. rewrite Z.pred_succ, <- Z.add_1_r. apply IH.
  intros i Hi. rewrite <- Z.add_assoc. replace (1 + Z.of_nat i) with (Z.of_nat (Datatypes.S i)) by lia. apply (Hm (Datatypes.S i)). cbn; lia.
Qed.

Lemma net_step_size V s : (size (net_step V s).2 <= size V + 1)%nat.
Proof.
  assert (Hd : forall k, (size (delete k V) <= size V)%nat). { intros k. rewrite (map_size_delete k V). case_match; cbn; lia. }
  unfold net_step. destruct s as [|c s]; [cbn; lia|]. repeat case_match; cbn [snd]; try lia; [|specialize (Hd l); lia]. rewrite (map_size_insert l l0 V). case_match; cbn; lia.
Qed.

Lemma keeps_read {S : Type} `{AllocatorSizes S} R (al : S) m al' m' q a n : keeps R al m al' m' -> q ∈ R -> q ∈ al_live al -> q <= a -> a + n <= q + al_size al q ->
  read_block m' a n = read_block m a n.
Proof.
  intros Hk Hq Hl Ha Hn. destruct (Hk q Hq Hl) as (_ & _ & Hm). apply list_fmap_ext. intros i x Hx%list_elem_of_lookup_2%elem_of_seqZ. apply Hm. lia.
Qed.

Section Loop.
Context `{Build} {S L : Type} `{AllocatorLaws S, !AllocatorSizes S} `{MessagesLaws L crc} (al_realloc : S -> Z -> Z -> outcome (Z * S)) (fuel lim : nat).
Context (buffer : Z) (Hlim : (1020 < lim)%nat /\ (lim + 3 <= fuel)%nat /\ Z.of_nat lim + 4 < 2^31).
Abbreviation server := (server S L).
Implicit Types (v : server) (V : gmap (list Z) (list Z)) (R : gset Z).

Lemma Hlim' : (lim <= fuel)%nat /\ Z.of_nat lim + 4 < 2^31.
Proof using Hlim. lia. Qed.

(** The store may be in any memory that agrees outside a block of the client. *)
Lemma net_write al E u m m' V R b : net_ok fuel lim al E u m V R -> apart al -> b ∈ R ->
  (forall x, ~ (b <= x < b + al_size al b) -> mget m' x = mget m x) -> net_ok fuel lim al E u m' V R.
Proof.
  intros (P & Hst & Hdom & HV) Hap Hb Hfr. pose proof (st_table _ _ _ _ _ _ _ _ Hst) as Hrep.
  pose proof (represents_rest _ _ _ _ _ b Hrep ltac:(set_solver)) as [Hbl _].
  assert (Hkeep : forall k s, k ∈ al_live al -> k <> b -> cstr m k s -> sized al k s -> cstr m' k s).
  { intros k s Hk Hne Hc Hz. eapply cstr_ext; [|exact Hc]. intros x Hx. apply Hfr. unfold sized in Hz. pose proof (Hap k b Hk Hbl Hne). lia. }
  exists P. split_and!; [|done|].
  - eapply (store_transport fuel al al E u m m' (sized al) (sized al)); [exact Hrep| |apply (st_self _ _ _ _ _ _ _ _ Hst)|exact Hst].
    intros k s Hc Hz Hk HkR _. split; [|done]. apply Hkeep; [done|set_solver|done|done].
  - intros s p Hp. destruct (HV s p Hp) as (w & ? & Hc & ? & Hz). exists w. split_and!; try done.
    destruct (represents_value _ _ _ _ _ _ _ Hrep Hp) as (Hpl & HpR & _). apply Hkeep; [done|set_solver|done|done].
Qed.

Lemma net_values al E u m V R s w : net_ok fuel lim al E u m V R -> V !! s = Some w -> (length w < lim)%nat.
Proof.
  intros (P & _ & Hdom & HV) Hw. assert (Hs : s ∈ dom P) by (rewrite Hdom; by apply elem_of_dom_2 in Hw). apply elem_of_dom in Hs as [p Hp].
  destruct (HV s p Hp) as (w' & Hw' & _ & ? & _). rewrite Hw in Hw'. by injection Hw' as <-.
Qed.

(** The answers fit. *)
Lemma reply_length al E u m V R s t : net_ok fuel lim al E u m V R -> (net_step V s).1 = Some t -> (0 < length t < lim + 3)%nat.
Proof using Hlim.
  intros Hok Ht. assert (Hr : forall x, (forall w, x = Some w -> (length w < lim)%nat) -> (0 < length (reply_text x) < lim + 3)%nat).
  { intros [w|] Hx; unfold reply_text; cbn; [|lia]. rewrite length_app. cbn. specialize (Hx w eq_refl). lia. }
  assert (He : (0 < length error_text < lim + 3)%nat) by (cbn; lia). unfold net_step in Ht.
  destruct s as [|cmd s]; [by injection Ht as <-|]. destruct (cmd =? 43).
  { destruct (field 44 s) as [k|]; [|by injection Ht as <-]. destruct (field 13 _); [|by injection Ht as <-].
    destruct (V !! k) as [w|] eqn:Ek; injection Ht as <-; apply Hr; intros w' [= <-]; by eapply net_values. }
  destruct (cmd =? 45); [destruct (field 13 s); injection Ht as <-; [by apply Hr|done]|]. destruct (cmd =? 63).
  { destruct (field 13 s) as [k|]; [|by injection Ht as <-]. injection Ht as <-. apply Hr. intros w Hw. by eapply net_values. }
  by destruct (cmd =? 37); [|injection Ht as <-].
Qed.

(** What holds between two rounds, when the store holds [V], [n] messages were sent
    and [R] are the other blocks, among them the buffer. *)
Record ready v V (n : nat) R : Prop := {
  rd_store : net_ok fuel lim (v_al v) (v_E v) (v_ukv v) (v_mem v) V R;
  rd_buffer : buffer ∈ R /\ 0 < buffer /\ BUFSIZE + 1 <= al_size (v_al v) buffer;
  rd_apart : apart (v_al v);
  rd_lib : msg_ok (v_lib v) n [] None;
}.

(** A message has been received. *)
Record loaded v V n R (data : list Z) : Prop := {
  ld_ready : ready v V n R;
  ld_msg : v_msg v = buffer + 4;
  ld_crc : v_crc v = Crc.le (take 4 data);
  ld_len : u64 (v_msg_len v) = Z.of_nat (length data - 4);
  ld_size : (length (drop 4 data) <= 1020)%nat;
  ld_bytes : read_block (v_mem v) (buffer + 4) (Z.of_nat (length data - 4)) = drop 4 data;
  ld_text : cstr (v_mem v) (buffer + 4) (c_text (drop 4 data));
}.

(** What [recvfrom] may return: an error or the end, or a message that has a checksum. *)
Definition good_result (r : result) : Prop :=
  read r <= 0 \/ (4 <= read r <= BUFSIZE /\ Z.of_nat (length (received r)) = read r /\ Crc.bytes (received r)).

Lemma case_RECV_spec r v V n R : ready v V n R -> good_result r -> 0 < read r ->
  exists v', case_RECV buffer r v = Some (Ret ([], inl v')) /\ loaded v' V n R (received r) /\
    v_state v' = PROC /\ v_fd v' = v_fd v /\ v_cfd v' = v_cfd v.
Proof using All.
  intros [Hst (HbR & Hb0 & Hbs) Hap Hl] [?|(Hrd & Hlen & Hby)] Hpos; [lia|]. unfold case_RECV. rewrite (proj2 (Z.leb_gt _ _)) by lia. cbv zeta.
  set (data := received r) in *. set (m := store 1 _ _ 0). unfold BUFSIZE in *.
  assert (Hm : forall i, (i <= length data)%nat -> mget m (buffer + Z.of_nat i) = nth i data 0).
  { intros i Hi. unfold m. rewrite mget_store_byte. destruct (decide (i = length data)) as [->|].
    - rewrite decide_True by lia. by rewrite nth_overflow by lia.
    - rewrite decide_False, mget_put_bytes, decide_True by (done || lia). f_equal. lia. }
  assert (Hm4 : forall i, (i <= length (drop 4 data))%nat -> mget m (buffer + 4 + Z.of_nat i) = nth i (drop 4 data) 0).
  { intros i Hi. rewrite length_drop in Hi. change (drop 4 data) with (skipn 4 data). rewrite nth_skipn, <- Hm by lia. f_equal. lia. }
  eexists. split; [done|]. split; [split; [split| | | | | |]|]; cbn [v_al v_E v_ukv v_mem v_lib v_msg v_crc v_msg_len v_state v_fd v_cfd]; try done.
  - eapply net_write; [exact Hst|exact Hap|exact HbR|]. intros x Hx. unfold m. rewrite mget_store_byte, decide_False, mget_put_bytes, decide_False by (done || lia). done.
  - apply load_le; [|lia]. intros i Hi. apply Hm. lia.
  - unfold s64, u64. rewrite (Z.mod_small (_ - 4)) by lia. rewrite (Z.mod_small (_ + 2^63)) by lia. rewrite Z.mod_small; lia.
  - rewrite length_drop. lia.
  - replace (length data - 4)%nat with (length (drop 4 data)) by (by rewrite length_drop). apply read_block_eq. intros i Hi. apply Hm4. lia.
  - apply cstr_text; [|done]. by apply Forall_drop.
Qed.

(** The reply [t] waits to be sent. *)
Record answered v V (n : nat) R (t : list Z) : Prop := {
  an_reply : v_r v <> 0 /\ (v_r v ∉ R) /\ cstr (v_mem v) (v_r v) t /\ (0 < length t < lim + 3)%nat;
  an_store : net_ok fuel lim (v_al v) (v_E v) (v_ukv v) (v_mem v) V ({[v_r v]} ∪ R);
  an_buffer : buffer ∈ R /\ 0 < buffer /\ BUFSIZE + 1 <= al_size (v_al v) buffer;
  an_apart : apart (v_al v);
  an_lib : msg_ok (v_lib v) n [crc t] None;
}.

(** [read_block] in a block that is kept. *)
Lemma case_PROC_spec v V n R data : loaded v V n R data -> (size V < fuel)%nat -> Z.of_nat (size V) + 1 < 2^32 -> Z.of_nat n + 1 < INT_MAX ->
  exists v', case_PROC al_realloc fuel v = Some (Ret ([], inl v')) /\ v_fd v' = v_fd v /\ v_cfd v' = v_cfd v /\
    if crc (drop 4 data) =? Crc.le (take 4 data) then
      match net_step V (c_text (drop 4 data)) with
      | (Some t, V') => v_state v' = SEND /\ answered v' V' (n + 1) R t
      | (None, V') => v_state v' = FINI /\ ready v' V' n R
      end
    else v_state v' = CORR /\ ready v' V n R.
Proof using All.
  intros [[Hst (HbR & Hb0 & Hbs) Hap Hl] Hmsg Hcrc Hlen Hsize Hbytes Htext] Hsz Hmax Hn. unfold case_PROC. rewrite Hlen, Hmsg, Hcrc. unfold BUFSIZE in *.
  destruct (begin_check_ok (v_lib v) n (v_mem v) (buffer + 4) (Z.of_nat (length data - 4)) (Crc.le (take 4 data)) Hl ltac:(lia)) as (l & -> & Hl'). cbn [lift fbind].
  rewrite Hbytes in *. destruct (crc (drop 4 data) =? _); [|by eexists; split_and!].
  pose proof (length_c_text (drop 4 data)) as Htl. set (text := c_text (drop 4 data)) in *. rewrite length_drop in Hsize, Htl.
  assert (Hbl : buffer ∈ al_live (v_al v)) by (eapply (net_rest al_realloc fuel lim Hlim'); [exact Hst|exact HbR]).
  destruct (ukv_recv_spec al_realloc fuel lim Hlim' _ _ _ _ V R buffer (buffer + 4) text Hst HbR) as (r & m' & u' & E' & al' & Er & Hr);
    [split_and!; [done|lia|lia]|done|lia|done|done|]. rewrite Er. cbn [fbind].
  pose proof (apart_steps _ _ (ukv_recv_steps _ _ _ _ _ _ _ _ _ _ _ _ Er) Hap) as Hap'.
  assert (Hkk : keeps R (v_al v) (v_mem v) al' m') by (destruct (net_step V text) as [[t|] V']; apply Hr).
  pose proof (Hkk buffer HbR Hbl) as (_ & Hbs' & _). rewrite <- Hbytes, <- (keeps_read _ _ _ _ _ _ _ _ Hkk HbR Hbl) in Hl' by lia.
  destruct (net_step V text) as [[t|] V'] eqn:Es; cbn [fst snd] in Hr.
  - destruct Hr as (Hr0 & HrR & Hc & Hok & _). rewrite (proj2 (Z.eqb_neq r 0)) by done. assert (Hrl : (0 < length t < lim + 3)%nat) by (eapply (reply_length _ _ _ _ V R text); [exact Hst|by rewrite Es]). destruct (cstr_bytes _ _ _ Hc) as [Hby Erd].
    rewrite (strlen_correct _ _ t) by (done || lia). cbn [mbind option_bind]. rewrite Erd.
    destruct (block_output_ok l n m' _ _ r t Hl' Hn Hby) as (l2 & -> & Hl2); [by destruct t; cbn in Hrl; [lia|]|lia|]. cbn [lift fbind].
    eexists. split_and!; try done. split; cbn [v_al v_E v_ukv v_mem v_lib v_r goto set_store]; split_and?; unfold BUFSIZE; (done || lia).
  - destruct Hr as (-> & Hok & _). cbn [Z.eqb]. destruct (block_end_ok l n m' _ _ Hl') as (l2 & -> & Hl2). cbn [lift fbind].
    eexists. split_and!; try done. split; cbn [v_al v_E v_ukv v_mem v_lib v_r goto set_store]; split_and?; unfold BUFSIZE; (done || lia).
Qed.

(** A block without input and output. *)
Lemma block_nm l n m : msg_ok l n [] None -> exists l1 l2, begin_nm l = Ret l1 /\ block_end l1 m None = Ret l2 /\ msg_ok l2 n [] None.
Proof.
  intros Hl. destruct (begin_nm_ok l n Hl) as (l1 & E1 & Hl1). destruct (block_end_ok l1 n m 0 0 Hl1) as (l2 & E2 & Hl2). by exists l1, l2.
Qed.

Lemma case_SEND_spec v V n R t : answered v V n R t ->
  exists v', case_SEND fuel v = Some (Ret ([Sendto (v_cfd v) (frame_of crc t)], inl v')) /\ v_state v' = RECV /\ v_fd v' = v_fd v /\ v_cfd v' = v_cfd v /\
    ready v' V n R.
Proof using All.
  intros [(Hr & HrR & Hc & Hlen) Hst (HbR & Hb0 & Hbs) Hap Hl]. unfold case_SEND, response, ukv_done. destruct (cstr_bytes _ _ _ Hc) as [_ Erd].
  destruct (crc_pop_ok (v_lib v) n (crc t) [] Hl) as (l & -> & Hl1). cbn [lift fbind].
  rewrite (strlen_correct _ _ t) by (done || lia). cbn [mbind option_bind]. rewrite Erd.
  destruct (block_nm l n (v_mem v) Hl1) as (l1 & l2 & -> & E2 & Hl2). cbn [lift fbind].
  destruct (net_free_key al_realloc fuel lim Hlim' _ _ _ _ _ _ _ Hst HrR) as (al' & Ef & Hok & _ & Hk). rewrite Ef. cbn [lift fbind]. rewrite E2. cbn [lift fbind].
  eexists. split_and!; try done. split; cbn [v_al v_E v_ukv v_mem v_lib v_r goto set_store set_len]; try done.
  - split_and!; [done|done|]. destruct (Hk buffer HbR) as (_ & -> & _); [|done]. by eapply (net_rest al_realloc fuel lim Hlim' _ _ _ _ _ _ Hst); set_solver.
  - by eapply apart_free.
Qed.

Lemma case_CORR_spec v V n R : ready v V n R -> Z.of_nat n + 1 < INT_MAX ->
  exists v', case_CORR fuel v = Some (Ret ([Sendto (v_cfd v) (frame_of crc error_text)], inl v')) /\ v_state v' = RECV /\ v_fd v' = v_fd v /\ v_cfd v' = v_cfd v /\
    ready v' V (n + 1) R.
Proof using All.
  intros [Hst (HbR & Hb0 & Hbs) Hap Hl] Hn. unfold case_CORR, response. destruct (begin_nm_ok _ n Hl) as (l & -> & Hl1). cbn [lift fbind].
  destruct (strdup_lit_spec (v_mem v) (v_al v) error_text) as (p & m' & al' & Es & Hf); [by repeat constructor|]. rewrite Es. cbn [lift fbind].
  pose proof (apart_steps _ _ (strdup_lit_steps _ _ _ _ _ _ Es) Hap) as Hap'.
  destruct (net_fresh al_realloc fuel lim Hlim' _ _ _ _ _ _ _ _ _ _ Hst Hf) as (Hok & HpR & Hk & _). destruct Hf as (Hp & _ & _ & Hc & _).
  rewrite (proj2 (Z.eqb_neq p 0)), (strlen_correct _ _ error_text) by (done || (cbn [length error_text]; lia)). cbn [mbind option_bind].
  destruct (cstr_bytes _ _ _ Hc) as [Hby Erd]. rewrite Erd.
  destruct (block_output_ok l n m' 0 0 p error_text Hl1 Hn Hby) as (l2 & -> & Hl2); [done|cbn; lia|]. cbn [lift fbind].
  destruct (crc_pop_ok l2 _ _ [] Hl2) as (l3 & -> & Hl3). cbn [lift fbind].
  destruct (net_free_key al_realloc fuel lim Hlim' _ _ _ _ _ _ _ Hok HpR) as (al2 & Ef & Hok2 & _ & Hk2). rewrite Ef. cbn [lift fbind].
  eexists. split_and!; try done. split; cbn [v_al v_E v_ukv v_mem v_lib v_r goto set_store set_len]; try done.
  - split_and!; [done|done|]. destruct (Hk buffer HbR) as (Hbl & E1 & _); [by eapply (net_rest al_realloc fuel lim Hlim' _ _ _ _ _ _ Hst)|].
    destruct (Hk2 buffer HbR Hbl) as (_ & E2 & _). by rewrite E2, E1.
  - by eapply apart_free.
Qed.

Lemma case_FINI_spec v V n R : ready v V n R -> (size V < fuel)%nat ->
  exists al', case_FINI fuel v = Some (Ret ([Close (v_fd v)], inr (0, al'))) /\ al_live al' = R.
Proof using All.
  intros [(P & Hst & Hdom & _) _ _ Hl] Hsz. unfold case_FINI, ukv_fini. destruct (block_nm _ n (v_mem v) Hl) as (l1 & l2 & -> & E2 & _). cbn [lift fbind].
  rewrite <- size_dom, <- Hdom, size_dom in Hsz. destruct Hst as [Hrep [Hself _] _].
  destruct (hashtable_destroy_spec al_realloc fuel true _ _ _ P _ Hrep Hsz) as (al3 & -> & Hlive). cbn [fbind].
  destruct (free_live al3 (u_self (v_ukv v))) as (al4 & -> & Hl4); [set_solver|]. cbn [lift fbind]. rewrite E2. cbn [lift fbind].
  exists al4. split; [done|]. rewrite Hl4, Hlive. set_solver.
Qed.

Abbreviation serve := (serve al_realloc fuel buffer).
Abbreviation round := (round al_realloc fuel buffer).

(** The loop has produced [outs], and waits with the map [w] or has terminated. *)
Definition ends (c : option (outcome (list output * (server + Z * S)))) (outs : list output) (w : option (gmap (list Z) (list Z))) R : Prop :=
  match w with
  | Some V => exists v n, c = Some (Ret (outs, inl v)) /\ ready v V n R
  | None => exists al, c = Some (Ret (outs, inr (0, al))) /\ al_live al = R
  end.

Lemma serve_round steps rs r v v' o outs w : round (if waits (v_state v) then r else mk_result 0 0 [] (0, 0, 0)) v = Some (Ret (o, inl v')) ->
  serve steps rs v' = Some (Ret (outs, w)) -> serve (Datatypes.S steps) (if waits (v_state v) then r :: rs else rs) v = Some (Ret (o ++ outs, w)).
Proof. intros Er He. cbn [UkvServer.serve]. destruct (waits (v_state v)); rewrite Er; cbn [fbind]; by rewrite He. Qed.

(** ... and the loop goes on. *)
Lemma ends_after c c' o outs w R : (forall outs w, c = Some (Ret (outs, w)) -> c' = Some (Ret (o ++ outs, w))) -> ends c outs w R -> ends c' (o ++ outs) w R.
Proof.
  intros Hc. unfold ends. destruct w as [V|]; [intros (v & n & -> & ?); exists v, n|intros (al & -> & ?); exists al]; by rewrite (Hc _ _ eq_refl).
Qed.

Lemma serve_exit steps rs v o al R : waits (v_state v) = false -> round (mk_result 0 0 [] (0, 0, 0)) v = Some (Ret (o, inr (0, al))) -> al_live al = R ->
  ends (serve (Datatypes.S steps) rs v) o None R.
Proof. intros Hw Er Hl. cbn [UkvServer.serve]. rewrite Hw, Er. cbn. eauto. Qed.

(** One message: received, executed and answered. *)
Lemma serve_message r rs v V n R steps : ready v V n R -> good_result r -> 0 < read r -> v_state v = RECV ->
  (size V < fuel)%nat -> Z.of_nat (size V) + 1 < 2^32 -> Z.of_nat n + 1 < INT_MAX ->
  match message_step crc V (received r) with
  | (Some t, V') => exists v' n', (n <= n' <= n + 1)%nat /\ ready v' V' n' R /\ v_state v' = RECV /\ v_fd v' = v_fd v /\ v_cfd v' = v_cfd v /\
      forall outs w, serve steps rs v' = Some (Ret (outs, w)) -> serve (3 + steps) (r :: rs) v = Some (Ret (Sendto (v_cfd v) (frame_of crc t) :: outs, w))
  | (None, _) => ends (serve (3 + steps) (r :: rs) v) [Close (v_fd v)] None R
  end.
Proof using All.
  intros Hrd Hg Hpos Hs Hsz Hmax Hn. destruct (case_RECV_spec r v V n R Hrd Hg Hpos) as (v1 & E1 & Hld & Hs1 & Hf1 & Hc1).
  destruct (case_PROC_spec v1 V n R _ Hld Hsz Hmax Hn) as (v2 & E2 & Hf2 & Hc2 & Hv2).
  assert (Hgo : forall outs w, serve (Datatypes.S steps) rs v2 = Some (Ret (outs, w)) -> serve (3 + steps) (r :: rs) v = Some (Ret (outs, w))).
  { intros outs w He. pose proof (serve_round (2 + steps) rs r v v1 [] outs w) as Hr1. rewrite Hs in Hr1. apply Hr1; [unfold UkvServer.round; rewrite Hs; exact E1|].
    pose proof (serve_round (1 + steps) rs r v1 v2 [] outs w) as Hr2. rewrite Hs1 in Hr2. apply Hr2; [unfold UkvServer.round; rewrite Hs1; exact E2|exact He]. }
  assert (Hout : forall v3 o outs w, waits (v_state v2) = false -> round (mk_result 0 0 [] (0, 0, 0)) v2 = Some (Ret ([o], inl v3)) -> serve steps rs v3 = Some (Ret (outs, w)) ->
    serve (3 + steps) (r :: rs) v = Some (Ret (o :: outs, w))).
  { intros v3 o outs w Hw Er He. apply Hgo. pose proof (serve_round steps rs r v2 v3 [o] outs w) as Hr3. rewrite Hw in Hr3. by apply Hr3. }
  unfold message_step. destruct (crc _ =? _).
  - destruct (net_step V _) as [[t|] V'] eqn:Es; destruct Hv2 as [Hs2 Hv2].
    + destruct (case_SEND_spec v2 V' (n + 1) R t Hv2) as (v3 & E3 & Hs3 & Hf3 & Hc3 & Hrd3). exists v3, (n + 1)%nat. split_and!; try lia; try congruence.
      intros outs w He. rewrite Hc2, Hc1 in E3. eapply Hout; [by rewrite Hs2|unfold UkvServer.round; rewrite Hs2; exact E3|exact He].
    + assert (V' = V) as ->. { unfold net_step in Es. repeat case_match; congruence. }
      destruct (case_FINI_spec v2 V n R Hv2 Hsz) as (al & E3 & Hl). apply (ends_after _ _ [] _ _ _ Hgo). eapply serve_exit; [by rewrite Hs2|unfold UkvServer.round; rewrite Hs2, E3, Hf2, Hf1; done|done].
  - destruct Hv2 as [Hs2 Hv2]. destruct (case_CORR_spec v2 V n R Hv2 Hn) as (v3 & E3 & Hs3 & Hf3 & Hc3 & Hrd3). exists v3, (n + 1)%nat. split_and!; try lia; try congruence.
    intros outs w He. rewrite Hc2, Hc1 in E3. eapply Hout; [by rewrite Hs2|unfold UkvServer.round; rewrite Hs2; exact E3|exact He].
Qed.

(** The connection the server is serving. *)
Definition connection v (conn : option Z) : Prop :=
  match conn with None => v_state v = ACCT | Some cfd => v_state v = RECV /\ v_cfd v = cfd end.

Lemma serve_loop rs : forall v V n R conn steps, ready v V n R -> connection v conn -> Forall good_result rs -> (3 * length rs < steps)%nat ->
  (size V + length rs < fuel)%nat -> Z.of_nat (size V + length rs) + 1 < 2^32 -> Z.of_nat (n + length rs) + 1 < INT_MAX ->
  let '(outs, w) := spec_serve crc (v_fd v) rs conn V in ends (serve steps rs v) outs w R.
Proof using All.
  induction rs as [|r rs IH]; intros v V n R conn steps Hrd Hconn Hg Hsteps Hsz Hmax Hn; (destruct steps as [|steps]; [lia|]); cbn [length] in *.
  { assert (Hw : waits (v_state v) = true) by (destruct conn; [destruct Hconn as [-> _]|cbn in Hconn; rewrite Hconn]; done). cbn. rewrite Hw. eauto. }
  apply Forall_cons in Hg as [Hg Hgs]. cbn [spec_serve]. destruct conn as [cfd|].
  - destruct Hconn as [Hs Hcfd]. destruct (Z.leb_spec (read r) 0) as [Hle|Hpos].
    + set (v1 := goto v ACCT). assert (Hrd1 : ready v1 V n R) by (by destruct Hrd).
      pose proof (IH v1 V n R None steps Hrd1 eq_refl Hgs ltac:(lia) ltac:(lia) ltac:(lia) ltac:(lia)) as He. cbn [v1 goto v_fd] in He.
      destruct (spec_serve _ _ rs None V) as [outs w]. eapply (ends_after _ _ [Close cfd]); [|exact He]. intros outs' w' Ew. pose proof (serve_round steps rs r v v1 [Close cfd] outs' w') as Hr. rewrite Hs in Hr. apply Hr; [|exact Ew].
      unfold UkvServer.round, case_RECV. rewrite Hs, (proj2 (Z.leb_le _ _)), Hcfd by done. done.
    + destruct steps as [|[|steps]]; [lia|lia|]. pose proof (serve_message r rs v V n R steps Hrd Hg Hpos Hs ltac:(lia) ltac:(lia) ltac:(lia)) as Hm.
      assert (Hsz' : (size (message_step crc V (received r)).2 <= size V + 1)%nat) by (unfold message_step; destruct (crc _ =? _); [apply net_step_size|cbn; lia]).
      destruct (message_step crc V (received r)) as [[t|] V'] eqn:Es; [|exact Hm]. cbn [snd] in Hsz'. destruct Hm as (v' & n' & Hn' & Hrd' & Hs' & Hf' & Hc' & Hstep).
      rewrite <- Hcfd in *. pose proof (IH v' V' n' R (Some (v_cfd v)) steps Hrd' (conj Hs' Hc') Hgs ltac:(lia) ltac:(lia) ltac:(lia) ltac:(lia)) as He.
      rewrite Hf' in He. destruct (spec_serve _ _ rs _ V') as [outs w]. by apply (ends_after _ _ [_] _ _ _ Hstep).
  - set (v1 := mk_server RECV (v_fd v) (sock r) (v_msg v) (v_msg_len v) (v_crc v) (v_r v) (v_ukv v) (v_mem v) (v_al v) (v_E v) (v_lib v)).
    assert (Hnext : forall v' conn', ready v' V n R -> connection v' conn' -> v_fd v' = v_fd v -> case_ACCT r v = Some (Ret ([], inl v')) ->
      let '(outs, w) := spec_serve crc (v_fd v) rs conn' V in ends (serve (Datatypes.S steps) (r :: rs) v) outs w R).
    { intros v' conn' Hrd' Hc' Hf' Ea. pose proof (IH v' V n R conn' steps Hrd' Hc' Hgs ltac:(lia) ltac:(lia) ltac:(lia) ltac:(lia)) as He. rewrite Hf' in He.
      destruct (spec_serve _ _ rs _ V) as [outs w]. eapply (ends_after _ _ []); [|exact He]. intros outs' w' Ew. pose proof (serve_round steps rs r v v' [] outs' w') as Hr. rewrite Hconn in Hr. apply Hr; [|exact Ew].
      unfold UkvServer.round. by rewrite Hconn. }
    destruct (sock r <? 0) eqn:Eneg; [apply (Hnext v)|apply (Hnext v1)]; try done; try (by destruct Hrd); unfold case_ACCT; by rewrite Eneg.
Qed.

(** The server is up when the set-up has succeeded. *)
Lemma init_ready v r0 : v_state v = INIT -> v_E v = ∅ -> apart (v_al v) -> buffer ∈ al_live (v_al v) -> 0 < buffer -> BUFSIZE + 1 <= al_size (v_al v) buffer ->
  msg_ok (v_lib v) 0 [] None -> 0 <= sock r0 -> (let '(a, b, c) := setup r0 in 0 <= a /\ 0 <= b /\ 0 <= c) ->
  exists v', round r0 v = Some (Ret ([], inl v')) /\ ready v' ∅ 0 (al_live (v_al v)) /\ v_state v' = ACCT /\ v_fd v' = sock r0.
Proof using All.
  intros Hs HE Hap Hbl Hb0 Hbs Hl Hsock Hsetup. destruct (block_nm _ 0 (v_mem v) Hl) as (l1 & l2 & E1 & E2 & Hl2).
  destruct (ukv_init_spec al_realloc fuel (v_mem v) (fun _ _ => False) (v_al v)) as (u & al & Ei & Hst).
  exists (mk_server ACCT (sock r0) (v_cfd v) (v_msg v) (v_msg_len v) (v_crc v) (v_r v) u (v_mem v) al ∅ l2). split_and!; try done.
  - unfold UkvServer.round, case_INIT. rewrite Hs. destruct (setup r0) as [[a b] c]. destruct Hsetup as (? & ? & ?). rewrite !(proj2 (Z.ltb_ge _ _)) by done.
    rewrite E1. cbn [lift fbind]. rewrite Ei. cbn [lift fbind]. rewrite E2. cbn [lift fbind]. by rewrite HE.
  - apply ukv_init_steps in Ei as [Hsteps Hsz]. split; cbn; [|split_and!; [done|done|by rewrite Hsz]|by eapply apart_steps|done].
    exists ∅. split_and!; [|done|]. { by eapply store_good; [exact Hst|]. } intros s p Hp. by rewrite lookup_empty in Hp.
Qed.

(** C28.  The server refines a map of strings with checksums.  Started in a memory where
    the buffer is a block of its own, when its socket could be set up, and whatever
    connections and messages follow (each what one [recvfrom] returns, up to 1024 bytes,
    at least the four of the checksum; shorter ones are the subject of
    [short_read_huge_length]), the server sends exactly what [spec_serve] says: to every message whose
    first four bytes are the checksum of the rest the reply of the text protocol on the
    map of strings, to every other message the error reply, without touching the map,
    each with its own checksum in front; it closes a connection when the client does.
    After a "%" it closes its socket and exits with status 0, and the blocks that were
    in use before it started are the only ones still in use.  No step ever stops: no
    assertion fails, no block is freed twice. *)
Theorem server_correct v r0 rs :
  v_state v = INIT -> v_E v = ∅ -> apart (v_al v) -> buffer ∈ al_live (v_al v) -> 0 < buffer -> BUFSIZE + 1 <= al_size (v_al v) buffer ->
  msg_ok (v_lib v) 0 [] None -> 0 <= sock r0 -> (let '(a, b, c) := setup r0 in 0 <= a /\ 0 <= b /\ 0 <= c) ->
  Forall good_result rs -> (length rs < fuel)%nat -> Z.of_nat (length rs) + 1 < INT_MAX ->
  let '(outs, w) := spec_serve crc (sock r0) rs None ∅ in
  ends (serve (3 * length rs + 2) (r0 :: rs) v) outs w (al_live (v_al v)).
Proof using All.
  intros Hs HE Hap Hbl Hb0 Hbs Hl Hsock Hsetup Hg Hf Hmax.
  destruct (init_ready v r0 Hs HE Hap Hbl Hb0 Hbs Hl Hsock Hsetup) as (v1 & Hround & Hrd & Hs1 & Hfd).
  pose proof (serve_loop rs v1 ∅ 0 _ None (3 * length rs + 1) Hrd Hs1 Hg ltac:(lia)) as He. rewrite map_size_empty in He.
  unfold INT_MAX in *. specialize (He ltac:(lia) ltac:(lia) ltac:(lia)). rewrite Hfd in He. destruct (spec_serve _ _ rs None ∅) as [outs w].
  eapply (ends_after _ _ []); [|exact He]. intros outs' w' Ew. pose proof (serve_round (3 * length rs + 1) rs r0 v v1 [] outs' w') as Hr. rewrite Hs in Hr.
  replace (3 * length rs + 2)%nat with (Datatypes.S (3 * length rs + 1)) by lia. by apply Hr.
Qed.

(** A call of the set-up that fails ends the process with EXIT_FAILURE. *)
Lemma setup_fails steps v r0 rs : v_state v = INIT -> (sock r0 < 0 \/ let '(a, b, c) := setup r0 in a < 0 \/ b < 0 \/ c < 0) ->
  serve (Datatypes.S steps) (r0 :: rs) v = Some (Ret ([], inr (EXIT_FAILURE, v_al v))).
Proof.
  intros Hs Hneg. assert (Hr : round r0 v = Some (Ret ([], inr (EXIT_FAILURE, v_al v)))).
  { unfold UkvServer.round, case_INIT. rewrite Hs. destruct (setup r0) as [[a b] c].
    destruct (Z.ltb_spec (sock r0) 0); [done|]. destruct (Z.ltb_spec a 0); [done|]. destruct (Z.ltb_spec b 0); [done|]. destruct (Z.ltb_spec c 0); [done|lia]. }
  cbn [UkvServer.serve]. rewrite Hs. cbn [waits]. by rewrite Hr.
Qed.

(** A message shorter than its checksum: [read - sizeof(crc)] is negative, and the
    library is asked to check about 2^64 bytes. *)
Lemma short_read_huge_length r v : 0 < read r < 4 ->
  exists v', case_RECV buffer r v = Some (Ret ([], inl v')) /\ v_state v' = PROC /\ 2^64 - 3 <= u64 (v_msg_len v').
Proof.
  intros Hr. unfold case_RECV. rewrite (proj2 (Z.leb_gt _ _)) by lia. eexists. split; [done|]. split; [done|]. cbn [v_msg_len]. unfold s64, u64.
  assert (Hc : read r = 1 \/ read r = 2 \/ read r = 3) by lia. destruct Hc as [->|[->| ->]]; vm_compute; discriminate.
Qed.
End Loop.

(** ** The library does this

    The instance of the interface on the input and the output buffer: a block is
    executed by two phases, each of which appends the output; the input is checked
    before the first and after the last. *)

Record lib := mk_lib { lb_ibuf : ibuf; lb_obuf : obuf; lb_proc : proc }.

Section Lib.
Context `{Build} (crc32c : Z -> Z -> list Z -> Z) `{!Crc32c crc32c} (crc_run : Z -> nat -> Z -> list Z -> Z) (red : nat) (os : Z -> Z -> Z * Z).
Context (Hdmr : SEI_DMR_REDUNDANCY = 2%nat) (Hred : (2 <= red <= 10)%nat).

Definition lib_prepare (l : lib) (m : mem) (ptr size crc : Z) : outcome (bool * lib) :=
  match ibuf_prepare crc_run red os None 0 m (lb_ibuf l) ptr size crc READ_ONLY (lb_proc l) with
  | Some o => '(ok, b, s) ← o; Ret (ok, mk_lib b (lb_obuf l) s)
  | None => Stop Aborted
  end.

Definition emit (o : obuf) (out : option (Z * list Z)) : outcome obuf :=
  match out with None => Ret o | Some chunk => obuf_send crc32c o [chunk] end.

Definition lib_end (l : lib) (m : mem) (out : option (Z * list Z)) : outcome lib :=
  o ← emit (lb_obuf l) out;
  let '(b, s) := ibuf_switch crc_run m (lb_ibuf l) (lb_proc l) in
  o ← emit (obuf_close o) out;
  '(ok, s) ← ibuf_correct crc_run m b s;
  if ok : bool then Ret (mk_lib b (obuf_close o) s) else Stop Aborted.

#[local] Instance lib_messages : Messages lib := {
  begin_nm l := '(_, l) ← lib_prepare l ∅ 0 0 crc_init; Ret l;
  begin_check := lib_prepare;
  block_end := lib_end;
  crc_pop l := '(c, o) ← obuf_pop (lb_obuf l); Ret (c, mk_lib (lb_ibuf l) o (lb_proc l));
}.

Definition checksum (data : list Z) : Z := crc_compute crc32c 0 data.

(** The two queues hold the same messages. *)
Definition queued (o : obuf) (n : nat) (q : list Z) : Prop := exists h msgs, obuf_rel o (fun _ => h) (fun _ => msgs) (fun _ => no_msg) /\
  h + Z.of_nat (length msgs) = Z.of_nat n /\ snd <$> msgs = q /\ ob_p o = 0%nat /\ ob_redundancy_level o = 2%nat.

Definition lib_ok (l : lib) (n : nat) (q : list Z) (b : option (Z * Z * list Z)) : Prop :=
  queued (lb_obuf l) n q /\ healthy crc_run crc32c (cpu (pr_machine (lb_proc l))) /\ ib_checked (lb_ibuf l) = 0 /\ Z.of_nat n < INT_MAX /\
  match b with
  | None => True
  | Some (ptr, size, data) => ib_ptr (lb_ibuf l) = ptr /\ ib_size (lb_ibuf l) = size /\ ib_mode (lb_ibuf l) = READ_ONLY /\
      if decide (ptr = 0) then size = 0 /\ ib_crc (lb_ibuf l) = crc_init else ib_crc (lb_ibuf l) = checksum data
  end.

Lemma bytes_read m ptr size : Crc.bytes (read_block m ptr size).
Proof. apply Forall_fmap, Forall_forall. intros x _. apply mget_bound. Qed.

(** The checksum does not depend on the address. *)
Lemma checksum_at addr data : Crc.bytes data -> crc_compute crc32c addr data = checksum data.
Proof using All. intros Hb. unfold checksum. by rewrite !crc_compute_spec. Qed.

Lemma queued_phase o n : queued o n [] -> forall p, (p < 2)%nat -> exists q, ob_queue o !! p = Some q /\ queue_rel q (Z.of_nat n) [] no_msg.
Proof.
  intros (h & msgs & [_ Hq] & Hh & Hm & _ & Hl) p Hp. apply fmap_nil_inv in Hm as ->. rewrite Z.add_0_r in Hh. subst h. apply Hq. by rewrite Hl.
Qed.

(** Both phases append the same message. *)
Lemma emit_twice o n addr data : queued o n [] -> Z.of_nat n < INT_MAX -> Crc.bytes data -> data <> [] -> Z.of_nat (length data) < 2^64 ->
  exists o1 o2, emit o (Some (addr, data)) = Ret o1 /\ emit (obuf_close o1) (Some (addr, data)) = Ret o2 /\ queued (obuf_close o2) (n + 1) [checksum data].
Proof using All.
  intros Ho Hn Hb Hne Hlen. pose proof (queued_phase _ _ Ho) as Hph. destruct Ho as (h & msgs & [Hlev _] & _ & _ & Hp & Hl). rewrite Hl in Hlev.
  assert (Epay : payload [(addr, data)] = data) by (unfold payload; cbn; apply app_nil_r). unfold emit.
  assert (Hr : cur_rel o (Z.of_nat n) [] no_msg) by (unfold cur_rel; rewrite Hp; apply Hph; lia).
  destruct (obuf_send_rel crc32c o _ [] [(addr, data)] 0 Hr) as (o1 & E1 & Hr1 & Hp1 & Hl1 & Hlen1 & Ho1); rewrite ?Epay; try done; [unfold MAX_MSGS; cbn; lia|cbn; lia|].
  rewrite Epay in Hr1. fold (checksum data) in Hr1. rewrite Hp in Hp1, Ho1. rewrite Hl in Hl1. destruct (obuf_close_2 o1 Hl1 ltac:(lia)) as (Hcp & Hcq & Hcl). rewrite Hp1 in Hcp. cbn [Nat.sub] in Hcp.
  assert (Hr2 : cur_rel (obuf_close o1) (Z.of_nat n) [] no_msg) by (unfold cur_rel; rewrite Hcp, Hcq, Ho1 by lia; apply Hph; lia).
  destruct (obuf_send_rel crc32c (obuf_close o1) _ [] [(addr, data)] 0 Hr2) as (o2 & E2 & Hr3 & Hp2 & Hl2 & Hlen2 & Ho2); rewrite ?Epay; try done; [unfold MAX_MSGS; cbn; lia|cbn; lia|].
  rewrite Epay in Hr3. fold (checksum data) in Hr3. rewrite Hcp in Hp2, Ho2. rewrite Hcl in Hl2. rewrite Hcq in Ho2, Hlen2. destruct (obuf_close_2 o2 Hl2 ltac:(lia)) as (Hdp & Hdq & Hdl). rewrite Hp2 in Hdp. cbn [Nat.sub] in Hdp.
  exists o1, o2. split_and!; [done|done|]. exists (Z.of_nat n), [(Z.of_nat (length data), checksum data)]. split; [|split_and!; [cbn; lia|done..]].
  split; rewrite Hdl, Hdq; [lia|]. intros p Hp'. destruct p as [|[|p]]; [| |lia].
  - destruct Hr1 as (q & Hq & Hqr). exists q. rewrite Ho2 by lia. by rewrite Hp1 in Hq.
  - destruct Hr3 as (q & Hq & Hqr). exists q. by rewrite Hp2 in Hq.
Qed.

Lemma queued_closed o n q : queued o n q -> queued (obuf_close (obuf_close o)) n q.
Proof.
  intros (h & msgs & [Hlev Hq] & Hh & Hm & Hp & Hl). destruct (obuf_close_2 o Hl ltac:(lia)) as (Hcp & Hcq & Hcl). rewrite Hp in Hcp.
  destruct (obuf_close_2 (obuf_close o) Hcl ltac:(lia)) as (Hdp & Hdq & Hdl). rewrite Hcp in Hdp. rewrite Hl in Hlev, Hq.
  exists h, msgs. split; [split; rewrite ?Hdl, ?Hdq, ?Hcq; done|done].
Qed.

Lemma queued_pop o n c q : queued o n (c :: q) -> Z.of_nat n <= INT_MAX -> exists o', obuf_pop o = Ret (c, o') /\ queued o' n q.
Proof.
  intros (h & msgs & Hr & Hh & Hm & Hp & Hl) Hn. destruct msgs as [|m msgs]; [done|]. injection Hm as <- <-. cbn [length] in Hh.
  destruct (obuf_pop_rel o (fun _ => h) (fun _ => m :: msgs) (fun _ => no_msg) (fun _ => m) (fun _ => msgs) Hr) as (o' & E & Hr' & Hp'); [by split; [|lia]|done|].
  exists o'. split; [done|]. exists (h + 1), msgs. split; [done|]. split; [lia|]. split; [done|]. split; [congruence|].
  unfold obuf_pop in E. apply bind_Ret in E as (? & _ & E). apply bind_Ret in E as ([? ?] & _ & E). do 3 apply bind_Ret in E as (? & _ & E). by injection E as _ <-.
Qed.

Lemma lib_prepare_nm l n m : lib_ok l n [] None -> exists l', lib_prepare l m 0 0 crc_init = Ret (true, l') /\ lib_ok l' n [] (Some (0, 0, [])).
Proof.
  intros (Hq & Hh & Hck & Hn & _). unfold lib_prepare, ibuf_prepare. rewrite Hck. cbn [Z.eqb]. rewrite c_assert_true. cbn [ib_ptr ib_size ib_crc ib_mode Z.eqb].
  rewrite !Z.eqb_refl, bool_decide_true, !c_assert_true by done. eexists. split; [done|]. by split_and!.
Qed.

Lemma lib_prepare_ok l n m ptr size c : lib_ok l n [] None -> ptr <> 0 -> let data := read_block m ptr size in
  exists l', lib_prepare l m ptr size c = Ret (checksum data =? c, l') /\ lib_ok l' n [] (if checksum data =? c then Some (ptr, size, data) else None).
Proof using All.
  intros (Hq & Hh & Hck & Hn & _) Hp data. unfold lib_prepare, ibuf_prepare. rewrite Hck. cbn [Z.eqb]. rewrite c_assert_true. cbn [ib_ptr].
  rewrite (proj2 (Z.eqb_neq ptr 0)) by done. unfold ibuf_correct_on_entry, run_redundant. cbn [ib_ptr ib_size ib_crc].
  rewrite (healthy_redundant crc_run red crc32c) by done. fold data. rewrite checksum_at by apply bytes_read. cbn. eexists. split; [done|]. destruct (Z.eqb_spec (checksum data) c) as [<-|]; by split_and!; rewrite ?decide_False.
Qed.

(** The second check finds what the first one found. *)
Lemma lib_check_ok l n ptr size m : lib_ok l n [] (Some (ptr, size, read_block m ptr size)) -> exists s',
  ibuf_switch crc_run m (lb_ibuf l) (lb_proc l) = (lb_ibuf l, lb_proc l) /\ ibuf_correct crc_run m (lb_ibuf l) (lb_proc l) = Ret (true, s') /\ pr_machine s' = pr_machine (lb_proc l).
Proof using All.
  intros (_ & Hh & _ & _ & Hp & Hs & Hmo & Hc). unfold ibuf_switch, ibuf_correct. rewrite Hmo, Hp, Hs. destruct (decide (ptr = 0)) as [->|Hne].
  - destruct Hc as [-> ->]. rewrite !Z.eqb_refl, bool_decide_true, !c_assert_true by done. by eexists.
  - rewrite (proj2 (Z.eqb_neq ptr 0)) by done. cbn. rewrite Hh, checksum_at, Hc, Z.eqb_refl by apply bytes_read. by eexists.
Qed.

#[local] Instance lib_laws : MessagesLaws lib checksum.
Proof using All.
  refine {| msg_ok := lib_ok |}.
  - intros data Hb. unfold checksum. rewrite crc_compute_spec by done. apply lxor_u32; [apply crc_spec_u32; [unfold crc_init; lia|done]|lia].
  - intros l n Hl. destruct (lib_prepare_nm l n ∅ Hl) as (l' & E & Hl'). exists l'. cbn. by rewrite E.
  - intros l n m ptr size c. apply lib_prepare_ok.
  - intros l n m ptr size Hl. destruct (lib_check_ok _ _ _ _ _ Hl) as (s' & E1 & E2 & Hm). cbn. unfold lib_end. cbn. rewrite E1, E2. cbn. eexists. split; [done|].
    destruct Hl as (Hq & Hh & Hck & Hn & _). split_and!; cbn; try done; [by apply queued_closed|by rewrite Hm].
  - intros l n m ptr size addr data Hl Hn1 Hb Hne Hlen. destruct (lib_check_ok _ _ _ _ _ Hl) as (s' & E1 & E2 & Hm). destruct Hl as (Hq & Hh & Hck & Hn & _).
    destruct (emit_twice _ _ addr _ Hq Hn Hb Hne Hlen) as (o1 & o2 & F1 & F2 & Hq2). cbn [block_end lib_messages]. unfold lib_end. rewrite F1. cbn [mbind outcome_bind]. rewrite E1, F2.
    cbn [mbind outcome_bind]. rewrite E2. cbn. eexists. split; [done|]. split_and!; cbn; try done; [by rewrite Hm|lia].
  - intros l n c q (Hq & Hh & Hck & Hn & _). destruct (queued_pop _ _ _ _ Hq ltac:(lia)) as (o' & E & Hq'). cbn. rewrite E. cbn. eexists. split; [done|]. by split_and!.
Defined.

Lemma lib_init_ok max_msgs s : healthy crc_run crc32c (cpu (pr_machine s)) -> lib_ok (mk_lib ibuf_init (obuf_init max_msgs) s) 0 [] None.
Proof using All.
  intros Hh. split_and!; try done. exists 0, []. unfold obuf_init. rewrite Hdmr. split; [|done]. split; [cbn; lia|].
  intros p Hp. exists empty_queue. split; [|apply empty_queue_rel]. by apply lookup_replicate_2.
Qed.
End Lib.

(** A client sends "+a,bc\r\n" with its checksum, the same with a wrong one, asks for
    the value, disconnects, and another one asks the server to terminate. *)
Lemma server_correct_witness :
  let B := debug_build 2 in
  let M := lib_messages crc32cSarwate demo_crc 2 demo_os in
  let crc := checksum crc32cSarwate in
  let al := mk_libc {[4096 := 1025]} in
  let v := mk_server INIT 0 0 0 0 0 0 (mk_ukv 0 (mk_ht 0 0 0 [] 0 0 0)) ∅ al ∅ (mk_lib ibuf_init (obuf_init 10) (mk_proc (mk_machine demo_iso 1) 0)) in
  let get data := mk_result 0 (Z.of_nat (length data)) data (0, 0, 0) in
  let set_a := [43; 97; 44; 98; 99; 13; 10] in
  let rs := [mk_result 4 0 [] (0, 0, 0); get (frame_of crc set_a); get ([1; 2; 3; 4] ++ set_a); get (frame_of crc [63; 97; 13; 10]); mk_result 0 0 [] (0, 0, 0);
             mk_result 5 0 [] (0, 0, 0); get (frame_of crc [37; 13; 10])] in
  exists al', serve (fun al _ _ => Ret (0, al)) 1100 4096 23 (mk_result 3 0 [] (0, 0, 0) :: rs) v =
    Some (Ret ([Sendto 4 (frame_of crc ok_text); Sendto 4 (frame_of crc error_text); Sendto 4 (frame_of crc [33; 98; 99; 13; 10]); Close 4; Close 3], inr (0, al'))) /\
    al_live al' = {[4096]}.
Proof.
  intros B M crc al v get set_a rs.
  assert (Hgood : Forall good_result rs).
  { assert (Hb : forallb (fun r => (read r <=? 0) || ((4 <=? read r) && (read r <=? BUFSIZE) && (Z.of_nat (length (received r)) =? read r) && forallb (fun c => (0 <=? c) && (c <? 256)) (received r))) rs = true)
      by (vm_compute; reflexivity).
    apply Forall_forall. intros r Hr. rewrite forallb_forall in Hb. specialize (Hb r ltac:(by apply list_elem_of_In)). apply orb_prop in Hb as [Hb|Hb]; [left; lia|right].
    rewrite !andb_true_iff in Hb. destruct Hb as [[[? ?] ?] Hc]. split; [lia|]. split; [lia|]. rewrite forallb_forall in Hc. apply Forall_forall. intros c Hcc. specialize (Hc c ltac:(by apply list_elem_of_In)). unfold is_true in *. lia. }
  assert (Hlive : al_live al = {[4096]}) by (by vm_compute). assert (Hap : apart al) by (intros p q; rewrite Hlive; set_solver).
  assert (Hbl : 4096 ∈ al_live al) by (rewrite Hlive; set_solver).
  assert (Hsz : BUFSIZE + 1 <= al_size al 4096) by (by vm_compute).
  assert (Hli : lib_ok crc32cSarwate demo_crc (v_lib v) 0 [] None) by (apply (lib_init_ok crc32cSarwate demo_crc 2 demo_os); [done|lia|apply demo_healthy]).
  pose proof (server_correct (H:=B) (H2:=M) (H3:=lib_laws crc32cSarwate demo_crc 2 demo_os eq_refl ltac:(lia)) (fun al _ _ => Ret (0, al)) 1100 1021 4096 ltac:(lia)
    v (mk_result 3 0 [] (0, 0, 0)) rs eq_refl eq_refl Hap Hbl eq_refl Hsz Hli ltac:(cbn; lia) ltac:(cbn; lia) Hgood ltac:(cbn; lia) ltac:(unfold INT_MAX; cbn; lia)) as Hs.
  assert (E : spec_serve crc 3 rs None ∅ = ([Sendto 4 (frame_of crc ok_text); Sendto 4 (frame_of crc error_text); Sendto 4 (frame_of crc [33; 98; 99; 13; 10]); Close 4; Close 3], None))
    by (vm_compute; reflexivity).
  cbn [sock] in Hs. fold crc in Hs. rewrite E in Hs. destruct Hs as (al' & Es & Hl). exists al'. split; [exact Es|]. rewrite Hl. exact Hlive.
Defined.
