(* ===== verification/UkvClient.v ===== *)
(** * The client of the key-value store (examples/ukv/ukv_client.c)

    The client sends the lines its user types to the server, each with a checksum in
    front, and prints the answers whose checksum is right.  What is behind the socket
    is a parameter, a function from a state and a request to the result of [recv];
    the server of file UkvServer behind a connection is one instance.  Host names, the connection and the
    prompts are left out.

    The theorem puts both sides together: the user reads the answers of a map of
    strings, and never the message about a corrupted response. *)

From S2P Require Export UkvServer.

(** ** The code *)

(** What the client prints about a response. *)
Inductive shown := Response (t : list Z) | Dropping.

#[global] Instance shown_eq_dec : EqDecision shown.
Proof. solve_decision. Defined.

Definition exit_text : list Z := [101; 120; 105; 116; 10].  (* "exit\n" *)

Section Client.
Context `{Build} (crc32c : Z -> Z -> list Z -> Z).
(** The addresses of the request and of the buffer. *)
Context (a_req a_buffer : Z).
(** The other side: its state, and the value of [recv] with the bytes it stores. *)
Context {P : Type} (peer : P -> list Z -> Z * list Z * P).

(** [req\[read-1\] = '\r'; req\[read\] = '\n';] *)
Definition client_request (line : list Z) : list Z := <[(length line - 1)%nat := 13]> line ++ [10].

(** The response in the buffer of [BUFSIZE+1] bytes; [crc_compute] must not read
    behind it. *)
Definition check_response (buffer : list Z) (len : Z) (data : list Z) : outcome (shown * list Z) :=
  let buffer := data ++ drop (length data) buffer in
  buffer ← arr_setZ buffer len 0;
  let icrc := Crc.le (take 4 buffer) in
  let msg := drop 4 buffer in
  let n := u64 (len - 4) in
  if Z.of_nat (length msg) <? n then Stop OutOfBounds
  else
    let crc := crc_compute crc32c (a_buffer + 4) (take (Z.to_nat n) msg) in
    Ret (if negb (icrc =? crc) then Dropping else Response (c_text msg), buffer).

(** [main] from the first prompt: what it prints and its exit status. *)
Fixpoint client (lines : list (list Z)) (p : P) (buffer : list Z) : outcome (list shown * Z * P) :=
  match lines with
  | [] => Ret ([], 0, p)
  | line :: lines' =>
      if Z.of_nat (length line) <=? 1 then client lines' p buffer
      else if bool_decide (c_text line = exit_text) then Ret ([], 0, p)
      else
        let req := client_request line in
        let crc := crc_compute crc32c a_req req in
        let '(len, data, p) := peer p (word_bytes crc ++ req) in
        if len <? 0 then Ret ([], EXIT_FAILURE, p)
        else
          '(x, buffer) ← check_response buffer len data;
          '(xs, status, p) ← client lines' p buffer;
          Ret (x :: xs, status, p)
  end.
End Client.

(** ** What the user sees *)

(** The lines [getline] returns that are not a request to terminate the server, short
    enough for the server's buffer. *)
Definition typed (line : list Z) : Prop :=
  exists t, line = t ++ [10] /\ Forall (fun c => 0 < c < 256) t /\ (length t <= 1018)%nat /\ head t <> Some 37.

Fixpoint client_spec (V : gmap (list Z) (list Z)) (lines : list (list Z)) : list shown :=
  match lines with
  | [] => []
  | line :: lines' =>
      if (length line <=? 1)%nat then client_spec V lines'
      else if bool_decide (line = exit_text) then []
      else let '(t, V') := net_step V (client_request line) in Response (default [] t) :: client_spec V' lines'
  end.

(** The last character of a line is overwritten, a newline or not. *)
Lemma client_request_app t c : client_request (t ++ [c]) = t ++ [13; 10].
Proof.
  unfold client_request. rewrite length_app, Nat.add_sub, insert_app_r_alt, Nat.sub_diag by lia. change (<[0%nat := 13]> [c]) with [13]. by rewrite <- app_assoc.
Qed.

(** ** Frames *)

Lemma length_word_bytes w : length (word_bytes w) = 4%nat.
Proof. done. Qed.

Lemma word_bytes_ok w : Crc.bytes (word_bytes w).
Proof.
  unfold word_bytes. apply Forall_fmap, Forall_forall. intros i _. cbn. rewrite (Z.land_ones _ 8) by lia. apply Z.mod_pos_bound. lia.
Qed.

Lemma le_word_bytes w : 0 <= w < 2^32 -> Crc.le (word_bytes w) = w.
Proof.
  intros Hw. unfold word_bytes, Crc.le. cbn [fmap list_fmap foldr]. rewrite !(Z.land_ones _ 8), !Z.shiftr_div_pow2 by lia.
  change (2^(8*0)) with 1. change (2^(8*1)) with 256. change (2^(8*2)) with (256 * 256). change (2^(8*3)) with (256 * 256 * 256). change (2^8) with 256.
  rewrite Z.div_1_r, <- !Z.div_div by lia. pose proof (Z.div_mod w 256 ltac:(lia)). pose proof (Z.div_mod (w / 256) 256 ltac:(lia)).
  pose proof (Z.div_mod (w / 256 / 256) 256 ltac:(lia)). rewrite (Z.mod_small (w / 256 / 256 / 256)); [lia|].
  split; [repeat apply Z.div_pos; lia|]. rewrite !Z.div_div by lia. apply Z.div_lt_upper_bound; lia.
Qed.

Lemma c_text_id t rest : UkvNet.bytes t -> c_text (t ++ 0 :: rest) = t.
Proof. induction 1 as [|c t Hc Ht IH]; cbn; [done|]. rewrite (proj2 (Z.eqb_neq c 0)) by lia. by rewrite IH. Qed.

Lemma c_text_whole t : UkvNet.bytes t -> c_text t = t.
Proof. induction 1 as [|c t Hc Ht IH]; cbn; [done|]. rewrite (proj2 (Z.eqb_neq c 0)) by lia. by rewrite IH. Qed.

Lemma crc_bytes t : UkvNet.bytes t -> Crc.bytes t.
Proof. intros Ht. eapply Forall_impl; [exact Ht|]. cbn. lia. Qed.

(** ** Short values *)

(** Values that came in a message of at most 1020 characters. *)
Definition short (V : gmap (list Z) (list Z)) : Prop := map_Forall (fun _ w => UkvNet.bytes w /\ (length w <= 1016)%nat) V.

Lemma field_bytes c s f : field c s = Some f -> UkvNet.bytes s -> UkvNet.bytes f.
Proof. intros (_ & rest & ->)%field_split Hs. by apply Forall_app in Hs as [? _]. Qed.

Lemma reply_short V k : short V -> UkvNet.bytes (reply_text (V !! k)) /\ (length (reply_text (V !! k)) <= 1019)%nat.
Proof.
  intros HV. unfold reply_text. destruct (V !! k) as [w|] eqn:E; cbn [default]; [destruct (HV k w E) as [Hw Hl]|].
  - split; [|cbn; rewrite length_app; cbn; lia]. constructor; [done|]. apply Forall_app. split; [done|]. by repeat constructor.
  - split; [by repeat constructor|cbn; lia].
Qed.

(** The replies fit into the buffer of the client. *)
Lemma net_step_short V s : short V -> UkvNet.bytes s -> (length s <= 1020)%nat -> short (net_step V s).2 /\
  forall t, (net_step V s).1 = Some t -> UkvNet.bytes t /\ (length t <= 1019)%nat.
Proof.
  intros HV Hs Hl. assert (Herr : UkvNet.bytes error_text /\ (length error_text <= 1019)%nat) by (split; [by repeat constructor|cbn; lia]).
  assert (Hnone : UkvNet.bytes (reply_text None) /\ (length (reply_text None) <= 1019)%nat) by (split; [by repeat constructor|cbn; lia]).
  unfold net_step. destruct s as [|cmd s]; [split; [done|by intros t [= <-]]|]. apply Forall_cons in Hs as [_ Hs]. cbn [length] in Hl. destruct (cmd =? 43).
  { destruct (field 44 s) as [k|] eqn:Ek; [|split; [done|by intros t [= <-]]]. destruct (field 13 _) as [v|] eqn:Ev; [|split; [done|by intros t [= <-]]].
    pose proof (reply_short V k HV) as Hr. destruct (V !! k) as [old|] eqn:EV; cbn [fst snd]; (split; [|by intros t [= <-]]); [done|].
    destruct (field_bounds _ _ _ Ek) as [Hk _]. destruct (field_bounds _ _ _ Ev) as [Hv _]. rewrite length_drop in Hv. apply map_Forall_insert_2; [|done].
    split; [|lia]. eapply field_bytes; [exact Ev|]. by apply Forall_drop. }
  destruct (cmd =? 45); [destruct (field 13 s); cbn [fst snd]; (split; [|by intros t [= <-]]); [by apply map_Forall_delete|done]|].
  destruct (cmd =? 63); [destruct (field 13 s) as [k|]; cbn [fst snd]; (split; [done|]); intros t [= <-]; [by apply reply_short|done]|].
  destruct (cmd =? 37); (split; [done|]); [done|by intros t [= <-]].
Qed.

Lemma net_step_replies V cmd s : cmd <> 37 -> exists t, (net_step V (cmd :: s)).1 = Some t.
Proof. intros Hc. unfold net_step. rewrite (proj2 (Z.eqb_neq cmd 37)) by done. repeat case_match; by eexists. Qed.

(** ** The client alone *)

Section Response.
Context `{Build} (crc32c : Z -> Z -> list Z -> Z) `{!Crc32c crc32c} (a_buffer : Z).
Abbreviation frame := (frame_of (checksum crc32c)).

Lemma checksum_addr addr data : Crc.bytes data -> crc_compute crc32c addr data = checksum crc32c data.
Proof. intros Hb. unfold checksum. by rewrite !crc_compute_spec. Qed.

Lemma checksum_range data : Crc.bytes data -> 0 <= checksum crc32c data < 2^32.
Proof. intros Hb. unfold checksum. rewrite crc_compute_spec by done. apply lxor_u32; [apply crc_spec_u32; [unfold crc_init; lia|done]|lia]. Qed.

(** A response with its checksum is printed. *)
Lemma check_response_ok buffer t : Z.of_nat (length buffer) = BUFSIZE + 1 -> UkvNet.bytes t -> (length t <= 1019)%nat ->
  exists buffer', check_response crc32c a_buffer buffer (Z.of_nat (length (frame t))) (frame t) = Ret (Response t, buffer') /\ length buffer' = length buffer.
Proof using All.
  intros Hbuf Ht Hlen. unfold BUFSIZE in *. assert (Hfl : length (frame t) = (4 + length t)%nat) by (unfold frame_of; by rewrite length_app).
  unfold check_response. rewrite arr_setZ_nat. unfold arr_set.
  assert (Hlb : length (frame t ++ drop (length (frame t)) buffer) = length buffer) by (rewrite length_app, length_drop; lia).
  destruct (drop (length (frame t)) buffer) as [|x rest] eqn:Ed.
  { apply (f_equal length) in Ed. rewrite length_drop in Ed. cbn in Ed. lia. }
  assert (Eb : <[length (frame t) := 0]> (frame t ++ x :: rest) = word_bytes (checksum crc32c t) ++ t ++ 0 :: rest).
  { rewrite insert_app_r_alt, Nat.sub_diag by lia. change (<[0%nat := 0]> (x :: rest)) with (0 :: rest). unfold frame_of. by rewrite <- app_assoc. }
  rewrite decide_True by (rewrite Hlb; lia). rewrite Eb. rewrite bind_Ret_l.
  rewrite (take_app_length' (word_bytes (checksum crc32c t))), (drop_app_length' (word_bytes (checksum crc32c t))) by done.
  assert (Hn : u64 (Z.of_nat (length (frame t)) - 4) = Z.of_nat (length t)) by (unfold u64; rewrite Hfl, Z.mod_small; lia). rewrite Hn, Nat2Z.id.
  rewrite (proj2 (Z.ltb_ge _ _)) by (rewrite length_app; lia). rewrite take_app_length, checksum_addr, le_word_bytes, Z.eqb_refl by (auto using crc_bytes, checksum_range).
  cbn [negb]. rewrite c_text_id by done. eexists. split; [done|]. rewrite <- Hlb. unfold frame_of. rewrite !length_app. cbn. lia.
Qed.

(** [recv] returns 0 when the other side has closed the connection; the client then
    computes the checksum of about 2^64 bytes. *)
Lemma closed_connection_overruns buffer : length buffer = 1025%nat -> check_response crc32c a_buffer buffer 0 [] = Stop OutOfBounds.
Proof using All.
  intros Hb. unfold check_response. destruct buffer as [|x buffer]; [done|]. cbn [app length drop]. change (arr_setZ (x :: buffer) 0 0) with (Ret (0 :: buffer)). rewrite bind_Ret_l.
  change (u64 (0 - 4)) with (2^64 - 4). rewrite (proj2 (Z.ltb_lt _ _)); [done|]. rewrite length_drop. cbn [length] in *. lia.
Qed.
End Response.

(** ** Client and server *)

Section Together.
Context `{Build} {S L : Type} `{AllocatorLaws S, !AllocatorSizes S} (crc32c : Z -> Z -> list Z -> Z) `{!Crc32c crc32c} `{M : Messages L}.
Context `{!MessagesLaws L (checksum crc32c)} (al_realloc : S -> Z -> Z -> outcome (Z * S)) (fuel lim : nat).
Context (buffer a_req a_buffer : Z) (Hlim : (1020 < lim)%nat /\ (lim + 3 <= fuel)%nat /\ Z.of_nat lim + 4 < 2^31).
Abbreviation frame := (frame_of (checksum crc32c)).
Abbreviation ready := (ready fuel lim buffer).

(** The connection: what one [recv] returns of the bytes of a [send].  A stream socket
    may split them; server and client read once per message and assume it does not
    ("we assume that we received the whole message", ukv_server.c). *)
Context (delivered : list Z -> list Z).

(** The server behind an open connection; [recv] returns 0 when it does not answer. *)
Definition server_peer (v : server S L) (data : list Z) : Z * list Z * server S L :=
  let data := delivered data in
  match serve al_realloc fuel buffer 4 [mk_result 0 (Z.of_nat (length data)) data (0, 0, 0)] v with
  | Some (Ret ([Sendto _ d], inl v')) => (Z.of_nat (length (delivered d)), delivered d, v')
  | _ => (0, [], v)
  end.

Context (Hwhole : forall d, Z.of_nat (length d) <= BUFSIZE -> delivered d = d).

Lemma server_peer_ok v V n R d t V' : ready v V n R -> v_state v = RECV -> UkvNet.bytes d -> (length d <= 1020)%nat -> (length t <= 1019)%nat -> net_step V d = (Some t, V') ->
  (size V < fuel)%nat -> Z.of_nat (size V) + 1 < 2^32 -> Z.of_nat n + 1 < INT_MAX ->
  exists v' n', server_peer v (frame d) = (Z.of_nat (length (frame t)), frame t, v') /\ ready v' V' n' R /\ v_state v' = RECV /\ (n' <= n + 1)%nat.
Proof using All.
  intros Hrd Hs Hd Hlen Htl Es Hsz Hmax Hn. assert (Hfl : length (frame d) = (4 + length d)%nat) by (unfold frame_of; by rewrite length_app).
  assert (Hft : delivered (frame t) = frame t) by (apply Hwhole; change (length (frame t)) with (4 + length t)%nat; unfold BUFSIZE; lia).
  assert (Hfd : delivered (frame d) = frame d) by (apply Hwhole; rewrite Hfl; unfold BUFSIZE; lia).
  set (r := mk_result 0 (Z.of_nat (length (frame d))) (frame d) (0, 0, 0)).
  assert (Hg : good_result r). { right. cbn [read received r]. unfold BUFSIZE. split_and!; [lia|lia|done|]. unfold frame_of. apply Forall_app. split; [apply word_bytes_ok|by apply crc_bytes]. }
  assert (Em : message_step (checksum crc32c) V (frame d) = (Some t, V')).
  { unfold message_step, frame_of. rewrite (take_app_length' (word_bytes _)), (drop_app_length' (word_bytes _)), le_word_bytes, Z.eqb_refl, c_text_whole by (auto using crc_bytes, checksum_range). done. }
  pose proof (serve_message (crc := checksum crc32c) al_realloc fuel lim buffer Hlim r [] v V n R 1 Hrd Hg ltac:(cbn; lia) Hs Hsz Hmax Hn) as Hm. cbn [received r] in Hm. rewrite Em in Hm.
  destruct Hm as (v' & n' & Hn' & Hrd' & Hs' & _ & _ & Hstep). unfold server_peer. rewrite Hfd. cbv zeta. fold r. change 4%nat with (3 + 1)%nat. rewrite (Hstep [] (inl v')) by (cbn; by rewrite Hs'). rewrite Hft. exists v', n'. split_and!; (done || lia).
Qed.

End Together.

