(* ===== verification/Simple.v ===== *)
(** * The counter example (examples/simple/main.c, generate_input.c)

    The program reads messages from a file, each a size, a checksum and a text, adds
    the length of every message with a right checksum to a counter, and writes the
    counter to another file.  Its library calls are those of the interface of file
    UkvServer; the atomic blocks have the effect of one execution.  The contents of the
    input file is the input of the model, the output file its output; what is printed
    is left out.

    The theorem: the output is that of a running sum, with checksums; messages with a
    wrong checksum are skipped, and their buffers are the blocks that are never freed.
    It is about messages that contain a null character: [strlen] reads behind others,
    and the generator of input files writes no such character. *)

From S2P Require Export UkvClient LibcStrtol.

(** ** The program *)

Record simple (S L : Type) := mk_simple {
  g_counter : Z;
  g_ifile : option (list Z);   (* NULL, or what has not been read *)
  g_ofile : option (list Z);   (* NULL, or what has been written *)
  g_buffer : Z;
  g_mem : mem; g_al : S; g_lib : L;
}.
Arguments mk_simple {S L}.
Arguments g_counter {S L}.
Arguments g_ifile {S L}.
Arguments g_ofile {S L}.
Arguments g_buffer {S L}.
Arguments g_mem {S L}.
Arguments g_al {S L}.
Arguments g_lib {S L}.

(** [sprintf(msg, "counter=%zu\n", counter)], without the null character. *)
Definition counter_text (n : Z) : list Z := [99; 111; 117; 110; 116; 101; 114; 61] ++ print 10 n ++ [10].

Section Program.
Context `{Build} {S L : Type} `{Allocator S} `{Messages L} (fuel : nat).
(** The file "input", if it can be opened, and whether "output" can. *)
Context (input : option (list Z)) (can_write : bool).
Abbreviation simple := (simple S L).
Implicit Types s : simple.

Definition init_counter s : simple := mk_simple 0 (g_ifile s) (g_ofile s) (g_buffer s) (g_mem s) (g_al s) (g_lib s).
Definition set_lib s l : simple := mk_simple (g_counter s) (g_ifile s) (g_ofile s) (g_buffer s) (g_mem s) (g_al s) l.

(** The label [catch]: the exit status and what is left. *)
Definition catch s : outcome (Z * simple) :=
  al ← (if negb (g_buffer s =? 0) then al_free (g_al s) (g_buffer s) else Ret (g_al s));
  Ret (0, mk_simple (g_counter s) (g_ifile s) (g_ofile s) (g_buffer s) (g_mem s) al (g_lib s)).

(** The message, the checksum and the length, or the exit. *)
Definition recv_msg_and_crc s : outcome (Z * Z * Z * simple + Z * simple) :=
  match (match g_ifile s with Some f => Some f | None => input end) with
  | None => Ret (inr (-1, s))
  | Some [] =>
      e ← catch (mk_simple (g_counter s) (Some []) (g_ofile s) (g_buffer s) (g_mem s) (g_al s) (g_lib s));
      Ret (inr e)
  | Some (size :: f) =>
      '(buffer, al) ← al_malloc (g_al s) size;
      let data := take (Z.to_nat size) f in
      let m := put_bytes (g_mem s) buffer data in
      let read := Z.of_nat (length data) in
      let s := mk_simple (g_counter s) (Some (drop (Z.to_nat size) f)) (g_ofile s) buffer m al (g_lib s) in
      if read <? size then e ← catch s; Ret (inr e)
      else Ret (inl (buffer + 4, load 4 m buffer, u64 (read - 4), s))
  end.

Definition do_something_here s (imsg : Z) : option simple :=
  n ← strlen fuel (g_mem s) imsg;
  Some (mk_simple (u64 (g_counter s + n)) (g_ifile s) (g_ofile s) (g_buffer s) (g_mem s) (g_al s) (g_lib s)).

(** [sprintf] into the block of 16 bytes; a longer text leaves the block. *)
Definition create_a_message_here s : option (outcome (Z * Z * simple)) :=
  '(msg, al) ⇐ lift (al_malloc (g_al s) 16);
  let text := counter_text (g_counter s) ++ [0] in
  _ ⇐ lift (if decide (length text <= 16)%nat then Ret tt else Stop OutOfBounds);
  let m := put_bytes (g_mem s) msg text in
  olen ← strlen fuel m msg;
  Some (Ret (msg, olen, mk_simple (g_counter s) (g_ifile s) (g_ofile s) (g_buffer s) m al (g_lib s))).

Definition send_msg_and_crc s (omsg olen crc : Z) : outcome (simple + Z * simple) :=
  match (match g_ofile s with Some f => Some f | None => if can_write then Some [] else None end) with
  | None => Ret (inr (-1, s))
  | Some f =>
      let f := f ++ word_bytes crc ++ read_block (g_mem s) omsg olen in
      al ← al_free (g_al s) omsg;
      al ← al_free al (g_buffer s);
      Ret (inl (mk_simple (g_counter s) (g_ifile s) (Some f) 0 (g_mem s) al (g_lib s)))
  end.

(** One round of the loop of [main]. *)
Definition simple_round s : option (outcome (simple + Z * simple)) :=
  r ⇐ lift (recv_msg_and_crc s);
  match r with
  | inr e => Some (Ret (inr e))
  | inl (imsg, crc, ilen, s) =>
      '(ok, l) ⇐ lift (begin_check (g_lib s) (g_mem s) imsg ilen crc);
      let s := set_lib s l in
      if ok : bool then
        s ← do_something_here s imsg;
        '(omsg, olen, s) ⇐ create_a_message_here s;
        l ⇐ lift (block_end (g_lib s) (g_mem s) (Some (omsg, read_block (g_mem s) omsg olen)));
        '(ocrc, l) ⇐ lift (crc_pop l);
        lift (send_msg_and_crc (set_lib s l) omsg olen ocrc)
      else Some (Ret (inl s))
  end.

Fixpoint simple_loop (steps : nat) s : option (outcome (Z * simple)) :=
  match steps with
  | O => None
  | Datatypes.S steps' =>
      w ⇐ simple_round s;
      match w with inr e => Some (Ret e) | inl s' => simple_loop steps' s' end
  end.

Definition simple_main (steps : nat) s : option (outcome (Z * simple)) :=
  l ⇐ lift (begin_nm (g_lib s));
  let s := init_counter (set_lib s l) in
  l ⇐ lift (block_end (g_lib s) (g_mem s) None);
  simple_loop steps (set_lib s l).
End Program.

(** ** The generator of input files *)

Section Generator.
Context (crc32c : Z -> Z -> list Z -> Z).
(** The address of the line. *)
Context (a_req : Z).

Definition generate_record (req : list Z) : list Z :=
  let corrupt := if nth 0 req 0 =? 33 then 1%nat else 0%nat in
  let crc := crc_compute crc32c (a_req + Z.of_nat corrupt) (drop corrupt req) in
  let crc := if (corrupt =? 0)%nat then crc else u32 (crc + 1) in
  let size := (Z.of_nat (length req) + 4) mod 256 in
  size :: word_bytes crc ++ drop corrupt req.

(** The contents of the file for the lines [getline] returns. *)
Fixpoint generate_input (lines : list (list Z)) : list Z :=
  match lines with
  | [] => []
  | req :: lines' =>
      if 1 <? Z.of_nat (length req) then
        if bool_decide (c_text req = exit_text) then [] else generate_record req ++ generate_input lines'
      else generate_input lines'
  end.
End Generator.

(** ** What the program promises *)

Section Spec.
Context (crc : list Z -> Z).

Definition valid (d : list Z) : bool := crc (drop 4 d) =? Crc.le (take 4 d).

(** The counter and the output after the records [recs]. *)
Fixpoint spec_simple (counter : Z) (recs : list (list Z)) : Z * list Z :=
  match recs with
  | [] => (counter, [])
  | d :: recs' =>
      if valid d then
        let n := counter + Z.of_nat (length (c_text (drop 4 d))) in
        let '(c, out) := spec_simple n recs' in (c, frame_of crc (counter_text n) ++ out)
      else spec_simple counter recs'
  end.

(** The number of buffers that are never freed; [held] says that the last record had a
    wrong checksum. *)
Fixpoint leaks (held : bool) (recs : list (list Z)) (tail : list Z) : nat :=
  (if held then match recs, tail with [], [] => 0 | _, _ => 1 end else 0) +
  match recs with [] => 0 | d :: recs' => leaks (negb (valid d)) recs' tail end.

(** Room for the checksum; a message that counts has a null character. *)
Definition record_ok (d : list Z) : Prop := Crc.bytes d /\ (4 <= length d <= 255)%nat /\ (valid d = true -> 0 ∈ drop 4 d).
End Spec.

(** The input file. *)
Definition framed (d : list Z) : list Z := Z.of_nat (length d) :: d.
Definition truncated (tail : list Z) : Prop :=
  match tail with [] => True | size :: f => Crc.bytes f /\ Z.of_nat (length f) < size end.

(** Every file is a sequence of records and the beginning of one. *)
Lemma records_of_file input : Crc.bytes input -> exists recs tail, input = concat (framed <$> recs) ++ tail /\ truncated tail.
Proof.
  remember (length input) as n eqn:En. revert input En. induction n as [n IH] using lt_wf_ind. intros [|size f] -> Hb; [by exists [], []|].
  apply Forall_cons in Hb as [Hs Hb]. destruct (decide (Z.of_nat (length f) < size)) as [Hlt|Hge]; [by exists [], (size :: f)|].
  destruct (IH (length (drop (Z.to_nat size) f)) ltac:(rewrite length_drop; cbn; lia) _ eq_refl) as (recs & tail & E & Ht); [by apply Forall_drop|].
  exists (take (Z.to_nat size) f :: recs), tail. split; [|done]. cbn. rewrite <- app_assoc, <- E, take_drop. unfold framed. rewrite length_take. cbn. f_equal. lia.
Qed.

(** ** The text of the counter *)

Lemma digits_length fuel b : 2 <= b -> forall k v, v < b ^ Z.of_nat (Datatypes.S k) -> (length (digits fuel b v) <= Datatypes.S k)%nat.
Proof.
  intros Hb. induction fuel as [|fuel IH]; intros k v Hv; cbn [digits]; [cbn; lia|]. destruct (Z.ltb_spec v b) as [Hlt|Hge]; [cbn; lia|].
  destruct k as [|k]; [cbn in Hv; lia|]. rewrite length_app. cbn [length]. specialize (IH k (v / b)).
  rewrite (Nat2Z.inj_succ (Datatypes.S k)), Z.pow_succ_r in Hv by lia. assert (v / b < b ^ Z.of_nat (Datatypes.S k)) by (apply Z.div_lt_upper_bound; lia). specialize (IH H). lia.
Qed.

Lemma counter_text_ok n : 0 <= n < 1000000 -> UkvNet.bytes (counter_text n) /\ (length (counter_text n) <= 15)%nat.
Proof.
  intros Hn. unfold counter_text, print. rewrite (proj2 (Z.ltb_ge _ _)), Z.abs_eq by lia. set (f := Datatypes.S _).
  assert (Hf : n < 2 ^ Z.of_nat f).
  { unfold f. rewrite Nat2Z.inj_succ, Z2Nat.id by apply Z.log2_nonneg. destruct (decide (n = 0)) as [->|]; [done|]. apply Z.log2_spec. lia. }
  destruct (digits_spec f 10 n ltac:(lia) ltac:(lia) Hf) as (_ & Hd & _). pose proof (digits_length f 10 ltac:(lia) 5 n ltac:(cbn; lia)) as Hl.
  rewrite app_nil_l. split.
  - apply Forall_app. split; [by repeat constructor|]. apply Forall_app. split; [|by repeat constructor]. apply Forall_map. eapply Forall_impl; [exact Hd|].
    intros d Hd'. cbv beta in *. unfold digit_char. destruct (Z.ltb_spec d 10); lia.
  - rewrite !length_app, length_map. cbn [length]. lia.
Qed.

(** From one million on the text and its end do not fit into the 16 bytes. *)
Lemma digits_length_ge fuel b : 2 <= b -> forall k v, v < 2 ^ Z.of_nat fuel -> b ^ Z.of_nat k <= v -> (k < length (digits fuel b v))%nat.
Proof.
  intros Hb. induction fuel as [|fuel IH]; intros k v Hv Hk; cbn [digits]; [pose proof (Z.pow_pos_nonneg b (Z.of_nat k)); cbn in Hv; lia|].
  destruct (Z.ltb_spec v b) as [Hlt|Hge].
  - destruct k as [|k]; [cbn; lia|]. rewrite Nat2Z.inj_succ, Z.pow_succ_r in Hk by lia. pose proof (Z.pow_pos_nonneg b (Z.of_nat k)). nia.
  - rewrite length_app. cbn [length]. destruct k as [|k]; [lia|]. rewrite Nat2Z.inj_succ, Z.pow_succ_r in Hk, Hv by lia.
    assert (v / b < 2 ^ Z.of_nat fuel) by (apply Z.div_lt_upper_bound; nia). specialize (IH k (v / b) ltac:(done) ltac:(apply Z.div_le_lower_bound; lia)). lia.
Qed.

Lemma counter_text_overflows n : 1000000 <= n -> (16 < length (counter_text n ++ [0%Z]))%nat.
Proof.
  intros Hn. unfold counter_text, print. rewrite (proj2 (Z.ltb_ge _ _)), Z.abs_eq, app_nil_l by lia.
  pose proof (digits_length_ge (Datatypes.S (Z.to_nat (Z.log2 n))) 10 ltac:(lia) 6 n) as Hl. rewrite Nat2Z.inj_succ, Z2Nat.id in Hl by apply Z.log2_nonneg.
  specialize (Hl (proj2 (Z.log2_spec n ltac:(lia))) ltac:(cbn; lia)). rewrite !length_app, length_map. cbn [length]. lia.
Qed.

(** ** Correctness *)

(** A string that ends within the data. *)
Lemma cstr_text_in m data : forall p, Crc.bytes data -> 0 ∈ data -> (forall i, (i < length data)%nat -> mget m (p + Z.of_nat i) = nth i data 0) -> cstr m p (c_text data).
Proof.
  induction data as [|c data IH]; intros p Hb Hin Hm; [by apply elem_of_nil in Hin|]. apply Forall_cons in Hb as [Hc Hb]. cbn [c_text].
  pose proof (Hm 0%nat ltac:(cbn; lia)) as H0. rewrite Z.add_0_r in H0. cbn in H0. destruct (Z.eqb_spec c 0) as [->|Hne]; [done|]. cbn. split_and!; [done|done|].
  apply elem_of_cons in Hin as [?|Hin]; [done|]. apply IH; [done|done|]. intros i Hi. rewrite <- Z.add_assoc. replace (1 + Z.of_nat i) with (Z.of_nat (Datatypes.S i)) by lia.
  apply (Hm (Datatypes.S i)). cbn; lia.
Qed.

(** A message without a null character: what follows it in memory is counted too. *)
Lemma unterminated_counts_on {S L} fuel (s : simple S L) imsg t rest : cstr (g_mem s) imsg (t ++ rest) -> (length (t ++ rest) < fuel)%nat ->
  exists s', do_something_here fuel s imsg = Some s' /\ g_counter s' = u64 (g_counter s + Z.of_nat (length t) + Z.of_nat (length rest)).
Proof. intros Hc Hf. unfold do_something_here. rewrite (strlen_correct _ _ _ _ Hc Hf). eexists. split; [done|]. cbn. rewrite length_app. f_equal. lia. Qed.

Lemma spec_simple_ge crc recs : forall n, n <= (spec_simple crc n recs).1.
Proof.
  induction recs as [|d recs IH]; intros n; cbn [spec_simple]; [cbn; lia|]. destruct (valid crc d); [|apply IH].
  cbv zeta. specialize (IH (n + Z.of_nat (length (c_text (drop 4 d))))). destruct (spec_simple _ _ recs) as [c out]. cbn in *. lia.
Qed.

Lemma spec_simple_cons crc c d recs : let c1 := if valid crc d then c + Z.of_nat (length (c_text (drop 4 d))) else c in
  spec_simple crc c (d :: recs) = ((spec_simple crc c1 recs).1, (if valid crc d then frame_of crc (counter_text c1) else []) ++ (spec_simple crc c1 recs).2).
Proof. cbn [spec_simple]. cbv zeta. destruct (valid crc d); [|by destruct (spec_simple crc c recs)]. by destruct (spec_simple _ _ recs). Qed.

Section Run.
Context `{Build} {S L : Type} `{AllocatorLaws S, !AllocatorSizes S} `{MessagesLaws L crc} (fuel : nat) (input : option (list Z)).
Context (Hpos : forall al n p al', al_malloc al n = Ret (p, al') -> 0 < p) (Hfuel : (256 < fuel)%nat).
Abbreviation simple := (simple S L).
Implicit Types s : simple.

Definition remaining s : option (list Z) := match g_ifile s with Some f => Some f | None => input end.

(** At the top of the loop, after [n] outputs: the blocks are those of [R], [k] that
    are lost and the buffer of a message with a wrong checksum. *)
Record at_top s (n : nat) (held : bool) (c : Z) (R : gset Z) (k : nat) : Prop := {
  at_blocks : exists X, al_live (g_al s) = R ∪ X /\ X ## R /\ size X = (k + if held then 1 else 0)%nat /\ if held then g_buffer s ∈ X /\ g_buffer s <> 0 else g_buffer s = 0;
  at_msg : msg_ok (g_lib s) n [] None;
  at_counter : g_counter s = c;
}.

(** The state with a record in the buffer. *)
Record got s s1 (p : Z) (d f : list Z) : Prop := {
  rc_malloc : al_malloc (g_al s) (Z.of_nat (length d)) = Ret (p, g_al s1);
  rc_pos : 0 < p;
  rc_buffer : g_buffer s1 = p;
  rc_file : g_ifile s1 = Some f;
  rc_same : g_counter s1 = g_counter s /\ g_ofile s1 = g_ofile s /\ g_lib s1 = g_lib s;
  rc_data : forall i, (i < length d)%nat -> mget (g_mem s1) (p + Z.of_nat i) = nth i d 0;
}.

Lemma recv_record s d f : remaining s = Some (framed d ++ f) -> Crc.bytes d -> (4 <= length d <= 255)%nat ->
  exists s1 p, recv_msg_and_crc input s = Ret (inl (p + 4, Crc.le (take 4 d), Z.of_nat (length d) - 4, s1)) /\ got s s1 p d f.
Proof using All.
  intros Hf Hb Hd. unfold recv_msg_and_crc. fold (remaining s). rewrite Hf. cbn [app framed].
  destruct (malloc_total (g_al s) (Z.of_nat (length d))) as (p & al' & Em). rewrite Em, bind_Ret_l. rewrite Nat2Z.id, take_app_length, drop_app_length, Z.ltb_irrefl.
  set (m := put_bytes (g_mem s) p d). assert (Hm : forall i, (i < length d)%nat -> mget m (p + Z.of_nat i) = nth i d 0).
  { intros i Hi. unfold m. rewrite mget_put_bytes, decide_True by (done || lia). f_equal. lia. }
  do 2 eexists. split.
  - rewrite (load_le 4 m p d) by (lia || (intros i Hi; apply Hm; lia)). rewrite u64_small by lia. reflexivity.
  - split; cbn; try done. by eapply Hpos.
Qed.

Lemma got_read s s1 p d f : got s s1 p d f -> (4 <= length d)%nat -> read_block (g_mem s1) (p + 4) (Z.of_nat (length d) - 4) = drop 4 d.
Proof.
  intros [_ _ _ _ _ Hm] Hd. replace (Z.of_nat (length d) - 4) with (Z.of_nat (length (drop 4 d))) by (rewrite length_drop; lia).
  apply read_block_eq. intros i Hi. rewrite length_drop in Hi. rewrite List.nth_skipn. replace (p + 4 + Z.of_nat i) with (p + Z.of_nat (4 + i)) by lia. apply Hm. lia.
Qed.

Lemma got_text s s1 p d f : got s s1 p d f -> Crc.bytes d -> 0 ∈ drop 4 d -> cstr (g_mem s1) (p + 4) (c_text (drop 4 d)).
Proof.
  intros [_ _ _ _ _ Hm] Hb Hin. apply cstr_text_in; [by apply Forall_drop|done|]. intros i Hi. rewrite length_drop in Hi. rewrite List.nth_skipn.
  replace (p + 4 + Z.of_nat i) with (p + Z.of_nat (4 + i)) by lia. apply Hm. lia.
Qed.

(** The output message, in a block of its own. *)
Lemma create_ok s c : g_counter s = c -> 0 <= c < 1000000 -> exists o s1, let t := counter_text c in
  create_a_message_here fuel s = Some (Ret (o, Z.of_nat (length t), s1)) /\ al_malloc (g_al s) 16 = Ret (o, g_al s1) /\ cstr (g_mem s1) o t /\
  keeps (al_live (g_al s)) (g_al s) (g_mem s) (g_al s1) (g_mem s1) /\
  s1 = mk_simple c (g_ifile s) (g_ofile s) (g_buffer s) (g_mem s1) (g_al s1) (g_lib s).
Proof using All.
  intros Hc Hr. destruct (counter_text_ok c Hr) as [Hb Hl]. unfold create_a_message_here. destruct (malloc_total (g_al s) 16) as (o & al & Em). rewrite Em. cbn [lift fbind].
  rewrite Hc. cbv zeta. rewrite decide_True by (rewrite length_app; cbn [length]; lia). cbn [lift fbind]. destruct (put_string (g_mem s) o _ Hb) as [Hs Hout]. rewrite (strlen_correct _ _ _ _ Hs) by lia. cbn [mbind option_bind].
  do 2 eexists. split_and!; try done. cbn [g_al g_mem]. eapply fresh_keeps; [exact Em|]. intros x Hx. apply Hout. lia.
Qed.

(** From one million on the text leaves its block. *)
Lemma create_overflows s : 1000000 <= g_counter s -> create_a_message_here fuel s = Some (Stop OutOfBounds).
Proof using All.
  intros Hc. pose proof (counter_text_overflows _ Hc). unfold create_a_message_here. destruct (malloc_total (g_al s) 16) as (o & al & ->).
  cbn [lift fbind]. cbv zeta. by rewrite decide_False by lia.
Qed.

Definition emitted (d : list Z) (c : Z) : list Z := if valid crc d then frame_of crc (counter_text c) else [].

(** One round on a record. *)
Lemma round_record s n held c R k d f : at_top s n held c R k -> remaining s = Some (framed d ++ f) -> record_ok crc d ->
  let c' := if valid crc d then c + Z.of_nat (length (c_text (drop 4 d))) else c in 0 <= c -> c' < 1000000 -> Z.of_nat n + 1 < INT_MAX ->
  exists s' n', simple_round fuel input true s = Some (Ret (inl s')) /\ (n <= n' <= n + 1)%nat /\ g_ifile s' = Some f /\
    at_top s' n' (negb (valid crc d)) c' R (k + if held then 1 else 0) /\ default [] (g_ofile s') = default [] (g_ofile s) ++ emitted d c'.
Proof using All.
  intros [(X & HX & Hdis & Hsz & Hbuf) Hl Hc] Hf (Hb & Hd & Hz) c' Hc0 Hc' Hn. unfold simple_round, emitted.
  destruct (recv_record s d f Hf Hb Hd) as (s1 & p & -> & Hrc). cbn [lift fbind]. pose proof Hrc as [Em Hp Hbf Hfile (Hc1 & Ho1 & Hl1) _].
  destruct (malloc_fresh _ _ _ _ Em) as (_ & Hpn & Hlive). rewrite Hl1.
  destruct (begin_check_ok (g_lib s) n (g_mem s1) (p + 4) (Z.of_nat (length d) - 4) (Crc.le (take 4 d)) Hl ltac:(lia)) as (l & -> & Hl2).
  rewrite (got_read _ _ _ _ _ Hrc) in * by lia. cbn [lift fbind]. fold (valid crc d) in *. destruct (valid crc d) eqn:Ev; cbv zeta.
  2: { exists (set_lib s1 l), n. split; [done|]. split; [lia|]. split; [done|]. split; [|by rewrite app_nil_r; cbn; rewrite Ho1].
    split; cbn; [|done|by rewrite Hc1]. exists ({[p]} ∪ X). split_and!; [rewrite Hlive, HX; set_solver|set_solver| |set_solver|lia].
    rewrite size_union, size_singleton, Hsz by set_solver. destruct held; lia. }
  unfold do_something_here. rewrite (strlen_correct (g_mem (set_lib s1 l)) (p + 4) _ fuel (got_text _ _ _ _ _ Hrc Hb (Hz eq_refl)))
    by (pose proof (length_c_text (drop 4 d)); rewrite length_drop in *; lia). cbn [mbind option_bind].
  set (s2 := mk_simple _ _ _ _ _ _ _). assert (Hc2 : g_counter s2 = c') by (cbn; rewrite Hc1, Hc; apply u64_small; lia).
  destruct (create_ok s2 c' Hc2 ltac:(lia)) as (o & s3 & -> & Em3 & Hs3 & Hk & Es3). cbn [fbind]. destruct (cstr_bytes _ _ _ Hs3) as [Hby Erd]. rewrite Erd.
  destruct (malloc_size _ _ _ _ Em) as [Hps _]. assert (Er : read_block (g_mem s3) (p + 4) (Z.of_nat (length d) - 4) = drop 4 d).
  { rewrite <- (got_read _ _ _ _ _ Hrc ltac:(lia)). assert (Hpl : p ∈ al_live (g_al s2)) by (cbn; rewrite Hlive; set_solver).
    apply (keeps_read _ _ _ _ _ p _ _ Hk Hpl Hpl); [lia|]. change (g_al s2) with (g_al s1). lia. }
  assert (El : g_lib s3 = l) by (by rewrite Es3). rewrite El.
  destruct (block_output_ok l n (g_mem s3) (p + 4) (Z.of_nat (length d) - 4) o (counter_text c')) as (l3 & -> & Hl3); rewrite ?Er; try done; [pose proof (counter_text_ok c'); lia|].
  cbn [lift fbind]. destruct (crc_pop_ok l3 _ _ _ Hl3) as (l4 & -> & Hl4). cbn [lift fbind].
  destruct (malloc_fresh _ _ _ _ Em3) as (_ & Hon & Hlive3). cbn [g_al s2 set_lib] in Hon, Hlive3.
  destruct (free_live (g_al s3) o) as (al4 & Ef4 & Hlive4); [rewrite Hlive3; set_solver|].
  destruct (free_live al4 p) as (al5 & Ef5 & Hlive5); [rewrite Hlive4, Hlive3, Hlive; set_solver|].
  assert (Hout : match g_ofile s3 with Some f => Some f | None => Some [] end = Some (default [] (g_ofile s))) by (rewrite Es3; cbn; rewrite Ho1; by destruct (g_ofile s)).
  assert (Hbuf3 : g_buffer s3 = p) by (by rewrite Es3). unfold send_msg_and_crc. cbn [set_lib g_ofile g_mem g_al g_buffer]. rewrite Hout, Ef4, bind_Ret_l, Hbuf3, Ef5, bind_Ret_l. cbn [lift].
  do 2 eexists. split; [done|]. split; [|split; [by rewrite Es3|split]].
  - instantiate (1 := (n + 1)%nat). lia.
  - split; cbn; [|done|by rewrite Es3]. exists X. rewrite Hlive5, Hlive4, Hlive3, Hlive, HX. rewrite HX in Hpn. rewrite Hlive, HX in Hon. split_and!; [set_solver|done|rewrite Hsz; destruct held; lia|done].
  - cbn [g_ofile from_option]. unfold id, frame_of. by rewrite Erd.
Qed.

(** The process has ended and lost [k] blocks. *)
Definition ended s' (c : Z) (out : list Z) R (k : nat) : Prop := g_counter s' = c /\ default [] (g_ofile s') = out /\
  exists X, al_live (g_al s') = R ∪ X /\ X ## R /\ size X = k.

(** The end of the file, or a record that is cut off. *)
Lemma round_end s n held c R k tail : at_top s n held c R k -> remaining s = Some tail -> truncated tail ->
  exists s', simple_round fuel input true s = Some (Ret (inr (0, s'))) /\ ended s' c (default [] (g_ofile s)) R (k + leaks crc held [] tail).
Proof using All.
  intros [(X & HX & Hdis & Hsz & Hbuf) _ Hc] Hf Ht. unfold simple_round, recv_msg_and_crc. fold (remaining s). rewrite Hf. cbn [leaks].
  destruct tail as [|sz f]; unfold catch.
  - cbn [g_buffer g_al]. destruct held.
    + destruct Hbuf as [HbX Hb0]. rewrite (proj2 (Z.eqb_neq _ _)) by done. destruct (free_live (g_al s) (g_buffer s)) as (al & -> & Hl); [rewrite HX; set_solver|].
      eexists. split; [done|]. split; [done|]. split; [done|]. exists (X ∖ {[g_buffer s]}). cbn. rewrite Hl, HX. split_and!; [set_solver|set_solver|].
      rewrite size_difference, size_singleton, Hsz by set_solver. lia.
    + rewrite Hbuf. eexists. split; [done|]. split; [done|]. split; [done|]. exists X. by rewrite Hsz.
  - destruct Ht as [Hfb Hlen]. destruct (malloc_total (g_al s) sz) as (p & al & Em). rewrite Em, bind_Ret_l. pose proof (Hpos _ _ _ _ Em). destruct (malloc_fresh _ _ _ _ Em) as (_ & Hpn & Hl).
    cbn [g_buffer g_al]. rewrite length_take, (proj2 (Z.ltb_lt _ _)), (proj2 (Z.eqb_neq p 0)) by lia. cbn [negb].
    destruct (free_live al p) as (al' & -> & Hl'); [rewrite Hl; set_solver|]. rewrite HX in Hpn.
    eexists. split; [done|]. split; [done|]. split; [done|]. exists X. cbn. rewrite Hl', Hl, HX, Hsz. split_and!; [set_solver|done|]. destruct held; lia.
Qed.

Lemma simple_loop_ok recs : forall s n held c R k tail steps, at_top s n held c R k -> remaining s = Some (concat (framed <$> recs) ++ tail) ->
  Forall (record_ok crc) recs -> truncated tail -> 0 <= c -> (spec_simple crc c recs).1 < 1000000 -> Z.of_nat (n + length recs) < INT_MAX -> (length recs < steps)%nat ->
  exists s', simple_loop fuel input true steps s = Some (Ret (0, s')) /\
    ended s' (spec_simple crc c recs).1 (default [] (g_ofile s) ++ (spec_simple crc c recs).2) R (k + leaks crc held recs tail).
Proof using All.
  induction recs as [|d recs IH]; intros s n held c R k tail [|steps] Hat Hf Hr Ht Hc Hmax Hn Hsteps; cbn [length] in *; try lia; cbn [simple_loop].
  - destruct (round_end s n held c R k tail Hat Hf Ht) as (s' & -> & He). exists s'. cbn [fbind spec_simple fst snd]. by rewrite app_nil_r.
  - apply Forall_cons in Hr as [Hd Hr]. cbn [fmap list_fmap concat] in Hf. rewrite <- app_assoc in Hf. cbn [leaks].
    pose proof (round_record s n held c R k d _ Hat Hf Hd) as Hround. unfold emitted in Hround.
    set (c1 := if valid crc d then c + Z.of_nat (length (c_text (drop 4 d))) else c) in *.
    rewrite spec_simple_cons in *. fold c1 in Hmax |- *. cbn [fst snd] in *. pose proof (spec_simple_ge crc recs c1). destruct Hround as (s1 & n1 & -> & Hn1 & Hf1 & Hat1 & Ho1); [lia|lia|lia|].
    assert (Hc1 : 0 <= c1) by (unfold c1; destruct (valid crc d); lia). cbn [fbind].
    destruct (IH s1 n1 _ c1 R _ tail steps Hat1) as (s' & -> & He); [by unfold remaining; rewrite Hf1|done|done|done|done|lia|lia|].
    exists s'. split; [done|]. destruct He as (? & ? & X & ? & ? & HX). split; [done|]. split; [by rewrite app_assoc, <- Ho1|]. exists X. split_and!; [done|done|].
    rewrite HX. destruct held; lia.
Qed.

(** C31.  The example program computes a running sum.  Started with an input file that is
    a sequence of records (a size, a checksum, a message with a null character when its
    checksum is right), possibly cut off in the middle of a record, when the output file can be opened, and
    while the sum has at most six digits (more do not fit, [create_overflows]), the program ends with status 0, the counter is the sum of
    the lengths of the messages with a right checksum, the output file holds, for each
    of them, the sum so far as text behind its checksum, and the other messages leave
    no trace but their buffers: the blocks in use are those from before and one for
    every message with a wrong checksum that is followed by another one. *)
Theorem simple_correct s recs tail : g_ifile s = None -> g_ofile s = None -> g_buffer s = 0 -> msg_ok (g_lib s) 0 [] None ->
  input = Some (concat (framed <$> recs) ++ tail) -> Forall (record_ok crc) recs -> truncated tail ->
  (spec_simple crc 0 recs).1 < 1000000 -> Z.of_nat (length recs) < INT_MAX ->
  exists s', simple_main fuel input true (Datatypes.S (length recs)) s = Some (Ret (0, s')) /\
    ended s' (spec_simple crc 0 recs).1 (spec_simple crc 0 recs).2 (al_live (g_al s)) (leaks crc false recs tail).
Proof using All.
  intros Hi Ho Hb Hl Hin Hr Ht Hmax Hn. unfold simple_main. destruct (block_nm _ 0 (g_mem s) Hl) as (l1 & l2 & -> & E2 & Hl2). cbn [lift fbind].
  unfold set_lib, init_counter. cbn [g_lib g_mem]. rewrite E2. cbn [lift fbind].
  set (s1 := mk_simple 0 (g_ifile s) (g_ofile s) (g_buffer s) (g_mem s) (g_al s) l2). destruct (simple_loop_ok recs s1 0 false 0 (al_live (g_al s)) 0 tail (Datatypes.S (length recs))) as (s' & E & He); try done.
  - split; [|done|done]. exists ∅. cbn. split_and!; [set_solver|set_solver|by rewrite size_empty|done].
  - unfold remaining. cbn. by rewrite Hi.
  - lia.
  - exists s'. split; [exact E|]. cbn in He. by rewrite Ho in He.
Qed.
End Run.

(** ** Files of the generator *)

Section Generated.
Context (crc32c : Z -> Z -> list Z -> Z) `{!Crc32c crc32c} (a_req : Z).

(** Lines that are written as they are: not empty, without the mark of a corrupted
    record, and short enough for the size byte. *)
Definition plain (req : list Z) : Prop :=
  Crc.bytes req /\ (2 <= length req <= 251)%nat /\ nth 0 req 0 <> 33 /\ c_text req <> exit_text.

Lemma generate_plain req : plain req -> generate_record crc32c a_req req = framed (frame_of (checksum crc32c) req).
Proof using All.
  intros (Hb & Hl & Hm & _). unfold generate_record, framed, frame_of. rewrite (proj2 (Z.eqb_neq _ _)) by done. cbn [Nat.eqb]. rewrite drop_0, checksum_addr by done.
  rewrite length_app, length_word_bytes, Z.mod_small by lia. f_equal. lia.
Qed.

Lemma drop_frame crc req : drop 4 (frame_of crc req) = req.
Proof. reflexivity. Qed.

(** The file holds the lines, with checksums the program accepts; it counts those that
    have a null character. *)
Lemma generate_input_plain lines : Forall plain lines -> generate_input crc32c a_req lines = concat (framed <$> (frame_of (checksum crc32c) <$> lines)) /\
  Forall (fun req => valid (checksum crc32c) (frame_of (checksum crc32c) req) = true /\ (0 ∈ req -> record_ok (checksum crc32c) (frame_of (checksum crc32c) req))) lines.
Proof using All.
  induction 1 as [|req lines Hp Hps [IH1 IH2]]; [by split|]. split.
  - cbn [generate_input fmap list_fmap concat]. pose proof Hp as (_ & Hl & _ & He). rewrite (proj2 (Z.ltb_lt _ _)), bool_decide_eq_false_2, generate_plain, IH1 by (done || lia). done.
  - constructor; [|done]. destruct Hp as (Hb & Hl & _). pose proof (checksum_range crc32c req Hb). split.
    + unfold valid. rewrite drop_frame. change (take 4 _) with (word_bytes (checksum crc32c req)). rewrite le_word_bytes by done. apply Z.eqb_refl.
    + intros H0. split; [|split; [unfold frame_of; rewrite length_app, length_word_bytes; lia|by rewrite drop_frame]]. apply Forall_app. split; [apply word_bytes_ok|done].
Qed.

(** The size of a corrupted record counts the mark, which is not written: a reader
    takes the first byte of the next record for the last byte of this one. *)
Lemma generate_corrupt_short t : (length t <= 250)%nat ->
  exists rest, generate_record crc32c a_req (33 :: t) = Z.of_nat (length rest) + 1 :: rest.
Proof using.
  intros Hl. unfold generate_record. cbn [nth Z.eqb Pos.eqb Nat.eqb]. change (drop 1 (33 :: t)) with t. eexists. f_equal.
  rewrite length_app, length_word_bytes. cbn [length]. rewrite Z.mod_small by lia. lia.
Qed.

(** The size of a long line is reduced to a byte. *)
Lemma generate_long_wraps req : (252 <= length req < 508)%nat -> nth 0 req 0 <> 33 ->
  exists rest, generate_record crc32c a_req req = Z.of_nat (length rest) - 256 :: rest.
Proof using.
  intros Hl Hm. unfold generate_record. rewrite (proj2 (Z.eqb_neq _ _)) by done. cbn [Nat.eqb]. rewrite drop_0. eexists. f_equal. rewrite length_app, length_word_bytes.
  rewrite (Z.mod_eq _ 256) by lia. replace ((Z.of_nat (length req) + 4) / 256) with 1 by (apply Z.div_unique with (Z.of_nat (length req) - 252); lia). lia.
Qed.
End Generated.

(** "ab", a message with a wrong checksum, "c", and the beginning of a record. *)
Lemma simple_correct_witness :
  let B := debug_build 2 in
  let M := lib_messages crc32cSarwate demo_crc 2 demo_os in
  let crc := checksum crc32cSarwate in
  let al := mk_libc ∅ in
  let recs := [frame_of crc [97; 98; 0]; [1; 2; 3; 4; 97; 0]; frame_of crc [99; 0; 100]] in
  let s := mk_simple 17 None None 0 ∅ al (mk_lib ibuf_init (obuf_init 10) (mk_proc (mk_machine demo_iso 1) 0)) in
  exists s', simple_main 300 (Some (concat (framed <$> recs) ++ [9; 1])) true 4 s = Some (Ret (0, s')) /\ g_counter s' = 3 /\
    default [] (g_ofile s') = frame_of crc (counter_text 2) ++ frame_of crc (counter_text 3) /\ size (al_live (g_al s')) = 1%nat.
Proof.
  intros B M crc al recs s.
  assert (Hpos : forall (al : libc) n p al', al_malloc al n = Ret (p, al') -> 0 < p).
  { intros al0 n p al' E. injection E as <- _. pose proof (top_bound (blocks al0)) as [? _]. pose proof (Z.div_pos (top (blocks al0)) 16). lia. }
  assert (Hb : forallb (forallb (fun c => (0 <=? c) && (c <? 256))) recs = true) by (vm_compute; reflexivity).
  assert (Hr : Forall (record_ok crc) recs).
  { apply Forall_forall. intros d Hd. rewrite forallb_forall in Hb. specialize (Hb d ltac:(by apply list_elem_of_In)). split.
    - apply Forall_forall. intros c Hc. rewrite forallb_forall in Hb. specialize (Hb c ltac:(by apply list_elem_of_In)). unfold is_true in *. lia.
    - assert (Hchk : forallb (fun d => (4 <=? length d)%nat && (length d <=? 255)%nat && (negb (valid crc d) || bool_decide (0 ∈ drop 4 d))) recs = true) by (vm_compute; reflexivity).
      rewrite forallb_forall in Hchk. specialize (Hchk d ltac:(by apply list_elem_of_In)). rewrite !andb_true_iff in Hchk. destruct Hchk as [[? ?] Hv].
      split; [split; by apply Nat.leb_le|]. intros Ev. rewrite Ev in Hv. by apply bool_decide_eq_true in Hv. }
  assert (Hli : lib_ok crc32cSarwate demo_crc (g_lib s) 0 [] None) by (apply (lib_init_ok crc32cSarwate demo_crc 2 demo_os); [done|lia|apply demo_healthy]).
  pose proof (simple_correct (H:=B) (H2:=M) (H3:=lib_laws crc32cSarwate demo_crc 2 demo_os eq_refl ltac:(lia)) 300 (Some (concat (framed <$> recs) ++ [9; 1])) Hpos ltac:(lia)
    s recs [9; 1] eq_refl eq_refl eq_refl Hli eq_refl Hr) as Hs.
  assert (E : spec_simple crc 0 recs = (3, frame_of crc (counter_text 2) ++ frame_of crc (counter_text 3))) by (vm_compute; reflexivity).
  fold crc in Hs. rewrite E in Hs. destruct Hs as (s' & Es & Hc & Ho & X & HX & _ & Hsz); [split; [by repeat constructor|cbn; lia]|cbn; lia|unfold INT_MAX; cbn; lia|].
  exists s'. split; [exact Es|]. split; [exact Hc|]. split; [exact Ho|]. rewrite HX. assert (El : al_live (g_al s) = ∅) by (by vm_compute). rewrite El, (left_id_L ∅ (∪)), Hsz. by vm_compute.
Defined.
